(* ===== verification/_CoqProject ===== *)
-Q . S2P
Prelude.v
RustStr.v
WorkAdmission.v
WorkAdmissionWf.v
WorkAdmissionProps.v
ScopeLeases.v
ScopeLeasesProps.v
Replicas.v
ReplicasProps.v
Safety.v
SafetyRuntime.v
SafetyProps.v
SafetyRuntimeProps.v
DomeTransition.v
DomeLedger.v
DomeSession.v
DomeSessionInv.v
DomeSessionRun.v
DomeSessionReplay.v
DomeSessionProps.v
DomeTopology.v
DomeTopologyGraph.v
DomeTopologyOrder.v
DomeTopologyResolve.v
DomeTopologyProps.v
DomeHosts.v
DomeHostsProps.v
TimeIndex.v
TimeIndexSlots.v
TimeIndexWalk.v
TimeIndexProps.v
Envelope.v
DomeHosting.v
DomeHostingSpec.v
DomeHostingProps.v
DomeHostingService.v
DomeHostingLifecycle.v
DomeHostingRun.v
DomeHostingView.v
DomeHostingServiceProps.v
DomeHostingDemo.v
AccountSyncItem.v
AccountSyncItemProps.v
ChannelSeal.v
AccountSyncStore.v
AccountSyncStoreProps.v
AccountSyncCycle.v
ChannelKeyStore.v
Calls.v
AccountSync.v
AccountSyncMerge.v
ChannelRows.v
ChannelRotation.v
ChannelMerge.v
AccountSyncFetch.v
AccountSyncResend.v
AccountSyncReplica.v
AccountSyncFetchInv.v
AccountSyncFetchProps.v
AccountSyncFetchLive.v
ChannelMergeProps.v
ChannelHandoff.v
ChannelHandoffRun.v
ChannelHandoffProps.v
ChannelLeaveProps.v
AccountSyncDemo.v
DirectMessageStore.v
DirectMessageStoreProps.v
DirectMessage.v
DirectMessageFrameProps.v
ReceiveOffer.v
ReceiveOfferProps.v
Notifications.v
DirectMessageService.v
DirectMessageSend.v
DirectMessageRun.v
DirectMessageNet.v
DirectMessageProps.v
DirectMessageDemo.v
StoreTables.v
