(* ===== verification/Prelude.v ===== *)
(** * kukuri: a verification development

    kukuri is a peer-to-peer social application with a metaverse of connected Domes and
    optional community nodes.  Its program is a set of Rust crates (src/crates): [core]
    (data and rules), [docs-sync], [blob-service], [iroh-node] and [transport]
    (replication and network), [store] (SQLite), [app-api] (the application service),
    [metaverse-host] (the authority of a hosted Dome), the desktop and web runtimes, and
    the community-node crates [cn-*] with their content-safety pipeline.  This library
    models the parts that decide something, one file per part, and leaves I/O outside.

    ** Files

    - [Prelude] (this file): [result] as the monad of the [?] operator, machine integers
      with their overflow and saturation, Rust orderings ([RustOrd]) with the iteration
      order of B-trees ([set_iter], [set_first], [sort_by]), tactics and shared lemmas.
    - [RustStr]: the [str] methods, integer parsing and printing and the UTF-8 check that
      the components use.
    - [WorkAdmission], [WorkAdmissionWf], [WorkAdmissionProps]: the bounded owner of
      network work, crates/transport/src/work_admission.rs ([NetworkWorkOwner]: scopes,
      coalesced requests, deadlines, lanes, cancellation).  A panic ([expect], index,
      underflow) is [None].  The library states its invariant, that every public call
      keeps it, that no reachable call panics, the resource bounds, and what revocation,
      expiry, fairness, coalescing and cancellation guarantee.
    - [ScopeLeases], [ScopeLeasesProps]: crates/app-api/src/service/scope_leases.rs and
      its callers: reference-counted leases on network scopes and the tasks behind them.
      [set_holder] refines "replace the keys of one holder"; no sequence of calls leaks a
      task.  Effects on tasks are an explicit log.
    - [Replicas], [ReplicasProps]: replica names, time buckets, key families and access
      secrets of crates/docs-sync and crates/core (buckets.rs, keys.rs, replicas.rs,
      access.rs, wire.rs, public_channels.rs).  The crates [hex] and [blake3] are type
      classes; the round trips and the access rule are proved against their laws.
    - [Safety], [SafetyRuntime], [SafetyProps], [SafetyRuntimeProps]: the verdict router
      of crates/cn-safety and the orchestrator, artifacts and verdict reuse of
      crates/cn-safety-runtime.  When content may be indexed, that the order of providers
      does not matter, that failures close the gate, and what a stored verdict may stand
      for.
    - [DomeTransition]: the rules of crates/core/src/dome_transition.rs (tickets, phases,
      coordinates, crossing) and the neighbour offsets of dome_connections.rs.
    - [DomeLedger]: the replay ledger and rate windows of
      crates/metaverse-host/src/support.rs.
    - [DomeSession]: [DomeSessionRuntime] of crates/metaverse-host/src/lib.rs and
      transition.rs: signed inputs, budgets, props, admission reservations and commits,
      exits, evictions, timeouts and spawn positions, in a state-and-error monad [SE]
      whose error keeps the state reached.  [Env] is what a call asks of the physics
      engine, the signature check and the serializer.
    - [DomeSessionInv], [DomeSessionRun], [DomeSessionReplay]: weakest preconditions for
      [SE], the session invariant, its preservation by every operation and along every
      run, and the ledger along a run.
    - [DomeSessionProps]: the theorems about a session.
    - [DomeTopology]: crates/core/src/dome_connections.rs: how every peer resolves the
      connection records it knows into components of Domes with coordinates.
      [DomeTopologyGraph] has the graph lemmas (search, placement, components),
      [DomeTopologyOrder] the order of records, [DomeTopologyResolve] the loop invariant
      and the specification [topology_correct], [DomeTopologyProps] the theorems.  The
      hashes of records and topologies are parameters.
    - [DomeHosts], [DomeHostsProps]: the ledger of received heartbeats
      (crates/app-api/src/service/received_dome_heartbeats.rs), the liveness of a host and
      the evacuation order (crates/core/src/dome_recovery.rs).
    - [TimeIndex]: crates/docs-sync/src/time_index.rs: bounded reads of a time-ordered
      index through prefix queries, against the interface [KeyIndex] of a document store;
      the in-memory store of memory.rs is an instance.  [TimeIndexSlots] relates digit
      prefixes to ranges of times, [TimeIndexWalk] has the laws of a store
      ([KeyIndexLaws]) and the invariant of the walk, [TimeIndexProps] the theorems.
    - [Envelope]: crates/core/src/envelope.rs: signed envelopes, with SHA-256, Schnorr
      signatures and JSON as the classes [Crypto] and [Json] and their laws.
    - [DomeHosting]: crates/core/src/dome_hosting.rs: the leases by which an owner lets a
      device or a community node host a Dome, their acceptance, activation and close, and
      [resolve_dome_hosting_state].  [DomeHostingSpec] has the declarative reading of a
      set of records ([hosting_spec]), [DomeHostingProps] the theorems about it and
      [DomeHostingLifecycle] the life of a lease from the records that are signed.
    - [DomeHostingService]: crates/app-api/src/dome_hosting.rs: the calls of an owner on
      the stored records, sessions, scope leases (of [ScopeLeases]) and received
      heartbeats (of [DomeHosts]), in a state-and-error monad [Call] in which [CallEnv]
      holds the answers of other services.  [DomeHostingRun] has the invariant of every
      run, [DomeHostingView] and [DomeHostingServiceProps] the results of the calls, and
      [DomeHostingDemo] a concrete account at which the theorems are applied.
    - [AccountSyncItem], [AccountSyncItemProps]: crates/core/src/account_sync.rs: the items
      that the devices of one account share, their textual keys and their seals.
    - [AccountSyncStore], [AccountSyncStoreProps]: the in-memory ledger of adopted versions,
      unwritten rows and cursors (crates/store/src/memory/account_sync.rs).
    - [Calls]: calls that change state and may fail ([Prog]), with [wp] and the closure of
      relations under calls ([keeps]).
    - [AccountSync], [AccountSyncMerge], [AccountSyncCycle], [AccountSyncFetch],
      [AccountSyncResend]: crates/app-api/src/service/account_sync_support.rs and
      account_sync_fetch.rs: writing and announcing an item, merging one, the cycle over a
      replica by prefixes, fetching from another device, rebuilding and resending.  [Device]
      is the state of a device, [Env] what it asks of clock, random source and documents.
      [AccountSyncReplica] says what a write leaves in the replica, [AccountSyncFetchInv]
      what a fetch has read, [AccountSyncFetchProps] and [AccountSyncFetchLive] that devices
      catch up and that a fetch ends.
    - [ChannelSeal], [ChannelKeyStore], [ChannelRows]: the sealed key rows of private
      channels (crates/core/src/private_channels.rs), their in-memory store
      (crates/store/src/memory/private_channel_keys.rs) and the state of a channel made
      from its row, with commit, leave and restore (crates/app-api/src/service:
      private_channel_rows.rs, private_channels_support.rs).
    - [ChannelRotation]: crates/app-api/src/private_channel_rotation.rs: a new epoch is
      reserved, committed, distributed, and resumed when it stopped.
    - [ChannelMerge], [ChannelMergeProps]: channel_sync_merge.rs and parts of
      epoch_control_support.rs: what a device takes from its siblings about a channel.
      [ChannelHandoff] is the handoff of the controller as an abstract protocol,
      [ChannelHandoffRun] the proof that the service takes its steps,
      [ChannelHandoffProps] and [ChannelLeaveProps] the theorems, and [AccountSyncDemo]
      concrete devices at which the theorems are applied.
    - [DirectMessageStore], [DirectMessageStoreProps]: the tables of direct messages
      (crates/store/src/memory/direct_messages.rs, pagination.rs): messages, tombstones,
      conversations and the outbox with its five indexes; that the indexes are exact
      ([outbox_wf]) and what a cycle of pages reads.
    - [DirectMessage], [DirectMessageFrameProps]: crates/core/src/direct_messages.rs and
      crypto.rs: shared secrets, frames, acknowledgements and attachments.
    - [ReceiveOffer], [ReceiveOfferProps]: crates/core/src/receive_offer.rs: the sealed
      offers by which an account is told of something to fetch.
    - [Notifications]: the inbox (crates/store/src/memory/notifications.rs) and that its
      count of unread rows is exact.
    - [DirectMessageService], [DirectMessageSend]: crates/app-api/src/direct_messages.rs and
      service: direct_messages_delivery_support.rs, direct_messages_subscription_support.rs,
      receive_offer_support.rs, attachment_support.rs, notifications_support.rs,
      epoch_control_support.rs: receiving offers, filing and acknowledging messages;
      sending, retrying, deleting and clearing.  [DmDevice] is the state of an account, with
      all that it placed in the blob store and handed to the transport; [DmEnv] answers its
      questions; [OtherScopes] is what other components do with the offers that are theirs.
    - [DirectMessageRun]: the invariant [dm_ok] of an account and that every call keeps it.  [DirectMessageNet]: any number of accounts over a network that
      loses, delays, repeats and invents ([net_run]), and what "delivered" means.
      [DirectMessageProps]: what calls do to the outbox, fairness of the retries, deletion and
      clearing.
      [DirectMessageDemo]: three concrete accounts at which the theorems are applied.
    - [StoreTables]: the other tables of the in-memory store (the files of
      crates/store/src/memory/ that no file above names, except envelopes.rs), a module per
      table: [Shelves] (images and videos, with crates/app-api/src/media_bookmarks.rs),
      [Bookmarks] (posts and reactions), [Withdrawals], [Social], [PublicChannels],
      [LiveGame], [Projections] (posts, threads, timelines, observations) and [Retention].
      [Paging], [TimedTable] and [Arrivals] are what they share: readers of pages, rows
      ordered by time and rows of which the newest wins.  [StoreDemo] has concrete rows.

    ** Conventions

    Integers are [Z] at the width of the source: checked, saturating and wrapping
    operations are written out ([u64_checked_add], [usize_sub], [sat_i64], [add_i64]);
    plain additions of values far from the end of their range are plain.  Strings are byte
    sequences.  Ordered maps and sets are [gmap] and [gset], and where the code depends on
    iteration order the model sorts.  Times are milliseconds, or nanoseconds for
    [WorkAdmission], whose clock is an [Instant] without an upper bound here.

    Loops are structural or have fuel that is proved to be enough: [expire] runs at most
    once per deadline, so the size of the deadline set is its fuel ([run_never_panics]
    shows that it does not run out); the physics loop of [advance_to] runs a number of
    steps computed before it starts; the search and the placement of [DomeTopology] have
    one turn per edge and one per instance ([reachability_terminates],
    [derive_components_decides]); [prune] has one turn per expiry; the walk of [TimeIndex]
    has 12 turns per allowed query and one per prefix on its first stack, and reports
    [OutOfFuel] otherwise ([walk_terminates] shows that it never does).  Deleting the keys
    of a channel has one turn per key row and one more (each page but the last deletes a
    row; [leave_forgets_keys] shows that none is left); [next_cycle_prefix] has one turn per
    character; the loops over a remote replica and over unwritten rows take fuel as an
    argument and return [None] when it is used up ([fetch_completes] shows that there is
    enough fuel against a writer at rest, whether the fetch reaches its end or stops with the
    error of a merge).  Clearing a conversation has one turn per message
    and one more ([clear_removes_all] shows that this is enough).  A
    reader of pages in [StoreTables] asks at most once per row and twice more
    ([pages_are_complete], [shelves_exclusive_and_paged] show that there is such a number).

    ** What the theorems show

    Safety of stateful parts is stated over runs: [reachable] owners of network work,
    [run_calls] of the lease table, [run] of a Dome session, [run_ledger] of the heartbeat
    ledger and [run_host] of the hosting service, each with every public operation in any
    order and any answer of its environment; [sync_run] of a writing and a fetching device,
    [fleet_run] of the devices of a channel's owner and [net_run] of accounts that exchange
    direct messages.  Functional theorems give
    the result of an operation on every branch ([expire_enforces_deadlines],
    [lease_change_exact], [route_indexable_iff], [reuse_is_sound], [evict_is_clean],
    [advance_expires_silent], [record_then_latest], ...).  The Dome topology refines the
    specification [topology_correct], is a forest and does not depend on delivery order;
    the hosting state of a Dome is the reading [hosting_spec] of the set of its records
    and names a session only with the signatures of owner and host; the owner's calls
    are shown to succeed and to leave exactly the records of their lease.  Devices of an
    account that receive the same versions agree ([ledger_converges]), a fetch that reports
    its end has left nothing behind but items whose last write stopped half-way
    ([fetch_leaves_nothing_behind]; [sync_run] names these items, and
    [stopped_write_is_missed] shows that they can be missed), at most one device makes
    new epochs of a channel ([one_controller]), and a leave removes every key
    ([leave_forgets_keys]).  A direct message that is shown as delivered was received, unless its ids were used
    twice ([delivered_means_received]), one that was deleted does not come back
    ([deleted_stays_deleted]), clearing removes a whole conversation ([clear_removes_all]) and
    a row of the outbox waits for the rows before it only ([flush_is_fair]); the outbox with its indexes refines a
    plain map ([outbox_refines_map]), and a cycle of its pages is complete although it changes
    meanwhile ([outbox_cycle_complete]).  Of the other tables, an image is on one shelf
    ([shelves_exclusive_and_paged]), a thread is read as a whole ([pages_are_complete]), late
    withdrawals undo nothing ([withdrawals_converge]) and a fetch of a kept topic is retried
    five times ([retries_are_bounded]).  Pages of the time index equal their reference list ([page_is_exact],
    [window_is_exact]) or continue without loss ([resume_loses_nothing]).  Round trips
    cover replica and channel names, index keys, item keys, frames ([frame_roundtrip]) and
    receive offers ([offer_roundtrip]).  Some
    theorems show where the code falls short of what it means: desired holders collide
    ([desired_holders_collide]), a label masks spam ([signal_category_masks_spam]), Join
    ignores reservations ([join_ignores_reservations]; [session_invariant_run] shows that
    twice the limit is the worst case) and a guest prop can take an avatar's id
    ([guest_prop_takes_avatar_id]), the length of a lease wraps ([lease_length_wraps]), a
    split brain has no view ([split_brain_has_no_view]), a rotation that stops a while
    before its commit undoes a handoff ([stale_commit_gives_two_controllers]), a stop that
    arrives before the membership is not activated ([late_stop_is_not_activated]), a write
    that stopped half-way is not announced ([stopped_write_is_never_announced]), keys in
    upper case are skipped by the cycle ([cycle_skips_upper_case]), a cursor older than
    the others is lost ([older_cursor_is_lost]) and a newer page of bookmarks ends there when
    the bookmark at its cursor was removed ([removed_cursor_has_no_older]).

    ** Outside the model

    Cryptography, serialization, SQL, sockets, the physics engine and the user interface
    are library or I/O code; where a part depends on them they are parameters.  The ring of
    snapshots and the layout candidates of a Dome session, the manifest checks at its start
    and the signing of connection agreements are not modelled.  The hosting service reads
    the records that it stored itself: writes of another device of the same account reach
    the model only through [resolve_dome_hosting_state], which takes any records.  For
    account sync the table of participants, follow edges, profile commits, scope leases and
    the documents of an epoch are interfaces ([Social], [ChannelService], [EpochService],
    [ParticipantService]); hints, rendezvous and the tasks that trigger a fetch, the waiting
    loops for another device's answer, the transfer to a new device and the SQLite stores
    are not modelled.  [fleet_run] takes each merge and each rotation as one step (the
    interleaving inside a rotation is what [stale_commit_gives_two_controllers] is about)
    and leaves out the claim of a restored backup, local leaves and joining again.  During one read of the time
    index the store is taken as unchanged, and sums of lengths that cannot reach 2^64 are
    natural numbers.

    Of the in-memory store the table of envelopes and the counters that only tests read are
    not modelled.  Each of its calls is one step, also the few that release the lock of one
    table before they take that of the next (a received message looks for its tombstone
    first); where a listing sorts equal keys of a hash map, the order among them is the map's in the source
    and that of [gmap] here.

    Of direct messages, the views of conversations and messages, the receive loop, the task
    that calls the retries and the SQLite store are not modelled; a relationship is an answer
    of the environment.  [net_run] takes each call as one step; what happens between its steps
    reaches it through the answers, which may differ from question to question, but two calls
    of one account do not interleave.  That nobody forges the signature of an account that
    runs the program is a hypothesis on each step ([unforged]).

    Not modelled although the code decides something there: the documents, tokens and grants
    of private channels (private_channels.rs), the transfer between devices
    (account_transfer.rs), timelines and posts of the application service with their read
    windows (replica_window.rs), layout candidates (dome_layout.rs) and the ring of session
    snapshots, the address books of the transport (peers.rs), and the request checks of the
    community-node protocol.  They stand on documents, sockets or SQL to a larger part than
    the components above and would need interfaces of their own. *)
From Stdlib Require Export Sorted.
From stdpp Require Export base numbers list gmap fin_maps sets strings.

Open Scope Z_scope.

(** ** Results

    [anyhow::Result<T>] and every other Rust [Result]: the error comes first so
    that [result E] is the monad of the [?] operator.  A Rust panic is the
    [None] of the [option] monad. *)
Inductive result (E A : Type) : Type :=
| Ok (a : A)
| Err (e : E).
Arguments Ok {E A} a.
Arguments Err {E A} e.

#[export] Instance result_ret {E} : MRet (result E) := fun A a => Ok a.

#[export] Instance result_bind {E} : MBind (result E) := fun A B k m =>
  match m with Ok a => k a | Err e => Err e end.

#[export] Instance result_fmap {E} : FMap (result E) := fun A B f m =>
  match m with Ok a => Ok (f a) | Err e => Err e end.

(** [bail!] guarded by a condition. *)
Definition ensure {E} (b : bool) (e : E) : result E unit :=
  if b then Ok tt else Err e.

Definition is_ok {E A} (m : result E A) : bool :=
  match m with Ok _ => true | Err _ => false end.

Definition ok_of_option {E A} (e : E) (o : option A) : result E A :=
  match o with Some a => Ok a | None => Err e end.

(** ** Machine integers *)
Definition u8_max : Z := 2 ^ 8 - 1.
Definition u32_max : Z := 2 ^ 32 - 1.
Definition u64_max : Z := 2 ^ 64 - 1.
Definition i64_max : Z := 2 ^ 63 - 1.
Definition i64_min : Z := - 2 ^ 63.

Definition in_u64 (x : Z) : bool := (0 <=? x) && (x <=? u64_max).
Definition in_i64 (x : Z) : bool := (i64_min <=? x) && (x <=? i64_max).

Definition sat_i64 (x : Z) : Z := Z.max i64_min (Z.min i64_max x).
Definition i64_saturating_add (x y : Z) : Z := sat_i64 (x + y).
Definition i64_saturating_sub (x y : Z) : Z := sat_i64 (x - y).

(** [i64] arithmetic of a release build wraps. *)
Definition wrap_i64 (x : Z) : Z := (x + 2 ^ 63) mod 2 ^ 64 - 2 ^ 63.
Definition mul_i64 (x y : Z) : Z := wrap_i64 (x * y).
Definition add_i64 (x y : Z) : Z := wrap_i64 (x + y).
Definition sub_i64 (x y : Z) : Z := wrap_i64 (x - y).

Definition u64_saturating_add (x y : Z) : Z := Z.min u64_max (x + y).
Definition u64_checked_add (x y : Z) : option Z :=
  if x + y <=? u64_max then Some (x + y) else None.

(** An unsigned subtraction that must not underflow: [None] is the panic. *)
Definition usize_sub (x y : Z) : option Z :=
  if y <=? x then Some (x - y) else None.

(** ** Orders: Rust's [Ord] *)
Class RustOrd (A : Type) := rust_cmp : A -> A -> comparison.

Class RustOrdLaws (A : Type) `{RustOrd A} := {
  rust_cmp_eq : forall x y, rust_cmp x y = Eq <-> x = y;
  rust_cmp_opp : forall x y, rust_cmp y x = CompOpp (rust_cmp x y);
  rust_cmp_trans : forall x y z,
    rust_cmp x y = Lt -> rust_cmp y z = Lt -> rust_cmp x z = Lt
}.

Definition rust_leb {A} `{RustOrd A} (x y : A) : bool :=
  match rust_cmp x y with Gt => false | _ => true end.

Definition rust_ltb {A} `{RustOrd A} (x y : A) : bool :=
  match rust_cmp x y with Lt => true | _ => false end.

#[export] Instance Z_rust_ord : RustOrd Z := Z.compare.

#[export] Instance string_rust_ord : RustOrd string := String.compare.

(** [#[derive(Ord)]] on a tuple: lexicographic. *)
#[export] Instance prod_rust_ord {A B} `{RustOrd A, RustOrd B} : RustOrd (A * B) :=
  fun p q => match rust_cmp p.1 q.1 with
             | Eq => rust_cmp p.2 q.2
             | c => c
             end.

(** [BTreeSet::first]: the least element of a set. *)
Definition list_min {A} `{RustOrd A} : list A -> option A :=
  foldr (fun x acc =>
    match acc with
    | None => Some x
    | Some y => if rust_leb x y then Some x else Some y
    end) None.

Definition set_first {A} `{RustOrd A} `{Countable A} (X : gset A) : option A :=
  list_min (elements X).

(** [slice::sort_by], which is stable. *)
Fixpoint insert_by {A} (le : A -> A -> bool) (x : A) (l : list A) : list A :=
  match l with
  | [] => [x]
  | y :: l' => if le x y then x :: y :: l' else y :: insert_by le x l'
  end.

Definition sort_by {A} (le : A -> A -> bool) (l : list A) : list A :=
  foldr (insert_by le) [] l.

(** Iteration order of a [BTreeSet]: ascending. *)
Definition set_iter {A} `{RustOrd A} `{Countable A} (X : gset A) : list A :=
  sort_by rust_leb (elements X).

(** [map.values().map(f).sum()]. *)
Definition map_sum {K A} `{Countable K} (f : A -> Z) (m : gmap K A) : Z :=
  map_fold (fun _ x acc => f x + acc) 0 m.

(** ** Tactics and hints *)
(** Close an equation between closed terms by one run of the virtual machine, without
    building the normal form of a large state. *)
Ltac by_vm := match goal with |- _ = ?b => vm_cast_no_check (@eq_refl _ b) end.

Create HintDb kukuri.

(** Split a chain of [&&]/[||]/negations in the hypotheses. *)
Ltac destruct_bools :=
  repeat match goal with
  | H : (_ && _)%bool = true |- _ => apply andb_prop in H; destruct H
  | H : (_ || _)%bool = false |- _ => apply orb_false_elim in H; destruct H
  | H : negb _ = true |- _ => apply negb_true_iff in H
  | H : negb _ = false |- _ => apply negb_false_iff in H
  | H : bool_decide _ = true |- _ => apply bool_decide_eq_true in H
  | H : bool_decide _ = false |- _ => apply bool_decide_eq_false in H
  end.

(** Invert the binds of the [option] monad in the hypotheses. *)
Ltac inv_bind :=
  repeat match goal with
  | H : (_ ≫= _) = Some _ |- _ =>
      let x := fresh "r" in let E := fresh "E" in
      apply bind_Some in H; destruct H as (x & E & H)
  | p : (_ * _)%type |- _ => destruct p
  end; simplify_eq/=.

(** ** Results *)
Section results.
Context {E A B : Type}.

Lemma result_bind_ok (m : result E A) (k : A -> result E B) b :
  m ≫= k = Ok b -> exists a, m = Ok a /\ k a = Ok b.
Proof. destruct m; simpl; [eauto | discriminate]. Qed.

Lemma bind_ok (a : A) (k : A -> result E B) : Ok a ≫= k = k a.
Proof. done. Qed.

Lemma ensure_ok (c : bool) (e : E) u : ensure c e = Ok u -> c = true.
Proof. unfold ensure. by destruct c. Qed.

Lemma ok_of_option_ok (e : E) (o : option A) a :
  ok_of_option e o = Ok a -> o = Some a.
Proof. destruct o; simpl; congruence. Qed.
End results.

(** Invert the binds of the [result] monad in the hypotheses. *)
Ltac inv_result :=
  repeat match goal with
  | H : (_ ≫= _) = Ok _ |- _ =>
      let x := fresh "r" in let E := fresh "E" in
      apply result_bind_ok in H; destruct H as (x & E & H)
  | H : ensure _ _ = Ok _ |- _ => apply ensure_ok in H
  | H : ok_of_option _ _ = Ok _ |- _ => apply ok_of_option_ok in H
  | H : Err _ = Ok _ |- _ => discriminate H
  | H : Ok _ = Ok _ |- _ => injection H as H
  end; simplify_eq/=.

(** ** Machine integers *)
Lemma u64_checked_add_some x y z :
  u64_checked_add x y = Some z -> z = x + y /\ x + y <= u64_max.
Proof. unfold u64_checked_add. case_match; intros; simplify_eq; lia. Qed.

Lemma usize_sub_some x y : y <= x -> usize_sub x y = Some (x - y).
Proof. unfold usize_sub. intros. case_match; [done | lia]. Qed.

(** ** Orders *)
#[export] Instance Z_rust_ord_laws : RustOrdLaws Z.
Proof.
  split; unfold rust_cmp, Z_rust_ord; intros.
  - apply Z.compare_eq_iff.
  - by rewrite Z.compare_antisym.
  - rewrite Z.compare_lt_iff in *. lia.
Qed.

#[export] Instance prod_rust_ord_laws {A B} `{RustOrdLaws A} `{RustOrdLaws B} :
  RustOrdLaws (A * B).
Proof.
  split; unfold rust_cmp, prod_rust_ord.
  - intros [a b] [a' b']; simpl. destruct (rust_cmp a a') eqn:E.
    + apply rust_cmp_eq in E as ->. rewrite rust_cmp_eq. naive_solver.
    + split; [done|]. intros [= -> ->].
      rewrite (proj2 (rust_cmp_eq a' a') eq_refl) in E. done.
    + split; [done|]. intros [= -> ->].
      rewrite (proj2 (rust_cmp_eq a' a') eq_refl) in E. done.
  - intros [a b] [a' b']; simpl. rewrite (rust_cmp_opp a a').
    destruct (rust_cmp a a'); simpl; [apply rust_cmp_opp | done | done].
  - intros [a b] [a' b'] [a'' b'']; simpl.
    destruct (rust_cmp a a') eqn:E1, (rust_cmp a' a'') eqn:E2; try discriminate.
    + apply rust_cmp_eq in E1 as ->. rewrite E2. apply rust_cmp_trans.
    + apply rust_cmp_eq in E1 as ->. by rewrite E2.
    + apply rust_cmp_eq in E2 as ->. by rewrite E1.
    + by rewrite (rust_cmp_trans a a' a'').
Qed.

#[export] Instance string_rust_ord_laws : RustOrdLaws string.
Proof.
  split; unfold rust_cmp, string_rust_ord.
  - intros x y. split; [apply String.compare_eq_iff | intros <-].
    induction x as [|a x IH]; simpl; [done|].
    unfold Ascii.compare. by rewrite N.compare_refl.
  - intros x y. rewrite (String.compare_antisym y x). done.
  - intros x; induction x as [|a x IH]; intros [|b y] [|c z]; simpl; try done.
    unfold Ascii.compare.
    destruct (N.compare_spec (Ascii.N_of_ascii a) (Ascii.N_of_ascii b)) as [E1|E1|E1];
    destruct (N.compare_spec (Ascii.N_of_ascii b) (Ascii.N_of_ascii c)) as [E2|E2|E2];
    destruct (N.compare_spec (Ascii.N_of_ascii a) (Ascii.N_of_ascii c)) as [E3|E3|E3];
    try done; try lia. apply IH.
Qed.

(** An order pulled back along an injection: [#[derive(Ord)]] on a struct. *)
Lemma inj_rust_ord_laws {A B} `{RustOrdLaws B} (f : A -> B) `{!Inj (=) (=) f} :
  @RustOrdLaws A (fun x y => rust_cmp (f x) (f y)).
Proof.
  split.
  - intros x y. pose proof (rust_cmp_eq (f x) (f y)) as Heq.
    split; [intros ?; by apply (inj f), Heq | intros ->; by apply Heq].
  - intros x y. exact (rust_cmp_opp (f x) (f y)).
  - intros x y z. exact (rust_cmp_trans (f x) (f y) (f z)).
Qed.

Section orders.
Context {A} `{RustOrdLaws A}.

Lemma rust_cmp_refl (x : A) : rust_cmp x x = Eq.
Proof. by apply rust_cmp_eq. Qed.

Lemma rust_leb_refl (x : A) : rust_leb x x = true.
Proof. unfold rust_leb. by rewrite rust_cmp_refl. Qed.

Lemma rust_leb_total (x y : A) : rust_leb x y = false -> rust_leb y x = true.
Proof. unfold rust_leb. rewrite (rust_cmp_opp x y). by destruct (rust_cmp x y). Qed.

Lemma rust_ltb_leb (x y : A) : rust_ltb x y = negb (rust_leb y x).
Proof. unfold rust_ltb, rust_leb. rewrite (rust_cmp_opp x y). by destruct (rust_cmp x y). Qed.

Lemma rust_leb_antisym (x y : A) : rust_leb x y = true -> rust_leb y x = true -> x = y.
Proof.
  unfold rust_leb. rewrite (rust_cmp_opp x y). intros.
  apply rust_cmp_eq. by destruct (rust_cmp x y).
Qed.

Lemma rust_leb_trans (x y z : A) :
  rust_leb x y = true -> rust_leb y z = true -> rust_leb x z = true.
Proof.
  unfold rust_leb. destruct (rust_cmp x y) eqn:E1, (rust_cmp y z) eqn:E2; try done; intros _ _.
  - apply rust_cmp_eq in E1 as ->. by rewrite E2.
  - apply rust_cmp_eq in E1 as ->. by rewrite E2.
  - apply rust_cmp_eq in E2 as ->. by rewrite E1.
  - by rewrite (rust_cmp_trans x y z).
Qed.

Lemma list_min_spec (l : list A) :
  match list_min l with
  | None => l = []
  | Some m => m ∈ l /\ (forall y, y ∈ l -> rust_leb m y = true)
  end.
Proof.
  induction l as [|x l IH]; simpl; [done|].
  destruct (list_min l) as [y|] eqn:E.
  - destruct IH as [Hin Hle].
    assert (Hx := rust_leb_refl x). assert (Ht := rust_leb_total x y).
    destruct (rust_leb x y) eqn:Hxy; (split; [set_solver|]); intros z Hz;
      apply elem_of_cons in Hz as [-> | Hz]; eauto using rust_leb_trans.
  - subst l. split; [set_solver|]. intros z Hz.
    apply list_elem_of_singleton in Hz as ->. apply rust_leb_refl.
Qed.

Context `{Countable A}.

Lemma set_first_some (X : gset A) x :
  set_first X = Some x -> x ∈ X /\ (forall y, y ∈ X -> rust_leb x y = true).
Proof.
  unfold set_first. intros E. pose proof (list_min_spec (elements X)) as Hs.
  rewrite E in Hs. set_solver.
Qed.

Lemma set_first_none (X : gset A) : set_first X = None <-> X = ∅.
Proof.
  unfold set_first. pose proof (list_min_spec (elements X)) as Hs.
  destruct (list_min (elements X)) as [m|]; split; intros HX; try done.
  - subst X. destruct Hs as [Hm _]. by apply elem_of_elements, not_elem_of_empty in Hm.
  - by apply leibniz_equiv, elements_empty_iff.
Qed.
End orders.

(** ** Sorting *)
Section sorting.
Context {A : Type} (le : A -> A -> bool).

Lemma insert_by_perm x l : insert_by le x l ≡ₚ x :: l.
Proof.
  induction l as [|y l IH]; simpl; [done|].
  case_match; [done|]. rewrite IH. apply Permutation_swap.
Qed.

Lemma sort_by_perm l : sort_by le l ≡ₚ l.
Proof. induction l as [|x l IH]; simpl; [done|]. by rewrite insert_by_perm, IH. Qed.

Lemma elem_of_sort_by x l : x ∈ sort_by le l <-> x ∈ l.
Proof. by rewrite sort_by_perm. Qed.

Context (le_total : forall x y, le x y = false -> le y x = true).
Context (le_trans : forall x y z, le x y = true -> le y z = true -> le x z = true).

Lemma insert_by_sorted x l :
  StronglySorted (fun a b => le a b = true) l ->
  StronglySorted (fun a b => le a b = true) (insert_by le x l).
Proof using le_total le_trans.
  induction 1 as [|y l Hs IH Hf]; simpl; [repeat constructor|].
  case_match eqn:E.
  - repeat constructor; try done.
    eapply Forall_impl; [exact Hf|]. intros z Hz; simpl in *. eauto.
  - constructor; [done|]. apply Forall_forall. intros z Hz.
    rewrite insert_by_perm in Hz. apply elem_of_cons in Hz as [->|Hz]; [eauto|].
    rewrite Forall_forall in Hf. eauto.
Qed.

Lemma sort_by_sorted l : StronglySorted (fun a b => le a b = true) (sort_by le l).
Proof using le_total le_trans.
  induction l; simpl; [constructor | by apply insert_by_sorted].
Qed.
End sorting.

Lemma elem_of_set_iter {A} `{RustOrd A} `{Countable A} (X : gset A) x :
  x ∈ set_iter X <-> x ∈ X.
Proof. unfold set_iter. rewrite elem_of_sort_by. apply elem_of_elements. Qed.

(** ** Maps *)
Lemma partial_alter_unchanged {K A} `{Countable K} (f : option A -> option A) (m : gmap K A) i :
  f (m !! i) = m !! i -> partial_alter f i m = m.
Proof.
  intros Hf. apply map_eq. intros j. destruct (decide (i = j)) as [<-|].
  - by rewrite lookup_partial_alter_eq.
  - by rewrite lookup_partial_alter_ne.
Qed.

(** ** Sums over maps *)
Section map_sum.
Context {K A} `{Countable K} (f : A -> Z).

Lemma map_sum_empty : map_sum f (∅ : gmap K A) = 0.
Proof. apply map_fold_empty. Qed.

Lemma map_sum_insert (m : gmap K A) i x :
  m !! i = None -> map_sum f (<[i:=x]> m) = f x + map_sum f m.
Proof. intros. unfold map_sum. rewrite map_fold_insert_L; [done | intros; lia | done]. Qed.

Lemma map_sum_delete (m : gmap K A) i x :
  m !! i = Some x -> map_sum f m = f x + map_sum f (delete i m).
Proof.
  intros Hi. rewrite <- (insert_delete_id m i x) at 1 by done.
  apply map_sum_insert, lookup_delete_eq.
Qed.

Lemma map_sum_update (m : gmap K A) i x y :
  m !! i = Some x -> map_sum f (<[i:=y]> m) = map_sum f m - f x + f y.
Proof.
  intros Hi. rewrite (map_sum_delete m i x Hi).
  rewrite <- insert_delete_eq, map_sum_insert by apply lookup_delete_eq. lia.
Qed.

Lemma map_sum_nonneg (m : gmap K A) :
  (forall i x, m !! i = Some x -> 0 <= f x) -> 0 <= map_sum f m.
Proof.
  induction m as [|i x m Hi IH] using map_ind; intros Hf.
  - by rewrite map_sum_empty.
  - rewrite map_sum_insert by done.
    assert (0 <= f x) by (eapply Hf, lookup_insert_eq).
    assert (0 <= map_sum f m); [|lia].
    apply IH. intros j y Hj. apply (Hf j). rewrite lookup_insert_ne; [done|congruence].
Qed.

Lemma map_sum_ge (m : gmap K A) i x :
  (forall j y, m !! j = Some y -> 0 <= f y) -> m !! i = Some x -> f x <= map_sum f m.
Proof.
  intros Hf Hi. rewrite (map_sum_delete m i x Hi).
  assert (0 <= map_sum f (delete i m)); [|lia].
  apply map_sum_nonneg. intros j y [_ Hj]%lookup_delete_Some. eauto.
Qed.

Lemma map_sum_mono (g : A -> Z) (m : gmap K A) :
  (forall i x, m !! i = Some x -> f x <= g x) -> map_sum f m <= map_sum g m.
Proof.
  induction m as [|i x m Hi IH] using map_ind; intros Hf; [done|].
  unfold map_sum in *. rewrite !map_fold_insert_L by (done || (intros; lia)).
  assert (f x <= g x) by (eapply Hf, lookup_insert_eq).
  enough (map_fold (fun _ x acc => f x + acc) 0 m <= map_fold (fun _ x acc => g x + acc) 0 m) by lia.
  apply IH. intros j y Hj. apply (Hf j). rewrite lookup_insert_ne; [done|congruence].
Qed.

Lemma map_sum_le_size (c : Z) (m : gmap K A) :
  (forall i x, m !! i = Some x -> f x <= c) -> map_sum f m <= c * Z.of_nat (size m).
Proof.
  induction m as [|i x m Hi IH] using map_ind; intros Hf.
  - rewrite map_sum_empty, map_size_empty. lia.
  - rewrite map_sum_insert, map_size_insert_None by done.
    assert (f x <= c) by (eapply Hf, lookup_insert_eq).
    enough (map_sum f m <= c * Z.of_nat (size m)) by lia.
    apply IH. intros j y Hj. apply (Hf j). rewrite lookup_insert_ne; [done|congruence].
Qed.
End map_sum.

(** ** Sets *)
Section sets.
Context {A} `{Countable A}.

Lemma NoDup_set_iter `{RustOrd A} (X : gset A) : NoDup (set_iter X).
Proof. unfold set_iter. rewrite sort_by_perm. apply NoDup_elements. Qed.

Lemma length_filter_elements (P : A -> Prop) `{forall x, Decision (P x)} (X : gset A) :
  length (filter P (elements X)) = size (filter P X).
Proof.
  unfold filter, set_filter. rewrite size_list_to_set; [done|].
  apply NoDup_filter, NoDup_elements.
Qed.
End sets.

(** ** Lists *)
Section lists.
Context {A : Type}.

Lemma list_filter_iff_in (P Q : A -> Prop) `{forall x, Decision (P x), forall x, Decision (Q x)} (l : list A) :
  (forall x, x ∈ l -> P x <-> Q x) -> filter P l = filter Q l.
Proof.
  induction l as [|x l IH]; intros HPQ; [done|].
  assert (Hx : P x <-> Q x) by (apply HPQ; set_solver).
  rewrite !filter_cons, IH by (intros; apply HPQ; set_solver).
  repeat case_decide; naive_solver.
Qed.

Lemma find_spec (f : A -> bool) (l : list A) :
  match List.find f l with
  | Some x => x ∈ l /\ f x = true
  | None => forall x, x ∈ l -> f x = false
  end.
Proof.
  induction l as [|a l IH]; simpl; [set_solver|]. destruct (f a) eqn:E; [set_solver|].
  destruct (List.find f l); [set_solver|]. intros x [->|?]%elem_of_cons; auto.
Qed.

Lemma elem_of_filter_bool (f : A -> bool) (l : list A) x : x ∈ List.filter f l <-> x ∈ l /\ f x = true.
Proof. by rewrite list_elem_of_In, filter_In, <- list_elem_of_In. Qed.

Lemma filter_none (f : A -> bool) (l : list A) : (forall x, x ∈ l -> f x = false) -> List.filter f l = [].
Proof.
  induction l as [|x l IH]; intros Hf; simpl; [done|]. rewrite Hf by apply list_elem_of_here.
  apply IH. intros y Hy. by apply Hf, list_elem_of_further.
Qed.

Lemma filter_same (f g : A -> bool) (l : list A) :
  (forall x, x ∈ l -> f x = g x) -> List.filter f l = List.filter g l.
Proof. intros Hfg. apply filter_ext_in. intros x Hx. apply Hfg. by apply list_elem_of_In. Qed.

Lemma filter_bool_perm (f : A -> bool) (l l' : list A) : l ≡ₚ l' -> List.filter f l ≡ₚ List.filter f l'.
Proof.
  induction 1 as [|x l l' _ IH|x y l|l l' l'' _ IH _ IH']; simpl; [done| | |by etrans].
  - by destruct (f x); [apply perm_skip|].
  - destruct (f x), (f y); try done. apply perm_swap.
Qed.

(** In a list sorted by [R], what satisfies [f] comes before what satisfies [g]. *)
Lemma filter_sorted_split (R : A -> A -> Prop) (f g h : A -> bool) (l : list A) :
  StronglySorted R l ->
  (forall x, x ∈ l -> h x = f x || g x) ->
  (forall x y, x ∈ l -> y ∈ l -> R x y -> g x = true -> f y = false) -> (forall x, x ∈ l -> f x = true -> g x = false) ->
  List.filter h l = List.filter f l ++ List.filter g l.
Proof.
  intros Hs. induction Hs as [|x l Hs IH Hall]; intros Hh Hr Hd; [done|]. rewrite Forall_forall in Hall.
  assert (IH' : List.filter h l = List.filter f l ++ List.filter g l).
  { apply IH; intros; [apply Hh | eapply Hr | apply Hd]; try done; by apply list_elem_of_further. }
  assert (Hx : x ∈ x :: l) by apply list_elem_of_here. cbn. rewrite (Hh x Hx). destruct (f x) eqn:Ef; cbn.
  - rewrite (Hd x Hx Ef). by rewrite IH'.
  - destruct (g x) eqn:Eg; cbn; [|done]. rewrite IH', (filter_none f); [done|].
    intros y Hy. apply (Hr x y Hx); [by apply list_elem_of_further | auto | done].
Qed.

Lemma omap_filter {B} (f : A -> option B) (P : A -> bool) (Q : B -> bool) (l : list A) :
  (forall x y, x ∈ l -> f x = Some y -> P x = Q y) -> omap f (List.filter P l) = List.filter Q (omap f l).
Proof.
  induction l as [|x l IH]; intros HPQ; [done|].
  assert (IH' : omap f (List.filter P l) = List.filter Q (omap f l)).
  { apply IH. intros. apply HPQ; [by apply list_elem_of_further | done]. }
  assert (Hx := HPQ x). cbn. destruct (f x) as [y|] eqn:E.
  - cbn. rewrite (Hx y) by (apply list_elem_of_here || done). destruct (Q y); cbn; rewrite ?E; by rewrite IH'.
  - destruct (P x); cbn; rewrite ?E; exact IH'.
Qed.

Lemma existsb_elem (f : A -> bool) (l : list A) : existsb f l = true <-> exists x, x ∈ l /\ f x = true.
Proof. rewrite existsb_exists. by setoid_rewrite list_elem_of_In. Qed.

Lemma omap_ext_in {B} (f g : A -> option B) (l : list A) :
  (forall x, x ∈ l -> f x = g x) -> omap f l = omap g l.
Proof.
  intros Hfg. apply list_omap_ext, Forall2_same_length_lookup_2; [done|].
  intros i x y Hx Hy. simplify_eq. apply Hfg. by eapply list_elem_of_lookup_2.
Qed.
End lists.

(** ** Sublists *)
Lemma sublist_sorted {A} (R : A -> A -> Prop) l l' : l `sublist_of` l' -> StronglySorted R l' -> StronglySorted R l.
Proof.
  induction 1 as [|x l l' Hsub IH|x l l' Hsub IH]; intros Hs; [done | |]; inversion Hs; subst; [|auto].
  constructor; [auto|]. rewrite Forall_forall in *. intros y Hy. eauto using elem_of_sublist.
Qed.

Lemma sublist_filter_bool {A} (f : A -> bool) (l : list A) : List.filter f l `sublist_of` l.
Proof. induction l as [|x l IH]; simpl; [done|]. destruct (f x); [by apply sublist_skip | by apply sublist_cons]. Qed.
