(* ===== verification/RustStr.v ===== *)
(** * Rust strings

    A Rust [str] is a sequence of UTF-8 bytes; here a [string] is that sequence,
    one character per byte.  The searches the code uses have ASCII patterns, so
    searching bytes is searching characters.  The file models the methods of
    [str], the integer parsing and printing and the UTF-8 validity check that the
    components use, with their laws. *)
From Stdlib Require Export Ascii.
From S2P Require Import Prelude.

Infix "++s" := String.append (at level 60, right associativity) : string_scope.
Open Scope string_scope.
#[global] Arguments String.append : simpl nomatch.
Open Scope Z_scope.

(** ** Searching *)
Fixpoint strip_prefix (p s : string) : option string :=
  match p, s with
  | EmptyString, _ => Some s
  | String a p, String b s => if decide (a = b) then strip_prefix p s else None
  | _, EmptyString => None
  end.

Definition starts_with (p s : string) : bool :=
  match strip_prefix p s with Some _ => true | None => false end.

Definition str_len (s : string) : Z := Z.of_nat (String.length s).

Definition str_is_empty (s : string) : bool :=
  match s with EmptyString => true | _ => false end.

(** [s.bytes().all(f)] *)
Fixpoint str_all (f : ascii -> bool) (s : string) : bool :=
  match s with EmptyString => true | String a s => f a && str_all f s end.

(** [split_once] and [rsplit_once], for a non-empty pattern. *)
Fixpoint split_once (pat s : string) : option (string * string) :=
  match strip_prefix pat s with
  | Some rest => Some (EmptyString, rest)
  | None =>
      match s with
      | EmptyString => None
      | String a s' => '(x, y) ← split_once pat s'; Some (String a x, y)
      end
  end.

Fixpoint rsplit_once (pat s : string) : option (string * string) :=
  match s with
  | EmptyString => None
  | String a s' =>
      match rsplit_once pat s' with
      | Some (x, y) => Some (String a x, y)
      | None => rest ← strip_prefix pat s; Some (EmptyString, rest)
      end
  end.

Definition contains (pat s : string) : bool :=
  match split_once pat s with Some _ => true | None => false end.

(** [split(pat)]: every step consumes at least the pattern, so the length of the
    string is enough fuel. *)
Fixpoint split_fuel (fuel : nat) (pat s : string) : list string :=
  match fuel with
  | O => [s]
  | S fuel =>
      match split_once pat s with
      | Some (x, y) => x :: split_fuel fuel pat y
      | None => [s]
      end
  end.
Definition split (pat s : string) : list string := split_fuel (String.length s) pat s.

(** ** White space *)

(** The UTF-8 encodings of the characters with the Unicode property [White_Space]. *)
Definition utf8_whitespace : list string :=
  map (fun l => String.string_of_list_ascii (map ascii_of_nat l))
    [[9]; [10]; [11]; [12]; [13]; [32]; [194;133]; [194;160]; [225;154;128];
     [226;128;128]; [226;128;129]; [226;128;130]; [226;128;131]; [226;128;132];
     [226;128;133]; [226;128;134]; [226;128;135]; [226;128;136]; [226;128;137];
     [226;128;138]; [226;128;168]; [226;128;169]; [226;128;175]; [226;129;159];
     [227;128;128]]%nat.

Definition strip_any (ps : list string) (s : string) : option string :=
  foldr (fun p acc => match strip_prefix p s with Some r => Some r | None => acc end) None ps.

Fixpoint trim_fuel (fuel : nat) (ps : list string) (s : string) : string :=
  match fuel with
  | O => s
  | S fuel => match strip_any ps s with Some r => trim_fuel fuel ps r | None => s end
  end.

Definition str_rev (s : string) : string := String.string_of_list_ascii (rev (String.list_ascii_of_string s)).

Definition trim_start (s : string) : string := trim_fuel (String.length s) utf8_whitespace s.
(** A character ends the string exactly when its reversed bytes start the reversal. *)
Definition trim_end (s : string) : string :=
  str_rev (trim_fuel (String.length s) (map str_rev utf8_whitespace) (str_rev s)).
Definition trim (s : string) : string := trim_end (trim_start s).

(** ** Integers *)
Definition is_ascii_digit (a : ascii) : bool :=
  (48 <=? Z.of_nat (nat_of_ascii a)) && (Z.of_nat (nat_of_ascii a) <=? 57).
Definition is_lower_hex (a : ascii) : bool :=
  is_ascii_digit a || ((97 <=? Z.of_nat (nat_of_ascii a)) && (Z.of_nat (nat_of_ascii a) <=? 102)).

Definition digit_char (d : Z) : ascii := ascii_of_nat (48 + Z.to_nat d).
Definition char_digit (a : ascii) : Z := Z.of_nat (nat_of_ascii a) - 48.

#[global] Arguments is_ascii_digit : simpl never.
#[global] Arguments is_lower_hex : simpl never.
#[global] Arguments digit_char : simpl never.
#[global] Arguments char_digit : simpl never.

(** The last [w] decimal digits of [n]. *)
Fixpoint pad_digits (w : nat) (n : Z) : string :=
  match w with
  | O => EmptyString
  | S w => String (digit_char ((n / 10 ^ Z.of_nat w) mod 10)) (pad_digits w n)
  end.

(** The number of decimal digits of [n]; 40 digits are more than any 64-bit integer has. *)
Fixpoint ndigits_from (fuel k : nat) (n : Z) : nat :=
  match fuel with
  | O => k
  | S fuel => if n <? 10 ^ Z.of_nat k then k else ndigits_from fuel (S k) n
  end.
Definition ndigits (n : Z) : nat := ndigits_from 40 1 n.

(** [n.to_string()] and [format!("{:0w$}", n)] of a non-negative integer. *)
Definition dec (n : Z) : string := pad_digits (ndigits n) n.
Definition dec_padded (w : nat) (n : Z) : string := pad_digits (Nat.max w (ndigits n)) n.

Fixpoint parse_digits (acc : Z) (s : string) : option Z :=
  match s with
  | EmptyString => Some acc
  | String a s => if is_ascii_digit a then parse_digits (10 * acc + char_digit a) s else None
  end.

(** [s.parse::<u64>()]: one leading [+] is accepted, an overflow is an error. *)
Definition parse_u64 (s : string) : option Z :=
  let digits := match s with String "+" r => r | _ => s end in
  if str_is_empty digits then None
  else n ← parse_digits 0 digits; if n <=? u64_max then Some n else None.

(** [s.parse::<i64>()] *)
Definition parse_i64 (s : string) : option Z :=
  match s with
  | String "-" r =>
      if str_is_empty r then None
      else n ← parse_digits 0 r; if n <=? i64_max + 1 then Some (- n) else None
  | _ =>
      let digits := match s with String "+" r => r | _ => s end in
      if str_is_empty digits then None
      else n ← parse_digits 0 digits; if n <=? i64_max then Some n else None
  end.

(** ** UTF-8 validity ([String::from_utf8]) *)
Definition byte_in (lo hi : Z) (a : ascii) : bool :=
  (lo <=? Z.of_nat (nat_of_ascii a)) && (Z.of_nat (nat_of_ascii a) <=? hi).
Definition cont (a : ascii) : bool := byte_in 128 191 a.

Fixpoint valid_utf8 (s : string) : bool :=
  match s with
  | EmptyString => true
  | String a s1 =>
      if byte_in 0 127 a then valid_utf8 s1
      else match s1 with
      | String b s2 =>
          if byte_in 194 223 a then cont b && valid_utf8 s2
          else match s2 with
          | String c s3 =>
              if byte_in 224 239 a then
                (if byte_in 224 224 a then byte_in 160 191 b
                 else if byte_in 237 237 a then byte_in 128 159 b else cont b)
                && cont c && valid_utf8 s3
              else match s3 with
              | String d s4 =>
                  byte_in 240 244 a
                  && (if byte_in 240 240 a then byte_in 144 191 b
                      else if byte_in 244 244 a then byte_in 128 143 b else cont b)
                  && cont c && cont d && valid_utf8 s4
              | _ => false
              end
          | _ => false
          end
      | _ => false
      end
  end.

(** ** Laws: appending and searching *)
Lemma str_app_nil s : s ++s "" = s.
Proof. induction s; simpl; congruence. Qed.

Lemma str_app_assoc x y z : (x ++s y) ++s z = x ++s (y ++s z).
Proof. induction x; simpl; congruence. Qed.

Lemma str_app_inj p x y : p ++s x = p ++s y -> x = y.
Proof. induction p; simpl; [done|]. intros [= ?]. auto. Qed.

Lemma str_app_length x y : String.length (x ++s y) = (String.length x + String.length y)%nat.
Proof. induction x; simpl; congruence. Qed.

Lemma strip_prefix_some p s r : strip_prefix p s = Some r <-> s = p ++s r.
Proof.
  revert s. induction p as [|a p IH]; intros s; simpl.
  - split; [by intros [= ->] | by intros ->].
  - destruct s as [|b s]; [done|]. case_decide as Hab.
    + subst b. rewrite IH. split; [by intros -> | by intros [= ->]].
    + split; [done|]. intros [= ? _]. done.
Qed.

Lemma strip_prefix_app p r : strip_prefix p (p ++s r) = Some r.
Proof. by apply strip_prefix_some. Qed.

Lemma starts_with_true p s : starts_with p s = true <-> exists r, s = p ++s r.
Proof.
  unfold starts_with. destruct (strip_prefix p s) as [r|] eqn:E.
  - apply strip_prefix_some in E as ->. split; eauto.
  - split; [done|]. intros [r ->]. by rewrite strip_prefix_app in E.
Qed.

Lemma starts_with_app p r : starts_with p (p ++s r) = true.
Proof. apply starts_with_true. eauto. Qed.

Lemma str_all_app f x y : str_all f (x ++s y) = str_all f x && str_all f y.
Proof. induction x as [|a x IH]; simpl; [done|]. by rewrite IH, andb_assoc. Qed.

Lemma str_all_impl (f g : ascii -> bool) s :
  (forall a, f a = true -> g a = true) -> str_all f s = true -> str_all g s = true.
Proof. intros Hfg. induction s as [|a s IH]; simpl; [done|]. intros [? ?]%andb_prop. by rewrite Hfg, IH. Qed.

Lemma split_once_spec pat s x y : split_once pat s = Some (x, y) -> s = x ++s pat ++s y.
Proof.
  revert x y. induction s as [|a s IH]; intros x y; simpl.
  - destruct (strip_prefix pat "") eqn:E; [|done]. intros [= <- <-]. by apply strip_prefix_some in E.
  - destruct (strip_prefix pat (String a s)) eqn:E.
    + intros [= <- <-]. by apply strip_prefix_some in E.
    + intros ([x' y'] & Hs & [= <- <-])%bind_Some. simpl. by rewrite (IH _ _ Hs).
Qed.

(** A string without the first character of the pattern holds no match. *)
Definition lacks (c : ascii) (s : string) : bool := str_all (fun a => negb (bool_decide (a = c))) s.

Lemma split_once_lacks c pat s y :
  lacks c s = true -> split_once (String c pat) (s ++s String c pat ++s y) = Some (s, y).
Proof.
  induction s as [|a s IH]; intros Hl.
  - change (match strip_prefix (String c pat) (String c pat ++s y) with
            | Some rest => Some ("", rest) | None => match String c pat ++s y with
              | "" => None | String a s' => '(x, y) ← split_once (String c pat) s'; Some (String a x, y) end
            end = Some ("", y)).
    by rewrite strip_prefix_app.
  - unfold lacks in Hl. simpl in Hl. apply andb_prop in Hl as [Ha Hl]. destruct_bools. simpl in IH |- *.
    rewrite decide_False by congruence. by rewrite IH.
Qed.

Lemma split_once_none c pat s : lacks c s = true -> split_once (String c pat) s = None.
Proof.
  induction s as [|a s IH]; intros Hl; [done|].
  unfold lacks in Hl. simpl in Hl. apply andb_prop in Hl as [Ha Hl]. destruct_bools. simpl.
  rewrite decide_False by congruence. by rewrite IH.
Qed.

Lemma rsplit_once_none c pat s : lacks c s = true -> rsplit_once (String c pat) s = None.
Proof.
  induction s as [|a s IH]; intros Hl; [done|].
  unfold lacks in Hl. simpl in Hl. apply andb_prop in Hl as [Ha Hl]. destruct_bools. simpl.
  rewrite IH by done. by rewrite decide_False by congruence.
Qed.

Lemma rsplit_once_lacks c x y :
  lacks c y = true -> rsplit_once (String c "") (x ++s String c "" ++s y) = Some (x, y).
Proof.
  intros Hy. induction x as [|a x IH]; simpl in *.
  - rewrite rsplit_once_none by done. by rewrite decide_True.
  - by rewrite IH.
Qed.

Lemma rsplit_once_spec c s x y :
  rsplit_once (String c "") s = Some (x, y) -> s = x ++s String c "" ++s y /\ lacks c y = true.
Proof.
  revert x y. induction s as [|a s IH]; intros x y; simpl; [done|].
  destruct (rsplit_once (String c "") s) as [[x' y']|] eqn:E.
  - intros [= <- <-]. destruct (IH _ _ eq_refl) as [-> ?]. done.
  - case_decide; [|done]. subst a. intros [= <- <-]. split; [done|]. clear IH.
    induction s as [|b s IH]; [done|]. simpl in *.
    destruct (rsplit_once (String c "") s) as [[? ?]|]; [done|].
    case_decide; [done|]. unfold lacks. simpl. rewrite bool_decide_false by congruence. simpl. by apply IH.
Qed.

Lemma split_once_spec_lacks c s x y :
  split_once (String c "") s = Some (x, y) -> s = x ++s String c "" ++s y /\ lacks c x = true.
Proof.
  intros Hs. split; [by apply split_once_spec|]. revert x y Hs.
  induction s as [|a s IH]; intros x y; simpl; [done|].
  case_decide as Hc.
  - by intros [= <- <-].
  - intros ([x' y'] & Hs & [= <- <-])%bind_Some. unfold lacks. simpl.
    rewrite bool_decide_false by congruence. simpl. by eapply IH.
Qed.

(** [split] of parts that hold no separator. *)
Lemma split_last c pat s : lacks c s = true -> split (String c pat) s = [s].
Proof.
  intros Hl. unfold split. destruct (String.length s); [done|].
  cbn [split_fuel]. by rewrite split_once_none.
Qed.

Lemma split_fuel_enough c pat n s :
  (String.length s <= n)%nat -> split_fuel n (String c pat) s = split (String c pat) s.
Proof.
  unfold split. revert s. induction n as [n IH] using lt_wf_ind. intros s Hn.
  destruct n as [|n].
  - destruct s; [done|]. simpl in Hn. lia.
  - destruct (String.length s) as [|m] eqn:El.
    + destruct s; done.
    + cbn [split_fuel]. destruct (split_once (String c pat) s) as [[x y]|] eqn:E; [|done].
      f_equal. apply split_once_spec in E. apply (f_equal String.length) in E.
      rewrite !str_app_length in E. simpl in E.
      rewrite (IH n) by lia. symmetry. apply IH; lia.
Qed.

Lemma split_cons c pat s y :
  lacks c s = true -> split (String c pat) (s ++s String c pat ++s y) = s :: split (String c pat) y.
Proof.
  intros Hl. rewrite <- (split_fuel_enough c pat (S (String.length (s ++s String c pat ++s y)))) by lia.
  cbn [split_fuel]. rewrite split_once_lacks by done. f_equal. apply split_fuel_enough.
  rewrite !str_app_length. lia.
Qed.

(** Joining what [split] returns gives the string back. *)
Lemma split_join pat s : foldr (fun x acc => match acc with None => Some x | Some r => Some (x ++s pat ++s r) end) None (split pat s) = Some s.
Proof.
  unfold split. generalize (String.length s). intros n. revert s.
  induction n as [|n IH]; intros s; simpl; [done|].
  destruct (split_once pat s) as [[x y]|] eqn:E; simpl; [|done].
  rewrite IH. by rewrite (split_once_spec _ _ _ _ E).
Qed.

(** ** Laws: decimal digits *)
Lemma nat_digit_char d : 0 <= d < 10 -> Z.of_nat (nat_of_ascii (digit_char d)) = 48 + d.
Proof. intros. unfold digit_char. rewrite nat_ascii_embedding by lia. lia. Qed.

Lemma is_digit_digit_char d : 0 <= d < 10 -> is_ascii_digit (digit_char d) = true.
Proof. intros. unfold is_ascii_digit. rewrite nat_digit_char by done. lia. Qed.

Lemma char_digit_char d : 0 <= d < 10 -> char_digit (digit_char d) = d.
Proof. intros. unfold char_digit. rewrite nat_digit_char by done. lia. Qed.

Lemma digit_char_digit a : is_ascii_digit a = true -> 0 <= char_digit a < 10 /\ digit_char (char_digit a) = a.
Proof.
  unfold is_ascii_digit, char_digit, digit_char. intros. split; [lia|].
  rewrite <- (ascii_nat_embedding a) at 2. f_equal. lia.
Qed.

Lemma pad_digits_length w n : String.length (pad_digits w n) = w.
Proof. induction w; simpl; congruence. Qed.

Lemma pad_digits_digits w n : str_all is_ascii_digit (pad_digits w n) = true.
Proof.
  induction w as [|w IH]; [done|]. cbn [pad_digits str_all]. rewrite IH, is_digit_digit_char; [done|].
  apply Z.mod_pos_bound. lia.
Qed.

Lemma pow10_pos w : 0 < 10 ^ Z.of_nat w.
Proof. apply Z.pow_pos_nonneg; lia. Qed.
#[export] Hint Resolve pow10_pos : kukuri.

Lemma pow10_S w : 10 ^ Z.of_nat (S w) = 10 * 10 ^ Z.of_nat w.
Proof. rewrite Nat2Z.inj_succ, Z.pow_succ_r by lia. done. Qed.

(** Splitting off the leading digit of a window of [S w] digits. *)
Lemma mod_pow10_S w n :
  n mod 10 ^ Z.of_nat (S w) = 10 ^ Z.of_nat w * ((n / 10 ^ Z.of_nat w) mod 10) + n mod 10 ^ Z.of_nat w.
Proof.
  pose proof (pow10_pos w). rewrite pow10_S, Z.mul_comm.
  rewrite Z.rem_mul_r by lia. lia.
Qed.

Lemma parse_pad_digits acc w n :
  parse_digits acc (pad_digits w n) = Some (acc * 10 ^ Z.of_nat w + n mod 10 ^ Z.of_nat w).
Proof.
  revert acc. induction w as [|w IH]; intros acc.
  - simpl. rewrite Z.mod_1_r. f_equal. lia.
  - cbn [pad_digits parse_digits]. set (d := (n / 10 ^ Z.of_nat w) mod 10).
    assert (Hd : 0 <= d < 10) by (apply Z.mod_pos_bound; lia).
    rewrite is_digit_digit_char, char_digit_char, IH by done. f_equal.
    rewrite mod_pow10_S, pow10_S. fold d. lia.
Qed.

Lemma parse_digits_some acc s :
  str_all is_ascii_digit s = true ->
  exists v, parse_digits 0 s = Some v /\ 0 <= v < 10 ^ Z.of_nat (String.length s) /\
            s = pad_digits (String.length s) v /\
            parse_digits acc s = Some (acc * 10 ^ Z.of_nat (String.length s) + v).
Proof.
  revert acc. induction s as [|a s IH]; intros acc Hs.
  - exists 0. simpl. split_and!; try done. f_equal. lia.
  - simpl in Hs. apply andb_prop in Hs as [Ha Hs].
    destruct (digit_char_digit a Ha) as [Hd Hc].
    destruct (IH (10 * 0 + char_digit a) Hs) as (v & Hv0 & Hv & Hsv & Hp).
    destruct (IH (10 * acc + char_digit a) Hs) as (v' & Hv0' & _ & _ & Hp'). simplify_eq.
    cbn [parse_digits String.length]. rewrite Ha, Hp, Hp', pow10_S.
    pose proof (pow10_pos (String.length s)). set (P := 10 ^ Z.of_nat (String.length s)) in *.
    exists (char_digit a * P + v). split_and!; [f_equal; lia | nia | nia | | f_equal; lia].
    cbn [pad_digits]. fold P. f_equal.
    + rewrite Z.div_add_l by lia. rewrite (Z.div_small v) by lia. rewrite Z.add_0_r, Z.mod_small by done. by rewrite Hc.
    + rewrite Hsv at 1. clear -H. revert v. generalize (char_digit a). subst P.
      generalize (String.length s) as w. intros w d v.
      enough (Hg : forall k, (k <= w)%nat -> pad_digits k v = pad_digits k (d * 10 ^ Z.of_nat w + v)) by by apply Hg.
      induction k as [|k IHk]; intros Hk; [done|]. simpl. f_equal; [|apply IHk; lia]. f_equal.
      replace (Z.of_nat w) with (Z.of_nat (w - S k) + 1 + Z.of_nat k) by lia.
      rewrite !Z.pow_add_r by lia. pose proof (pow10_pos k).
      replace (d * (10 ^ Z.of_nat (w - S k) * 10 ^ 1 * 10 ^ Z.of_nat k) + v)
        with (d * 10 ^ Z.of_nat (w - S k) * 10 * 10 ^ Z.of_nat k + v) by lia.
      rewrite Z.div_add_l by lia. rewrite Z.add_comm, Z.mod_add by lia. done.
Qed.

(** ** Laws: printing and parsing *)
Lemma ndigits_from_spec fuel k n :
  0 <= n < 10 ^ Z.of_nat (k + fuel) -> n < 10 ^ Z.of_nat (ndigits_from fuel k n).
Proof.
  revert k. induction fuel as [|fuel IH]; intros k Hn; simpl.
  - rewrite Nat.add_0_r in Hn. lia.
  - case_match; [lia|]. apply IH. by replace (S k + fuel)%nat with (k + S fuel)%nat by lia.
Qed.

Lemma ndigits_from_le fuel k n w :
  (k <= w)%nat -> n < 10 ^ Z.of_nat w -> (ndigits_from fuel k n <= w)%nat \/ (k + fuel <= w)%nat.
Proof.
  revert k. induction fuel as [|fuel IH]; intros k Hk Hn; simpl; [lia|].
  case_match; [lia|]. destruct (decide (k = w)) as [->|]; [lia|].
  destruct (IH (S k)); lia.
Qed.

Lemma ndigits_from_ge fuel k n : (k <= ndigits_from fuel k n)%nat.
Proof. revert k. induction fuel as [|f IH]; intros k; simpl; [lia|]. case_match; [lia|]. specialize (IH (S k)). lia. Qed.

Lemma u64_lt_pow : u64_max < 10 ^ Z.of_nat 20.
Proof. vm_compute. reflexivity. Qed.

Lemma ndigits_bounds n : 0 <= n <= u64_max -> n < 10 ^ Z.of_nat (ndigits n) /\ (1 <= ndigits n <= 20)%nat.
Proof.
  intros Hn. pose proof u64_lt_pow. unfold ndigits. split; [|split].
  - apply ndigits_from_spec. assert (10 ^ Z.of_nat 20 < 10 ^ Z.of_nat (1 + 40)) by (vm_compute; reflexivity). lia.
  - apply ndigits_from_ge.
  - destruct (ndigits_from_le 40 1 n 20); lia.
Qed.

Lemma dec_padded_eq w n : 0 <= n <= u64_max -> (20 <= w)%nat -> dec_padded w n = pad_digits w n.
Proof. intros Hn Hw. unfold dec_padded. destruct (ndigits_bounds n Hn). f_equal. lia. Qed.

Lemma parse_digits_pad w n : 0 <= n < 10 ^ Z.of_nat w -> parse_digits 0 (pad_digits w n) = Some n.
Proof. intros Hn. rewrite parse_pad_digits, Z.mod_small by done. done. Qed.

Lemma digits_head_not a s : str_all is_ascii_digit (String a s) = true -> a <> "+"%char /\ a <> "-"%char.
Proof. simpl. intros [Ha _]%andb_prop. split; intros ->; done. Qed.

(** A string of digits is parsed without a sign. *)
Lemma parse_u64_digits s :
  str_all is_ascii_digit s = true -> s <> "" ->
  parse_u64 s = (n ← parse_digits 0 s; if n <=? u64_max then Some n else None).
Proof.
  destruct s as [|a s]; [done|]. intros [Hp _]%digits_head_not _. unfold parse_u64.
  destruct a as [[] [] [] [] [] [] [] []]; try done.
Qed.

Lemma parse_i64_digits s :
  str_all is_ascii_digit s = true -> s <> "" ->
  parse_i64 s = (n ← parse_digits 0 s; if n <=? i64_max then Some n else None).
Proof.
  destruct s as [|a s]; [done|]. intros [Hp Hm]%digits_head_not _. unfold parse_i64.
  destruct a as [[] [] [] [] [] [] [] []]; try done.
Qed.

Lemma pad_digits_nonempty w n : (1 <= w)%nat -> pad_digits w n <> "".
Proof. destruct w; [lia | done]. Qed.

Lemma parse_u64_dec n : 0 <= n <= u64_max -> parse_u64 (dec n) = Some n.
Proof.
  intros Hn. destruct (ndigits_bounds n Hn). unfold dec.
  rewrite parse_u64_digits by (apply pad_digits_digits || (apply pad_digits_nonempty; lia)).
  rewrite parse_digits_pad by lia. simpl. destruct (Z.leb_spec n u64_max); [done|lia].
Qed.

Lemma parse_i64_pad w n :
  0 <= n <= i64_max -> (20 <= w)%nat -> parse_i64 (pad_digits w n) = Some n.
Proof.
  intros Hn Hw. rewrite parse_i64_digits by (apply pad_digits_digits || (apply pad_digits_nonempty; lia)).
  assert (n < 10 ^ Z.of_nat w).
  { assert (10 ^ 20 <= 10 ^ Z.of_nat w) by (apply Z.pow_le_mono_r; lia).
    assert (i64_max < 10 ^ 20) by (vm_compute; reflexivity). lia. }
  rewrite parse_digits_pad by lia. simpl. destruct (Z.leb_spec n i64_max); [done|lia].
Qed.

(** ** Laws: canonical decimals *)
Lemma ndigits_from_unique fuel k n w :
  (k <= w <= k + fuel)%nat -> n < 10 ^ Z.of_nat w -> (forall j, (k <= j < w)%nat -> 10 ^ Z.of_nat j <= n) ->
  ndigits_from fuel k n = w.
Proof.
  revert k. induction fuel as [|fuel IH]; intros k Hk Hn Hge; simpl; [lia|].
  destruct (decide (k = w)) as [->|Hne].
  - destruct (Z.ltb_spec n (10 ^ Z.of_nat w)); [done|lia].
  - specialize (Hge k ltac:(lia)) as Hk'. destruct (Z.ltb_spec n (10 ^ Z.of_nat k)); [lia|].
    apply IH; [lia | done |]. intros j Hj. apply Hge. lia.
Qed.

Lemma ndigits_unique n w :
  (1 <= w <= 40)%nat -> 10 ^ Z.of_nat (w - 1) <= n < 10 ^ Z.of_nat w -> ndigits n = w.
Proof.
  intros Hw Hn. unfold ndigits. apply ndigits_from_unique; [lia | lia |].
  intros j Hj. transitivity (10 ^ Z.of_nat (w - 1)); [|lia]. apply Z.pow_le_mono_r; lia.
Qed.

Lemma pad_digits_head w n :
  0 <= n < 10 ^ Z.of_nat (S w) ->
  pad_digits (S w) n = String (digit_char (n / 10 ^ Z.of_nat w)) (pad_digits w n) /\
  0 <= n / 10 ^ Z.of_nat w < 10.
Proof.
  intros Hn. pose proof (pow10_pos w). rewrite pow10_S in Hn.
  assert (0 <= n / 10 ^ Z.of_nat w < 10).
  { split; [apply Z.div_pos; lia | apply Z.div_lt_upper_bound; lia]. }
  split; [|done]. cbn [pad_digits]. by rewrite (Z.mod_small (n / _)).
Qed.

(** A non-empty string of digits that does not start with [0] is the decimal of its value. *)
Lemma dec_canonical s v :
  str_all is_ascii_digit s = true -> starts_with "0" s = false -> s <> "" -> (String.length s <= 40)%nat ->
  parse_digits 0 s = Some v -> dec v = s.
Proof.
  intros Hd H0 Hne Hlen Hv. destruct (parse_digits_some 0 s Hd) as (v0 & Hv0 & Hb & Hs & _). simplify_eq.
  destruct s as [|a s]; [done|]. cbn [String.length] in *. unfold dec. rewrite Hs.
  f_equal. apply ndigits_unique; [lia|]. split; [|lia].
  destruct (pad_digits_head (String.length s) v Hb) as [Hh Hr]. rewrite <- Hs in Hh. injection Hh as Ha _.
  replace (S (String.length s) - 1)%nat with (String.length s) by lia.
  pose proof (pow10_pos (String.length s)).
  destruct (decide (v / 10 ^ Z.of_nat (String.length s) = 0)) as [Hz|Hz].
  - exfalso. rewrite Hz in Ha. subst a. discriminate H0.
  - assert (1 <= v / 10 ^ Z.of_nat (String.length s)) by lia.
    pose proof (Z.mul_div_le v (10 ^ Z.of_nat (String.length s))). nia.
Qed.

Lemma ndigits_from_lower fuel k n :
  ndigits_from fuel k n = k \/ 10 ^ Z.of_nat (ndigits_from fuel k n - 1) <= n.
Proof.
  revert k. induction fuel as [|fuel IH]; intros k; simpl; [by left|].
  case_match eqn:E; [by left|]. right. destruct (IH (S k)) as [->|?]; [|done].
  replace (S k - 1)%nat with k by lia. lia.
Qed.

Lemma dec_no_leading_zero n : 0 < n <= u64_max -> starts_with "0" (dec n) = false.
Proof.
  intros Hn. destruct (ndigits_bounds n) as [Hlt Hd]; [lia|]. unfold dec.
  assert (Hlow : 10 ^ Z.of_nat (ndigits n - 1) <= n).
  { unfold ndigits in *. destruct (ndigits_from_lower 40 1 n) as [E|]; [|done]. rewrite E. simpl. lia. }
  destruct (ndigits n) as [|w]; [lia|]. replace (S w - 1)%nat with w in Hlow by lia.
  destruct (pad_digits_head w n) as [-> Hb]; [lia|].
  assert (1 <= n / 10 ^ Z.of_nat w) by (apply Z.div_le_lower_bound; pose proof (pow10_pos w); lia).
  unfold starts_with. cbn [strip_prefix]. rewrite decide_False; [done|]. intros Hc.
  apply (f_equal char_digit) in Hc. rewrite char_digit_char in Hc by done. change (char_digit "0"%char) with 0 in Hc. lia.
Qed.

(** ** Laws: searching for a pattern that begins with a doubled character *)
Lemma contains_cons c s a :
  contains (String c (String c "")) (String a s) = false ->
  contains (String c (String c "")) s = false /\ (a = c -> forall b s', s = String b s' -> b <> c).
Proof.
  unfold contains.
  change (split_once (String c (String c "")) (String a s)) with
    (match strip_prefix (String c (String c "")) (String a s) with
     | Some r => Some ("", r)
     | None => '(x, y) ← split_once (String c (String c "")) s; Some (String a x, y)
     end).
  destruct (strip_prefix _ _) eqn:E; [done|].
  destruct (split_once _ s) as [[? ?]|]; [done|]. intros _. split; [done|].
  intros -> b s' -> ->. simpl in E. by rewrite !decide_True in E.
Qed.

Lemma split_once_doubled c d pat s y :
  c <> d -> contains (String c (String c "")) s = false ->
  split_once (String c (String c (String d pat))) (s ++s String c (String c (String d pat)) ++s y) = Some (s, y).
Proof.
  intros Hcd. induction s as [|a s IH]; intros Hs.
  - cbn [String.append]. change (split_once (String c (String c (String d pat)))
      (String c (String c (String d pat)) ++s y) = Some ("", y)).
    destruct (String c (String c (String d pat)) ++s y) eqn:E; [done|].
    unfold split_once; fold split_once. rewrite <- E. by rewrite strip_prefix_app.
  - apply contains_cons in Hs as [Hs Hnext]. specialize (IH Hs).
    assert (Hnone : strip_prefix (String c (String c (String d pat)))
      (String a s ++s String c (String c (String d pat)) ++s y) = None).
    { cbn [String.append strip_prefix]. destruct (decide (c = a)) as [<-|]; [|done].
      destruct s as [|b s]; cbn [String.append strip_prefix].
      - rewrite decide_True by done. cbn [strip_prefix]. by rewrite decide_False by congruence.
      - rewrite decide_False; [done|]. intros ->. by eapply Hnext. }
    cbn [String.append] in *. unfold split_once; fold split_once. rewrite Hnone, IH. done.
Qed.

Lemma contains_split_once_doubled c d pat s :
  contains (String c (String c "")) s = false -> split_once (String c (String c (String d pat))) s = None.
Proof.
  induction s as [|a s IH]; intros Hs; [done|].
  apply contains_cons in Hs as [Hs Hnext]. specialize (IH Hs).
  assert (Hnone : strip_prefix (String c (String c (String d pat))) (String a s) = None).
  { cbn [strip_prefix]. destruct (decide (c = a)) as [<-|]; [|done].
    destruct s as [|b s]; cbn [strip_prefix]; [done|].
    rewrite decide_False; [done|]. intros ->. by eapply Hnext. }
  unfold split_once; fold split_once. by rewrite Hnone, IH.
Qed.
