(* ===== verification/WorkAdmission.v ===== *)
(** * Bounded admission of network work (crates/transport/src/work_admission.rs)

    [NetworkWorkOwner] decides which network requests of one account may run:
    it owns no I/O, it only hands out tokens.  The model keeps every index the
    code keeps (scopes, entries, keys, deadlines, lane queues, cancellations)
    and every counter, and each method is one function.  A Rust panic (a failed
    [expect], an out-of-range index, an unsigned underflow) is [None], so that
    the absence of panics is a theorem ([run_safe]) and not an assumption.
    [Instant] is a number of nanoseconds; [blake3::hash] is a parameter. *)
From S2P Require Import Prelude.

(** ** Data *)
Definition LANES : list nat := [0; 0; 0; 0; 1; 1; 2]%nat.

Record WorkLimits := {
  lim_scopes : Z;
  lim_requests : Z;
  lim_waiters_per_request : Z;
  lim_metadata_bytes : Z;
  lim_running : Z
}.

Definition default_limits : WorkLimits := {|
  lim_scopes := 64;
  lim_requests := 256;
  lim_waiters_per_request := 64;
  lim_metadata_bytes := 4 * 1024 * 1024;
  lim_running := 8
|}.

Record WorkScope := { ws_owner : Z; ws_generation : Z }.

Record WorkId := { wid_owner : Z; wid_serial : Z }.

Record WorkWaiter := { ww_scope : WorkScope; ww_work : WorkId; ww_serial : Z }.

Inductive WorkProtocol := Gossip | Docs | Blob | ReceiveBinding | CommunityNode.

Inductive WorkMode := LocalOnly | Display | Fetch | Send | Sync.

Inductive WorkPersistence := Ephemeral | Store.

Inductive WorkLane := LaneInteractive | LaneSend | LaneBackground.

Definition lane_index (lane : WorkLane) : nat :=
  match lane with LaneInteractive => 0 | LaneSend => 1 | LaneBackground => 2 end.

Record WorkKey := {
  key_scope : WorkScope;
  key_protocol : WorkProtocol;
  key_object : string;
  key_mode : WorkMode;
  key_persistence : WorkPersistence;
  key_byte_limit : Z;
  key_deadline : Z;
  key_lane : WorkLane
}.

Inductive AdmissionDenied :=
| DeniedInactiveScope
| DeniedExpired
| DeniedMetadataTooLarge
| DeniedConflictingMetadata
| DeniedLocalOnly
| DeniedIdentifierExhausted.

Inductive WorkAdmission :=
| WorkAdmitted (w : WorkWaiter)
| Joined (w : WorkWaiter)
| Deferred (retry_at : Z)
| Denied (reason : AdmissionDenied).

Record StartedWork := { sw_id : WorkId; sw_key : WorkKey; sw_metadata : string }.

Inductive WorkCompletion := Publish | Discard | Unknown.

Inductive Phase := Queued | Running | Stopping.

Record Entry := {
  e_key : WorkKey;
  e_metadata : option string;
  e_metadata_hash : string;
  e_metadata_bytes : Z;
  e_waiters : gset Z;
  e_phase : Phase
}.

#[export] Instance WorkScope_eq_dec : EqDecision WorkScope.
Proof. solve_decision. Defined.
#[export] Instance WorkId_eq_dec : EqDecision WorkId.
Proof. solve_decision. Defined.
#[export] Instance WorkProtocol_eq_dec : EqDecision WorkProtocol.
Proof. solve_decision. Defined.
#[export] Instance WorkMode_eq_dec : EqDecision WorkMode.
Proof. solve_decision. Defined.
#[export] Instance WorkPersistence_eq_dec : EqDecision WorkPersistence.
Proof. solve_decision. Defined.
#[export] Instance WorkLane_eq_dec : EqDecision WorkLane.
Proof. solve_decision. Defined.
#[export] Instance WorkKey_eq_dec : EqDecision WorkKey.
Proof. solve_decision. Defined.
#[export] Instance Phase_eq_dec : EqDecision Phase.
Proof. solve_decision. Defined.

#[export] Instance WorkScope_countable : Countable WorkScope.
Proof.
  apply (inj_countable' (fun s => (ws_owner s, ws_generation s))
    (fun p => {| ws_owner := p.1; ws_generation := p.2 |})).
  by intros [].
Defined.
#[export] Instance WorkId_countable : Countable WorkId.
Proof.
  apply (inj_countable' (fun i => (wid_owner i, wid_serial i))
    (fun p => {| wid_owner := p.1; wid_serial := p.2 |})).
  by intros [].
Defined.
#[export] Instance WorkProtocol_countable : Countable WorkProtocol.
Proof.
  apply (inj_countable'
    (fun p => match p with Gossip => 0 | Docs => 1 | Blob => 2 | ReceiveBinding => 3 | CommunityNode => 4 end)
    (fun n => match n with 0 => Gossip | 1 => Docs | 2 => Blob | 3 => ReceiveBinding | _ => CommunityNode end)).
  by intros [].
Defined.
#[export] Instance WorkMode_countable : Countable WorkMode.
Proof.
  apply (inj_countable'
    (fun p => match p with LocalOnly => 0 | Display => 1 | Fetch => 2 | Send => 3 | Sync => 4 end)
    (fun n => match n with 0 => LocalOnly | 1 => Display | 2 => Fetch | 3 => Send | _ => Sync end)).
  by intros [].
Defined.
#[export] Instance WorkPersistence_countable : Countable WorkPersistence.
Proof.
  apply (inj_countable' (fun p => match p with Ephemeral => true | Store => false end)
    (fun b : bool => if b then Ephemeral else Store)).
  by intros [].
Defined.
#[export] Instance WorkLane_countable : Countable WorkLane.
Proof.
  apply (inj_countable' lane_index
    (fun n => match n with O => LaneInteractive | S O => LaneSend | _ => LaneBackground end)).
  by intros [].
Defined.
#[export] Instance WorkKey_countable : Countable WorkKey.
Proof.
  apply (inj_countable'
    (fun k => (key_scope k, key_protocol k, key_object k, key_mode k,
               key_persistence k, key_byte_limit k, key_deadline k, key_lane k))
    (fun '(a, b, c, d, e, f, g, h) =>
       {| key_scope := a; key_protocol := b; key_object := c; key_mode := d;
          key_persistence := e; key_byte_limit := f; key_deadline := g; key_lane := h |})).
  by intros [].
Defined.

#[export] Instance WorkId_rust_ord : RustOrd WorkId := fun x y =>
  rust_cmp (wid_owner x, wid_serial x) (wid_owner y, wid_serial y).

(** The state of [NetworkWorkOwner]. *)
Record NetworkWorkOwner := {
  owner : Z;
  serial : Z;
  limits : WorkLimits;
  scopes : gmap WorkScope (gset WorkId);
  entries : gmap WorkId Entry;
  keys : gmap WorkKey WorkId;
  deadlines : gset (Z * WorkId);
  queues : list (gset WorkId);
  cancellations : gset WorkId;
  cursor : nat;
  running : Z;
  metadata_bytes : Z
}.

(** ** Operations *)

(** [NetworkWorkOwner::new] with the process-wide [OWNER_SEQUENCE]: the owner
    identity and the next sequence value; exhaustion panics. *)
Definition new (owner_sequence : Z) (lims : WorkLimits) : option (NetworkWorkOwner * Z) :=
  next ← u64_checked_add owner_sequence 1;
  Some ({| owner := owner_sequence; serial := 0; limits := lims;
           scopes := ∅; entries := ∅; keys := ∅; deadlines := ∅;
           queues := [∅; ∅; ∅]; cancellations := ∅; cursor := 0;
           running := 0; metadata_bytes := 0 |}, next).

Definition with_serial (n : Z) (st : NetworkWorkOwner) : NetworkWorkOwner :=
  {| owner := owner st; serial := n; limits := limits st; scopes := scopes st;
     entries := entries st; keys := keys st; deadlines := deadlines st;
     queues := queues st; cancellations := cancellations st; cursor := cursor st;
     running := running st; metadata_bytes := metadata_bytes st |}.

Definition with_entries (m : gmap WorkId Entry) (st : NetworkWorkOwner) : NetworkWorkOwner :=
  {| owner := owner st; serial := serial st; limits := limits st; scopes := scopes st;
     entries := m; keys := keys st; deadlines := deadlines st;
     queues := queues st; cancellations := cancellations st; cursor := cursor st;
     running := running st; metadata_bytes := metadata_bytes st |}.

Definition with_scopes (m : gmap WorkScope (gset WorkId)) (st : NetworkWorkOwner) : NetworkWorkOwner :=
  {| owner := owner st; serial := serial st; limits := limits st; scopes := m;
     entries := entries st; keys := keys st; deadlines := deadlines st;
     queues := queues st; cancellations := cancellations st; cursor := cursor st;
     running := running st; metadata_bytes := metadata_bytes st |}.

Definition with_deadlines (d : gset (Z * WorkId)) (st : NetworkWorkOwner) : NetworkWorkOwner :=
  {| owner := owner st; serial := serial st; limits := limits st; scopes := scopes st;
     entries := entries st; keys := keys st; deadlines := d;
     queues := queues st; cancellations := cancellations st; cursor := cursor st;
     running := running st; metadata_bytes := metadata_bytes st |}.

Definition with_cancellations (c : gset WorkId) (st : NetworkWorkOwner) : NetworkWorkOwner :=
  {| owner := owner st; serial := serial st; limits := limits st; scopes := scopes st;
     entries := entries st; keys := keys st; deadlines := deadlines st;
     queues := queues st; cancellations := c; cursor := cursor st;
     running := running st; metadata_bytes := metadata_bytes st |}.

Definition with_cursor (c : nat) (st : NetworkWorkOwner) : NetworkWorkOwner :=
  {| owner := owner st; serial := serial st; limits := limits st; scopes := scopes st;
     entries := entries st; keys := keys st; deadlines := deadlines st;
     queues := queues st; cancellations := cancellations st; cursor := c;
     running := running st; metadata_bytes := metadata_bytes st |}.

Definition entry_with_phase (p : Phase) (e : Entry) : Entry :=
  {| e_key := e_key e; e_metadata := e_metadata e; e_metadata_hash := e_metadata_hash e;
     e_metadata_bytes := e_metadata_bytes e; e_waiters := e_waiters e; e_phase := p |}.

Definition entry_with_waiters (w : gset Z) (e : Entry) : Entry :=
  {| e_key := e_key e; e_metadata := e_metadata e; e_metadata_hash := e_metadata_hash e;
     e_metadata_bytes := e_metadata_bytes e; e_waiters := w; e_phase := e_phase e |}.

(** [entry.phase = Running] together with [entry.metadata.take()]. *)
Definition entry_started (e : Entry) : Entry :=
  {| e_key := e_key e; e_metadata := None; e_metadata_hash := e_metadata_hash e;
     e_metadata_bytes := e_metadata_bytes e; e_waiters := e_waiters e; e_phase := Running |}.

(** [next_serial]: the counter stays put when it is exhausted. *)
Definition next_serial (st : NetworkWorkOwner) : option Z * NetworkWorkOwner :=
  match u64_checked_add (serial st) 1 with
  | Some n => (Some n, with_serial n st)
  | None => (None, st)
  end.

Definition register_scope (st : NetworkWorkOwner) : option WorkScope * NetworkWorkOwner :=
  if lim_scopes (limits st) <=? Z.of_nat (size (scopes st)) then (None, st)
  else match next_serial st with
       | (None, st) => (None, st)
       | (Some n, st) =>
           let scope := {| ws_owner := owner st; ws_generation := n |} in
           (Some scope, with_scopes (<[scope := ∅]> (scopes st)) st)
       end.

Definition remove (id : WorkId) (st : NetworkWorkOwner) : option NetworkWorkOwner :=
  match entries st !! id with
  | None => Some st
  | Some e =>
      let k := e_key e in
      let lane := lane_index (key_lane k) in
      q ← queues st !! lane;
      running' ← (if decide (e_phase e = Queued) then Some (running st)
                  else usize_sub (running st) 1);
      bytes' ← usize_sub (metadata_bytes st) (e_metadata_bytes e);
      Some {| owner := owner st; serial := serial st; limits := limits st;
              scopes := alter (fun work => work ∖ {[id]}) (key_scope k) (scopes st);
              entries := delete id (entries st);
              keys := delete k (keys st);
              deadlines := deadlines st ∖ {[(key_deadline k, id)]};
              queues := <[lane := q ∖ {[id]}]> (queues st);
              cancellations := cancellations st ∖ {[id]};
              cursor := cursor st;
              running := running';
              metadata_bytes := bytes' |}
  end.

Definition cancel (id : WorkId) (st : NetworkWorkOwner) : option NetworkWorkOwner :=
  match entries st !! id with
  | None => Some st
  | Some e =>
      match e_phase e with
      | Queued => remove id st
      | Running =>
          let st := with_entries (<[id := entry_with_phase Stopping e]> (entries st)) st in
          let st := with_deadlines (deadlines st ∖ {[(key_deadline (e_key e), id)]}) st in
          Some (with_cancellations (cancellations st ∪ {[id]}) st)
      | Stopping => Some st
      end
  end.

Fixpoint cancel_all (ids : list WorkId) (st : NetworkWorkOwner) : option NetworkWorkOwner :=
  match ids with
  | [] => Some st
  | id :: ids => st' ← cancel id st; cancel_all ids st'
  end.

Definition revoke_scope (scope : WorkScope) (st : NetworkWorkOwner) : option NetworkWorkOwner :=
  match scopes st !! scope with
  | None => Some st
  | Some work => cancel_all (set_iter work) (with_scopes (delete scope (scopes st)) st)
  end.

(** The [while let] loop of [expire]; each turn removes one deadline. *)
Fixpoint expire_loop (fuel : nat) (now : Z) (st : NetworkWorkOwner) : option NetworkWorkOwner :=
  match set_first (deadlines st) with
  | None => Some st
  | Some (deadline, id) =>
      if now <? deadline then Some st
      else match fuel with
           | O => None
           | S fuel =>
               st ← cancel id (with_deadlines (deadlines st ∖ {[(deadline, id)]}) st);
               expire_loop fuel now st
           end
  end.

Definition expire (now : Z) (st : NetworkWorkOwner) : option NetworkWorkOwner :=
  expire_loop (size (deadlines st)) now st.

Definition next_deadline (st : NetworkWorkOwner) : option Z :=
  fst <$> set_first (deadlines st).

Definition deferred (now : Z) : WorkAdmission := Deferred (now + 250 * 1000000).

Definition release_waiter (w : WorkWaiter) (st : NetworkWorkOwner) : option NetworkWorkOwner :=
  match entries st !! ww_work w with
  | None => Some st
  | Some e =>
      if decide (key_scope (e_key e) = ww_scope w) then
        if decide (ww_serial w ∈ e_waiters e) then
          let e := entry_with_waiters (e_waiters e ∖ {[ww_serial w]}) e in
          let st := with_entries (<[ww_work w := e]> (entries st)) st in
          if decide (e_waiters e = ∅) then
            if decide (e_phase e = Queued \/ key_mode (e_key e) = Display)
            then cancel (ww_work w) st else Some st
          else Some st
        else Some st
      else Some st
  end.

(** The [for _ in 0..LANES.len()] loop of [start_next]. *)
Fixpoint start_loop (n : nat) (st : NetworkWorkOwner) : option (option StartedWork * NetworkWorkOwner) :=
  match n with
  | O => Some (None, st)
  | S n =>
      lane ← LANES !! cursor st;
      let st := with_cursor ((cursor st + 1) mod length LANES)%nat st in
      q ← queues st !! lane;
      match set_first q with
      | None => start_loop n st
      | Some id =>
          e ← entries st !! id;
          metadata ← e_metadata e;
          Some (Some {| sw_id := id; sw_key := e_key e; sw_metadata := metadata |},
                {| owner := owner st; serial := serial st; limits := limits st;
                   scopes := scopes st;
                   entries := <[id := entry_started e]> (entries st);
                   keys := keys st; deadlines := deadlines st;
                   queues := <[lane := q ∖ {[id]}]> (queues st);
                   cancellations := cancellations st; cursor := cursor st;
                   running := running st + 1; metadata_bytes := metadata_bytes st |})
      end
  end.

Definition start_next (now : Z) (st : NetworkWorkOwner) : option (option StartedWork * NetworkWorkOwner) :=
  st ← expire now st;
  if lim_running (limits st) <=? running st then Some (None, st)
  else start_loop (length LANES) st.

Definition next_cancellation (st : NetworkWorkOwner) : option WorkId * NetworkWorkOwner :=
  match set_first (cancellations st) with
  | None => (None, st)
  | Some id => (Some id, with_cancellations (cancellations st ∖ {[id]}) st)
  end.

Definition complete (id : WorkId) (now : Z) (st : NetworkWorkOwner) : option (WorkCompletion * NetworkWorkOwner) :=
  match entries st !! id with
  | None => Some (Unknown, st)
  | Some e =>
      if decide (e_phase e = Queued) then Some (Unknown, st)
      else
        let publish := bool_decide (e_phase e = Running)
          && (now <? key_deadline (e_key e))
          && bool_decide (is_Some (scopes st !! key_scope (e_key e))) in
        st ← remove id st;
        Some (if publish then Publish else Discard, st)
  end.

Definition contains (id : WorkId) (st : NetworkWorkOwner) : bool :=
  bool_decide (is_Some (entries st !! id)).

Record WorkUsage := {
  u_scopes : Z;
  u_requests : Z;
  u_running : Z;
  u_stopping : Z;
  u_metadata_bytes : Z;
  u_waiters : Z
}.

Definition usage (st : NetworkWorkOwner) : WorkUsage := {|
  u_scopes := Z.of_nat (size (scopes st));
  u_requests := Z.of_nat (size (entries st));
  u_running := running st;
  u_stopping := map_sum (fun e => if decide (e_phase e = Stopping) then 1 else 0) (entries st);
  u_metadata_bytes := metadata_bytes st;
  u_waiters := map_sum (fun e => Z.of_nat (size (e_waiters e))) (entries st)
|}.

Section admission.
Context (blake3 : string -> string).

(** The guard chain of [admit_work] that runs before any index is consulted. *)
Definition admit_denied (key : WorkKey) (metadata : string) (now : Z) (st : NetworkWorkOwner) : option AdmissionDenied :=
  if decide (scopes st !! key_scope key = None) then Some DeniedInactiveScope
  else if key_deadline key <=? now then Some DeniedExpired
  else if decide (key_mode key = LocalOnly) then Some DeniedLocalOnly
  else if lim_metadata_bytes (limits st) <? Z.of_nat (String.length metadata)
  then Some DeniedMetadataTooLarge
  else None.

(** The branch of [admit_work] that joins the live request [id] with the same key. *)
Definition admit_join (key : WorkKey) (metadata : string) (now : Z) (id : WorkId) (st : NetworkWorkOwner)
    : option (WorkAdmission * NetworkWorkOwner) :=
  e ← entries st !! id;
  if decide (e_metadata_hash e = blake3 metadata) then
    if decide (e_phase e = Stopping) then Some (deferred now, st)
    else if lim_waiters_per_request (limits st) <=? Z.of_nat (size (e_waiters e))
    then Some (deferred now, st)
    else match next_serial st with
         | (None, st) => Some (Denied DeniedIdentifierExhausted, st)
         | (Some n, st) =>
             e ← entries st !! id;
             Some (Joined {| ww_scope := key_scope key; ww_work := id; ww_serial := n |},
                   with_entries (<[id := entry_with_waiters (e_waiters e ∪ {[n]}) e]> (entries st)) st)
         end
  else Some (Denied DeniedConflictingMetadata, st).

(** The branch of [admit_work] that creates a request. *)
Definition admit_new (key : WorkKey) (metadata : string) (now : Z) (st : NetworkWorkOwner)
    : option (WorkAdmission * NetworkWorkOwner) :=
  let len := Z.of_nat (String.length metadata) in
  if lim_requests (limits st) <=? Z.of_nat (size (entries st)) then Some (deferred now, st)
  else if lim_waiters_per_request (limits st) =? 0 then Some (deferred now, st)
  else
    free ← usize_sub (lim_metadata_bytes (limits st)) (metadata_bytes st);
    if free <? len then Some (deferred now, st)
    else match next_serial st with
         | (None, st) => Some (Denied DeniedIdentifierExhausted, st)
         | (Some n, st) =>
             let id := {| wid_owner := owner st; wid_serial := n |} in
             let lane := lane_index (key_lane key) in
             let e := {| e_key := key; e_metadata := Some metadata;
                         e_metadata_hash := blake3 metadata; e_metadata_bytes := len;
                         e_waiters := {[n]}; e_phase := Queued |} in
             work ← scopes st !! key_scope key;
             q ← queues st !! lane;
             Some (WorkAdmitted {| ww_scope := key_scope key; ww_work := id; ww_serial := n |},
                   {| owner := owner st; serial := serial st; limits := limits st;
                      scopes := <[key_scope key := work ∪ {[id]}]> (scopes st);
                      entries := <[id := e]> (entries st);
                      keys := <[key := id]> (keys st);
                      deadlines := deadlines st ∪ {[(key_deadline key, id)]};
                      queues := <[lane := q ∪ {[id]}]> (queues st);
                      cancellations := cancellations st; cursor := cursor st;
                      running := running st;
                      metadata_bytes := metadata_bytes st + len |})
         end.

Definition admit_work (key : WorkKey) (metadata : string) (now : Z) (st : NetworkWorkOwner)
    : option (WorkAdmission * NetworkWorkOwner) :=
  st ← expire now st;
  match admit_denied key metadata now st with
  | Some reason => Some (Denied reason, st)
  | None =>
      match keys st !! key with
      | Some id => admit_join key metadata now id st
      | None => admit_new key metadata now st
      end
  end.

(** ** The owner as a transition system *)
Inductive Op :=
| OpRegister
| OpRevoke (s : WorkScope)
| OpAdmit (k : WorkKey) (metadata : string) (now : Z)
| OpRelease (w : WorkWaiter)
| OpStart (now : Z)
| OpExpire (now : Z)
| OpNextCancellation
| OpComplete (id : WorkId) (now : Z).

Inductive Out :=
| OutScope (s : option WorkScope)
| OutUnit
| OutAdmission (a : WorkAdmission)
| OutStarted (w : option StartedWork)
| OutCancellation (id : option WorkId)
| OutCompletion (c : WorkCompletion).

(** One public call; [None] is a panic. *)
Definition run (op : Op) (st : NetworkWorkOwner) : option (Out * NetworkWorkOwner) :=
  match op with
  | OpRegister => let '(s, st) := register_scope st in Some (OutScope s, st)
  | OpRevoke s => st ← revoke_scope s st; Some (OutUnit, st)
  | OpAdmit k m now => '(a, st) ← admit_work k m now st; Some (OutAdmission a, st)
  | OpRelease w => st ← release_waiter w st; Some (OutUnit, st)
  | OpStart now => '(w, st) ← start_next now st; Some (OutStarted w, st)
  | OpExpire now => st ← expire now st; Some (OutUnit, st)
  | OpNextCancellation => let '(c, st) := next_cancellation st in Some (OutCancellation c, st)
  | OpComplete id now => '(c, st) ← complete id now st; Some (OutCompletion c, st)
  end.

Inductive reachable (lims : WorkLimits) : NetworkWorkOwner -> Prop :=
| reachable_new seq st next :
    new seq lims = Some (st, next) -> reachable lims st
| reachable_run st op out st' :
    reachable lims st -> run op st = Some (out, st') -> reachable lims st'.
End admission.
