(* ===== verification/WorkAdmissionWf.v ===== *)
(** * The representation invariant of [NetworkWorkOwner]

    [wf] ties every index and counter of the owner to the table of live
    entries.  Each operation is shown to succeed (no panic) and to preserve
    it. *)
From S2P Require Import Prelude WorkAdmission.

(** An entry occupies a running slot until its completion is acknowledged. *)
Definition occupies (e : Entry) : Z := if decide (e_phase e = Queued) then 0 else 1.

Record limits_ok (l : WorkLimits) : Prop := {
  lo_scopes : 0 <= lim_scopes l;
  lo_requests : 0 <= lim_requests l;
  lo_waiters : 0 <= lim_waiters_per_request l;
  lo_bytes : 0 <= lim_metadata_bytes l;
  lo_running : 0 <= lim_running l
}.

(** What a single entry satisfies. *)
Record entry_ok (own ser : Z) (l : WorkLimits) (id : WorkId) (e : Entry) : Prop := {
  eo_id : wid_owner id = own /\ 0 < wid_serial id <= ser;
  eo_scope : ws_owner (key_scope (e_key e)) = own /\
             0 < ws_generation (key_scope (e_key e)) <= ser;
  eo_waiter : forall w, w ∈ e_waiters e -> 0 < w <= ser;
  eo_waiters : Z.of_nat (size (e_waiters e)) <= lim_waiters_per_request l;
  eo_bytes : 0 <= e_metadata_bytes e;
  eo_queued : e_phase e = Queued ->
    e_waiters e <> ∅ /\
    exists m, e_metadata e = Some m /\ Z.of_nat (String.length m) = e_metadata_bytes e
}.

Record wf (st : NetworkWorkOwner) : Prop := {
  wf_limits : limits_ok (limits st);
  wf_serial : 0 <= serial st <= u64_max;
  wf_entry : forall id e, entries st !! id = Some e ->
    entry_ok (owner st) (serial st) (limits st) id e;
  wf_keys : forall k id, keys st !! k = Some id <->
    exists e, entries st !! id = Some e /\ e_key e = k;
  wf_deadlines : forall d id, (d, id) ∈ deadlines st <->
    exists e, entries st !! id = Some e /\ key_deadline (e_key e) = d /\ e_phase e <> Stopping;
  wf_queues_len : length (queues st) = 3%nat;
  wf_queues : forall l q id, queues st !! l = Some q ->
    (id ∈ q <-> exists e, entries st !! id = Some e /\ e_phase e = Queued /\
                          lane_index (key_lane (e_key e)) = l);
  wf_cancellations : forall id, id ∈ cancellations st ->
    exists e, entries st !! id = Some e /\ e_phase e = Stopping;
  wf_scope : forall s work, scopes st !! s = Some work ->
    ws_owner s = owner st /\ 0 < ws_generation s <= serial st;
  wf_scopes : forall s work id, scopes st !! s = Some work ->
    (id ∈ work <-> exists e, entries st !! id = Some e /\ key_scope (e_key e) = s);
  wf_live : forall id e, entries st !! id = Some e -> e_phase e <> Stopping ->
    is_Some (scopes st !! key_scope (e_key e));
  wf_running : running st = map_sum occupies (entries st);
  wf_bytes : metadata_bytes st = map_sum e_metadata_bytes (entries st);
  wf_cap_scopes : Z.of_nat (size (scopes st)) <= lim_scopes (limits st);
  wf_cap_requests : Z.of_nat (size (entries st)) <= lim_requests (limits st);
  wf_cap_bytes : metadata_bytes st <= lim_metadata_bytes (limits st);
  wf_cap_running : running st <= lim_running (limits st);
  wf_cursor : (cursor st < 7)%nat
}.

(** The pure effect of [remove] on the entry [e] at [id]. *)
Definition removed (id : WorkId) (e : Entry) (q : gset WorkId) (st : NetworkWorkOwner) : NetworkWorkOwner :=
  let k := e_key e in
  {| owner := owner st; serial := serial st; limits := limits st;
     scopes := alter (fun work => work ∖ {[id]}) (key_scope k) (scopes st);
     entries := delete id (entries st);
     keys := delete k (keys st);
     deadlines := deadlines st ∖ {[(key_deadline k, id)]};
     queues := <[lane_index (key_lane k) := q ∖ {[id]}]> (queues st);
     cancellations := cancellations st ∖ {[id]};
     cursor := cursor st;
     running := running st - occupies e;
     metadata_bytes := metadata_bytes st - e_metadata_bytes e |}.

(** What every operation leaves alone, and what [cancel] does to an entry. *)
Definition cancelled_entry (e : Entry) : option Entry :=
  match e_phase e with
  | Queued => None
  | Running => Some (entry_with_phase Stopping e)
  | Stopping => Some e
  end.

(** The pure effect of [cancel] on a running entry. *)
Definition stopped (id : WorkId) (e : Entry) (st : NetworkWorkOwner) : NetworkWorkOwner :=
  with_cancellations (cancellations st ∪ {[id]})
    (with_deadlines (deadlines st ∖ {[(key_deadline (e_key e), id)]})
      (with_entries (<[id := entry_with_phase Stopping e]> (entries st)) st)).

(** ** Entries *)
Lemma lane_index_lt lane : (lane_index lane < 3)%nat.
Proof. destruct lane; simpl; lia. Qed.

Lemma occupies_nonneg e : 0 <= occupies e.
Proof. unfold occupies. case_decide; lia. Qed.

#[export] Instance WorkId_rust_ord_laws : RustOrdLaws WorkId.
Proof.
  assert (Inj (=) (=) (fun i => (wid_owner i, wid_serial i)))
    by (intros [] []; simpl; congruence).
  apply (inj_rust_ord_laws (fun i => (wid_owner i, wid_serial i))).
Qed.

Section wf_facts.
Context (st : NetworkWorkOwner) (Hwf : wf st).

Lemma wf_queue_lookup lane : exists q, queues st !! lane_index lane = Some q.
Proof using Hwf.
  apply lookup_lt_is_Some. rewrite (wf_queues_len st Hwf). apply lane_index_lt.
Qed.

Lemma wf_running_ge id e : entries st !! id = Some e -> occupies e <= running st.
Proof using Hwf.
  rewrite (wf_running st Hwf). apply map_sum_ge. intros. apply occupies_nonneg.
Qed.

Lemma wf_bytes_ge id e : entries st !! id = Some e -> e_metadata_bytes e <= metadata_bytes st.
Proof using Hwf.
  rewrite (wf_bytes st Hwf). apply map_sum_ge. intros ?? Hl. by apply (wf_entry st Hwf) in Hl as [].
Qed.

Lemma wf_key_unique id1 id2 e1 e2 :
  entries st !! id1 = Some e1 -> entries st !! id2 = Some e2 -> e_key e1 = e_key e2 -> id1 = id2.
Proof using Hwf.
  intros H1 H2 Hk.
  assert (keys st !! e_key e1 = Some id1) by (apply (wf_keys st Hwf); eauto).
  assert (keys st !! e_key e1 = Some id2) by (apply (wf_keys st Hwf); eauto).
  congruence.
Qed.

Lemma remove_eq id e :
  entries st !! id = Some e ->
  exists q, queues st !! lane_index (key_lane (e_key e)) = Some q /\
            remove id st = Some (removed id e q st).
Proof using Hwf.
  intros He. destruct (wf_queue_lookup (key_lane (e_key e))) as [q Hq].
  exists q. split; [done|]. unfold remove, removed. rewrite He. simpl. rewrite Hq. simpl.
  pose proof (wf_running_ge id e He). pose proof (wf_bytes_ge id e He).
  unfold occupies in *. rewrite (usize_sub_some (metadata_bytes st)) by done.
  case_decide; simpl; [by rewrite Z.sub_0_r|]. by rewrite usize_sub_some.
Qed.
End wf_facts.

(** ** [remove] *)
Lemma removed_wf id e q st :
  wf st -> entries st !! id = Some e ->
  queues st !! lane_index (key_lane (e_key e)) = Some q ->
  wf (removed id e q st).
Proof.
  intros Hwf He Hq. split; simpl.
  - apply Hwf.
  - apply Hwf.
  - intros i e' [_ H]%lookup_delete_Some. by apply Hwf.
  - intros k i. rewrite lookup_delete_Some, (wf_keys st Hwf). split.
    + intros [Hk (e' & He' & <-)]. exists e'. split; [|done].
      apply lookup_delete_Some. split; [|done]. intros <-. congruence.
    + intros (e' & [Hi He']%lookup_delete_Some & <-). split; [|eauto].
      intros Hk. apply Hi. by eapply (wf_key_unique st Hwf).
  - intros d i. rewrite elem_of_difference, (wf_deadlines st Hwf), elem_of_singleton. split.
    + intros [(e' & He' & <- & ?) Hne]. exists e'. split_and!; [|done..].
      apply lookup_delete_Some. split; [|done]. intros <-. congruence.
    + intros (e' & [Hi He']%lookup_delete_Some & <- & ?). split; [eauto|congruence].
  - rewrite length_insert. apply Hwf.
  - intros l q' i Hl. rewrite list_lookup_insert_Some in Hl.
    destruct Hl as [(<- & <- & _) | [Hne Hl]].
    + rewrite elem_of_difference, elem_of_singleton, (wf_queues st Hwf _ q _ Hq).
      split.
      * intros [(e' & ? & ? & ?) ?]. exists e'. by rewrite lookup_delete_ne.
      * intros (e' & [? ?]%lookup_delete_Some & ? & ?). split; [eauto|congruence].
    + rewrite (wf_queues st Hwf _ q' _ Hl). split.
      * intros (e' & ? & ? & ?). exists e'. split_and!; [|done..].
        apply lookup_delete_Some. split; [|done]. intros <-. simplify_eq.
      * intros (e' & [? ?]%lookup_delete_Some & ? & ?). eauto.
  - intros i [Hi Hne]%elem_of_difference. rewrite elem_of_singleton in Hne.
    destruct (wf_cancellations st Hwf i Hi) as (e' & ? & ?). exists e'. by rewrite lookup_delete_ne.
  - intros s work Hs. rewrite lookup_alter_Some in Hs.
    destruct Hs as [(<- & w & Hw & ->) | [_ Hs]]; by eapply Hwf.
  - intros s work i Hs. rewrite lookup_alter_Some in Hs.
    destruct Hs as [(<- & w & Hw & ->) | [Hne Hs]].
    + rewrite elem_of_difference, elem_of_singleton, (wf_scopes st Hwf _ w _ Hw). split.
      * intros [(e' & ? & ?) ?]. exists e'. by rewrite lookup_delete_ne.
      * intros (e' & [? ?]%lookup_delete_Some & ?). split; [eauto|congruence].
    + rewrite (wf_scopes st Hwf _ work _ Hs). split.
      * intros (e' & ? & ?). exists e'. split; [|done]. apply lookup_delete_Some.
        split; [|done]. intros <-. simplify_eq.
      * intros (e' & [? ?]%lookup_delete_Some & ?). eauto.
  - intros i e' [_ He']%lookup_delete_Some Hp. rewrite lookup_alter_is_Some. by eapply Hwf.
  - rewrite (wf_running st Hwf), (map_sum_delete _ _ _ _ He). lia.
  - rewrite (wf_bytes st Hwf), (map_sum_delete _ _ _ _ He). lia.
  - pose proof (wf_cap_scopes st Hwf).
    rewrite <- (size_dom (D:=gset WorkScope)), dom_alter_L, size_dom. done.
  - pose proof (wf_cap_requests st Hwf). rewrite map_size_delete_Some by eauto. lia.
  - pose proof (wf_cap_bytes st Hwf). pose proof (eo_bytes _ _ _ _ _ (wf_entry st Hwf _ _ He)). lia.
  - pose proof (wf_cap_running st Hwf). pose proof (occupies_nonneg e). lia.
  - apply Hwf.
Qed.

(** ** [cancel] *)

(** What [cancel], [expire] and [revoke_scope] leave alone. *)
Record frame (st st' : NetworkWorkOwner) : Prop := {
  fr_owner : owner st' = owner st;
  fr_serial : serial st' = serial st;
  fr_limits : limits st' = limits st;
  fr_cursor : cursor st' = cursor st;
  fr_scopes : forall s, is_Some (scopes st' !! s) <-> is_Some (scopes st !! s)
}.

#[export] Instance frame_preorder : PreOrder frame.
Proof.
  split.
  - intros st. by split.
  - intros st1 st2 st3 [] []. split; try congruence. naive_solver.
Qed.

Lemma stopped_wf id e st :
  wf st -> entries st !! id = Some e -> e_phase e = Running -> wf (stopped id e st).
Proof.
  intros Hwf He Hp.
  assert (Hent : forall i e', <[id := entry_with_phase Stopping e]> (entries st) !! i = Some e' ->
    (i = id /\ e' = entry_with_phase Stopping e) \/ (i <> id /\ entries st !! i = Some e')).
  { intros i e' [[-> <-] | [? ?]]%lookup_insert_Some; naive_solver. }
  split; simpl; try apply Hwf.
  - intros i e' [[-> ->] | [_ H]]%Hent; [|by apply Hwf].
    destruct (wf_entry st Hwf _ _ He). by split.
  - intros k i. rewrite (wf_keys st Hwf). split.
    + intros (e' & He' & <-). destruct (decide (i = id)) as [->|].
      * exists (entry_with_phase Stopping e). rewrite lookup_insert_eq. by simplify_eq.
      * exists e'. by rewrite lookup_insert_ne.
    + intros (e' & [[-> ->] | [? ?]]%Hent & <-); eauto.
  - intros d i. rewrite elem_of_difference, (wf_deadlines st Hwf), elem_of_singleton. split.
    + intros [(e' & He' & <- & ?) Hne]. exists e'. rewrite lookup_insert_ne; [done|].
      intros <-. simplify_eq.
    + intros (e' & [[-> ->] | [? ?]]%Hent & <- & Hph); [by destruct Hph|].
      split; [eauto|]. congruence.
  - intros l q i Hl. rewrite (wf_queues st Hwf _ q _ Hl). split.
    + intros (e' & ? & ? & ?). exists e'. rewrite lookup_insert_ne; [done|].
      intros <-. simplify_eq. congruence.
    + intros (e' & [[-> ->] | [? ?]]%Hent & Hph & <-); [done | eauto].
  - intros i [Hi | ->%elem_of_singleton]%elem_of_union.
    + destruct (wf_cancellations st Hwf i Hi) as (e' & ? & ?). exists e'.
      rewrite lookup_insert_ne; [done|]. intros <-. congruence.
    + exists (entry_with_phase Stopping e). by rewrite lookup_insert_eq.
  - intros s work i Hs. rewrite (wf_scopes st Hwf _ work _ Hs). split.
    + intros (e' & He' & <-). destruct (decide (i = id)) as [->|].
      * exists (entry_with_phase Stopping e). rewrite lookup_insert_eq. by simplify_eq.
      * exists e'. by rewrite lookup_insert_ne.
    + intros (e' & [[-> ->] | [? ?]]%Hent & <-); eauto.
  - intros i e' [[-> ->] | [_ ?]]%Hent Hph; [done|]. by eapply Hwf.
  - rewrite (map_sum_update _ _ _ _ _ He), (wf_running st Hwf).
    unfold occupies; simpl. rewrite Hp. simpl. lia.
  - rewrite (map_sum_update _ _ _ _ _ He), (wf_bytes st Hwf). simpl. lia.
  - rewrite map_size_insert_Some by eauto. apply Hwf.
Qed.

Lemma cancel_ok id st :
  wf st ->
  exists st', cancel id st = Some st' /\ wf st' /\ frame st st' /\
    entries st' = partial_alter (fun o => o ≫= cancelled_entry) id (entries st) /\
    deadlines st' ⊆ deadlines st.
Proof.
  intros Hwf. unfold cancel, cancelled_entry.
  destruct (entries st !! id) as [e|] eqn:He.
  2: { exists st. split_and!; try done. rewrite partial_alter_unchanged; [done|].
       by rewrite He. }
  destruct (e_phase e) eqn:Hp.
  - destruct (remove_eq st Hwf id e He) as (q & Hq & ->).
    exists (removed id e q st). split_and!; [done | by apply removed_wf | | | simpl; set_solver].
    + split; simpl; try done. intros s. by rewrite lookup_alter_is_Some.
    + simpl. apply map_eq. intros i. destruct (decide (i = id)) as [->|].
      * by rewrite lookup_delete_eq, lookup_partial_alter_eq, He; simpl; rewrite Hp.
      * by rewrite lookup_delete_ne, lookup_partial_alter_ne.
  - exists (stopped id e st). split_and!; [done | by apply stopped_wf | by split | | simpl; set_solver].
    simpl. apply map_eq. intros i. destruct (decide (i = id)) as [->|].
    + by rewrite lookup_insert_eq, lookup_partial_alter_eq, He; simpl; rewrite Hp.
    + by rewrite lookup_insert_ne, lookup_partial_alter_ne.
  - exists st. split_and!; try done. rewrite partial_alter_unchanged; [done|].
    rewrite He. simpl. by rewrite Hp.
Qed.

(** ** [expire] *)

(** Entries that survive [expire]: the expired ones are stopped or gone. *)
Definition expired_entry (now : Z) (e : Entry) : option Entry :=
  if key_deadline (e_key e) <=? now then cancelled_entry e else Some e.

Lemma cancelled_entry_idem e e' : cancelled_entry e = Some e' -> cancelled_entry e' = Some e'.
Proof. unfold cancelled_entry. destruct (e_phase e) eqn:Hp; intros; simplify_eq/=; [done | by rewrite Hp]. Qed.

Lemma cancelled_entry_key e e' : cancelled_entry e = Some e' -> e_key e' = e_key e.
Proof. unfold cancelled_entry. destruct (e_phase e); intros; by simplify_eq/=. Qed.

(** Popping the deadline before [cancel] makes no difference. *)
Lemma cancel_pop st d id :
  wf st -> (d, id) ∈ deadlines st ->
  cancel id (with_deadlines (deadlines st ∖ {[(d, id)]}) st) = cancel id st.
Proof.
  intros Hwf (e & He & <- & Hp)%(wf_deadlines st Hwf).
  assert (Hd : forall X : gset (Z * WorkId), X ∖ {[(key_deadline (e_key e), id)]}
    ∖ {[(key_deadline (e_key e), id)]} = X ∖ {[(key_deadline (e_key e), id)]}).
  { intros X. apply leibniz_equiv. set_solver. }
  unfold cancel, remove, with_deadlines, with_entries, with_cancellations; simpl.
  rewrite He. by destruct (e_phase e); rewrite ?Hd.
Qed.

Lemma expired_wf_entries now st id e :
  wf st -> (forall d i, (d, i) ∈ deadlines st -> now < d) ->
  entries st !! id = Some e -> expired_entry now e = Some e.
Proof.
  intros Hwf Hall He. unfold expired_entry, cancelled_entry. case_match eqn:Hd; [|done].
  destruct (e_phase e) eqn:Hp; [| |done];
    assert (now < key_deadline (e_key e)); try lia;
    apply (Hall _ id), (wf_deadlines st Hwf); exists e; rewrite Hp; done.
Qed.

Lemma expired_cancelled now e :
  key_deadline (e_key e) <= now ->
  (cancelled_entry e ≫= expired_entry now) = expired_entry now e.
Proof.
  intros Hd. unfold expired_entry at 2. rewrite (proj2 (Z.leb_le _ _)) by done.
  destruct (cancelled_entry e) as [e'|] eqn:Hc; [|done]. simpl.
  unfold expired_entry. rewrite (cancelled_entry_key _ _ Hc).
  rewrite (proj2 (Z.leb_le _ _)) by done. by eapply cancelled_entry_idem.
Qed.

Lemma expire_loop_ok fuel now st :
  wf st -> (size (deadlines st) <= fuel)%nat ->
  exists st', expire_loop fuel now st = Some st' /\ wf st' /\ frame st st' /\
    (forall id, entries st' !! id = entries st !! id ≫= expired_entry now) /\
    (forall d id, (d, id) ∈ deadlines st' -> now < d).
Proof.
  revert st. induction fuel as [|fuel IH]; intros st Hwf Hsz; simpl;
    destruct (set_first (deadlines st)) as [[d id]|] eqn:Hf.
  all: try (apply set_first_none in Hf; exists st; split_and!; try done;
    [intros id; destruct (entries st !! id) eqn:He; simpl; [|done];
     symmetry; eapply expired_wf_entries; eauto | ]; rewrite Hf; set_solver).
  all: apply set_first_some in Hf as [Hin Hmin]; destruct (Z.ltb_spec now d) as [Hd|Hd].
  all: try (assert (Hall : forall d' i, (d', i) ∈ deadlines st -> now < d')
    by (intros d' i Hi; specialize (Hmin _ Hi); revert Hmin;
        unfold rust_leb, rust_cmp, prod_rust_ord, rust_cmp, Z_rust_ord; simpl;
        destruct (Z.compare_spec d d'); intros; simplify_eq; lia);
    exists st; split_and!; try done;
    intros i; destruct (entries st !! i) eqn:He; simpl; [|done];
    symmetry; by eapply expired_wf_entries).
  - exfalso. assert (deadlines st = ∅) by (apply leibniz_equiv, size_empty_inv; lia). set_solver.
  - rewrite cancel_pop by done.
    destruct (cancel_ok id st Hwf) as (st1 & -> & Hwf1 & Hfr & Hent & Hsub). simpl.
    pose proof (proj1 (wf_deadlines st Hwf d id) Hin) as (e & He & <- & Hp).
    assert (Hnot : (key_deadline (e_key e), id) ∉ deadlines st1).
    { intros (e1 & He1 & _ & Hp1)%(wf_deadlines st1 Hwf1).
      rewrite Hent, lookup_partial_alter_eq, He in He1. simpl in He1.
      unfold cancelled_entry in He1. destruct (e_phase e); by simplify_eq/=. }
    destruct (IH st1 Hwf1) as (st' & -> & ? & Hfr' & Hent' & ?).
    { assert (deadlines st1 ⊂ deadlines st) as ?%subset_size by set_solver. lia. }
    exists st'. split_and!; try done; [by etrans|].
    intros i. rewrite Hent', Hent. destruct (decide (i = id)) as [->|].
    + rewrite lookup_partial_alter_eq, He. simpl. by apply expired_cancelled.
    + by rewrite lookup_partial_alter_ne.
Qed.

Lemma expire_ok now st :
  wf st ->
  exists st', expire now st = Some st' /\ wf st' /\ frame st st' /\
    (forall id, entries st' !! id = entries st !! id ≫= expired_entry now) /\
    (forall d id, (d, id) ∈ deadlines st' -> now < d).
Proof. intros Hwf. by apply expire_loop_ok. Qed.

(** ** [revoke_scope] *)
Definition drop_scope (s : WorkScope) (st : NetworkWorkOwner) : NetworkWorkOwner :=
  with_scopes (delete s (scopes st)) st.

Lemma cancel_drop_scope s id st :
  cancel id (drop_scope s st) = drop_scope s <$> cancel id st.
Proof.
  unfold cancel, remove, drop_scope; simpl.
  destruct (entries st !! id) as [e|] eqn:He; [|done].
  destruct (e_phase e); [|done..].
  destruct (queues st !! lane_index (key_lane (e_key e))); [|done]. simpl.
  destruct (usize_sub (metadata_bytes st) (e_metadata_bytes e)); [|done]. simpl.
  unfold with_scopes; simpl. do 2 f_equal. destruct (decide (key_scope (e_key e) = s)) as [->|].
  - apply map_eq. intros i. destruct (decide (i = s)) as [->|].
    + by rewrite lookup_alter_eq, !lookup_delete_eq.
    + by rewrite lookup_alter_ne, !lookup_delete_ne, lookup_alter_ne by done.
  - by rewrite delete_alter_ne.
Qed.

Lemma cancel_all_drop_scope s ids st :
  cancel_all ids (drop_scope s st) = drop_scope s <$> cancel_all ids st.
Proof.
  revert st. induction ids as [|id ids IH]; intros st; simpl; [done|].
  rewrite cancel_drop_scope. by destruct (cancel id st); simpl.
Qed.

Lemma cancel_all_ok ids st :
  wf st ->
  exists st', cancel_all ids st = Some st' /\ wf st' /\ frame st st' /\
    (forall id, entries st' !! id =
       if decide (id ∈ ids) then entries st !! id ≫= cancelled_entry else entries st !! id).
Proof.
  revert st. induction ids as [|id ids IH]; intros st Hwf; simpl.
  - exists st. split_and!; try done. 
  - destruct (cancel_ok id st Hwf) as (st1 & -> & Hwf1 & Hfr & Hent & _). simpl.
    destruct (IH st1 Hwf1) as (st' & -> & ? & ? & Hent'). exists st'.
    split_and!; try done; [by etrans|]. intros i. rewrite Hent', Hent.
    destruct (decide (i = id)) as [->|Hne].
    + rewrite lookup_partial_alter_eq. rewrite (decide_True (P := id ∈ id :: ids)) by set_solver.
      destruct (decide (id ∈ ids)) as [Hin|]; [|done].
      destruct (entries st !! id) as [e|]; simpl; [|done].
      destruct (cancelled_entry e) as [e'|] eqn:Hc; simpl; [|done]. by eapply cancelled_entry_idem.
    + rewrite lookup_partial_alter_ne by done.
      destruct (decide (i ∈ ids)), (decide (i ∈ id :: ids)); try done; set_solver.
Qed.

Lemma drop_scope_wf s st :
  wf st ->
  (forall id e, entries st !! id = Some e -> key_scope (e_key e) = s -> e_phase e = Stopping) ->
  wf (drop_scope s st).
Proof.
  intros Hwf Hs. split; simpl; try apply Hwf.
  - intros s' work [_ ?]%lookup_delete_Some. by eapply Hwf.
  - intros s' work id [_ ?]%lookup_delete_Some. by apply Hwf.
  - intros id e He Hp. rewrite lookup_delete_ne; [by eapply Hwf|].
    intros ->. apply Hp. by eapply Hs.
  - pose proof (wf_cap_scopes st Hwf).
    destruct (scopes st !! s) eqn:E; [|by rewrite delete_id].
    rewrite map_size_delete_Some by eauto. lia.
Qed.

Lemma revoke_scope_ok s st :
  wf st ->
  exists st', revoke_scope s st = Some st' /\ wf st' /\
    owner st' = owner st /\ serial st' = serial st /\ limits st' = limits st /\
    (forall s', is_Some (scopes st' !! s') <-> is_Some (scopes st !! s') /\ s' <> s) /\
    (is_Some (scopes st !! s) -> forall id, entries st' !! id = entries st !! id ≫= fun e =>
       if decide (key_scope (e_key e) = s) then cancelled_entry e else Some e).
Proof.
  intros Hwf. unfold revoke_scope. destruct (scopes st !! s) as [work|] eqn:Hs.
  - change (with_scopes (delete s (scopes st)) st) with (drop_scope s st).
    rewrite cancel_all_drop_scope.
    destruct (cancel_all_ok (set_iter work) st Hwf) as (st1 & -> & Hwf1 & [] & Hent). simpl.
    assert (Hent1 : forall id, entries st1 !! id = entries st !! id ≫= fun e =>
      if decide (key_scope (e_key e) = s) then cancelled_entry e else Some e).
    { intros id. rewrite Hent. pose proof (wf_scopes st Hwf s work id Hs) as Hin.
      rewrite <- elem_of_set_iter in Hin.
      destruct (entries st !! id) as [e|]; simpl; [|by destruct (decide _)].
      destruct (decide (id ∈ set_iter work)), (decide (key_scope (e_key e) = s)); naive_solver. }
    eexists. split_and!; [done | apply drop_scope_wf; [done|] | done.. | | done].
    + intros id e He Hk. rewrite Hent1 in He.
      destruct (entries st !! id) as [e0|]; simplify_eq/=. case_decide; simplify_eq.
      unfold cancelled_entry in He. destruct (e_phase e0) eqn:?; by simplify_eq/=.
    + intros s'. simpl. rewrite lookup_delete_is_Some, fr_scopes0. naive_solver.
  - exists st. split_and!; try done.
    intros s'. split; [|naive_solver]. intros [x Hx]. split; [eauto|]. congruence.
Qed.

(** ** Serial numbers and scopes *)
Lemma with_serial_wf n st : wf st -> serial st <= n <= u64_max -> wf (with_serial n st).
Proof.
  intros Hwf Hn. split; simpl; try apply Hwf.
  - pose proof (wf_serial st Hwf). lia.
  - intros id e He. destruct (wf_entry st Hwf id e He) as [? ? Hw].
    split; try done; try lia. intros w ?%Hw. lia.
  - intros s work Hs. pose proof (wf_scope st Hwf s work Hs). lia.
Qed.

Lemma next_serial_ok n st st' :
  wf st -> next_serial st = (Some n, st') ->
  n = serial st + 1 /\ st' = with_serial n st /\ wf st'.
Proof.
  intros Hwf. unfold next_serial. case_match eqn:Hn; intros; simplify_eq.
  apply u64_checked_add_some in Hn as [-> ?]. split_and!; try done.
  apply with_serial_wf; [done|lia].
Qed.

Lemma next_serial_none st st' : next_serial st = (None, st') -> st' = st.
Proof. unfold next_serial. by case_match; intros; simplify_eq. Qed.

Lemma register_scope_ok st :
  wf st ->
  wf (register_scope st).2 /\ limits (register_scope st).2 = limits st.
Proof.
  intros Hwf. unfold register_scope. case_match eqn:Hcap; [done|].
  destruct (next_serial st) as [[n|] st'] eqn:Hn; simpl.
  2: { by apply next_serial_none in Hn as ->. }
  apply (next_serial_ok _ _ _ Hwf) in Hn as (-> & -> & Hwf'). split; [|done].
  set (s := {| ws_owner := owner st; ws_generation := serial st + 1 |}).
  assert (Hfresh : scopes st !! s = None).
  { destruct (scopes st !! s) eqn:Hs; [|done]. apply (wf_scope st Hwf) in Hs. simpl in Hs. lia. }
  split; simpl; try apply Hwf'.
  - intros s' work [[<- <-]|[_ Hs]]%lookup_insert_Some; [|by eapply Hwf'].
    simpl. pose proof (wf_serial st Hwf). lia.
  - intros s' work id [[<- <-]|[_ Hs]]%lookup_insert_Some; [|by apply Hwf].
    split; [set_solver|]. intros (e & He & Hk).
    apply (wf_entry st Hwf) in He as [_ Hs _ _ _ _]. rewrite Hk in Hs. simpl in Hs. lia.
  - intros id e He Hp. destruct (wf_live st Hwf id e He Hp) as [w Hw].
    apply lookup_insert_is_Some. destruct (decide (s = key_scope (e_key e))); eauto.
  - rewrite map_size_insert_None by done. lia.
Qed.

(** ** Waiters *)

(** Replacing the waiter set of an entry. *)
Lemma update_waiters_wf id e w st :
  wf st -> entries st !! id = Some e ->
  (forall x, x ∈ w -> 0 < x <= serial st) ->
  Z.of_nat (size w) <= lim_waiters_per_request (limits st) ->
  (e_phase e = Queued -> w <> ∅) ->
  wf (with_entries (<[id := entry_with_waiters w e]> (entries st)) st).
Proof.
  intros Hwf He Hw Hsz Hq.
  set (e1 := entry_with_waiters w e).
  assert (Hent : forall P : Entry -> Prop, (P e <-> P e1) -> forall i,
    (exists e', entries st !! i = Some e' /\ P e') <->
    (exists e', <[id := e1]> (entries st) !! i = Some e' /\ P e')).
  { intros P HP i. destruct (decide (id = i)) as [<-|].
    - rewrite lookup_insert_eq. naive_solver.
    - by rewrite lookup_insert_ne. }
  split; simpl; try apply Hwf.
  - intros i e' [[<- <-]|[_ ?]]%lookup_insert_Some; [|by apply Hwf].
    destruct (wf_entry st Hwf _ _ He). split; simpl; try done. intros ?.
    split; [by apply Hq | naive_solver].
  - intros k i. rewrite (wf_keys st Hwf). by apply (Hent (fun e => e_key e = k)).
  - intros d i. rewrite (wf_deadlines st Hwf).
    by apply (Hent (fun e => key_deadline (e_key e) = d /\ e_phase e <> Stopping)).
  - intros l q i Hl. rewrite (wf_queues st Hwf _ q _ Hl).
    by apply (Hent (fun e => e_phase e = Queued /\ lane_index (key_lane (e_key e)) = l)).
  - intros i Hi. apply (Hent (fun e => e_phase e = Stopping)); [done|]. by apply Hwf.
  - intros s work i Hs. rewrite (wf_scopes st Hwf _ work _ Hs).
    by apply (Hent (fun e => key_scope (e_key e) = s)).
  - intros i e' [[<- <-]|[_ ?]]%lookup_insert_Some ?;
      [by apply (wf_live st Hwf id e) | by eapply (wf_live st Hwf)].
  - rewrite (map_sum_update _ _ _ _ _ He), (wf_running st Hwf). unfold occupies. simpl. lia.
  - rewrite (map_sum_update _ _ _ _ _ He), (wf_bytes st Hwf). simpl. lia.
  - rewrite map_size_insert_Some by eauto. apply Hwf.
Qed.


(** Cancelling a queued request forgets its waiters. *)
Lemma cancel_queued_waiters id e w st :
  entries st !! id = Some e -> e_phase e = Queued ->
  cancel id (with_entries (<[id := entry_with_waiters w e]> (entries st)) st) = cancel id st.
Proof.
  intros He Hp. unfold cancel, remove; simpl.
  rewrite lookup_insert_eq, He. simpl. rewrite Hp. simpl.
  by rewrite delete_insert_eq.
Qed.

Lemma size_difference_le (X : gset Z) x : (size (X ∖ {[x]}) <= size X)%nat.
Proof. apply subseteq_size. set_solver. Qed.

Lemma release_waiter_ok w st :
  wf st ->
  exists st', release_waiter w st = Some st' /\ wf st' /\ limits st' = limits st.
Proof.
  intros Hwf. unfold release_waiter.
  destruct (entries st !! ww_work w) as [e|] eqn:He; [|eauto].
  case_decide as Hs; [|eauto]. case_decide as Hin; [|eauto].
  destruct (wf_entry st Hwf _ _ He) as [_ _ Hw Hsz _ _].
  pose proof (size_difference_le (e_waiters e) (ww_serial w)).
  set (ws := e_waiters e ∖ {[ww_serial w]}). simpl.
  destruct (decide (e_phase e = Queued /\ ws = ∅)) as [[Hq Hws]|Hnq].
  - rewrite (decide_True (P := ws = ∅)) by done.
    rewrite decide_True by (left; done). rewrite cancel_queued_waiters by done.
    destruct (cancel_ok (ww_work w) st Hwf) as (st' & ? & ? & [] & _). eauto.
  - assert (Hwf1 : wf (with_entries (<[ww_work w := entry_with_waiters ws e]> (entries st)) st)).
    { apply update_waiters_wf; try done; [|subst ws; lia|naive_solver].
      intros x Hx. apply Hw. set_solver. }
    repeat case_decide; eauto.
    destruct (cancel_ok (ww_work w) _ Hwf1) as (st' & ? & ? & [] & _). eauto.
Qed.

(** ** [start_next] *)

(** Moving a queued entry to the running phase. *)
Definition started (id : WorkId) (e : Entry) (lane : nat) (q : gset WorkId) (st : NetworkWorkOwner) : NetworkWorkOwner :=
  {| owner := owner st; serial := serial st; limits := limits st;
     scopes := scopes st;
     entries := <[id := entry_started e]> (entries st);
     keys := keys st; deadlines := deadlines st;
     queues := <[lane := q ∖ {[id]}]> (queues st);
     cancellations := cancellations st; cursor := cursor st;
     running := running st + 1; metadata_bytes := metadata_bytes st |}.

Lemma started_wf id e lane q st :
  wf st -> entries st !! id = Some e -> e_phase e = Queued ->
  lane_index (key_lane (e_key e)) = lane -> queues st !! lane = Some q ->
  running st < lim_running (limits st) -> wf (started id e lane q st).
Proof.
  intros Hwf He Hp Hl Hq Hrun.
  assert (Hent : forall P : Entry -> Prop, (P e <-> P (entry_started e)) -> forall i,
    (exists e', entries st !! i = Some e' /\ P e') <->
    (exists e', <[id := entry_started e]> (entries st) !! i = Some e' /\ P e')).
  { intros P HP i. destruct (decide (id = i)) as [<-|].
    - rewrite lookup_insert_eq. naive_solver.
    - by rewrite lookup_insert_ne. }
  split; simpl; try apply Hwf.
  - intros i e' [[<- <-]|[_ ?]]%lookup_insert_Some; [|by apply Hwf].
    destruct (wf_entry st Hwf _ _ He). by split.
  - intros k i. rewrite (wf_keys st Hwf). by apply (Hent (fun e => e_key e = k)).
  - intros d i. rewrite (wf_deadlines st Hwf).
    apply (Hent (fun e => key_deadline (e_key e) = d /\ e_phase e <> Stopping)).
    simpl. rewrite Hp. naive_solver.
  - rewrite length_insert. apply Hwf.
  - intros l q' i Hl'. rewrite list_lookup_insert_Some in Hl'.
    assert (Hi : forall l0, (exists e', entries st !! i = Some e' /\ e_phase e' = Queued /\
        lane_index (key_lane (e_key e')) = l0) /\ i <> id <->
      exists e', <[id := entry_started e]> (entries st) !! i = Some e' /\ e_phase e' = Queued /\
        lane_index (key_lane (e_key e')) = l0).
    { intros l0. destruct (decide (id = i)) as [<-|]; [rewrite lookup_insert_eq | rewrite lookup_insert_ne by done];
        naive_solver. }
    rewrite <- Hi. destruct Hl' as [(<- & <- & _) | [Hne Hl']].
    + by rewrite elem_of_difference, elem_of_singleton, (wf_queues st Hwf _ q _ Hq).
    + rewrite (wf_queues st Hwf _ q' _ Hl'). split; [|tauto]. intros Hex. split; [done|].
      intros ->. naive_solver.
  - intros i Hi. destruct (wf_cancellations st Hwf i Hi) as (e' & He' & Hp').
    exists e'. rewrite lookup_insert_ne; [done|]. intros <-. congruence.
  - intros s work i Hs. rewrite (wf_scopes st Hwf _ work _ Hs).
    by apply (Hent (fun e => key_scope (e_key e) = s)).
  - intros i e' [[<- <-]|[_ ?]]%lookup_insert_Some ?; [|by eapply (wf_live st Hwf)].
    apply (wf_live st Hwf id e); congruence.
  - rewrite (map_sum_update _ _ _ _ _ He), (wf_running st Hwf). unfold occupies. rewrite Hp. simpl. lia.
  - rewrite (map_sum_update _ _ _ _ _ He), (wf_bytes st Hwf). simpl. lia.
  - rewrite map_size_insert_Some by eauto. apply Hwf.
  - lia.
Qed.

Lemma with_cursor_wf c st : wf st -> (c < 7)%nat -> wf (with_cursor c st).
Proof. intros Hwf ?. split; simpl; try apply Hwf. done. Qed.

Lemma lanes_lookup st : wf st -> exists lane, LANES !! cursor st = Some lane /\ (lane < 3)%nat.
Proof.
  intros Hwf. pose proof (wf_cursor st Hwf) as Hc.
  assert (Forall (fun c => exists lane, LANES !! c = Some lane /\ (lane < 3)%nat) (seq 0 7)) as Hf.
  { repeat constructor; eexists; (split; [reflexivity | lia]). }
  rewrite Forall_forall in Hf. apply Hf, elem_of_seq. lia.
Qed.

(** The head of a lane queue is a queued entry that owns its metadata. *)
Lemma queue_head_ok st lane q id :
  wf st -> queues st !! lane = Some q -> set_first q = Some id ->
  exists e m, entries st !! id = Some e /\ e_phase e = Queued /\
    lane_index (key_lane (e_key e)) = lane /\ e_metadata e = Some m.
Proof.
  intros Hwf Hq [Hin _]%set_first_some.
  apply (wf_queues st Hwf _ _ _ Hq) in Hin as (e & He & Hp & Hl).
  destruct (wf_entry st Hwf _ _ He) as [_ _ _ _ _ Hqd].
  destruct (Hqd Hp) as (_ & m & Hm & _). eauto 10.
Qed.

Lemma start_loop_ok n st :
  wf st -> running st < lim_running (limits st) ->
  exists w st', start_loop n st = Some (w, st') /\ wf st' /\ limits st' = limits st.
Proof.
  revert st. induction n as [|n IH]; intros st Hwf Hrun; cbn [start_loop]; [eauto|].
  destruct (lanes_lookup st Hwf) as (lane & -> & Hlane). cbn [mbind option_bind].
  set (st1 := with_cursor _ st).
  assert (wf st1) as Hwf1.
  { apply with_cursor_wf; [done|]. pose proof (Nat.mod_upper_bound (cursor st + 1) (length LANES)).
    simpl in *. lia. }
  destruct (lookup_lt_is_Some_2 (queues st1) lane) as [q Hq].
  { rewrite (wf_queues_len st1 Hwf1). done. }
  rewrite Hq. cbn [mbind option_bind]. destruct (set_first q) as [id|] eqn:Hf; [|exact (IH st1 Hwf1 Hrun)].
  destruct (queue_head_ok st1 lane q id Hwf1 Hq Hf) as (e & m & He & Hp & Hl & Hm).
  rewrite He. simpl. rewrite Hm. simpl. do 2 eexists. split; [reflexivity|]. split; [|done].
  by apply (started_wf id e lane q st1).
Qed.

Lemma start_next_ok now st :
  wf st -> exists w st', start_next now st = Some (w, st') /\ wf st' /\ limits st' = limits st.
Proof.
  intros Hwf. unfold start_next.
  destruct (expire_ok now st Hwf) as (st1 & -> & Hwf1 & [] & _). cbn [mbind option_bind].
  case_match eqn:Hr; [eauto|].
  destruct (start_loop_ok (length LANES) st1 Hwf1) as (w & st' & -> & ? & ?); [lia|].
  exists w, st'. split_and!; congruence.
Qed.

(** ** [next_cancellation] and [complete] *)
Lemma next_cancellation_ok st :
  wf st -> wf (next_cancellation st).2 /\ limits (next_cancellation st).2 = limits st.
Proof.
  intros Hwf. unfold next_cancellation. case_match; [|done]. split; [|done].
  split; simpl; try apply Hwf. intros id Hid. apply Hwf. set_solver.
Qed.

Lemma complete_ok id now st :
  wf st -> exists c st', complete id now st = Some (c, st') /\ wf st' /\ limits st' = limits st.
Proof.
  intros Hwf. unfold complete. destruct (entries st !! id) as [e|] eqn:He; [|eauto].
  case_decide; [eauto|].
  destruct (remove_eq st Hwf id e He) as (q & Hq & ->). cbn [mbind option_bind].
  do 2 eexists. split; [reflexivity|]. split; [by apply removed_wf | done].
Qed.

(** ** [admit_work] *)

(** Inserting a fresh queued request. *)
Definition admitted (id : WorkId) (e : Entry) (work q : gset WorkId) (st : NetworkWorkOwner) : NetworkWorkOwner :=
  let key := e_key e in
  {| owner := owner st; serial := serial st; limits := limits st;
     scopes := <[key_scope key := work ∪ {[id]}]> (scopes st);
     entries := <[id := e]> (entries st);
     keys := <[key := id]> (keys st);
     deadlines := deadlines st ∪ {[(key_deadline key, id)]};
     queues := <[lane_index (key_lane key) := q ∪ {[id]}]> (queues st);
     cancellations := cancellations st; cursor := cursor st;
     running := running st;
     metadata_bytes := metadata_bytes st + e_metadata_bytes e |}.

Section admitted.
Context (id : WorkId) (e : Entry) (work q : gset WorkId) (st : NetworkWorkOwner).
Context (Hwf : wf st) (Hid : entries st !! id = None) (Hp : e_phase e = Queued).

Lemma admitted_lookup (P : Entry -> Prop) i :
  (exists e', <[id := e]> (entries st) !! i = Some e' /\ P e') <->
  (exists e', entries st !! i = Some e' /\ P e') \/ i = id /\ P e.
Proof using Hid Hp.
  destruct (decide (id = i)) as [<-|].
  - rewrite lookup_insert_eq. naive_solver.
  - rewrite lookup_insert_ne by done. naive_solver.
Qed.

Lemma admitted_wf :
  keys st !! e_key e = None ->
  scopes st !! key_scope (e_key e) = Some work ->
  queues st !! lane_index (key_lane (e_key e)) = Some q ->
  entry_ok (owner st) (serial st) (limits st) id e ->
  Z.of_nat (size (entries st)) < lim_requests (limits st) ->
  metadata_bytes st + e_metadata_bytes e <= lim_metadata_bytes (limits st) ->
  wf (admitted id e work q st).
Proof using Hwf Hid Hp.
  intros Hk Hs Hq Hok Hreq Hbytes. split; simpl; try apply Hwf.
  - intros i e' [[<- <-]|[_ ?]]%lookup_insert_Some; [done | by apply Hwf].
  - intros k i. rewrite lookup_insert_Some, admitted_lookup, (wf_keys st Hwf). split; [naive_solver|].
    intros [(e' & He' & <-)|[-> ->]]; [right | by left]. split; [|eauto].
    intros Hke. assert (keys st !! e_key e' = Some i) by (apply (wf_keys st Hwf); eauto). congruence.
  - intros d i. rewrite elem_of_union, elem_of_singleton, (wf_deadlines st Hwf).
    rewrite (admitted_lookup (fun e => key_deadline (e_key e) = d /\ e_phase e <> Stopping)).
    rewrite Hp. naive_solver.
  - rewrite length_insert. apply Hwf.
  - intros l q' i Hl. rewrite list_lookup_insert_Some in Hl.
    rewrite (admitted_lookup (fun e => e_phase e = Queued /\ lane_index (key_lane (e_key e)) = l)).
    destruct Hl as [(<- & <- & _) | [Hne Hl]].
    + rewrite elem_of_union, elem_of_singleton, (wf_queues st Hwf _ q _ Hq). naive_solver.
    + rewrite (wf_queues st Hwf _ q' _ Hl). naive_solver.
  - intros i Hi. apply (admitted_lookup (fun e => e_phase e = Stopping)). left. by apply Hwf.
  - intros s w [[<- <-]|[_ Hw]]%lookup_insert_Some;
      [exact (wf_scope st Hwf _ _ Hs) | exact (wf_scope st Hwf _ _ Hw)].
  - intros s w i Hw. rewrite (admitted_lookup (fun e => key_scope (e_key e) = s)).
    apply lookup_insert_Some in Hw as [[<- <-]|[Hne Hw]].
    + rewrite elem_of_union, elem_of_singleton, (wf_scopes st Hwf _ work _ Hs). naive_solver.
    + rewrite (wf_scopes st Hwf _ w _ Hw). naive_solver.
  - intros i e' He' Hph. apply lookup_insert_is_Some.
    destruct (decide (key_scope (e_key e) = key_scope (e_key e'))) as [|Hne]; [by left|]. right.
    split; [done|]. apply lookup_insert_Some in He' as [[<- <-]|[_ ?]]; [done | by eapply Hwf].
  - rewrite map_sum_insert, (wf_running st Hwf) by done. unfold occupies. by rewrite Hp.
  - rewrite map_sum_insert, (wf_bytes st Hwf) by done. lia.
  - rewrite map_size_insert_Some by eauto. apply Hwf.
  - rewrite map_size_insert_None by done. lia.
  - done.
Qed.
End admitted.

Lemma fresh_id st n :
  wf st -> serial st < n -> entries st !! {| wid_owner := owner st; wid_serial := n |} = None.
Proof.
  intros Hwf Hn. destruct (entries st !! _) eqn:He; [|done].
  apply (wf_entry st Hwf) in He as [Hid]. simpl in Hid. lia.
Qed.

Lemma admit_denied_none key m now st :
  admit_denied key m now st = None ->
  is_Some (scopes st !! key_scope key) /\ now < key_deadline key /\ key_mode key <> LocalOnly /\
  Z.of_nat (String.length m) <= lim_metadata_bytes (limits st).
Proof.
  unfold admit_denied. repeat case_decide; repeat case_match; try done. intros _.
  split_and!; try done; try lia. by apply not_eq_None_Some.
Qed.

Section admit_ok.
Context (blake3 : string -> string).

Lemma admit_join_ok key m now id st :
  wf st -> keys st !! key = Some id ->
  exists a st', admit_join blake3 key m now id st = Some (a, st') /\ wf st' /\ limits st' = limits st.
Proof.
  intros Hwf (e & He & Hk)%(wf_keys st Hwf). unfold admit_join. rewrite He. cbn [mbind option_bind].
  case_decide; [|eauto]. case_decide; [eauto|]. case_match eqn:Hcap; [eauto|].
  destruct (next_serial st) as [[n|] st1] eqn:Hn.
  2: { apply next_serial_none in Hn as ->. eauto. }
  apply (next_serial_ok _ _ _ Hwf) in Hn as (-> & -> & Hwf1). simpl. rewrite He. simpl.
  do 2 eexists. split; [reflexivity|]. split; [|done].
  destruct (wf_entry st Hwf _ _ He) as [_ _ Hw _ _ _]. pose proof (wf_serial st Hwf).
  apply (update_waiters_wf id e _ (with_serial (serial st + 1) st)); try done; simpl.
  - intros x [?%Hw | ->%elem_of_singleton]%elem_of_union; lia.
  - rewrite size_union_alt. set (X := {[serial st + 1]} : gset Z).
    assert (size (X ∖ e_waiters e) <= size X)%nat by (apply subseteq_size; set_solver).
    assert (size X = 1%nat) by apply size_singleton. lia.
  - set_solver.
Qed.

Lemma admit_new_ok key m now st :
  wf st -> keys st !! key = None -> admit_denied key m now st = None ->
  exists a st', admit_new blake3 key m now st = Some (a, st') /\ wf st' /\ limits st' = limits st.
Proof.
  intros Hwf Hk ([work Hs] & _ & _ & Hlen)%admit_denied_none. unfold admit_new.
  case_match eqn:Hreq; [eauto|]. case_match eqn:Hwt; [eauto|].
  rewrite usize_sub_some by apply (wf_cap_bytes st Hwf). cbn [mbind option_bind].
  case_match eqn:Hfree; [eauto|].
  destruct (next_serial st) as [[n|] st1] eqn:Hn.
  2: { apply next_serial_none in Hn as ->. eauto. }
  apply (next_serial_ok _ _ _ Hwf) in Hn as (-> & -> & Hwf1). simpl. rewrite Hs. simpl.
  destruct (wf_queue_lookup st Hwf (key_lane key)) as [q Hq]. rewrite Hq. simpl.
  do 2 eexists. split; [reflexivity|]. split; [|done].
  pose proof (wf_serial st Hwf). pose proof (wf_scope st Hwf _ _ Hs). pose proof (wf_limits st Hwf) as [].
  set (e := {| e_key := key; e_metadata := Some m; e_metadata_hash := blake3 m;
    e_metadata_bytes := Z.of_nat (String.length m); e_waiters := {[serial st + 1]}; e_phase := Queued |}).
  apply (admitted_wf {| wid_owner := owner st; wid_serial := serial st + 1 |} e work q
    (with_serial (serial st + 1) st)); try done; simpl; try lia.
  - by apply fresh_id; [|lia].
  - split; simpl; try lia.
    + intros w ->%elem_of_singleton. lia.
    + assert (size ({[serial st + 1]} : gset Z) = 1%nat) as Hone by apply size_singleton.
      change (Z.of_nat (size ({[serial st + 1]} : gset Z)) <= lim_waiters_per_request (limits st)).
      lia.
    + intros _. split; [set_solver | eauto].
Qed.

Lemma admit_ok key m now st :
  wf st -> exists a st', admit_work blake3 key m now st = Some (a, st') /\ wf st' /\ limits st' = limits st.
Proof.
  intros Hwf. unfold admit_work.
  destruct (expire_ok now st Hwf) as (st1 & -> & Hwf1 & [] & _). cbn [mbind option_bind].
  rewrite <- fr_limits0.
  destruct (admit_denied key m now st1) eqn:Hd; [eauto|].
  destruct (keys st1 !! key) eqn:Hk; [by apply admit_join_ok | by apply admit_new_ok].
Qed.

(** ** Every operation *)
Lemma run_ok op st :
  wf st -> exists out st', run blake3 op st = Some (out, st') /\ wf st' /\ limits st' = limits st.
Proof.
  intros Hwf. destruct op; simpl.
  - destruct (register_scope_ok st Hwf) as [? ?]. destruct (register_scope st). eauto.
  - destruct (revoke_scope_ok s st Hwf) as (st' & -> & ? & _ & _ & ? & _). simpl. eauto.
  - destruct (admit_ok k metadata now st Hwf) as (a & st' & -> & ? & ?). simpl. eauto.
  - destruct (release_waiter_ok w st Hwf) as (st' & -> & ? & ?). simpl. eauto.
  - destruct (start_next_ok now st Hwf) as (w & st' & -> & ? & ?). simpl. eauto.
  - destruct (expire_ok now st Hwf) as (st' & -> & ? & [] & _). simpl. eauto.
  - destruct (next_cancellation_ok st Hwf) as [? ?]. destruct (next_cancellation st). eauto.
  - destruct (complete_ok id now st Hwf) as (c & st' & -> & ? & ?). simpl. eauto.
Qed.

Lemma new_wf seq lims st next : limits_ok lims -> new seq lims = Some (st, next) -> wf st.
Proof.
  intros Hl Hn. unfold new in Hn. inv_bind. pose proof Hl as [].
  split; simpl; try done; try lia; try set_solver.
  intros l q id Hq. assert (q = ∅) as ->.
  { destruct l as [|[|[|l]]]; simpl in Hq; by simplify_eq. }
  split; [set_solver | intros (? & ? & _); set_solver].
Qed.

Lemma reachable_wf lims st : limits_ok lims -> reachable blake3 lims st -> wf st /\ limits st = lims.
Proof.
  intros Hl. induction 1 as [seq st next Hn | st op out st' _ [Hwf Hlim] Hr].
  - split; [by eapply new_wf|]. unfold new in Hn. by inv_bind.
  - destruct (run_ok op st Hwf) as (out' & st'' & Hr' & ? & ?).
    rewrite Hr in Hr'. simplify_eq. done.
Qed.
End admit_ok.
