(* ===== verification/WorkAdmissionProps.v ===== *)
(** * What the admission of network work guarantees

    The properties of [NetworkWorkOwner] that its executor relies on: no call
    panics, the configured capacities hold in every reachable state, a revoked
    scope never publishes again, deadlines are enforced, equal requests
    coalesce, and the weighted lane rotation starves no lane. *)
From S2P Require Import Prelude WorkAdmission WorkAdmissionWf.

(** One public call, whatever it returns. *)
Definition step (blake3 : string -> string) (st st' : NetworkWorkOwner) : Prop :=
  exists op out, run blake3 op st = Some (out, st').

(** The lane the rotation serves at cursor position [c]. *)
Definition lane_at (c : nat) : nat := default 0%nat (LANES !! (c mod 7)%nat).

(** How many rotation slots separate the cursor from the next slot of [lane]. *)
Fixpoint slots_until (n : nat) (lane c : nat) : nat :=
  match n with
  | O => 0
  | S n => if decide (lane_at c = lane) then 0 else S (slots_until n lane (S c))
  end.

Definition distance (lane c : nat) : nat := slots_until 7 lane c.

Definition lane_queue (st : NetworkWorkOwner) (lane : nat) : gset WorkId :=
  default ∅ (queues st !! lane).

(** A run of public calls from a fresh owner; an owner that panics stays put. *)
Fixpoint run_all (blake3 : string -> string) (ops : list Op) (st : NetworkWorkOwner) : NetworkWorkOwner :=
  match ops with
  | [] => st
  | op :: ops => match run blake3 op st with
                 | Some (_, st') => run_all blake3 ops st'
                 | None => st
                 end
  end.

Definition fresh_owner (lims : WorkLimits) : NetworkWorkOwner :=
  {| owner := 1; serial := 0; limits := lims;
     scopes := ∅; entries := ∅; keys := ∅; deadlines := ∅;
     queues := [∅; ∅; ∅]; cancellations := ∅; cursor := 0;
     running := 0; metadata_bytes := 0 |}.

(** A small concrete run: one scope, three requests in two lanes, one started. *)
Definition demo_scope : WorkScope := {| ws_owner := 1; ws_generation := 1 |}.

Definition demo_key (object : string) (deadline : Z) (lane : WorkLane) : WorkKey :=
  {| key_scope := demo_scope; key_protocol := Docs; key_object := object; key_mode := Fetch;
     key_persistence := Store; key_byte_limit := 4096; key_deadline := deadline; key_lane := lane |}.

Definition demo_owner : NetworkWorkOwner :=
  run_all id
    [OpRegister;
     OpAdmit (demo_key "a" 1000 LaneInteractive) "meta-a" 10;
     OpAdmit (demo_key "b" 2000 LaneInteractive) "meta-b" 10;
     OpAdmit (demo_key "c" 3000 LaneBackground) "meta-c" 10;
     OpStart 20]
    (fresh_owner default_limits).

(** ** Scopes are never resurrected *)
Section scopes.
Context (blake3 : string -> string).

(** Later states only add scopes of a later generation. *)
Definition scope_mono (st st' : NetworkWorkOwner) : Prop :=
  serial st <= serial st' /\
  forall s, is_Some (scopes st' !! s) -> is_Some (scopes st !! s) \/ serial st < ws_generation s.

Lemma scope_mono_refl st : scope_mono st st.
Proof. split; [lia | naive_solver]. Qed.

Lemma scope_mono_trans st1 st2 st3 : scope_mono st1 st2 -> scope_mono st2 st3 -> scope_mono st1 st3.
Proof.
  intros [? H1] [? H2]. split; [lia|]. intros s [Hs|?]%H2; [by apply H1 | right; lia].
Qed.

Lemma frame_mono st st' : frame st st' -> scope_mono st st'.
Proof. intros []. split; [lia|]. intros s. rewrite fr_scopes. auto. Qed.

Lemma same_scopes_mono st st' :
  serial st <= serial st' -> (forall s, is_Some (scopes st' !! s) -> is_Some (scopes st !! s)) ->
  scope_mono st st'.
Proof. intros ? Hs. split; [done|]. intros s ?%Hs. auto. Qed.

Lemma remove_mono id st st' : remove id st = Some st' -> scope_mono st st'.
Proof.
  unfold remove. case_match; intros; inv_bind; apply same_scopes_mono; simpl; try done.
  intros s. by rewrite lookup_alter_is_Some.
Qed.

Lemma start_loop_mono n st w st' : start_loop n st = Some (w, st') -> scope_mono st st'.
Proof.
  revert st. induction n as [|n IH]; intros st; cbn [start_loop].
  - intros ?; simplify_eq. apply scope_mono_refl.
  - destruct (LANES !! cursor st) as [lane|]; [|done]. cbn [mbind option_bind].
    set (st1 := with_cursor _ st).
    destruct (queues st1 !! lane) as [q|]; [|done]. cbn [mbind option_bind].
    destruct (set_first q) as [id|]; [|by intros Hs%IH].
    intros. inv_bind. by apply same_scopes_mono.
Qed.

Lemma next_serial_mono st n st' :
  wf st -> next_serial st = (n, st') -> serial st <= serial st' /\ scopes st' = scopes st.
Proof.
  unfold next_serial. intros Hwf. case_match eqn:Hn; intros; simplify_eq; [|done].
  apply u64_checked_add_some in Hn as [-> _]. simpl. split; [lia|done].
Qed.

Lemma register_scope_mono st : wf st -> scope_mono st (register_scope st).2.
Proof.
  intros Hwf. unfold register_scope. case_match; [apply scope_mono_refl|].
  destruct (next_serial st) as [[n|] st'] eqn:Hn; simpl.
  - apply (next_serial_ok _ _ _ Hwf) in Hn as (-> & -> & _). split; simpl; [lia|].
    intros s [<-|[_ ?]]%lookup_insert_is_Some; simpl; [right; lia | by left].
  - apply next_serial_none in Hn as ->. apply scope_mono_refl.
Qed.

Lemma admit_mono key m now st a st' :
  wf st -> admit_work blake3 key m now st = Some (a, st') -> scope_mono st st'.
Proof.
  intros Hwf. unfold admit_work.
  destruct (expire_ok now st Hwf) as (st1 & -> & Hwf1 & Hfr & _). cbn [mbind option_bind].
  intros Ha. apply (scope_mono_trans _ st1); [by apply frame_mono|].
  destruct (admit_denied key m now st1); [simplify_eq; apply scope_mono_refl|].
  destruct (keys st1 !! key) as [id|].
  - unfold admit_join in Ha. destruct (entries st1 !! id) as [e|]; [|done]. cbn [mbind option_bind] in Ha.
    destruct (next_serial st1) as [n st2] eqn:Hn.
    destruct (next_serial_mono st1 n st2 Hwf1 Hn) as [? Hs].
    repeat case_decide; repeat case_match; inv_bind; try apply scope_mono_refl;
      apply same_scopes_mono; simpl; try done; by rewrite Hs.
  - unfold admit_new in Ha. destruct (next_serial st1) as [n st2] eqn:Hn.
    destruct (next_serial_mono st1 n st2 Hwf1 Hn) as [? Hs].
    repeat case_match; inv_bind; try apply scope_mono_refl;
      repeat case_match; inv_bind; try apply scope_mono_refl;
      apply same_scopes_mono; simpl; try done; rewrite ?Hs in *; try done.
    intros s [<-|[_ ?]]%lookup_insert_is_Some; [eauto|done].
Qed.

Lemma cancel_mono id st st' : cancel id st = Some st' -> scope_mono st st'.
Proof.
  unfold cancel. repeat case_match; intros; simplify_eq;
    try apply scope_mono_refl; [by eapply remove_mono | by apply same_scopes_mono].
Qed.

Lemma release_waiter_mono w st st' : release_waiter w st = Some st' -> scope_mono st st'.
Proof.
  unfold release_waiter. destruct (entries st !! ww_work w) as [e|];
    [|intros [= <-]; apply scope_mono_refl].
  case_decide; [|intros [= <-]; apply scope_mono_refl].
  case_decide; [|intros [= <-]; apply scope_mono_refl].
  set (st1 := with_entries _ st). assert (Hst1 : scope_mono st st1) by exact (scope_mono_refl st).
  case_decide; [case_decide|]; [|intros [= <-]; exact Hst1..].
  intros Hr%cancel_mono. exact (scope_mono_trans _ _ _ Hst1 Hr).
Qed.

Lemma run_mono op st out st' : wf st -> run blake3 op st = Some (out, st') -> scope_mono st st'.
Proof.
  intros Hwf. destruct op; simpl; intros Hr.
  - pose proof (register_scope_mono st Hwf). destruct (register_scope st). by simplify_eq.
  - destruct (revoke_scope_ok s st Hwf) as (st1 & Hs & _ & _ & ? & _ & Hd & _).
    rewrite Hs in Hr. simplify_eq/=. apply same_scopes_mono; [lia|]. intros s' ?%Hd. naive_solver.
  - inv_bind. by eapply admit_mono.
  - inv_bind. by eapply release_waiter_mono.
  - unfold start_next in Hr.
    destruct (expire_ok now st Hwf) as (st1 & Hs & Hwf1 & Hfr & _). rewrite Hs in Hr.
    cbn [mbind option_bind] in Hr. apply (scope_mono_trans _ st1); [by apply frame_mono|].
    destruct (lim_running (limits st1) <=? running st1).
    + injection Hr as _ <-. apply scope_mono_refl.
    + destruct (start_loop (length LANES) st1) as [[w st2]|] eqn:Hl; [|done].
      injection Hr as _ <-. by eapply start_loop_mono.
  - destruct (expire_ok now st Hwf) as (st1 & Hs & Hwf1 & Hfr & _). rewrite Hs in Hr. simplify_eq/=.
    by apply frame_mono.
  - unfold next_cancellation in Hr.
    destruct (set_first (cancellations st)); injection Hr as _ <-; exact (scope_mono_refl st).
  - unfold complete in Hr. case_match; inv_bind; [|apply scope_mono_refl].
    case_decide; inv_bind; [apply scope_mono_refl | by eapply remove_mono].
Qed.

Lemma steps_wf_mono st st' : wf st -> rtc (step blake3) st st' -> wf st' /\ scope_mono st st'.
Proof.
  intros Hwf Hs. induction Hs as [st | st1 st2 st3 (op & out & Hr) _ IH].
  - split; [done | apply scope_mono_refl].
  - destruct (run_ok blake3 op st1 Hwf) as (? & ? & Hr' & Hwf2 & _).
    rewrite Hr in Hr'. simplify_eq. destruct (IH Hwf2) as [? ?]. split; [done|].
    eapply scope_mono_trans; [by eapply run_mono | done].
Qed.
End scopes.

(** ** The lane rotation *)
Section rotation.

Lemma lanes_lookup_at c : (c < 7)%nat -> LANES !! c = Some (lane_at c).
Proof.
  intros Hc. unfold lane_at. rewrite Nat.mod_small by done.
  destruct (lookup_lt_is_Some_2 LANES c) as [l Hl]; [simpl; lia|]. by rewrite Hl.
Qed.

Lemma lane_at_mod c : lane_at (c mod 7) = lane_at c.
Proof. unfold lane_at. by rewrite Nat.Div0.mod_mod. Qed.

(** [start_loop] serves the first slot of the rotation whose lane has work. *)
Lemma start_loop_spec n st w st' :
  wf st -> start_loop n st = Some (w, st') ->
  match w with
  | None => forall j, (j < n)%nat -> lane_queue st (lane_at (cursor st + j)) = ∅
  | Some sw => exists i, (i < n)%nat /\
      (forall j, (j < i)%nat -> lane_queue st (lane_at (cursor st + j)) = ∅) /\
      sw_id sw ∈ lane_queue st (lane_at (cursor st + i)) /\
      lane_index (key_lane (sw_key sw)) = lane_at (cursor st + i) /\
      cursor st' = ((cursor st + i + 1) mod 7)%nat
  end.
Proof.
  revert st. induction n as [|n IH]; intros st Hwf; cbn [start_loop].
  - intros [= <- <-] j Hj. lia.
  - pose proof (wf_cursor st Hwf) as Hc. rewrite lanes_lookup_at by done.
    cbn [mbind option_bind]. change (length LANES) with 7%nat. set (st1 := with_cursor _ st).
    assert (wf st1) as Hwf1 by (apply with_cursor_wf; [done | apply Nat.mod_upper_bound; lia]).
    destruct (queues st1 !! lane_at (cursor st)) as [q|] eqn:Hq; [|done]. cbn [mbind option_bind].
    assert (Hlq : lane_queue st (lane_at (cursor st)) = q)
      by (unfold lane_queue; change (queues st) with (queues st1); by rewrite Hq).
    assert (Hcur : forall j, lane_at (cursor st1 + j) = lane_at (cursor st + S j)).
    { intros j. change (cursor st1) with ((cursor st + 1) mod 7)%nat. unfold lane_at. rewrite Nat.Div0.add_mod_idemp_l.
      by replace (cursor st + 1 + j)%nat with (cursor st + S j)%nat by lia. }
    destruct (set_first q) as [id|] eqn:Hf.
    + intros Hs. destruct (queue_head_ok st1 _ q id Hwf1 Hq Hf) as (e & m & He & Hp & Hl & Hm).
      rewrite He in Hs. simpl in Hs. rewrite Hm in Hs. injection Hs as <- <-.
      exists 0%nat. rewrite Nat.add_0_r, Hlq. apply set_first_some in Hf as [Hin _].
      split_and!; try done; [lia | intros; lia].
    + apply set_first_none in Hf as ->. intros Hs%(IH st1 Hwf1). destruct w as [sw|].
      * destruct Hs as (i & Hi & Hall & Hin & Hl & Hcu). exists (S i). rewrite <- !Hcur.
        split_and!; try done; [lia | | ].
        -- intros [|j] Hj; [by rewrite Nat.add_0_r|]. rewrite <- Hcur. apply Hall. lia.
        -- rewrite Hcu. change (cursor st1) with ((cursor st + 1) mod 7)%nat.
           rewrite <- (Nat.add_assoc ((cursor st + 1) mod 7)), Nat.Div0.add_mod_idemp_l.
           f_equal. lia.
      * intros [|j] Hj; [by rewrite Nat.add_0_r|]. rewrite <- Hcur. apply Hs. lia.
Qed.

(** Skipping other lanes brings the cursor closer to [lane]. *)
Lemma distance_decreases lane c i :
  (lane < 3)%nat -> (c < 7)%nat -> (i <= distance lane c)%nat -> lane_at (c + i) <> lane ->
  (distance lane ((c + i + 1) mod 7) < distance lane c)%nat.
Proof.
  intros Hl Hc Hi Hne.
  assert (Hall : forallb (fun lane => forallb (fun c => forallb (fun i =>
    negb (i <=? distance lane c)%nat || (lane_at (c + i) =? lane)%nat ||
    (distance lane ((c + i + 1) mod 7) <? distance lane c)%nat) (seq 0 8)) (seq 0 7)) (seq 0 3) = true)
    by (vm_compute; reflexivity).
  assert (Hd : (distance lane c <= 7)%nat).
  { unfold distance. generalize c. generalize 7%nat. intros n. clear. induction n as [|n IH]; intros c; simpl; [lia|].
    case_decide; [lia|]. specialize (IH (S c)). lia. }
  rewrite forallb_forall in Hall. specialize (Hall lane ltac:(apply in_seq; lia)).
  rewrite forallb_forall in Hall. specialize (Hall c ltac:(apply in_seq; lia)).
  rewrite forallb_forall in Hall. specialize (Hall i ltac:(apply in_seq; lia)).
  apply orb_prop in Hall as [Hall|Hall]; [|by apply Nat.ltb_lt].
  apply orb_prop in Hall as [Hall|Hall];
    [apply negb_true_iff, Nat.leb_gt in Hall; lia | by apply Nat.eqb_eq in Hall].
Qed.

(** The slot of [lane] is the first one at its distance. *)
Lemma distance_slot lane c : (lane < 3)%nat -> (c < 7)%nat ->
  (distance lane c < 7)%nat /\ lane_at (c + distance lane c) = lane.
Proof.
  intros Hl Hc.
  assert (Hall : forallb (fun lane => forallb (fun c =>
    (distance lane c <? 7)%nat && (lane_at (c + distance lane c) =? lane)%nat) (seq 0 7)) (seq 0 3) = true)
    by (vm_compute; reflexivity).
  rewrite forallb_forall in Hall. specialize (Hall lane ltac:(apply in_seq; lia)).
  rewrite forallb_forall in Hall. specialize (Hall c ltac:(apply in_seq; lia)).
  apply andb_prop in Hall as [H1 H2]. split; [by apply Nat.ltb_lt | by apply Nat.eqb_eq].
Qed.
End rotation.

(** ** Concrete runs *)
Lemma default_limits_ok : limits_ok default_limits.
Proof. by split; simpl. Qed.

Lemma run_all_reachable blake3 lims ops st :
  reachable blake3 lims st -> reachable blake3 lims (run_all blake3 ops st).
Proof.
  revert st. induction ops as [|op ops IH]; intros st Hr; simpl; [done|].
  destruct (run blake3 op st) as [[out st']|] eqn:E; [|done].
  apply IH. by eapply reachable_run.
Qed.

Lemma fresh_owner_reachable blake3 lims : reachable blake3 lims (fresh_owner lims).
Proof. by apply (reachable_new blake3 lims 1 _ 2). Qed.

Lemma demo_reachable : reachable id default_limits demo_owner.
Proof. apply run_all_reachable, fresh_owner_reachable. Qed.

(** ** A fresh admission *)
Definition queued_entry (blake3 : string -> string) (key : WorkKey) (m : string) (n : Z) : Entry :=
  {| e_key := key; e_metadata := Some m; e_metadata_hash := blake3 m;
     e_metadata_bytes := Z.of_nat (String.length m); e_waiters := {[n]}; e_phase := Queued |}.

Lemma admit_admitted blake3 key m now st w st1 :
  wf st -> admit_work blake3 key m now st = Some (WorkAdmitted w, st1) ->
  entries st1 !! ww_work w = Some (queued_entry blake3 key m (ww_serial w)) /\
  ww_serial w = serial st1 /\ key_mode key <> LocalOnly /\
  Z.of_nat (String.length m) <= lim_metadata_bytes (limits st) /\
  is_Some (scopes st1 !! key_scope key).
Proof.
  intros Hwf Ha. unfold admit_work in Ha.
  destruct (expire_ok now st Hwf) as (st2 & Hexp & Hwf2 & [_ _ Hl2 _ _] & _).
  rewrite Hexp in Ha. cbn [mbind option_bind] in Ha.
  destruct (admit_denied key m now st2) eqn:Hden; [done|].
  apply admit_denied_none in Hden as (_ & _ & Hmode & Hlen). rewrite Hl2 in Hlen.
  destruct (keys st2 !! key) as [id|].
  - exfalso. unfold admit_join in Ha. inv_bind. repeat case_decide; repeat case_match; inv_bind.
  - unfold admit_new in Ha. case_match; [done|]. case_match; [done|]. inv_bind.
    case_match; [done|]. destruct (next_serial st2) as [[n|] st3] eqn:Hn; [|done].
    apply (next_serial_ok _ _ _ Hwf2) in Hn as (-> & -> & _). inv_bind.
    rewrite lookup_insert_eq, lookup_insert_eq. split_and!; eauto.
Qed.

(** ** The properties *)

(** C1: in every state that public calls can reach from a fresh owner, every
    further public call returns: no [expect] fails, no index is out of range,
    no counter underflows and the [expire] loop terminates. *)
Theorem run_never_panics blake3 lims st op :
  limits_ok lims -> reachable blake3 lims st ->
  exists out st', run blake3 op st = Some (out, st').
Proof.
  intros Hl Hr. destruct (reachable_wf blake3 lims st Hl Hr) as [Hwf _].
  destruct (run_ok blake3 op st Hwf) as (out & st' & ? & _). eauto.
Qed.

Lemma run_never_panics_witness :
  exists out st', run id (OpRevoke demo_scope) demo_owner = Some (out, st').
Proof.
  apply (run_never_panics id default_limits demo_owner (OpRevoke demo_scope)).
  - exact default_limits_ok.
  - exact demo_reachable.
Defined.

(** C40: the diagnostic snapshot of every reachable state stays within the
    configured limits: scopes, requests, running work (work that is still
    stopping included), metadata bytes and waiters. *)
Theorem reachable_bounded blake3 lims st :
  limits_ok lims -> reachable blake3 lims st ->
  u_scopes (usage st) <= lim_scopes lims /\
  u_requests (usage st) <= lim_requests lims /\
  u_stopping (usage st) <= u_running (usage st) <= lim_running lims /\
  u_metadata_bytes (usage st) <= lim_metadata_bytes lims /\
  u_waiters (usage st) <= lim_waiters_per_request lims * u_requests (usage st).
Proof.
  intros Hl Hr. destruct (reachable_wf blake3 lims st Hl Hr) as [Hwf <-]. simpl.
  split_and!; try apply Hwf.
  - rewrite (wf_running st Hwf). apply map_sum_mono. intros id e _. unfold occupies.
    repeat case_decide; try lia. congruence.
  - apply map_sum_le_size. intros id e He. by apply (wf_entry st Hwf) in He as [].
Qed.

Lemma reachable_bounded_witness :
  u_requests (usage demo_owner) = 3 /\ u_running (usage demo_owner) = 1 /\
  u_requests (usage demo_owner) <= 256.
Proof.
  split; [vm_compute; reflexivity|]. split; [vm_compute; reflexivity|].
  apply (reachable_bounded id default_limits demo_owner).
  - exact default_limits_ok.
  - exact demo_reachable.
Defined.

(** C37: once a registered scope is revoked, it is gone for good: whatever
    calls follow, no work of that scope completes with [Publish] and no new
    work of that scope is admitted. *)
Theorem revoked_scope_is_final blake3 lims st s st1 st2 :
  limits_ok lims -> reachable blake3 lims st -> is_Some (scopes st !! s) ->
  revoke_scope s st = Some st1 -> rtc (step blake3) st1 st2 ->
  (forall id e now st3, entries st2 !! id = Some e -> key_scope (e_key e) = s ->
     complete id now st2 <> Some (Publish, st3)) /\
  (forall key m now a st3, key_scope key = s ->
     admit_work blake3 key m now st2 = Some (a, st3) -> a = Denied DeniedInactiveScope).
Proof.
  intros Hl Hr [work Hs] Hrev Hsteps. destruct (reachable_wf blake3 lims st Hl Hr) as [Hwf _].
  destruct (revoke_scope_ok s st Hwf) as (st1' & Hrev' & Hwf1 & _ & Hser & _ & Hsc & _).
  rewrite Hrev in Hrev'. injection Hrev' as <-.
  destruct (steps_wf_mono blake3 st1 st2 Hwf1 Hsteps) as [Hwf2 [_ Hmono]].
  assert (Hgone : ~ is_Some (scopes st2 !! s)).
  { intros [Hsome|Hgen]%Hmono; [by apply Hsc in Hsome as [_ []]|].
    destruct (wf_scope st Hwf s work Hs). lia. }
  split.
  - intros id e now st3 He <- Hc. unfold complete in Hc. rewrite He in Hc.
    case_decide; [done|]. inv_bind.
    rewrite (bool_decide_eq_false_2 (is_Some _)), andb_false_r in H0 by done. done.
  - intros key m now a st3 <- Ha. unfold admit_work in Ha.
    destruct (expire_ok now st2 Hwf2) as (st4 & Hexp & _ & [] & _). rewrite Hexp in Ha.
    cbn [mbind option_bind] in Ha. unfold admit_denied in Ha.
    rewrite decide_True in Ha by (by apply eq_None_not_Some; rewrite fr_scopes).
    by injection Ha as <- <-.
Qed.

Lemma revoked_scope_is_final_witness :
  exists st1, revoke_scope demo_scope demo_owner = Some st1 /\
  contains {| wid_owner := 1; wid_serial := 2 |} st1 = true /\
  forall now st3, complete {| wid_owner := 1; wid_serial := 2 |} now st1 <> Some (Publish, st3).
Proof.
  assert (Hok : bool_decide (is_Some (revoke_scope demo_scope demo_owner)) = true) by by_vm.
  destruct (revoke_scope demo_scope demo_owner) as [st1|] eqn:Hrev; [|discriminate Hok].
  exists st1. split; [reflexivity|].
  assert (Hst : st1 = run_all id [OpRevoke demo_scope] demo_owner)
    by (unfold run_all, run; rewrite Hrev; reflexivity).
  split; [rewrite Hst; by_vm|]. intros now st3.
  destruct (entries st1 !! {| wid_owner := 1; wid_serial := 2 |}) as [e|] eqn:He.
  - eapply (proj1 (revoked_scope_is_final id default_limits demo_owner demo_scope st1 st1
      default_limits_ok demo_reachable ltac:(vm_compute; eauto) Hrev (rtc_refl _ _)) _ e); [exact He|].
    assert (Hk : key_scope <$> (e_key <$> Some e) = Some demo_scope)
      by (rewrite <- He, Hst; by_vm).
    by injection Hk.
  - unfold complete. rewrite He. discriminate.
Defined.

(** [expire] enforces deadlines exactly: queued work past its deadline is
    forgotten, running work past it is told to stop but keeps its slot, every
    other request is untouched, and the next deadline lies in the future. *)
Theorem expire_enforces_deadlines blake3 lims st now :
  limits_ok lims -> reachable blake3 lims st ->
  exists st', expire now st = Some st' /\
  (forall id, entries st' !! id = entries st !! id ≫= fun e =>
     if key_deadline (e_key e) <=? now then
       match e_phase e with
       | Queued => None
       | Running => Some (entry_with_phase Stopping e)
       | Stopping => Some e
       end
     else Some e) /\
  (forall d, next_deadline st' = Some d -> now < d).
Proof.
  intros Hl Hr. destruct (reachable_wf blake3 lims st Hl Hr) as [Hwf _].
  destruct (expire_ok now st Hwf) as (st' & He & _ & _ & Hent & Hd).
  exists st'. split_and!; [done | exact Hent |].
  intros d Hn. unfold next_deadline in Hn.
  destruct (set_first (deadlines st')) as [[d' id]|] eqn:Hf; simplify_eq/=.
  apply set_first_some in Hf as [Hin _]. eauto.
Qed.

Lemma expire_enforces_deadlines_witness :
  exists st', expire 2500 demo_owner = Some st' /\ next_deadline st' = Some 3000 /\ 2500 < 3000.
Proof.
  destruct (expire_enforces_deadlines id default_limits demo_owner 2500
    default_limits_ok demo_reachable) as (st' & He & _ & Hd).
  exists st'. split; [exact He|].
  assert (Hn : next_deadline <$> expire 2500 demo_owner = Some (Some 3000)) by (vm_compute; reflexivity).
  rewrite He in Hn. injection Hn as Hn. split; [exact Hn|]. exact (Hd _ Hn).
Defined.

(** the weighted rotation is work-conserving and starves no lane: when a
    running slot is free and [lane] has queued work, [start_next] starts a
    request, and either it is one of [lane] or the rotation came strictly
    closer to the next slot of [lane], which is fewer than seven slots away. *)
Theorem start_next_fair blake3 lims st now st1 lane :
  limits_ok lims -> reachable blake3 lims st -> expire now st = Some st1 ->
  running st1 < lim_running lims -> (lane < 3)%nat -> lane_queue st1 lane <> ∅ ->
  exists sw st', start_next now st = Some (Some sw, st') /\
    (distance lane (cursor st) < 7)%nat /\
    (lane_index (key_lane (sw_key sw)) = lane \/
     (distance lane (cursor st') < distance lane (cursor st))%nat).
Proof.
  intros Hl Hr Hexp Hrun Hlane Hq. destruct (reachable_wf blake3 lims st Hl Hr) as [Hwf <-].
  destruct (expire_ok now st Hwf) as (st1' & Hexp' & Hwf1 & [_ _ Hlim Hcur _] & _).
  rewrite Hexp in Hexp'. injection Hexp' as <-. rewrite <- Hlim in Hrun.
  destruct (start_loop_ok (length LANES) st1 Hwf1 Hrun) as (w & st' & Hs & Hwf' & _).
  assert (Hsn : start_next now st = Some (w, st')).
  { unfold start_next. rewrite Hexp. cbn [mbind option_bind].
    destruct (Z.leb_spec (lim_running (limits st1)) (running st1)); [lia | exact Hs]. }
  pose proof (start_loop_spec _ _ _ _ Hwf1 Hs) as Hspec.
  pose proof (wf_cursor st1 Hwf1) as Hc. change (length LANES) with 7%nat in Hspec.
  destruct (distance_slot lane (cursor st1) Hlane Hc) as [Hd7 Hdl].
  rewrite <- Hcur. destruct w as [sw|].
  - destruct Hspec as (i & Hi & Hall & _ & Hli & Hcu). exists sw, st'. split_and!; [done..|].
    destruct (decide (lane_at (cursor st1 + i) = lane)) as [He|Hne]; [left; congruence|right].
    rewrite Hcu. apply distance_decreases; try done.
    destruct (decide (i <= distance lane (cursor st1))%nat); [done|].
    exfalso. apply Hq. rewrite <- Hdl. apply Hall. lia.
  - exfalso. apply Hq. rewrite <- Hdl. by apply Hspec.
Qed.

Lemma start_next_fair_witness :
  exists sw st', start_next 30 demo_owner = Some (Some sw, st') /\
    (lane_index (key_lane (sw_key sw)) = 2%nat \/
     (distance 2 (cursor st') < distance 2 (cursor demo_owner))%nat).
Proof.
  assert (Hok : bool_decide (is_Some (expire 30 demo_owner)) = true) by by_vm.
  destruct (expire 30 demo_owner) as [st1|] eqn:Hexp; [|discriminate Hok].
  assert (Hst : st1 = run_all id [OpExpire 30] demo_owner)
    by (unfold run_all, run; rewrite Hexp; reflexivity).
  destruct (start_next_fair id default_limits demo_owner 30 st1 2%nat) as (sw & st' & H1 & _ & H3).
  - exact default_limits_ok.
  - exact demo_reachable.
  - exact Hexp.
  - rewrite Hst. unfold Z.lt. by_vm.
  - lia.
  - rewrite Hst. intros Hq. assert (Hs : size (lane_queue (run_all id [OpExpire 30] demo_owner) 2) = 1%nat)
      by by_vm. rewrite Hq, size_empty in Hs. discriminate.
  - exists sw, st'. split; [exact H1 | exact H3].
Defined.

(** equal requests coalesce.  After [admit_work] admits a request, asking again
    with the same key and metadata before the deadline joins the same work
    with a new waiter, and no two live requests ever have the same key. *)
Theorem admit_coalesces blake3 lims st key m now w st1 now' :
  limits_ok lims -> reachable blake3 lims st ->
  admit_work blake3 key m now st = Some (WorkAdmitted w, st1) -> now' < key_deadline key ->
  1 < lim_waiters_per_request lims -> serial st1 < u64_max ->
  (exists w' st2, admit_work blake3 key m now' st1 = Some (Joined w', st2) /\
     ww_work w' = ww_work w /\ ww_serial w' <> ww_serial w) /\
  (forall id1 id2 e1 e2, entries st1 !! id1 = Some e1 -> entries st1 !! id2 = Some e2 ->
     e_key e1 = e_key e2 -> id1 = id2).
Proof.
  intros Hl Hr Ha Hnow Hwt Hser.
  assert (Hr1 : reachable blake3 lims st1).
  { eapply reachable_run; [exact Hr|]. instantiate (2 := OpAdmit key m now). simpl. rewrite Ha. done. }
  destruct (reachable_wf blake3 lims st Hl Hr) as [Hwf Hlims].
  destruct (reachable_wf blake3 lims st1 Hl Hr1) as [Hwf1 Hlim1].
  split; [|intros; by eapply (wf_key_unique st1 Hwf1)].
  destruct (admit_admitted blake3 key m now st w st1 Hwf Ha) as (Hid & Hse & Hmode & Hlen & [sc Hsc]).
  destruct (expire_ok now' st1 Hwf1) as (st2 & Hexp & Hwf2 & [_ Hs2 Hl2 _ Hsc2] & Hent & _).
  set (e := queued_entry blake3 key m (ww_serial w)) in *.
  assert (He2 : entries st2 !! ww_work w = Some e).
  { rewrite Hent, Hid. simpl. unfold expired_entry. simpl.
    destruct (Z.leb_spec (key_deadline key) now'); [lia | done]. }
  assert (Hk2 : keys st2 !! key = Some (ww_work w)) by (apply (wf_keys st2 Hwf2); exists e; done).
  unfold admit_work. rewrite Hexp. cbn [mbind option_bind]. unfold admit_denied.
  rewrite decide_False by (apply not_eq_None_Some, Hsc2; eauto).
  destruct (Z.leb_spec (key_deadline key) now'); [lia|]. rewrite decide_False by done.
  rewrite Hl2, Hlim1. rewrite <- Hlims.
  destruct (Z.ltb_spec (lim_metadata_bytes (limits st)) (Z.of_nat (String.length m))); [lia|].
  rewrite Hk2. unfold admit_join. rewrite He2. cbn [mbind option_bind]. rewrite decide_True by done.
  rewrite decide_False by done. rewrite Hl2, Hlim1.
  assert (Hone : size (e_waiters e) = 1%nat) by exact (size_singleton (C := gset Z) (ww_serial w)).
  destruct (Z.leb_spec (lim_waiters_per_request lims) (Z.of_nat (size (e_waiters e)))); [lia|].
  unfold next_serial, u64_checked_add. rewrite Hs2.
  destruct (Z.leb_spec (serial st1 + 1) u64_max); [|lia]. simpl. rewrite He2. simpl.
  do 2 eexists. split_and!; [reflexivity | done | simpl; lia].
Qed.

Lemma admit_coalesces_witness :
  exists w st1 w' st2,
    admit_work id (demo_key "d" 5000 LaneSend) "meta-d" 40 demo_owner = Some (WorkAdmitted w, st1) /\
    admit_work id (demo_key "d" 5000 LaneSend) "meta-d" 50 st1 = Some (Joined w', st2) /\
    ww_work w' = ww_work w.
Proof.
  set (w := {| ww_scope := demo_scope; ww_work := {| wid_owner := 1; wid_serial := 5 |}; ww_serial := 5 |}).
  assert (Hw : match admit_work id (demo_key "d" 5000 LaneSend) "meta-d" 40 demo_owner with
    | Some (WorkAdmitted w', st1) => bool_decide (ww_scope w' = ww_scope w /\ ww_work w' = ww_work w /\ ww_serial w' = 5)
        && (serial st1 <? u64_max)
    | _ => false end = true) by by_vm.
  destruct (admit_work id (demo_key "d" 5000 LaneSend) "meta-d" 40 demo_owner) as [[[w0| | |] st1]|] eqn:Ha;
    try discriminate Hw.
  apply andb_prop in Hw as [(E1 & E2 & E3)%bool_decide_eq_true Hser].
  assert (w0 = w) as -> by (destruct w0; unfold w in *; simpl in *; congruence).
  destruct (admit_coalesces id default_limits demo_owner (demo_key "d" 5000 LaneSend) "meta-d" 40 w st1 50)
    as [(w' & st2 & H1 & H2 & _) _].
  - exact default_limits_ok.
  - exact demo_reachable.
  - exact Ha.
  - reflexivity.
  - reflexivity.
  - by apply Z.ltb_lt.
  - exists w, st1, w', st2. split; [reflexivity|]. split; [exact H1 | exact H2].
Defined.

(** a cancellation command is only ever issued for work that was told to
    stop, it is issued once, and whenever the executor acknowledges that work
    its result is discarded. *)
Theorem cancellation_discards blake3 lims st id st' :
  limits_ok lims -> reachable blake3 lims st -> next_cancellation st = (Some id, st') ->
  (exists e, entries st' !! id = Some e /\ e_phase e = Stopping) /\
  (id ∉ cancellations st') /\
  (forall now, exists st2, complete id now st' = Some (Discard, st2)).
Proof.
  intros Hl Hr Hn. destruct (reachable_wf blake3 lims st Hl Hr) as [Hwf _].
  destruct (next_cancellation_ok st Hwf) as [Hwf' _]. rewrite Hn in Hwf'. simpl in Hwf'.
  unfold next_cancellation in Hn. destruct (set_first (cancellations st)) as [i|] eqn:Hf; [|done].
  injection Hn as <- <-. apply set_first_some in Hf as [Hin _].
  destruct (wf_cancellations st Hwf i Hin) as (e & He & Hp).
  split_and!; [by exists e | simpl; set_solver |]. intros now. unfold complete. simpl entries.
  rewrite He. rewrite decide_False by congruence.
  destruct (remove_eq _ Hwf' i e He) as (q & _ & ->). cbn [mbind option_bind].
  rewrite (bool_decide_eq_false_2 (e_phase e = Running)) by congruence. simpl. eauto.
Qed.

Lemma cancellation_discards_witness :
  exists st', next_cancellation (run_all id [OpExpire 1500] demo_owner)
    = (Some {| wid_owner := 1; wid_serial := 2 |}, st') /\
  forall now, exists st2, complete {| wid_owner := 1; wid_serial := 2 |} now st' = Some (Discard, st2).
Proof.
  destruct (next_cancellation (run_all id [OpExpire 1500] demo_owner)) as [c st'] eqn:Hn.
  assert (Hc : c = Some {| wid_owner := 1; wid_serial := 2 |}).
  { change c with (c, st').1. rewrite <- Hn. vm_compute. reflexivity. }
  subst c. exists st'. split; [reflexivity|].
  refine (proj2 (proj2 (cancellation_discards id default_limits _ _ st' default_limits_ok _ Hn))).
  exact (run_all_reachable id default_limits [OpExpire 1500] demo_owner demo_reachable).
Defined.
