(* ===== verification/ScopeLeases.v ===== *)
(** * Leases of subscribed scopes (crates/app-api/src/service/scope_leases.rs)

    Subscription tasks exist only for scope keys that some holder leases, and at
    most [MAX_ACTIVE_SCOPES] keys are leased at a time.  [set_holder] replaces the
    keys of one holder and reports which keys start and which tasks stop; the
    service methods around it start, stop and restart the tasks.  The effects of
    those methods on the rest of the service are an explicit log. *)
From S2P Require Import Prelude.

Definition MAX_ACTIVE_SCOPES : Z := 64.

(** ** Data *)
Inductive ScopeKey :=
| KTopic (topic : string)
| KChannel (topic channel : string)
| KPublicChannel (topic channel : string)
| KAuthor (author : string)
| KAccountSync (hint_topic : string).

Definition scope_key_topic (k : ScopeKey) : option string :=
  match k with
  | KTopic t | KChannel t _ | KPublicChannel t _ => Some t
  | KAuthor _ | KAccountSync _ => None
  end.

#[export] Instance ScopeKey_eq_dec : EqDecision ScopeKey.
Proof. solve_decision. Defined.

(** Variant number and fields, in the order [derive(Ord)] compares them. *)
Definition scope_key_code (k : ScopeKey) : Z * (string * string) :=
  match k with
  | KTopic t => (0, (t, ""))
  | KChannel t c => (1, (t, c))
  | KPublicChannel t c => (2, (t, c))
  | KAuthor a => (3, (a, ""))
  | KAccountSync h => (4, (h, ""))
  end.

#[export] Instance scope_key_code_inj : Inj (=) (=) scope_key_code.
Proof. intros [] []; simpl; intros; simplify_eq; done. Qed.

#[export] Instance ScopeKey_countable : Countable ScopeKey := inj_countable scope_key_code
  (fun p => match p with
    | (0, (t, _)) => Some (KTopic t)
    | (1, (t, c)) => Some (KChannel t c)
    | (2, (t, c)) => Some (KPublicChannel t c)
    | (3, (a, _)) => Some (KAuthor a)
    | (_, (h, _)) => Some (KAccountSync h)
    end) ltac:(by intros []).

#[export] Instance ScopeKey_rust_ord : RustOrd ScopeKey := fun x y =>
  rust_cmp (scope_key_code x) (scope_key_code y).

(** A running task; [task_handle] identifies the spawned future. *)
Record ScopeTask := { task_handle : Z; hint_topic : option string }.

Record Lease := { lease_holders : Z; lease_task : option ScopeTask }.

Record ScopeLeases := {
  leases : gmap ScopeKey Lease;
  holders : gmap string (gset ScopeKey)
}.

Definition empty_leases : ScopeLeases := {| leases := ∅; holders := ∅ |}.

Record LeaseChange := {
  started : list ScopeKey;
  stopped : list ScopeTask;
  released : list ScopeKey
}.

Inductive ScopeLimitReached := ScopeLimit.

(** ** [ScopeLeases::set_holder] *)

(** The first loop: take every key the holder gains. *)
Fixpoint take_keys (ks : list ScopeKey) (ls : gmap ScopeKey Lease) (ch : LeaseChange)
    : gmap ScopeKey Lease * LeaseChange :=
  match ks with
  | [] => (ls, ch)
  | k :: ks =>
      match ls !! k with
      | Some l =>
          take_keys ks (<[k := {| lease_holders := lease_holders l + 1; lease_task := lease_task l |}]> ls) ch
      | None =>
          take_keys ks (<[k := {| lease_holders := 1; lease_task := None |}]> ls)
            {| started := started ch ++ [k]; stopped := stopped ch; released := released ch |}
      end
  end.

(** The second loop: give back every key the holder loses. *)
Fixpoint drop_keys (ks : list ScopeKey) (ls : gmap ScopeKey Lease) (ch : LeaseChange)
    : option (gmap ScopeKey Lease * LeaseChange) :=
  match ks with
  | [] => Some (ls, ch)
  | k :: ks =>
      match ls !! k with
      | None => drop_keys ks ls ch
      | Some l =>
          n ← usize_sub (lease_holders l) 1;
          if n =? 0 then
            drop_keys ks (delete k ls)
              {| started := started ch;
                 stopped := stopped ch ++ option_list (lease_task l);
                 released := released ch ++ [k] |}
          else drop_keys ks (<[k := {| lease_holders := n; lease_task := lease_task l |}]> ls) ch
      end
  end.

Definition count_created (keys : gset ScopeKey) (ls : gmap ScopeKey Lease) : Z :=
  Z.of_nat (length (filter (fun k => ls !! k = None) (elements keys))).

Definition count_freed (lost : gset ScopeKey) (ls : gmap ScopeKey Lease) : Z :=
  Z.of_nat (length (filter (fun k => lease_holders <$> ls !! k = Some 1) (elements lost))).

(** [None] is a panic (an unsigned underflow). *)
Definition set_holder (holder : string) (keys : gset ScopeKey) (st : ScopeLeases)
    : option (result ScopeLimitReached LeaseChange * ScopeLeases) :=
  let old := default ∅ (holders st !! holder) in
  let others := delete holder (holders st) in
  let created := count_created keys (leases st) in
  let freed := count_freed (old ∖ keys) (leases st) in
  over ← (if 0 <? created then
            total ← usize_sub (Z.of_nat (size (leases st)) + created) freed;
            Some (MAX_ACTIVE_SCOPES <? total)
          else Some false);
  if over : bool then
    Some (Err ScopeLimit,
          {| leases := leases st;
             holders := if decide (old = ∅) then others else <[holder := old]> others |})
  else
    let '(ls, ch) := take_keys (set_iter (keys ∖ old)) (leases st)
                       {| started := []; stopped := []; released := [] |} in
    '(ls, ch) ← drop_keys (set_iter (old ∖ keys)) ls ch;
    Some (Ok ch,
          {| leases := ls;
             holders := if decide (keys = ∅) then others else <[holder := keys]> others |}).

Definition holds (holder : string) (key : ScopeKey) (st : ScopeLeases) : bool :=
  match holders st !! holder with Some ks => bool_decide (key ∈ ks) | None => false end.

Definition lease_keys (st : ScopeLeases) : gset ScopeKey := dom (leases st).

(** [ScopeLeases::slot]: replacing the task of a lease, when there is one. *)
Definition set_slot (key : ScopeKey) (task : option ScopeTask) (st : ScopeLeases) : ScopeLeases :=
  {| leases := alter (fun l => {| lease_holders := lease_holders l; lease_task := task |}) key (leases st);
     holders := holders st |}.

Definition clear (st : ScopeLeases) : list ScopeTask * ScopeLeases :=
  (omap (fun p => lease_task p.2) (map_to_list (leases st)), empty_leases).

(** ** The service around the leases *)

(** What a service call does outside the lease table, in order. *)
Inductive Effect :=
| StopTask (t : ScopeTask)
| AbortTask (t : ScopeTask)
| EvictPrivateChannels (ks : list ScopeKey)
| StartTask (k : ScopeKey) (t : option ScopeTask).

(** What starting a task asks of the rest of the service. *)
Record Spawner := {
  topic_gossip_disabled : string -> bool;
  channel_gossip_disabled : string -> string -> bool;
  load_leased_private_channel : string -> string -> option string;
  spawn_subscription_task : string -> option string -> string -> option ScopeTask;
  spawn_author_subscription : string -> option ScopeTask;
  spawn_account_sync_subscription : string -> option ScopeTask
}.

Definition PRIVATE_CHANNEL_TOPIC_PREFIX : string := "private/".
Definition PUBLIC_CHANNEL_TOPIC_PREFIX : string := "public-channel/".

Definition private_channel_hint_topic (channel : string) : string :=
  String.append PRIVATE_CHANNEL_TOPIC_PREFIX channel.
Definition public_channel_hint_topic (channel : string) : string :=
  String.append PUBLIC_CHANNEL_TOPIC_PREFIX channel.

Definition start_scope_task (sp : Spawner) (key : ScopeKey) : option ScopeTask :=
  match key with
  | KTopic topic =>
      if topic_gossip_disabled sp topic then None
      else spawn_subscription_task sp topic None topic
  | KChannel topic channel =>
      state ← load_leased_private_channel sp topic channel;
      if channel_gossip_disabled sp topic channel then None
      else spawn_subscription_task sp topic (Some state) (private_channel_hint_topic channel)
  | KPublicChannel topic channel =>
      if topic_gossip_disabled sp topic then None
      else spawn_subscription_task sp topic (Some channel) (public_channel_hint_topic channel)
  | KAuthor author => spawn_author_subscription sp author
  | KAccountSync topic => spawn_account_sync_subscription sp topic
  end.

Fixpoint start_all (sp : Spawner) (ks : list ScopeKey) (st : ScopeLeases) : ScopeLeases :=
  match ks with
  | [] => st
  | k :: ks => start_all sp ks (set_slot k (start_scope_task sp k) st)
  end.

(** [AppService::set_scope_holder]. *)
Definition set_scope_holder (sp : Spawner) (holder : string) (keys : gset ScopeKey) (st : ScopeLeases)
    : option (result ScopeLimitReached (list Effect) * ScopeLeases) :=
  '(r, st) ← set_holder holder keys st;
  match r with
  | Err e => Some (Err e, st)
  | Ok ch =>
      Some (Ok (map StopTask (stopped ch) ++ [EvictPrivateChannels (released ch)]
                ++ map (fun k => StartTask k (start_scope_task sp k)) (started ch)),
            start_all sp (started ch) st)
  end.

(** [release_scope_holder]: the error is ignored, the change defaults to none. *)
Definition release_scope_holder (holder : string) (st : ScopeLeases)
    : option (list Effect * ScopeLeases) :=
  '(r, st) ← set_holder holder ∅ st;
  let ch := match r with Ok ch => ch | Err _ => {| started := []; stopped := []; released := [] |} end in
  Some (map StopTask (stopped ch) ++ [EvictPrivateChannels (released ch)], st).

(** [restart_leased_task]: the hint topic is only left when it changes. *)
Definition restart_leased_task (sp : Spawner) (key : ScopeKey) (st : ScopeLeases)
    : list Effect * ScopeLeases :=
  match leases st !! key with
  | None => ([], st)
  | Some l =>
      let new := start_scope_task sp key in
      let effects := match lease_task l with
        | None => []
        | Some old =>
            match new with
            | Some new => if decide (hint_topic new = hint_topic old) then [AbortTask old] else [StopTask old]
            | None => [StopTask old]
            end
        end in
      (StartTask key new :: effects, set_slot key new st)
  end.

Fixpoint restart_all (sp : Spawner) (ks : list ScopeKey) (st : ScopeLeases) : list Effect * ScopeLeases :=
  match ks with
  | [] => ([], st)
  | k :: ks =>
      let '(eff, st) := restart_leased_task sp k st in
      let '(eff', st) := restart_all sp ks st in
      (eff ++ eff', st)
  end.

Definition restart_scope_subscriptions (sp : Spawner) (matches : ScopeKey -> bool) (st : ScopeLeases)
    : list Effect * ScopeLeases :=
  restart_all sp (filter (fun k => matches k = true) (elements (lease_keys st))) st.

Definition restart_topic_scope_subscriptions (sp : Spawner) (topic : string) (st : ScopeLeases)
    : list Effect * ScopeLeases :=
  restart_scope_subscriptions sp (fun k => bool_decide (scope_key_topic k = Some topic)) st.

Definition restart_scope_subscription (sp : Spawner) (key : ScopeKey) (st : ScopeLeases)
    : list Effect * ScopeLeases :=
  restart_scope_subscriptions sp (fun k => bool_decide (k = key)) st.

(** The lease part of [AppService::shutdown]. *)
Definition shutdown_leases (st : ScopeLeases) : list Effect * ScopeLeases :=
  let '(tasks, st) := clear st in (map StopTask tasks, st).

Definition leased_topics (st : ScopeLeases) : list string :=
  omap (fun k => match k with KTopic t => Some t | _ => None end) (elements (lease_keys st)).

(** ** Holders *)
Inductive TimelineScope :=
| SPublic
| SChannel (channel_id : string)
| SPublicChannel (channel_id : string).

Definition display_holder (observer : string) : string := String.append "display:" observer.
Definition desired_holder (topic : string) (scope : TimelineScope) : string :=
  match scope with
  | SPublic => String.append "desired:" topic
  | SChannel c | SPublicChannel c =>
      String.append "desired:" (String.append topic (String.append "::" c))
  end.
Definition retain_holder (topic : string) : string := String.append "retain:" topic.
Definition private_channel_holder (topic channel : string) : string :=
  String.append "private:" (String.append topic (String.append "::" channel)).
Definition live_holder (task_key : string) : string := String.append "live:" task_key.
Definition dome_holder (instance_id : string) : string := String.append "dome:" instance_id.

Definition participation_keys (topic : string) (channel : option string) : list ScopeKey :=
  KTopic topic :: match channel with Some c => [KChannel topic c] | None => [] end.

(** [AppService::timeline_scope_keys]: [private_access] is
    [ensure_private_channel_access], [is_public_channel] the id check. *)
Definition timeline_scope_keys (private_access : string -> string -> bool) (is_public_channel : string -> bool)
    (topic : string) (scope : TimelineScope) : result string (list ScopeKey) :=
  match scope with
  | SPublic => Ok (participation_keys topic None)
  | SChannel c =>
      if private_access topic c then Ok (participation_keys topic (Some c))
      else Err "private channel access"
  | SPublicChannel c =>
      if is_public_channel c then Ok [KTopic topic; KPublicChannel topic c]
      else Err "public channel id is invalid"
  end.

Definition holders_with (holder_prefixes : list string) (matches : ScopeKey -> bool) (st : ScopeLeases)
    : list string :=
  map fst (filter (fun p => existsb (fun q => String.prefix q p.1) holder_prefixes
                            && existsb matches (elements p.2) = true) (map_to_list (holders st))).

Fixpoint release_each (hs : list string) (st : ScopeLeases) : option (list Effect * ScopeLeases) :=
  match hs with
  | [] => Some ([], st)
  | h :: hs =>
      '(eff, st) ← release_scope_holder h st;
      '(eff', st) ← release_each hs st;
      Some (eff ++ eff', st)
  end.

(** The lease part of [AppService::unsubscribe_topic]. *)
Definition unsubscribe_topic (topic : string) (st : ScopeLeases) : option (list Effect * ScopeLeases) :=
  release_each (holders_with ["desired:"] (fun k => bool_decide (scope_key_topic k = Some topic)) st) st.

(** [AppService::set_desired_scope]. *)
Definition set_desired_scope (sp : Spawner) (private_access : string -> string -> bool)
    (is_public_channel : string -> bool) (topic : string) (scope : TimelineScope) (desired : bool)
    (st : ScopeLeases) : option (result string (list Effect) * ScopeLeases) :=
  let holder := desired_holder topic scope in
  if desired then
    match timeline_scope_keys private_access is_public_channel topic scope with
    | Err e => Some (Err e, st)
    | Ok keys =>
        '(r, st) ← set_scope_holder sp holder (list_to_set keys) st;
        Some (match r with Ok eff => Ok eff | Err _ => Err "SCOPE_LIMIT_REACHED" end, st)
    end
  else
    '(eff, st) ← release_scope_holder holder st;
    Some (Ok eff, st).

(** [AppService::hold_joined_private_channel]: whether the lease was taken now. *)
Definition hold_joined_private_channel (sp : Spawner) (topic channel : string) (st : ScopeLeases)
    : option (result ScopeLimitReached bool * list Effect * ScopeLeases) :=
  let holder := private_channel_holder topic channel in
  let key := KChannel topic channel in
  if holds holder key st then Some (Ok false, [], st)
  else
    '(r, st) ← set_scope_holder sp holder {[ key ]} st;
    Some (match r with Ok eff => (Ok true, eff, st) | Err e => (Err e, [], st) end).

(** ** Specification *)

(** How many holders hold a key. *)
Definition refcount (hs : gmap string (gset ScopeKey)) (k : ScopeKey) : Z :=
  map_sum (fun ks => if decide (k ∈ ks) then 1 else 0) hs.

(** The keys some holder holds. *)
Definition active (hs : gmap string (gset ScopeKey)) : gset ScopeKey :=
  map_fold (fun _ ks acc => ks ∪ acc) ∅ hs.

(** The holders after [holder]'s keys are replaced. *)
Definition replace_holder (holder : string) (keys : gset ScopeKey) (hs : gmap string (gset ScopeKey))
    : gmap string (gset ScopeKey) :=
  if decide (keys = ∅) then delete holder hs else <[holder := keys]> hs.

Record leases_wf (st : ScopeLeases) : Prop := {
  lw_nonempty : forall h ks, holders st !! h = Some ks -> ks <> ∅;
  lw_count : forall k l, leases st !! k = Some l -> lease_holders l = refcount (holders st) k /\ 0 < lease_holders l;
  lw_none : forall k, leases st !! k = None -> refcount (holders st) k = 0;
  lw_cap : Z.of_nat (size (leases st)) <= MAX_ACTIVE_SCOPES
}.

(** ** Reference counts *)
Section refcounts.
Implicit Types hs : gmap string (gset ScopeKey).

Lemma refcount_nonneg hs k : 0 <= refcount hs k.
Proof. apply map_sum_nonneg. intros. case_decide; lia. Qed.

Lemma refcount_split hs h k :
  refcount hs k = refcount (delete h hs) k + (if decide (k ∈ default ∅ (hs !! h)) then 1 else 0).
Proof.
  unfold refcount. destruct (hs !! h) as [ks|] eqn:E; simpl.
  - rewrite (map_sum_delete _ _ _ _ E). lia.
  - rewrite delete_id by done. rewrite decide_False by set_solver. lia.
Qed.

Lemma replace_holder_lookup h keys hs h' :
  replace_holder h keys hs !! h' =
    if decide (h = h') then (if decide (keys = ∅) then None else Some keys) else hs !! h'.
Proof.
  unfold replace_holder. repeat case_decide; subst;
    by rewrite ?lookup_delete_eq, ?lookup_insert_eq, ?lookup_delete_ne, ?lookup_insert_ne.
Qed.

Lemma refcount_replace hs h keys k :
  refcount (replace_holder h keys hs) k
  = refcount (delete h hs) k + (if decide (k ∈ keys) then 1 else 0).
Proof.
  rewrite (refcount_split (replace_holder h keys hs) h), replace_holder_lookup.
  rewrite (decide_True (P := h = h)) by done.
  assert (delete h (replace_holder h keys hs) = delete h hs) as ->.
  { apply map_eq. intros h'. destruct (decide (h = h')) as [<-|].
    - by rewrite !lookup_delete_eq.
    - by rewrite !lookup_delete_ne, replace_holder_lookup, decide_False. }
  destruct (decide (keys = ∅)) as [->|]; simpl; [|done]. by rewrite !decide_False by set_solver.
Qed.

Lemma elem_of_active hs k : k ∈ active hs <-> exists h ks, hs !! h = Some ks /\ k ∈ ks.
Proof.
  unfold active. induction hs as [|h ks hs Hh IH] using map_ind.
  - rewrite map_fold_empty. set_solver.
  - rewrite map_fold_insert_L by (done || (intros; set_solver)). rewrite elem_of_union, IH. split.
    + intros [?|(h' & ks' & ? & ?)]; [exists h, ks | exists h', ks'].
      * by rewrite lookup_insert_eq.
      * rewrite lookup_insert_ne; [done|congruence].
    + intros (h' & ks' & [[<- <-]|[_ ?]]%lookup_insert_Some & ?); [by left | right; eauto].
Qed.

Lemma refcount_pos hs k : 0 < refcount hs k <-> k ∈ active hs.
Proof.
  rewrite elem_of_active. unfold refcount. induction hs as [|h ks hs Hh IH] using map_ind.
  - rewrite map_sum_empty. split; [lia | by intros (? & ? & ? & _)].
  - rewrite map_sum_insert by done.
    pose proof (refcount_nonneg hs k) as Hn. unfold refcount in Hn.
    setoid_rewrite lookup_insert_Some. destruct (decide (k ∈ ks)).
    + split; [|lia]. intros _. exists h, ks. auto.
    + rewrite Z.add_0_l, IH. split.
      * intros (h' & ks' & ? & ?). exists h', ks'. split; [right | done]. split; [congruence|done].
      * intros (h' & ks' & [[<- <-]|[_ ?]] & ?); [done | eauto].
Qed.
End refcounts.

(** ** The two loops of [set_holder] *)
Lemma take_keys_spec ks ls ch ls' ch' :
  NoDup ks -> take_keys ks ls ch = (ls', ch') ->
  (forall k, ls' !! k = if decide (k ∈ ks) then
     Some {| lease_holders := default 0 (lease_holders <$> ls !! k) + 1;
             lease_task := ls !! k ≫= lease_task |} else ls !! k) /\
  started ch' = started ch ++ filter (fun k => ls !! k = None) ks /\
  stopped ch' = stopped ch /\ released ch' = released ch.
Proof.
  intros Hnd. revert ls ch. induction Hnd as [|k ks Hk Hnd IH]; intros ls ch; simpl.
  - intros [= <- <-]. by split_and!; [|rewrite app_nil_r|..].
  - set (v := match ls !! k with
      | Some l => {| lease_holders := lease_holders l + 1; lease_task := lease_task l |}
      | None => {| lease_holders := 1; lease_task := None |} end).
    assert (Hgen : forall ch1, take_keys ks (<[k := v]> ls) ch1 = (ls', ch') ->
      (forall k', ls' !! k' = if decide (k' ∈ k :: ks) then
         Some {| lease_holders := default 0 (lease_holders <$> ls !! k') + 1;
                 lease_task := ls !! k' ≫= lease_task |} else ls !! k') /\
      started ch' = started ch1 ++ filter (fun k => ls !! k = None) ks /\
      stopped ch' = stopped ch1 /\ released ch' = released ch1).
    { intros ch1 (Hl & Hs & ? & ?)%IH. split_and!; [|rewrite Hs; f_equal|done..].
      - intros k'. rewrite Hl. destruct (decide (k' = k)) as [->|].
        + rewrite decide_False, decide_True by (done || set_solver). rewrite lookup_insert_eq.
          unfold v. by destruct (ls !! k).
        + rewrite lookup_insert_ne by done.
          destruct (decide (k' ∈ ks)), (decide (k' ∈ k :: ks)); try done; set_solver.
      - apply list_filter_iff_in. intros k' Hk'. rewrite lookup_insert_ne; [done|]. by intros <-. }
    unfold v in Hgen. destruct (ls !! k) as [l|] eqn:E; intros Ht%Hgen; simpl in Ht.
    + by rewrite filter_cons_False by (by rewrite E).
    + rewrite filter_cons_True by done. rewrite <- app_assoc in Ht. done.
Qed.

(** What giving back one reference leaves of a lease. *)
Definition dropped (l : Lease) : option Lease :=
  if lease_holders l =? 1 then None
  else Some {| lease_holders := lease_holders l - 1; lease_task := lease_task l |}.

Lemma drop_keys_spec ks ls ch :
  NoDup ks -> (forall k l, ls !! k = Some l -> 0 < lease_holders l) ->
  exists ls' ch', drop_keys ks ls ch = Some (ls', ch') /\
  (forall k, ls' !! k = if decide (k ∈ ks) then ls !! k ≫= dropped else ls !! k) /\
  started ch' = started ch /\
  stopped ch' = stopped ch ++
    omap (fun k => ls !! k ≫= lease_task) (filter (fun k => lease_holders <$> ls !! k = Some 1) ks) /\
  released ch' = released ch ++ filter (fun k => lease_holders <$> ls !! k = Some 1) ks.
Proof.
  intros Hnd. revert ls ch. induction Hnd as [|k ks Hk Hnd IH]; intros ls ch Hpos; simpl.
  { exists ls, ch. by split_and!; [| | |rewrite app_nil_r..]. }
  destruct (ls !! k) as [l|] eqn:E.
  2: { destruct (IH ls ch Hpos) as (ls' & ch' & ? & Hl & ? & ? & ?). exists ls', ch'.
       rewrite filter_cons_False by (by rewrite E). split_and!; try done.
       intros k'. rewrite Hl. destruct (decide (k' = k)) as [->|].
       - rewrite E. by repeat case_decide.
       - destruct (decide (k' ∈ ks)), (decide (k' ∈ k :: ks)); try done; set_solver. }
  pose proof (Hpos k l E). rewrite usize_sub_some by lia. simpl.
  (* the recursive call sees a map that differs from [ls] at [k] only *)
  assert (Hgen : forall ls1 ch1, (forall k', k' <> k -> ls1 !! k' = ls !! k') ->
      ls1 !! k = dropped l ->
      exists ls' ch', drop_keys ks ls1 ch1 = Some (ls', ch') /\
      (forall k', ls' !! k' = if decide (k' ∈ k :: ks) then ls !! k' ≫= dropped else ls !! k') /\
      started ch' = started ch1 /\
      stopped ch' = stopped ch1 ++
        omap (fun k => ls !! k ≫= lease_task) (filter (fun k => lease_holders <$> ls !! k = Some 1) ks) /\
      released ch' = released ch1 ++ filter (fun k => lease_holders <$> ls !! k = Some 1) ks).
  { intros ls1 ch1 Hne Hkk.
    assert (Hpos1 : forall k' l', ls1 !! k' = Some l' -> 0 < lease_holders l').
    { intros k' l' Hl'. destruct (decide (k' = k)) as [->|].
      - rewrite Hkk in Hl'. unfold dropped in Hl'. case_match; simplify_eq/=. lia.
      - rewrite Hne in Hl' by done. eauto. }
    destruct (IH ls1 ch1 Hpos1) as (ls' & ch' & Hd & Hl & ? & Hst & Hre).
    assert (Hf : filter (fun k => lease_holders <$> ls1 !! k = Some 1) ks
               = filter (fun k => lease_holders <$> ls !! k = Some 1) ks).
    { apply list_filter_iff_in. intros k' Hk'. rewrite Hne; [done|]. by intros ->. }
    exists ls', ch'. split_and!; try done.
    - intros k'. rewrite Hl. destruct (decide (k' = k)) as [->|].
      + rewrite decide_False, decide_True by (done || set_solver). by rewrite Hkk, E.
      + rewrite Hne by done. destruct (decide (k' ∈ ks)), (decide (k' ∈ k :: ks)); try done; set_solver.
    - rewrite Hst, Hf. f_equal. apply omap_ext_in. intros k' Hk'. rewrite Hne; [done|].
      intros ->. apply list_elem_of_filter in Hk' as [_ ?]. done.
    - by rewrite Hre, Hf. }
  destruct (Z.eqb_spec (lease_holders l - 1) 0) as [H0|H0].
  - destruct (Hgen (delete k ls) {| started := started ch; stopped := stopped ch ++ option_list (lease_task l);
        released := released ch ++ [k] |}) as (ls' & ch' & ? & ? & ? & Hst & Hre).
    + intros k' ?. by rewrite lookup_delete_ne.
    + unfold dropped. rewrite lookup_delete_eq. destruct (Z.eqb_spec (lease_holders l) 1); [done|lia].
    + exists ls', ch'. rewrite filter_cons_True by (rewrite E; simpl; f_equal; lia).
      split_and!; try done; simpl in *.
      * rewrite Hst, E, <- app_assoc. simpl. by destruct (lease_task l).
      * by rewrite Hre, <- app_assoc.
  - destruct (Hgen (<[k := {| lease_holders := lease_holders l - 1; lease_task := lease_task l |}]> ls) ch)
      as (ls' & ch' & ? & ? & ? & ? & ?).
    + intros k' ?. by rewrite lookup_insert_ne.
    + unfold dropped. rewrite lookup_insert_eq. destruct (Z.eqb_spec (lease_holders l) 1); [lia|done].
    + exists ls', ch'. rewrite filter_cons_False by (rewrite E; simpl; intros [=]; lia). done.
Qed.

(** ** [set_holder] *)
Section set_holder_facts.
Context (st : ScopeLeases) (Hwf : leases_wf st) (h : string) (keys : gset ScopeKey).

Definition old_keys : gset ScopeKey := default ∅ (holders st !! h).

(** The keys that nobody holds any more once [h] lets them go. *)
Definition freed_keys : gset ScopeKey :=
  filter (fun k => lease_holders <$> leases st !! k = Some 1) (old_keys ∖ keys).

Lemma lease_count k :
  refcount (holders st) k = default 0 (lease_holders <$> leases st !! k).
Proof using Hwf.
  destruct (leases st !! k) as [l|] eqn:E; simpl.
  - by destruct (lw_count st Hwf k l E).
  - by apply lw_none.
Qed.

Lemma lease_live k : is_Some (leases st !! k) <-> 0 < refcount (holders st) k.
Proof using Hwf.
  rewrite lease_count. split.
  - intros [l Hl]. rewrite Hl. simpl. by destruct (lw_count st Hwf k l Hl).
  - destruct (leases st !! k); simpl; [eauto | lia].
Qed.

Lemma lease_keys_active : lease_keys st = active (holders st).
Proof using Hwf.
  apply leibniz_equiv. intros k. unfold lease_keys.
  by rewrite elem_of_dom, lease_live, refcount_pos.
Qed.

Lemma active_replace :
  active (replace_holder h keys (holders st)) = (lease_keys st ∪ keys) ∖ freed_keys.
Proof using Hwf.
  apply leibniz_equiv. intros k.
  rewrite <- refcount_pos, refcount_replace, elem_of_difference, elem_of_union.
  unfold lease_keys, freed_keys. rewrite elem_of_dom, lease_live, elem_of_filter, elem_of_difference.
  pose proof (refcount_split (holders st) h k) as Hr. fold old_keys in Hr.
  pose proof (refcount_nonneg (delete h (holders st)) k).
  pose proof (lease_count k) as Hc.
  assert (Hone : lease_holders <$> leases st !! k = Some 1 <-> refcount (holders st) k = 1).
  { rewrite Hc. destruct (leases st !! k); simpl; split; intros; simplify_eq; congruence. }
  rewrite Hone, Hr. clear Hc Hone Hr. revert H.
  generalize (refcount (delete h (holders st)) k). intros n Hn.
  assert (Hcases : n = 0 \/ 0 < n /\ n + 1 <> 1) by lia.
  destruct Hcases as [-> | []]; destruct (decide (k ∈ keys)), (decide (k ∈ old_keys)); intuition lia.
Qed.

Lemma freed_sub : freed_keys ⊆ lease_keys st ∪ keys.
Proof using.
  intros k [Hk _]%elem_of_filter. apply elem_of_union_l, elem_of_dom.
  destruct (leases st !! k); [eauto | discriminate].
Qed.

Lemma created_eq : count_created keys (leases st) = Z.of_nat (size (keys ∖ lease_keys st)).
Proof using.
  unfold count_created. rewrite length_filter_elements. do 2 f_equal. apply leibniz_equiv.
  intros k. unfold lease_keys. rewrite elem_of_filter, elem_of_difference, not_elem_of_dom. tauto.
Qed.

Lemma freed_eq : count_freed (old_keys ∖ keys) (leases st) = Z.of_nat (size freed_keys).
Proof using. unfold count_freed. by rewrite length_filter_elements. Qed.

Lemma total_eq :
  Z.of_nat (size (leases st)) + count_created keys (leases st) - count_freed (old_keys ∖ keys) (leases st)
  = Z.of_nat (size (active (replace_holder h keys (holders st)))).
Proof using Hwf.
  rewrite created_eq, freed_eq, active_replace, (size_difference _ freed_keys) by apply freed_sub.
  rewrite (size_union_alt (lease_keys st) keys). unfold lease_keys at 2. rewrite size_dom.
  pose proof (subseteq_size _ _ freed_sub) as Hs. rewrite (size_union_alt (lease_keys st) keys) in Hs.
  unfold lease_keys at 1 in Hs. rewrite size_dom in Hs. lia.
Qed.

Lemma restore_holder :
  (if decide (old_keys = ∅) then delete h (holders st) else <[h := old_keys]> (delete h (holders st)))
  = holders st.
Proof using Hwf.
  unfold old_keys. destruct (holders st !! h) as [ks|] eqn:E; simpl.
  - rewrite decide_False by (by eapply lw_nonempty). by apply insert_delete_id.
  - rewrite decide_True by done. by apply delete_id.
Qed.

Lemma replace_after_delete :
  (if decide (keys = ∅) then delete h (holders st) else <[h := keys]> (delete h (holders st)))
  = replace_holder h keys (holders st).
Proof using. unfold replace_holder. case_decide; [done|]. by rewrite insert_delete_eq. Qed.

(** The lease table after both loops. *)
Definition new_lease (k : ScopeKey) : option Lease :=
  if decide (k ∈ keys ∖ old_keys) then
    Some {| lease_holders := default 0 (lease_holders <$> leases st !! k) + 1;
            lease_task := leases st !! k ≫= lease_task |}
  else if decide (k ∈ old_keys ∖ keys) then leases st !! k ≫= dropped
  else leases st !! k.

Lemma new_lease_count k :
  default 0 (lease_holders <$> new_lease k) = refcount (replace_holder h keys (holders st)) k /\
  (forall l, new_lease k = Some l -> 0 < lease_holders l).
Proof using Hwf.
  rewrite refcount_replace. unfold new_lease, dropped.
  pose proof (refcount_split (holders st) h k) as Hr. fold old_keys in Hr.
  rewrite lease_count in Hr.
  pose proof (refcount_nonneg (delete h (holders st)) k).
  assert (Hpos : forall l, leases st !! k = Some l -> 0 < lease_holders l)
    by (intros l Hl; by destruct (lw_count st Hwf k l Hl)).
  destruct (decide (k ∈ keys)), (decide (k ∈ old_keys)); repeat case_decide;
    rewrite ?elem_of_difference in *; try tauto; destruct (leases st !! k) as [l|] eqn:E; simpl in *; try specialize (Hpos l eq_refl);
    try case_match; split; simpl; intros; simplify_eq/=; lia.
Qed.

Lemma new_leases_wf st' :
  holders st' = replace_holder h keys (holders st) -> (forall k, leases st' !! k = new_lease k) ->
  (keys ⊆ lease_keys st \/
   Z.of_nat (size (active (replace_holder h keys (holders st)))) <= MAX_ACTIVE_SCOPES) ->
  leases_wf st'.
Proof using Hwf.
  intros Hh Hl Hcap.
  assert (Hdom : lease_keys st' = active (replace_holder h keys (holders st))).
  { apply leibniz_equiv. intros k. unfold lease_keys. rewrite elem_of_dom, Hl, <- refcount_pos.
    destruct (new_lease_count k) as [<- Hpos].
    destruct (new_lease k) as [l|]; simpl; split; intros; eauto; [by destruct H|lia]. }
  split.
  - intros h' ks. rewrite Hh, replace_holder_lookup. repeat case_decide; [done| |apply (lw_nonempty st Hwf)].
    by intros [= <-].
  - intros k l Hk. rewrite Hl in Hk. rewrite Hh. destruct (new_lease_count k) as [<- Hpos].
    rewrite Hk. split; [done|]. by apply Hpos.
  - intros k Hk. rewrite Hl in Hk. rewrite Hh. destruct (new_lease_count k) as [<- _]. by rewrite Hk.
  - rewrite <- (size_dom (D := gset ScopeKey)). fold (lease_keys st'). rewrite Hdom.
    destruct Hcap as [Hsub|]; [|done]. rewrite active_replace.
    assert (Hs : (lease_keys st ∪ keys) ∖ freed_keys ⊆ lease_keys st) by set_solver.
    apply subseteq_size in Hs. unfold lease_keys in Hs at 2. rewrite size_dom in Hs.
    pose proof (lw_cap st Hwf). lia.
Qed.

Lemma set_holder_spec :
  exists r st', set_holder h keys st = Some (r, st') /\
  match r with
  | Err _ => st' = st /\ ~ keys ⊆ lease_keys st /\
      MAX_ACTIVE_SCOPES < Z.of_nat (size (active (replace_holder h keys (holders st))))
  | Ok ch => leases_wf st' /\ holders st' = replace_holder h keys (holders st) /\
      (keys ⊆ lease_keys st \/
       Z.of_nat (size (active (replace_holder h keys (holders st)))) <= MAX_ACTIVE_SCOPES) /\
      (forall k, leases st' !! k = new_lease k) /\
      started ch = filter (fun k => leases st !! k = None) (set_iter (keys ∖ old_keys)) /\
      released ch = filter (fun k => lease_holders <$> leases st !! k = Some 1) (set_iter (old_keys ∖ keys)) /\
      stopped ch = omap (fun k => leases st !! k ≫= lease_task) (released ch)
  end.
Proof using Hwf.
  unfold set_holder. fold old_keys.
  assert (Hsub : keys ⊆ lease_keys st <-> count_created keys (leases st) = 0).
  { rewrite created_eq. split; intros Hk.
    - assert (keys ∖ lease_keys st = ∅) as ->; [|by rewrite size_empty]. set_solver.
    - assert (Hz : size (keys ∖ lease_keys st) = 0%nat) by lia. apply size_empty_inv in Hz. set_solver. }
  assert (Hover : exists over, (if 0 <? count_created keys (leases st) then
      total ← usize_sub (Z.of_nat (size (leases st)) + count_created keys (leases st))
                (count_freed (old_keys ∖ keys) (leases st));
      Some (MAX_ACTIVE_SCOPES <? total) else Some false) = Some over /\
    (over = true <-> ~ keys ⊆ lease_keys st /\
      MAX_ACTIVE_SCOPES < Z.of_nat (size (active (replace_holder h keys (holders st)))))).
  { pose proof total_eq as Ht. pose proof created_eq as Hcr. setoid_rewrite Hsub. rewrite Hcr in Ht |- *.
    destruct (Z.ltb_spec 0 (Z.of_nat (size (keys ∖ lease_keys st)))).
    - rewrite usize_sub_some by lia. simpl. eexists. split; [done|]. rewrite Ht, Z.ltb_lt.
      split; [intros; split; [lia|done] | tauto].
    - exists false. split; [done|]. split; [done | lia]. }
  destruct Hover as (over & -> & Hov). cbn [mbind option_bind]. destruct over.
  - do 2 eexists. split; [done|]. rewrite restore_holder. destruct st; simpl. split; [done|]. by apply Hov.
  - destruct (take_keys _ _ _) as [ls1 ch1] eqn:Ht.
    apply take_keys_spec in Ht as (Hl1 & Hst1 & Hsp1 & Hre1); [|apply NoDup_set_iter].
    assert (Hcount : forall k, k ∈ old_keys ∖ keys -> ls1 !! k = leases st !! k).
    { intros k Hk. rewrite Hl1, decide_False; [done|]. rewrite elem_of_set_iter. set_solver. }
    destruct (drop_keys_spec (set_iter (old_keys ∖ keys)) ls1 ch1) as (ls2 & ch2 & -> & Hl2 & Hst2 & Hsp2 & Hre2).
    { apply NoDup_set_iter. }
    { intros k l Hl. rewrite Hl1 in Hl. case_decide; simplify_eq/=.
      - rewrite <- lease_count. pose proof (refcount_nonneg (holders st) k). lia.
      - by destruct (lw_count st Hwf k l Hl). }
    assert (Hnew : forall k, ls2 !! k = new_lease k).
    { intros k. rewrite Hl2, Hl1. unfold new_lease.
      repeat setoid_rewrite elem_of_set_iter.
      destruct (decide (k ∈ set_iter (old_keys ∖ keys))) as [Ho|Ho];
        destruct (decide (k ∈ set_iter (keys ∖ old_keys))) as [Hk|Hk];
        rewrite elem_of_set_iter in Ho, Hk; repeat case_decide; try done; set_solver. }
    cbn [mbind option_bind]. do 2 eexists. split; [reflexivity|]. simpl.
    rewrite replace_after_delete.
    assert (Hrel : filter (fun k => lease_holders <$> ls1 !! k = Some 1) (set_iter (old_keys ∖ keys))
      = filter (fun k => lease_holders <$> leases st !! k = Some 1) (set_iter (old_keys ∖ keys))).
    { apply list_filter_iff_in. intros k Hk%elem_of_set_iter. by rewrite Hcount. }
    assert (Hcap : keys ⊆ lease_keys st \/
       Z.of_nat (size (active (replace_holder h keys (holders st)))) <= MAX_ACTIVE_SCOPES).
    { destruct (decide (keys ⊆ lease_keys st)); [by left|right]. apply Z.le_ngt. intros ?.
      destruct Hov as [_ Hov]. discriminate Hov. done. }
    split_and!; try done.
    + by apply new_leases_wf.
    + by rewrite Hst2, Hst1.
    + by rewrite Hre2, Hre1, Hrel.
    + rewrite Hsp2, Hsp1, Hrel, Hre2, Hre1, Hrel. simpl. apply omap_ext_in.
      intros k [_ Hk%elem_of_set_iter]%list_elem_of_filter. by rewrite Hcount.
Qed.
End set_holder_facts.
