(* ===== verification/ScopeLeasesProps.v ===== *)
(** * What the scope leases guarantee

    [set_holder] implements "replace the keys of one holder" on the abstract state
    (the map of holders); the lease table always counts the holders of each key;
    and over any sequence of service calls every subscription task that was
    started is stopped or aborted exactly once or still sits in its lease. *)
From S2P Require Import Prelude ScopeLeases.

(** ** Sequences of service calls *)

(** One call, with what the service answers while it starts tasks. *)
Inductive Call :=
| CSetHolder (sp : Spawner) (holder : string) (keys : gset ScopeKey)
| CRelease (holder : string)
| CRestart (sp : Spawner) (matches : ScopeKey -> bool)
| CUnsubscribe (topic : string)
| CShutdown.

Definition apply_call (c : Call) (st : ScopeLeases) : option (list Effect * ScopeLeases) :=
  match c with
  | CSetHolder sp h keys =>
      '(r, st) ← set_scope_holder sp h keys st;
      Some (match r with Ok eff => eff | Err _ => [] end, st)
  | CRelease h => release_scope_holder h st
  | CRestart sp matches => Some (restart_scope_subscriptions sp matches st)
  | CUnsubscribe topic => unsubscribe_topic topic st
  | CShutdown => Some (shutdown_leases st)
  end.

Fixpoint run_calls (cs : list Call) (st : ScopeLeases) : option (list Effect * ScopeLeases) :=
  match cs with
  | [] => Some ([], st)
  | c :: cs =>
      '(eff, st) ← apply_call c st;
      '(eff', st) ← run_calls cs st;
      Some (eff ++ eff', st)
  end.

Definition tasks_started : list Effect -> list ScopeTask :=
  omap (fun e => match e with StartTask _ t => t | _ => None end).
Definition tasks_ended : list Effect -> list ScopeTask :=
  omap (fun e => match e with StopTask t | AbortTask t => Some t | _ => None end).

(** The tasks the leases hold. *)
Definition slots_of (ls : gmap ScopeKey Lease) : list ScopeTask :=
  omap (fun p => lease_task p.2) (map_to_list ls).

(** Nothing leaks between two states. *)
Definition balanced (eff : list Effect) (st st' : ScopeLeases) : Prop :=
  tasks_started eff ++ slots_of (leases st) ≡ₚ tasks_ended eff ++ slots_of (leases st').

(** ** Slots *)
Lemma slots_insert_None ls k l :
  ls !! k = None -> slots_of (<[k := l]> ls) ≡ₚ option_list (lease_task l) ++ slots_of ls.
Proof. intros Hk. unfold slots_of. rewrite map_to_list_insert by done. simpl. by destruct (lease_task l). Qed.

Lemma slots_delete ls k l :
  ls !! k = Some l -> slots_of ls ≡ₚ option_list (lease_task l) ++ slots_of (delete k ls).
Proof.
  intros Hk. rewrite <- (insert_delete_id ls k l) at 1 by done.
  apply slots_insert_None, lookup_delete_eq.
Qed.

Lemma slots_insert_Some ls k l l' :
  ls !! k = Some l ->
  option_list (lease_task l) ++ slots_of (<[k := l']> ls) ≡ₚ option_list (lease_task l') ++ slots_of ls.
Proof.
  intros Hk. rewrite <- insert_delete_eq, slots_insert_None by apply lookup_delete_eq.
  rewrite (slots_delete ls k l Hk). rewrite !app_assoc. f_equiv. apply Permutation_app_comm.
Qed.

Lemma slots_insert_same ls k l l' :
  ls !! k = Some l -> lease_task l' = lease_task l -> slots_of (<[k := l']> ls) ≡ₚ slots_of ls.
Proof.
  intros Hk Ht. pose proof (slots_insert_Some ls k l l' Hk) as Hs. rewrite Ht in Hs.
  by apply Permutation_app_inv_l in Hs.
Qed.

Lemma take_keys_slots ks ls ch : slots_of (take_keys ks ls ch).1 ≡ₚ slots_of ls.
Proof.
  revert ls ch. induction ks as [|k ks IH]; intros ls ch; simpl; [done|].
  destruct (ls !! k) as [l|] eqn:E; rewrite IH.
  - by apply (slots_insert_same _ _ l).
  - by rewrite slots_insert_None.
Qed.

Lemma drop_keys_slots ks ls ch ls' ch' :
  drop_keys ks ls ch = Some (ls', ch') -> stopped ch ++ slots_of ls ≡ₚ stopped ch' ++ slots_of ls'.
Proof.
  revert ls ch. induction ks as [|k ks IH]; intros ls ch; simpl; [by intros [= <- <-]|].
  destruct (ls !! k) as [l|] eqn:E; [|apply IH].
  destruct (usize_sub _ _) as [n|]; simpl; [|done]. case_match; intros Hd%IH; rewrite <- Hd; simpl.
  - by rewrite <- app_assoc, <- slots_delete.
  - by rewrite (slots_insert_same ls k l).
Qed.

Lemma tasks_started_app e e' : tasks_started (e ++ e') = tasks_started e ++ tasks_started e'.
Proof. apply omap_app. Qed.
Lemma tasks_ended_app e e' : tasks_ended (e ++ e') = tasks_ended e ++ tasks_ended e'.
Proof. apply omap_app. Qed.

Lemma stop_tasks ts : tasks_ended (map StopTask ts) = ts /\ tasks_started (map StopTask ts) = [].
Proof. induction ts as [|t ts [IH1 IH2]]; simpl; [done|]. by rewrite IH1. Qed.

Lemma balanced_nil st : balanced [] st st.
Proof. unfold balanced. done. Qed.

Lemma balanced_trans e e' st1 st2 st3 :
  balanced e st1 st2 -> balanced e' st2 st3 -> balanced (e ++ e') st1 st3.
Proof.
  unfold balanced. rewrite tasks_started_app, tasks_ended_app. intros H1 H2.
  rewrite (Permutation_app_comm (tasks_started e)), <- app_assoc, H1, <- app_assoc, <- H2.
  rewrite !app_assoc. f_equiv. apply Permutation_app_comm.
Qed.

(** ** Every operation keeps the table and leaks nothing *)
Definition call_ok (st : ScopeLeases) (o : option (list Effect * ScopeLeases)) : Prop :=
  exists eff st', o = Some (eff, st') /\ leases_wf st' /\ balanced eff st st'.

Lemma set_slot_lookup k t st k' :
  leases (set_slot k t st) !! k' =
    if decide (k = k') then (fun l => {| lease_holders := lease_holders l; lease_task := t |}) <$> leases st !! k'
    else leases st !! k'.
Proof. simpl. case_decide; [subst; apply lookup_alter_eq | by apply lookup_alter_ne]. Qed.

Lemma set_slot_wf k t st : leases_wf st -> leases_wf (set_slot k t st).
Proof.
  intros Hwf. split.
  - apply (lw_nonempty st Hwf).
  - intros k' l. rewrite set_slot_lookup. case_decide; [|apply (lw_count st Hwf)].
    intros (l' & ? & ->)%fmap_Some. simpl. by apply (lw_count st Hwf).
  - intros k'. rewrite set_slot_lookup. case_decide; [|apply (lw_none st Hwf)].
    intros ?%fmap_None. by apply (lw_none st Hwf).
  - rewrite <- (size_dom (D := gset ScopeKey)). simpl. rewrite dom_alter_L, size_dom. apply (lw_cap st Hwf).
Qed.

Lemma set_slot_slots k t st l :
  leases st !! k = Some l ->
  option_list (lease_task l) ++ slots_of (leases (set_slot k t st)) ≡ₚ option_list t ++ slots_of (leases st).
Proof.
  intros Hk. assert (leases (set_slot k t st)
    = <[k := {| lease_holders := lease_holders l; lease_task := t |}]> (leases st)) as ->.
  { apply map_eq. intros k'. rewrite set_slot_lookup. case_decide; [subst k'|].
    - by rewrite Hk, lookup_insert_eq.
    - by rewrite lookup_insert_ne. }
  by rewrite (slots_insert_Some (leases st) k l).
Qed.

Lemma set_slot_none k t st : leases st !! k = None -> set_slot k t st = st.
Proof. intros Hk. destruct st as [ls hs]. unfold set_slot; simpl in *. by rewrite alter_id by (intros; simplify_eq). Qed.

Lemma start_all_ok sp ks st :
  leases_wf st -> NoDup ks -> (forall k, k ∈ ks -> leases st !! k ≫= lease_task = None /\ is_Some (leases st !! k)) ->
  leases_wf (start_all sp ks st) /\ holders (start_all sp ks st) = holders st /\
  omap (start_scope_task sp) ks ++ slots_of (leases st) ≡ₚ slots_of (leases (start_all sp ks st)).
Proof.
  intros Hwf Hnd. revert st Hwf. induction Hnd as [|k ks Hk Hnd IH]; intros st Hwf Hks; simpl; [done|].
  destruct (IH (set_slot k (start_scope_task sp k) st)) as (? & ? & Hp).
  { by apply set_slot_wf. }
  { intros k' Hk'. rewrite set_slot_lookup, decide_False by (by intros <-). apply Hks. set_solver. }
  split_and!; [done | done |]. rewrite <- Hp.
  destruct (Hks k) as [Hn [l Hl]]; [set_solver|]. rewrite Hl in Hn. simpl in Hn.
  pose proof (set_slot_slots k (start_scope_task sp k) st l Hl) as Hs. rewrite Hn in Hs. simpl in Hs.
  simpl. rewrite Hs. destruct (start_scope_task sp k); simpl; [apply Permutation_middle | done].
Qed.

Lemma set_holder_slots h keys st r st' :
  set_holder h keys st = Some (r, st') ->
  slots_of (leases st) ≡ₚ (match r with Ok ch => stopped ch | Err _ => [] end) ++ slots_of (leases st').
Proof.
  unfold set_holder. intros Hs. apply bind_Some in Hs as (over & _ & Hs).
  destruct over; [by injection Hs as <- <-|].
  pose proof (take_keys_slots (set_iter (keys ∖ default ∅ (holders st !! h))) (leases st)
    {| started := []; stopped := []; released := [] |}) as Ht.
  destruct (take_keys _ _ _) as [ls1 ch1] eqn:Et.
  assert (Hch : stopped ch1 = []).
  { apply take_keys_spec in Et as (_ & _ & -> & _); [done | apply NoDup_set_iter]. }
  apply bind_Some in Hs as ([ls2 ch2] & Hd%drop_keys_slots & Hs). injection Hs as <- <-.
  simpl in *. by rewrite <- Ht, <- Hd, Hch.
Qed.

Lemma started_tasks_of sp ks :
  tasks_started (map (fun k => StartTask k (start_scope_task sp k)) ks) = omap (start_scope_task sp) ks /\
  tasks_ended (map (fun k => StartTask k (start_scope_task sp k)) ks) = [].
Proof. induction ks as [|k ks [IH1 IH2]]; simpl; [done|]. by rewrite IH1. Qed.

(** What [set_holder] started is a fresh lease without a task. *)
Lemma started_fresh h keys st r ch st' :
  leases_wf st -> set_holder h keys st = Some (r, st') -> r = Ok ch ->
  leases_wf st' /\ NoDup (started ch) /\
  (forall k, k ∈ started ch -> leases st' !! k ≫= lease_task = None /\ is_Some (leases st' !! k)).
Proof.
  intros Hwf Hs ->. destruct (set_holder_spec st Hwf h keys) as (r & st1 & Hs' & Hr).
  rewrite Hs in Hs'. injection Hs' as <- <-. destruct Hr as (? & _ & _ & Hl & -> & _).
  split_and!; [done | apply NoDup_filter, NoDup_set_iter |].
  intros k [Hn Hk%elem_of_set_iter]%list_elem_of_filter. rewrite Hl. unfold new_lease.
  rewrite decide_True by done. rewrite Hn. simpl. eauto.
Qed.

Lemma set_scope_holder_ok sp h keys st :
  leases_wf st -> exists r st', set_scope_holder sp h keys st = Some (r, st') /\ leases_wf st' /\
    balanced (match r with Ok eff => eff | Err _ => [] end) st st' /\
    holders st' = match r with Ok _ => replace_holder h keys (holders st) | Err _ => holders st end.
Proof.
  intros Hwf. unfold set_scope_holder.
  destruct (set_holder_spec st Hwf h keys) as (r & st1 & Hs & Hr). rewrite Hs. cbn [mbind option_bind].
  pose proof (set_holder_slots _ _ _ _ _ Hs) as Hp. destruct r as [ch|e].
  - destruct (started_fresh h keys st _ ch st1 Hwf Hs eq_refl) as (Hwf1 & Hnd & Hf).
    destruct (start_all_ok sp (started ch) st1 Hwf1 Hnd Hf) as (? & Hh & Hq).
    destruct Hr as (_ & Hh1 & _).
    do 2 eexists. split_and!; [done | done | | by rewrite Hh]. unfold balanced.
    rewrite !tasks_started_app, !tasks_ended_app. destruct (stop_tasks (stopped ch)) as [-> ->].
    destruct (started_tasks_of sp (started ch)) as [-> ->]. simpl. rewrite app_nil_r, Hp, <- Hq.
    rewrite !app_assoc. f_equiv. apply Permutation_app_comm.
  - destruct Hr as (-> & _). do 2 eexists. split_and!; done.
Qed.

Lemma release_scope_holder_ok h st :
  leases_wf st -> exists eff st', release_scope_holder h st = Some (eff, st') /\ leases_wf st' /\
    balanced eff st st' /\ holders st' = delete h (holders st) /\ tasks_started eff = [].
Proof.
  intros Hwf. unfold release_scope_holder.
  destruct (set_holder_spec st Hwf h ∅) as (r & st1 & Hs & Hr). rewrite Hs. cbn [mbind option_bind].
  pose proof (set_holder_slots _ _ _ _ _ Hs) as Hp. destruct r as [ch|e].
  - destruct Hr as (? & Hh & _). do 2 eexists. split; [reflexivity|]. unfold balanced.
    rewrite !tasks_started_app, !tasks_ended_app. destruct (stop_tasks (stopped ch)) as [-> ->]. simpl.
    rewrite app_nil_r. by split_and!.
  - exfalso. destruct Hr as (_ & Hn & _). apply Hn. set_solver.
Qed.

Lemma restart_leased_task_ok sp k st :
  leases_wf st -> let '(eff, st') := restart_leased_task sp k st in
  leases_wf st' /\ balanced eff st st' /\ holders st' = holders st /\ lease_keys st' = lease_keys st.
Proof.
  intros Hwf. unfold restart_leased_task. destruct (leases st !! k) as [l|] eqn:E; [|by split_and!; [|apply balanced_nil|..]].
  split_and!; [by apply set_slot_wf | | done | unfold lease_keys; simpl; apply dom_alter_L].
  pose proof (set_slot_slots k (start_scope_task sp k) st l E) as Hs. unfold balanced.
  set (st2 := set_slot _ _ _) in *. clearbody st2. simpl.
  destruct (lease_task l), (start_scope_task sp k); try case_decide; simpl in *; by rewrite Hs.
Qed.

Lemma restart_all_ok sp ks st :
  leases_wf st -> let '(eff, st') := restart_all sp ks st in
  leases_wf st' /\ balanced eff st st' /\ holders st' = holders st /\ lease_keys st' = lease_keys st.
Proof.
  revert st. induction ks as [|k ks IH]; intros st Hwf; simpl; [by split_and!; [|apply balanced_nil|..]|].
  pose proof (restart_leased_task_ok sp k st Hwf) as H1. destruct (restart_leased_task sp k st) as [e1 st1].
  destruct H1 as (Hwf1 & Hb1 & Hh1 & Hk1). specialize (IH st1 Hwf1).
  destruct (restart_all sp ks st1) as [e2 st2]. destruct IH as (? & ? & ? & ?).
  split_and!; [done | by eapply balanced_trans | congruence..].
Qed.

Lemma release_each_ok hs st :
  leases_wf st -> exists eff st', release_each hs st = Some (eff, st') /\ leases_wf st' /\
    balanced eff st st' /\ (forall h, holders st' !! h = if decide (h ∈ hs) then None else holders st !! h) /\
    tasks_started eff = [].
Proof.
  revert st. induction hs as [|h hs IH]; intros st Hwf; simpl; [by exists [], st; split_and!; [|..|apply balanced_nil| |]|].
  destruct (release_scope_holder_ok h st Hwf) as (e1 & st1 & -> & Hwf1 & Hb1 & Hh1 & Hs1).
  cbn [mbind option_bind]. destruct (IH st1 Hwf1) as (e2 & st2 & -> & ? & ? & Hh2 & Hs2).
  cbn [mbind option_bind]. do 2 eexists. split_and!; [done | done | by eapply balanced_trans | |].
  - intros h'. rewrite Hh2, Hh1. destruct (decide (h' = h)) as [->|Hne].
    + rewrite lookup_delete_eq, (decide_True (P := h ∈ h :: hs)) by set_solver. by case_decide.
    + rewrite lookup_delete_ne by done. repeat case_decide; try done; set_solver.
  - by rewrite tasks_started_app, Hs1, Hs2.
Qed.

Lemma empty_leases_wf : leases_wf empty_leases.
Proof. by split. Qed.

Lemma apply_call_ok c st : leases_wf st -> call_ok st (apply_call c st).
Proof.
  intros Hwf. destruct c as [sp h keys|h|sp ms|t|]; simpl; unfold call_ok.
  - destruct (set_scope_holder_ok sp h keys st Hwf) as (r & st' & -> & ? & ? & _).
    cbn [mbind option_bind]. eauto.
  - destruct (release_scope_holder_ok h st Hwf) as (eff & st' & -> & ? & ? & _). eauto.
  - unfold restart_scope_subscriptions. set (ks := filter _ _).
    pose proof (restart_all_ok sp ks st Hwf) as Hr. destruct (restart_all sp ks st). naive_solver.
  - destruct (release_each_ok (holders_with ["desired:"] (fun k => bool_decide (scope_key_topic k = Some t)) st)
      st Hwf) as (eff & st' & Hr & ? & ? & _). unfold unsubscribe_topic. rewrite Hr. eauto.
  - unfold shutdown_leases. simpl. do 2 eexists. split_and!; [done | apply empty_leases_wf|].
    unfold balanced. fold (slots_of (leases st)). destruct (stop_tasks (slots_of (leases st))) as [-> ->].
    simpl. by rewrite app_nil_r.
Qed.

Lemma run_calls_ok cs st : leases_wf st -> call_ok st (run_calls cs st).
Proof.
  revert st. induction cs as [|c cs IH]; intros st Hwf; simpl; [exists [], st; eauto using balanced_nil|].
  destruct (apply_call_ok c st Hwf) as (e1 & st1 & -> & Hwf1 & Hb1). cbn [mbind option_bind].
  destruct (IH st1 Hwf1) as (e2 & st2 & -> & ? & ?). cbn [mbind option_bind].
  exists (e1 ++ e2), st2. split_and!; eauto using balanced_trans.
Qed.

(** Whether restarting the task of [k] leaves the hint topic of the old task [t]. *)
Definition leaves_topic (sp : Spawner) (k : ScopeKey) (t : ScopeTask) : Prop :=
  hint_topic <$> start_scope_task sp k <> Some (hint_topic t).

Lemma restart_leased_task_effects sp k st t :
  (StopTask t ∈ (restart_leased_task sp k st).1 <->
    leases st !! k ≫= lease_task = Some t /\ leaves_topic sp k t) /\
  (forall k', leases (restart_leased_task sp k st).2 !! k' =
     if decide (k' = k) then (fun l => {| lease_holders := lease_holders l;
                                          lease_task := start_scope_task sp k |}) <$> leases st !! k'
     else leases st !! k').
Proof.
  unfold restart_leased_task, leaves_topic. destruct (leases st !! k) as [l|] eqn:E; simpl; split.
  - rewrite elem_of_cons. destruct (lease_task l) as [old|]; [|set_solver].
    destruct (start_scope_task sp k); simpl; [case_decide|]; rewrite list_elem_of_singleton; naive_solver congruence.
  - intros k'. pose proof (set_slot_lookup k (start_scope_task sp k) st k') as Hl. simpl in Hl. rewrite Hl.
    repeat case_decide; congruence || done.
  - set_solver.
  - intros k'. case_decide; [subst; by rewrite E | done].
Qed.

Lemma restart_all_effects sp ks st t :
  NoDup ks ->
  (StopTask t ∈ (restart_all sp ks st).1 <->
    exists k, k ∈ ks /\ leases st !! k ≫= lease_task = Some t /\ leaves_topic sp k t) /\
  (forall k, leases (restart_all sp ks st).2 !! k =
     if decide (k ∈ ks) then (fun l => {| lease_holders := lease_holders l;
                                          lease_task := start_scope_task sp k |}) <$> leases st !! k
     else leases st !! k).
Proof.
  intros Hnd. revert st. induction Hnd as [|k ks Hk Hnd IH]; intros st; simpl; [set_solver|].
  destruct (restart_leased_task_effects sp k st t) as [He1 Hl1].
  destruct (restart_leased_task sp k st) as [e1 st1]. simpl in *.
  destruct (IH st1) as [He2 Hl2]. destruct (restart_all sp ks st1) as [e2 st2]. simpl in *. split.
  - rewrite elem_of_app, He1, He2. split.
    + intros [?|(k' & Hk' & Ht & ?)]; [exists k; set_solver|]. exists k'.
      rewrite Hl1, decide_False in Ht by (by intros ->). set_solver.
    + intros (k' & [->|Hk']%elem_of_cons & Ht & ?); [by left|right]. exists k'.
      rewrite Hl1, decide_False by (by intros ->). done.
  - intros k'. rewrite Hl2, !Hl1. destruct (decide (k' = k)) as [->|].
    + by rewrite decide_False, decide_True by (done || set_solver).
    + destruct (decide (k' ∈ ks)), (decide (k' ∈ k :: ks)); try done; set_solver.
Qed.

Lemma elem_of_holders_with ps ms st h :
  h ∈ holders_with ps ms st <->
  exists ks, holders st !! h = Some ks /\ existsb (fun q => String.prefix q h) ps = true /\
             exists k, k ∈ ks /\ ms k = true.
Proof.
  unfold holders_with. rewrite list_elem_of_fmap. split.
  - intros ([h' ks] & -> & [Hp Hin%elem_of_map_to_list]%list_elem_of_filter). exists ks.
    simpl in *. apply andb_prop in Hp as [? (k & Hk & ?)%existsb_exists]. split_and!; try done.
    exists k. split; [|done]. apply elem_of_elements. by apply list_elem_of_In.
  - intros (ks & Hh & Hp & k & Hk & Hm). exists (h, ks). split; [done|].
    apply list_elem_of_filter. split; [|by apply elem_of_map_to_list].
    simpl. rewrite Hp. apply existsb_exists. exists k. split; [|done].
    by apply list_elem_of_In, elem_of_elements.
Qed.

(** ** Claims *)

(** Example data: a service that starts a task for every key. *)
Definition demo_spawner : Spawner := {|
  topic_gossip_disabled := fun _ => false;
  channel_gossip_disabled := fun _ _ => false;
  load_leased_private_channel := fun _ c => Some c;
  spawn_subscription_task := fun _ _ hint => Some {| task_handle := 7; hint_topic := Some hint |};
  spawn_author_subscription := fun _ => Some {| task_handle := 8; hint_topic := None |};
  spawn_account_sync_subscription := fun hint => Some {| task_handle := 9; hint_topic := Some hint |}
|}.

Definition demo_leases : ScopeLeases :=
  (default (([] : list Effect), empty_leases)
    (run_calls [CSetHolder demo_spawner "display:1" {[ KTopic "a"; KChannel "a" "c" ]};
                CSetHolder demo_spawner "desired:a" {[ KTopic "a" ]}] empty_leases)).2.

Lemma demo_leases_wf : leases_wf demo_leases.
Proof.
  unfold demo_leases.
  destruct (run_calls_ok [CSetHolder demo_spawner "display:1" {[ KTopic "a"; KChannel "a" "c" ]};
    CSetHolder demo_spawner "desired:a" {[ KTopic "a" ]}] empty_leases empty_leases_wf) as (e & st & Hr & ? & _).
  rewrite Hr. done.
Qed.

(** C18: [set_holder] refines "replace the keys of one holder": it never panics and keeps the table
    well formed; it is refused exactly when it adds a key and the scopes in use would exceed
    [MAX_ACTIVE_SCOPES], and then changes nothing; otherwise the abstract state is the replaced
    holders, and the leased keys are always exactly the keys some holder holds. *)
Theorem set_holder_refines st h keys :
  leases_wf st ->
  let wanted := active (replace_holder h keys (holders st)) in
  exists r st', set_holder h keys st = Some (r, st') /\ leases_wf st' /\
    lease_keys st' = active (holders st') /\
    (r = Err ScopeLimit <-> ~ keys ⊆ lease_keys st /\ MAX_ACTIVE_SCOPES < Z.of_nat (size wanted)) /\
    (r = Err ScopeLimit -> st' = st) /\
    (r <> Err ScopeLimit -> holders st' = replace_holder h keys (holders st) /\ lease_keys st' = wanted).
Proof.
  intros Hwf wanted. destruct (set_holder_spec st Hwf h keys) as (r & st' & Hs & Hr).
  exists r, st'. destruct r as [ch|[]].
  - destruct Hr as (Hwf' & Hh & Hcap & _). pose proof (lease_keys_active st' Hwf') as Ha.
    split_and!; try done.
    + split; [done|]. intros [Hn ?]. destruct Hcap; [done | unfold wanted in *; lia].
    + intros _. split; [done|]. by rewrite Ha, Hh.
  - destruct Hr as (-> & Hn & Hcap). split_and!; try done. by apply lease_keys_active.
Qed.

Lemma set_holder_refines_witness :
  leases_wf demo_leases /\
  exists r st', set_holder "live:x" {[ KTopic "b" ]} demo_leases = Some (r, st') /\ leases_wf st'.
Proof.
  split; [apply demo_leases_wf|].
  destruct (set_holder_refines demo_leases "live:x" {[ KTopic "b" ]} demo_leases_wf) as (r & st' & ? & ? & _).
  exists r, st'. split; assumption.
Defined.

(** an accepted change reports exactly the difference: the started keys are those that gain their
    first holder, the released keys those that lose their last one, each once; the stopped tasks
    are the tasks of the released keys, and a key that stays leased keeps its task. *)
Theorem lease_change_exact st h keys ch st' :
  leases_wf st -> set_holder h keys st = Some (Ok ch, st') ->
  NoDup (started ch) /\ NoDup (released ch) /\
  (forall k, k ∈ started ch <-> k ∈ active (holders st') /\ k ∉ active (holders st)) /\
  (forall k, k ∈ released ch <-> k ∈ active (holders st) /\ k ∉ active (holders st')) /\
  stopped ch = omap (fun k => leases st !! k ≫= lease_task) (released ch) /\
  (forall k, k ∈ active (holders st) -> k ∈ active (holders st') ->
     leases st' !! k ≫= lease_task = leases st !! k ≫= lease_task).
Proof.
  intros Hwf Hs. destruct (set_holder_spec st Hwf h keys) as (r & st1 & Hs' & Hr).
  rewrite Hs in Hs'. injection Hs' as <- <-. destruct Hr as (Hwf' & Hh & _ & Hl & Hst & Hre & Hsp).
  assert (Hact : active (holders st') = (active (holders st) ∪ keys) ∖ freed_keys st h keys)
    by (rewrite Hh, active_replace, lease_keys_active; done).
  assert (Hk : forall k, leases st !! k = None <-> k ∉ active (holders st)).
  { intros k. rewrite <- lease_keys_active by done. unfold lease_keys. by rewrite not_elem_of_dom. }
  assert (Hold : forall k, k ∈ old_keys st h -> k ∈ active (holders st)).
  { intros k. rewrite elem_of_active. unfold old_keys. destruct (holders st !! h) eqn:E; simpl; [eauto|set_solver]. }
  assert (Hfr : forall k, k ∈ freed_keys st h keys <->
      lease_holders <$> leases st !! k = Some 1 /\ k ∈ old_keys st h /\ k ∉ keys).
  { intros k. unfold freed_keys. by rewrite elem_of_filter, elem_of_difference. }
  split_and!; [rewrite Hst; apply NoDup_filter, NoDup_set_iter | rewrite Hre; apply NoDup_filter, NoDup_set_iter | | |done|].
  - intros k. rewrite Hst, list_elem_of_filter, elem_of_set_iter, Hact, Hk.
    rewrite !elem_of_difference, elem_of_union, Hfr. specialize (Hold k). tauto.
  - intros k. rewrite Hre, list_elem_of_filter, elem_of_set_iter, Hact.
    rewrite !elem_of_difference, elem_of_union, Hfr. specialize (Hold k).
    destruct (decide (lease_holders <$> leases st !! k = Some 1)), (decide (k ∈ old_keys st h)),
      (decide (k ∈ keys)); tauto.
  - intros k Hk1 Hk2. rewrite Hl. unfold new_lease, dropped.
    rewrite Hact in Hk2. apply elem_of_difference in Hk2 as [_ Hk2]. rewrite Hfr in Hk2.
    destruct (decide (k ∈ keys ∖ old_keys st h)); [done|].
    destruct (decide (k ∈ old_keys st h ∖ keys)) as [Ho%elem_of_difference|]; [|done].
    destruct (leases st !! k) as [l|]; simpl in *; [|done].
    destruct (Z.eqb_spec (lease_holders l) 1) as [Hone|]; [|done]. rewrite Hone in Hk2. tauto.
Qed.

Lemma lease_change_exact_witness : exists ch st',
  set_holder "display:1" {[ KTopic "b" ]} demo_leases = Some (Ok ch, st') /\ released ch = [KChannel "a" "c"] /\
  (forall k, k ∈ started ch <-> k ∈ active (holders st') /\ k ∉ active (holders demo_leases)).
Proof.
  assert (H : match set_holder "display:1" {[ KTopic "b" ]} demo_leases with
    | Some (Ok ch, _) => bool_decide (released ch = [KChannel "a" "c"]) | _ => false end = true) by by_vm.
  destruct (set_holder "display:1" {[ KTopic "b" ]} demo_leases) as [[[ch|] st']|] eqn:E; [|discriminate H..].
  exists ch, st'. split; [reflexivity|]. split; [exact (bool_decide_eq_true_1 _ H)|].
  exact (proj1 (proj2 (proj2 (lease_change_exact demo_leases "display:1" {[ KTopic "b" ]} _ _ demo_leases_wf E)))).
Defined.

(** C22: no call sequence on the leases panics, exceeds the limit or leaks a task: every task that was
    started is stopped or aborted exactly once, or is the task of a current lease, whatever the
    rest of the service answers while tasks start. *)
Theorem no_task_leaks cs :
  exists eff st, run_calls cs empty_leases = Some (eff, st) /\ leases_wf st /\
    Z.of_nat (size (lease_keys st)) <= MAX_ACTIVE_SCOPES /\
    tasks_started eff ≡ₚ tasks_ended eff ++ slots_of (leases st).
Proof.
  destruct (run_calls_ok cs empty_leases empty_leases_wf) as (eff & st & Hr & Hwf & Hb).
  exists eff, st. split_and!; try done.
  - unfold lease_keys. rewrite size_dom. apply (lw_cap st Hwf).
  - unfold balanced in Hb. by rewrite app_nil_r in Hb.
Qed.

(** restarting subscriptions keeps every holder and lease, gives each matching lease the task
    started for it and leaves the others alone; a hint topic is left (its old task is stopped
    rather than aborted) only when the new task does not use the same hint topic. *)
Theorem restart_keeps_gossip sp ms st eff st' :
  leases_wf st -> restart_scope_subscriptions sp ms st = (eff, st') ->
  leases_wf st' /\ holders st' = holders st /\
  (forall k, leases st' !! k =
     if ms k then (fun l => {| lease_holders := lease_holders l; lease_task := start_scope_task sp k |})
                    <$> leases st !! k
     else leases st !! k) /\
  (forall t, StopTask t ∈ eff <->
     exists k, ms k = true /\ leases st !! k ≫= lease_task = Some t /\
               hint_topic <$> start_scope_task sp k <> Some (hint_topic t)).
Proof.
  intros Hwf. unfold restart_scope_subscriptions. set (ks := filter _ _).
  assert (Hnd : NoDup ks) by apply NoDup_filter, NoDup_elements.
  assert (Hin : forall k, k ∈ ks <-> ms k = true /\ is_Some (leases st !! k)).
  { intros k. unfold ks, lease_keys. by rewrite list_elem_of_filter, elem_of_elements, elem_of_dom. }
  intros Hr. pose proof (restart_all_ok sp ks st Hwf) as Hok. rewrite Hr in Hok.
  destruct Hok as (? & _ & ? & _). split_and!; [done | done | |].
  - intros k. destruct (restart_all_effects sp ks st {| task_handle := 0; hint_topic := None |} Hnd) as [_ Hl].
    rewrite Hr in Hl. simpl in Hl. rewrite Hl. specialize (Hin k).
    destruct (decide (k ∈ ks)) as [Hk|Hk], (ms k) eqn:Em; try done; [naive_solver|].
    destruct (leases st !! k) as [l|]; [|done]. exfalso. apply Hk, Hin. eauto.
  - intros t. destruct (restart_all_effects sp ks st t Hnd) as [He _]. rewrite Hr in He. simpl in He.
    rewrite He. unfold leaves_topic. split; intros (k & Hk & Ht & ?); exists k.
    + apply Hin in Hk as [? _]. done.
    + split_and!; try done. apply Hin. split; [done|]. destruct (leases st !! k); [eauto|done].
Qed.

Lemma restart_keeps_gossip_witness :
  let r := restart_scope_subscriptions demo_spawner (fun _ => true) demo_leases in
  leases_wf r.2 /\ holders r.2 = holders demo_leases.
Proof.
  intros r.
  destruct (restart_keeps_gossip demo_spawner (fun _ => true) demo_leases r.1 r.2 demo_leases_wf) as (? & ? & _).
  - subst r. by destruct (restart_scope_subscriptions demo_spawner (fun _ => true) demo_leases).
  - split; assumption.
Defined.

(** [unsubscribe_topic] removes exactly the [desired:] holders that hold a key of the topic: afterwards
    no such holder holds the topic, and every other holder (an open column, a live, a Dome or a joined
    channel) keeps its keys; it starts nothing. *)
Theorem unsubscribe_topic_exact topic st :
  leases_wf st ->
  exists eff st', unsubscribe_topic topic st = Some (eff, st') /\ leases_wf st' /\ tasks_started eff = [] /\
  forall h, holders st' !! h =
    match holders st !! h with
    | Some ks => if String.prefix "desired:" h && existsb (fun k => bool_decide (scope_key_topic k = Some topic)) (elements ks)
                 then None else Some ks
    | None => None
    end.
Proof.
  intros Hwf. unfold unsubscribe_topic. set (ms := fun k => bool_decide (scope_key_topic k = Some topic)).
  destruct (release_each_ok (holders_with ["desired:"] ms st) st Hwf) as (eff & st' & -> & ? & _ & Hh & Hs).
  exists eff, st'. split_and!; try done. intros h. rewrite Hh.
  pose proof (elem_of_holders_with ["desired:"] ms st h) as Hw.
  destruct (holders st !! h) as [ks|] eqn:E; [|by case_decide].
  assert (Hex : existsb ms (elements ks) = true <-> exists k, k ∈ ks /\ ms k = true).
  { rewrite existsb_exists. by setoid_rewrite <- list_elem_of_In; setoid_rewrite elem_of_elements. }
  cbn [existsb] in Hw. rewrite orb_false_r in Hw.
  case_decide as Hin.
  - apply Hw in Hin as (ks' & [= <-] & -> & Hk). apply Hex in Hk as ->. done.
  - destruct (String.prefix "desired:" h) eqn:Ep; [|done]. destruct (existsb ms (elements ks)) eqn:Ee; [|done].
    exfalso. apply Hin, Hw. exists ks. split_and!; [done.. | by apply Hex].
Qed.

Lemma unsubscribe_topic_exact_witness :
  leases_wf demo_leases /\
  exists eff st', unsubscribe_topic "a" demo_leases = Some (eff, st') /\
    holders st' !! "desired:a" = None /\ holders st' !! "display:1" = holders demo_leases !! "display:1".
Proof.
  split; [apply demo_leases_wf|].
  destruct (unsubscribe_topic_exact "a" demo_leases demo_leases_wf) as (eff & st' & Hu & _ & _ & Hh).
  exists eff, st'. split; [exact Hu|]. rewrite !Hh. split; by_vm.
Defined.

(** the holder of a desired public topic and of a desired channel of another topic can be the same
    name, because topics may contain the separator: desiring the second scope then drops the lease
    of the first topic, and releasing either releases both. *)
Theorem desired_holders_collide :
  exists st1 st2, let access := fun _ _ => true in
  (set_desired_scope demo_spawner access (fun _ => true) "a::b" SPublic true empty_leases ≫= fun r => Some r.2) = Some st1 /\
  (set_desired_scope demo_spawner access (fun _ => true) "a" (SChannel "b") true st1 ≫= fun r => Some r.2) = Some st2 /\
  KTopic "a::b" ∈ lease_keys st1 /\ KTopic "a::b" ∉ lease_keys st2.
Proof.
  assert (H : match set_desired_scope demo_spawner (fun _ _ => true) (fun _ => true) "a::b" SPublic true empty_leases with
    | Some (_, st1) =>
        match set_desired_scope demo_spawner (fun _ _ => true) (fun _ => true) "a" (SChannel "b") true st1 with
        | Some (_, st2) => bool_decide (KTopic "a::b" ∈ lease_keys st1) && bool_decide (KTopic "a::b" ∉ lease_keys st2)
        | None => false
        end
    | None => false
    end = true) by by_vm.
  destruct (set_desired_scope demo_spawner _ _ "a::b" SPublic true empty_leases) as [[e1 st1]|] eqn:E1; [|discriminate H].
  destruct (set_desired_scope demo_spawner _ _ "a" (SChannel "b") true st1) as [[e2 st2]|] eqn:E2; [|discriminate H].
  apply andb_prop in H as [H1%bool_decide_eq_true H2%bool_decide_eq_true].
  exists st1, st2. cbv zeta. rewrite E1, E2. split; [reflexivity|]. split; [reflexivity|]. split; assumption.
Qed.
