(* ===== verification/Replicas.v ===== *)
(** * Replica names, buckets and access (crates/docs-sync: buckets.rs, keys.rs,
    replicas.rs, access.rs; crates/core: wire.rs, public_channels.rs)

    Posts live in replicas named by strings: the older [topic::]/[channel::] names
    and the versioned time buckets.  The name decides whether a replica is public
    (its namespace secret is derived from the name) or private (the secret must be
    registered or derived from an epoch secret).  The crates [hex] and [blake3] are
    not part of the repository: they are the interfaces [HexCrate] and
    [Blake3Crate], with the documented behaviour of [hex] in [HexCrateLaws]. *)
From S2P Require Import Prelude RustStr.

(** ** Interfaces *)
Class HexCrate := {
  hex_encode : string -> string;
  hex_decode : string -> option string
}.

(** [encode] prints two lower-case digits per byte; [decode] is its inverse. *)
Class HexCrateLaws `{HexCrate} := {
  hex_decode_encode : forall b, hex_decode (hex_encode b) = Some b;
  hex_encode_lower : forall b, str_all is_lower_hex (hex_encode b) = true;
  hex_encode_length : forall b, String.length (hex_encode b) = (2 * String.length b)%nat;
  hex_encode_decode : forall v b,
    hex_decode v = Some b -> str_all is_lower_hex v = true -> hex_encode b = v
}.

Class Blake3Crate := {
  blake3_hash : string -> string;
  (** [blake3::Hasher::new_keyed(key)] over the concatenated updates. *)
  blake3_keyed : string -> string -> string
}.

(** ** buckets.rs *)
Definition BUCKET_SECONDS_V1 : Z := 86400.
Definition MAX_SCOPE_BYTES : Z := 1024.
Definition MAX_REPLICA_BYTES : Z := 4 * MAX_SCOPE_BYTES + 96.
Definition PRIVATE_KEY_CONTEXT : string := "kukuri.app docs bucket namespace v1" ++s String zero "".

Record TimeBucket := { index : Z }.
#[export] Instance TimeBucket_eq_dec : EqDecision TimeBucket.
Proof. solve_decision. Defined.

Definition MAX_BUCKET_INDEX : Z := i64_max / BUCKET_SECONDS_V1.

Definition from_index (i : Z) : result string TimeBucket :=
  if i <=? MAX_BUCKET_INDEX then Ok {| index := i |} else Err "bucket index exceeds the timestamp range".

Definition from_unix_seconds (seconds : Z) : result string TimeBucket :=
  if 0 <=? seconds then from_index (seconds / BUCKET_SECONDS_V1)
  else Err "bucket timestamp must not be negative".

Definition start_seconds (b : TimeBucket) : Z := index b * BUCKET_SECONDS_V1.
Definition end_seconds (b : TimeBucket) : Z := (index b + 1) * BUCKET_SECONDS_V1.
Definition previous (b : TimeBucket) : option TimeBucket :=
  if 1 <=? index b then Some {| index := index b - 1 |} else None.
Definition live_window (b : TimeBucket) : list TimeBucket := b :: option_list (previous b).
Definition bucket_contains (b : TimeBucket) (unix_seconds : Z) : bool :=
  (0 <=? unix_seconds) && ((start_seconds b <=? unix_seconds) && (unix_seconds <? end_seconds b)).

Inductive BucketScope :=
| BTopic (topic_id : string)
| BPrivateChannel (channel_id epoch_id : string)
| BAuthor (author_pubkey : string).
#[export] Instance BucketScope_eq_dec : EqDecision BucketScope.
Proof. solve_decision. Defined.

Definition scope_part (v : string) : bool := negb (str_is_empty v) && (str_len v <=? MAX_SCOPE_BYTES).
Definition validate_scope (s : BucketScope) : result string unit :=
  if match s with
     | BTopic t => scope_part t
     | BAuthor a => scope_part a
     | BPrivateChannel c e => scope_part c && scope_part e
     end
  then Ok tt else Err "bucket scope must contain 1..=1024 UTF-8 bytes".

Record BucketReplica := { scope : BucketScope; bucket : TimeBucket }.

Definition bucket_replica_new (s : BucketScope) (b : TimeBucket) : result string BucketReplica :=
  _ ← validate_scope s; Ok {| scope := s; bucket := b |}.

Definition is_private (r : BucketReplica) : bool :=
  match scope r with BPrivateChannel _ _ => true | _ => false end.

Section buckets.
Context `{HexCrate} `{Blake3Crate}.

Definition scope_name (s : BucketScope) : string :=
  match s with
  | BTopic t => "topic::" ++s hex_encode t
  | BAuthor a => "author::" ++s hex_encode a
  | BPrivateChannel c e => "channel::" ++s hex_encode c ++s "::" ++s hex_encode e
  end.

Definition replica_id (r : BucketReplica) : string :=
  "bucket::v1::" ++s scope_name (scope r) ++s "::" ++s dec (index (bucket r)).

Definition decode_part (v : string) : result string string :=
  if negb (str_is_empty v) && (str_len v <=? MAX_SCOPE_BYTES * 2) && str_all is_lower_hex v then
    b ← ok_of_option "hex" (hex_decode v);
    if valid_utf8 b then Ok b else Err "utf8"
  else Err "bucket scope is not canonical hexadecimal".

Definition parse_parts (parts : list string) : result string (BucketScope * string) :=
  match parts with
  | [kind; a; i] =>
      if decide (kind = "topic") then t ← decode_part a; Ok (BTopic t, i)
      else if decide (kind = "author") then t ← decode_part a; Ok (BAuthor t, i)
      else Err "invalid bucket replica shape"
  | [kind; c; e; i] =>
      if decide (kind = "channel") then
        c ← decode_part c; e ← decode_part e; Ok (BPrivateChannel c e, i)
      else Err "invalid bucket replica shape"
  | _ => Err "invalid bucket replica shape"
  end.

Definition bucket_parse (raw : string) : result string BucketReplica :=
  _ ← ensure (str_len raw <=? MAX_REPLICA_BYTES) "bucket replica id is too long";
  rest ← ok_of_option "unsupported bucket replica version" (strip_prefix "bucket::v1::" raw);
  '(s, i) ← parse_parts (split "::" rest);
  n ← ok_of_option "index" (parse_u64 i);
  b ← from_index n;
  _ ← ensure (bool_decide (i = dec (index b))) "bucket index is not canonical";
  bucket_replica_new s b.

Definition derive_private_secret (r : BucketReplica) (epoch_secret : string) : result string string :=
  _ ← ensure (is_private r) "only private buckets derive epoch secrets";
  Ok (blake3_keyed epoch_secret (PRIVATE_KEY_CONTEXT ++s replica_id r)).

(** ** replicas.rs *)
Definition ACCOUNT_SYNC_REPLICA_PREFIX : string := "account::v1::".

Definition ok_opt {E A} (r : result E A) : option A := match r with Ok a => Some a | Err _ => None end.

Definition public_replica_secret (id : string) : option string :=
  if starts_with "channel::" id || starts_with ACCOUNT_SYNC_REPLICA_PREFIX id then None
  else
    let derived := Some (blake3_hash ("kukuri-docs:" ++s id)) in
    if starts_with "bucket::" id then
      r ← ok_opt (bucket_parse id);
      if is_private r then None else derived
    else derived.

Definition topic_replica_id (t : string) : string := "topic::" ++s t.
Definition private_channel_replica_id (c : string) : string := "channel::" ++s c.
Definition private_channel_epoch_replica_id (c e : string) : string :=
  "channel::" ++s c ++s "::epoch::" ++s e.
Definition private_channel_replica_for_epoch (c e : string) : string :=
  if decide (e = "legacy") then private_channel_replica_id c else private_channel_epoch_replica_id c e.
Definition author_replica_id (a : string) : string := "author::" ++s a.
Definition device_replica_id (a d : string) : string := "device::" ++s a ++s "::" ++s d.

Inductive PostReplicaKind :=
| PublicTopic (topic_id : string)
| PrivateChannel (channel_id : string).

Definition well_formed_part (p : string) : bool := negb (str_is_empty p) && negb (contains "::" p).

Definition post_replica_kind (raw : string) : option PostReplicaKind :=
  if starts_with "bucket::" raw then
    r ← ok_opt (bucket_parse raw);
    match scope r with
    | BTopic t => Some (PublicTopic t)
    | BPrivateChannel c _ => Some (PrivateChannel c)
    | BAuthor _ => None
    end
  else match strip_prefix "topic::" raw with
  | Some t => if str_is_empty t then None else Some (PublicTopic t)
  | None =>
      rest ← strip_prefix "channel::" raw;
      let '(c, e) := match split_once "::epoch::" rest with
                     | Some (c, e) => (c, Some e)
                     | None => (rest, None)
                     end in
      if well_formed_part c && match e with Some e => well_formed_part e | None => true end
      then Some (PrivateChannel c) else None
  end.

Definition private_channel_epoch_of (raw : string) : option (string * string) :=
  if starts_with "bucket::" raw then
    r ← ok_opt (bucket_parse raw);
    match scope r with BPrivateChannel c e => Some (c, e) | _ => None end
  else
    rest ← strip_prefix "channel::" raw;
    let '(c, e) := default (rest, "legacy") (split_once "::epoch::" rest) in
    if well_formed_part c && well_formed_part e then Some (c, e) else None.

(** ** access.rs *)
Definition parse_namespace_secret_hex (v : string) : option string :=
  b ← hex_decode (trim v);
  if str_len b =? 32 then Some b else None.

Definition registered_private_secret (id : string) (secrets : gmap string string) : option string :=
  match secrets !! id with
  | Some s => Some s
  | None =>
      r ← ok_opt (bucket_parse id);
      match scope r with
      | BPrivateChannel c e =>
          epoch ← secrets !! private_channel_replica_for_epoch c e;
          ok_opt (derive_private_secret r epoch)
      | _ => None
      end
  end.

(** The registered secrets, and the source of epoch secrets when one is installed. *)
Record PrivateSecrets := {
  registered : gmap string string;
  epochs : option (string -> string -> option string)
}.

Definition install_epoch_secrets (source : string -> string -> option string) (ps : PrivateSecrets)
    : PrivateSecrets :=
  {| registered := registered ps; epochs := Some source |}.

Definition secret (ps : PrivateSecrets) (id : string) : option string :=
  match registered_private_secret id (registered ps) with
  | Some s => Some s
  | None =>
      '(c, e) ← private_channel_epoch_of id;
      source ← epochs ps;
      hex ← source c e;
      epoch ← parse_namespace_secret_hex hex;
      if starts_with "bucket::" id then
        r ← ok_opt (bucket_parse id);
        ok_opt (derive_private_secret r epoch)
      else Some epoch
  end.

Definition ensure_private_replica_access (id : string) (ps : PrivateSecrets) : result string unit :=
  _ ← (if starts_with "bucket::" id then _ ← bucket_parse id; Ok tt else Ok tt);
  match public_replica_secret id with
  | Some _ => Ok tt
  | None =>
      match secret ps id with
      | Some _ => Ok tt
      | None => Err "private replica capability is not registered"
      end
  end.
End buckets.

(** ** keys.rs *)
Inductive SharedReplicaKeyFamily :=
| PostObject | PostWithdrawal | LinkPreview | MediaManifest | TimelineIndex | ThreadIndex
| Reaction | Envelope | Session | Channel | Metaverse.

Definition ALL_FAMILIES : list SharedReplicaKeyFamily :=
  [PostObject; PostWithdrawal; LinkPreview; MediaManifest; TimelineIndex; ThreadIndex;
   Reaction; Envelope; Session; Channel; Metaverse].

Definition family_prefix (f : SharedReplicaKeyFamily) : string :=
  match f with
  | PostObject => "objects/"
  | PostWithdrawal => "withdrawals/"
  | LinkPreview => "link-previews/"
  | MediaManifest => "manifests/media/"
  | TimelineIndex => "indexes/timeline/"
  | ThreadIndex => "indexes/thread/"
  | Reaction => "reactions/"
  | Envelope => "envelopes/"
  | Session => "sessions/"
  | Channel => "channels/"
  | Metaverse => "metaverse/"
  end.

Definition family_parse (key : string) : option (SharedReplicaKeyFamily * string) :=
  foldr (fun f acc => match strip_prefix (family_prefix f) key with
                      | Some rest => Some (f, rest)
                      | None => acc
                      end) None ALL_FAMILIES.

(** ** wire.rs *)
Definition HINT_TOPIC_PREFIX : string := "hint/".
Definition DM_TOPIC_PREFIX : string := "kukuri:dm:".
Definition ACCOUNT_SYNC_TOPIC_PREFIX : string := "kukuri:account:".

Definition is_non_public_topic (topic : string) : bool :=
  let topic := default topic (strip_prefix HINT_TOPIC_PREFIX topic) in
  existsb (fun p => starts_with p topic)
    ["private/"; "public-channel/"; DM_TOPIC_PREFIX; ACCOUNT_SYNC_TOPIC_PREFIX].

Definition hint_topic_id (topic : string) : string := HINT_TOPIC_PREFIX ++s topic.

(** ** public_channels.rs *)
Definition PUBLIC_CHANNEL_OWNER_SUFFIX_LEN : nat := 16.

Definition public_channel_created_at_ms (id : string) : option Z :=
  rest ← strip_prefix "pc-" id;
  '(millis, suffix) ← split_once "-" rest;
  if negb (starts_with "0" millis) && str_all is_ascii_digit millis
     && (str_len suffix =? Z.of_nat PUBLIC_CHANNEL_OWNER_SUFFIX_LEN) && str_all is_lower_hex suffix
  then n ← parse_i64 millis; if 0 <? n then Some n else None
  else None.

Definition is_public_channel (id : string) : bool :=
  match public_channel_created_at_ms id with Some _ => true | None => false end.

(** [creator_pubkey.get(..16)]: the whole key when it is shorter or 16 is not a
    character boundary. *)
Definition str_get_to (n : nat) (s : string) : option string :=
  if (n <=? String.length s)%nat
     && match String.get n s with Some a => negb (cont a) | None => true end
  then Some (String.substring 0 n s) else None.

(** [format!("{created_at_ms}")] of an [i64]. *)
Definition dec_i64 (n : Z) : string := if n <? 0 then "-" ++s dec (- n) else dec n.

Definition public_channel (created_at_ms : Z) (creator_pubkey : string) : string :=
  "pc-" ++s dec_i64 created_at_ms ++s "-"
    ++s default creator_pubkey (str_get_to PUBLIC_CHANNEL_OWNER_SUFFIX_LEN creator_pubkey).

Definition is_public_channel_of (id creator_pubkey : string) : bool :=
  is_public_channel id
  && match rsplit_once "-" id with Some (_, suffix) => starts_with suffix creator_pubkey | None => false end.

(** ** Time buckets *)
Definition bucket_ok (b : TimeBucket) : Prop := 0 <= index b <= MAX_BUCKET_INDEX.

Lemma from_index_ok i b : from_index i = Ok b -> b = {| index := i |} /\ i <= MAX_BUCKET_INDEX.
Proof. unfold from_index. case_match; intros [= <-]; split; [done | lia]. Qed.

Lemma bucket_index_u64 b : bucket_ok b -> 0 <= index b <= u64_max.
Proof.
  unfold bucket_ok. assert (MAX_BUCKET_INDEX <= u64_max) by (vm_compute; discriminate). lia.
Qed.

(** ** Parts of a replica id *)
Definition part_ok (s : string) : Prop := scope_part s = true /\ valid_utf8 s = true.

(** What a Rust [BucketReplica] value satisfies: strings are UTF-8, the constructor
    validated the scope. *)
Definition replica_ok (r : BucketReplica) : Prop :=
  bucket_ok (bucket r) /\
  match scope r with
  | BTopic t => part_ok t
  | BAuthor a => part_ok a
  | BPrivateChannel c e => part_ok c /\ part_ok e
  end.

Lemma lower_hex_not_colon a : is_lower_hex a = true -> negb (bool_decide (a = ":"%char)) = true.
Proof. intros Ha. rewrite bool_decide_false; [done|]. intros ->. discriminate Ha. Qed.

Lemma digit_lower_hex a : is_ascii_digit a = true -> is_lower_hex a = true.
Proof. unfold is_lower_hex. by intros ->. Qed.

Lemma lower_hex_lacks s : str_all is_lower_hex s = true -> lacks ":" s = true.
Proof. apply str_all_impl, lower_hex_not_colon. Qed.

Lemma dec_lacks n : lacks ":" (dec n) = true.
Proof. apply lower_hex_lacks, (str_all_impl is_ascii_digit), pad_digits_digits. apply digit_lower_hex. Qed.

Section roundtrip.
Context `{HexCrateLaws} `{Blake3Crate}.

Lemma decode_part_encode s : part_ok s -> decode_part (hex_encode s) = Ok s.
Proof.
  intros [Hs Hu]. unfold scope_part in Hs. apply andb_prop in Hs as [Hne Hlen].
  unfold decode_part. rewrite hex_encode_lower, hex_decode_encode. simpl. rewrite Hu.
  assert (Hl : str_len (hex_encode s) = 2 * str_len s) by (unfold str_len; rewrite hex_encode_length; lia).
  rewrite Hl. assert (str_is_empty (hex_encode s) = false) as ->.
  { destruct (hex_encode s) eqn:E; [|done]. exfalso.
    destruct s as [|a s]; [done|]. pose proof (hex_encode_length (String a s)) as Hz.
    rewrite E in Hz. simpl in Hz. lia. }
  simpl. destruct (Z.leb_spec (2 * str_len s) (MAX_SCOPE_BYTES * 2)); [done|]. lia.
Qed.

Lemma decode_part_ok v s :
  decode_part v = Ok s -> hex_encode s = v /\ part_ok s /\ str_all is_lower_hex v = true.
Proof.
  unfold decode_part. case_match eqn:E; [|done]. apply andb_prop in E as [[Hne Hlen]%andb_prop Hlow].
  intros (b & Hb%ok_of_option_ok & Hs)%result_bind_ok. case_match eqn:Eu; [|done]. injection Hs as <-.
  pose proof (hex_encode_decode v b Hb Hlow) as He. subst v. split_and!; try done. split; [|done].
  unfold scope_part. unfold str_len, MAX_SCOPE_BYTES in *. rewrite hex_encode_length in Hlen. apply andb_true_intro. split; [|]. 2: { apply Z.leb_le in Hlen. apply Z.leb_le. clear -Hlen. lia. }
  destruct b; [|done]. pose proof (hex_encode_length "") as Hl. simpl in Hl. by destruct (hex_encode "").
Qed.

Lemma split_replica_id r :
  split "::" (scope_name (scope r) ++s "::" ++s dec (index (bucket r))) =
  match scope r with
  | BTopic t => ["topic"; hex_encode t; dec (index (bucket r))]
  | BAuthor a => ["author"; hex_encode a; dec (index (bucket r))]
  | BPrivateChannel c e => ["channel"; hex_encode c; hex_encode e; dec (index (bucket r))]
  end.
Proof.
  assert (Hh : forall s, lacks ":" (hex_encode s) = true) by (intros; apply lower_hex_lacks, hex_encode_lower).
  set (i := dec (index (bucket r))). assert (Hi : lacks ":" i = true) by apply dec_lacks. clearbody i.
  destruct (scope r) as [t|c e|a]; unfold scope_name.
  - change (("topic::" ++s hex_encode t) ++s "::" ++s i)
      with ("topic" ++s "::" ++s (hex_encode t ++s "::" ++s i)).
    by rewrite split_cons, split_cons, split_last.
  - change (("channel::" ++s hex_encode c ++s "::" ++s hex_encode e) ++s "::" ++s i)
      with ("channel" ++s "::" ++s ((hex_encode c ++s "::" ++s hex_encode e) ++s "::" ++s i)).
    rewrite (str_app_assoc (hex_encode c)), (str_app_assoc "::").
    by rewrite split_cons, split_cons, split_cons, split_last.
  - change (("author::" ++s hex_encode a) ++s "::" ++s i)
      with ("author" ++s "::" ++s (hex_encode a ++s "::" ++s i)).
    by rewrite split_cons, split_cons, split_last.
Qed.

Lemma replica_id_length r : replica_ok r -> str_len (replica_id r) <= MAX_REPLICA_BYTES.
Proof.
  intros [Hb Hs]. unfold replica_id, str_len. rewrite !str_app_length.
  assert (Hi : (String.length (dec (index (bucket r))) <= 20)%nat).
  { unfold dec. rewrite pad_digits_length. destruct (ndigits_bounds _ (bucket_index_u64 _ Hb)). lia. }
  assert (Hp : forall s, part_ok s -> Z.of_nat (String.length (hex_encode s)) <= 2048).
  { intros s [[_ Hl]%andb_prop _]. rewrite hex_encode_length. unfold str_len, MAX_SCOPE_BYTES in Hl. lia. }
  unfold MAX_REPLICA_BYTES, MAX_SCOPE_BYTES, scope_name.
  destruct (scope r) as [t|c e|a]; rewrite ?str_app_length; cbn [String.length];
    [specialize (Hp t Hs) | destruct Hs as [Hc He]; pose proof (Hp c Hc); pose proof (Hp e He) | specialize (Hp a Hs)];
    lia.
Qed.

Lemma bucket_parse_id r : replica_ok r -> bucket_parse (replica_id r) = Ok r.
Proof.
  intros Hr. pose proof (replica_id_length r Hr) as Hlen. destruct Hr as [Hb Hs].
  unfold bucket_parse. destruct (Z.leb_spec (str_len (replica_id r)) MAX_REPLICA_BYTES); [|lia]. simpl ensure.
  cbn [mbind result_bind]. unfold replica_id. rewrite strip_prefix_app. cbn [ok_of_option mbind result_bind].
  rewrite split_replica_id.
  assert (Htail : forall s, match validate_scope s with Ok _ => True | Err _ => False end -> s = scope r ->
    (n ← ok_of_option "index" (parse_u64 (dec (index (bucket r))));
     b ← from_index n;
     _ ← ensure (bool_decide (dec (index (bucket r)) = dec (index b))) "bucket index is not canonical";
     bucket_replica_new s b) = Ok r).
  { intros s Hv ->. rewrite parse_u64_dec by (by apply bucket_index_u64). cbn [ok_of_option mbind result_bind].
    unfold from_index. destruct Hb as [Hb0 Hb1]. destruct (Z.leb_spec (index (bucket r)) MAX_BUCKET_INDEX); [|lia].
    cbn [mbind result_bind index]. rewrite bool_decide_true by done. cbn [ensure mbind result_bind].
    unfold bucket_replica_new. destruct (validate_scope (scope r)); [|done]. simpl. destruct r as [sc [i]]. done. }
  destruct (scope r) as [t|c e|a] eqn:E; unfold parse_parts; cbn [decide];
    rewrite ?decide_True by done.
  - rewrite decode_part_encode by done. cbn [mbind result_bind]. apply Htail; [|done].
    destruct Hs as [Hs _]. unfold validate_scope. by rewrite Hs.
  - destruct Hs as [Hc He]. rewrite !decode_part_encode by done. cbn [mbind result_bind]. apply Htail; [|done].
    destruct Hc as [Hc _], He as [He _]. unfold validate_scope. by rewrite Hc, He.
  - rewrite decide_False by done. rewrite decide_True by done. rewrite decode_part_encode by done.
    cbn [mbind result_bind]. apply Htail; [|done].
    destruct Hs as [Hs _]. unfold validate_scope. by rewrite Hs.
Qed.
End roundtrip.
