(* ===== verification/ReplicasProps.v ===== *)
(** * What replica names guarantee

    Bucket names are canonical in both directions, private replicas are opened only
    with a secret that was registered or derived from an epoch secret, key families
    are disjoint, and buckets partition time. *)
From S2P Require Import Prelude RustStr Replicas.

(** ** A concrete [hex] for the witnesses *)
Definition hex_digit (d : Z) : ascii := ascii_of_nat (Z.to_nat (if d <? 10 then 48 + d else 87 + d)).
Definition hex_value (a : ascii) : option Z :=
  let n := Z.of_nat (nat_of_ascii a) in
  if (48 <=? n) && (n <=? 57) then Some (n - 48)
  else if (97 <=? n) && (n <=? 102) then Some (n - 87)
  else if (65 <=? n) && (n <=? 70) then Some (n - 55) else None.

Fixpoint hex_encode_ref (s : string) : string :=
  match s with
  | EmptyString => EmptyString
  | String a s =>
      let n := Z.of_nat (nat_of_ascii a) in
      String (hex_digit (n / 16)) (String (hex_digit (n mod 16)) (hex_encode_ref s))
  end.
Fixpoint hex_decode_ref (s : string) : option string :=
  match s with
  | EmptyString => Some EmptyString
  | String a (String b s) =>
      x ← hex_value a; y ← hex_value b; r ← hex_decode_ref s;
      Some (String (ascii_of_nat (Z.to_nat (16 * x + y))) r)
  | _ => None
  end.

#[export] Instance hex_ref : HexCrate := {| hex_encode := hex_encode_ref; hex_decode := hex_decode_ref |}.

Lemma hex_value_digit d : 0 <= d < 16 -> hex_value (hex_digit d) = Some d /\ is_lower_hex (hex_digit d) = true.
Proof.
  intros Hd.
  assert (Hall : forallb (fun d => bool_decide (hex_value (hex_digit d) = Some d) && is_lower_hex (hex_digit d))
    [0;1;2;3;4;5;6;7;8;9;10;11;12;13;14;15] = true) by (vm_compute; reflexivity).
  rewrite forallb_forall in Hall. specialize (Hall d). apply andb_prop in Hall as [H1 ?]; [|simpl; lia].
  by apply bool_decide_eq_true in H1.
Qed.

Lemma hex_digit_value a x : hex_value a = Some x -> is_lower_hex a = true -> 0 <= x < 16 /\ hex_digit x = a.
Proof.
  destruct a as [[] [] [] [] [] [] [] []]; vm_compute; intros [= <-] ?; try done; split; done || split; done.
Qed.

Lemma byte_bound a : 0 <= Z.of_nat (nat_of_ascii a) < 256.
Proof. pose proof (nat_ascii_bounded a). lia. Qed.

#[export] Instance hex_ref_laws : HexCrateLaws.
Proof.
  split; simpl.
  - induction b as [|a b IH]; cbn [hex_encode_ref hex_decode_ref]; [done|]. pose proof (byte_bound a) as Ha.
    set (n := Z.of_nat (nat_of_ascii a)) in *.
    destruct (hex_value_digit (n / 16)) as [-> _]; [split; [apply Z.div_pos; lia | apply Z.div_lt_upper_bound; lia]|].
    destruct (hex_value_digit (n mod 16)) as [-> _]; [apply Z.mod_pos_bound; lia|].
    cbn [mbind option_bind]. rewrite IH. cbn [mbind option_bind]. do 2 f_equal.
    rewrite <- Z.div_mod by lia. unfold n. rewrite Nat2Z.id. apply ascii_nat_embedding.
  - induction b as [|a b IH]; cbn [hex_encode_ref str_all]; [done|]. pose proof (byte_bound a) as Ha.
    set (n := Z.of_nat (nat_of_ascii a)) in *.
    destruct (hex_value_digit (n / 16)) as [_ ->]; [split; [apply Z.div_pos; lia | apply Z.div_lt_upper_bound; lia]|].
    destruct (hex_value_digit (n mod 16)) as [_ ->]; [apply Z.mod_pos_bound; lia|]. done.
  - induction b as [|a b IH]; cbn [hex_encode_ref String.length]; [done|]. rewrite IH. lia.
  - fix IH 1. intros v b. destruct v as [|a1 [|a2 v]]; cbn [hex_decode_ref str_all].
    + by intros [= <-].
    + done.
    + intros (x & Hx & (y & Hy & (r & Hr & [= <-])%bind_Some)%bind_Some)%bind_Some
        [H1 [H2 H3]%andb_prop]%andb_prop.
      destruct (hex_digit_value a1 x Hx H1) as [Hx' <-]. destruct (hex_digit_value a2 y Hy H2) as [Hy' <-].
      cbn [hex_encode_ref]. rewrite nat_ascii_embedding by lia. rewrite Z2Nat.id by lia.
      rewrite (IH v r Hr H3). f_equal; [|f_equal]; f_equal.
      * rewrite Z.mul_comm, Z.div_add_l, Z.div_small by lia. lia.
      * rewrite Z.mul_comm, Z.add_comm, Z.mod_add by lia. by apply Z.mod_small.
Qed.

(** A stand-in for blake3: the hash is the (keyed) input itself. *)
#[export] Instance blake3_ref : Blake3Crate := {|
  blake3_hash := fun s => "h:" ++s s;
  blake3_keyed := fun k s => k ++s ":" ++s s
|}.

(** ** Parsing is the inverse of naming *)
Section canonical.
Context `{HexCrateLaws} `{Blake3Crate}.

Lemma parse_parts_ok rest s i :
  parse_parts (split "::" rest) = Ok (s, i) ->
  rest = scope_name s ++s "::" ++s i /\
  match s with BTopic t => part_ok t | BAuthor a => part_ok a | BPrivateChannel c e => part_ok c /\ part_ok e end.
Proof.
  pose proof (split_join "::" rest) as Hj.
  destruct (split "::" rest) as [|k [|a [|b [|d [|? ?]]]]]; unfold parse_parts; try done;
    cbn [foldr] in Hj; injection Hj as <-.
  - repeat case_decide; subst; [| |done];
      intros (t & (<- & Ht & _)%decode_part_ok & [= <- <-])%result_bind_ok; (split; [|done]);
      unfold scope_name; by rewrite str_app_assoc.
  - case_decide; [|done]. subst k.
    intros (c & (<- & Hc & _)%decode_part_ok & (e & (<- & He & _)%decode_part_ok & [= <- <-])%result_bind_ok)%result_bind_ok.
    split; [|done]. unfold scope_name. by rewrite !str_app_assoc.
Qed.

Lemma bucket_parse_ok raw r : bucket_parse raw = Ok r -> replica_id r = raw /\ replica_ok r.
Proof.
  unfold bucket_parse.
  intros (? & _ & (rest & Hrest%ok_of_option_ok & ([s i] & Hp & (n & Hn%ok_of_option_ok & (b & Hb & (? & Hc%ensure_ok & Hr)%result_bind_ok)%result_bind_ok)%result_bind_ok)%result_bind_ok)%result_bind_ok)%result_bind_ok.
  apply strip_prefix_some in Hrest as ->. apply parse_parts_ok in Hp as [-> Hs].
  apply bool_decide_eq_true in Hc as ->. apply from_index_ok in Hb as [-> Hmax].
  unfold bucket_replica_new in Hr. apply result_bind_ok in Hr as (? & _ & [= <-]).
  split; [done|]. split; [|done]. split; [|done]. simpl in *.
  unfold parse_u64 in Hn. case_match; [done|]. apply bind_Some in Hn as (m & Hm & Hn).
  case_match; [|done]. injection Hn as ->.
  assert (Hdig : str_all is_ascii_digit (dec n) = true) by apply pad_digits_digits.
  assert (Hnp : (match dec n with String "+" r => r | _ => dec n end) = dec n).
  { destruct (dec n) as [|a s']; [done|]. apply digits_head_not in Hdig as [Ha _].
    destruct a as [[] [] [] [] [] [] [] []]; try done. }
  rewrite Hnp in Hm. destruct (parse_digits_some 0 (dec n) Hdig) as (v & Hv & Hpos & _). simplify_eq. lia.
Qed.

Lemma bucket_id_prefix r : starts_with "bucket::" (replica_id r) = true.
Proof. unfold replica_id. by change "bucket::v1::" with ("bucket::" ++s "v1::"); rewrite str_app_assoc, starts_with_app. Qed.

(** ** Private replicas *)

(** Replicas whose content is private by their name. *)
Definition private_name (id : string) : Prop :=
  starts_with "channel::" id = true \/ starts_with ACCOUNT_SYNC_REPLICA_PREFIX id = true \/
  exists r, id = replica_id r /\ replica_ok r /\ is_private r = true.

Lemma private_not_public id : private_name id -> public_replica_secret id = None.
Proof.
  unfold public_replica_secret. intros [-> | [-> | (r & -> & Hr & Hp)]]; [done | by rewrite orb_true_r |].
  case_match; [done|]. rewrite bucket_id_prefix, bucket_parse_id by done. simpl. by rewrite Hp.
Qed.

Lemma starts_with_bucket_channel id : starts_with "channel::" id = true -> starts_with "bucket::" id = false.
Proof. intros [r ->]%starts_with_true. done. Qed.

Lemma starts_with_bucket_account id :
  starts_with ACCOUNT_SYNC_REPLICA_PREFIX id = true -> starts_with "bucket::" id = false /\ starts_with "channel::" id = false.
Proof. intros [r ->]%starts_with_true. done. Qed.

Lemma not_bucket_parse id : starts_with "bucket::" id = false -> ok_opt (bucket_parse id) = None.
Proof.
  intros Hb. destruct (bucket_parse id) as [r|] eqn:E; [|done].
  apply bucket_parse_ok in E as [<- _]. by rewrite bucket_id_prefix in Hb.
Qed.

(** What opens the bucket of an epoch. *)
Definition epoch_secret_known (ps : PrivateSecrets) (c e : string) : Prop :=
  is_Some (registered ps !! private_channel_replica_for_epoch c e) \/
  exists source hex, epochs ps = Some source /\ source c e = Some hex /\ is_Some (parse_namespace_secret_hex hex).

Lemma private_bucket_secret ps r c e :
  replica_ok r -> scope r = BPrivateChannel c e ->
  is_Some (secret ps (replica_id r)) <->
    is_Some (registered ps !! replica_id r) \/ epoch_secret_known ps c e.
Proof.
  intros Hr Hs. unfold secret, registered_private_secret, private_channel_epoch_of, epoch_secret_known.
  rewrite bucket_id_prefix, bucket_parse_id by done. cbn [ok_opt mbind option_bind]. rewrite Hs.
  assert (Hd : forall x, ok_opt (derive_private_secret r x)
    = Some (blake3_keyed x (PRIVATE_KEY_CONTEXT ++s replica_id r))).
  { intros x. unfold derive_private_secret, is_private. by rewrite Hs. }
  destruct (registered ps !! replica_id r) as [k|]; [split; eauto|].
  destruct (registered ps !! private_channel_replica_for_epoch c e) as [k|]; cbn [mbind option_bind].
  { rewrite Hd. split; eauto. }
  destruct (epochs ps) as [source|] eqn:Ee; cbn [mbind option_bind].
  2: { split; [by intros [? ?] | intros [[? ?] | [[? ?] | (? & ? & ? & _)]]; done]. }
  destruct (source c e) as [hex|] eqn:Eh; cbn [mbind option_bind].
  2: { split; [by intros [? ?] | intros [[? ?] | [[? ?] | (? & ? & ? & ? & _)]]; congruence]. }
  destruct (parse_namespace_secret_hex hex) as [k|] eqn:Ek; cbn [mbind option_bind].
  - rewrite Hd. split; [intros _ | by eauto]. right; right. exists source, hex. rewrite Ek. eauto.
  - split; [by intros [? ?] | intros [[? ?] | [[? ?] | (? & ? & ? & ? & [? ?])]]; congruence].
Qed.
End canonical.

(** ** Epoch names *)
Lemma well_formed_part_contains p : well_formed_part p = true -> contains "::" p = false /\ p <> "".
Proof. unfold well_formed_part. intros [Hn Hc]%andb_prop. destruct_bools. split; [done|]. by intros ->. Qed.

Lemma channel_not_bucket r : starts_with "bucket::" ("channel::" ++s r) = false.
Proof. done. Qed.

(** ** Claims: bucket names *)

(** naming a bucket and parsing the name gives the bucket back, for every scope the constructor accepts. *)
Theorem bucket_id_roundtrip `{HexCrateLaws} (s : BucketScope) (b : TimeBucket) (r : BucketReplica) :
  bucket_replica_new s b = Ok r -> bucket_ok b ->
  match s with
  | BTopic t => valid_utf8 t = true
  | BAuthor a => valid_utf8 a = true
  | BPrivateChannel c e => valid_utf8 c = true /\ valid_utf8 e = true
  end ->
  bucket_parse (replica_id r) = Ok r.
Proof.
  unfold bucket_replica_new, validate_scope. intros (u & Hv & [= <-])%result_bind_ok Hb Hu.
  apply bucket_parse_id. split; [done|]. unfold part_ok. simpl.
  destruct s; simpl in *; case_match eqn:E; try done; destruct_bools; naive_solver.
Qed.

Lemma bucket_id_roundtrip_witness :
  bucket_parse (replica_id {| scope := BPrivateChannel "c::1" "epoch"; bucket := {| index := 20000 |} |})
  = Ok {| scope := BPrivateChannel "c::1" "epoch"; bucket := {| index := 20000 |} |}.
Proof.
  apply (bucket_id_roundtrip (BPrivateChannel "c::1" "epoch") {| index := 20000 |});
    [reflexivity | split; vm_compute; discriminate | split; reflexivity].
Defined.

(** a parsed bucket name is canonical: it is exactly the name of the bucket it denotes, whose scope and
    index are valid; so a bucket has one accepted name and a name denotes one bucket. *)
Theorem bucket_parse_canonical `{HexCrateLaws} raw r :
  bucket_parse raw = Ok r ->
  raw = replica_id r /\ bucket_ok (bucket r) /\ is_ok (validate_scope (scope r)) = true /\
  (forall raw', bucket_parse raw' = Ok r -> raw' = raw).
Proof.
  intros Hp. destruct (bucket_parse_ok raw r Hp) as [<- [Hb Hs]]. split_and!; try done.
  - unfold validate_scope. destruct (scope r); simpl in *; unfold part_ok in *; destruct_and?;
      repeat match goal with H : scope_part _ = true |- _ => rewrite H; clear H end; done.
  - intros raw' Hp'. by apply bucket_parse_ok in Hp' as [<- _].
Qed.

Lemma bucket_parse_canonical_witness : exists r, bucket_parse "bucket::v1::topic::61::7" = Ok r /\
  "bucket::v1::topic::61::7" = replica_id r.
Proof.
  exists {| scope := BTopic "a"; bucket := {| index := 7 |} |}.
  assert (Hp : bucket_parse "bucket::v1::topic::61::7" = Ok {| scope := BTopic "a"; bucket := {| index := 7 |} |})
    by (vm_compute; reflexivity).
  split; [exact Hp | exact (proj1 (bucket_parse_canonical _ _ Hp))].
Defined.

(** private replicas are never opened from their name alone: no namespace secret is derived from the name
    of a private channel, an account replica or a private bucket; access to one is granted exactly when a
    secret for it is known, and a private bucket is opened only with its own registered secret or a secret of
    its epoch. *)
Theorem private_replicas_need_a_secret `{HexCrateLaws} `{Blake3Crate} id ps :
  private_name id ->
  public_replica_secret id = None /\
  (ensure_private_replica_access id ps = Ok tt <-> is_Some (secret ps id)) /\
  (forall r c e, id = replica_id r -> replica_ok r -> scope r = BPrivateChannel c e ->
     (is_Some (secret ps id) <-> is_Some (registered ps !! id) \/ epoch_secret_known ps c e)).
Proof.
  intros Hp. pose proof (private_not_public id Hp) as Hn. split_and!; [done | |].
  - unfold ensure_private_replica_access. rewrite Hn.
    assert (Hok : (if starts_with "bucket::" id then _ ← bucket_parse id; Ok tt else Ok tt) = Ok tt).
    { destruct Hp as [Hc | [[Ha _]%starts_with_bucket_account | (r & -> & Hr & _)]].
      - by rewrite starts_with_bucket_channel.
      - by rewrite Ha.
      - by rewrite bucket_id_prefix, bucket_parse_id. }
    rewrite Hok. cbn [mbind result_bind]. destruct (secret ps id); split; intros; eauto; try done.
  - intros r c e -> Hr Hs. by apply private_bucket_secret.
Qed.

Lemma private_replicas_need_a_secret_witness :
  ensure_private_replica_access "channel::c" {| registered := ∅; epochs := None |} <> Ok tt.
Proof.
  destruct (private_replicas_need_a_secret "channel::c" {| registered := ∅; epochs := None |})
    as (_ & [Ha _] & _); [left; reflexivity|].
  intros Ho. destruct (Ha Ho) as [s Hs]. vm_compute in Hs. discriminate Hs.
Defined.

(** the epoch names of private channels are read back as the channel and epoch they were built from, and the
    only other name read as that epoch is the explicit spelling of the first epoch. *)
Theorem private_channel_names `{HexCrate} c e raw :
  well_formed_part c = true -> well_formed_part e = true ->
  private_channel_epoch_of (private_channel_replica_for_epoch c e) = Some (c, e) /\
  post_replica_kind (private_channel_replica_for_epoch c e) = Some (PrivateChannel c) /\
  (starts_with "bucket::" raw = false -> private_channel_epoch_of raw = Some (c, e) ->
     raw = private_channel_replica_for_epoch c e \/ (e = "legacy" /\ raw = private_channel_epoch_replica_id c "legacy")).
Proof.
  intros Hc He. destruct (well_formed_part_contains c Hc) as [Hcc _].
  unfold private_channel_epoch_of, post_replica_kind.
  assert (Hs : split_once "::epoch::" (c ++s "::epoch::" ++s e) = Some (c, e)) by by apply split_once_doubled.
  assert (Hn : split_once "::epoch::" c = None) by by apply contains_split_once_doubled.
  assert (Hstrip : forall x, strip_prefix "channel::" ("channel::" ++s x) = Some x) by (intros; apply strip_prefix_app).
  assert (Htopic : forall x, strip_prefix "topic::" ("channel::" ++s x) = None) by done.
  unfold private_channel_replica_for_epoch, private_channel_replica_id, private_channel_epoch_replica_id.
  split_and!.
  - case_decide; rewrite channel_not_bucket, Hstrip; cbn [mbind option_bind].
    + subst e. rewrite Hn. simpl. by rewrite Hc.
    + rewrite Hs. simpl. by rewrite Hc, He.
  - case_decide; rewrite channel_not_bucket, Htopic, Hstrip; cbn [mbind option_bind].
    + rewrite Hn. simpl. by rewrite Hc.
    + rewrite Hs. simpl. by rewrite Hc, He.
  - intros -> (rest & Hr%strip_prefix_some & Hx)%bind_Some. subst raw.
    destruct (split_once "::epoch::" rest) as [[c' e']|] eqn:E; simpl in Hx.
    + case_match; [|done]. injection Hx as -> ->. apply split_once_spec in E as ->.
      case_decide; [right; by subst | by left].
    + case_match; [|done]. injection Hx as -> <-. by rewrite decide_True; [left|].
Qed.

Lemma private_channel_names_witness :
  private_channel_epoch_of (private_channel_replica_for_epoch "room" "e2") = Some ("room", "e2").
Proof. exact (proj1 (private_channel_names "room" "e2" "" eq_refl eq_refl)). Defined.

(** the key families of shared replicas are disjoint: a key is parsed to the one family whose prefix it has,
    with the rest of the key. *)
Theorem key_family_unique key f rest :
  family_parse key = Some (f, rest) <-> key = family_prefix f ++s rest.
Proof.
  split.
  - unfold family_parse, ALL_FAMILIES. cbn [foldr].
    repeat (match goal with |- context [strip_prefix ?p key] => destruct (strip_prefix p key) eqn:E end;
      [intros [= <- <-]; by apply strip_prefix_some in E | clear E]). done.
  - intros ->. unfold family_parse, ALL_FAMILIES. cbn [foldr]. by destruct f.
Qed.

(** buckets partition the representable time: a second belongs to exactly the bucket computed for it, the
    bounds of a valid bucket do not overflow, and the live window is the bucket and its predecessor. *)
Theorem buckets_partition_time seconds b :
  0 <= seconds <= i64_max -> bucket_ok b ->
  (bucket_contains b seconds = true <-> from_unix_seconds seconds = Ok b) /\
  0 <= start_seconds b <= i64_max /\ end_seconds b <= u64_max /\
  (forall b', b' ∈ live_window b <-> bucket_ok b' /\ index b - 1 <= index b' <= index b).
Proof.
  intros Hs [Hb0 Hb]. unfold bucket_contains, start_seconds, end_seconds, from_unix_seconds, from_index.
  assert (Hmax : MAX_BUCKET_INDEX = 106751991167300) by reflexivity.
  assert (Hi : i64_max = 9223372036854775807) by reflexivity.
  assert (Hu : u64_max = 18446744073709551615) by reflexivity.
  unfold BUCKET_SECONDS_V1. split_and!; [|lia|lia|lia|].
  - destruct (Z.leb_spec 0 seconds); [|lia]. simpl.
    assert (Hq : seconds / 86400 <= MAX_BUCKET_INDEX) by (apply Z.lt_succ_r, Z.div_lt_upper_bound; lia).
    destruct (Z.leb_spec (seconds / 86400) MAX_BUCKET_INDEX); [|lia].
    pose proof (Z.div_mod seconds 86400). pose proof (Z.mod_pos_bound seconds 86400). split.
    + intros [? ?]%andb_prop. f_equal. destruct b as [i]. simpl in *. f_equal. lia.
    + intros [= <-]. simpl. lia.
  - intros b'. unfold live_window, previous, bucket_ok. rewrite elem_of_cons.
    destruct b as [i], b' as [j]. simpl in *.
    destruct (Z.leb_spec 1 i); simpl; rewrite ?list_elem_of_singleton, ?elem_of_nil; split.
    + intros [[= ->]|[= ->]]; lia.
    + intros. destruct (decide (j = i)) as [->|]; [by left | right; f_equal; lia].
    + intros [[= ->]|[]]; lia.
    + intros. left. f_equal. lia.
Qed.

Lemma buckets_partition_time_witness : bucket_contains {| index := 19000 |} 1641600000 = true.
Proof.
  apply (buckets_partition_time 1641600000 {| index := 19000 |});
    [split; vm_compute; discriminate | split; vm_compute; discriminate | vm_compute; reflexivity].
Defined.

(** ** Public channel ids *)
Lemma substring_prefix p q : String.substring 0 (String.length p) (p ++s q) = p.
Proof. induction p as [|a p IH]; simpl; [by destruct q | by rewrite IH]. Qed.

Lemma get_suffix p q : String.get (String.length p) (p ++s q) = match q with String a _ => Some a | "" => None end.
Proof. induction p as [|a p IH]; simpl; [by destruct q | done]. Qed.

Lemma lower_hex_not_cont a : is_lower_hex a = true -> cont a = false.
Proof. destruct a as [[] [] [] [] [] [] [] []]; done. Qed.

Lemma lower_hex_lacks_dash s : str_all is_lower_hex s = true -> lacks "-" s = true.
Proof. apply str_all_impl. intros a Ha. rewrite bool_decide_false; [done|]. intros ->. discriminate Ha. Qed.

(** The suffix that names the owner. *)
Lemma owner_suffix p q :
  String.length p = PUBLIC_CHANNEL_OWNER_SUFFIX_LEN -> str_all is_lower_hex q = true ->
  str_get_to PUBLIC_CHANNEL_OWNER_SUFFIX_LEN (p ++s q) = Some p.
Proof.
  intros Hl Hq. unfold str_get_to. rewrite <- Hl, get_suffix, substring_prefix, str_app_length.
  assert ((String.length p <=? String.length p + String.length q)%nat = true) as -> by (apply Nat.leb_le; lia).
  destruct q as [|a q]; [done|]. simpl in Hq. apply andb_prop in Hq as [Ha _].
  by rewrite lower_hex_not_cont.
Qed.

Lemma public_channel_id_parts id ms :
  public_channel_created_at_ms id = Some ms <->
  exists suffix, id = "pc-" ++s dec ms ++s "-" ++s suffix /\ 0 < ms <= i64_max /\
    String.length suffix = PUBLIC_CHANNEL_OWNER_SUFFIX_LEN /\ str_all is_lower_hex suffix = true.
Proof.
  assert (Hiu : i64_max <= u64_max) by (vm_compute; discriminate).
  unfold public_channel_created_at_ms, str_len. split.
  - intros (rest & Hr%strip_prefix_some & ([m s] & Hs & Hx)%bind_Some)%bind_Some.
    apply split_once_spec_lacks in Hs as [-> _]. case_match eqn:E; [|done].
    apply andb_prop in E as [[[H0 Hd]%andb_prop Hl]%andb_prop Hh]. apply negb_true_iff in H0.
    apply bind_Some in Hx as (n & Hn & Hx). case_match eqn:Epos; [|done]. injection Hx as ->.
    assert (Hne : m <> "") by (intros ->; done). rewrite parse_i64_digits in Hn by done.
    apply bind_Some in Hn as (v & Hv & Hn). case_match eqn:Ele; [|done]. injection Hn as ->.
    exists s. split_and!; [|lia|lia|lia|done]. subst id. rewrite (dec_canonical m ms); try done.
    (* the digits of a positive i64 are few: a leading non-zero digit bounds the length *)
    destruct (parse_digits_some 0 m Hd) as (v & Hv' & Hb & Hm & _).
    assert (v = ms) as -> by congruence. destruct m as [|a m]; [done|]. destruct (le_gt_dec (String.length (String a m)) 40) as [|Hgt]; [done|]. exfalso.
    cbn [String.length] in *. destruct (pad_digits_head (String.length m) ms Hb) as [Hhd Hrange].
    rewrite <- Hm in Hhd. injection Hhd as Ha _.
    assert (10 ^ 40 <= 10 ^ Z.of_nat (String.length m)) by (apply Z.pow_le_mono_r; lia).
    assert (i64_max < 10 ^ 40) by (vm_compute; reflexivity).
    rewrite Z.div_small in Ha by lia. subst a. discriminate H0.
  - intros (s & -> & Hms & Hl & Hh). rewrite strip_prefix_app. cbn [mbind option_bind].
    change ("-" ++s s) with (String "-" "" ++s s). rewrite split_once_lacks.
    2: { apply lower_hex_lacks_dash, (str_all_impl is_ascii_digit), pad_digits_digits. apply digit_lower_hex. }
    cbn [mbind option_bind]. rewrite dec_no_leading_zero by lia.
    assert (Hdd : str_all is_ascii_digit (dec ms) = true) by apply pad_digits_digits. rewrite Hdd, Hh, Hl.
    rewrite Z.eqb_refl. simpl negb. simpl andb. cbn match.
    destruct (ndigits_bounds ms) as [? ?]; [lia|].
    rewrite parse_i64_digits; [|done | apply pad_digits_nonempty; lia]. unfold dec.
    rewrite parse_digits_pad by lia. cbn [mbind option_bind].
    destruct (Z.leb_spec ms i64_max); [|lia]. cbn [mbind option_bind].
    destruct (Z.ltb_spec 0 ms); [done|lia].
Qed.

(** a public channel id carries its creation time and owner: the id made from a time and a public key reads back
    as that time and belongs to that key, and every accepted id is the canonical spelling of its time with an
    owner suffix of 16 hexadecimal digits. *)
Theorem public_channel_id_roundtrip ms p q id ms' :
  0 < ms <= i64_max -> String.length p = PUBLIC_CHANNEL_OWNER_SUFFIX_LEN -> str_all is_lower_hex (p ++s q) = true ->
  public_channel_created_at_ms (public_channel ms (p ++s q)) = Some ms /\
  is_public_channel_of (public_channel ms (p ++s q)) (p ++s q) = true /\
  (public_channel_created_at_ms id = Some ms' ->
     exists suffix, id = "pc-" ++s dec ms' ++s "-" ++s suffix /\ 0 < ms' <= i64_max /\
       String.length suffix = PUBLIC_CHANNEL_OWNER_SUFFIX_LEN /\
       (forall key, is_public_channel_of id key = true <-> starts_with suffix key = true)).
Proof.
  intros Hms Hl Hh. rewrite str_all_app in Hh. apply andb_prop in Hh as [Hp Hq].
  assert (Hid : public_channel ms (p ++s q) = "pc-" ++s dec ms ++s "-" ++s p).
  { unfold public_channel, dec_i64. destruct (Z.ltb_spec ms 0); [lia|]. by rewrite owner_suffix. }
  assert (Hof : forall n s key, str_all is_lower_hex s = true ->
    match rsplit_once "-" ("pc-" ++s dec n ++s "-" ++s s) with
    | Some (_, suffix) => starts_with suffix key | None => false end = starts_with s key).
  { intros n s key Hs. rewrite <- (str_app_assoc "pc-").
    by rewrite (rsplit_once_lacks "-" ("pc-" ++s dec n) s) by by apply lower_hex_lacks_dash. }
  assert (Hc : public_channel_created_at_ms (public_channel ms (p ++s q)) = Some ms)
    by (apply public_channel_id_parts; exists p; done).
  split_and!; [done | |].
  - unfold is_public_channel_of, is_public_channel. rewrite Hc, Hid, Hof by done. simpl.
    apply starts_with_app.
  - intros Hx. pose proof Hx as Hx'. apply public_channel_id_parts in Hx as (s & -> & ? & ? & Hs). exists s. split_and!; try done; try lia.
    intros key. unfold is_public_channel_of, is_public_channel. by rewrite Hx', Hof.
Qed.

Lemma public_channel_id_roundtrip_witness :
  is_public_channel_of (public_channel 1700000000000 ("0123456789abcdef" ++s "0011")) ("0123456789abcdef" ++s "0011") = true.
Proof.
  refine (proj1 (proj2 (public_channel_id_roundtrip 1700000000000 "0123456789abcdef" "0011" "" 0 _ _ _)));
    [split; vm_compute; done | reflexivity | reflexivity].
Defined.
