(* ===== verification/Safety.v ===== *)
(** * Safety policy router (crates/cn-safety, crates/cn-safety-runtime)

    A scan runs every provider, collects one result per provider and [route]s the
    results to a verdict; only an [Allow] verdict may be indexed.  The file models
    the verdict model, the router, the derived search tags, the moderation
    artifacts, the orchestrator around the router and the reuse of stored
    verdicts.  Scores are [u8] in the source and are only compared, so they are
    plain integers here. *)
From S2P Require Import Prelude.

(** ** verdict.rs, capability.rs, provider.rs, assessment.rs *)
Inductive SafetyAction := Allow | Hold | Quarantine | Exclude.
#[export] Instance SafetyAction_eq_dec : EqDecision SafetyAction.
Proof. solve_decision. Defined.

Definition allows_indexing (a : SafetyAction) : bool :=
  match a with Allow => true | _ => false end.

Inductive SafetyCategory :=
| Csam | Cse | Grooming | Nsfw | Objectionable | Spam | Malware | Phishing | ProviderTest.
#[export] Instance SafetyCategory_eq_dec : EqDecision SafetyCategory.
Proof. solve_decision. Defined.

Definition category_is_critical (c : SafetyCategory) : bool :=
  match c with Csam | Cse | Grooming => true | _ => false end.

Definition is_advisory_only (c : SafetyCategory) : bool :=
  match c with Nsfw | Objectionable => true | _ => false end.

Definition advisory_display_label (c : SafetyCategory) : option string :=
  match c with Nsfw => Some "adult" | Objectionable => Some "sensitive" | _ => None end.

Inductive Severity := SevCritical | SevHigh | SevMedium | SevLow.
Inductive Basis := KnownHashMatch | ProviderVerdict | ClassifierScore | LocalPolicy.
#[export] Instance Basis_eq_dec : EqDecision Basis.
Proof. solve_decision. Defined.
Inductive Visibility := VLocal | VSubscribedNodes | VPublic.

Inductive ReasonCode :=
| CsamConfirmed | CsamSuspected | CseSuspected | GeneralModeration | ScanFailed
| ProviderUnavailable | Unscanned | ProviderTestMatch | RNoKnownMatch | Clean.
#[export] Instance ReasonCode_eq_dec : EqDecision ReasonCode.
Proof. solve_decision. Defined.

Inductive SafetyProviderCapability :=
| KnownCsamHashMatch | PerceptualHashMatch | NovelCsamImageClassifier | NovelCsamVideoClassifier
| CseTextClassifier | GroomingTextClassifier | GeneralMediaModeration | SpamAbuseModeration
| MalwarePhishingDetection | ReportingWorkflow.
#[export] Instance Capability_eq_dec : EqDecision SafetyProviderCapability.
Proof. solve_decision. Defined.

Definition capability_is_critical (c : SafetyProviderCapability) : bool :=
  match c with
  | KnownCsamHashMatch | PerceptualHashMatch | NovelCsamImageClassifier
  | NovelCsamVideoClassifier | CseTextClassifier | GroomingTextClassifier => true
  | _ => false
  end.

Definition can_confirm_known_csam (c : SafetyProviderCapability) : bool :=
  match c with KnownCsamHashMatch => true | _ => false end.

Record SafetyLabel := {
  category : SafetyCategory;
  label_confidence : option Z;
  label_capability : option SafetyProviderCapability
}.

Definition label_new (c : SafetyCategory) : SafetyLabel :=
  {| category := c; label_confidence := None; label_capability := None |}.
Definition with_confidence (l : SafetyLabel) (s : Z) : SafetyLabel :=
  {| category := category l; label_confidence := Some s; label_capability := label_capability l |}.
Definition with_provider_capability (l : SafetyLabel) (c : SafetyProviderCapability) : SafetyLabel :=
  {| category := category l; label_confidence := label_confidence l; label_capability := Some c |}.

Record SafetyVerdict := {
  action : SafetyAction;
  labels : list SafetyLabel;
  advisory_labels : list SafetyLabel;
  critical : bool;
  reason_code : ReasonCode;
  confidence : option Z;
  provider : option string;
  provider_capability : option SafetyProviderCapability;
  verdict_policy_version : string;
  scanned_at : string
}.

Definition is_indexable (v : SafetyVerdict) : bool := allows_indexing (action v).
Definition is_labeled_allow (v : SafetyVerdict) : bool :=
  is_indexable v && negb (match advisory_labels v with [] => true | _ => false end).

Inductive ModerationAction := MExclude | MHold | MQuarantine | MRiskLabel.

Inductive SubjectKind := SPost | SBlob | SUser | SPeer.
Record ProviderScanRequest := {
  subject_kind : option SubjectKind;
  subject_id : option string;
  media_hint : option string;
  media_mime : option string;
  text : option string
}.

Inductive ScanOutcome := Completed | NoKnownMatch | Failed | Unavailable.
#[export] Instance ScanOutcome_eq_dec : EqDecision ScanOutcome.
Proof. solve_decision. Defined.
Definition is_fail_closed (o : ScanOutcome) : bool :=
  match o with Failed | Unavailable => true | _ => false end.

Inductive ProviderDecisionBasis := ScoreThreshold | CategoryFlags.
#[export] Instance DecisionBasis_eq_dec : EqDecision ProviderDecisionBasis.
Proof. solve_decision. Defined.

Inductive ScanInputKind := IText | IImage | IVideo.
Record ScanCoverage := {
  input : ScanInputKind;
  evaluated_categories : list string;
  unsupported_categories : list string;
  frames : Z;
  audio_scanned : bool;
  preprocessing_version : string;
  duration_ms : option Z
}.

Record ProviderScanResult := {
  decision_basis : ProviderDecisionBasis;
  coverage : option ScanCoverage;
  result_provider : string;
  capability : SafetyProviderCapability;
  outcome : ScanOutcome;
  known_hash_match : bool;
  score : option Z;
  result_labels : list SafetyLabel;
  derived_tags : list string
}.

Definition completed (name : string) (cap : SafetyProviderCapability) : ProviderScanResult :=
  {| decision_basis := ScoreThreshold; coverage := None; result_provider := name; capability := cap;
     outcome := Completed; known_hash_match := false; score := None; result_labels := []; derived_tags := [] |}.

Inductive ScanError := EUnavailable (m : string) | ETimeout (m : string) | EProtocol (m : string).

(** ** policy.rs *)
Inductive GeneralAction := GLabel | GHold | GExclude.

Definition to_safety_action (g : GeneralAction) : SafetyAction :=
  match g with GLabel => Allow | GHold => Hold | GExclude => Exclude end.

Record SafetyPolicy := {
  policy_version : string;
  index_before_scan : bool;
  on_scan_error : SafetyAction;
  suspected_threshold : Z;
  suspected_signal_visibility : Visibility;
  suspected_critical_action : SafetyAction;
  policy_general_action : GeneralAction;
  on_spam : SafetyAction;
  on_malware_phishing : SafetyAction;
  require_known_csam : bool
}.

Definition public_node_default : SafetyPolicy := {|
  policy_version := "2026-09-public-node-v3";
  index_before_scan := false;
  on_scan_error := Hold;
  suspected_threshold := 70;
  suspected_signal_visibility := VLocal;
  suspected_critical_action := Quarantine;
  policy_general_action := GLabel;
  on_spam := Exclude;
  on_malware_phishing := Exclude;
  require_known_csam := true
|}.

Definition ensure_non_indexing (a fallback : SafetyAction) : SafetyAction :=
  if allows_indexing a then fallback else a.

Definition fail_closed_action (p : SafetyPolicy) : SafetyAction :=
  ensure_non_indexing (on_scan_error p) Hold.

Definition suspected_action (p : SafetyPolicy) : SafetyAction :=
  ensure_non_indexing (suspected_critical_action p) Quarantine.

(** [Iterator::max] over scores. *)
Definition max_score (l : list Z) : option Z :=
  foldr (fun x acc => match acc with None => Some x | Some y => Some (Z.max x y) end) None l.

Definition has_critical_label (r : ProviderScanResult) : bool :=
  existsb (fun l => category_is_critical (category l)) (result_labels r).

Definition is_critical_detection (r : ProviderScanResult) : bool :=
  (capability_is_critical (capability r) && match score r with Some _ => true | None => false end)
  || has_critical_label r.

Definition critical_category_for_capability (c : SafetyProviderCapability) : option SafetyCategory :=
  match c with
  | KnownCsamHashMatch | PerceptualHashMatch | NovelCsamImageClassifier
  | NovelCsamVideoClassifier => Some Csam
  | CseTextClassifier => Some Cse
  | GroomingTextClassifier => Some Grooming
  | _ => None
  end.

Definition critical_category (r : ProviderScanResult) : option SafetyCategory :=
  match List.find category_is_critical (map category (result_labels r)) with
  | Some c => Some c
  | None => critical_category_for_capability (capability r)
  end.

(** The best confidence among the labels that satisfy a test. *)
Definition max_confidence (test : SafetyCategory -> bool) (r : ProviderScanResult) : option Z :=
  max_score (omap label_confidence (filter (fun l => test (category l) = true) (result_labels r))).

Definition effective_critical_score (r : ProviderScanResult) : option Z :=
  if decide (decision_basis r = CategoryFlags) then
    c ← critical_category r; max_confidence (fun c' => bool_decide (c' = c)) r
  else match score r with
       | Some s => Some s
       | None => max_confidence category_is_critical r
       end.

Definition effective_general_score (r : ProviderScanResult) : option Z :=
  match score r with
  | Some s => Some s
  | None => max_confidence (fun c => negb (category_is_critical c)) r
  end.

Definition has_known_csam_scan_result (rs : list ProviderScanResult) : bool :=
  existsb (fun r => bool_decide (capability r = KnownCsamHashMatch)) rs.

Definition general_action (p : SafetyPolicy) (c : SafetyCategory) : SafetyAction :=
  match c with
  | Spam => on_spam p
  | Malware | Phishing => on_malware_phishing p
  | ProviderTest => Exclude
  | Nsfw | Objectionable => to_safety_action (policy_general_action p)
  | Csam | Cse | Grooming => Exclude
  end.

Definition general_category (r : ProviderScanResult) (p : SafetyPolicy) : option SafetyCategory :=
  if decide (outcome r = Completed) then
    let general := filter (fun c => category_is_critical c = false) (map category (result_labels r)) in
    match List.find (fun c => negb (allows_indexing (general_action p c))) general with
    | Some c => Some c
    | None => head general
    end
  else None.

Definition non_empty_labels (r : ProviderScanResult) (c : SafetyCategory) : list SafetyLabel :=
  match result_labels r with
  | [] =>
      let label := with_provider_capability (label_new c) (capability r) in
      [match score r with Some s => with_confidence label s | None => label end]
  | ls => ls
  end.

(** [route]: the closure [base] and the verdicts built from it. *)
Definition base_verdict (p : SafetyPolicy) (at_ : string) (a : SafetyAction) (reason : ReasonCode) (crit : bool)
    : SafetyVerdict :=
  {| action := a; labels := []; advisory_labels := []; critical := crit; reason_code := reason;
     confidence := None; provider := None; provider_capability := None;
     verdict_policy_version := policy_version p; scanned_at := at_ |}.

(** The verdict attributed to one provider result. *)
Definition attribute_verdict (v : SafetyVerdict) (r : ProviderScanResult) (conf : option Z)
    (ls advisory : list SafetyLabel) : SafetyVerdict :=
  {| action := action v; labels := ls; advisory_labels := advisory; critical := critical v;
     reason_code := reason_code v; confidence := conf; provider := Some (result_provider r);
     provider_capability := Some (capability r); verdict_policy_version := verdict_policy_version v;
     scanned_at := scanned_at v |}.

Definition is_completed (r : ProviderScanResult) : bool := bool_decide (outcome r = Completed).

Definition provider_test_match (r : ProviderScanResult) : bool :=
  is_completed r && existsb (fun l => bool_decide (category l = ProviderTest)) (result_labels r).

Definition reaches (threshold : Z) (s : option Z) : bool :=
  match s with Some s => threshold <=? s | None => false end.

Definition suspected_detection (p : SafetyPolicy) (r : ProviderScanResult) : bool :=
  is_completed r && is_critical_detection r
  && (bool_decide (decision_basis r = CategoryFlags)
      || reaches (suspected_threshold p) (effective_critical_score r)).

Definition suspected_verdict (p : SafetyPolicy) (at_ : string) (a : SafetyAction) (r : ProviderScanResult)
    : SafetyVerdict :=
  let c := default Csam (critical_category r) in
  let reason := if decide (c = Cse) then CseSuspected else CsamSuspected in
  attribute_verdict (base_verdict p at_ a reason true) r (effective_critical_score r) (non_empty_labels r c) [].

(** The detection of rule 8 that a result contributes. *)
Definition general_candidate (p : SafetyPolicy) (r : ProviderScanResult)
    : option (ProviderScanResult * SafetyCategory) :=
  c ← general_category r p;
  if bool_decide (decision_basis r = CategoryFlags)
     || match effective_general_score r with Some s => suspected_threshold p <=? s | None => true end
  then Some (r, c) else None.

Definition general_candidates (p : SafetyPolicy) (rs : list ProviderScanResult)
    : list (ProviderScanResult * SafetyCategory) :=
  omap (general_candidate p) rs.

Definition chosen_candidate (p : SafetyPolicy) (cs : list (ProviderScanResult * SafetyCategory))
    : option (ProviderScanResult * SafetyCategory) :=
  match List.find (fun rc => negb (allows_indexing (general_action p rc.2))) cs with
  | Some rc => Some rc
  | None => head cs
  end.

Definition general_verdict (p : SafetyPolicy) (at_ : string) (r : ProviderScanResult) (c : SafetyCategory)
    : SafetyVerdict :=
  let a := general_action p c in
  let conf := if decide (decision_basis r = CategoryFlags)
              then max_confidence (fun c' => bool_decide (c' = c)) r else score r in
  let ls := non_empty_labels r c in
  let advisory := if allows_indexing a && is_advisory_only c
                  then filter (fun l => is_advisory_only (category l) = true) ls else [] in
  attribute_verdict (base_verdict p at_ a GeneralModeration false) r conf ls advisory.

Definition route (rs : list ProviderScanResult) (p : SafetyPolicy) (at_ : string) : SafetyVerdict :=
  if decide (rs = []) then base_verdict p at_ (fail_closed_action p) Unscanned false
  else match List.find known_hash_match rs with
  | Some r => attribute_verdict (base_verdict p at_ Exclude CsamConfirmed true) r (score r) (non_empty_labels r Csam) []
  | None =>
  match List.find provider_test_match rs with
  | Some r => attribute_verdict (base_verdict p at_ Exclude ProviderTestMatch false) r (score r)
                (non_empty_labels r ProviderTest) []
  | None =>
  match List.find (suspected_detection p) rs with
  | Some r => suspected_verdict p at_ (suspected_action p) r
  | None =>
  match List.find (fun r => is_fail_closed (outcome r)) rs with
  | Some r =>
      let reason := match outcome r with Unavailable => ProviderUnavailable | _ => ScanFailed end in
      attribute_verdict (base_verdict p at_ (fail_closed_action p) reason false) r None [] []
  | None =>
  match List.find (fun r => is_completed r && is_critical_detection r) rs with
  | Some r => suspected_verdict p at_ (ensure_non_indexing (suspected_critical_action p) Hold) r
  | None =>
  if require_known_csam p && negb (has_known_csam_scan_result rs) then
    base_verdict p at_ (fail_closed_action p) ProviderUnavailable false
  else match chosen_candidate p (general_candidates p rs) with
  | Some (r, c) => general_verdict p at_ r c
  | None =>
      base_verdict p at_ Allow
        (if existsb (fun r => bool_decide (outcome r = NoKnownMatch)) rs then RNoKnownMatch else Clean) false
  end end end end end end.

Definition basis_for_verdict (v : SafetyVerdict) : Basis :=
  match reason_code v with
  | CsamConfirmed =>
      if decide (provider_capability v = Some KnownCsamHashMatch) then KnownHashMatch else ProviderVerdict
  | CsamSuspected | CseSuspected | GeneralModeration => ClassifierScore
  | _ => LocalPolicy
  end.
