(* ===== verification/SafetyRuntime.v ===== *)
(** * Scan orchestration, moderation artifacts and verdict reuse
    (crates/cn-safety: tags.rs, signal.rs; crates/cn-safety-runtime: artifacts.rs,
    orchestrator.rs, reuse.rs)

    The orchestrator runs every registered provider, turns errors into fail-closed
    results and routes them; a report carries the verdict, the unsigned moderation
    artifacts and the search tags.  Providers, the clock, the id generator and
    SHA-256 are parameters; the Unicode lower-case mapping of tags is one too. *)
From S2P Require Import Prelude RustStr Safety.

(** ** tags.rs *)
Definition is_sensitive_result (r : ProviderScanResult) : bool :=
  known_hash_match r || capability_is_critical (capability r) || has_critical_label r.

Definition is_number_char (a : ascii) : bool :=
  is_ascii_digit a || bool_decide (a = "."%char) || bool_decide (a = ","%char) || bool_decide (a = "%"%char).

Definition normalize_tag (to_lowercase : string -> string) (tag : string) : option string :=
  let normalized := to_lowercase (trim tag) in
  if str_is_empty normalized then None
  else if str_all is_number_char normalized then None
  else if contains "score" normalized || contains "confidence" normalized then None
  else Some normalized.

(** The inner loop over the tags of one result. *)
Definition push_tag (to_lowercase : string -> string) (tags : list string) (tag : string) : list string :=
  match normalize_tag to_lowercase tag with
  | None => tags
  | Some t => if decide (t ∈ tags) then tags else tags ++ [t]
  end.

Definition derived_tags_for_index (to_lowercase : string -> string) (v : SafetyVerdict)
    (rs : list ProviderScanResult) : list string :=
  if negb (is_indexable v) then []
  else foldl (fun tags r => if is_sensitive_result r then tags
                            else foldl (push_tag to_lowercase) tags (derived_tags r)) [] rs.

(** ** signal.rs, event.rs *)
Inductive RiskSignalTarget := UserPubkey | PeerNode | PostId | BlobCid.
Inductive AppealStatus := AppealNone | Disputed | Cleared.

Record SafetyRiskSignal := {
  target : RiskSignalTarget;
  target_id : string;
  signal_category : SafetyCategory;
  signal_severity : Severity;
  signal_basis : Basis;
  signal_confidence : option Z;
  signal_visibility : Visibility;
  expires_at : option string;
  appeal_status : option AppealStatus
}.

Definition default_visibility_for (c : SafetyCategory) (b : Basis) : Visibility :=
  let confirmed := match b with KnownHashMatch | ProviderVerdict => true | _ => false end in
  if category_is_critical c && negb confirmed then VLocal
  else if confirmed then VSubscribedNodes else VLocal.

Record ModerationEventBody := {
  event_id : string;
  issuer_node_id : string;
  target_type : SubjectKind;
  event_target_id : string;
  event_action : ModerationAction;
  event_labels : list SafetyLabel;
  event_reason_code : ReasonCode;
  event_severity : Severity;
  event_confidence : option Z;
  event_basis : Basis;
  event_visibility : Visibility;
  event_policy_version : string;
  created_at : string
}.

(** ** artifacts.rs *)
Definition primary_category (v : SafetyVerdict) : option SafetyCategory :=
  match reason_code v with
  | CsamConfirmed | CsamSuspected => Some Csam
  | CseSuspected => Some Cse
  | GeneralModeration => List.find (fun c => negb (category_is_critical c)) (map category (labels v))
  | ProviderTestMatch => Some ProviderTest
  | ScanFailed | ProviderUnavailable | Unscanned | RNoKnownMatch | Clean => None
  end.

Definition severity_for (v : SafetyVerdict) : Severity :=
  if critical v then SevCritical
  else match action v with
       | Exclude | Quarantine => SevHigh
       | Hold => SevMedium
       | Allow => SevLow
       end.

Definition visibility_for (c : option SafetyCategory) (b : Basis) (p : SafetyPolicy) : Visibility :=
  match c with
  | Some c => if decide (b = ClassifierScore) then suspected_signal_visibility p else default_visibility_for c b
  | None => VLocal
  end.

Definition moderation_action_for (v : SafetyVerdict) : option ModerationAction :=
  match action v with
  | Hold => Some MHold
  | Quarantine => Some MQuarantine
  | Exclude => Some MExclude
  | Allow => if is_labeled_allow v then Some MRiskLabel else None
  end.

Definition risk_target_for (k : SubjectKind) : RiskSignalTarget :=
  match k with SPost => PostId | SBlob => BlobCid | SUser => UserPubkey | SPeer => PeerNode end.

(** [next_id] is the id the generator gives next. *)
Definition build_event (v : SafetyVerdict) (k : SubjectKind) (sid issuer next_id : string) (b : Basis)
    (sev : Severity) (c : option SafetyCategory) (p : SafetyPolicy) : option ModerationEventBody :=
  a ← moderation_action_for v;
  Some {| event_id := next_id; issuer_node_id := issuer; target_type := k; event_target_id := sid;
          event_action := a; event_labels := labels v; event_reason_code := reason_code v;
          event_severity := sev; event_confidence := confidence v; event_basis := b;
          event_visibility := visibility_for c b p; event_policy_version := verdict_policy_version v;
          created_at := scanned_at v |}.

Definition build_risk_signal (v : SafetyVerdict) (k : SubjectKind) (sid : string) (b : Basis)
    (sev : Severity) (c : option SafetyCategory) (p : SafetyPolicy) : option SafetyRiskSignal :=
  c ← c;
  Some {| target := risk_target_for k; target_id := sid; signal_category := c; signal_severity := sev;
          signal_basis := b; signal_confidence := confidence v; signal_visibility := visibility_for (Some c) b p;
          expires_at := None; appeal_status := Some AppealNone |}.

Definition build_artifacts (v : SafetyVerdict) (req : ProviderScanRequest) (issuer next_id : string)
    (p : SafetyPolicy) : option ModerationEventBody * option SafetyRiskSignal :=
  if is_indexable v && negb (is_labeled_allow v) then (None, None)
  else match subject_kind req, subject_id req with
  | Some k, Some sid =>
      let sid := trim sid in
      if str_is_empty sid then (None, None)
      else
        let b := basis_for_verdict v in
        let c := primary_category v in
        let sev := severity_for v in
        (build_event v k sid issuer next_id b sev c p, build_risk_signal v k sid b sev c p)
  | _, _ => (None, None)
  end.

(** ** orchestrator.rs *)
Definition map_scan_error (e : ScanError) : ScanOutcome :=
  match e with EUnavailable _ => Unavailable | ETimeout _ | EProtocol _ => Failed end.

(** What a [ScanReferenceGuard] answers when the named provider checks it. *)
Definition Guard : Type := string -> result ScanError unit.

(** A [SafetyProvider] trait object; [scan_guarded] may be overridden. *)
Record SafetyProvider := {
  name : string;
  capabilities : list SafetyProviderCapability;
  config_fingerprint : string;
  supports_content_reuse : bool;
  scan : ProviderScanRequest -> result ScanError ProviderScanResult;
  scan_guarded : ProviderScanRequest -> Guard -> result ScanError ProviderScanResult
}.

(** The default method of the trait: the guard is checked before the scan. *)
Definition default_scan_guarded (provider_name : string)
    (s : ProviderScanRequest -> result ScanError ProviderScanResult)
    (req : ProviderScanRequest) (guard : Guard) : result ScanError ProviderScanResult :=
  _ ← guard provider_name; s req.

(** [None] is the panic of [expect]. *)
Definition synthesize_failure (pr : SafetyProvider) (e : ScanError) : option ProviderScanResult :=
  c ← head (capabilities pr);
  Some {| decision_basis := ScoreThreshold; coverage := None; result_provider := name pr; capability := c;
          outcome := map_scan_error e; known_hash_match := false; score := None; result_labels := [];
          derived_tags := [] |}.

Record SafetyOrchestrator := {
  providers : list SafetyProvider;
  orch_policy : SafetyPolicy;
  orch_issuer : string;
  scan_config_fingerprint : string
}.

Record SafetyScanReport := {
  verdict : SafetyVerdict;
  scan_results : list ProviderScanResult;
  moderation_event : option ModerationEventBody;
  risk_signal : option SafetyRiskSignal;
  report_tags : list string
}.

Inductive SafetyRuntimeError :=
| EmptyIssuerNodeId | NoProviders | EmptyProviderName | ProviderWithoutCapability (provider : string).

Section orchestrator.
(** SHA-256 in hexadecimal, the JSON text of a policy and of the node identity, and the
    Unicode lower-case mapping. *)
Context (sha256_hex : string -> string) (policy_json : SafetyPolicy -> string)
        (identity_json : string -> string -> string) (to_lowercase : string -> string).

Definition compute_scan_config_fingerprint (p : SafetyPolicy) (prs : list SafetyProvider) : string :=
  sha256_hex (foldl (fun acc pr => acc ++s String (ascii_of_nat 10) "" ++s config_fingerprint pr) (policy_json p) prs).

Fixpoint check_providers (prs : list SafetyProvider) : result SafetyRuntimeError unit :=
  match prs with
  | [] => Ok tt
  | pr :: prs =>
      if str_is_empty (trim (name pr)) then Err EmptyProviderName
      else match capabilities pr with
           | [] => Err (ProviderWithoutCapability (name pr))
           | _ => check_providers prs
           end
  end.

Definition build (issuer : string) (prs : list SafetyProvider) (p : option SafetyPolicy)
    : result SafetyRuntimeError SafetyOrchestrator :=
  let issuer := trim issuer in
  _ ← ensure (negb (str_is_empty issuer)) EmptyIssuerNodeId;
  _ ← ensure (match prs with [] => false | _ => true end) NoProviders;
  _ ← check_providers prs;
  let p := default public_node_default p in
  let fingerprint := compute_scan_config_fingerprint p prs in
  Ok {| providers := prs; orch_policy := p; orch_issuer := issuer;
        scan_config_fingerprint := sha256_hex (identity_json issuer fingerprint) |}.

Definition report_from_results (o : SafetyOrchestrator) (now next_id : string) (req : ProviderScanRequest)
    (rs : list ProviderScanResult) : SafetyScanReport :=
  let v := route rs (orch_policy o) now in
  let '(event, signal) := build_artifacts v req (orch_issuer o) next_id (orch_policy o) in
  {| verdict := v; scan_results := rs; moderation_event := event; risk_signal := signal;
     report_tags := derived_tags_for_index to_lowercase v rs |}.

Fixpoint run_providers (prs : list SafetyProvider) (req : ProviderScanRequest)
    (guard : option Guard) : option (list ProviderScanResult) :=
  match prs with
  | [] => Some []
  | pr :: prs =>
      let res := match guard with Some g => scan_guarded pr req g | None => scan pr req end in
      r ← (match res with Ok r => Some r | Err e => synthesize_failure pr e end);
      rs ← run_providers prs req guard;
      Some (r :: rs)
  end.

Definition scan_subject_guarded (o : SafetyOrchestrator) (now next_id : string) (req : ProviderScanRequest)
    (guard : option Guard) : option SafetyScanReport :=
  rs ← run_providers (providers o) req guard;
  Some (report_from_results o now next_id req rs).

Definition scan_subject (o : SafetyOrchestrator) (now next_id : string) (req : ProviderScanRequest)
    : option SafetyScanReport :=
  scan_subject_guarded o now next_id req None.

Definition failed_report (o : SafetyOrchestrator) (now next_id : string) (req : ProviderScanRequest)
    (e : ScanError) : option SafetyScanReport :=
  rs ← mapM (fun pr => synthesize_failure pr e) (providers o);
  Some (report_from_results o now next_id req rs).
End orchestrator.

Definition is_some_b {A} (o : option A) : bool := match o with Some _ => true | None => false end.

Definition orch_supports_content_reuse (o : SafetyOrchestrator) : bool :=
  forallb supports_content_reuse (providers o).

Definition coverage_matches (req : ProviderScanRequest) (r : ProviderScanResult) (c : ScanCoverage) : bool :=
  if known_hash_match r || audio_scanned c
     || (match evaluated_categories c with [] => true | _ => false end)
     || str_is_empty (preprocessing_version c)
     || existsb (fun x => bool_decide (x ∈ unsupported_categories c)) (evaluated_categories c)
  then false
  else match input c with
  | IText => negb (is_some_b (media_hint req)) && (frames c =? 0)
  | IImage => is_some_b (media_hint req) && (frames c =? 1)
  | IVideo =>
      is_some_b (media_hint req) && ((1 <=? frames c) && (frames c <=? 8))
      && match duration_ms c with Some d => (0 <? d) && (d <=? 600000) | None => false end
  end.

Definition cached_result_matches (req : ProviderScanRequest) (r : ProviderScanResult) (pr : SafetyProvider) : bool :=
  if negb (bool_decide (result_provider r = name pr))
     || negb (bool_decide (capability r ∈ capabilities pr)) || is_fail_closed (outcome r)
  then false
  else if decide (decision_basis r = CategoryFlags) then
    match coverage r with None => false | Some c => coverage_matches req r c end
  else true.

Definition cached_results_match (o : SafetyOrchestrator) (req : ProviderScanRequest)
    (rs : list ProviderScanResult) : bool :=
  (length rs =? length (providers o))%nat
  && forallb (fun p => cached_result_matches req p.1 p.2) (zip rs (providers o)).

(** ** advisory.rs, reuse.rs *)
Inductive AdvisorySubjectKind := APostId | ABlobCid.

Record ContentAdvisory := {
  advisory_issuer : string;
  advisory_subject_kind : AdvisorySubjectKind;
  advisory_subject_id : string;
  advisory_category : SafetyCategory;
  advisory_label : string;
  advisory_confidence : option Z;
  advisory_signal_id : string;
  advisory_basis : Basis
}.

Record StoredVerdictRecord := {
  record_id : string;
  stored_verdict : SafetyVerdict;
  stored_tags : list string;
  advisories : list ContentAdvisory;
  source_fingerprint : option string;
  stored_config_fingerprint : option string
}.

Record ReuseInputs := { current_source : string; current_config : string }.

Inductive RescanReason := NoStoredVerdict | MissingFingerprint | SourceChanged | ScanConfigChanged | HeldVerdict.
Inductive ReuseDecision := Reuse | Rescan (r : RescanReason).

Definition is_reusable_verdict (v : SafetyVerdict) : bool :=
  negb (match reason_code v with ScanFailed | ProviderUnavailable | Unscanned => true | _ => false end)
  && negb (bool_decide (action v = Hold)).

Definition decide_reuse (stored : option StoredVerdictRecord) (current : ReuseInputs) : ReuseDecision :=
  match stored with
  | None => Rescan NoStoredVerdict
  | Some s =>
      match source_fingerprint s, stored_config_fingerprint s with
      | Some source, Some config =>
          if negb (bool_decide (config = current_config current)) then Rescan ScanConfigChanged
          else if negb (bool_decide (source = current_source current)) then Rescan SourceChanged
          else if negb (is_reusable_verdict (stored_verdict s)) then Rescan HeldVerdict
          else Reuse
      | _, _ => Rescan MissingFingerprint
      end
  end.

Definition verdict_changed (before : option SafetyVerdict) (after : SafetyVerdict) : bool :=
  match before with
  | None => true
  | Some b =>
      negb (bool_decide (action b = action after)) || negb (bool_decide (reason_code b = reason_code after))
      || negb (Bool.eqb (critical b) (critical after))
  end.
