(* ===== verification/SafetyProps.v ===== *)
(** * What the safety router guarantees

    The exact condition under which content becomes indexable and its consequences:
    the order of provider results does not matter, more results and stricter
    policies never open the index, failures are closed, advisories accompany
    allowed sensitive content, artifacts and stored verdicts are consistent. *)
From S2P Require Import Prelude RustStr Safety SafetyRuntime.

(** ** When a verdict is indexable *)

(** No result is a hash match, a provider test, a failure or a critical detection. *)
Definition harmless (r : ProviderScanResult) : bool :=
  negb (known_hash_match r) && negb (provider_test_match r) && negb (is_fail_closed (outcome r))
  && negb (is_completed r && is_critical_detection r).

(** Every general detection of the result is mapped to an indexable action. *)
Definition tolerated (p : SafetyPolicy) (r : ProviderScanResult) : bool :=
  match general_candidate p r with
  | Some (_, c) => allows_indexing (general_action p c)
  | None => true
  end.

Definition index_condition (p : SafetyPolicy) (rs : list ProviderScanResult) : Prop :=
  rs <> [] /\ (forall r, r ∈ rs -> harmless r = true /\ tolerated p r = true) /\
  (require_known_csam p = true -> has_known_csam_scan_result rs = true).

Lemma ensure_non_indexing_closed a f :
  allows_indexing f = false -> allows_indexing (ensure_non_indexing a f) = false.
Proof. unfold ensure_non_indexing. destruct (allows_indexing a) eqn:E; [done | congruence]. Qed.

Lemma general_candidate_result p r r' c : general_candidate p r = Some (r', c) -> r' = r.
Proof. unfold general_candidate. intros (c' & _ & Hc)%bind_Some. case_match; [|done]. by injection Hc. Qed.

Lemma elem_of_general_candidates p rs r c :
  (r, c) ∈ general_candidates p rs <-> r ∈ rs /\ general_candidate p r = Some (r, c).
Proof.
  unfold general_candidates. rewrite list_elem_of_omap. split.
  - intros (r' & Hr & Hc). pose proof (general_candidate_result _ _ _ _ Hc) as ->. done.
  - intros [Hr Hc]. eauto.
Qed.

Lemma chosen_candidate_spec p rs :
  match chosen_candidate p (general_candidates p rs) with
  | None => forall r, r ∈ rs -> general_candidate p r = None
  | Some (r, c) => r ∈ rs /\ general_candidate p r = Some (r, c) /\
      (allows_indexing (general_action p c) = true <-> forall r, r ∈ rs -> tolerated p r = true)
  end.
Proof.
  unfold chosen_candidate. pose proof (find_spec (fun rc : ProviderScanResult * SafetyCategory =>
    negb (allows_indexing (general_action p rc.2))) (general_candidates p rs)) as Hf.
  destruct (List.find _ _) as [[r c]|].
  - destruct Hf as [[Hr Hc]%elem_of_general_candidates Hn%negb_true_iff]. simpl in Hn. split_and!; try done.
    rewrite Hn. split; [done|]. intros Ht. specialize (Ht r Hr). unfold tolerated in Ht. rewrite Hc in Ht. congruence.
  - destruct (general_candidates p rs) as [|[r c] l] eqn:E; simpl.
    + intros r Hr. destruct (general_candidate p r) as [[r' c]|] eqn:Ec; [|done].
      pose proof (general_candidate_result _ _ _ _ Ec) as ->.
      assert (Hin : (r, c) ∈ general_candidates p rs) by by apply elem_of_general_candidates.
      rewrite E in Hin. by apply elem_of_nil in Hin.
    + rewrite <- E in Hf. assert (Hin : (r, c) ∈ general_candidates p rs) by (rewrite E; set_solver).
      pose proof (Hf _ Hin) as Ha%negb_false_iff. simpl in Ha.
      apply elem_of_general_candidates in Hin as [Hr Hc]. split_and!; try done.
      split; [|done]. intros _ r' Hr'. unfold tolerated.
      destruct (general_candidate p r') as [[r'' c']|] eqn:Ec; [|done].
      pose proof (general_candidate_result _ _ _ _ Ec) as ->.
      by apply (negb_false_iff (allows_indexing (general_action p c'))), (Hf (r', c')), elem_of_general_candidates.
Qed.

(** The part of [route] before the general detections: the closed outcome, if any. *)
Definition gated (p : SafetyPolicy) (rs : list ProviderScanResult) : Prop :=
  rs = [] \/ (exists r, r ∈ rs /\ harmless r = false) \/
  (require_known_csam p = true /\ has_known_csam_scan_result rs = false).

(** Which rule fired, as one case analysis that every theorem about [route] uses. *)
Lemma route_cases p rs at_ :
  let v := route rs p at_ in
  (gated p rs /\ is_indexable v = false /\ advisory_labels v = [] /\
     (critical v = true <-> reason_code v ∈ [CsamConfirmed; CsamSuspected; CseSuspected]) /\
     reason_code v ∉ [GeneralModeration; RNoKnownMatch; Clean]) \/
  (~ gated p rs /\
     match chosen_candidate p (general_candidates p rs) with
     | Some (r, c) => v = general_verdict p at_ r c
     | None => v = base_verdict p at_ Allow (if existsb (fun r => bool_decide (outcome r = NoKnownMatch)) rs
                                             then RNoKnownMatch else Clean) false
     end).
Proof.
  unfold route, gated. case_decide as Hnil.
  { left. split_and!; [by left | apply ensure_non_indexing_closed; done | done | set_solver | set_solver]. }
  assert (Hbad : forall f : ProviderScanResult -> bool, (forall r, f r = true -> harmless r = false) ->
    match List.find f rs with Some r => exists r, r ∈ rs /\ harmless r = false | None => True end).
  { intros f Hf. pose proof (find_spec f rs). destruct (List.find f rs); [|done]. naive_solver. }
  assert (Hsus : forall a r, allows_indexing a = false ->
    let v := suspected_verdict p at_ a r in is_indexable v = false /\ advisory_labels v = [] /\
     (critical v = true <-> reason_code v ∈ [CsamConfirmed; CsamSuspected; CseSuspected]) /\
     reason_code v ∉ [GeneralModeration; RNoKnownMatch; Clean]).
  { intros a r Ha. unfold suspected_verdict, is_indexable. simpl. case_decide; split_and!; done || set_solver. }
  pose proof (find_spec known_hash_match rs) as H1.
  pose proof (Hbad known_hash_match ltac:(intros r Hr; unfold harmless; by rewrite Hr)) as B1.
  destruct (List.find known_hash_match rs); [left; split_and!; [by auto | done | done | set_solver | set_solver]|].
  pose proof (find_spec provider_test_match rs) as H2.
  pose proof (Hbad provider_test_match ltac:(intros r Hr; unfold harmless; rewrite Hr; by rewrite andb_false_r)) as B2.
  destruct (List.find provider_test_match rs); [left; split_and!; [by auto | done | done | set_solver | set_solver]|].
  assert (Hcrit : forall r, is_completed r && is_critical_detection r = true -> harmless r = false).
  { intros r Hr. unfold harmless. by rewrite Hr, andb_false_r. }
  pose proof (Hbad (suspected_detection p) ltac:(intros r [Hr _]%andb_prop; by apply Hcrit)) as B3.
  destruct (List.find (suspected_detection p) rs); [left; split; [by auto | apply Hsus, ensure_non_indexing_closed; done]|].
  pose proof (find_spec (fun r => is_fail_closed (outcome r)) rs) as H4.
  pose proof (Hbad (fun r => is_fail_closed (outcome r))
    ltac:(intros r Hr; unfold harmless; rewrite Hr; by rewrite andb_false_r)) as B4.
  destruct (List.find (fun r => is_fail_closed (outcome r)) rs) as [r|].
  { left. split_and!; [by auto | apply ensure_non_indexing_closed; done | done | |];
      simpl; destruct (outcome r); set_solver. }
  pose proof (find_spec (fun r => is_completed r && is_critical_detection r) rs) as H5.
  pose proof (Hbad (fun r => is_completed r && is_critical_detection r) Hcrit) as B5.
  destruct (List.find (fun r => is_completed r && is_critical_detection r) rs);
    [left; split; [by auto | apply Hsus, ensure_non_indexing_closed; done]|].
  destruct (require_known_csam p && negb (has_known_csam_scan_result rs)) eqn:Ereq.
  { destruct_bools. left. split_and!; [by auto | apply ensure_non_indexing_closed; done | done | set_solver | set_solver]. }
  right. split.
  - intros [?|[(r & Hr & Hh)|[Hq Hk]]]; [done | | by rewrite Hq, Hk in Ereq].
    unfold harmless in Hh. rewrite H1, H2, H4, H5 in Hh by done. done.
  - by destruct (chosen_candidate p (general_candidates p rs)) as [[r c]|].
Qed.

Lemma not_gated p rs :
  ~ gated p rs <-> rs <> [] /\ (forall r, r ∈ rs -> harmless r = true) /\
    (require_known_csam p = true -> has_known_csam_scan_result rs = true).
Proof.
  unfold gated. split.
  - intros Hn. split_and!.
    + intros ->. apply Hn. by left.
    + intros r Hr. destruct (harmless r) eqn:E; [done|]. exfalso. apply Hn. eauto.
    + intros Hq. destruct (has_known_csam_scan_result rs) eqn:E; [done|]. exfalso. apply Hn. auto.
  - intros (? & Hh & Hk) [?|[(r & Hr & ?)|[Hq ?]]]; [done | by rewrite Hh in * |]. by rewrite Hk in *.
Qed.

Lemma route_indexable p rs at_ : is_indexable (route rs p at_) = true <-> index_condition p rs.
Proof.
  unfold index_condition. pose proof (chosen_candidate_spec p rs) as Hc.
  destruct (route_cases p rs at_) as [(Hg & Hi & _)|[Hg Hv]].
  - rewrite Hi. split; [done|]. intros (? & Hr & ?). exfalso. revert Hg. apply not_gated. naive_solver.
  - apply not_gated in Hg as (Hne & Hh & Hk).
    destruct (chosen_candidate p (general_candidates p rs)) as [[r c]|]; rewrite Hv.
    + destruct Hc as (_ & _ & Ht). change (is_indexable (general_verdict p at_ r c)) with (allows_indexing (general_action p c)).
      rewrite Ht. naive_solver.
    + split; [|done]. intros _. split_and!; try done. intros r Hr. split; [by apply Hh|].
      unfold tolerated. by rewrite Hc.
Qed.

(** ** When a verdict is critical *)
Definition critical_condition (p : SafetyPolicy) (rs : list ProviderScanResult) : Prop :=
  (exists r, r ∈ rs /\ known_hash_match r = true) \/
  ((forall r, r ∈ rs -> provider_test_match r = false) /\
   ((exists r, r ∈ rs /\ suspected_detection p r = true) \/
    ((forall r, r ∈ rs -> is_fail_closed (outcome r) = false) /\
     exists r, r ∈ rs /\ is_completed r && is_critical_detection r = true))).

Lemma route_critical p rs at_ : critical (route rs p at_) = true <-> critical_condition p rs.
Proof.
  unfold route, critical_condition. case_decide as Hnil; [subst; simpl; set_solver|].
  pose proof (find_spec known_hash_match rs) as H1. destruct (List.find known_hash_match rs).
  { split; [|done]. intros _. left. eauto. }
  pose proof (find_spec provider_test_match rs) as H2. destruct (List.find provider_test_match rs) as [t|].
  { split; [done|]. intros [(r & Hr & ?)|[Hn _]]; [by rewrite H1 in * |]. destruct H2. by rewrite Hn in *. }
  pose proof (find_spec (suspected_detection p) rs) as H3. destruct (List.find (suspected_detection p) rs).
  { split; [|done]. intros _. right. split; [done|]. left. eauto. }
  pose proof (find_spec (fun r => is_fail_closed (outcome r)) rs) as H4.
  destruct (List.find (fun r => is_fail_closed (outcome r)) rs) as [f|].
  { split; [done|]. intros [(r & Hr & ?)|[_ [(r & Hr & ?)|[Hn _]]]]; [by rewrite H1 in * | by rewrite H3 in * |].
    destruct H4. by rewrite Hn in *. }
  pose proof (find_spec (fun r => is_completed r && is_critical_detection r) rs) as H5.
  destruct (List.find (fun r => is_completed r && is_critical_detection r) rs) as [c|].
  { split; [|done]. intros _. right. split; [done|]. right. split; [done|]. eauto. }
  split.
  - case_match; [done|]. destruct (chosen_candidate _ _) as [[? ?]|]; done.
  - intros [(r & Hr & ?)|[_ [(r & Hr & ?)|[_ (r & Hr & ?)]]]]; [by rewrite H1 in * | by rewrite H3 in * | by rewrite H5 in *].
Qed.

(** Both conditions speak about the set of results only. *)
#[export] Instance index_condition_proper p : Proper ((≡ₚ) ==> iff) (index_condition p).
Proof.
  intros rs rs' Hp. assert (Hin : forall r, r ∈ rs <-> r ∈ rs') by (intros; by rewrite Hp).
  assert (Hnil : rs = [] <-> rs' = []).
  { split; intros ->; [symmetry in Hp|]; by apply Permutation_nil_r in Hp. }
  unfold index_condition, has_known_csam_scan_result. rewrite !existsb_elem. unfold not. rewrite Hnil.
  by setoid_rewrite Hin.
Qed.

#[export] Instance critical_condition_proper p : Proper ((≡ₚ) ==> iff) (critical_condition p).
Proof.
  intros rs rs' Hp. assert (Hin : forall r, r ∈ rs <-> r ∈ rs') by (intros; by rewrite Hp).
  unfold critical_condition. by setoid_rewrite Hin.
Qed.

(** ** Stricter policies *)
Definition stricter (p p' : SafetyPolicy) : Prop :=
  suspected_threshold p' <= suspected_threshold p /\
  (require_known_csam p = true -> require_known_csam p' = true) /\
  (forall c, allows_indexing (general_action p' c) = true -> allows_indexing (general_action p c) = true).

Lemma general_category_spec r p :
  match general_category r p with
  | None => outcome r = Completed -> forall l, l ∈ result_labels r -> category_is_critical (category l) = true
  | Some c => outcome r = Completed /\ category_is_critical c = false /\
      (exists l, l ∈ result_labels r /\ category l = c) /\
      (allows_indexing (general_action p c) = true <->
         forall l, l ∈ result_labels r -> category_is_critical (category l) = false ->
                   allows_indexing (general_action p (category l)) = true)
  end.
Proof.
  unfold general_category. case_decide as Ho; [|done].
  set (general := filter _ _).
  assert (Hin : forall c, c ∈ general <-> category_is_critical c = false /\ exists l, l ∈ result_labels r /\ category l = c).
  { intros c. unfold general. rewrite list_elem_of_filter, list_elem_of_fmap. naive_solver. }
  pose proof (find_spec (fun c => negb (allows_indexing (general_action p c))) general) as Hf.
  destruct (List.find _ general) as [c|].
  - destruct Hf as [[Hc (l & Hl & <-)]%Hin Hn%negb_true_iff]. split_and!; [done | done | eauto |].
    rewrite Hn. split; [done|]. intros Ha. by rewrite Ha in Hn.
  - destruct general as [|c general'] eqn:E; simpl.
    + intros _ l Hl. destruct (category_is_critical (category l)) eqn:Ec; [done|].
      assert (Hbad : category l ∈ general) by (subst general; rewrite E; apply Hin; eauto).
      subst general. rewrite E in Hbad. by apply elem_of_nil in Hbad.
    + assert (Hc : c ∈ c :: general') by set_solver. pose proof (Hf _ Hc) as Hn%negb_false_iff.
      apply Hin in Hc as [Hcr Hex]. split_and!; try done. split; [|done]. intros _ l Hl Hlc.
      apply negb_false_iff, Hf, Hin. eauto.
Qed.

Lemma tolerated_stricter p p' r : stricter p p' -> tolerated p' r = true -> tolerated p r = true.
Proof.
  intros (Hthr & _ & Hact). unfold tolerated, general_candidate.
  pose proof (general_category_spec r p) as Hc. pose proof (general_category_spec r p') as Hc'.
  destruct (general_category r p) as [c|]; [|done]. destruct Hc as (Ho & Hcr & (l & Hl & Hlc) & Hall).
  destruct (general_category r p') as [c'|]; [|subst c; by rewrite (Hc' Ho l Hl) in Hcr].
  destruct Hc' as (_ & _ & _ & Hall'). cbn [mbind option_bind].
  destruct (bool_decide (decision_basis r = CategoryFlags)) eqn:Eb; simpl.
  - intros Ha. apply Hall. intros l' Hl' Hn. apply Hact. by apply Hall'.
  - destruct (effective_general_score r) as [s|].
    + destruct (Z.leb_spec (suspected_threshold p) s); [|done].
      destruct (Z.leb_spec (suspected_threshold p') s); [|lia].
      intros Ha. apply Hall. intros l' Hl' Hn. apply Hact. by apply Hall'.
    + intros Ha. apply Hall. intros l' Hl' Hn. apply Hact. by apply Hall'.
Qed.

(** ** Examples *)
Definition demo_hash_result : ProviderScanResult :=
  {| decision_basis := ScoreThreshold; coverage := None; result_provider := "shield";
     capability := KnownCsamHashMatch; outcome := NoKnownMatch; known_hash_match := false; score := None;
     result_labels := []; derived_tags := [] |}.
Definition demo_nsfw_result : ProviderScanResult :=
  {| decision_basis := ScoreThreshold; coverage := None; result_provider := "vlm";
     capability := GeneralMediaModeration; outcome := Completed; known_hash_match := false; score := Some 90;
     result_labels := [label_new Nsfw]; derived_tags := ["Cat"; "87%"; "cat"] |}.
Definition demo_failed_result : ProviderScanResult :=
  {| decision_basis := ScoreThreshold; coverage := None; result_provider := "vlm";
     capability := GeneralMediaModeration; outcome := Failed; known_hash_match := false; score := None;
     result_labels := []; derived_tags := [] |}.

(** ** Claims: the router *)

(** C21: content is indexable exactly when it was scanned, no result is a known hash match, a provider test match,
    a failure or a critical detection of any score, the required known-CSAM scan took place, and every general
    detection that fires is mapped to an indexable action. *)
Theorem route_indexable_iff p rs at_ :
  is_indexable (route rs p at_) = true <->
  rs <> [] /\
  (forall r, r ∈ rs -> known_hash_match r = false /\ provider_test_match r = false /\
     is_fail_closed (outcome r) = false /\ (is_completed r && is_critical_detection r) = false) /\
  (require_known_csam p = true -> exists r, r ∈ rs /\ capability r = KnownCsamHashMatch) /\
  (forall r c, r ∈ rs -> general_candidate p r = Some (r, c) -> allows_indexing (general_action p c) = true).
Proof.
  rewrite route_indexable. unfold index_condition, has_known_csam_scan_result. rewrite existsb_elem.
  assert (Hh : forall r, harmless r = true <-> known_hash_match r = false /\ provider_test_match r = false /\
     is_fail_closed (outcome r) = false /\ (is_completed r && is_critical_detection r) = false).
  { intros r. unfold harmless. rewrite !andb_true_iff, !negb_true_iff. tauto. }
  assert (Ht : forall r, tolerated p r = true <-> forall c, general_candidate p r = Some (r, c) ->
     allows_indexing (general_action p c) = true).
  { intros r. unfold tolerated. destruct (general_candidate p r) as [[r' c]|] eqn:E; [|naive_solver].
    apply general_candidate_result in E as ->. naive_solver. }
  setoid_rewrite Hh. setoid_rewrite Ht. setoid_rewrite bool_decide_eq_true.
  split.
  - intros (Hne & Hr & Hk). split; [done|]. split; [intros r Hin; apply (Hr r Hin)|]. split; [done|].
    intros r c Hin. apply (Hr r Hin).
  - intros (Hne & Hr & Hk & Hc). split; [done|]. split; [|done]. intros r Hin. split; [by apply Hr|].
    intros c. by apply Hc.
Qed.

(** the order in which providers are registered changes neither whether content is indexable nor whether the
    verdict is critical. *)
Theorem route_order_irrelevant p rs rs' at_ :
  rs ≡ₚ rs' ->
  is_indexable (route rs p at_) = is_indexable (route rs' p at_) /\
  critical (route rs p at_) = critical (route rs' p at_).
Proof.
  intros Hp. split; apply eq_bool_prop_intro.
  - by rewrite !Is_true_true, !route_indexable, Hp.
  - by rewrite !Is_true_true, !route_critical, Hp.
Qed.

Lemma route_order_irrelevant_witness :
  is_indexable (route [demo_hash_result; demo_nsfw_result] public_node_default "t")
  = is_indexable (route [demo_nsfw_result; demo_hash_result] public_node_default "t").
Proof. apply (route_order_irrelevant public_node_default _ _ "t"). apply Permutation_swap. Defined.

(** the router only ever closes: more scan results, and a stricter policy (a lower threshold, more required
    scans, fewer indexable actions), never make indexable what was not, once something was scanned and the
    required known-CSAM result is there. *)
Theorem route_monotone p p' rs rs' at_ :
  stricter p p' -> rs <> [] -> (forall r, r ∈ rs -> r ∈ rs') ->
  (require_known_csam p = true -> has_known_csam_scan_result rs = true) ->
  is_indexable (route rs p at_) = false -> is_indexable (route rs' p' at_) = false.
Proof.
  intros Hst Hne Hsub Hk Hi. apply not_true_iff_false. rewrite route_indexable. intros (_ & Hall & _).
  rewrite <- not_true_iff_false, route_indexable in Hi. apply Hi. split_and!; try done.
  intros r Hr. destruct (Hall r (Hsub r Hr)). split; [done|]. by eapply tolerated_stricter.
Qed.

Lemma route_monotone_witness :
  is_indexable (route [demo_hash_result; demo_failed_result; demo_nsfw_result] public_node_default "t") = false.
Proof.
  apply (route_monotone public_node_default public_node_default [demo_hash_result; demo_failed_result]);
    [split_and!; done | discriminate | set_solver | reflexivity | reflexivity].
Defined.

(** critical verdicts are exactly those with a CSAM or CSE reason and are never indexable; a known hash match
    always gives the confirmed, excluded verdict, whatever else failed; a suspicion is never confirmed. *)
Theorem critical_never_indexable p rs at_ :
  let v := route rs p at_ in
  (critical v = true <-> reason_code v ∈ [CsamConfirmed; CsamSuspected; CseSuspected]) /\
  (critical v = true -> is_indexable v = false) /\
  ((exists r, r ∈ rs /\ known_hash_match r = true) <-> reason_code v = CsamConfirmed) /\
  (reason_code v = CsamConfirmed -> action v = Exclude) /\
  (basis_for_verdict v = KnownHashMatch ->
     exists r, r ∈ rs /\ known_hash_match r = true /\ capability r = KnownCsamHashMatch).
Proof.
  intros v.
  assert (Hconf : if existsb known_hash_match rs then
      exists r, r ∈ rs /\ known_hash_match r = true /\ reason_code v = CsamConfirmed /\ action v = Exclude /\
                provider_capability v = Some (capability r)
    else reason_code v <> CsamConfirmed).
  { unfold v, route. case_decide; [by subst|].
    pose proof (find_spec known_hash_match rs) as H1. destruct (List.find known_hash_match rs) as [r|].
    - assert (existsb known_hash_match rs = true) as -> by (apply existsb_elem; eauto).
      exists r. destruct H1. done.
    - assert (existsb known_hash_match rs = false) as ->.
      { apply not_true_iff_false. rewrite existsb_elem. intros (r & Hr & Hk). by rewrite H1 in Hk. }
      repeat (case_match; try done); unfold suspected_verdict; simpl; try case_decide; try done;
        by destruct (outcome _). }
  assert (Hex : existsb known_hash_match rs = true <-> exists r, r ∈ rs /\ known_hash_match r = true) by apply existsb_elem.
  assert (Hcr : (critical v = true <-> reason_code v ∈ [CsamConfirmed; CsamSuspected; CseSuspected]) /\
                (critical v = true -> is_indexable v = false)).
  { destruct (route_cases p rs at_) as [(_ & Hi & _ & Hc & _)|[_ Hv]]; [done|].
    destruct (chosen_candidate _ _) as [[r c]|]; unfold v; rewrite Hv; simpl; [set_solver|]. case_match; set_solver. }
  destruct Hcr as [Hcr Hci]. destruct (existsb known_hash_match rs).
  - destruct Hconf as (r & Hr & Hk & Hrc & Ha & Hpc). split_and!; try done; [naive_solver|].
    unfold basis_for_verdict. rewrite Hrc, Hpc. case_decide; [|done]. naive_solver.
  - split_and!; try done; [naive_solver |].
    unfold basis_for_verdict. destruct (reason_code v); done.
Qed.
