(* ===== verification/SafetyRuntimeProps.v ===== *)
(** * What a scan report guarantees

    Advisories accompany allowed sensitive content; a failing provider closes the
    report; tags come only from harmless results; artifacts exist exactly for
    moderated subjects; a stored verdict is reused only for the same content and
    configuration and never after a failure. *)
From S2P Require Import Prelude RustStr Safety SafetyRuntime SafetyProps.

(** ** Advisories *)
Lemma general_candidate_category p r c :
  general_candidate p r = Some (r, c) -> general_category r p = Some c.
Proof. unfold general_candidate. intros (c' & Hc & Hx)%bind_Some. case_match; [|done]. by injection Hx as <-. Qed.

Lemma general_labels_kept p r c :
  general_candidate p r = Some (r, c) -> non_empty_labels r c = result_labels r /\
  exists l, l ∈ result_labels r /\ category l = c.
Proof.
  intros Hc%general_candidate_category. pose proof (general_category_spec r p) as Hs. rewrite Hc in Hs.
  destruct Hs as (_ & _ & (l & Hl & Hlc) & _). split; [|eauto].
  unfold non_empty_labels. destruct (result_labels r); [by apply elem_of_nil in Hl | done].
Qed.

(** Spam, malware and phishing are kept out of the index. *)
Definition closed_general_policy (p : SafetyPolicy) : Prop :=
  allows_indexing (on_spam p) = false /\ allows_indexing (on_malware_phishing p) = false.

Lemma indexable_category_advisory p c :
  closed_general_policy p -> allows_indexing (general_action p c) = true -> is_advisory_only c = true.
Proof. intros [Hs Hm]. destruct c; simpl; congruence. Qed.

Lemma general_advisory p at_ r c :
  general_candidate p r = Some (r, c) ->
  advisory_labels (general_verdict p at_ r c) =
    if allows_indexing (general_action p c) && is_advisory_only c
    then filter (fun l => is_advisory_only (category l) = true) (result_labels r) else [].
Proof. intros Hc. destruct (general_labels_kept p r c Hc) as [Hl _]. unfold general_verdict. simpl. by rewrite Hl. Qed.

(** advisories are attached only to indexable verdicts and only from advisory-only labels; and when spam and
    malware are not indexable, allowed content carries an advisory exactly when a general detection fired, so
    sensitive content is never silently indexed. *)
Theorem advisory_iff_sensitive p rs at_ :
  closed_general_policy p ->
  let v := route rs p at_ in
  (is_indexable v = false -> advisory_labels v = []) /\
  (forall l, l ∈ advisory_labels v -> is_advisory_only (category l) = true /\ l ∈ labels v) /\
  (is_labeled_allow v = true <->
     is_indexable v = true /\ exists r, r ∈ rs /\ general_candidate p r <> None).
Proof.
  intros Hcl v. pose proof (chosen_candidate_spec p rs) as Hs. subst v.
  destruct (route_cases p rs at_) as [(Hg & Hi & Ha & _)|[Hg Hv]].
  { unfold is_labeled_allow. rewrite Hi, Ha. split_and!; [done | set_solver | naive_solver]. }
  destruct (chosen_candidate p (general_candidates p rs)) as [[r c]|]; rewrite Hv.
  2: { split_and!; [done | set_solver |]. split; [done|]. intros [_ (r & Hr & Hn)]. by rewrite Hs in Hn. }
  destruct Hs as (Hr & Hc & _). pose proof (general_advisory p at_ r c Hc) as Hadv.
  destruct (general_labels_kept p r c Hc) as [Hkept (l & Hl & Hlc)].
  assert (Hidx : is_indexable (general_verdict p at_ r c) = allows_indexing (general_action p c)) by done.
  assert (Hlab : labels (general_verdict p at_ r c) = result_labels r) by (unfold general_verdict; simpl; by rewrite Hkept).
  unfold is_labeled_allow. rewrite Hadv, Hidx.
  pose proof (indexable_category_advisory p c Hcl) as Hadvc. split_and!.
  - by intros ->.
  - rewrite Hlab. destruct (_ && _); [|set_solver]. intros l' [? ?]%list_elem_of_filter. done.
  - destruct (allows_indexing (general_action p c)) eqn:Ea; simpl; [|naive_solver].
    rewrite Hadvc by done. split; [|].
    + intros _. split; [done|]. exists r. by rewrite Hc.
    + intros _. destruct (filter _ _) eqn:Ef; [|done]. exfalso.
      assert (Hin : l ∈ filter (fun l => is_advisory_only (category l) = true) (result_labels r)).
      { apply list_elem_of_filter. split; [|done]. rewrite Hlc. by apply Hadvc. }
      rewrite Ef in Hin. by apply elem_of_nil in Hin.
Qed.

Lemma advisory_iff_sensitive_witness :
  is_labeled_allow (route [demo_hash_result; demo_nsfw_result] public_node_default "t") = true.
Proof.
  apply (advisory_iff_sensitive public_node_default); [split; reflexivity|]. split; [reflexivity|].
  exists demo_nsfw_result. split; [set_solver | discriminate].
Defined.

(** ** The orchestrator *)
Lemma check_providers_ok prs :
  check_providers prs = Ok tt -> forall pr, pr ∈ prs -> capabilities pr <> [].
Proof.
  induction prs as [|pr prs IH]; simpl; [set_solver|].
  case_match; [done|]. destruct (capabilities pr) eqn:E; [done|]. intros Hc pr' [->|?]%elem_of_cons; [by rewrite E | auto].
Qed.

Lemma synthesize_failure_ok pr e :
  capabilities pr <> [] -> exists r, synthesize_failure pr e = Some r /\ is_fail_closed (outcome r) = true.
Proof.
  intros Hc. unfold synthesize_failure. destruct (capabilities pr); [done|]. cbn [head mbind option_bind].
  eexists. split; [done|]. by destruct e.
Qed.

Lemma run_providers_ok prs req guard :
  (forall pr, pr ∈ prs -> capabilities pr <> []) ->
  exists rs, run_providers prs req guard = Some rs /\ length rs = length prs /\
  (forall pr e, pr ∈ prs ->
     match guard with Some g => scan_guarded pr req g | None => scan pr req end = Err e ->
     exists r, r ∈ rs /\ is_fail_closed (outcome r) = true).
Proof.
  induction prs as [|pr prs IH]; intros Hc; simpl; [exists []; set_solver|].
  destruct IH as (rs & Hrs & Hlen & Herr); [set_solver|].
  set (res := match guard with Some g => scan_guarded pr req g | None => scan pr req end).
  assert (Hr : exists r, (match res with Ok r => Some r | Err e => synthesize_failure pr e end) = Some r /\
    (forall e, res = Err e -> is_fail_closed (outcome r) = true)).
  { destruct res as [r|e]; [exists r; done|]. destruct (synthesize_failure_ok pr e) as (r & -> & Hf); [apply Hc; set_solver|].
    exists r. by split. }
  destruct Hr as (r & -> & Hf). cbn [mbind option_bind]. rewrite Hrs. cbn [mbind option_bind].
  exists (r :: rs). split_and!; [done | simpl; congruence |].
  intros pr' e [->|Hin]%elem_of_cons He.
  - exists r. split; [set_solver|]. by apply (Hf e).
  - destruct (Herr pr' e Hin He) as (r' & ? & ?). exists r'. split; [set_solver|done].
Qed.

Lemma harmful_not_indexable p rs at_ r :
  r ∈ rs -> is_fail_closed (outcome r) = true -> is_indexable (route rs p at_) = false.
Proof.
  intros Hr Hf. apply not_true_iff_false. rewrite route_indexable. intros (_ & Hall & _).
  destruct (Hall r Hr) as [Hh _]. unfold harmless in Hh. rewrite Hf in Hh. by rewrite andb_false_r in Hh.
Qed.

(** ** Tags *)
Section tags.
Context (to_lowercase : string -> string).

Lemma push_tags_spec tags ts t :
  NoDup tags -> let out := foldl (push_tag to_lowercase) tags ts in
  NoDup out /\ (t ∈ out <-> t ∈ tags \/ exists s, s ∈ ts /\ normalize_tag to_lowercase s = Some t).
Proof.
  revert tags. induction ts as [|s ts IH]; intros tags Hnd; simpl; [set_solver|].
  assert (Hp : NoDup (push_tag to_lowercase tags s) /\
    forall t, t ∈ push_tag to_lowercase tags s <-> t ∈ tags \/ normalize_tag to_lowercase s = Some t).
  { unfold push_tag. destruct (normalize_tag to_lowercase s) as [u|]; [case_decide|].
    - split; [done|]. intros t'. naive_solver.
    - split; [apply NoDup_app; set_solver by apply NoDup_singleton|]. intros t'. rewrite elem_of_app. set_solver.
    - split; [done|]. naive_solver. }
  destruct Hp as [Hnd' Hin]. destruct (IH _ Hnd') as [? Ht]. split; [done|]. rewrite Ht, Hin. set_solver.
Qed.

Lemma derived_tags_spec v rs t :
  NoDup (derived_tags_for_index to_lowercase v rs) /\
  (t ∈ derived_tags_for_index to_lowercase v rs <->
     is_indexable v = true /\ exists r s, r ∈ rs /\ is_sensitive_result r = false /\ s ∈ derived_tags r /\
       normalize_tag to_lowercase s = Some t).
Proof.
  unfold derived_tags_for_index. destruct (is_indexable v); simpl; [|split; [constructor | set_solver]].
  set (step := fun tags r => _).
  enough (Hg : forall tags, NoDup tags -> NoDup (foldl step tags rs) /\
    (t ∈ foldl step tags rs <-> t ∈ tags \/ exists r s, r ∈ rs /\ is_sensitive_result r = false /\ s ∈ derived_tags r /\
       normalize_tag to_lowercase s = Some t)).
  { destruct (Hg [] ltac:(constructor)) as [? Hin]. split; [done|]. rewrite Hin. set_solver. }
  induction rs as [|r rs IH]; intros tags Hnd; simpl; [set_solver|].
  assert (Hs : NoDup (step tags r) /\ (t ∈ step tags r <-> t ∈ tags \/
    (is_sensitive_result r = false /\ exists s, s ∈ derived_tags r /\ normalize_tag to_lowercase s = Some t))).
  { unfold step. destruct (is_sensitive_result r).
    - split; [done|]. naive_solver.
    - destruct (push_tags_spec tags (derived_tags r) t Hnd) as [? ->]. split; [done|]. naive_solver. }
  destruct Hs as [Hnd' Hin]. destruct (IH _ Hnd') as [? ->]. split; [done|].
  rewrite Hin. setoid_rewrite elem_of_cons. clear. naive_solver.
Qed.
End tags.

(** ** Claims: reports *)

Definition demo_provider (n : string) (r : result ScanError ProviderScanResult) : SafetyProvider :=
  {| name := n; capabilities := [GeneralMediaModeration]; config_fingerprint := n; supports_content_reuse := true;
     scan := fun _ => r; scan_guarded := default_scan_guarded n (fun _ => r) |}.
Definition demo_request : ProviderScanRequest :=
  {| subject_kind := Some SPost; subject_id := Some "post-1"; media_hint := None; media_mime := None; text := None |}.

(** C39: a scan by a built orchestrator never panics and has one result per provider; if any provider fails, the
    report is not indexable and carries no tags, whatever the other providers answer. *)
Theorem scan_fails_closed (sha256_hex : string -> string) policy_json identity_json to_lowercase
    issuer prs p o now next_id req guard :
  build sha256_hex policy_json identity_json issuer prs p = Ok o ->
  exists rep, scan_subject_guarded to_lowercase o now next_id req guard = Some rep /\
    length (scan_results rep) = length prs /\
    verdict rep = route (scan_results rep) (orch_policy o) now /\
    (forall pr e, pr ∈ prs ->
       match guard with Some g => scan_guarded pr req g | None => scan pr req end = Err e ->
       is_indexable (verdict rep) = false /\ report_tags rep = []).
Proof.
  unfold build. intros (u1 & _ & (u2 & _ & ([] & Hc & [= <-])%result_bind_ok)%result_bind_ok)%result_bind_ok.
  unfold scan_subject_guarded. cbn [providers].
  destruct (run_providers_ok prs req guard (check_providers_ok prs Hc)) as (rs & -> & Hlen & Herr).
  cbn [mbind option_bind]. eexists. split; [done|]. unfold report_from_results.
  destruct (build_artifacts _ _ _ _ _) as [ev sg]. cbn [scan_results verdict report_tags orch_policy].
  split_and!; try done. intros pr e Hin He. destruct (Herr pr e Hin He) as (r & Hr & Hf).
  set (v := route _ _ _). assert (Hi : is_indexable v = false) by by eapply harmful_not_indexable.
  split; [done|]. unfold derived_tags_for_index. by rewrite Hi.
Qed.

Lemma scan_fails_closed_witness : exists o rep,
  build (fun s => s) policy_version String.append "node" [demo_provider "a" (Ok demo_hash_result); demo_provider "b" (Err (ETimeout "x"))] None = Ok o /\
  scan_subject_guarded (fun s => s) o "t" "id" demo_request None = Some rep /\ is_indexable (verdict rep) = false.
Proof.
  pose (prs := [demo_provider "a" (Ok demo_hash_result); demo_provider "b" (Err (ETimeout "x"))]).
  eexists.
  destruct (scan_fails_closed (fun s => s) policy_version String.append (fun s => s) "node" prs None _ "t" "id" demo_request None eq_refl)
    as (rep & Hs & _ & _ & Hf).
  exists rep. split; [reflexivity|]. split; [exact Hs|]. apply (Hf (demo_provider "b" (Err (ETimeout "x"))) (ETimeout "x")); [|reflexivity].
  unfold prs. apply elem_of_cons. right. apply elem_of_cons. left. reflexivity.
Defined.

(** the tags of a report are exactly the normalized tags of its non-sensitive results when the verdict is
    indexable, without repetition; none comes from a critical or hash-matching result, is a bare number, or names a
    score. *)
Theorem tags_are_harmless to_lowercase v rs t :
  NoDup (derived_tags_for_index to_lowercase v rs) /\
  (t ∈ derived_tags_for_index to_lowercase v rs <->
     is_indexable v = true /\ exists r s, r ∈ rs /\ is_sensitive_result r = false /\ s ∈ derived_tags r /\
       t = to_lowercase (trim s) /\ t <> "" /\ str_all is_number_char t = false /\
       contains "score" t = false /\ contains "confidence" t = false).
Proof.
  destruct (derived_tags_spec to_lowercase v rs t) as [Hnd Hin]. split; [done|]. rewrite Hin.
  assert (Hn : forall s, normalize_tag to_lowercase s = Some t <-> t = to_lowercase (trim s) /\ t <> "" /\
    str_all is_number_char t = false /\ contains "score" t = false /\ contains "confidence" t = false).
  { intros s. unfold normalize_tag. set (u := to_lowercase (trim s)). split.
    - destruct (str_is_empty u) eqn:E1; [done|]. destruct (str_all is_number_char u) eqn:E2; [done|].
      destruct (contains "score" u || contains "confidence" u) eqn:E3; [done|]. intros [= <-].
      apply orb_false_elim in E3 as [? ?]. split_and!; try done. by intros ->.
    - intros (-> & Hne & -> & -> & ->). by destruct u. }
  by setoid_rewrite Hn.
Qed.

(** ** Artifacts *)

(** The subject of a request, when it names one. *)
Definition request_target (req : ProviderScanRequest) : option (SubjectKind * string) :=
  k ← subject_kind req; sid ← subject_id req;
  if str_is_empty (trim sid) then None else Some (k, trim sid).

Lemma build_artifacts_eq v req issuer next_id p :
  build_artifacts v req issuer next_id p =
  if is_indexable v && negb (is_labeled_allow v) then (None, None)
  else match request_target req with
  | None => (None, None)
  | Some (k, sid) =>
      (build_event v k sid issuer next_id (basis_for_verdict v) (severity_for v) (primary_category v) p,
       build_risk_signal v k sid (basis_for_verdict v) (severity_for v) (primary_category v) p)
  end.
Proof.
  unfold build_artifacts, request_target. case_match; [done|].
  destruct (subject_kind req), (subject_id req); simpl; try done. by case_match.
Qed.

Lemma moderation_action_some v :
  is_indexable v && negb (is_labeled_allow v) = false -> is_Some (moderation_action_for v).
Proof.
  unfold moderation_action_for, is_indexable. destruct (action v); simpl; eauto.
  intros Hn%negb_false_iff. rewrite Hn. eauto.
Qed.

(** a moderation event is built exactly when the subject is named and the verdict is not a plain allow; a risk
    signal accompanies it exactly when the reason names content, never for scan failures, which stay local; no
    signal leaves the node wider than the policy allows for suspicions, and only confirmed findings reach
    subscribers by default. *)
Theorem artifacts_consistent rs p at_ req issuer next_id :
  let v := route rs p at_ in
  let '(event, signal) := build_artifacts v req issuer next_id p in
  (is_Some event <-> is_Some (request_target req) /\ (is_indexable v = false \/ is_labeled_allow v = true)) /\
  (is_Some signal <-> is_Some event /\ is_Some (primary_category v)) /\
  (forall e, event = Some e -> reason_code v ∈ [ScanFailed; ProviderUnavailable; Unscanned] ->
     event_visibility e = VLocal /\ signal = None) /\
  (forall s, signal = Some s ->
     signal_visibility s = VLocal \/
     (signal_basis s = ClassifierScore /\ signal_visibility s = suspected_signal_visibility p) \/
     (reason_code v = CsamConfirmed /\ signal_visibility s = VSubscribedNodes)).
Proof.
  intros v. rewrite build_artifacts_eq.
  assert (Hlab : is_indexable v && negb (is_labeled_allow v) = false <-> is_indexable v = false \/ is_labeled_allow v = true).
  { unfold is_labeled_allow. destruct (is_indexable v); simpl; [|tauto]. rewrite negb_involutive.
    destruct (advisory_labels v); simpl; naive_solver. }
  destruct (is_indexable v && negb (is_labeled_allow v)) eqn:E.
  { split_and!; try done; [|split; [by intros [? ?] | by intros [[? ?] _]]].
    split; [by intros [? ?]|]. intros [_ Hl]. by apply Hlab in Hl. }
  destruct (request_target req) as [[k sid]|].
  2: { split_and!; try done; [|split; [by intros [? ?] | by intros [[? ?] _]]].
       split; [by intros [? ?] | by intros [[? ?] _]]. }
  destruct (moderation_action_some v E) as [a Ha].
  unfold build_event, build_risk_signal. rewrite Ha. cbn [mbind option_bind]. split_and!.
  - split; [intros _; split; [eauto | by apply Hlab] | eauto].
  - destruct (primary_category v); cbn [mbind option_bind]; split; try naive_solver eauto.
  - intros e [= <-] Hr. unfold primary_category. set_unfold. destruct Hr as [-> | [-> | [-> | []]]]; done.
  - destruct (primary_category v) as [c|]; cbn [mbind option_bind]; [|done]. intros s [= <-]. simpl.
    unfold default_visibility_for, basis_for_verdict.
    destruct (reason_code v); repeat case_decide; simpl; auto;
      destruct (category_is_critical c); simpl; auto.
Qed.

(** the category of a risk signal can hide the reason of the exclusion: a result labelled sensitive first and spam
    second is excluded because of the spam, but its signal is filed under the advisory-only category. *)
Theorem signal_category_masks_spam :
  exists r v, v = route [demo_hash_result; r] public_node_default "t" /\
    general_category r public_node_default = Some Spam /\ action v = Exclude /\
    (risk_signal (report_from_results (fun s => s)
       {| providers := []; orch_policy := public_node_default; orch_issuer := "n"; scan_config_fingerprint := "" |}
       "t" "id" demo_request [demo_hash_result; r]) ≫= fun s => Some (signal_category s)) = Some Nsfw /\
    is_advisory_only Nsfw = true.
Proof.
  exists {| decision_basis := ScoreThreshold; coverage := None; result_provider := "vlm";
     capability := GeneralMediaModeration; outcome := Completed; known_hash_match := false; score := Some 90;
     result_labels := [label_new Nsfw; label_new Spam]; derived_tags := [] |}.
  eexists. split; [reflexivity|]. split_and!; vm_compute; reflexivity.
Qed.

(** a stored verdict is reused exactly for the same content under the same scan configuration when it is neither
    held nor an operational failure; a routed verdict that is reused saw a provider failure only if it is critical
    or a provider test match, so a failure that decided a verdict is always rescanned. *)
Theorem reuse_is_sound stored current :
  (decide_reuse (Some stored) current = Reuse <->
     source_fingerprint stored = Some (current_source current) /\
     stored_config_fingerprint stored = Some (current_config current) /\
     is_reusable_verdict (stored_verdict stored) = true) /\
  (forall rs p at_ r, stored_verdict stored = route rs p at_ -> decide_reuse (Some stored) current = Reuse ->
     r ∈ rs -> is_fail_closed (outcome r) = true ->
     critical (stored_verdict stored) = true \/ reason_code (stored_verdict stored) = ProviderTestMatch).
Proof.
  assert (Hiff : decide_reuse (Some stored) current = Reuse <->
     source_fingerprint stored = Some (current_source current) /\
     stored_config_fingerprint stored = Some (current_config current) /\
     is_reusable_verdict (stored_verdict stored) = true).
  { unfold decide_reuse. destruct (source_fingerprint stored) as [s|], (stored_config_fingerprint stored) as [c|];
      try (split; [done | naive_solver]).
    destruct (bool_decide_reflect (c = current_config current)), (bool_decide_reflect (s = current_source current)),
      (is_reusable_verdict (stored_verdict stored)); simpl; split; naive_solver. }
  split; [done|]. intros rs p at_ r Hv Hreuse Hr Hf. apply Hiff in Hreuse as (_ & _ & Hre).
  unfold is_reusable_verdict in Hre. apply andb_prop in Hre as [Hre _]. apply negb_true_iff in Hre.
  destruct (route_cases p rs at_) as [(_ & _ & _ & Hcr & Hn)|[Hg _]]; rewrite <- ?Hv in *.
  - rewrite Hcr. destruct (reason_code (stored_verdict stored)); try done; try set_solver; auto.
  - exfalso. apply Hg. right. left. exists r. split; [done|]. unfold harmless. rewrite Hf. by rewrite andb_false_r.
Qed.
