(* ===== verification/DomeTransition.v ===== *)
(** * Dome transitions (crates/core/src/dome_transition.rs, dome_connections.rs)

    Moving between Domes: the admission request and ticket, the client's transition
    phases, the coordinate changes and the crossing test.  Positions are
    centimetres; the additions of the source are on [i64]. *)
From S2P Require Import Prelude RustStr.

Definition DOME_TRANSITION_TICKET_TTL_MILLIS : Z := 15000.
Definition DOME_TRANSITION_CROSSING_HYSTERESIS_CM : Z := 10.
Definition DOME_ACCESS_PROOF_TTL_MILLIS : Z := 10000.

Inductive DomeDirection := North | East | South | West.
#[export] Instance DomeDirection_eq_dec : EqDecision DomeDirection.
Proof. solve_decision. Defined.

Definition opposite_dome_direction (d : DomeDirection) : DomeDirection :=
  match d with North => South | East => West | South => North | West => East end.

Inductive SpatialContext := CTopic (topic_id : string) | CChannel (topic_id channel_id : string).
#[export] Instance SpatialContext_eq_dec : EqDecision SpatialContext.
Proof. solve_decision. Defined.

Inductive DenialReason :=
| HostUnavailable | AccessDenied | OwnersBlocked | VisitorBlocked | CapacityFull
| AssetsUnavailable | StaleTopology | StaleSession | InvalidTicket.

Definition denial_code (r : DenialReason) : string :=
  match r with
  | HostUnavailable => "DOME_TRANSITION_HOST_UNAVAILABLE"
  | AccessDenied => "DOME_TRANSITION_ACCESS_DENIED"
  | OwnersBlocked => "DOME_TRANSITION_OWNERS_BLOCKED"
  | VisitorBlocked => "DOME_TRANSITION_VISITOR_BLOCKED"
  | CapacityFull => "DOME_TRANSITION_CAPACITY_FULL"
  | AssetsUnavailable => "DOME_TRANSITION_ASSETS_UNAVAILABLE"
  | StaleTopology => "DOME_TRANSITION_STALE_TOPOLOGY"
  | StaleSession => "DOME_TRANSITION_STALE_SESSION"
  | InvalidTicket => "DOME_TRANSITION_INVALID_TICKET"
  end.

Inductive AccessDecision := AccessAllowed | AccessDeniedFor (reason : DenialReason).

Record TransitionRequest := {
  transition_id : string;
  connection_id : string;
  topology_digest : string;
  spatial_context : SpatialContext;
  source_instance_id : string;
  source_instance_generation : Z;
  target_instance_id : string;
  target_instance_generation : Z;
  participant_pubkey : string;
  direction : DomeDirection;
  requested_at : Z
}.
#[export] Instance TransitionRequest_eq_dec : EqDecision TransitionRequest.
Proof. solve_decision. Defined.

Definition request_valid (r : TransitionRequest) : bool :=
  negb (str_is_empty (trim (transition_id r)) || str_is_empty (trim (connection_id r))
        || str_is_empty (trim (topology_digest r)) || str_is_empty (trim (source_instance_id r))
        || str_is_empty (trim (target_instance_id r))
        || bool_decide (source_instance_id r = target_instance_id r)
        || (source_instance_generation r =? 0) || (target_instance_generation r =? 0)
        || (requested_at r <=? 0)).

Record TransitionTicket := {
  request : TransitionRequest;
  target_lease_epoch : Z;
  target_session_id : string;
  ticket_expires_at : Z
}.
#[export] Instance TransitionTicket_eq_dec : EqDecision TransitionTicket.
Proof. solve_decision. Defined.

Definition ticket_valid_for (t : TransitionTicket) (r : TransitionRequest) (epoch : Z) (session : string)
    (now : Z) : result string unit :=
  _ ← ensure (request_valid r) "Dome transition admission request is invalid";
  ensure (negb (negb (bool_decide (request t = r)) || negb (target_lease_epoch t =? epoch)
                || negb (bool_decide (target_session_id t = session)) || (ticket_expires_at t <=? now)))
    "Dome transition admission ticket is invalid or expired".

(** ** Phases *)
Inductive Phase := Closed | Loading | Ready | Preparing | Provisional | Committing | Committed | PFailed.
#[export] Instance Phase_eq_dec : EqDecision Phase.
Proof. solve_decision. Defined.

Definition phase_step_valid (current next : Phase) : bool :=
  match current, next with
  | Closed, Loading | Loading, Ready | Ready, Preparing | Preparing, Provisional
  | Provisional, Committing | Committing, Committed => true
  | (Loading | Ready | Preparing | Provisional | Committing), PFailed => true
  | _, _ => false
  end.

Definition advance_dome_transition_phase (current next : Phase) : result string Phase :=
  if decide (current = next) then Ok current
  else if phase_step_valid current next then Ok next
  else Err "invalid Dome transition phase change".

(** ** Positions *)
Definition Vec3 : Type := Z * Z * Z.
Definition vx (p : Vec3) : Z := p.1.1.
Definition vy (p : Vec3) : Z := p.1.2.
Definition vz (p : Vec3) : Z := p.2.

Definition component_position_cm (dome local : Vec3) : Vec3 :=
  (vx dome + vx local, vy dome + vy local, vz dome + vz local).
Definition local_position_cm (component dome : Vec3) : Vec3 :=
  (vx component - vx dome, vy component - vy dome, vz component - vz dome).
Definition transform_avatar_between_domes_cm (source_local source target : Vec3) : Vec3 :=
  local_position_cm (component_position_cm source source_local) target.

Definition transition_axis_cm (p : Vec3) (d : DomeDirection) : Z :=
  match d with North => - vz p | East => vx p | South => vz p | West => - vx p end.

(** The numbers of [fixed_dome_v1] that the code below uses. *)
Definition INNER_RADIUS_CM : Z := 2000.
Definition APEX_HEIGHT_CM : Z := 2000.
Definition CONNECTION_ZONE_DEPTH_CM : Z := 1500.
Definition CONNECTION_BOUNDARY_OFFSET_CM : Z := 2850.

Definition ADJACENT_OFFSET_CM : Z := 5700.

(** The centre of the Dome behind an opening. *)
Definition direction_offset_cm (d : DomeDirection) : Vec3 :=
  match d with
  | North => (0, 0, - ADJACENT_OFFSET_CM)
  | East => (ADJACENT_OFFSET_CM, 0, 0)
  | South => (0, 0, ADJACENT_OFFSET_CM)
  | West => (- ADJACENT_OFFSET_CM, 0, 0)
  end.

(** [axis.saturating_sub(start).clamp(0, depth)] in millionths of the zone. *)
Definition transition_progress_millionths (p : Vec3) (d : DomeDirection) : Z :=
  let start := CONNECTION_BOUNDARY_OFFSET_CM - CONNECTION_ZONE_DEPTH_CM / 2 in
  let travelled := Z.max 0 (Z.min CONNECTION_ZONE_DEPTH_CM (sat_i64 (transition_axis_cm p d - start))) in
  (travelled * 1000000) / CONNECTION_ZONE_DEPTH_CM.

Definition crossed_dome_transition_center (previous current : Vec3) (d : DomeDirection) : bool :=
  (transition_axis_cm previous d <=? CONNECTION_BOUNDARY_OFFSET_CM - DOME_TRANSITION_CROSSING_HYSTERESIS_CM)
  && (CONNECTION_BOUNDARY_OFFSET_CM + DOME_TRANSITION_CROSSING_HYSTERESIS_CM <=? transition_axis_cm current d).
