(* ===== verification/DomeLedger.v ===== *)
(** * Input ledger and rate windows (crates/metaverse-host/src/support.rs)

    The ledger remembers, per signer, the last accepted input of a Dome session so
    that a signed input cannot be replayed.  Signers that left are remembered until
    their last input expires, at most [limit] of them at a time. *)
From S2P Require Import Prelude RustStr DomeTransition.

Record InputMark := { sequence : Z; mark_sent_at : Z }.

Record InputLedger := {
  active : gmap string InputMark;
  departed : gmap string (Z * InputMark);
  departures : Z
}.
Definition empty_ledger : InputLedger := {| active := ∅; departed := ∅; departures := 0 |}.

Definition input_expired (sent_at now : Z) : bool :=
  sat_i64 (sent_at + DOME_ACCESS_PROOF_TTL_MILLIS) <=? now.

Definition mark (l : InputLedger) (id : string) : option InputMark :=
  match active l !! id with
  | Some m => Some m
  | None => snd <$> departed l !! id
  end.

(** [retain] of the departed rows that have not expired. *)
Definition drop_expired (now : Z) (l : InputLedger) : InputLedger :=
  {| active := active l;
     departed := filter (fun kv => input_expired (mark_sent_at kv.2.2) now = false) (departed l);
     departures := departures l |}.

Definition ledger_check (id : string) (seq sent_at now : Z) (l : InputLedger)
    : result string unit * InputLedger :=
  let l := drop_expired now l in
  if input_expired sent_at now then (Err "DOME_SESSION_INPUT_EXPIRED", l)
  else if seq <=? match mark l id with Some m => sequence m | None => 0 end
  then (Err "stale Dome session input sequence", l)
  else (Ok tt, l).

Definition ledger_record (id : string) (seq sent_at : Z) (is_active : bool) (l : InputLedger) : InputLedger :=
  let m := {| sequence := seq;
              mark_sent_at := match mark l id with Some m => Z.max (mark_sent_at m) sent_at | None => sent_at end |} in
  if is_active then
    {| active := <[id := m]> (active l); departed := delete id (departed l); departures := departures l |}
  else
    {| active := active l; departed := alter (fun row => (row.1, m)) id (departed l); departures := departures l |}.

(** Iteration of a [BTreeMap] in key order, and [min_by_key] on it (the first minimum). *)
Definition departed_iter (d : gmap string (Z * InputMark)) : list (string * (Z * InputMark)) :=
  sort_by (fun a b => rust_leb a.1 b.1) (map_to_list d).

Definition oldest_departed (d : gmap string (Z * InputMark)) : option string :=
  fst <$> foldr (fun x acc => match acc with
                              | None => Some x
                              | Some y => if x.2.1 <=? y.2.1 then Some x else Some y
                              end) None (departed_iter d).

Definition ledger_retire (id : string) (limit : Z) (l : InputLedger) : InputLedger :=
  let m := default {| sequence := 0; mark_sent_at := 0 |} (mark l id) in
  let n := departures l + 1 in
  let d := <[id := (n, m)]> (departed l) in
  let d := if limit <? Z.of_nat (size d) then
             match oldest_departed d with Some old => delete old d | None => d end
           else d in
  {| active := delete id (active l); departed := d; departures := n |}.

(** ** Rate windows *)
Record RateWindow := { started_at : Z; count : Z }.
Definition default_window : RateWindow := {| started_at := 0; count := 0 |}.

Definition window_allows (w : RateWindow) (now duration amount limit : Z) : bool * RateWindow :=
  let w := if (started_at w =? 0) || (duration <=? sat_i64 (now - started_at w))
           then {| started_at := now; count := 0 |} else w in
  let w := {| started_at := started_at w; count := u64_saturating_add (count w) amount |} in
  (count w <=? limit, w).

(** ** Invariant of the ledger *)
Record ledger_wf (l : InputLedger) : Prop := {
  lg_orders : forall id row, departed l !! id = Some row -> row.1 <= departures l;
  lg_distinct : forall i j r s, departed l !! i = Some r -> departed l !! j = Some s -> r.1 = s.1 -> i = j
}.

Lemma drop_expired_lookup now l id row :
  departed (drop_expired now l) !! id = Some row <->
  departed l !! id = Some row /\ input_expired (mark_sent_at row.2) now = false.
Proof. simpl. by rewrite map_lookup_filter_Some. Qed.

Lemma drop_expired_wf now l : ledger_wf l -> ledger_wf (drop_expired now l).
Proof.
  intros [Ho Hd]. split.
  - intros id row [Hr _]%drop_expired_lookup. by eapply Ho.
  - intros i j r s [Hr _]%drop_expired_lookup [Hs _]%drop_expired_lookup. by eapply Hd.
Qed.

Lemma ledger_check_snd id seq sent now l : (ledger_check id seq sent now l).2 = drop_expired now l.
Proof. unfold ledger_check. by repeat case_match. Qed.

Lemma ledger_record_wf id seq sent act l : ledger_wf l -> ledger_wf (ledger_record id seq sent act l).
Proof.
  intros [Ho Hd]. unfold ledger_record. destruct act; split; simpl.
  - intros i row [_ Hi]%lookup_delete_Some. by eapply Ho.
  - intros i j r s [_ Hr]%lookup_delete_Some [_ Hs]%lookup_delete_Some. by eapply Hd.
  - intros i row. rewrite lookup_alter. case_decide; [subst|by apply Ho].
    intros (row' & ? & ->)%fmap_Some. simpl. by eapply Ho.
  - intros i j r s.
    assert (Hgen : forall mk k x, (if decide (id = k) then (fun row : Z * InputMark => (row.1, mk)) <$> departed l !! id
       else departed l !! k) = Some x -> exists y, departed l !! k = Some y /\ y.1 = x.1).
    { intros mk k x. case_decide; [subst|eauto]. intros (y & ? & ->)%fmap_Some. eauto. }
    rewrite !lookup_alter. intros Hr Hs. apply Hgen in Hr as (r' & Hr & Er). apply Hgen in Hs as (s' & Hs & Es). intros Hrs.
    eapply Hd; [done | done | congruence].
Qed.

(** ** The oldest departed signer *)
Lemma oldest_departed_spec d :
  match oldest_departed d with
  | None => d = ∅
  | Some id => exists row, d !! id = Some row /\ (forall j s, d !! j = Some s -> row.1 <= s.1)
  end.
Proof.
  unfold oldest_departed.
  assert (Hin : forall k row, (k, row) ∈ departed_iter d <-> d !! k = Some row).
  { intros k row. unfold departed_iter. by rewrite elem_of_sort_by, elem_of_map_to_list. }
  assert (Hnil : departed_iter d = [] -> d = ∅).
  { intros Hn. apply map_empty. intros k. destruct (d !! k) as [row|] eqn:E; [|done].
    apply Hin in E. rewrite Hn in E. by apply elem_of_nil in E. }
  generalize dependent (departed_iter d). intros it Hin Hnil.
  set (f := foldr _ _). assert (Hf : match f it with
    | None => it = [] | Some x => x ∈ it /\ (forall y, y ∈ it -> x.2.1 <= y.2.1) end).
  { clear Hin Hnil. induction it as [|x it IH]; [done|]. simpl. fold (f it).
    destruct (f it) as [y|].
    - destruct IH as [Hy Hle]. destruct (Z.leb_spec x.2.1 y.2.1); (split; [set_solver|]);
        intros z [->|Hz]%elem_of_cons; try lia; specialize (Hle z Hz); lia.
    - subst it. split; [set_solver|]. intros z [->|Hz]%elem_of_cons; [lia | by apply elem_of_nil in Hz]. }
  destruct (f it) as [[id row]|]; simpl; [|by apply Hnil].
  destruct Hf as [Hx Hle]. exists row. split; [by apply Hin|].
  intros j s Hj%Hin. apply (Hle (j, s) Hj).
Qed.

Lemma ledger_retire_wf id limit l : ledger_wf l -> ledger_wf (ledger_retire id limit l).
Proof.
  intros [Ho Hd]. unfold ledger_retire. set (m := default _ _). set (d := <[id := _]> (departed l)).
  assert (Hd' : ledger_wf {| active := active l; departed := d; departures := departures l + 1 |}).
  { split; simpl.
    - intros i row [[<- <-]|[_ Hi]]%lookup_insert_Some; simpl; [lia|]. specialize (Ho i row Hi). lia.
    - intros i j r s [[<- <-]|[? Hi]]%lookup_insert_Some [[<- <-]|[? Hj]]%lookup_insert_Some; simpl; try done.
      + intros Hs. specialize (Ho j s Hj). lia.
      + intros Hs. specialize (Ho i r Hi). lia.
      + by eapply Hd. }
  destruct Hd' as [Ho' Hd']. simpl in *.
  case_match; [case_match|]; split; simpl; try done.
  - intros i row [_ Hi]%lookup_delete_Some. by eapply Ho'.
  - intros i j r r' [_ Hi]%lookup_delete_Some [_ Hj]%lookup_delete_Some. by eapply Hd'.
Qed.

(** ** Coverage

    [covered l o id seq sent]: the signer's record is at least as new as the input,
    and it is active or left after the [o]-th departure. *)
Definition covered (l : InputLedger) (o : Z) (id : string) (seq sent : Z) : Prop :=
  exists m, seq <= sequence m /\ sent <= mark_sent_at m /\
    (active l !! id = Some m \/
     (active l !! id = None /\ exists n, departed l !! id = Some (n, m) /\ o < n)).

(** An accepted input stays rejected: it expired, it is covered, or many signers left since. *)
Definition guarded (l : InputLedger) (o limit : Z) (id : string) (seq sent now : Z) : Prop :=
  input_expired sent now = true \/ limit <= departures l - o \/ covered l o id seq sent.

Lemma input_expired_mono sent sent' now now' :
  sent <= sent' -> now <= now' -> input_expired sent' now = true -> input_expired sent now' = true.
Proof. unfold input_expired, sat_i64. lia. Qed.

Lemma covered_mark l o id seq sent :
  covered l o id seq sent -> exists m, mark l id = Some m /\ seq <= sequence m /\ sent <= mark_sent_at m.
Proof.
  intros (m & ? & ? & [Ha|(Ha & n & Hd & _)]); exists m; unfold mark; rewrite Ha; [done|].
  rewrite Hd. done.
Qed.

Lemma guarded_rejects l o limit id seq sent now :
  guarded l o limit id seq sent now -> departures l - o < limit ->
  exists e, (ledger_check id seq sent now l).1 = Err e.
Proof.
  intros Hg Hd. unfold ledger_check. destruct (input_expired sent now) eqn:Ex; [eauto|].
  destruct Hg as [?|[?|Hc]]; [congruence | lia |].
  assert (Hm : exists m, mark (drop_expired now l) id = Some m /\ seq <= sequence m).
  { destruct Hc as (m & ? & Hs & [Ha|(Ha & n & Hdep & _)]); exists m; unfold mark; simpl; rewrite Ha; [done|].
    assert (Hr : departed (drop_expired now l) !! id = Some (n, m)).
    { apply drop_expired_lookup. split; [done|]. simpl.
      destruct (input_expired (mark_sent_at m) now) eqn:Em; [|done].
      rewrite (input_expired_mono sent (mark_sent_at m) now now) in Ex by (done || lia). done. }
    simpl in Hr. by rewrite Hr. }
  destruct Hm as (m & -> & ?). destruct (Z.leb_spec seq (sequence m)); [eauto|lia].
Qed.

Lemma guarded_check l o limit id seq sent now now' id' seq' sent' :
  now <= now' -> guarded l o limit id seq sent now ->
  guarded (ledger_check id' seq' sent' now' l).2 o limit id seq sent now'.
Proof.
  intros Hn Hg. rewrite ledger_check_snd. destruct Hg as [?|[?|Hc]].
  - left. eapply input_expired_mono; [|done|done]. lia.
  - by right; left.
  - destruct Hc as (m & Hseq & Hs & [Ha|(Ha & n & Hd & Ho)]).
    + right; right. exists m. split_and!; try done. by left.
    + destruct (input_expired (mark_sent_at m) now') eqn:Em.
      * left. eapply input_expired_mono; [exact Hs|reflexivity|done].
      * right; right. exists m. split_and!; try done. right. split; [done|]. exists n.
        split; [|done]. by apply drop_expired_lookup.
Qed.

Lemma guarded_time l o limit id seq sent now now' :
  now <= now' -> guarded l o limit id seq sent now -> guarded l o limit id seq sent now'.
Proof. intros Hn [?|?]; [left | by right]. eapply input_expired_mono; [reflexivity|done|done]. Qed.

(** Recording a newer input of the same signer, or any input of another. *)
Lemma guarded_record l o limit id seq sent now id' seq' sent' act :
  (id' = id -> forall m, mark l id = Some m -> sequence m <= seq') ->
  guarded l o limit id seq sent now ->
  guarded (ledger_record id' seq' sent' act l) o limit id seq sent now.
Proof.
  intros Hnew Hg. destruct Hg as [?|[?|Hc]]; [by left | right; left; by destruct act |]. right; right.
  destruct (covered_mark l o id seq sent Hc) as (m0 & Hm0 & Hq & Hs).
  destruct (decide (id' = id)) as [->|Hne].
  - specialize (Hnew eq_refl m0 Hm0). unfold ledger_record. rewrite Hm0. destruct act.
    + eexists. split_and!; [| |left; simpl; by rewrite lookup_insert_eq]; simpl; lia.
    + destruct Hc as (m & Hseq & Hsent & [Ha|(Ha & n & Hd & Ho)]).
      * exists m. split_and!; try done. by left.
      * eexists. split_and!; [| |right; split; [done|]; exists n; split; [|done]; simpl;
          by rewrite lookup_alter_eq, Hd]; simpl; lia.
  - destruct Hc as (m & Hseq & Hsent & Hc). exists m. split_and!; try done. unfold ledger_record.
    destruct act; simpl.
    + rewrite lookup_insert_ne, lookup_delete_ne by done. done.
    + rewrite lookup_alter_ne by done. done.
Qed.

(** How many rows are newer than a given one. *)
Lemma departed_count (d : gmap string (Z * InputMark)) lo hi :
  (forall i r, d !! i = Some r -> lo <= r.1 <= hi) ->
  (forall i j r s, d !! i = Some r -> d !! j = Some s -> r.1 = s.1 -> i = j) ->
  Z.of_nat (size d) <= Z.max 0 (hi - lo + 1).
Proof.
  intros Hb Hd.
  assert (Hinj : NoDup (map (fun p => p.2.1) (map_to_list d))).
  { apply NoDup_fmap_2_strong; [|apply NoDup_map_to_list].
    intros [i r] [j s] Hi%elem_of_map_to_list Hj%elem_of_map_to_list Heq. simpl in Heq.
    assert (i = j) as -> by by eapply Hd. congruence. }
  assert (Hsub : list_to_set (C := gset Z) (map (fun p => p.2.1) (map_to_list d))
    ⊆ list_to_set (seqZ lo (hi - lo + 1))).
  { intros z. rewrite !elem_of_list_to_set, list_elem_of_fmap, elem_of_seqZ.
    intros ([i r] & -> & Hi%elem_of_map_to_list). specialize (Hb i r Hi). simpl. lia. }
  apply subseteq_size in Hsub. rewrite size_list_to_set in Hsub by done.
  rewrite size_list_to_set in Hsub by apply NoDup_seqZ. rewrite length_map, length_seqZ in Hsub.
  rewrite length_map_to_list in Hsub. lia.
Qed.

(** A departure keeps an input guarded: the record moves to the departed side, and
    the oldest record is only dropped when [limit] later signers have left. *)
Lemma guarded_retire l o limit id seq sent now id' :
  ledger_wf l -> o <= departures l -> guarded l o limit id seq sent now ->
  guarded (ledger_retire id' limit l) o limit id seq sent now.
Proof.
  intros Hwf Hol Hg. destruct Hg as [?|[Hlim|Hc]]; [by left | right; left; simpl; lia |].
  destruct (covered_mark l o id seq sent Hc) as (m0 & Hm0 & Hq & Hs).
  pose proof (ledger_retire_wf id' (Z.of_nat (size (departed l)) + 1) l Hwf) as [Ho' Hd'].
  unfold ledger_retire in *. set (m := default _ _) in *. set (d := <[id' := _]> (departed l)) in *.
  assert (Hcov : covered {| active := delete id' (active l); departed := d; departures := departures l + 1 |} o id seq sent).
  { destruct (decide (id' = id)) as [->|Hne].
    - exists m0. split_and!; try done. right. simpl. rewrite lookup_delete_eq. split; [done|].
      exists (departures l + 1). unfold d, m. rewrite lookup_insert_eq, Hm0. split; [done|lia].
    - destruct Hc as (m1 & ? & ? & Hc). exists m1. split_and!; try done. simpl. unfold d.
      by rewrite lookup_delete_ne, lookup_insert_ne. }
  assert (Hsz : Z.of_nat (size d) <= Z.of_nat (size (departed l)) + 1).
  { unfold d. destruct (departed l !! id') eqn:E.
    - rewrite map_size_insert_Some by eauto. lia.
    - rewrite map_size_insert_None by done. lia. }
  destruct (Z.ltb_spec (Z.of_nat (size (departed l)) + 1) (Z.of_nat (size d))) as [?|_]; [lia|]. simpl in *.
  destruct (Z.ltb_spec limit (Z.of_nat (size d))) as [Hover|]; [|by right; right].
  pose proof (oldest_departed_spec d) as Hold. destruct (oldest_departed d) as [old|]; [|by right; right].
  destruct Hold as (row & Hrow & Hmin).
  destruct Hcov as (m1 & ? & ? & [Ha|(Ha & n & Hn & Hon)]); simpl in *.
  { right; right. exists m1. split_and!; try done. by left. }
  destruct (decide (old = id)) as [->|Hne].
  - right; left. simpl. simplify_eq. simpl in Hmin.
    pose proof (departed_count d n (departures l + 1)) as Hcnt.
    enough (Z.of_nat (size d) <= Z.max 0 (departures l + 1 - n + 1)) by lia.
    apply Hcnt; [|exact Hd']. intros i r Hi. split; [by eapply Hmin | by eapply Ho'].
  - right; right. exists m1. split_and!; try done. right. split; [done|]. exists n. simpl.
    by rewrite lookup_delete_ne.
Qed.

Lemma ledger_departures_mono id limit l : departures l <= departures (ledger_retire id limit l).
Proof. simpl. lia. Qed.

(** ** Accepting an input *)
Lemma check_accepts id seq sent now l u l' :
  ledger_check id seq sent now l = (Ok u, l') ->
  l' = drop_expired now l /\ input_expired sent now = false /\
  match mark l' id with Some m => sequence m | None => 0 end < seq.
Proof.
  unfold ledger_check. destruct (input_expired sent now) eqn:E; [done|].
  destruct (Z.leb_spec seq match mark (drop_expired now l) id with Some m => sequence m | None => 0 end); [done|].
  by intros [= _ <-].
Qed.

(** Leaving does not raise the recorded sequence. *)
Lemma retire_mark id limit l m :
  mark (ledger_retire id limit l) id = Some m ->
  sequence m = match mark l id with Some m => sequence m | None => 0 end.
Proof.
  unfold ledger_retire. set (d := <[id := _]> (departed l)). unfold mark at 1. cbn [active departed].
  rewrite lookup_delete_eq. intros ([n m'] & Hrow & ->)%fmap_Some. cbn [snd].
  assert (Hd : d !! id = Some (n, m')).
  { destruct (limit <? Z.of_nat (size d)); [|done]. destruct (oldest_departed d); [|done].
    by apply lookup_delete_Some in Hrow as [_ ?]. }
  unfold d in Hd. rewrite lookup_insert_eq in Hd. injection Hd as _ <-. by destruct (mark l id).
Qed.

(** The newest departure is kept. *)
Lemma retire_keeps_newest id limit l : ledger_wf l -> 1 <= limit ->
  exists m, departed (ledger_retire id limit l) !! id = Some (departures l + 1, m).
Proof.
  intros [Ho Hdis] Hlim. unfold ledger_retire. cbn [departed]. set (m := default _ _). exists m.
  set (d := <[id := _]> (departed l)).
  assert (Hid : d !! id = Some (departures l + 1, m)) by apply lookup_insert_eq.
  destruct (Z.ltb_spec limit (Z.of_nat (size d))) as [Hover|]; [|done].
  pose proof (oldest_departed_spec d) as Hold. destruct (oldest_departed d) as [old|]; [|done].
  destruct Hold as (row & Hrow & Hmin). destruct (decide (old = id)) as [->|]; [|by rewrite lookup_delete_ne].
  exfalso. simplify_eq. cbn [fst] in Hmin.
  assert (Hd : forall i r, d !! i = Some r -> i = id).
  { intros i r Hi. destruct (decide (i = id)); [done|]. specialize (Hmin i r Hi).
    unfold d in Hi. rewrite lookup_insert_ne in Hi by done. specialize (Ho i r Hi). lia. }
  pose proof (departed_count d (departures l + 1) (departures l + 1)) as Hc.
  enough (Z.of_nat (size d) <= Z.max 0 (departures l + 1 - (departures l + 1) + 1)) by lia. apply Hc.
  - intros i r Hi. rewrite (Hd i r Hi), Hid in Hi. simplify_eq. simpl. lia.
  - intros i j r s Hi Hj _. by rewrite (Hd i r Hi), (Hd j s Hj).
Qed.

(** Recording an input guards it: for an active signer, and for one that just left. *)
Lemma record_guards_active l o limit id seq sent now :
  guarded (ledger_record id seq sent true l) o limit id seq sent now.
Proof.
  right; right. unfold ledger_record. eexists. split_and!; [| |left; simpl; by rewrite lookup_insert_eq]; simpl.
  - lia.
  - destruct (mark l id); lia.
Qed.
Lemma record_guards_departed l limit id seq sent now : ledger_wf l ->
  guarded (ledger_record id seq sent false (ledger_retire id limit l)) (departures l) limit id seq sent now.
Proof.
  intros Hwf. destruct (decide (limit <= 0)); [right; left; simpl; lia|].
  destruct (retire_keeps_newest id limit l Hwf ltac:(lia)) as [m Hm].
  right; right. eexists. split_and!; [| |right; split; [simpl; apply lookup_delete_eq|];
    exists (departures l + 1); split; [|lia]; cbn [departed ledger_record]; rewrite lookup_alter_eq, Hm; reflexivity];
    cbn [sequence mark_sent_at].
  - lia.
  - destruct (mark _ id); lia.
Qed.
