(* ===== verification/DomeSession.v ===== *)
(** * A hosted Dome session (crates/metaverse-host/src/lib.rs, transition.rs;
    input validation of crates/core/src/dome_hosting.rs and game.rs)

    The host applies signed inputs of participants, admits visitors that cross from
    another Dome with a reservation ticket, and evicts participants that leave or go
    silent.  The model keeps the bookkeeping of the session and leaves the physics
    engine (rapier) outside: what physics answers is part of the environment of a
    call, [Env].  A call returns its result together with the state it leaves, since
    an error keeps what was already changed. *)
From S2P Require Import Prelude RustStr DomeTransition DomeLedger.

(** ** Data *)
Inductive BudgetScope := ScopeDome | ScopePlayer | ScopeHost | ScopeClient.
(** The resources a session meters; the enum of the source also names those of other parts. *)
Inductive BudgetResource :=
| PersistentProps | GuestProps | ModelBytes | Colliders | RigidBodies | Participants | PropSpawnRate
| InteractionRate | InputBandwidth | Impulse | AssetFormat.
Inductive RejectionReason := LimitExceeded | RateExceeded | InvalidValue | UnverifiedAsset.

Definition scope_code (x : BudgetScope) : string :=
  match x with ScopeDome => "DOME" | ScopePlayer => "PLAYER" | ScopeHost => "HOST" | ScopeClient => "CLIENT" end.
Definition resource_code (x : BudgetResource) : string :=
  match x with
  | PersistentProps => "PERSISTENT_PROPS" | GuestProps => "GUEST_PROPS" | ModelBytes => "MODEL_BYTES"
  | Colliders => "COLLIDERS" | RigidBodies => "RIGID_BODIES" | Participants => "PARTICIPANTS"
  | PropSpawnRate => "PROP_SPAWN_RATE" | InteractionRate => "INTERACTION_RATE"
  | InputBandwidth => "INPUT_BANDWIDTH" | Impulse => "IMPULSE" | AssetFormat => "ASSET_FORMAT"
  end.
Definition reason_code (x : RejectionReason) : string :=
  match x with
  | LimitExceeded => "LIMIT_EXCEEDED" | RateExceeded => "RATE_EXCEEDED" | InvalidValue => "INVALID_VALUE"
  | UnverifiedAsset => "UNVERIFIED_ASSET"
  end.
Definition rejection_code (sc : BudgetScope) (re : BudgetResource) (rs : RejectionReason) : string :=
  "METAVERSE_" ++s scope_code sc ++s "_" ++s resource_code re ++s "_" ++s reason_code rs.

Inductive SessionError :=
| Rejection (scope : BudgetScope) (resource : BudgetResource) (reason : RejectionReason) (observed limit : Z)
| Message (m : string).

Inductive BodyKind := Avatar | PersistentProp | GuestProp.
#[export] Instance BodyKind_eq_dec : EqDecision BodyKind.
Proof. solve_decision. Defined.

Inductive Collider :=
| Capsule (center : Vec3) (radius half_height : Z)
| Cuboid (center half_extents : Vec3).

(** Minimum and maximum corner, in centimetres. *)
Definition Bounds : Type := Vec3 * Vec3.

(** The asset kind, the budget metadata and the primitive shapes are only compared. *)
Record AssetRef := {
  asset_kind : Z;
  blob_hash : string;
  mime_type : option string;
  size_bytes : option Z;
  asset_name : option string;
  budget_metadata : option Z
}.
#[export] Instance AssetRef_eq_dec : EqDecision AssetRef.
Proof. solve_decision. Defined.

Record Prop_ := {
  prop_id : string;
  asset_ref : option AssetRef;
  primitive_fallback : Z;
  position : Vec3;
  rotation : Vec3;
  scale : Vec3;
  visual_only : bool;
  interactions : list Z;
  collider : option Collider
}.

Inductive InputKind :=
| IJoin (avatar_collider : option Collider)
| ILeave
| IKeepAlive
| IMove (position rotation : Vec3) (animation : string)
| IGrab (prop : string)
| IThrow (prop : string) (impulse : Vec3)
| IPush (prop : string) (impulse : Vec3)
| ISit (prop : string)
| IPrepareTransition (transition : string) (direction : DomeDirection)
| IAbortTransition (transition : string)
| ICompleteTransition (transition : string)
| ISpawnGuestProp (prop : Prop_) (expires_at : Z)
| IUpsertPersistentProp (prop : Prop_)
| IDeletePersistentProp (prop : string).

Record SessionInput := {
  input_id : string;
  instance_id : string;
  instance_generation : Z;
  lease_epoch : Z;
  session_id : string;
  signer : string;
  input_sequence : Z;
  sent_at : Z;
  input : InputKind
}.

Record HostingLease := {
  lease_instance_id : string;
  lease_instance_generation : Z;
  epoch : Z;
  owner_pubkey : string;
  lease_context : SpatialContext
}.

Record Budget := {
  max_persistent_props : Z;
  max_colliders : Z;
  max_rigid_bodies : Z;
  max_guest_props : Z;
  max_guest_prop_bytes : Z;
  max_prop_spawns_per_minute : Z;
  max_interactions_per_second : Z;
  max_input_bytes_per_second : Z;
  max_impulse_centimeters : Z;
  max_simulated_rigid_bodies : Z
}.

Record RuntimeBody := {
  kind : BodyKind;
  animation : option string;
  grabbed_by : option string;
  expires_at : option Z;
  persistent_definition : option Prop_;
  created_by : option string;
  asset_bytes : Z
}.

Record PlayerBudget := { input_bytes : RateWindow; spawns : RateWindow; interaction_window : RateWindow }.
Definition default_player : PlayerBudget :=
  {| input_bytes := default_window; spawns := default_window; interaction_window := default_window |}.

Record PreparedExit := { exit_transition_id : string; exit_direction : DomeDirection }.

(** What does not change during a session. *)
Record SessionConfig := {
  lease : HostingLease;
  config_session_id : string;
  budget : Budget;
  verified_assets : gmap string AssetRef;
  participant_limit : Z;
  default_spawn : Vec3
}.

Record Session := {
  participants : gset string;
  transition_reservations : gmap string TransitionTicket;
  committed_transitions : gmap string TransitionTicket;
  prepared_exits : gmap string PreparedExit;
  transition_entries : gmap string DomeDirection;
  seated_on : gmap string string;
  inputs : InputLedger;
  participant_last_seen_at : gmap string Z;
  bodies_by_id : gmap string RuntimeBody;
  last_simulated_at : Z;
  player_budgets : gmap string PlayerBudget;
  rejected_total : Z;
  rejection_counts : gmap string Z;
  participant_high_water : Z;
  rigid_body_high_water : Z
}.

(** What a call asks of code outside the session: the JSON size of an input, the
    signature check of an envelope, the asset metadata check, the collider boxes of a
    body in centimetres ([None] when physics has lost the body) and which avatars
    physics has moved back inside. *)
Record Env := {
  json_size : SessionInput -> Z;
  verify_envelope_content : SessionInput -> result string unit;
  validate_metaverse_asset_metadata : AssetRef -> result string unit;
  body_bounds : string -> option (list Bounds);
  back_inside : string -> bool
}.

(** ** The state-and-error monad of the methods *)
Definition SE (A : Type) : Type := Session -> result SessionError A * Session.
#[export] Instance se_ret : MRet SE := fun A a s => (Ok a, s).
#[export] Instance se_bind : MBind SE := fun A B k m s =>
  match m s with (Ok a, s) => k a s | (Err e, s) => (Err e, s) end.

Definition get : SE Session := fun s => (Ok s, s).
Definition modify (f : Session -> Session) : SE unit := fun s => (Ok tt, f s).
Definition fail {A} (e : SessionError) : SE A := fun s => (Err e, s).
Definition require (b : bool) (e : SessionError) : SE unit := if b then mret tt else fail e.
Definition bail {A} (m : string) : SE A := fail (Message m).
(** The [?] on a call that does not touch the session. *)
Definition lift {A} (r : result string A) : SE A := match r with Ok a => mret a | Err m => bail m end.

(** ** Field updates *)
Definition set_participants (f : gset string -> gset string) (s : Session) : Session :=
  {| participants := f (participants s); transition_reservations := transition_reservations s;
     committed_transitions := committed_transitions s; prepared_exits := prepared_exits s;
     transition_entries := transition_entries s; seated_on := seated_on s; inputs := inputs s;
     participant_last_seen_at := participant_last_seen_at s; bodies_by_id := bodies_by_id s;
     last_simulated_at := last_simulated_at s; player_budgets := player_budgets s;
     rejected_total := rejected_total s; rejection_counts := rejection_counts s; participant_high_water := participant_high_water s;
     rigid_body_high_water := rigid_body_high_water s |}.
Definition set_reservations (f : gmap string TransitionTicket -> gmap string TransitionTicket) (s : Session) : Session :=
  {| participants := participants s; transition_reservations := f (transition_reservations s);
     committed_transitions := committed_transitions s; prepared_exits := prepared_exits s;
     transition_entries := transition_entries s; seated_on := seated_on s; inputs := inputs s;
     participant_last_seen_at := participant_last_seen_at s; bodies_by_id := bodies_by_id s;
     last_simulated_at := last_simulated_at s; player_budgets := player_budgets s;
     rejected_total := rejected_total s; rejection_counts := rejection_counts s; participant_high_water := participant_high_water s;
     rigid_body_high_water := rigid_body_high_water s |}.
Definition set_committed (f : gmap string TransitionTicket -> gmap string TransitionTicket) (s : Session) : Session :=
  {| participants := participants s; transition_reservations := transition_reservations s;
     committed_transitions := f (committed_transitions s); prepared_exits := prepared_exits s;
     transition_entries := transition_entries s; seated_on := seated_on s; inputs := inputs s;
     participant_last_seen_at := participant_last_seen_at s; bodies_by_id := bodies_by_id s;
     last_simulated_at := last_simulated_at s; player_budgets := player_budgets s;
     rejected_total := rejected_total s; rejection_counts := rejection_counts s; participant_high_water := participant_high_water s;
     rigid_body_high_water := rigid_body_high_water s |}.
Definition set_exits (f : gmap string PreparedExit -> gmap string PreparedExit) (s : Session) : Session :=
  {| participants := participants s; transition_reservations := transition_reservations s;
     committed_transitions := committed_transitions s; prepared_exits := f (prepared_exits s);
     transition_entries := transition_entries s; seated_on := seated_on s; inputs := inputs s;
     participant_last_seen_at := participant_last_seen_at s; bodies_by_id := bodies_by_id s;
     last_simulated_at := last_simulated_at s; player_budgets := player_budgets s;
     rejected_total := rejected_total s; rejection_counts := rejection_counts s; participant_high_water := participant_high_water s;
     rigid_body_high_water := rigid_body_high_water s |}.
Definition set_entries (f : gmap string DomeDirection -> gmap string DomeDirection) (s : Session) : Session :=
  {| participants := participants s; transition_reservations := transition_reservations s;
     committed_transitions := committed_transitions s; prepared_exits := prepared_exits s;
     transition_entries := f (transition_entries s); seated_on := seated_on s; inputs := inputs s;
     participant_last_seen_at := participant_last_seen_at s; bodies_by_id := bodies_by_id s;
     last_simulated_at := last_simulated_at s; player_budgets := player_budgets s;
     rejected_total := rejected_total s; rejection_counts := rejection_counts s; participant_high_water := participant_high_water s;
     rigid_body_high_water := rigid_body_high_water s |}.
Definition set_seats (f : gmap string string -> gmap string string) (s : Session) : Session :=
  {| participants := participants s; transition_reservations := transition_reservations s;
     committed_transitions := committed_transitions s; prepared_exits := prepared_exits s;
     transition_entries := transition_entries s; seated_on := f (seated_on s); inputs := inputs s;
     participant_last_seen_at := participant_last_seen_at s; bodies_by_id := bodies_by_id s;
     last_simulated_at := last_simulated_at s; player_budgets := player_budgets s;
     rejected_total := rejected_total s; rejection_counts := rejection_counts s; participant_high_water := participant_high_water s;
     rigid_body_high_water := rigid_body_high_water s |}.
Definition set_inputs (f : InputLedger -> InputLedger) (s : Session) : Session :=
  {| participants := participants s; transition_reservations := transition_reservations s;
     committed_transitions := committed_transitions s; prepared_exits := prepared_exits s;
     transition_entries := transition_entries s; seated_on := seated_on s; inputs := f (inputs s);
     participant_last_seen_at := participant_last_seen_at s; bodies_by_id := bodies_by_id s;
     last_simulated_at := last_simulated_at s; player_budgets := player_budgets s;
     rejected_total := rejected_total s; rejection_counts := rejection_counts s; participant_high_water := participant_high_water s;
     rigid_body_high_water := rigid_body_high_water s |}.
Definition set_last_seen (f : gmap string Z -> gmap string Z) (s : Session) : Session :=
  {| participants := participants s; transition_reservations := transition_reservations s;
     committed_transitions := committed_transitions s; prepared_exits := prepared_exits s;
     transition_entries := transition_entries s; seated_on := seated_on s; inputs := inputs s;
     participant_last_seen_at := f (participant_last_seen_at s); bodies_by_id := bodies_by_id s;
     last_simulated_at := last_simulated_at s; player_budgets := player_budgets s;
     rejected_total := rejected_total s; rejection_counts := rejection_counts s; participant_high_water := participant_high_water s;
     rigid_body_high_water := rigid_body_high_water s |}.
Definition set_bodies (f : gmap string RuntimeBody -> gmap string RuntimeBody) (s : Session) : Session :=
  {| participants := participants s; transition_reservations := transition_reservations s;
     committed_transitions := committed_transitions s; prepared_exits := prepared_exits s;
     transition_entries := transition_entries s; seated_on := seated_on s; inputs := inputs s;
     participant_last_seen_at := participant_last_seen_at s; bodies_by_id := f (bodies_by_id s);
     last_simulated_at := last_simulated_at s; player_budgets := player_budgets s;
     rejected_total := rejected_total s; rejection_counts := rejection_counts s; participant_high_water := participant_high_water s;
     rigid_body_high_water := rigid_body_high_water s |}.
Definition set_clock (t : Z) (s : Session) : Session :=
  {| participants := participants s; transition_reservations := transition_reservations s;
     committed_transitions := committed_transitions s; prepared_exits := prepared_exits s;
     transition_entries := transition_entries s; seated_on := seated_on s; inputs := inputs s;
     participant_last_seen_at := participant_last_seen_at s; bodies_by_id := bodies_by_id s;
     last_simulated_at := t; player_budgets := player_budgets s;
     rejected_total := rejected_total s; rejection_counts := rejection_counts s; participant_high_water := participant_high_water s;
     rigid_body_high_water := rigid_body_high_water s |}.
Definition set_budgets (f : gmap string PlayerBudget -> gmap string PlayerBudget) (s : Session) : Session :=
  {| participants := participants s; transition_reservations := transition_reservations s;
     committed_transitions := committed_transitions s; prepared_exits := prepared_exits s;
     transition_entries := transition_entries s; seated_on := seated_on s; inputs := inputs s;
     participant_last_seen_at := participant_last_seen_at s; bodies_by_id := bodies_by_id s;
     last_simulated_at := last_simulated_at s; player_budgets := f (player_budgets s);
     rejected_total := rejected_total s; rejection_counts := rejection_counts s; participant_high_water := participant_high_water s;
     rigid_body_high_water := rigid_body_high_water s |}.
(** The metrics of a session. *)
Definition set_metrics (rejected : Z) (counts : gmap string Z) (high_water bodies : Z) (s : Session) : Session :=
  {| participants := participants s; transition_reservations := transition_reservations s;
     committed_transitions := committed_transitions s; prepared_exits := prepared_exits s;
     transition_entries := transition_entries s; seated_on := seated_on s; inputs := inputs s;
     participant_last_seen_at := participant_last_seen_at s; bodies_by_id := bodies_by_id s;
     last_simulated_at := last_simulated_at s; player_budgets := player_budgets s;
     rejected_total := rejected; rejection_counts := counts; participant_high_water := high_water;
     rigid_body_high_water := bodies |}.

(** ** Input validation (dome_hosting.rs, game.rs) *)

Definition vec_all (f : Z -> bool) (v : Vec3) : bool := f (vx v) && f (vy v) && f (vz v).
Definition in_range (lo hi x : Z) : bool := (lo <=? x) && (x <=? hi).

Definition validate_metaverse_collider (c : Collider) : result string unit :=
  center ← (match c with
            | Capsule center radius half_height =>
                _ ← ensure (negb ((radius <=? 0) || (half_height <? 0) || (2000 <? radius) || (2000 <? half_height)))
                      "capsule collider dimensions are outside the supported range";
                Ok center
            | Cuboid center half_extents =>
                _ ← ensure (vec_all (in_range 1 2000) half_extents)
                      "cuboid collider dimensions are outside the supported range";
                Ok center
            end);
  ensure (vec_all (fun x => Z.abs x <=? 4000) center) "collider center is outside the supported range".

(** [validate_dome_customization] of a customization with one prop; the defaults of its
    other parts are in range. *)
Definition validate_session_prop (p : Prop_) : result string unit :=
  let pos := position p in
  let distance_squared := add_i64 (add_i64 (mul_i64 (vx pos) (vx pos)) (mul_i64 (vy pos) (vy pos)))
                            (mul_i64 (vz pos) (vz pos)) in
  _ ← ensure (negb (str_is_empty (trim (prop_id p)))) "persistent prop ids must be non-empty and unique";
  _ ← ensure (vec_all (in_range 1 1000) (scale p)) "persistent prop scale is outside the supported range";
  _ ← ensure (negb ((vy pos <? 0) || (APEX_HEIGHT_CM <? vy pos) || (INNER_RADIUS_CM * INNER_RADIUS_CM <? distance_squared)))
        "persistent prop position is outside the fixed Dome";
  _ ← ensure (bool_decide (NoDup (interactions p))) "persistent prop interactions must be unique";
  _ ← ensure (negb (visual_only p && match interactions p with [] => false | _ => true end))
        "visual-only props cannot expose interactions";
  match collider p with Some c => validate_metaverse_collider c | None => Ok tt end.

Definition validate_dome_session_input (i : SessionInput) : result string unit :=
  _ ← ensure (negb (str_is_empty (trim (input_id i)) || str_is_empty (trim (instance_id i))
                    || str_is_empty (trim (session_id i)) || (instance_generation i =? 0) || (lease_epoch i =? 0)
                    || (input_sequence i =? 0)))
        "Dome session input identity is incomplete";
  match input i with
  | IJoin (Some c) => validate_metaverse_collider c
  | IMove _ _ animation => ensure (negb (str_is_empty (trim animation))) "Dome avatar animation is required"
  | IGrab p | ISit p => ensure (negb (str_is_empty (trim p))) "Dome interaction prop id is required"
  | IThrow p impulse | IPush p impulse =>
      ensure (negb (str_is_empty (trim p) || vec_all (fun x => x =? 0) impulse)) "Dome impulse input is incomplete"
  | ISpawnGuestProp p expires =>
      _ ← validate_session_prop p;
      ensure (negb (expires <=? sent_at i)) "Dome guest prop expiry must be in the future"
  | IUpsertPersistentProp p => validate_session_prop p
  | IDeletePersistentProp p => ensure (negb (str_is_empty (trim p))) "Dome persistent prop id is required"
  | _ => Ok tt
  end.

(** ** Spawn geometry (lib.rs) *)
Definition SPAWN_STEP_CM : Z := 150.
Definition SPAWN_SAFETY_MARGIN_CM : Z := 25.
Definition SPAWN_OFFSETS : list (Z * Z) :=
  [(0, 0); (1, 0); (0, 1); (-1, 0); (0, -1); (1, 1); (-1, 1); (-1, -1); (1, -1); (2, 0); (0, 2); (-2, 0);
   (0, -2); (2, 1); (1, 2); (-1, 2); (-2, 1); (-2, -1); (-1, -2); (1, -2); (2, -1); (2, 2); (-2, 2);
   (-2, -2); (2, -2)].

Definition vec_map2 (f : Z -> Z -> Z) (a b : Vec3) : Vec3 := (f (vx a) (vx b), f (vy a) (vy b), f (vz a) (vz b)).

Definition collider_bounds_cm (c : Collider) (origin : Vec3) (margin : Z) : Bounds :=
  let '(center, extents) := match c with
    | Capsule center radius half_height => (center, (radius, add_i64 half_height radius, radius))
    | Cuboid center half_extents => (center, half_extents)
    end in
  let center := vec_map2 add_i64 origin center in
  ((sub_i64 (sub_i64 (vx center) (vx extents)) margin, sub_i64 (vy center) (vy extents),
    sub_i64 (sub_i64 (vz center) (vz extents)) margin),
   (add_i64 (add_i64 (vx center) (vx extents)) margin, add_i64 (vy center) (vy extents),
    add_i64 (add_i64 (vz center) (vz extents)) margin)).

(** The squares are taken on [i128]. *)
Definition spawn_bounds_inside_dome (b : Bounds) : bool :=
  negb (vy b.1 <? 0)
  && forallb (fun x => forallb (fun z =>
       let horizontal_squared := x * x + z * z in
       let radius_squared := INNER_RADIUS_CM * INNER_RADIUS_CM in
       negb (radius_squared <=? horizontal_squared)
       && negb (radius_squared - horizontal_squared <? vy b.2 * vy b.2)) [vz b.1; vz b.2]) [vx b.1; vx b.2].

Definition aabb_overlaps (l r : Bounds) : bool :=
  ((vx l.1 <? vx r.2) && (vx r.1 <? vx l.2)) && ((vy l.1 <? vy r.2) && (vy r.1 <? vy l.2))
  && ((vz l.1 <? vz r.2) && (vz r.1 <? vz l.2)).

Section session.
Context (cfg : SessionConfig) (env : Env).

Definition verify_signed_dome_session_input (i : SessionInput) : SE unit :=
  _ ← lift (validate_dome_session_input i);
  _ ← require (bool_decide (instance_id i = lease_instance_id (lease cfg))
               && (instance_generation i =? lease_instance_generation (lease cfg))
               && (lease_epoch i =? epoch (lease cfg))
               && bool_decide (session_id i = config_session_id cfg))
        (Message "Dome session input does not match active lease and session");
  lift (verify_envelope_content env i).

(** ** Budgets (support.rs, lib.rs) *)
Definition check_limit (sc : BudgetScope) (re : BudgetResource) (observed limit : Z) : SE unit :=
  require (observed <=? limit) (Rejection sc re LimitExceeded observed limit).

Definition check_body_capacity (added : Z) : SE unit :=
  s ← get;
  let observed := Z.of_nat (size (bodies_by_id s)) + added in
  _ ← check_limit ScopeDome RigidBodies observed (max_rigid_bodies (budget cfg));
  _ ← check_limit ScopeDome Colliders observed (max_colliders (budget cfg));
  check_limit ScopeHost RigidBodies observed (max_simulated_rigid_bodies (budget cfg)).

Definition check_verified_asset (asset : option AssetRef) : SE unit :=
  match asset with
  | None => mret tt
  | Some a =>
      _ ← lift (validate_metaverse_asset_metadata env a);
      require (bool_decide (verified_assets cfg !! blob_hash a = Some a))
        (Rejection ScopeHost AssetFormat UnverifiedAsset 1 0)
  end.

Definition high_water (old n : Z) : Z := Z.max old (Z.min n u32_max).

Definition note_bodies : SE unit :=
  modify (fun s => set_metrics (rejected_total s) (rejection_counts s) (participant_high_water s)
                     (high_water (rigid_body_high_water s) (Z.of_nat (size (bodies_by_id s)))) s).
Definition note_participants : SE unit :=
  modify (fun s => set_metrics (rejected_total s) (rejection_counts s)
                     (high_water (participant_high_water s) (Z.of_nat (size (participants s))))
                     (rigid_body_high_water s) s).

Definition avatar_id (p : string) : string := "avatar:" ++s p.

Definition remove_body (id : string) : SE unit := modify (set_bodies (delete id)).

Definition insert_prop (p : Prop_) (k : BodyKind) (expires : option Z) (creator : option string) : SE unit :=
  s ← get;
  _ ← require (bool_decide (bodies_by_id s !! prop_id p = None)) (Message "Dome physics entity id already exists");
  _ ← modify (set_bodies (<[prop_id p :=
        {| kind := k; animation := None; grabbed_by := None; expires_at := expires;
           persistent_definition := if decide (k = PersistentProp) then Some p else None;
           created_by := creator;
           asset_bytes := default 0 (asset_ref p ≫= size_bytes) |}]>));
  note_bodies.

(** The capsule of [fallback_capsule_collider] for the box of a default avatar. *)
Definition fallback_capsule_collider (lo hi : Vec3) : option Collider :=
  if (vx hi <=? vx lo) || (vy hi <=? vy lo) || (vz hi <=? vz lo) then None
  else
    let radius := Z.quot (Z.max (vx hi - vx lo) (vz hi - vz lo) + 1) 2 in
    Some (Capsule (Z.quot (vx lo + vx hi) 2, Z.quot (vy lo + vy hi) 2, Z.quot (vz lo + vz hi) 2) radius
            (Z.max (Z.quot (vy hi - vy lo + 1) 2 - radius) 0)).

Definition spawn_bounds_overlap_body (bodies : gmap string RuntimeBody) (candidate : Bounds) : bool :=
  existsb (fun kv => match body_bounds env kv.1 with
                     | None => true
                     | Some boxes => existsb (aabb_overlaps candidate) boxes
                     end) (map_to_list bodies).

Definition spawn_candidate (o : Z * Z) : Vec3 :=
  (add_i64 (vx (default_spawn cfg)) (o.1 * SPAWN_STEP_CM), vy (default_spawn cfg),
   add_i64 (vz (default_spawn cfg)) (o.2 * SPAWN_STEP_CM)).

Definition safe_avatar_spawn (bodies : gmap string RuntimeBody) (c : Collider) : option Vec3 :=
  find (fun candidate =>
          let bounds := collider_bounds_cm c candidate SPAWN_SAFETY_MARGIN_CM in
          spawn_bounds_inside_dome bounds && negb (spawn_bounds_overlap_body bodies bounds))
    (map spawn_candidate SPAWN_OFFSETS).

Definition ensure_avatar (p : string) (c : option Collider) : SE unit :=
  s ← get;
  if decide (is_Some (bodies_by_id s !! avatar_id p)) then mret tt
  else
    fallback ← (match fallback_capsule_collider (-25, 0, -25) (25, 180, 25) with
                | Some f => mret f
                | None => bail "metaverse collider bounds must have positive volume"
                end);
    _ ← require (bool_decide (is_Some (safe_avatar_spawn (bodies_by_id s) (default fallback c))))
          (Message "DOME_ENTRY_NO_SAFE_SPAWN");
    _ ← modify (set_bodies (<[avatar_id p :=
          {| kind := Avatar; animation := Some "idle"; grabbed_by := None; expires_at := None;
             persistent_definition := None; created_by := None; asset_bytes := 0 |}]>));
    note_bodies.

Definition require_participant (p : string) : SE unit :=
  s ← get;
  require (bool_decide (p ∈ participants s)) (Message "Dome session input requires a joined participant").

Definition require_owner (i : SessionInput) : SE unit :=
  require (bool_decide (signer i = owner_pubkey (lease cfg)))
    (Message "only the Dome owner can change persistent props").

(** ** Leaving (transition.rs) *)
Definition release_grabs (p : string) (bodies : gmap string RuntimeBody) : gmap string RuntimeBody :=
  (fun b => if decide (grabbed_by b = Some p)
            then {| kind := kind b; animation := animation b; grabbed_by := None; expires_at := expires_at b;
                    persistent_definition := persistent_definition b; created_by := created_by b;
                    asset_bytes := asset_bytes b |}
            else b) <$> bodies.

(** Whether a ticket survives the revocation of a participant and a connection. *)
Definition ticket_kept (p : string) (connection : option string) (t : TransitionTicket) : bool :=
  negb (bool_decide (participant_pubkey (request t) = p))
  && match connection with Some c => negb (bool_decide (connection_id (request t) = c)) | None => true end.

Definition retain_tickets (f : TransitionTicket -> bool) (m : gmap string TransitionTicket)
    : gmap string TransitionTicket :=
  filter (fun kv => f kv.2 = true) m.

Definition revoke_transition_access (p : string) (connection : option string) : SE Z :=
  s ← get;
  let before := Z.of_nat (size (transition_reservations s)) in
  _ ← modify (set_reservations (retain_tickets (ticket_kept p connection)));
  _ ← modify (set_committed (retain_tickets (ticket_kept p connection)));
  _ ← modify (set_exits (delete p));
  s ← get;
  mret (Z.max 0 (before - Z.of_nat (size (transition_reservations s)))).

Definition drain_connection (connection : string) : SE Z :=
  s ← get;
  let leaving := map (fun kv => participant_pubkey (request kv.2))
    (filter (fun kv => bool_decide (connection_id (request kv.2) = connection) = true)
       (map_to_list (transition_reservations s))) in
  let before := Z.of_nat (size (transition_reservations s)) in
  _ ← modify (set_reservations (retain_tickets
        (fun t => negb (bool_decide (connection_id (request t) = connection)))));
  _ ← modify (set_exits (fun m => foldr delete m leaving));
  s ← get;
  mret (Z.max 0 (before - Z.of_nat (size (transition_reservations s)))).

Definition evict_participant (p : string) : SE bool :=
  s ← get;
  let evicted := bool_decide (p ∈ participants s) in
  _ ← modify (set_participants (fun ps => ps ∖ {[ p ]}));
  _ ← revoke_transition_access p None;
  _ ← modify (set_entries (delete p));
  _ ← modify (set_seats (delete p));
  _ ← (if evicted && negb (bool_decide (p = owner_pubkey (lease cfg)))
       then modify (set_inputs (ledger_retire p (participant_limit cfg))) else mret tt);
  _ ← modify (set_last_seen (delete p));
  _ ← modify (set_budgets (delete p));
  _ ← remove_body (avatar_id p);
  _ ← modify (set_bodies (release_grabs p));
  mret evicted.

(** ** Transitions (transition.rs) *)
Definition expire_transition_reservations (now : Z) : SE unit :=
  modify (set_reservations (retain_tickets (fun t => now <? ticket_expires_at t))).

Definition has_reservation (p : string) (m : gmap string TransitionTicket) : bool :=
  existsb (fun kv => bool_decide (participant_pubkey (request kv.2) = p)) (map_to_list m).

Definition prepare_transition_admission (r : TransitionRequest) (access : AccessDecision) (now : Z)
    : SE TransitionTicket :=
  _ ← expire_transition_reservations now;
  _ ← require (request_valid r) (Message "Dome transition admission request is invalid");
  _ ← (match access with AccessDeniedFor reason => bail (denial_code reason) | AccessAllowed => mret tt end);
  _ ← require (bool_decide (spatial_context r = lease_context (lease cfg))
               && bool_decide (target_instance_id r = lease_instance_id (lease cfg))
               && (target_instance_generation r =? lease_instance_generation (lease cfg)))
        (Message "DOME_TRANSITION_STALE_TOPOLOGY");
  s ← get;
  match committed_transitions s !! transition_id r with
  | Some t => if decide (request t = r) then mret t else bail "DOME_TRANSITION_INVALID_TICKET"
  | None =>
  match transition_reservations s !! transition_id r with
  | Some t => if decide (request t = r) then mret t else bail "DOME_TRANSITION_INVALID_TICKET"
  | None =>
      _ ← require (negb (has_reservation (participant_pubkey r) (transition_reservations s)))
            (Message "participant already has another Dome transition reservation");
      let already_joined := bool_decide (participant_pubkey r ∈ participants s) in
      let slots := Z.of_nat (size (participants s)) + Z.of_nat (size (transition_reservations s))
                   + (if already_joined then 0 else 1) in
      _ ← require (slots <=? participant_limit cfg) (Message "DOME_TRANSITION_CAPACITY_FULL");
      _ ← (if already_joined then mret tt else check_body_capacity 1);
      let t := {| request := r; target_lease_epoch := epoch (lease cfg);
                  target_session_id := config_session_id cfg;
                  ticket_expires_at := sat_i64 (now + DOME_TRANSITION_TICKET_TTL_MILLIS) |} in
      _ ← modify (set_reservations (<[transition_id r := t]>));
      mret t
  end end.

(** Physics decides which avatars are back inside the Dome; their entry is complete. *)
Definition clamp_bodies_to_dome : SE unit :=
  modify (fun s => set_entries (fun m => filter (fun kv =>
    ~ (is_Some (bodies_by_id s !! avatar_id kv.1) /\ back_inside env kv.1 = true)) m) s).

(** [set_avatar_transform]: the body must exist; its transform belongs to physics. *)
Definition set_avatar_transform (p : string) : SE unit :=
  s ← get;
  require (bool_decide (is_Some (bodies_by_id s !! avatar_id p))) (Message "participant avatar body is missing").

Definition commit_transition_admission (t : TransitionTicket) (now : Z) : SE unit :=
  _ ← expire_transition_reservations now;
  s ← get;
  match committed_transitions s !! transition_id (request t) with
  | Some c =>
      require (bool_decide (c = t) && (target_lease_epoch t =? epoch (lease cfg))
               && bool_decide (target_session_id t = config_session_id cfg))
        (Message "DOME_TRANSITION_INVALID_TICKET")
  | None =>
      _ ← lift (ticket_valid_for t (request t) (epoch (lease cfg)) (config_session_id cfg) now);
      _ ← require (bool_decide (transition_reservations s !! transition_id (request t) = Some t))
            (Message "DOME_TRANSITION_INVALID_TICKET");
      let p := participant_pubkey (request t) in
      _ ← ensure_avatar p None;
      _ ← modify (set_participants (fun ps => ps ∪ {[ p ]}));
      _ ← modify (set_last_seen (<[p := now]>));
      _ ← set_avatar_transform p;
      _ ← modify (set_entries (<[p := opposite_dome_direction (direction (request t))]>));
      _ ← modify (set_exits (delete p));
      _ ← modify (set_reservations (delete (transition_id (request t))));
      _ ← modify (set_committed (retain_tickets (fun c => negb (bool_decide (participant_pubkey (request c) = p)))));
      _ ← modify (set_committed (<[transition_id (request t) := t]>));
      _ ← clamp_bodies_to_dome;
      note_participants
  end.

Definition abort_transition_admission (tid p : string) (now : Z) : SE unit :=
  _ ← expire_transition_reservations now;
  s ← get;
  if decide (is_Some (committed_transitions s !! tid)) then mret tt
  else
    _ ← (match transition_reservations s !! tid with
         | Some t => require (bool_decide (participant_pubkey (request t) = p)) (Message "DOME_TRANSITION_INVALID_TICKET")
         | None => mret tt
         end);
    modify (set_reservations (delete tid)).

Definition prepare_transition_exit (p tid : string) (d : DomeDirection) : SE unit :=
  _ ← require_participant p;
  _ ← require (negb (str_is_empty (trim tid))) (Message "Dome transition id is required");
  s ← get;
  match prepared_exits s !! p with
  | Some e =>
      require (bool_decide (exit_transition_id e = tid) && bool_decide (exit_direction e = d))
        (Message "participant already has another prepared Dome transition")
  | None =>
      _ ← modify (set_bodies (release_grabs p));
      _ ← modify (set_seats (delete p));
      modify (set_exits (<[p := {| exit_transition_id := tid; exit_direction := d |}]>))
  end.

Definition abort_transition_exit (p tid : string) : SE unit :=
  s ← get;
  match prepared_exits s !! p with
  | Some e =>
      _ ← require (bool_decide (exit_transition_id e = tid)) (Message "DOME_TRANSITION_INVALID_TICKET");
      modify (set_exits (delete p))
  | None => mret tt
  end.

Definition complete_transition_exit (p tid : string) : SE unit :=
  s ← get;
  if decide (p ∈ participants s) then
    match prepared_exits s !! p with
    | None => bail "participant has no prepared Dome transition"
    | Some e =>
        _ ← require (bool_decide (exit_transition_id e = tid)) (Message "DOME_TRANSITION_INVALID_TICKET");
        _ ← evict_participant p;
        mret tt
    end
  else mret tt.

(** ** Inputs (lib.rs) *)

(** One rate window of a player: the row is created when missing and always updated. *)
Definition player_window (p : string) (sel : PlayerBudget -> RateWindow)
    (upd : PlayerBudget -> RateWindow -> PlayerBudget) (now duration amount limit : Z) (res : BudgetResource)
    : SE unit :=
  s ← get;
  let pb := default default_player (player_budgets s !! p) in
  let '(ok, w) := window_allows (sel pb) now duration amount limit in
  _ ← modify (set_budgets (<[p := upd pb w]>));
  require ok (Rejection ScopePlayer res RateExceeded (count w) limit).

Definition upd_input_bytes (pb : PlayerBudget) (w : RateWindow) : PlayerBudget :=
  {| input_bytes := w; spawns := spawns pb; interaction_window := interaction_window pb |}.
Definition upd_spawns (pb : PlayerBudget) (w : RateWindow) : PlayerBudget :=
  {| input_bytes := input_bytes pb; spawns := w; interaction_window := interaction_window pb |}.
Definition upd_interactions (pb : PlayerBudget) (w : RateWindow) : PlayerBudget :=
  {| input_bytes := input_bytes pb; spawns := spawns pb; interaction_window := w |}.

(** The inputs that a participant with a prepared exit may not send. *)
Definition fenced_input (k : InputKind) : bool :=
  match k with IJoin _ | IGrab _ | IThrow _ _ | IPush _ _ | ISit _ => true | _ => false end.

Definition guest_bodies (p : string) (bodies : gmap string RuntimeBody) : list RuntimeBody :=
  filter (fun b => kind b = GuestProp /\ created_by b = Some p) (map snd (map_to_list bodies)).

Definition max_component (v : Vec3) : Z := Z.max (Z.abs (vx v)) (Z.max (Z.abs (vy v)) (Z.abs (vz v))).

Definition preflight_interaction (p : string) (k : InputKind) (now : Z) : SE unit :=
  _ ← player_window p interaction_window upd_interactions now 1000 1
        (max_interactions_per_second (budget cfg)) InteractionRate;
  match k with
  | IThrow _ impulse | IPush _ impulse =>
      check_limit ScopePlayer Impulse (max_component impulse) (max_impulse_centimeters (budget cfg))
  | _ => mret tt
  end.

Definition preflight_input (i : SessionInput) (now : Z) : SE unit :=
  let p := signer i in
  _ ← player_window p input_bytes upd_input_bytes now 1000 (json_size env i)
        (max_input_bytes_per_second (budget cfg)) InputBandwidth;
  s ← get;
  _ ← require (negb (bool_decide (is_Some (prepared_exits s !! p)) && fenced_input (input i)))
        (Message "DOME_TRANSITION_SOURCE_INPUT_FENCED");
  match input i with
  | IJoin _ =>
      if decide (p ∈ participants s) then mret tt
      else
        _ ← check_limit ScopeHost Participants (Z.of_nat (size (participants s)) + 1) (participant_limit cfg);
        check_body_capacity 1
  | ISpawnGuestProp prop _ =>
      _ ← player_window p spawns upd_spawns now 60000 1 (max_prop_spawns_per_minute (budget cfg)) PropSpawnRate;
      let mine := guest_bodies p (bodies_by_id s) in
      _ ← check_limit ScopePlayer GuestProps (Z.of_nat (length mine) + 1) (max_guest_props (budget cfg));
      _ ← check_verified_asset (asset_ref prop);
      _ ← check_limit ScopePlayer ModelBytes
            (u64_saturating_add (foldl (fun acc b => u64_saturating_add acc (asset_bytes b)) 0 mine)
               (default 0 (asset_ref prop ≫= size_bytes)))
            (max_guest_prop_bytes (budget cfg));
      check_body_capacity 1
  | IUpsertPersistentProp prop =>
      _ ← check_verified_asset (asset_ref prop);
      let replacing := bool_decide (is_Some (bodies_by_id s !! prop_id prop)) in
      let persistent := Z.of_nat (length (filter (fun b => kind b = PersistentProp)
                          (map snd (map_to_list (bodies_by_id s))))) in
      _ ← check_limit ScopeDome PersistentProps (persistent + (if replacing then 0 else 1))
            (max_persistent_props (budget cfg));
      if replacing then mret tt else check_body_capacity 1
  | IGrab _ | IThrow _ _ | IPush _ _ | ISit _ => preflight_interaction p (input i) now
  | _ => mret tt
  end.

Definition set_grab (g : option string) (b : RuntimeBody) : RuntimeBody :=
  {| kind := kind b; animation := animation b; grabbed_by := g; expires_at := expires_at b;
     persistent_definition := persistent_definition b; created_by := created_by b; asset_bytes := asset_bytes b |}.
Definition set_animation (a : string) (b : RuntimeBody) : RuntimeBody :=
  {| kind := kind b; animation := Some a; grabbed_by := grabbed_by b; expires_at := expires_at b;
     persistent_definition := persistent_definition b; created_by := created_by b; asset_bytes := asset_bytes b |}.

(** Throwing requires that the participant grabs the prop, pushing does not. *)
Definition impulse_input (p prop : string) (throwing : bool) : SE unit :=
  _ ← require_participant p;
  s ← get;
  match bodies_by_id s !! prop with
  | None => bail "Dome prop does not exist"
  | Some b =>
      _ ← require (negb (throwing && negb (bool_decide (grabbed_by b = Some p))))
            (Message "participant cannot throw a prop it is not grabbing");
      modify (set_bodies (<[prop := set_grab None b]>))
  end.

Definition apply_input (i : SessionInput) : SE unit :=
  let p := signer i in
  match input i with
  | IJoin c =>
      _ ← ensure_avatar p c;
      _ ← modify (set_participants (fun ps => ps ∪ {[ p ]}));
      note_participants
  | ILeave => _ ← evict_participant p; mret tt
  | IKeepAlive => require_participant p
  | IMove _ _ a =>
      _ ← require_participant p;
      s ← get;
      match bodies_by_id s !! avatar_id p with
      | None => bail "participant avatar body is missing"
      | Some b => modify (set_bodies (<[avatar_id p := set_animation a b]>))
      end
  | IGrab prop =>
      _ ← require_participant p;
      s ← get;
      match bodies_by_id s !! prop with
      | None => bail "Dome prop does not exist"
      | Some b => modify (set_bodies (<[prop := set_grab (Some p) b]>))
      end
  | IThrow prop _ => impulse_input p prop true
  | IPush prop _ => impulse_input p prop false
  | ISit prop =>
      _ ← require_participant p;
      s ← get;
      _ ← require (bool_decide (is_Some (bodies_by_id s !! prop))) (Message "Dome seat prop does not exist");
      modify (set_seats (<[p := prop]>))
  | IPrepareTransition tid d => prepare_transition_exit p tid d
  | IAbortTransition tid => abort_transition_exit p tid
  | ICompleteTransition tid => complete_transition_exit p tid
  | ISpawnGuestProp prop expires =>
      _ ← require_participant p;
      s ← get;
      _ ← require (negb (expires <=? last_simulated_at s)) (Message "Dome guest prop is already expired");
      insert_prop prop GuestProp (Some expires) (Some p)
  | IUpsertPersistentProp prop =>
      _ ← require_owner i;
      _ ← remove_body (prop_id prop);
      insert_prop prop PersistentProp None None
  | IDeletePersistentProp prop =>
      _ ← require_owner i;
      s ← get;
      _ ← require (bool_decide (kind <$> bodies_by_id s !! prop = Some PersistentProp))
            (Message "Dome persistent prop does not exist");
      remove_body prop
  end.

Definition record_rejection (code : string) : SE unit :=
  modify (fun s => set_metrics (u64_saturating_add (rejected_total s) 1)
                     (<[code := default 0 (rejection_counts s !! code) + 1]> (rejection_counts s))
                     (participant_high_water s) (rigid_body_high_water s) s).

(** [inputs.check]: also drops the expired records of departed signers. *)
Definition check_ledger (i : SessionInput) (now : Z) : SE unit := fun s =>
  let '(r, l) := ledger_check (signer i) (input_sequence i) (sent_at i) now (inputs s) in
  (match r with Ok _ => Ok tt | Err m => Err (Message m) end, set_inputs (fun _ => l) s).

(** Run a method and hand its result to the caller instead of returning early. *)
Definition attempt {A} (m : SE A) : SE (result SessionError A) := fun s =>
  let '(r, s) := m s in (Ok r, s).

Definition apply_signed_input_at (i : SessionInput) (now : Z) : SE unit :=
  _ ← verify_signed_dome_session_input i;
  _ ← check_ledger i now;
  let p := signer i in
  applied ← attempt (_ ← preflight_input i now; apply_input i);
  s ← get;
  let participating := bool_decide (p ∈ participants s) in
  _ ← (if participating then mret tt else modify (set_budgets (delete p)));
  match applied with
  | Err e =>
      _ ← (match e with Rejection sc re rs _ _ => record_rejection (rejection_code sc re rs) | Message _ => mret tt end);
      fail e
  | Ok _ =>
      let owner := bool_decide (p = owner_pubkey (lease cfg)) in
      _ ← modify (set_inputs (ledger_record p (input_sequence i) (sent_at i) (participating || owner)));
      _ ← (if participating then modify (set_last_seen (<[p := now]>)) else mret tt);
      clamp_bodies_to_dome
  end.

(** ** Time (lib.rs, transition.rs) *)
Definition DOME_PARTICIPANT_TIMEOUT_MILLIS : Z := 30000.

Definition expire_guest_props (now : Z) : SE unit :=
  modify (set_bodies (filter (fun kv => ~ (kind kv.2 = GuestProp /\
    match expires_at kv.2 with Some e => e <=? now | None => false end = true)))).

Fixpoint evict_each (ps : list string) : SE unit :=
  match ps with
  | [] => mret tt
  | p :: ps => _ ← evict_participant p; evict_each ps
  end.

Definition stale_participants (now : Z) (s : Session) : list string :=
  map fst (filter (fun kv => (DOME_PARTICIPANT_TIMEOUT_MILLIS <? sat_i64 (now - kv.2)) = true)
    (sort_by (fun a b => rust_leb a.1 b.1) (map_to_list (participant_last_seen_at s)))).

Definition expire_stale_participants (now : Z) : SE unit :=
  s ← get; evict_each (stale_participants now s).

(** [advance_to]; [steps] is the number of physics steps, each followed by a clamp. *)
Fixpoint simulate (steps : nat) : SE unit :=
  match steps with O => mret tt | S n => _ ← clamp_bodies_to_dome; simulate n end.

Definition simulation_steps (now : Z) (s : Session) : nat :=
  Z.to_nat (Z.min (sat_i64 (now - last_simulated_at s) / (1000 / 30)) (30 * 5)).

Definition advance_to (now : Z) : SE unit :=
  s ← get;
  _ ← require (last_simulated_at s <=? now) (Message "Dome session clock cannot move backwards");
  _ ← expire_guest_props now;
  _ ← expire_stale_participants now;
  s ← get;
  if decide (participants s = ∅) then modify (set_clock now)
  else
    _ ← simulate (simulation_steps now s);
    modify (set_clock now).

Definition advance_for_read (now : Z) : SE unit :=
  s ← get; advance_to (Z.max now (last_simulated_at s)).

Definition add_guest_prop (p : Prop_) (expires : Z) : SE unit :=
  s ← get;
  _ ← require (negb (str_is_empty (trim (prop_id p)) || (expires <=? last_simulated_at s)
                     || bool_decide (is_Some (bodies_by_id s !! prop_id p))))
        (Message "guest prop specification is invalid");
  insert_prop p GuestProp (Some expires) None.
End session.

(** A session before its preset props are inserted. *)
Definition empty_session (started : Z) : Session := {|
  participants := ∅; transition_reservations := ∅; committed_transitions := ∅; prepared_exits := ∅;
  transition_entries := ∅; seated_on := ∅; inputs := empty_ledger; participant_last_seen_at := ∅;
  bodies_by_id := ∅; last_simulated_at := started; player_budgets := ∅; rejected_total := 0; rejection_counts := ∅;
  participant_high_water := 0; rigid_body_high_water := 0
|}.

Fixpoint insert_props (ps : list Prop_) : SE unit :=
  match ps with
  | [] => mret tt
  | p :: ps => _ ← insert_prop p PersistentProp None None; insert_props ps
  end.
