(* ===== verification/DomeSessionInv.v ===== *)
(** * The session invariant

    Weakest preconditions of the session monad, the invariant that every operation of
    a hosted Dome session keeps, and the proofs that each one does. *)
From S2P Require Import Prelude RustStr DomeTransition DomeLedger DomeSession.

(** ** Weakest preconditions

    [wp m Q E s]: started in [s], [m] ends in [Q] when it succeeds and in [E] when it
    fails.  The laws are equations, so a method is executed by rewriting. *)
Definition wp {A} (m : SE A) (Q : A -> Session -> Prop) (E : SessionError -> Session -> Prop) (s : Session) : Prop :=
  match m s with (Ok a, s) => Q a s | (Err e, s) => E e s end.

Lemma wp_ret {A} (a : A) Q E s : wp (mret a) Q E s = Q a s.
Proof. done. Qed.
Lemma wp_bind {A B} (m : SE A) (k : A -> SE B) Q E s :
  wp (m ≫= k) Q E s = wp m (fun a => wp (k a) Q E) E s.
Proof. unfold wp, mbind, se_bind. by destruct (m s) as [[a|e] s']. Qed.
Lemma wp_get Q E s : wp get Q E s = Q s s.
Proof. done. Qed.
Lemma wp_modify f Q E s : wp (modify f) Q E s = Q tt (f s).
Proof. done. Qed.
Lemma wp_fail {A} e (Q : A -> Session -> Prop) E s : wp (fail e) Q E s = E e s.
Proof. done. Qed.
Lemma wp_bail {A} e (Q : A -> Session -> Prop) E s : wp (bail e) Q E s = E (Message e) s.
Proof. done. Qed.
Lemma wp_attempt {A} (m : SE A) Q E s :
  wp (attempt m) Q E s = wp m (fun a => Q (Ok a)) (fun e => Q (Err e)) s.
Proof. unfold wp, attempt. by destruct (m s) as [[a|e] s']. Qed.
Lemma wp_require b e Q E s : wp (require b e) Q E s <-> (b = true -> Q tt s) /\ (b = false -> E e s).
Proof. destruct b; unfold wp; simpl; naive_solver. Qed.

Lemma wp_lift {A} (r : result string A) Q E s :
  wp (lift r) Q E s = match r with Ok a => Q a s | Err m => E (Message m) s end.
Proof. by destruct r. Qed.

Lemma wp_mono {A} (m : SE A) (Q Q' : A -> Session -> Prop) (E E' : SessionError -> Session -> Prop) s :
  wp m Q E s -> (forall a s', Q a s' -> Q' a s') -> (forall e s', E e s' -> E' e s') -> wp m Q' E' s.
Proof. unfold wp. destruct (m s) as [[a|e] s']; eauto. Qed.

Lemma wp_run {A} (m : SE A) (Q : Session -> Prop) s :
  wp m (fun _ => Q) (fun _ => Q) s -> Q (m s).2.
Proof. unfold wp. by destruct (m s) as [[a|e] s']. Qed.
Lemma wp_ok {A} (m : SE A) Q E s a : wp m Q E s -> (m s).1 = Ok a -> Q a (m s).2.
Proof. unfold wp. destruct (m s) as [[b|e] s']; naive_solver. Qed.

(** One step of symbolic execution. *)
Ltac wp_step :=
  first
    [ rewrite wp_bind | rewrite wp_get | rewrite wp_modify | rewrite wp_ret | rewrite wp_fail | rewrite wp_bail
    | rewrite wp_attempt | rewrite wp_lift
    | match goal with
      | |- match ?x with Ok _ => _ | Err _ => _ end => destruct x eqn:?
      end
    | apply wp_require; split; intros ?
    | match goal with
      | |- wp (match ?x with _ => _ end) _ _ _ => destruct x eqn:?
      end ]; cbv beta.
Ltac wp_run := repeat wp_step.

Ltac fields :=
  cbn [participants transition_reservations committed_transitions prepared_exits transition_entries seated_on inputs
       participant_last_seen_at bodies_by_id last_simulated_at player_budgets rejected_total rejection_counts
       participant_high_water rigid_body_high_water
       set_participants set_reservations set_committed set_exits set_entries set_seats set_inputs set_last_seen
       set_bodies set_clock set_budgets set_metrics] in *.

(** ** The invariant *)
Section inv.
Context (cfg : SessionConfig).

(** A ticket filed under its id, issued for this lease and session. *)
Definition issued (k : string) (t : TransitionTicket) : Prop :=
  transition_id (request t) = k /\ target_lease_epoch t = epoch (lease cfg) /\
  target_session_id t = config_session_id cfg.
Definition one_each (m : gmap string TransitionTicket) : Prop :=
  forall i j t u, m !! i = Some t -> m !! j = Some u ->
    participant_pubkey (request t) = participant_pubkey (request u) -> i = j.
Definition grab_ok (ps : gset string) (b : RuntimeBody) : Prop :=
  match grabbed_by b with Some p => p ∈ ps | None => True end.

(** [x] and [y] are the signers whose budget row, or missing last-seen time, is still
    being settled by the running operation; both are empty between operations. *)
Record session_inv (x y : gset string) (s : Session) : Prop := {
  si_exits : dom (prepared_exits s) ⊆ participants s;
  si_entries : dom (transition_entries s) ⊆ participants s;
  si_seats : dom (seated_on s) ⊆ participants s;
  si_seen : dom (participant_last_seen_at s) ⊆ participants s;
  si_all_seen : participants s ⊆ dom (participant_last_seen_at s) ∪ y;
  si_budgets : dom (player_budgets s) ⊆ participants s ∪ x;
  si_grabs : map_Forall (fun _ => grab_ok (participants s)) (bodies_by_id s);
  si_active : dom (active (inputs s)) ⊆ participants s ∪ {[ owner_pubkey (lease cfg) ]};
  si_departed : Z.of_nat (size (departed (inputs s))) <= participant_limit cfg;
  si_ledger : ledger_wf (inputs s);
  si_reserved : map_Forall issued (transition_reservations s);
  si_committed : map_Forall (fun k t => issued k t /\ participant_pubkey (request t) ∈ participants s)
                   (committed_transitions s);
  si_reserved_one : one_each (transition_reservations s);
  si_committed_one : one_each (committed_transitions s);
  si_disjoint : transition_reservations s ##ₘ committed_transitions s;
  si_slots : Z.of_nat (size (transition_reservations s)) <= participant_limit cfg;
  si_capacity : Z.of_nat (size (participants s)) + Z.of_nat (size (transition_reservations s))
                <= 2 * participant_limit cfg
}.

Ltac inv_split := match goal with H : session_inv _ _ _ |- _ => destruct H end; split; fields; try assumption.

Lemma inv_clock x y t s : session_inv x y s -> session_inv x y (set_clock t s).
Proof. intros H. inv_split. Qed.
Lemma inv_metrics x y a b c d s : session_inv x y s -> session_inv x y (set_metrics a b c d s).
Proof. intros H. inv_split. Qed.
Lemma inv_bodies x y f s :
  (map_Forall (fun _ => grab_ok (participants s)) (bodies_by_id s) ->
   map_Forall (fun _ => grab_ok (participants s)) (f (bodies_by_id s))) ->
  session_inv x y s -> session_inv x y (set_bodies f s).
Proof. intros Hf H. inv_split. auto. Qed.
Lemma inv_exits x y f s :
  dom (f (prepared_exits s)) ⊆ participants s -> session_inv x y s -> session_inv x y (set_exits f s).
Proof. intros Hf H. inv_split. Qed.
Lemma inv_entries x y f s :
  dom (f (transition_entries s)) ⊆ participants s -> session_inv x y s -> session_inv x y (set_entries f s).
Proof. intros Hf H. inv_split. Qed.
Lemma inv_seats x y f s :
  dom (f (seated_on s)) ⊆ participants s -> session_inv x y s -> session_inv x y (set_seats f s).
Proof. intros Hf H. inv_split. Qed.
Lemma inv_slack x y x' y' s : x ⊆ x' -> y ⊆ y' -> session_inv x y s -> session_inv x' y' s.
Proof.
  intros Hx Hy H. inv_split.
  - clear - si_all_seen0 Hy. set_solver.
  - clear - si_budgets0 Hx. set_solver.
Qed.
Lemma inv_set_budgets x x' y f s :
  dom (f (player_budgets s)) ⊆ participants s ∪ x' -> session_inv x y s -> session_inv x' y (set_budgets f s).
Proof. intros Hf H. inv_split. Qed.
Lemma inv_inputs x y f s :
  dom (active (f (inputs s))) ⊆ participants s ∪ {[ owner_pubkey (lease cfg) ]} ->
  Z.of_nat (size (departed (f (inputs s)))) <= participant_limit cfg -> ledger_wf (f (inputs s)) ->
  session_inv x y s -> session_inv x y (set_inputs f s).
Proof. intros ??? H. inv_split. Qed.
(** A participant is seen: its missing time is settled. *)
Lemma inv_last_seen x y p t s :
  p ∈ participants s -> session_inv x y s -> session_inv x (y ∖ {[ p ]}) (set_last_seen (<[p := t]>) s).
Proof.
  intros Hp H. inv_split; rewrite dom_insert_L.
  - clear - si_seen0 Hp. set_solver.
  - clear - si_all_seen0. intros q Hq. destruct (decide (q = p)); set_solver.
Qed.
Lemma inv_join x y p s :
  (p ∈ participants s \/ Z.of_nat (size (participants s)) + 1 <= participant_limit cfg) ->
  session_inv x y s -> session_inv x (y ∪ {[ p ]}) (set_participants (fun ps => ps ∪ {[ p ]}) s).
Proof.
  intros Hp H. inv_split; try (by apply union_subseteq_l'); try (clear - si_all_seen0 si_budgets0 si_active0; set_solver).
  - intros id b Hb. specialize (si_grabs0 id b Hb). unfold grab_ok in *. destruct (grabbed_by b); [|done].
    by apply elem_of_union_l.
  - intros k t Ht. destruct (si_committed0 k t Ht) as [? ?]. split; [done|]. by apply elem_of_union_l.
  - destruct Hp as [Hp|Hp].
    + replace (participants s ∪ {[ p ]}) with (participants s) by (clear - Hp; set_solver). done.
    + pose proof (size_union_alt (participants s) {[ p ]}).
      assert (size ({[ p ]} ∖ participants s) <= 1)%nat by (rewrite <- (size_singleton (C := gset string) p);
        apply subseteq_size; clear; set_solver). lia.
Qed.
(** Dropping reservations. *)
Lemma inv_drop_reservations x y f s :
  f (transition_reservations s) ⊆ transition_reservations s ->
  session_inv x y s -> session_inv x y (set_reservations f s).
Proof.
  intros Hf H. pose proof (map_subseteq_size _ _ Hf). inv_split.
  - intros k t Ht. eapply si_reserved0, lookup_weaken; eauto.
  - intros i j t u Hi Hj. eapply si_reserved_one0; by eapply lookup_weaken.
  - eapply map_disjoint_weaken_l; eauto.
  - lia.
  - lia.
Qed.
Lemma inv_drop_committed x y f s :
  f (committed_transitions s) ⊆ committed_transitions s ->
  session_inv x y s -> session_inv x y (set_committed f s).
Proof.
  intros Hf H. inv_split.
  - intros k t Ht. eapply si_committed0, lookup_weaken; eauto.
  - intros i j t u Hi Hj. eapply si_committed_one0; by eapply lookup_weaken.
  - eapply map_disjoint_weaken_r; eauto.
Qed.

(** ** Leaving *)
Lemma release_grabs_ok ps p bodies :
  map_Forall (fun _ => grab_ok ps) bodies -> map_Forall (fun _ => grab_ok (ps ∖ {[ p ]})) (release_grabs p bodies).
Proof.
  intros H id b. unfold release_grabs. rewrite lookup_fmap. intros (b0 & Hb & ->)%fmap_Some.
  specialize (H id b0 Hb). unfold grab_ok in *. case_decide as Hg; [done|]. destruct (grabbed_by b0) as [q|]; [|done].
  assert (q <> p) by congruence. clear - H H0. set_solver.
Qed.
Lemma release_grabs_keeps ps p bodies :
  map_Forall (fun _ => grab_ok ps) bodies -> map_Forall (fun _ => grab_ok ps) (release_grabs p bodies).
Proof.
  intros H id b Hb. apply (release_grabs_ok ps p bodies H) in Hb. unfold grab_ok in *.
  destruct (grabbed_by b); [|done]. clear - Hb. set_solver.
Qed.

Lemma retain_subseteq f m : retain_tickets f m ⊆ m.
Proof. apply map_filter_subseteq. Qed.
Lemma retain_lookup f m k t : retain_tickets f m !! k = Some t <-> m !! k = Some t /\ f t = true.
Proof. unfold retain_tickets. by rewrite map_lookup_filter_Some. Qed.

Lemma size_departed_retire p l :
  0 <= participant_limit cfg -> Z.of_nat (size (departed l)) <= participant_limit cfg ->
  Z.of_nat (size (departed (ledger_retire p (participant_limit cfg) l))) <= participant_limit cfg.
Proof.
  intros Hl H. unfold ledger_retire. cbn [departed]. set (d := <[p := _]> _).
  assert (Hd : (size d <= S (size (departed l)))%nat).
  { unfold d. destruct (departed l !! p) eqn:E.
    - rewrite map_size_insert_Some by eauto. lia.
    - rewrite map_size_insert_None by done. lia. }
  destruct (Z.ltb_spec (participant_limit cfg) (Z.of_nat (size d))); [|done].
  pose proof (oldest_departed_spec d) as Ho. destruct (oldest_departed d) as [old|].
  - destruct Ho as (row & Hrow & _). rewrite map_size_delete_Some by eauto. lia.
  - rewrite Ho, map_size_empty in *. lia.
Qed.

(** The state after a participant has gone. *)
Definition gone (p : string) (s : Session) : Session :=
  let s1 := set_participants (fun ps => ps ∖ {[ p ]}) s in
  let s2 := set_committed (retain_tickets (ticket_kept p None))
              (set_reservations (retain_tickets (ticket_kept p None)) s1) in
  let s3 := set_seats (delete p) (set_entries (delete p) (set_exits (delete p) s2)) in
  let s4 := if decide (p ∈ participants s /\ p <> owner_pubkey (lease cfg))
            then set_inputs (ledger_retire p (participant_limit cfg)) s3 else s3 in
  set_bodies (release_grabs p) (set_bodies (delete (avatar_id p))
    (set_budgets (delete p) (set_last_seen (delete p) s4))).

Lemma evict_participant_gone p s :
  evict_participant cfg p s = (Ok (bool_decide (p ∈ participants s)), gone p s).
Proof.
  unfold evict_participant, revoke_transition_access, gone, remove_body.
  unfold mbind, se_bind, mret, se_ret, get, modify. cbn -[ledger_retire].
  do 2 case_bool_decide; case_decide; naive_solver.
Qed.
Lemma wp_evict p Q E s :
  wp (evict_participant cfg p) Q E s = Q (bool_decide (p ∈ participants s)) (gone p s).
Proof. unfold wp. by rewrite evict_participant_gone. Qed.

Lemma gone_inputs p s :
  inputs (gone p s) = inputs s \/ inputs (gone p s) = ledger_retire p (participant_limit cfg) (inputs s).
Proof. unfold gone. case_decide; fields; auto. Qed.
Lemma gone_participants p s : participants (gone p s) = participants s ∖ {[ p ]}.
Proof. unfold gone. case_decide; done. Qed.

Lemma inv_gone x y p s :
  0 <= participant_limit cfg -> session_inv x y s -> session_inv (x ∖ {[ p ]}) (y ∖ {[ p ]}) (gone p s).
Proof.
  intros Hlim H.
  assert (Hin : dom (active (inputs (gone p s))) ⊆ participants s ∖ {[ p ]} ∪ {[ owner_pubkey (lease cfg) ]}
    /\ Z.of_nat (size (departed (inputs (gone p s)))) <= participant_limit cfg /\ ledger_wf (inputs (gone p s))).
  { pose proof (si_active _ _ _ H) as Ha. pose proof (si_departed _ _ _ H) as Hd. pose proof (si_ledger _ _ _ H) as Hw.
    unfold gone. case_decide as Hp; fields; cbn [active ledger_retire].
    - split_and!; [|by apply size_departed_retire|by apply ledger_retire_wf].
      rewrite dom_delete_L. clear - Ha. set_solver.
    - split_and!; [|done|done]. clear - Ha Hp. intros q Hq. specialize (Ha q Hq).
      destruct (decide (q = p)) as [->|]; [|set_solver]. destruct (decide (p = owner_pubkey (lease cfg))); set_solver. }
  destruct Hin as (Hact & Hdep & Hled).
  assert (Hsub : transition_reservations (gone p s) ⊆ transition_reservations s).
  { unfold gone. case_decide; fields; apply retain_subseteq. }
  pose proof (map_subseteq_size _ _ Hsub) as Hsz.
  destruct H. split; try (rewrite gone_participants); try assumption.
  - unfold gone. case_decide; fields; rewrite dom_delete_L; clear - si_exits0; set_solver.
  - unfold gone. case_decide; fields; rewrite dom_delete_L; clear - si_entries0; set_solver.
  - unfold gone. case_decide; fields; rewrite dom_delete_L; clear - si_seats0; set_solver.
  - unfold gone. case_decide; fields; rewrite dom_delete_L; clear - si_seen0; set_solver.
  - unfold gone. case_decide; fields; rewrite dom_delete_L; clear - si_all_seen0; set_solver.
  - unfold gone. case_decide; fields; rewrite dom_delete_L; clear - si_budgets0; set_solver.
  - unfold gone. case_decide; fields; apply release_grabs_ok, map_Forall_delete, si_grabs0.
  - intros k t Ht. eapply si_reserved0, lookup_weaken; eauto.
  - assert (Hc : committed_transitions (gone p s) = retain_tickets (ticket_kept p None) (committed_transitions s))
      by (unfold gone; by case_decide).
    rewrite Hc. intros k t [Ht Hk]%retain_lookup. destruct (si_committed0 k t Ht) as [? ?]. split; [done|].
    unfold ticket_kept in Hk. rewrite andb_true_r, negb_true_iff, bool_decide_eq_false in Hk. clear - Hk H0. set_solver.
  - intros i j t u Hi Hj. eapply si_reserved_one0; by eapply lookup_weaken.
  - unfold gone. case_decide; fields; intros i j t u [Hi _]%retain_lookup [Hj _]%retain_lookup; by eapply si_committed_one0.
  - eapply map_disjoint_weaken; [done|exact Hsub|]. unfold gone. case_decide; apply retain_subseteq.
  - lia.
  - assert (size (participants s ∖ {[ p ]}) <= size (participants s))%nat by (apply subseteq_size; clear; set_solver). lia.
Qed.
End inv.

(** ** Methods that only touch the bodies *)
Definition bodies_frame (s s' : Session) : Prop :=
  exists b r c h w, s' = set_metrics r c h w (set_bodies (fun _ => b) s) /\
    (forall ps, map_Forall (fun _ => grab_ok ps) (bodies_by_id s) -> map_Forall (fun _ => grab_ok ps) b).

Lemma inv_bodies_frame cfg x y s s' : bodies_frame s s' -> session_inv cfg x y s -> session_inv cfg x y s'.
Proof.
  intros (b & r & c & h & w & -> & Hb) H. apply inv_metrics, inv_bodies; [|done]. intros Hg. by apply Hb.
Qed.

Lemma bodies_frame_refl s : bodies_frame s s.
Proof. destruct s. by repeat eexists. Qed.
Lemma bodies_frame_insert id b s r c h w :
  grabbed_by b = None -> bodies_frame s (set_metrics r c h w (set_bodies (<[id := b]>) s)).
Proof.
  intros Hb. eexists _, _, _, _, _. split; [reflexivity|]. fields. intros ps H.
  apply map_Forall_insert_2; [|done]. by unfold grab_ok; rewrite Hb.
Qed.

Section methods.
Context (cfg : SessionConfig) (env : Env).

Lemma ensure_avatar_wp p c s :
  wp (ensure_avatar cfg env p c) (fun _ s' => bodies_frame s s' /\ is_Some (bodies_by_id s' !! avatar_id p))
    (fun _ s' => s' = s) s.
Proof.
  unfold ensure_avatar, note_bodies. wp_step. wp_step. wp_step; [by split; [apply bodies_frame_refl|]|].
  cbn [fallback_capsule_collider vx vy vz fst snd]. wp_run; try done.
  split; [by apply bodies_frame_insert|]. fields. rewrite lookup_insert_eq. eauto.
Qed.

Lemma insert_prop_wp p k e c s :
  wp (insert_prop p k e c) (fun _ s' => bodies_frame s s') (fun _ s' => s' = s) s.
Proof. unfold insert_prop, note_bodies. wp_run; [|done]. by apply bodies_frame_insert. Qed.

Lemma clamp_inv x y s : session_inv cfg x y s -> wp (clamp_bodies_to_dome env) (fun _ => session_inv cfg x y)
  (fun _ => session_inv cfg x y) s.
Proof.
  intros H. unfold clamp_bodies_to_dome. wp_run. apply inv_entries; [|done].
  etrans; [apply dom_filter_subseteq | apply (si_entries _ _ _ _ H)].
Qed.

(** ** The input handlers *)
Lemma prepare_exit_inv x y p tid d s : session_inv cfg x y s ->
  wp (prepare_transition_exit p tid d) (fun _ => session_inv cfg x y) (fun _ => session_inv cfg x y) s.
Proof.
  intros H. unfold prepare_transition_exit, require_participant. wp_run; try done.
  apply bool_decide_eq_true in H0.
  apply inv_exits; fields.
  { rewrite dom_insert_L. pose proof (si_exits _ _ _ _ H) as He. clear - H0 He. set_solver. }
  apply inv_seats; fields.
  { rewrite dom_delete_L. pose proof (si_seats _ _ _ _ H) as He. clear - He. set_solver. }
  apply inv_bodies; [|done]. apply release_grabs_keeps.
Qed.

Lemma abort_exit_inv x y p tid s : session_inv cfg x y s ->
  wp (abort_transition_exit p tid) (fun _ => session_inv cfg x y) (fun _ => session_inv cfg x y) s.
Proof.
  intros H. unfold abort_transition_exit. wp_run; try done. apply inv_exits; [|done].
  rewrite dom_delete_L. pose proof (si_exits _ _ _ _ H) as He. clear - He. set_solver.
Qed.

Lemma set_grab_ok s p id b g :
  match g with Some q => q = p | None => True end -> p ∈ participants s ->
  map_Forall (fun _ => grab_ok (participants s)) (bodies_by_id s) ->
  map_Forall (fun _ => grab_ok (participants s)) (<[id := set_grab g b]> (bodies_by_id s)).
Proof. intros Hg Hp H. apply map_Forall_insert_2; [|done]. destruct g; simplify_eq; done. Qed.

Lemma impulse_inv x y p prop th s : session_inv cfg x y s ->
  wp (impulse_input p prop th) (fun _ => session_inv cfg x y) (fun _ => session_inv cfg x y) s.
Proof.
  intros H. unfold impulse_input, require_participant. wp_run; try done. apply inv_bodies; [|done].
  eapply set_grab_ok; [done|]. by eapply bool_decide_eq_true.
Qed.

(** What [preflight_input] has established when [apply_input] starts. *)
Definition may_join (i : SessionInput) (s : Session) : Prop :=
  match input i with
  | IJoin _ => signer i ∈ participants s \/ Z.of_nat (size (participants s)) + 1 <= participant_limit cfg
  | _ => True
  end.

Lemma inv_gone_weak x y p s : 0 <= participant_limit cfg -> session_inv cfg x y s -> session_inv cfg x y (gone cfg p s).
Proof.
  intros Hl H. eapply inv_slack; [| |by apply inv_gone]; clear; set_solver.
Qed.

Lemma apply_input_inv x y i s :
  0 <= participant_limit cfg -> may_join i s -> session_inv cfg x y s ->
  wp (apply_input cfg env i) (fun _ => session_inv cfg x (y ∪ {[ signer i ]})) (fun _ => session_inv cfg x y) s.
Proof.
  intros Hl Hj H.
  enough (Hw : match input i with IJoin _ => True | _ =>
    wp (apply_input cfg env i) (fun _ => session_inv cfg x y) (fun _ => session_inv cfg x y) s end).
  { destruct (input i) eqn:Ei; try (eapply wp_mono; [exact Hw | | done]; intros ? s' Hs'; 
      eapply inv_slack; [| |exact Hs']; [done | apply union_subseteq_l]).
    unfold apply_input, may_join, note_participants in *. rewrite Ei in *. wp_step.
    eapply wp_mono; [apply ensure_avatar_wp | | by intros ? ? ->]. intros ? s' [Hf _]. wp_run.
    apply inv_metrics, inv_join; [|by eapply inv_bodies_frame].
    by destruct Hf as (? & ? & ? & ? & ? & -> & _). }
  destruct (input i) eqn:Ei; [done|..]; unfold apply_input; rewrite Ei; unfold require_participant, require_owner, remove_body.
  - wp_step. rewrite wp_evict. wp_run. by apply inv_gone_weak.
  - wp_run; done.
  - wp_run; try done. apply inv_bodies; [|done]. intros Hg. apply map_Forall_insert_2; [|done]. by eapply (Hg _ r).
  - wp_run; try done. apply inv_bodies; [|done]. eapply set_grab_ok; [done|]. by eapply bool_decide_eq_true.
  - by apply impulse_inv.
  - by apply impulse_inv.
  - wp_run; try done. apply inv_seats; [|done]. rewrite dom_insert_L. apply bool_decide_eq_true in H0.
    pose proof (si_seats _ _ _ _ H) as He. clear - He H0. set_solver.
  - by apply prepare_exit_inv.
  - by apply abort_exit_inv.
  - unfold complete_transition_exit. wp_run; try done. rewrite wp_evict. wp_run. by apply inv_gone_weak.
  - wp_run; try done. eapply wp_mono; [apply insert_prop_wp | |by intros ? ? ->].
    intros ? s' Hs'. eapply inv_bodies_frame; [exact Hs'|done].
  - wp_run; try done. assert (Hd : session_inv cfg x y (set_bodies (delete (prop_id prop)) s)).
    { apply inv_bodies; [|done]. by apply map_Forall_delete. }
    eapply wp_mono; [apply insert_prop_wp | |by intros ? ? ->]. intros ? s' Hs'. eapply inv_bodies_frame; [exact Hs'|done].
  - wp_run; try done. apply inv_bodies; [|done]. by apply map_Forall_delete.
Qed.
End methods.
