(* ===== verification/DomeSessionRun.v ===== *)
(** * Runs of a Dome session

    The operations of a hosted session as one step function, and the invariant along
    every run. *)
From S2P Require Import Prelude RustStr DomeTransition DomeLedger DomeSession DomeSessionInv.

(** ** Preflight only touches the budget row of the signer *)
Definition budget_frame (p : string) (s s' : Session) : Prop :=
  exists f, s' = set_budgets f s /\ dom (f (player_budgets s)) ⊆ dom (player_budgets s) ∪ {[ p ]}.

Lemma budget_frame_refl p s : budget_frame p s s.
Proof. exists id. destruct s. split; [done|]. apply union_subseteq_l. Qed.
Lemma budget_frame_trans p s t u : budget_frame p s t -> budget_frame p t u -> budget_frame p s u.
Proof.
  intros (f & -> & Hf) (g & -> & Hg). exists (fun m => g (f m)). fields. split; [done|].
  clear - Hf Hg. set_solver.
Qed.
Lemma inv_budget_frame cfg x y p s s' :
  p ∈ x -> budget_frame p s s' -> session_inv cfg x y s -> session_inv cfg x y s'.
Proof.
  intros Hp (f & -> & Hf) H. eapply inv_set_budgets; [|done]. pose proof (si_budgets _ _ _ _ H) as Hb.
  clear - Hf Hb Hp. set_solver.
Qed.
Lemma budget_frame_eqs p s s' : budget_frame p s s' ->
  participants s' = participants s /\ inputs s' = inputs s /\ bodies_by_id s' = bodies_by_id s /\
  prepared_exits s' = prepared_exits s.
Proof. by intros (f & -> & _). Qed.

Section preflight.
Context (cfg : SessionConfig) (env : Env).

Lemma player_window_wp p sel upd now d a l res s :
  wp (player_window p sel upd now d a l res) (fun _ s' => budget_frame p s s') (fun _ s' => budget_frame p s s') s.
Proof.
  assert (Hf : forall v, budget_frame p s (set_budgets (<[p := v]>) s)).
  { intros v. eexists. split; [reflexivity|]. rewrite dom_insert_L. clear. set_solver. }
  unfold player_window. wp_run; apply Hf.
Qed.

(** Chain a window check before the rest of a check. *)
Lemma window_then {A} p sel upd now d a l res (k : unit -> SE A) s Q E :
  (forall e s', budget_frame p s s' -> E e s') ->
  (forall s', budget_frame p s s' -> wp (k tt) Q E s') ->
  wp (player_window p sel upd now d a l res ≫= k) Q E s.
Proof.
  intros HE HQ. rewrite wp_bind. eapply wp_mono; [apply player_window_wp | |].
  - intros [] s' Hs'. by apply HQ.
  - intros e s' Hs'. by apply HE.
Qed.

Lemma preflight_interaction_wp p k now s0 s :
  budget_frame p s0 s ->
  wp (preflight_interaction cfg p k now) (fun _ s' => budget_frame p s0 s') (fun _ s' => budget_frame p s0 s') s.
Proof.
  intros H0. unfold preflight_interaction, check_limit.
  apply window_then; [by intros; eapply budget_frame_trans|]. intros s2 H2. wp_run; by eapply budget_frame_trans.
Qed.

Lemma preflight_wp i now s :
  wp (preflight_input cfg env i now) (fun _ s' => budget_frame (signer i) s s' /\ may_join cfg i s')
    (fun _ s' => budget_frame (signer i) s s') s.
Proof.
  unfold preflight_input. apply window_then; [done|]. intros s1 H1. wp_step. wp_step. wp_step.
  wp_step; [|done]. unfold may_join, check_verified_asset, check_body_capacity, check_limit.
  assert (Hi : forall k, wp (preflight_interaction cfg (signer i) k now)
    (fun _ s' => budget_frame (signer i) s s' /\ True) (fun _ s' => budget_frame (signer i) s s') s1).
  { intros k. eapply wp_mono; [by apply preflight_interaction_wp | by split | done]. }
  destruct (input i) eqn:Ei; try by wp_run.
  - wp_run; try done; split; try done; [by left | right]. by apply Z.leb_le.
  - apply window_then; [by intros; eapply budget_frame_trans|]. intros s2 H2.
    wp_run; try split; try done; by eapply budget_frame_trans.
Qed.
End preflight.

(** ** Every operation keeps the invariant *)
Section keeps.
Context (cfg : SessionConfig) (Hlim : 0 <= participant_limit cfg).
Abbreviation inv := (session_inv cfg).

Lemma drop_expired_size now l : (size (departed (drop_expired now l)) <= size (departed l))%nat.
Proof. apply map_subseteq_size, map_filter_subseteq. Qed.

Lemma size_alter_row (f : Z * InputMark -> Z * InputMark) id (d : gmap string (Z * InputMark)) : size (alter f id d) = size d.
Proof.
  destruct (d !! id) as [r|] eqn:E.
  - replace (alter f id d) with (<[id := f r]> d); [by rewrite map_size_insert_Some by eauto|].
    apply map_eq. intros j. rewrite lookup_alter. case_decide; subst; [by rewrite lookup_insert_eq, E|].
    by rewrite lookup_insert_ne.
  - f_equal. apply map_eq. intros j. rewrite lookup_alter. case_decide; subst; by rewrite ?E.
Qed.

Lemma inv_record x y s p seq sent act :
  (act = true -> p ∈ participants s \/ p = owner_pubkey (lease cfg)) ->
  inv x y s -> inv x y (set_inputs (ledger_record p seq sent act) s).
Proof.
  intros Hact H. pose proof (si_active _ _ _ _ H) as Ha. pose proof (si_departed _ _ _ _ H) as Hd.
  apply inv_inputs; [| |by eapply ledger_record_wf, si_ledger|done]; unfold ledger_record; destruct act; cbn [active departed].
  - rewrite dom_insert_L. clear - Ha Hact. destruct (Hact eq_refl) as [?| ->]; set_solver.
  - done.
  - assert (size (delete p (departed (inputs s))) <= size (departed (inputs s)))%nat
      by apply map_subseteq_size, delete_subseteq. lia.
  - by rewrite size_alter_row.
Qed.

Lemma inv_checked x y s i now : inv x y s -> inv x y (set_inputs (fun _ => drop_expired now (inputs s)) s) /\
  (check_ledger i now s).2 = set_inputs (fun _ => drop_expired now (inputs s)) s.
Proof.
  intros H. split.
  - pose proof (si_departed _ _ _ _ H) as Hd. pose proof (drop_expired_size now (inputs s)) as Hs.
    apply inv_inputs; [by apply (si_active _ _ _ _ H)|lia|by apply drop_expired_wf, (si_ledger _ _ _ _ H)|done].
  - unfold check_ledger. rewrite (surjective_pairing (ledger_check _ _ _ _ _)). cbn [snd].
    by rewrite ledger_check_snd.
Qed.

(** The settled state after the signer's handler ran. *)
Lemma inv_settle p y s : inv {[ p ]} y s ->
  inv ∅ y (if bool_decide (p ∈ participants s) then s else set_budgets (delete p) s).
Proof.
  intros H. pose proof (si_budgets _ _ _ _ H) as Hb. case_bool_decide as Hp.
  - destruct H; split; try assumption. clear - Hb Hp. set_solver.
  - eapply inv_set_budgets; [|done]. rewrite dom_delete_L. clear - Hb. set_solver.
Qed.

Lemma wp_settle p Q E s :
  Q tt (if bool_decide (p ∈ participants s) then s else set_budgets (delete p) s) ->
  wp (if bool_decide (p ∈ participants s) then mret tt else modify (set_budgets (delete p))) Q E s.
Proof. by case_bool_decide. Qed.

Lemma apply_signed_input_inv env i now s :
  inv ∅ ∅ s -> wp (apply_signed_input_at cfg env i now) (fun _ => inv ∅ ∅) (fun _ => inv ∅ ∅) s.
Proof.
  intros J. unfold apply_signed_input_at, verify_signed_dome_session_input. wp_run; try done.
  destruct (inv_checked ∅ ∅ s i now J) as [J1 Es]. unfold wp at 1. 
  destruct (check_ledger i now s) as [[[]|e] s1]; cbn [snd] in Es; subst s1; [|done]. wp_step. wp_step.
  set (s1 := set_inputs _ _) in *. set (p := signer i) in *.
  assert (Happ : wp (_ ← preflight_input cfg env i now; apply_input cfg env i)
    (fun _ => inv {[ p ]} {[ p ]}) (fun _ => inv {[ p ]} ∅) s1).
  { assert (J1' : inv {[ p ]} ∅ s1) by (eapply inv_slack; [| |exact J1]; apply empty_subseteq).
    wp_step. eapply wp_mono; [apply preflight_wp | |].
    - intros ? s2 [Hf Hj]. eapply wp_mono; [apply (apply_input_inv _ _ {[ p ]} ∅); [done|done|]| |].
      + by eapply inv_budget_frame; [|exact Hf|]; [apply elem_of_singleton|].
      + intros ? s3 Hs3. eapply inv_slack; [done| |exact Hs3]. by rewrite union_empty_l_L.
      + done.
    - intros e s2 Hf. eapply inv_budget_frame; [|exact Hf|done]. by apply elem_of_singleton. }
  eapply wp_mono; [exact Happ | |]; cbv beta.
  - intros ? s2 J2. do 3 wp_step. apply wp_settle. apply inv_settle in J2 as J3.
    set (s3 := if bool_decide _ then s2 else _) in *.
    assert (Hp3 : participants s3 = participants s2)  by (unfold s3; by destruct (bool_decide (p ∈ participants s2))).
    do 2 wp_step. assert (J4 : inv ∅ {[ p ]} (set_inputs (ledger_record p (input_sequence i) (sent_at i)
      (bool_decide (p ∈ participants s2) || bool_decide (p = owner_pubkey (lease cfg)))) s3)).
    { apply inv_record; [|done]. rewrite Hp3. intros [?%bool_decide_eq_true|?%bool_decide_eq_true]%orb_prop; auto. }
    change (signer i) with p. set (s4 := set_inputs (ledger_record _ _ _ _) s3) in *.
    destruct (bool_decide (p ∈ participants s2)) eqn:Hp; wp_run; apply clamp_inv.
    + apply bool_decide_eq_true in Hp. eapply inv_slack; [done| |apply inv_last_seen; [|exact J4]];
        [clear; set_solver|]. unfold s4. fields. by rewrite Hp3.
    + apply bool_decide_eq_false in Hp. destruct J4; split; try assumption.
      assert (Hp4 : p ∉ participants s4) by (unfold s4; fields; by rewrite Hp3). clear - si_all_seen Hp4. set_solver.
  - intros e s2 J2. do 3 wp_step. apply wp_settle. apply inv_settle in J2.
    wp_step. destruct e; wp_run; [|done]. by apply inv_metrics.
Qed.

(** ** Reservations *)
Lemma expire_reservations_inv x y now s : inv x y s ->
  inv x y (set_reservations (retain_tickets (fun t => now <? ticket_expires_at t)) s).
Proof. intros H. apply inv_drop_reservations; [apply retain_subseteq | done]. Qed.

Lemma has_reservation_false p m : has_reservation p m = false ->
  forall k t, m !! k = Some t -> participant_pubkey (request t) <> p.
Proof.
  intros H k t Ht Hp. enough (has_reservation p m = true) by congruence.
  apply existsb_elem. exists (k, t). split; [by apply elem_of_map_to_list|]. by apply bool_decide_eq_true.
Qed.

(** A new reservation has a slot of its own. *)
Lemma inv_reserve x y s t :
  issued cfg (transition_id (request t)) t ->
  committed_transitions s !! transition_id (request t) = None ->
  transition_reservations s !! transition_id (request t) = None ->
  has_reservation (participant_pubkey (request t)) (transition_reservations s) = false ->
  Z.of_nat (size (participants s)) + Z.of_nat (size (transition_reservations s))
    + (if bool_decide (participant_pubkey (request t) ∈ participants s) then 0 else 1) <= participant_limit cfg ->
  inv x y s -> inv x y (set_reservations (<[transition_id (request t) := t]>) s).
Proof.
  intros Hi Hc Hr Hh Hs H. pose proof (has_reservation_false _ _ Hh) as Hno.
  assert (Hsz : size (<[transition_id (request t) := t]> (transition_reservations s))
    = S (size (transition_reservations s))) by by apply map_size_insert_None.
  assert (Hp : Z.of_nat (size (transition_reservations s)) + 1 <= participant_limit cfg).
  { case_bool_decide as Hp; [|lia]. assert (size (participants s) <> 0)%nat; [|lia].
    intros Hz%size_empty_inv. clear - Hz Hp. set_solver. }
  destruct H. split; fields; try assumption.
  - by apply map_Forall_insert_2.
  - intros i j u v. rewrite !lookup_insert_Some. intros [[<- <-]|[_ Hu]] [[<- <-]|[_ Hv]] E; try done.
    + by destruct (Hno j v Hv).
    + by destruct (Hno i u Hu).
    + by eapply si_reserved_one.
  - by apply map_disjoint_insert_l_2.
  - lia.
  - case_bool_decide; lia.
Qed.

Lemma prepare_admission_inv r access now s : inv ∅ ∅ s ->
  wp (prepare_transition_admission cfg r access now) (fun _ => inv ∅ ∅) (fun _ => inv ∅ ∅) s.
Proof.
  intros H. apply (expire_reservations_inv _ _ now) in H.
  unfold prepare_transition_admission, expire_transition_reservations, check_body_capacity, check_limit. wp_step. wp_step.
  set (s1 := set_reservations _ s) in *. clearbody s1. clear s.
  assert (Hnew : committed_transitions s1 !! transition_id r = None -> transition_reservations s1 !! transition_id r = None ->
    negb (has_reservation (participant_pubkey r) (transition_reservations s1)) = true ->
    (Z.of_nat (size (participants s1)) + Z.of_nat (size (transition_reservations s1))
      + (if bool_decide (participant_pubkey r ∈ participants s1) then 0 else 1) <=? participant_limit cfg) = true ->
    inv ∅ ∅ (set_reservations (<[transition_id r := {| request := r; target_lease_epoch := epoch (lease cfg);
      target_session_id := config_session_id cfg;
      ticket_expires_at := sat_i64 (now + DOME_TRANSITION_TICKET_TTL_MILLIS) |}]>) s1)).
  { intros Hc Hr Hh%negb_true_iff Hs%Z.leb_le. eapply (inv_reserve _ _ _ {| request := r |}); done. }
  wp_run; try done; by apply Hnew.
Qed.

(** Committing turns the reservation into a participant. *)
Definition enter_ticket (t : TransitionTicket) (now : Z) (s : Session) : Session :=
  let p := participant_pubkey (request t) in
  let s1 := set_last_seen (<[p := now]>) (set_participants (fun ps => ps ∪ {[ p ]}) s) in
  let s2 := set_exits (delete p) (set_entries (<[p := opposite_dome_direction (direction (request t))]>) s1) in
  set_committed (<[transition_id (request t) := t]>)
    (set_committed (retain_tickets (fun c => negb (bool_decide (participant_pubkey (request c) = p))))
       (set_reservations (delete (transition_id (request t))) s2)).

Lemma commit_capacity s t :
  transition_reservations s !! transition_id (request t) = Some t ->
  (size (participants s ∪ {[ participant_pubkey (request t) ]})
   + size (delete (transition_id (request t)) (transition_reservations s))
   <= size (participants s) + size (transition_reservations s))%nat.
Proof.
  intros Ht. set (p := participant_pubkey (request t)).
  rewrite map_size_delete_Some by eauto. pose proof (size_union_alt (participants s) {[ p ]}).
  assert (size ({[ p ]} ∖ participants s) <= 1)%nat by (rewrite <- (size_singleton (C := gset string) p);
    apply subseteq_size; clear; set_solver).
  assert (size (transition_reservations s) <> 0)%nat; [|lia].
  intros Hz%map_size_empty_inv. by rewrite Hz, lookup_empty in Ht.
Qed.

Lemma inv_enter_ticket s t now :
  transition_reservations s !! transition_id (request t) = Some t -> inv ∅ ∅ s -> inv ∅ ∅ (enter_ticket t now s).
Proof.
  intros Ht H. pose proof (commit_capacity s t Ht) as Hcap.
  pose proof (map_subseteq_size _ _ (delete_subseteq (transition_reservations s) (transition_id (request t)))) as Hsz.
  unfold enter_ticket. set (p := participant_pubkey (request t)) in *. set (ps := participants s ∪ {[ p ]}) in *.
  assert (Hps : participants s ⊆ ps) by apply union_subseteq_l.
  assert (Hp : p ∈ ps) by by apply elem_of_union_r, elem_of_singleton.
  destruct H. pose proof (si_reserved _ _ Ht) as Hi.
  split; fields; fold p; fold ps.
  - rewrite dom_delete_L. clear - si_exits Hps. set_solver.
  - rewrite dom_insert_L. clear - si_entries Hps Hp. set_solver.
  - by etrans.
  - rewrite dom_insert_L. clear - si_seen Hps Hp. set_solver.
  - rewrite dom_insert_L. unfold ps. clear - si_all_seen. set_solver.
  - clear - si_budgets Hps. set_solver.
  - intros id b Hb. specialize (si_grabs id b Hb). unfold grab_ok in *. destruct (grabbed_by b); [by apply Hps|done].
  - clear - si_active Hps. set_solver.
  - assumption.
  - assumption.
  - intros k u [_ Hu]%lookup_delete_Some. by apply si_reserved.
  - apply map_Forall_insert_2; [done|]. intros k u [Hu _]%retain_lookup.
    destruct (si_committed k u Hu). split; [done|by apply Hps].
  - intros i j u v [_ Hu]%lookup_delete_Some [_ Hv]%lookup_delete_Some. by eapply si_reserved_one.
  - assert (Hne : forall k u, retain_tickets (fun c => negb (bool_decide (participant_pubkey (request c) = p)))
      (committed_transitions s) !! k = Some u -> committed_transitions s !! k = Some u /\ participant_pubkey (request u) <> p).
    { intros k u [Hu Hn]%retain_lookup. by rewrite negb_true_iff, bool_decide_eq_false in Hn. }
    intros i j u v [[<- <-]|[_ Hu%Hne]]%lookup_insert_Some [[<- <-]|[_ Hv%Hne]]%lookup_insert_Some E; try done.
    + by destruct Hv as [_ []].
    + by destruct Hu as [_ []].
    + by eapply si_committed_one; [apply Hu|apply Hv|].
  - apply map_disjoint_insert_r_2; [by rewrite lookup_delete_eq|].
    eapply map_disjoint_weaken; [exact si_disjoint|apply delete_subseteq|apply retain_subseteq].
  - lia.
  - lia.
Qed.

Lemma commit_admission_inv env t now s : inv ∅ ∅ s ->
  wp (commit_transition_admission cfg env t now) (fun _ => inv ∅ ∅) (fun _ => inv ∅ ∅) s.
Proof.
  intros H. apply (expire_reservations_inv _ _ now) in H.
  unfold commit_transition_admission, expire_transition_reservations, set_avatar_transform, note_participants.
  wp_step. wp_step. set (s1 := set_reservations _ s) in *. clearbody s1. clear s.
  wp_run; try done. eapply wp_mono; [apply ensure_avatar_wp | |by intros ? ? ->].
  intros ? s2 [Hf Hb]. eapply inv_bodies_frame in H; [|exact Hf].
  assert (Hr : transition_reservations s2 !! transition_id (request t) = Some t).
  { destruct Hf as (? & ? & ? & ? & ? & -> & _). fields. by apply bool_decide_eq_true in H0. }
  wp_run; [|by rewrite bool_decide_eq_false in *].
  eapply wp_mono; [apply clamp_inv, (inv_enter_ticket _ _ _ Hr H)| |]; cbv beta.
  - intros ? s3 H3. wp_run. by apply inv_metrics.
  - done.
Qed.

Lemma abort_admission_inv tid p now s : inv ∅ ∅ s ->
  wp (abort_transition_admission tid p now) (fun _ => inv ∅ ∅) (fun _ => inv ∅ ∅) s.
Proof.
  intros H. apply (expire_reservations_inv _ _ now) in H.
  unfold abort_transition_admission, expire_transition_reservations. wp_step. wp_step.
  set (s1 := set_reservations _ s) in *. clearbody s1. clear s.
  wp_run; try done; (apply inv_drop_reservations; [apply delete_subseteq|done]).
Qed.

Lemma inv_drop_exits x y f s :
  dom (f (prepared_exits s)) ⊆ dom (prepared_exits s) -> inv x y s -> inv x y (set_exits f s).
Proof. intros Hf H. apply inv_exits; [|done]. etrans; [exact Hf | apply (si_exits _ _ _ _ H)]. Qed.

Lemma revoke_inv p c s : inv ∅ ∅ s ->
  wp (revoke_transition_access p c) (fun _ => inv ∅ ∅) (fun _ => inv ∅ ∅) s.
Proof.
  intros H. unfold revoke_transition_access. wp_run.
  apply inv_drop_exits; [fields; rewrite dom_delete_L; clear; set_solver|].
  apply inv_drop_committed; [apply retain_subseteq|]. apply inv_drop_reservations; [apply retain_subseteq|done].
Qed.

Lemma dom_foldr_delete {A} (ks : list string) (m : gmap string A) : dom (foldr delete m ks) ⊆ dom m.
Proof. induction ks as [|k ks IH]; [done|]. simpl. rewrite dom_delete_L. set_solver. Qed.

Lemma drain_inv c s : inv ∅ ∅ s -> wp (drain_connection c) (fun _ => inv ∅ ∅) (fun _ => inv ∅ ∅) s.
Proof.
  intros H. unfold drain_connection. wp_run. apply inv_drop_exits; [apply dom_foldr_delete|].
  apply inv_drop_reservations; [apply retain_subseteq|done].
Qed.

Lemma evict_inv p s : inv ∅ ∅ s -> wp (evict_participant cfg p) (fun _ => inv ∅ ∅) (fun _ => inv ∅ ∅) s.
Proof. intros H. rewrite wp_evict. by apply inv_gone_weak. Qed.

Lemma evict_each_inv ps s : inv ∅ ∅ s -> wp (evict_each cfg ps) (fun _ => inv ∅ ∅) (fun _ => inv ∅ ∅) s.
Proof.
  revert s. induction ps as [|p ps IH]; intros s H; cbn [evict_each]; [by wp_run|].
  wp_step. rewrite wp_evict. by apply IH, inv_gone_weak.
Qed.

Lemma simulate_inv env n s : inv ∅ ∅ s -> wp (simulate env n) (fun _ => inv ∅ ∅) (fun _ => inv ∅ ∅) s.
Proof.
  revert s. induction n as [|n IH]; intros s H; cbn [simulate]; [by wp_run|].
  wp_step. eapply wp_mono; [by apply (clamp_inv cfg env ∅ ∅) | |done]. intros ? s' Hs'. by apply IH.
Qed.

Lemma advance_to_inv env now s : inv ∅ ∅ s -> wp (advance_to cfg env now) (fun _ => inv ∅ ∅) (fun _ => inv ∅ ∅) s.
Proof.
  intros H. unfold advance_to, expire_guest_props, expire_stale_participants. wp_run; [|done].
  assert (Hb : forall f, f (bodies_by_id s) ⊆ bodies_by_id s -> inv ∅ ∅ (set_bodies f s)).
  { intros f Hf. apply inv_bodies; [|done]. intros Hg id b Hid. by eapply Hg, lookup_weaken. }
  eapply wp_mono; [by apply evict_each_inv, Hb, map_filter_subseteq | |done]. intros ? s1 H1. wp_run.
  - by apply inv_clock.
  - eapply wp_mono; [by apply simulate_inv | |done]. intros ? s2 H2. wp_run. by apply inv_clock.
Qed.

Lemma advance_for_read_inv env now s : inv ∅ ∅ s ->
  wp (advance_for_read cfg env now) (fun _ => inv ∅ ∅) (fun _ => inv ∅ ∅) s.
Proof. intros H. unfold advance_for_read. wp_run. by apply advance_to_inv. Qed.

Lemma insert_prop_inv p k e c s : inv ∅ ∅ s -> wp (insert_prop p k e c) (fun _ => inv ∅ ∅) (fun _ => inv ∅ ∅) s.
Proof.
  intros H. eapply wp_mono; [apply insert_prop_wp | |by intros ? ? ->]. intros ? s' Hs'.
  eapply inv_bodies_frame; [exact Hs'|done].
Qed.

Lemma insert_props_inv ps s : inv ∅ ∅ s -> wp (insert_props ps) (fun _ => inv ∅ ∅) (fun _ => inv ∅ ∅) s.
Proof.
  revert s. induction ps as [|p ps IH]; intros s H; cbn [insert_props]; [by wp_run|].
  wp_step. eapply wp_mono; [by apply insert_prop_inv | |done]. intros ? s' Hs'. by apply IH.
Qed.

Lemma add_guest_prop_inv p e s : inv ∅ ∅ s -> wp (add_guest_prop p e) (fun _ => inv ∅ ∅) (fun _ => inv ∅ ∅) s.
Proof. intros H. unfold add_guest_prop. wp_run; [|done]. by apply insert_prop_inv. Qed.

Lemma empty_session_inv t : inv ∅ ∅ (empty_session t).
Proof.
  split; cbn; try done; try (rewrite dom_empty_L; apply empty_subseteq); try lia.
  all: try (by apply map_Forall_empty). all: try by intros i j r u ?%lookup_empty_Some.
  rewrite size_empty, map_size_empty. lia.
Qed.
End keeps.

(** ** Runs *)
Inductive Op :=
| OpInput (env : Env) (i : SessionInput) (now : Z)
| OpPrepare (r : TransitionRequest) (access : AccessDecision) (now : Z)
| OpCommit (env : Env) (t : TransitionTicket) (now : Z)
| OpAbort (tid p : string) (now : Z)
| OpRevoke (p : string) (connection : option string)
| OpDrain (connection : string)
| OpEvict (p : string)
| OpAdvance (env : Env) (now : Z)
| OpAdvanceForRead (env : Env) (now : Z)
| OpAddGuestProp (p : Prop_) (expires : Z).

Definition step (cfg : SessionConfig) (o : Op) (s : Session) : Session :=
  match o with
  | OpInput env i now => (apply_signed_input_at cfg env i now s).2
  | OpPrepare r a now => (prepare_transition_admission cfg r a now s).2
  | OpCommit env t now => (commit_transition_admission cfg env t now s).2
  | OpAbort tid p now => (abort_transition_admission tid p now s).2
  | OpRevoke p c => (revoke_transition_access p c s).2
  | OpDrain c => (drain_connection c s).2
  | OpEvict p => (evict_participant cfg p s).2
  | OpAdvance env now => (advance_to cfg env now s).2
  | OpAdvanceForRead env now => (advance_for_read cfg env now s).2
  | OpAddGuestProp p e => (add_guest_prop p e s).2
  end.

Definition run (cfg : SessionConfig) (ops : list Op) (s : Session) : Session := foldl (fun s o => step cfg o s) s ops.
Definition started (props : list Prop_) (t : Z) : Session := (insert_props props (empty_session t)).2.

Lemma step_inv cfg o s : 0 <= participant_limit cfg -> session_inv cfg ∅ ∅ s -> session_inv cfg ∅ ∅ (step cfg o s).
Proof.
  intros Hl H. destruct o; cbn [step]; apply wp_run.
  - by apply apply_signed_input_inv.
  - by apply prepare_admission_inv.
  - by apply commit_admission_inv.
  - by apply abort_admission_inv.
  - by apply revoke_inv.
  - by apply drain_inv.
  - by apply evict_inv.
  - by apply advance_to_inv.
  - by apply advance_for_read_inv.
  - by apply add_guest_prop_inv.
Qed.

Lemma run_inv cfg ops s : 0 <= participant_limit cfg -> session_inv cfg ∅ ∅ s -> session_inv cfg ∅ ∅ (run cfg ops s).
Proof. intros Hl. revert s. induction ops as [|o ops IH]; intros s H; [done|]. by apply IH, step_inv. Qed.

Lemma started_inv cfg props t : 0 <= participant_limit cfg -> session_inv cfg ∅ ∅ (started props t).
Proof. intros Hl. unfold started. apply wp_run, insert_props_inv. by apply empty_session_inv. Qed.
