(* ===== verification/DomeSessionReplay.v ===== *)
(** * The input ledger along a run

    Which operations touch the ledger, and that an accepted input stays guarded by it
    while time does not go backwards. *)
From S2P Require Import Prelude RustStr DomeTransition DomeLedger DomeSession DomeSessionInv DomeSessionRun.

(** ** Frames *)
Section frames.
Context (cfg : SessionConfig) (env : Env).

(** What a handler does to the ledger: nothing, or the signer leaves. *)
Definition ledger_frame (p : string) (s s' : Session) : Prop :=
  (inputs s' = inputs s /\ (p ∈ participants s -> p <> owner_pubkey (lease cfg) -> p ∈ participants s')) \/
  inputs s' = ledger_retire p (participant_limit cfg) (inputs s).

Lemma ledger_frame_same p s s' : inputs s' = inputs s -> participants s ⊆ participants s' -> ledger_frame p s s'.
Proof. intros Hi Hp. left. split; [done|]. intros H _. by apply Hp. Qed.
Lemma ledger_frame_refl p s : ledger_frame p s s.
Proof. by apply ledger_frame_same. Qed.
Lemma ledger_frame_gone p s : ledger_frame p s (gone cfg p s).
Proof. unfold gone. case_decide as H; [by right|]. left. split; [done|]. intros Hp Ho. by destruct H. Qed.
Lemma ledger_frame_bodies p s s' : bodies_frame s s' -> ledger_frame p s s'.
Proof. intros (? & ? & ? & ? & ? & -> & _). by apply ledger_frame_same. Qed.

Lemma apply_input_ledger i s :
  wp (apply_input cfg env i) (fun _ => ledger_frame (signer i) s) (fun _ => ledger_frame (signer i) s) s.
Proof.
  unfold apply_input, require_participant, require_owner, remove_body, impulse_input, prepare_transition_exit,
    abort_transition_exit, complete_transition_exit, note_participants, require_participant.
  pose proof (ledger_frame_refl (signer i)) as Hr.
  destruct (input i); try (by wp_run; try apply Hr; apply ledger_frame_same).
  - wp_step. eapply wp_mono; [apply ensure_avatar_wp | |by intros ? ? ->]. intros ? s1 [Hf _]. wp_run.
    destruct Hf as (? & ? & ? & ? & ? & -> & _). apply ledger_frame_same; fields; [done|apply union_subseteq_l].
  - wp_step. rewrite wp_evict. wp_run. apply ledger_frame_gone.
  - wp_run; try apply Hr. rewrite wp_evict. wp_run. apply ledger_frame_gone.
  - wp_run; try apply Hr. eapply wp_mono; [apply insert_prop_wp | |by intros ? ? ->].
    intros ? s1 Hf. by apply ledger_frame_bodies.
  - wp_run; try apply Hr. eapply wp_mono; [apply insert_prop_wp | |].
    + intros ? s1 Hf. destruct Hf as (? & ? & ? & ? & ? & -> & _). by apply ledger_frame_same.
    + intros ? ? ->. by apply ledger_frame_same.
Qed.

(** Preflight and handler together. *)
Lemma handled_ledger i now s :
  wp (_ ← preflight_input cfg env i now; apply_input cfg env i)
    (fun _ => ledger_frame (signer i) s) (fun _ => ledger_frame (signer i) s) s.
Proof.
  wp_step. eapply wp_mono; [apply preflight_wp | |].
  - intros ? s1 [(f & -> & _) _]. eapply wp_mono; [apply apply_input_ledger | |]; done.
  - intros ? s1 (f & -> & _). by apply ledger_frame_same.
Qed.
End frames.

(** ** Runs keep an input guarded *)
Section guard.
Context (cfg : SessionConfig) (o : Z) (id : string) (seq sent : Z).

Definition guards (t : Z) (s : Session) : Prop :=
  ledger_wf (inputs s) /\ o <= departures (inputs s) /\
  guarded (inputs s) o (participant_limit cfg) id seq sent t.

Lemma guards_inputs t s s' : inputs s' = inputs s -> guards t s -> guards t s'.
Proof. unfold guards. by intros ->. Qed.
Lemma guards_later t t' s : t <= t' -> guards t s -> guards t' s.
Proof. intros Ht (? & ? & ?). split_and!; [done|done|]. by eapply guarded_time. Qed.
Lemma guards_retire t s s' p : inputs s' = ledger_retire p (participant_limit cfg) (inputs s) ->
  guards t s -> guards t s'.
Proof.
  unfold guards. intros -> (? & ? & ?). split_and!; [by apply ledger_retire_wf| |by apply guarded_retire]. simpl. lia.
Qed.
Lemma guards_gone t p s : guards t s -> guards t (gone cfg p s).
Proof. intros H. destruct (gone_inputs cfg p s); [by eapply guards_inputs | by eapply guards_retire]. Qed.

Lemma guards_frame t p s s' : ledger_frame cfg p s s' -> guards t s -> guards t s'.
Proof. intros [[? _]|?]; [by apply guards_inputs | by eapply guards_retire]. Qed.

(** A later accepted input of any signer. *)
Lemma guards_record t p q snt act s s' :
  (forall m, mark (inputs s) p = Some m -> sequence m <= q) ->
  inputs s' = ledger_record p q snt act (inputs s) -> guards t s -> guards t s'.
Proof.
  unfold guards. intros Hm -> (? & ? & ?). split_and!.
  - by apply ledger_record_wf.
  - by destruct act.
  - apply guarded_record; [by intros <- | done].
Qed.

Lemma frame_mark i s s' m :
  ledger_frame cfg (signer i) s s' ->
  match mark (inputs s) (signer i) with Some m => sequence m | None => 0 end < input_sequence i ->
  mark (inputs s') (signer i) = Some m -> sequence m <= input_sequence i.
Proof.
  intros [[-> _]| ->] Hlt Hm.
  - rewrite Hm in Hlt. lia.
  - apply retire_mark in Hm. lia.
Qed.

Lemma input_guards env i now t s : t <= now -> guards t s ->
  wp (apply_signed_input_at cfg env i now) (fun _ => guards now) (fun _ => guards now) s.
Proof.
  intros Ht H. unfold apply_signed_input_at, verify_signed_dome_session_input.
  wp_run; try (by eapply guards_later). rename H into G.
  assert (G1 : guards now (check_ledger i now s).2).
  { unfold check_ledger. rewrite (surjective_pairing (ledger_check _ _ _ _ _)). destruct G as (? & ? & ?).
    unfold guards. cbn [snd]. fields. split_and!; rewrite ?ledger_check_snd.
    - by apply drop_expired_wf.
    - done.
    - rewrite <- (ledger_check_snd (signer i) (input_sequence i) (sent_at i)). by eapply guarded_check. }
  unfold wp at 1. destruct (check_ledger i now s) as [[[]|e] s1] eqn:Eck; cbn [snd] in G1; [|done].
  assert (Hlt : match mark (inputs s1) (signer i) with Some m => sequence m | None => 0 end < input_sequence i).
  { unfold check_ledger in Eck. destruct (ledger_check _ _ _ _ _) as [[u|] l'] eqn:El; simplify_eq. fields.
    by apply check_accepts in El as (? & ? & ?). }
  do 2 wp_step. eapply wp_mono; [apply handled_ledger | |]; cbv beta; intros e s2 Hf.
  - do 3 wp_step. apply wp_settle. do 2 wp_step.
    assert (Hrec : forall b, guards now (set_inputs (ledger_record (signer i) (input_sequence i) (sent_at i) b)
      (if bool_decide (signer i ∈ participants s2) then s2 else set_budgets (delete (signer i)) s2))).
    { intros b. eapply guards_record; [| |by eapply guards_frame].
      - intros m Hm. by eapply frame_mark.
      - by destruct (bool_decide (signer i ∈ participants s2)). }
    unfold clamp_bodies_to_dome. destruct (bool_decide (signer i ∈ participants s2)); wp_run; (eapply guards_inputs; [|apply Hrec]; done).
  - do 3 wp_step. apply wp_settle. eapply guards_frame in G1; [|exact Hf].
    unfold record_rejection. destruct e, (bool_decide (signer i ∈ participants s2)); wp_run; by eapply guards_inputs.
Qed.

(** The other operations. *)
Lemma advance_guards env now t s : guards t s ->
  wp (advance_to cfg env now) (fun _ => guards t) (fun _ => guards t) s.
Proof.
  intros H.
  assert (He : forall ps s, guards t s -> wp (evict_each cfg ps) (fun _ => guards t) (fun _ => guards t) s).
  { intros ps. induction ps as [|p ps IH]; intros s1 H1; cbn [evict_each]; [by wp_run|].
    wp_step. rewrite wp_evict. by apply IH, guards_gone. }
  assert (Hs : forall n s, guards t s -> wp (simulate env n) (fun _ => guards t) (fun _ => guards t) s).
  { intros n. induction n as [|n IH]; intros s1 H1; cbn [simulate]; [by wp_run|].
    unfold clamp_bodies_to_dome. wp_run. apply IH. by eapply guards_inputs. }
  unfold advance_to, expire_guest_props, expire_stale_participants. wp_run; [|done].
  eapply wp_mono; [apply He; by eapply guards_inputs | |done]. intros ? s1 H1. wp_run; [by eapply guards_inputs|].
  eapply wp_mono; [by apply Hs | |done]. intros ? s2 H2. wp_run. by eapply guards_inputs.
Qed.

Lemma commit_inputs env tk now s :
  wp (commit_transition_admission cfg env tk now) (fun _ s' => inputs s' = inputs s) (fun _ s' => inputs s' = inputs s) s.
Proof.
  unfold commit_transition_admission, expire_transition_reservations, set_avatar_transform, note_participants,
    clamp_bodies_to_dome.
  wp_run; try done. eapply wp_mono; [apply ensure_avatar_wp | |by intros ? ? ->].
  intros ? s2 [(? & ? & ? & ? & ? & -> & _) _]. by wp_run.
Qed.

Lemma prepare_inputs r a now s :
  wp (prepare_transition_admission cfg r a now) (fun _ s' => inputs s' = inputs s) (fun _ s' => inputs s' = inputs s) s.
Proof.
  unfold prepare_transition_admission, expire_transition_reservations, check_body_capacity, check_limit. by wp_run.
Qed.

Definition op_time (x : Op) : option Z := match x with OpInput _ _ now => Some now | _ => None end.

Lemma step_guards x t s : match op_time x with Some now => t <= now | None => True end -> guards t s ->
  guards (default t (op_time x)) (step cfg x s).
Proof.
  intros Ht H. destruct x; cbn [step op_time default from_option] in *; try apply wp_run.
  - by eapply input_guards.
  - eapply wp_mono; [apply prepare_inputs | |]; intros ? s' Hs'; (eapply guards_inputs; [exact Hs'|done]).
  - eapply wp_mono; [apply commit_inputs | |]; intros ? s' Hs'; (eapply guards_inputs; [exact Hs'|done]).
  - unfold abort_transition_admission, expire_transition_reservations. wp_run; by eapply guards_inputs.
  - unfold revoke_transition_access. wp_run; by eapply guards_inputs.
  - unfold drain_connection. wp_run; by eapply guards_inputs.
  - rewrite wp_evict. by apply guards_gone.
  - by apply advance_guards.
  - unfold advance_for_read. wp_run. by apply advance_guards.
  - unfold add_guest_prop. wp_run; try done. eapply wp_mono; [apply insert_prop_wp | |by intros ? ? ->].
    intros ? s' (? & ? & ? & ? & ? & -> & _). by eapply guards_inputs.
Qed.

(** The clock of inputs does not go backwards from [t]; [last_time] is where it ends. *)
Fixpoint in_order (t : Z) (ops : list Op) : Prop :=
  match ops with
  | [] => True
  | x :: ops => match op_time x with Some now => t <= now | None => True end /\ in_order (default t (op_time x)) ops
  end.
Definition last_time (t : Z) (ops : list Op) : Z := foldl (fun t x => default t (op_time x)) t ops.

Lemma run_guards ops t s : in_order t ops -> guards t s -> guards (last_time t ops) (run cfg ops s).
Proof.
  revert t s. induction ops as [|x ops IH]; intros t s Ho H; [done|]. destruct Ho as [Ht Ho].
  apply IH; [done|]. by apply step_guards.
Qed.

(** A guarded input is refused before anything but the ledger's expired rows changes. *)
Lemma guards_reject env i t now s :
  signer i = id -> input_sequence i = seq -> sent_at i = sent -> t <= now ->
  departures (inputs s) - o < participant_limit cfg -> guards t s ->
  exists e, apply_signed_input_at cfg env i now s = (Err e, s) \/
    apply_signed_input_at cfg env i now s = (Err e, set_inputs (drop_expired now) s).
Proof.
  unfold guards. intros <- <- <- Ht Hd (_ & _ & Hg). eapply (guarded_time _ _ _ _ _ _ _ now) in Hg; [|done].
  destruct (guarded_rejects _ _ _ _ _ _ _ Hg Hd) as [e He].
  pose proof (ledger_check_snd (signer i) (input_sequence i) (sent_at i) now (inputs s)) as Hs.
  unfold apply_signed_input_at, verify_signed_dome_session_input, check_ledger, mbind, se_bind.
  destruct (validate_dome_session_input i); cbn [lift mret se_ret bail fail]; [|by eexists; left].
  match goal with |- context [require ?b _] => destruct b end; cbn [require mret se_ret fail]; [|by eexists; left].
  destruct (verify_envelope_content env i) as [[]|]; cbn [lift mret se_ret bail fail]; [|by eexists; left].
  rewrite (surjective_pairing (ledger_check (signer i) _ _ now (inputs s))), He, Hs. by eexists; right.
Qed.
End guard.

(** ** An accepted input is guarded from then on *)
Lemma accepted_guards cfg env i now s s' :
  ledger_wf (inputs s) ->
  apply_signed_input_at cfg env i now s = (Ok tt, s') ->
  signer i ∈ participants s \/ signer i ∈ participants s' \/ signer i = owner_pubkey (lease cfg) ->
  guards cfg (departures (inputs s)) (signer i) (input_sequence i) (sent_at i) now s'.
Proof.
  intros Hwf Hrun Hsig.
  assert (Hpost : wp (apply_signed_input_at cfg env i now) (fun _ s' =>
      signer i ∈ participants s \/ signer i ∈ participants s' \/ signer i = owner_pubkey (lease cfg) ->
      guards cfg (departures (inputs s)) (signer i) (input_sequence i) (sent_at i) now s') (fun _ _ => True) s);
    [|unfold wp in Hpost; rewrite Hrun in Hpost; by apply Hpost]. clear Hrun Hsig s'.
  unfold apply_signed_input_at, verify_signed_dome_session_input. wp_run; try done.
  unfold wp at 1. destruct (check_ledger i now s) as [[[]|e] s1] eqn:Eck; [|done].
  assert (Hs1 : s1 = set_inputs (fun _ => drop_expired now (inputs s)) s).
  { unfold check_ledger in Eck. destruct (ledger_check _ _ _ _ _) as [[u|] l'] eqn:El; simplify_eq.
    by apply check_accepts in El as (-> & _ & _). }
  clear Eck.
  assert (Hwf1 : ledger_wf (inputs s1)) by (subst s1; by apply drop_expired_wf).
  do 2 wp_step. eapply wp_mono; [apply handled_ledger | |]; cbv beta; intros e s2 Hf.
  2: { do 3 wp_step. apply wp_settle. by wp_run. }
  do 3 wp_step. apply wp_settle. do 2 wp_step.
  set (s3 := if bool_decide (signer i ∈ participants s2) then s2 else _) in *.
  assert (E3 : inputs s3 = inputs s2 /\ participants s3 = participants s2)
    by (unfold s3; by destruct (bool_decide (signer i ∈ participants s2))).
  destruct E3 as [E3 P3].
  assert (Hdep : departures (inputs s) = departures (inputs s1)) by by subst s1.
  assert (Hps : participants s1 = participants s) by by subst s1.
  set (act := bool_decide (signer i ∈ participants s2) || bool_decide (signer i = owner_pubkey (lease cfg))).
  assert (Hrec : signer i ∈ participants s \/ signer i ∈ participants s2 \/ signer i = owner_pubkey (lease cfg) ->
    guards cfg (departures (inputs s)) (signer i) (input_sequence i) (sent_at i) now
      (set_inputs (ledger_record (signer i) (input_sequence i) (sent_at i) act) s3)).
  { intros Hsig. unfold guards. fields. rewrite E3, Hdep. split_and!.
    - apply ledger_record_wf. destruct Hf as [[-> _]| ->]; [done|by apply ledger_retire_wf].
    - destruct Hf as [[-> _]| ->]; destruct act; simpl; lia.
    - destruct act eqn:Ha; [apply record_guards_active|]. unfold act in Ha.
      apply orb_false_iff in Ha as [Hn%bool_decide_eq_false Ho%bool_decide_eq_false].
      destruct Hsig as [Hsig|[?|?]]; [|done|done]. rewrite <- Hps in Hsig.
      destruct Hf as [[_ Hk]| ->]; [by destruct Hn; apply Hk|]. by apply record_guards_departed. }
  unfold clamp_bodies_to_dome. fold s3.
  destruct (bool_decide (signer i ∈ participants s2)) eqn:Hb; wp_run; fields; rewrite P3; intros Hsig; by apply Hrec.
Qed.
