(* ===== verification/DomeSessionProps.v ===== *)
(** * What a hosted Dome session guarantees

    The theorems about a session: the invariant of every run, replay protection,
    admission tickets, leaving and timing out, spawn positions and the handover between
    neighbouring Domes, with two behaviours that fall short of what the code means. *)
From S2P Require Import Prelude RustStr DomeTransition DomeLedger DomeSession DomeSessionInv DomeSessionRun DomeSessionReplay.

(** ** A small session *)
Module Demo.
Definition budget1 : Budget := {|
  max_persistent_props := 8; max_colliders := 32; max_rigid_bodies := 32; max_guest_props := 4;
  max_guest_prop_bytes := 1000; max_prop_spawns_per_minute := 10; max_interactions_per_second := 10;
  max_input_bytes_per_second := 10000; max_impulse_centimeters := 5000; max_simulated_rigid_bodies := 32 |}.
Definition cfg1 (limit : Z) : SessionConfig := {|
  lease := {| lease_instance_id := "dome-b"; lease_instance_generation := 1; epoch := 7; owner_pubkey := "owner";
              lease_context := CTopic "plaza" |};
  config_session_id := "session-1"; budget := budget1; verified_assets := ∅; participant_limit := limit;
  default_spawn := (0, 0, 0) |}.
Definition env1 : Env := {|
  json_size := fun _ => 200; verify_envelope_content := fun _ => Ok tt;
  validate_metaverse_asset_metadata := fun _ => Ok tt;
  body_bounds := fun _ => Some []; back_inside := fun _ => false |}.
Definition say (p : string) (n t : Z) (k : InputKind) : SessionInput := {|
  input_id := "in"; instance_id := "dome-b"; instance_generation := 1; lease_epoch := 7; session_id := "session-1";
  signer := p; input_sequence := n; sent_at := t; input := k |}.
Definition visit (p tid : string) : TransitionRequest := {|
  transition_id := tid; connection_id := "c1"; topology_digest := "d"; spatial_context := CTopic "plaza";
  source_instance_id := "dome-a"; source_instance_generation := 1; target_instance_id := "dome-b";
  target_instance_generation := 1; participant_pubkey := p; direction := North; requested_at := 1 |}.
Definition pass (p tid : string) (now : Z) : TransitionTicket := {|
  request := visit p tid; target_lease_epoch := 7; target_session_id := "session-1";
  ticket_expires_at := now + 15000 |}.
Definition crate (id : string) : Prop_ := {|
  prop_id := id; asset_ref := None; primitive_fallback := 0; position := (0, 0, 0); rotation := (0, 0, 0); scale := (100, 100, 100);
  visual_only := false; interactions := []; collider := None |}.
End Demo.
Import Demo.

(** ** Invariant *)

(** C2: along every sequence of operations on a started session (signed inputs, admission
    requests, commits, aborts, revocations, drains, evictions, time steps, guest props, each with any
    answer of its environment), the bookkeeping stays consistent: prepared exits, entries, seats,
    budgets, grabs and committed tickets only name current participants, every participant has a
    last-seen time, tickets are filed under their id and were issued by this session, nobody holds two
    reservations or two committed tickets, reservations stay within the participant limit, participants
    and reservations together within twice the limit, and the input ledger remembers only participants,
    the owner and at most [participant_limit] signers that left. *)
Theorem session_invariant_run cfg props t ops :
  0 <= participant_limit cfg -> session_inv cfg ∅ ∅ (run cfg ops (started props t)).
Proof. intros Hl. apply run_inv; [done|]. by apply started_inv. Qed.

Lemma session_invariant_run_witness :
  let ops := [OpInput env1 (say "alice" 1 100 (IJoin None)) 100; OpPrepare (visit "bob" "t1") AccessAllowed 200;
              OpCommit env1 (pass "bob" "t1" 200) 300; OpInput env1 (say "alice" 2 400 ILeave) 400] in
  session_inv (cfg1 4) ∅ ∅ (run (cfg1 4) ops (started [crate "box"] 50)) /\
  participants (run (cfg1 4) ops (started [crate "box"] 50)) = {[ "bob" ]}.
Proof.
  intros ops. split.
  - apply (session_invariant_run (cfg1 4) [crate "box"] 50 ops). vm_compute. discriminate.
  - vm_compute. reflexivity.
Defined.

(** ** Replay *)

(** C20: a signed input that a session accepted from a participant (before or after the input) or
    from the owner is never accepted again.  Whatever operations follow, as long as the clock of the
    inputs does not go backwards and fewer than [participant_limit] participants have left since, the
    same input is refused, and the refusal changes nothing but dropping expired ledger rows. *)
Theorem signed_input_not_replayed cfg props t0 before env i now s' ops env' later :
  0 <= participant_limit cfg ->
  apply_signed_input_at cfg env i now (run cfg before (started props t0)) = (Ok tt, s') ->
  signer i ∈ participants (run cfg before (started props t0)) \/ signer i ∈ participants s' \/
    signer i = owner_pubkey (lease cfg) ->
  in_order now ops -> last_time now ops <= later ->
  departures (inputs (run cfg ops s')) - departures (inputs (run cfg before (started props t0))) < participant_limit cfg ->
  exists e, apply_signed_input_at cfg env' i later (run cfg ops s') = (Err e, run cfg ops s') \/
    apply_signed_input_at cfg env' i later (run cfg ops s') = (Err e, set_inputs (drop_expired later) (run cfg ops s')).
Proof.
  intros Hl Hrun Hsig Ho Hlast Hdep.
  assert (Hwf : ledger_wf (inputs (run cfg before (started props t0)))).
  { eapply si_ledger, run_inv, started_inv; exact Hl. }
  eapply guards_reject; [reflexivity|reflexivity|reflexivity|exact Hlast|exact Hdep|].
  eapply run_guards; [exact Ho|]. eapply accepted_guards; eauto.
Qed.

(** Alice joins, leaves and the host sees two more visitors; her Leave cannot be replayed. *)
Lemma signed_input_not_replayed_witness :
  let leave := say "alice" 2 200 ILeave in
  let before := [OpInput env1 (say "alice" 1 100 (IJoin None)) 100] in
  let ops := [OpInput env1 (say "bob" 1 300 (IJoin None)) 300; OpAdvance env1 400;
              OpInput env1 (say "bob" 2 500 ILeave) 500] in
  let s' := (apply_signed_input_at (cfg1 4) env1 leave 200 (run (cfg1 4) before (started [] 50))).2 in
  exists e, apply_signed_input_at (cfg1 4) env1 leave 600 (run (cfg1 4) ops s') = (Err e, run (cfg1 4) ops s') \/
    apply_signed_input_at (cfg1 4) env1 leave 600 (run (cfg1 4) ops s')
      = (Err e, set_inputs (drop_expired 600) (run (cfg1 4) ops s')).
Proof.
  intros leave before ops s'.
  apply (signed_input_not_replayed (cfg1 4) [] 50 before env1 leave 200 s' ops env1 600).
  - vm_compute. discriminate.
  - vm_compute. reflexivity.
  - left. vm_compute. reflexivity.
  - vm_compute. repeat split; discriminate.
  - vm_compute. discriminate.
  - vm_compute. reflexivity.
Defined.

(** ** Admission *)

(** What a commit does when it succeeds. *)
Lemma commit_ok_wp cfg env t now s :
  session_inv cfg ∅ ∅ s ->
  wp (commit_transition_admission cfg env t now) (fun _ s' =>
    (committed_transitions s !! transition_id (request t) = Some t \/
     (transition_reservations s !! transition_id (request t) = Some t /\ now < ticket_expires_at t)) /\
    participant_pubkey (request t) ∈ participants s' /\
    committed_transitions s' !! transition_id (request t) = Some t /\
    transition_reservations s' !! transition_id (request t) = None /\
    target_lease_epoch t = epoch (lease cfg) /\ target_session_id t = config_session_id cfg)
    (fun _ s' => participants s' = participants s) s.
Proof.
  intros H. unfold commit_transition_admission, expire_transition_reservations, set_avatar_transform, note_participants,
    clamp_bodies_to_dome.
  wp_step. wp_step. wp_step. wp_step. wp_step.
  - wp_run; [|done]. fields. apply andb_prop in H0 as [[H0 He]%andb_prop Hs].
    apply bool_decide_eq_true in H0, Hs. subst t0. apply Z.eqb_eq in He.
    destruct (si_committed _ _ _ _ H _ _ Heqo) as [_ ?]. split_and!; auto.
    destruct (retain_tickets _ _ !! _) eqn:Er; [|done]. apply retain_lookup in Er as [Er _].
    exfalso. by eapply (proj1 (map_disjoint_spec _ _) (si_disjoint _ _ _ _ H)).
  - wp_run; try done. eapply wp_mono; [apply ensure_avatar_wp | |by intros ? ? ->].
    intros ? s2 [Hf Hb]. wp_run; [|by rewrite bool_decide_eq_false in *].
    apply bool_decide_eq_true in H0. fields. apply retain_lookup in H0 as [H0 Hx%Z.ltb_lt].
    destruct (si_reserved _ _ _ _ H _ _ H0) as (_ & ? & ?).
    split_and!; auto; [|by rewrite lookup_insert_eq|apply lookup_delete_eq].
    by apply elem_of_union_r, elem_of_singleton.
Qed.

(** committing a ticket succeeds only for the exact ticket this session reserved and that has not
    expired, or for one it already committed; afterwards its visitor is a participant, the reservation
    is used up, and committing the same ticket again, with any clock, succeeds without changing the
    participants.  A refused commit adds no participant. *)
Theorem commit_needs_reservation cfg env t now s :
  session_inv cfg ∅ ∅ s ->
  match commit_transition_admission cfg env t now s with
  | (Ok _, s') =>
      (committed_transitions s !! transition_id (request t) = Some t \/
       (transition_reservations s !! transition_id (request t) = Some t /\ now < ticket_expires_at t)) /\
      participant_pubkey (request t) ∈ participants s' /\
      transition_reservations s' !! transition_id (request t) = None /\
      (forall env' now', exists s'', commit_transition_admission cfg env' t now' s' = (Ok tt, s'') /\
         participants s'' = participants s')
  | (Err _, s') => participants s' = participants s
  end.
Proof.
  intros H. pose proof (commit_ok_wp cfg env t now s H) as Hw. unfold wp in Hw.
  destruct (commit_transition_admission cfg env t now s) as [[u|e] s']; [|done].
  destruct Hw as (? & ? & Hc & ? & He & Hs). split_and!; [done|done|done|]. intros env' now'.
  unfold commit_transition_admission, expire_transition_reservations, mbind, se_bind, modify, get. cbv beta iota. fields.
  rewrite Hc, He, Hs, Z.eqb_refl, !bool_decide_eq_true_2 by done. by eexists.
Qed.

Lemma commit_needs_reservation_witness :
  let s := run (cfg1 4) [OpPrepare (visit "bob" "t1") AccessAllowed 200] (started [] 50) in
  exists s', commit_transition_admission (cfg1 4) env1 (pass "bob" "t1" 200) 300 s = (Ok tt, s') /\
    "bob" ∈ participants s'.
Proof.
  intros s.
  assert (Hc : session_inv (cfg1 4) ∅ ∅ s) by (apply run_inv, started_inv; vm_compute; discriminate).
  pose proof (commit_needs_reservation (cfg1 4) env1 (pass "bob" "t1" 200) 300 s Hc) as H.
  destruct (commit_transition_admission (cfg1 4) env1 (pass "bob" "t1" 200) 300 s) as [[[]|e] s'] eqn:E.
  - exists s'. split; [reflexivity|]. exact (proj1 (proj2 H)).
  - exfalso. vm_compute in E. discriminate E.
Defined.

(** ** Leaving and timing out *)

(** evicting a participant (also what Leave and a completed exit do) removes every trace of it:
    membership, avatar, grabs, seat, entry, prepared exit, budget, last-seen time, reservations and
    committed tickets; and it leaves the rows of everybody else as they were. *)
Theorem evict_is_clean cfg p s :
  let s' := (evict_participant cfg p s).2 in
  ((p ∉ participants s') /\ prepared_exits s' !! p = None /\ transition_entries s' !! p = None /\
   seated_on s' !! p = None /\ participant_last_seen_at s' !! p = None /\ player_budgets s' !! p = None /\
   bodies_by_id s' !! avatar_id p = None /\
   (forall id b, bodies_by_id s' !! id = Some b -> grabbed_by b <> Some p) /\
   (forall k t, transition_reservations s' !! k = Some t \/ committed_transitions s' !! k = Some t ->
      participant_pubkey (request t) <> p)) /\
  (forall q, q <> p ->
     (q ∈ participants s' <-> q ∈ participants s) /\ prepared_exits s' !! q = prepared_exits s !! q /\
     transition_entries s' !! q = transition_entries s !! q /\ seated_on s' !! q = seated_on s !! q /\
     participant_last_seen_at s' !! q = participant_last_seen_at s !! q /\
     player_budgets s' !! q = player_budgets s !! q /\
     (forall id, (kind <$> bodies_by_id s' !! avatar_id q) = (kind <$> bodies_by_id s !! avatar_id q) /\
        (default None (grabbed_by <$> bodies_by_id s' !! id) = Some q <->
         id <> avatar_id p /\ default None (grabbed_by <$> bodies_by_id s !! id) = Some q)) /\
     (forall k t, participant_pubkey (request t) = q ->
        (transition_reservations s' !! k = Some t <-> transition_reservations s !! k = Some t) /\
        (committed_transitions s' !! k = Some t <-> committed_transitions s !! k = Some t))).
Proof.
  intros s'. unfold s'. clear s'. rewrite evict_participant_gone. cbn [snd]. set (s' := gone cfg p s).
  assert (Hb : bodies_by_id s' = release_grabs p (delete (avatar_id p) (bodies_by_id s))) by (unfold s', gone; by case_decide).
  assert (Hres : transition_reservations s' = retain_tickets (ticket_kept p None) (transition_reservations s))
    by (unfold s', gone; by case_decide).
  assert (Hcom : committed_transitions s' = retain_tickets (ticket_kept p None) (committed_transitions s))
    by (unfold s', gone; by case_decide).
  assert (Hk : forall t, ticket_kept p None t = true <-> participant_pubkey (request t) <> p).
  { intros t. unfold ticket_kept. by rewrite andb_true_r, negb_true_iff, bool_decide_eq_false. }
  assert (Hav : forall q, q <> p -> avatar_id q <> avatar_id p) by (intros q ?; unfold avatar_id; naive_solver).
  split.
  - split_and!; try (unfold s', gone; case_decide; fields; by rewrite lookup_delete_eq).
    + unfold s'. rewrite gone_participants. clear. set_solver.
    + rewrite Hb. unfold release_grabs. by rewrite lookup_fmap, lookup_delete_eq.
    + rewrite Hb. unfold release_grabs. intros id b. rewrite lookup_fmap. intros (b0 & _ & ->)%fmap_Some.
      by case_decide.
    + rewrite Hres, Hcom. intros k t [[_ Ht]%retain_lookup|[_ Ht]%retain_lookup]; by apply Hk.
  - intros q Hq. split_and!; try (unfold s', gone; case_decide; fields; by rewrite lookup_delete_ne).
    + unfold s'. rewrite gone_participants. clear - Hq. set_solver.
    + intros id. rewrite Hb. unfold release_grabs. rewrite !lookup_fmap. split.
      * rewrite lookup_delete_ne by (intros E; by apply (Hav q)). destruct (bodies_by_id s !! avatar_id q); [|done].
        simpl. by case_decide.
      * destruct (decide (id = avatar_id p)) as [->|Hid]; [rewrite lookup_delete_eq; naive_solver|].
        rewrite lookup_delete_ne by done. destruct (bodies_by_id s !! id) as [b|]; simpl; [|naive_solver].
        case_decide; simpl; naive_solver congruence.
    + intros k t Ht. rewrite Hres, Hcom, !retain_lookup, Hk. naive_solver.
Qed.

Lemma evict_each_spec cfg ps s :
  wp (evict_each cfg ps) (fun _ s' => participants s' = participants s ∖ list_to_set ps /\
    last_simulated_at s' = last_simulated_at s) (fun _ _ => False) s.
Proof.
  revert s. induction ps as [|p ps IH]; intros s; cbn [evict_each].
  - wp_run. split; [|done]. simpl. by rewrite difference_empty_L.
  - wp_step. rewrite wp_evict. eapply wp_mono; [apply IH | |done]. intros ? s' [Hp Hc]. rewrite Hp, Hc, gone_participants.
    split; [|unfold gone; by case_decide]. simpl. clear. set_solver.
Qed.

Lemma simulate_spec env n s :
  wp (simulate env n) (fun _ s' => participants s' = participants s) (fun _ _ => False) s.
Proof.
  revert s. induction n as [|n IH]; intros s; cbn [simulate]; [by wp_run|].
  unfold clamp_bodies_to_dome. wp_run. eapply wp_mono; [apply IH | |done]. by intros ? s' ->.
Qed.

Lemma elem_of_stale p now s :
  p ∈ stale_participants now s <->
  exists t, participant_last_seen_at s !! p = Some t /\ DOME_PARTICIPANT_TIMEOUT_MILLIS < sat_i64 (now - t).
Proof.
  unfold stale_participants. rewrite list_elem_of_fmap. split.
  - intros ([q t] & -> & Hf). apply list_elem_of_filter in Hf as [Ht%Z.ltb_lt Hin].
    rewrite elem_of_sort_by in Hin. exists t. split; [by apply elem_of_map_to_list|done].
  - intros (t & Hin & Ht). exists (p, t). split; [done|]. apply list_elem_of_filter. split; [by apply Z.ltb_lt|].
    rewrite elem_of_sort_by. by apply elem_of_map_to_list.
Qed.

(** advancing the clock forwards always succeeds and leaves exactly the participants that were
    seen within the participant timeout: whoever has been silent longer is evicted, nobody else is. *)
Theorem advance_expires_silent cfg env now s :
  session_inv cfg ∅ ∅ s -> last_simulated_at s <= now ->
  exists s', advance_to cfg env now s = (Ok tt, s') /\ last_simulated_at s' = now /\
    forall p, p ∈ participants s' <->
      exists t, participant_last_seen_at s !! p = Some t /\ sat_i64 (now - t) <= DOME_PARTICIPANT_TIMEOUT_MILLIS.
Proof.
  intros H Hnow.
  enough (Hw : wp (advance_to cfg env now) (fun _ s' => last_simulated_at s' = now /\
      participants s' = participants s ∖ list_to_set (stale_participants now s)) (fun _ _ => False) s).
  { unfold wp in Hw. destruct (advance_to cfg env now s) as [[[]|e] s']; [|done]. destruct Hw as [Hc Hp].
    exists s'. split_and!; [done|done|]. intros p. rewrite Hp, elem_of_difference, elem_of_list_to_set, elem_of_stale.
    split.
    - intros [Hin Hn]. pose proof (si_all_seen _ _ _ _ H) as Hs. rewrite union_empty_r_L in Hs.
      apply Hs, elem_of_dom in Hin as [t Ht]. exists t. split; [done|]. destruct (Z.le_gt_cases (sat_i64 (now - t))
        DOME_PARTICIPANT_TIMEOUT_MILLIS); [done|]. destruct Hn. eauto.
    - intros (t & Ht & Hle). split; [apply (si_seen _ _ _ _ H), elem_of_dom; eauto|].
      intros (t' & Ht' & Hgt). simplify_eq. lia. }
  unfold advance_to, expire_guest_props, expire_stale_participants. wp_run; [|by rewrite Z.leb_gt in *; lia].
  eapply wp_mono; [apply evict_each_spec | |done]. intros ? s1 [H1 H1c]. fields. wp_run; [by fields|].
  eapply wp_mono; [apply simulate_spec | |done]. intros ? s2 H2. wp_run. fields. by rewrite H2, H1.
Qed.

Lemma advance_expires_silent_witness :
  let s := run (cfg1 4) [OpInput env1 (say "alice" 1 100 (IJoin None)) 100;
                         OpInput env1 (say "bob" 1 20000 (IJoin None)) 20000] (started [] 50) in
  exists s', advance_to (cfg1 4) env1 40000 s = (Ok tt, s') /\ "bob" ∈ participants s' /\ ~ "alice" ∈ participants s'.
Proof.
  intros s.
  destruct (advance_expires_silent (cfg1 4) env1 40000 s) as (s' & Hs & _ & Hp).
  - apply run_inv, started_inv; vm_compute; discriminate.
  - vm_compute. discriminate.
  - exists s'. split; [exact Hs|]. split.
    + apply Hp. exists 20000. split; [vm_compute; reflexivity | vm_compute; discriminate].
    + intros (t & Ht & Hle)%Hp. vm_compute in Ht. injection Ht as <-. vm_compute in Hle. apply Hle. reflexivity.
Defined.

(** ** Two shortfalls *)

(** the participant limit is not a limit on participants.  A reservation holds a slot, but Join
    only counts the participants and a commit does not count again: in a session for one participant,
    a visitor reserves, somebody joins and the visitor's ticket is committed, and two participate. *)
Theorem join_ignores_reservations :
  exists ops, participant_limit (cfg1 1) = 1 /\
    participants (run (cfg1 1) ops (started [] 50)) = {[ "alice"; "bob" ]} /\
    Z.of_nat (size (participants (run (cfg1 1) ops (started [] 50)))) = 2.
Proof.
  exists [OpPrepare (visit "bob" "t1") AccessAllowed 100; OpInput env1 (say "alice" 1 200 (IJoin None)) 200;
          OpCommit env1 (pass "bob" "t1" 100) 300].
  split_and!; vm_compute; reflexivity.
Qed.

(** a guest prop may take the body id of somebody's avatar.  Alice spawns a guest prop named
    [avatar:bob]; when bob joins, that prop counts as his avatar, and once it expires bob is still a
    participant but has no avatar and cannot move. *)
Theorem guest_prop_takes_avatar_id :
  let joined := [OpInput env1 (say "alice" 1 100 (IJoin None)) 100;
                 OpInput env1 (say "alice" 2 200 (ISpawnGuestProp (crate "avatar:bob") 1000)) 200;
                 OpInput env1 (say "bob" 1 300 (IJoin None)) 300] in
  let s1 := run (cfg1 4) joined (started [] 50) in
  let s2 := run (cfg1 4) [OpAdvance env1 1000] s1 in
  kind <$> bodies_by_id s1 !! avatar_id "bob" = Some GuestProp /\
  "bob" ∈ participants s2 /\ bodies_by_id s2 !! avatar_id "bob" = None /\
  (apply_signed_input_at (cfg1 4) env1 (say "bob" 2 1100 (IMove (0, 0, 0) (0, 0, 0) "walk")) 1100 s2).1
    = Err (Message "participant avatar body is missing").
Proof. intros joined s1 s2. split_and!; vm_compute; reflexivity. Qed.

(** ** Spawn positions *)
Lemma square_between lo hi x : lo <= x <= hi -> x * x <= lo * lo \/ x * x <= hi * hi.
Proof. intros H. destruct (Z.le_gt_cases 0 x); [right | left]; nia. Qed.

(** Corners inside the hemisphere put the whole box inside. *)
Lemma inside_dome_box b x y z : spawn_bounds_inside_dome b = true ->
  vx b.1 <= x <= vx b.2 -> vy b.1 <= y <= vy b.2 -> vz b.1 <= z <= vz b.2 ->
  0 <= y /\ x * x + y * y + z * z <= INNER_RADIUS_CM * INNER_RADIUS_CM.
Proof.
  unfold spawn_bounds_inside_dome. intros [Hy Hin]%andb_prop Hx Hyy Hz. cbn [forallb] in Hin.
  apply negb_true_iff, Z.ltb_ge in Hy.
  repeat match goal with H : (_ && _) = true |- _ => apply andb_prop in H as [? ?] end.
  repeat match goal with H : negb (_ <? _) = true |- _ => apply negb_true_iff, Z.ltb_ge in H end.
  split; [lia|]. assert (y * y <= vy b.2 * vy b.2) by nia.
  destruct (square_between _ _ _ Hx), (square_between _ _ _ Hz); lia.
Qed.

Lemma spawn_overlap_false env bodies b : spawn_bounds_overlap_body env bodies b = false ->
  forall id body, bodies !! id = Some body ->
    exists boxes, body_bounds env id = Some boxes /\ forall box, box ∈ boxes -> aabb_overlaps b box = false.
Proof.
  intros H id body Hb.
  assert (Hno : match body_bounds env id with None => true | Some boxes => existsb (aabb_overlaps b) boxes end = false).
  { apply not_true_is_false. intros Ht. enough (spawn_bounds_overlap_body env bodies b = true) by congruence.
    apply existsb_elem. exists (id, body). split; [by apply elem_of_map_to_list | done]. }
  destruct (body_bounds env id) as [boxes|]; [|done]. exists boxes. split; [done|]. intros box Hbox.
  apply not_true_is_false. intros Ho. enough (existsb (aabb_overlaps b) boxes = true) by congruence.
  apply existsb_elem. eauto.
Qed.

(** an avatar is placed safely: the first free one of the 25 candidate positions.  Every point of
    its collider box, margin included, lies inside the hemisphere of the Dome and above its floor, and
    the box overlaps no collider of a body in the session (a body that physics lost blocks every
    position); when none is found, each of the 25 candidates leaves the Dome or hits a body. *)
Theorem spawn_is_safe cfg env bodies c :
  let bounds v := collider_bounds_cm c v SPAWN_SAFETY_MARGIN_CM in
  match safe_avatar_spawn cfg env bodies c with
  | Some v =>
      (forall x y z, vx (bounds v).1 <= x <= vx (bounds v).2 -> vy (bounds v).1 <= y <= vy (bounds v).2 ->
         vz (bounds v).1 <= z <= vz (bounds v).2 ->
         0 <= y /\ x * x + y * y + z * z <= INNER_RADIUS_CM * INNER_RADIUS_CM) /\
      (forall id b, bodies !! id = Some b ->
         exists boxes, body_bounds env id = Some boxes /\
           forall box, box ∈ boxes -> aabb_overlaps (bounds v) box = false)
  | None =>
      forall o, o ∈ SPAWN_OFFSETS ->
        spawn_bounds_inside_dome (bounds (spawn_candidate cfg o)) = false \/
        spawn_bounds_overlap_body env bodies (bounds (spawn_candidate cfg o)) = true
  end.
Proof.
  intros bounds. unfold safe_avatar_spawn. match goal with |- context [find ?f ?l] => pose proof (find_spec f l) as Hf;
    destruct (find f l) as [v|] end.
  - destruct Hf as (_ & [Hin Hov]%andb_prop). fold (bounds v) in *. split.
    + intros x y z. by apply inside_dome_box.
    + by apply spawn_overlap_false, negb_true_iff.
  - intros o Ho. specialize (Hf (spawn_candidate cfg o) ltac:(apply list_elem_of_fmap; eauto)). cbv beta in Hf.
    apply andb_false_iff in Hf as [?|?%negb_false_iff]; auto.
Qed.

(** ** Handover between neighbouring Domes *)

(** walking through an opening hands the avatar over to the Dome behind it.  In the coordinates of
    that Dome the avatar stands at the same place of the component; the step is a crossing of the
    opening exactly when the reverse step is a crossing of the opposite opening seen from the other
    Dome; the two progress values of a position add up to the whole zone (one millionth may be lost
    to rounding); and after a crossing, crossing back takes at least two hysteresis widths. *)
Theorem crossing_hands_over source d prev cur :
  let target := component_position_cm source (direction_offset_cm d) in
  let there p := transform_avatar_between_domes_cm p source target in
  component_position_cm target (there cur) = component_position_cm source cur /\
  crossed_dome_transition_center prev cur d
    = crossed_dome_transition_center (there cur) (there prev) (opposite_dome_direction d) /\
  999999 <= transition_progress_millionths cur d + transition_progress_millionths (there cur) (opposite_dome_direction d)
    <= 1000000 /\
  (crossed_dome_transition_center prev cur d = true ->
   transition_progress_millionths prev d < 500000 < transition_progress_millionths cur d /\
   forall next, crossed_dome_transition_center (there cur) (there next) (opposite_dome_direction d) = true ->
     transition_axis_cm next d + 2 * DOME_TRANSITION_CROSSING_HYSTERESIS_CM <= transition_axis_cm cur d).
Proof.
  intros target there.
  assert (Hax : forall p, transition_axis_cm (there p) (opposite_dome_direction d)
    = ADJACENT_OFFSET_CM - transition_axis_cm p d).
  { intros [[x y] z]. destruct source as [[a b] c].
    unfold there, target, transform_avatar_between_domes_cm, local_position_cm, component_position_cm, vx, vy, vz.
    destruct d; cbn; unfold vx, vz; cbn; lia. }
  assert (Hprog : forall p e, transition_progress_millionths p e
    = Z.max 0 (Z.min 1500 (transition_axis_cm p e - 2100)) * 1000000 / 1500).
  { intros p e. unfold transition_progress_millionths, CONNECTION_BOUNDARY_OFFSET_CM, CONNECTION_ZONE_DEPTH_CM, sat_i64,
      i64_min, i64_max. change (1500 / 2) with 750. do 2 f_equal. lia. }
  split_and!.
  - destruct source as [[a b] c], cur as [[x y] z]. unfold there, transform_avatar_between_domes_cm, local_position_cm,
      component_position_cm, vx, vy, vz. cbn [fst snd]. apply f_equal2; [apply f_equal2|]; lia.
  - unfold crossed_dome_transition_center. rewrite !Hax. generalize (transition_axis_cm prev d), (transition_axis_cm cur d).
    intros a b. unfold CONNECTION_BOUNDARY_OFFSET_CM, DOME_TRANSITION_CROSSING_HYSTERESIS_CM, ADJACENT_OFFSET_CM. clear.
    destruct (Z.leb_spec a (2850 - 10)), (Z.leb_spec (2850 + 10) b), (Z.leb_spec (5700 - b) (2850 - 10)),
      (Z.leb_spec (2850 + 10) (5700 - a)); simpl; lia.
  - rewrite !Hprog, Hax. clear. generalize (transition_axis_cm cur d). unfold ADJACENT_OFFSET_CM. intros a.
    Z.div_mod_to_equations. lia.
  - rewrite !Hprog, Hax. clear. generalize (transition_axis_cm cur d). unfold ADJACENT_OFFSET_CM. intros a.
    Z.div_mod_to_equations. lia.
  - unfold crossed_dome_transition_center. rewrite !Hprog. intros [Hp Hc]%andb_prop.
    unfold CONNECTION_BOUNDARY_OFFSET_CM, DOME_TRANSITION_CROSSING_HYSTERESIS_CM, ADJACENT_OFFSET_CM in *. split.
    + clear - Hp Hc. Z.div_mod_to_equations. lia.
    + intros next. rewrite !Hax. intros [Hn Hm]%andb_prop. lia.
Qed.
