(* ===== verification/DomeTopology.v ===== *)
(** * Dome connection topology (crates/core/src/dome_connections.rs)

    Owners connect their Domes pairwise.  Every peer resolves the connection records it
    knows into components: groups of Domes with coordinates on a grid.  The resolution
    orders the active records, adds them one by one and refuses cycles, merges of two
    grown components, occupied openings and Domes that would lie on top of each other.
    The hash of a record and the digest of a topology are parameters: they are computed
    from serialized JSON.  [Panic] is an index or an [expect] that fails. *)
From S2P Require Import Prelude RustStr DomeTransition.

(** ** Data *)
Inductive TopologyError := Bail (m : string) | Panic.

#[export] Instance DomeDirection_countable : Countable DomeDirection :=
  inj_countable (fun d => match d with North => 0 | East => 1 | South => 2 | West => 3 end)
    (fun n => if n =? 0 then Some North else if n =? 1 then Some East else if n =? 2 then Some South else Some West)
    (fun d => match d with North | East | South | West => eq_refl end).

Inductive InstanceStatus := Staging | InstanceActive | Tombstoned.
#[export] Instance InstanceStatus_eq_dec : EqDecision InstanceStatus.
Proof. solve_decision. Defined.

Record PresetRef := {
  preset_id : string;
  preset_owner : string;
  preset_revision : Z;
  manifest_blob_hash : string;
  manifest_mime : string
}.

Record RelationshipDetach := { move_id : string; detach_generation : Z }.

(** The fields of [DomeInstanceManifestV1] that the topology reads. *)
Record InstanceManifest := {
  im_id : string;
  im_context : SpatialContext;
  im_owner : string;
  im_preset : PresetRef;
  im_title : string;
  im_max_peers : option Z;
  im_generation : Z;
  im_status : InstanceStatus;
  im_detach : option RelationshipDetach
}.

Record Endpoint := { ep_instance : string; ep_generation : Z; ep_owner : string; ep_direction : DomeDirection }.
#[export] Instance Endpoint_eq_dec : EqDecision Endpoint.
Proof. solve_decision. Defined.

Record Agreement := {
  connection_id_of : string;
  proposal_id_of : string;
  ag_context : SpatialContext;
  proposer : Endpoint;
  receiver : Endpoint;
  activation_generation : Z
}.
#[export] Instance Agreement_eq_dec : EqDecision Agreement.
Proof. solve_decision. Defined.

Inductive ConnectionStatus := Accepted | Active | Draining | Revoked.
#[export] Instance ConnectionStatus_eq_dec : EqDecision ConnectionStatus.
Proof. solve_decision. Defined.

Inductive TerminalReason :=
| OwnerRevoked | ProposerWithdrew | ProposerSlotOccupied | InstanceDetached | InstanceDeleted | TermOwnersBlocked.
#[export] Instance TerminalReason_eq_dec : EqDecision TerminalReason.
Proof. solve_decision. Defined.

Record Connection := {
  agreement : Agreement;
  receiver_slot_generation : Z;
  observed_active_connection_ids : list string;
  conn_status : ConnectionStatus;
  lifecycle_generation : Z;
  lifecycle_actor : option string;
  lifecycle_reason : option TerminalReason;
  lifecycle_deadline_at : option Z
}.
#[export] Instance Connection_eq_dec : EqDecision Connection.
Proof. solve_decision. Defined.

Definition conn_id (c : Connection) : string := connection_id_of (agreement c).

(** Edges out of an instance: neighbour, direction of the opening, connection. *)
Abbreviation Edge := (string * DomeDirection * string)%type.
Abbreviation Adjacency := (gmap string (list Edge)).

Record Component := {
  root_instance_id : string;
  instance_ids : list string;
  connection_ids : list string;
  coordinates_cm : gmap string Vec3
}.

Record Topology := {
  topo_context : SpatialContext;
  components : list Component;
  active_connection_ids : list string;
  topology_digest_of : string
}.

(** ** Validation *)
Definition fail_with {A} (m : string) : result TopologyError A := Err (Bail m).
Definition check (b : bool) (m : string) : result TopologyError unit := ensure b (Bail m).

Definition is_record_id_byte (a : ascii) : bool :=
  let n := Z.of_nat (nat_of_ascii a) in
  ((48 <=? n) && (n <=? 57)) || ((65 <=? n) && (n <=? 90)) || ((97 <=? n) && (n <=? 122))
  || (n =? 45) || (n =? 95) || (n =? 46).

Definition is_valid_dome_record_id (id : string) (max_len : Z) : bool :=
  negb (str_is_empty id) && (str_len id <=? max_len)
  && str_all is_record_id_byte id.

Definition validate_unique_ids (ids : list string) : result TopologyError unit :=
  check (forallb (fun id => is_valid_dome_record_id id 160) ids && bool_decide (NoDup ids))
    "Dome Connection causal ids must be non-empty and unique".

Definition validate_dome_instance_manifest (m : InstanceManifest) : result TopologyError unit :=
  let p := im_preset m in
  _ ← check (negb (str_is_empty (trim (im_id m)) || str_is_empty (trim (preset_id p)) || (preset_revision p =? 0)
                   || str_is_empty (trim (manifest_blob_hash p)) || str_is_empty (trim (manifest_mime p))
                   || (im_generation m =? 0)))
        "Dome instance identity is incomplete";
  _ ← check (bool_decide (im_owner m = preset_owner p)) "Dome instance owner must match Dome preset owner";
  _ ← check (negb (str_is_empty (trim (im_title m)))) "Dome instance title is required";
  _ ← check (match im_max_peers m with Some n => (1 <=? n) && (n <=? 512) | None => true end)
        "max peers is outside the supported range";
  _ ← check (negb (bool_decide (im_status m = Staging) && bool_decide (is_Some (im_detach m))))
        "staging Dome instance cannot detach relationships";
  check (match im_detach m with
         | Some d => negb (str_is_empty (trim (move_id d)) || negb (detach_generation d =? im_generation m))
         | None => true
         end) "Dome relationship detach does not match instance generation".

Definition attached (m : InstanceManifest) : bool :=
  bool_decide (im_status m = InstanceActive) && bool_decide (im_detach m = None).

Definition validate_dome_relationship_scope (l r : InstanceManifest) : result TopologyError unit :=
  _ ← check (bool_decide (im_context l = im_context r)) "Dome Connection endpoints must share one Spatial Context";
  check (attached l && attached r) "Dome Connection endpoints must be active and attached".

Definition endpoint_matches (e : Endpoint) (m : InstanceManifest) : bool :=
  bool_decide (im_id m = ep_instance e) && (im_generation m =? ep_generation e)
  && bool_decide (im_owner m = ep_owner e).

Definition validate_endpoint_pair (ctx : SpatialContext) (pe re : Endpoint) (p r : InstanceManifest)
    : result TopologyError unit :=
  _ ← validate_dome_relationship_scope p r;
  _ ← check (bool_decide (im_context p = ctx) && bool_decide (im_context r = ctx)
             && endpoint_matches pe p && endpoint_matches re r)
        "Dome Connection endpoints do not match current instances";
  _ ← check (negb (bool_decide (im_id p = im_id r) || bool_decide (im_owner p = im_owner r)))
        "Dome Connection endpoints must belong to different owners";
  check (bool_decide (ep_direction re = opposite_dome_direction (ep_direction pe)))
    "Dome Connection endpoint directions are not opposites".

Definition validate_dome_connection_agreement (a : Agreement) (p r : InstanceManifest) : result TopologyError unit :=
  _ ← check (is_valid_dome_record_id (connection_id_of a) 160 && is_valid_dome_record_id (proposal_id_of a) 128
             && negb (activation_generation a =? 0))
        "Dome Connection agreement identity is incomplete";
  validate_endpoint_pair (ag_context a) (proposer a) (receiver a) p r.

Definition validate_dome_connection_record (c : Connection) : result TopologyError unit :=
  _ ← check (negb ((lifecycle_generation c =? 0) || (receiver_slot_generation c =? 0)))
        "Dome Connection lifecycle generations are required";
  _ ← validate_unique_ids (observed_active_connection_ids c);
  match conn_status c with
  | Accepted | Active =>
      check (bool_decide (lifecycle_reason c = None) && bool_decide (lifecycle_deadline_at c = None))
        "non-terminal Dome Connection cannot have a terminal reason"
  | Draining | Revoked =>
      actor ← ok_of_option (Bail "Dome Connection terminal lifecycle requires an actor") (lifecycle_actor c);
      _ ← check (bool_decide (actor = ep_owner (proposer (agreement c)))
                 || bool_decide (actor = ep_owner (receiver (agreement c))))
            "Dome Connection lifecycle actor is not an endpoint owner";
      _ ← check (bool_decide (is_Some (lifecycle_reason c))) "Dome Connection terminal lifecycle requires a reason";
      _ ← check (negb (bool_decide (conn_status c = Draining) && bool_decide (lifecycle_deadline_at c = None)))
            "draining Dome Connection requires a deadline";
      check (negb (bool_decide (conn_status c = Revoked) && bool_decide (is_Some (lifecycle_deadline_at c))))
        "revoked Dome Connection cannot retain a drain deadline"
  end.

(** ** Reachability *)
Definition edges_of (adj : Adjacency) (n : string) : list Edge := default [] (adj !! n).
Definition edge_target (e : Edge) : string := e.1.1.

(** The [while let] loop of [reachable_instances]; every turn pops the queue. *)
Fixpoint reach_loop (fuel : nat) (adj : Adjacency) (visited : gset string) (queue : list string) : gset string :=
  match fuel, queue with
  | S fuel, n :: queue =>
      if decide (n ∈ visited) then reach_loop fuel adj visited queue
      else
        let visited := visited ∪ {[ n ]} in
        reach_loop fuel adj visited
          (queue ++ filter (fun m => m ∉ visited) (map edge_target (edges_of adj n)))
  | _, _ => visited
  end.

Definition edge_count (adj : Adjacency) : nat := length (concat (map snd (map_to_list adj))).

Definition reachable_instances (adj : Adjacency) (start : string) : gset string :=
  reach_loop (S (edge_count adj)) adj ∅ [start].

(** ** Coordinates *)
Definition vec_add (a b : Vec3) : Vec3 := (vx a + vx b, vy a + vy b, vz a + vz b).

Record Placing := {
  coords : gmap string Vec3;
  owners : gmap Vec3 string;
  conns : gset string;
  pending : list string
}.

(** One edge of the instance at [current]. *)
Definition place_edge (current : Vec3) (e : Edge) (st : Placing) : result TopologyError Placing :=
  let '(neighbor, direction, connection) := e in
  let conns' := conns st ∪ {[ connection ]} in
  let coordinate := vec_add current (direction_offset_cm direction) in
  match coords st !! neighbor with
  | Some existing =>
      _ ← check (bool_decide (existing = coordinate)) "Dome Connection topology assigns inconsistent coordinates";
      Ok {| coords := coords st; owners := owners st; conns := conns'; pending := pending st |}
  | None =>
      _ ← check (match owners st !! coordinate with Some o => bool_decide (o = neighbor) | None => true end)
            "Dome Connection topology has a coordinate collision";
      Ok {| coords := <[neighbor := coordinate]> (coords st); owners := <[coordinate := neighbor]> (owners st);
            conns := conns'; pending := pending st ++ [neighbor] |}
  end.

Fixpoint place_edges (current : Vec3) (es : list Edge) (st : Placing) : result TopologyError Placing :=
  match es with
  | [] => Ok st
  | e :: es => st ← place_edge current e st; place_edges current es st
  end.

Definition edge_leb (a b : Edge) : bool := rust_leb a.2 b.2.

Fixpoint place_loop (fuel : nat) (adj : Adjacency) (st : Placing) : result TopologyError Placing :=
  match fuel, pending st with
  | S fuel, n :: queue =>
      current ← ok_of_option Panic (coords st !! n);
      st ← place_edges current (sort_by edge_leb (edges_of adj n))
             {| coords := coords st; owners := owners st; conns := conns st; pending := queue |};
      place_loop fuel adj st
  | _, _ => Ok st
  end.

Definition origin : Vec3 := (0, 0, 0).

(** Every instance enters the queue once. *)
Definition place_component (adj : Adjacency) (root : string) : result TopologyError Placing :=
  place_loop (S (size adj)) adj
    {| coords := {[ root := origin ]}; owners := {[ origin := root ]}; conns := ∅; pending := [root] |}.

Definition component_of (adj : Adjacency) (root : string) : result TopologyError (gset string * Component) :=
  let instance_set := reachable_instances adj root in
  first ← ok_of_option (Bail "Dome component is empty") (set_first instance_set);
  st ← place_component adj first;
  Ok (instance_set, {| root_instance_id := first; instance_ids := set_iter instance_set;
                       connection_ids := set_iter (conns st); coordinates_cm := coords st |}).

Fixpoint derive_loop (fuel : nat) (adj : Adjacency) (remaining : gset string) : result TopologyError (list Component) :=
  match fuel, set_first remaining with
  | S fuel, Some root =>
      '(members, component) ← component_of adj root;
      rest ← derive_loop fuel adj (remaining ∖ members);
      Ok (component :: rest)
  | _, _ => Ok []
  end.

Definition component_leb (a b : Component) : bool := rust_leb (root_instance_id a) (root_instance_id b).

Definition derive_components (adj : Adjacency) : result TopologyError (list Component) :=
  cs ← derive_loop (size adj) adj (dom adj);
  Ok (sort_by component_leb cs).

(** ** Order of the records *)
Definition is_topology_active (c : Connection) : bool :=
  match conn_status c with Active | Draining => true | Accepted | Revoked => false end.

(** [Iterator::min_by]: the first of several least elements. *)
Definition min_by {A} (cmp : A -> A -> comparison) (l : list A) : option A :=
  match l with
  | [] => None
  | x :: l => Some (foldl (fun m y => match cmp m y with Gt => y | _ => m end) x l)
  end.

(** [iter().enumerate()] *)
Definition enumerate {A} (l : list A) : list (nat * A) := imap pair l.

Section resolution.
Context (topology_record_digest : Connection -> string).
Context (topology_digest : SpatialContext -> list Component -> list string -> string).

Definition topology_connection_order (l r : Connection) : comparison :=
  match rust_cmp (activation_generation (agreement l)) (activation_generation (agreement r)) with
  | Eq => match rust_cmp (topology_record_digest l) (topology_record_digest r) with
          | Eq => rust_cmp (conn_id l) (conn_id r)
          | o => o
          end
  | o => o
  end.

(** Every candidate that the record observed is emitted. *)
Definition is_ready (candidate_ids emitted : gset string) (c : Connection) : bool :=
  forallb (fun id => bool_decide (id ∈ emitted))
    (filter (fun id => id ∈ candidate_ids) (observed_active_connection_ids c)).

Definition pick (candidate_ids emitted : gset string) (remaining : list Connection) : option nat :=
  let order := fun a b : nat * Connection => topology_connection_order a.2 b.2 in
  match min_by order (List.filter (fun p => is_ready candidate_ids emitted p.2) (enumerate remaining)) with
  | Some (index, _) => Some index
  | None => fst <$> min_by order (enumerate remaining)
  end.

(** The [while] loop; every turn removes one record. *)
Fixpoint order_loop (fuel : nat) (candidate_ids emitted : gset string) (remaining : list Connection)
    : list Connection :=
  match fuel with
  | O => []
  | S fuel =>
      match index ← pick candidate_ids emitted remaining; c ← remaining !! index; Some (index, c) with
      | Some (index, c) =>
          c :: order_loop fuel candidate_ids (emitted ∪ {[ conn_id c ]}) (delete index remaining)
      | None => []
      end
  end.

Definition candidate_ids_of (remaining : list Connection) : gset string := list_to_set (map conn_id remaining).

Definition ordered_topology_connections (connections : list Connection) : list Connection :=
  let remaining := List.filter is_topology_active connections in
  order_loop (length remaining) (candidate_ids_of remaining) ∅ remaining.

(** ** Resolution *)
Record Collected := { instance_by_id : gmap string InstanceManifest; collected_context : option SpatialContext }.

Definition collect_instance (st : Collected) (i : InstanceManifest) : result TopologyError Collected :=
  _ ← validate_dome_instance_manifest i;
  _ ← check (attached i) "Dome topology requires active attached instances";
  ctx ← match collected_context st with
        | Some ctx =>
            _ ← check (bool_decide (ctx = im_context i)) "Dome topology instances must share one Spatial Context";
            Ok ctx
        | None => Ok (im_context i)
        end;
  _ ← check (bool_decide (instance_by_id st !! im_id i = None)) "duplicate Dome instance in topology input";
  Ok {| instance_by_id := <[im_id i := i]> (instance_by_id st); collected_context := Some ctx |}.

Fixpoint collect_loop (st : Collected) (is_ : list InstanceManifest) : result TopologyError Collected :=
  match is_ with
  | [] => Ok st
  | i :: is_ => st ← collect_instance st i; collect_loop st is_
  end.

Definition collect_instances (is_ : list InstanceManifest)
    : result TopologyError (gmap string InstanceManifest * SpatialContext) :=
  st ← collect_loop {| instance_by_id := ∅; collected_context := None |} is_;
  ctx ← ok_of_option (Bail "Dome topology requires at least one instance") (collected_context st);
  Ok (instance_by_id st, ctx).

Record Graph := { seen : gset string; slots : gset (string * DomeDirection); adjacency : Adjacency }.

(** [adjacency.get_mut(n).expect(..).push(e)] *)
Definition push_edge (n : string) (e : Edge) (adj : Adjacency) : result TopologyError Adjacency :=
  es ← ok_of_option Panic (adj !! n);
  Ok (<[n := (es ++ [e])%list]> adj).

(** [!occupied_slots.insert(proposer_slot) || !occupied_slots.insert(receiver_slot)]:
    the second insertion happens only when the first slot was free. *)
Definition occupy (s : gset (string * DomeDirection)) (p r : string * DomeDirection)
    : result TopologyError (gset (string * DomeDirection)) :=
  let s' := s ∪ {[ p ]} in
  _ ← check (bool_decide (p ∉ s) && bool_decide (r ∉ s')) "Dome Connection direction slot is already occupied";
  Ok (s' ∪ {[ r ]}).

(** The body of the loop over the ordered records. *)
Definition add_connection (ins : gmap string InstanceManifest) (g : Graph) (c : Connection)
    : result TopologyError Graph :=
  _ ← validate_dome_connection_record c;
  let a := agreement c in
  let p := ep_instance (proposer a) in
  let r := ep_instance (receiver a) in
  _ ← check (bool_decide (conn_id c ∉ seen g)) "duplicate Dome Connection id";
  pm ← ok_of_option (Bail "Dome Connection proposer instance is unavailable") (ins !! p);
  rm ← ok_of_option (Bail "Dome Connection receiver instance is unavailable") (ins !! r);
  _ ← validate_dome_connection_agreement a pm rm;
  slots' ← occupy (slots g) (p, ep_direction (proposer a)) (r, ep_direction (receiver a));
  let proposer_component := reachable_instances (adjacency g) p in
  let receiver_component := reachable_instances (adjacency g) r in
  _ ← check (negb (bool_decide (r ∈ proposer_component))) "Dome Connection would create a cycle";
  _ ← check (negb ((1 <? Z.of_nat (size proposer_component)) && (1 <? Z.of_nat (size receiver_component))))
        "Dome Connection cannot merge existing components";
  adj ← push_edge p (r, ep_direction (proposer a), connection_id_of a) (adjacency g);
  adj ← push_edge r (p, ep_direction (receiver a), connection_id_of a) adj;
  _ ← derive_components adj;
  Ok {| seen := seen g ∪ {[ connection_id_of a ]}; slots := slots'; adjacency := adj |}.

Fixpoint add_connections (ins : gmap string InstanceManifest) (g : Graph) (cs : list Connection)
    : result TopologyError Graph :=
  match cs with
  | [] => Ok g
  | c :: cs => g ← add_connection ins g c; add_connections ins g cs
  end.

Definition initial_graph (ins : gmap string InstanceManifest) : Graph :=
  {| seen := ∅; slots := ∅; adjacency := (fun _ => []) <$> ins |}.

Definition resolve_dome_topology (instances : list InstanceManifest) (connections : list Connection)
    : result TopologyError Topology :=
  '(ins, ctx) ← collect_instances instances;
  g ← add_connections ins (initial_graph ins) (ordered_topology_connections connections);
  cs ← derive_components (adjacency g);
  let ids := set_iter (seen g) in
  Ok {| topo_context := ctx; components := cs; active_connection_ids := ids;
        topology_digest_of := topology_digest ctx cs ids |}.

(** ** Candidates *)
Record Rejected := { rejected_id : string; rejected_reason : string }.
Record Resolution := { topology : Topology; rejected_connections : list Rejected }.

(** The loop of [resolve_dome_topology_candidates]; a panic is not caught. *)
Fixpoint accept_loop (instances : list InstanceManifest) (accepted : list Connection) (rejected : list Rejected)
    (candidates : list Connection) : result TopologyError (list Connection * list Rejected) :=
  match candidates with
  | [] => Ok (accepted, rejected)
  | c :: candidates =>
      match resolve_dome_topology instances (accepted ++ [c]) with
      | Ok _ => accept_loop instances (accepted ++ [c]) rejected candidates
      | Err (Bail m) =>
          accept_loop instances accepted (rejected ++ [{| rejected_id := conn_id c; rejected_reason := m |}]) candidates
      | Err Panic => Err Panic
      end
  end.

Definition resolve_dome_topology_candidates (instances : list InstanceManifest) (connections : list Connection)
    : result TopologyError Resolution :=
  '(accepted, rejected) ← accept_loop instances [] [] (ordered_topology_connections connections);
  t ← resolve_dome_topology instances accepted;
  Ok {| topology := t; rejected_connections := rejected |}.
End resolution.

(** ** Proposals *)
Record Proposal := {
  proposal_id : string;
  proposal_context : SpatialContext;
  proposal_proposer : Endpoint;
  proposal_receiver : Endpoint;
  proposal_sequence : Z;
  proposal_created_at : Z
}.

Record Selection := {
  selection_id : string;
  selection_proposal_id : string;
  selection_context : SpatialContext;
  selection_receiver : Endpoint;
  slot_generation : Z;
  selection_observed : list string;
  selected_at : Z
}.

Inductive DerivedStatus := SProposed | SReserved | SAccepted | SWaitingForSlot | SDiscarded.
#[export] Instance DerivedStatus_eq_dec : EqDecision DerivedStatus.
Proof. solve_decision. Defined.

Definition from_proposal (connection_id : string) (p : Proposal) : Agreement :=
  {| connection_id_of := connection_id; proposal_id_of := proposal_id p; ag_context := proposal_context p;
     proposer := proposal_proposer p; receiver := proposal_receiver p; activation_generation := proposal_sequence p |}.

Definition validate_dome_connection_proposal (p : Proposal) (pm rm : InstanceManifest) : result TopologyError unit :=
  _ ← check (is_valid_dome_record_id (proposal_id p) 128 && negb (proposal_sequence p =? 0))
        "Dome Connection proposal identity is incomplete";
  validate_endpoint_pair (proposal_context p) (proposal_proposer p) (proposal_receiver p) pm rm.

Definition validate_dome_connection_selection (s : Selection) (p : Proposal) : result TopologyError unit :=
  _ ← check (is_valid_dome_record_id (selection_id s) 192 && bool_decide (selection_proposal_id s = proposal_id p)
             && negb (slot_generation s =? 0) && bool_decide (selection_context s = proposal_context p)
             && bool_decide (selection_receiver s = proposal_receiver p))
        "Dome Connection selection does not match proposal";
  validate_unique_ids (selection_observed s).

(** An active connection of another proposal occupies the slot [e]. *)
Definition holds_slot (side : Agreement -> Endpoint) (p : Proposal) (e : Endpoint) (c : Connection) : bool :=
  is_topology_active c && bool_decide (ep_instance (side (agreement c)) = ep_instance e)
  && bool_decide (ep_direction (side (agreement c)) = ep_direction e)
  && negb (bool_decide (proposal_id_of (agreement c) = proposal_id p)).

Definition derive_dome_proposal_status (p : Proposal) (selection : option Selection) (connections : list Connection)
    (terminal_reason : option TerminalReason) : DerivedStatus :=
  if bool_decide (is_Some terminal_reason) || existsb (holds_slot proposer p (proposal_proposer p)) connections
  then SDiscarded
  else if existsb (holds_slot receiver p (proposal_receiver p)) connections then SWaitingForSlot
  else if existsb (fun c => bool_decide (proposal_id_of (agreement c) = proposal_id p)
                            && match conn_status c with Accepted | Active | Draining => true | Revoked => false end)
            connections
  then SAccepted
  else match selection with
       | Some s => if decide (selection_proposal_id s = proposal_id p) then SReserved else SProposed
       | None => SProposed
       end.
