(* ===== verification/DomeTopologyGraph.v ===== *)
(** * Graph lemmas of the Dome topology

    The breadth-first search visits exactly what is reachable; the placement of a
    component finds coordinates exactly when the component can be drawn on the grid;
    the derived components partition the instances. *)
From S2P Require Import Prelude RustStr DomeTransition DomeTopology.

(** ** Edges *)
Definition edge_rel (adj : Adjacency) (m n : string) : Prop := n ∈ map edge_target (edges_of adj m).

Lemma edge_rel_iff adj m n : edge_rel adj m n <-> exists d c, (n, d, c) ∈ edges_of adj m.
Proof.
  unfold edge_rel. rewrite list_elem_of_fmap. split.
  - intros ([[n' d] c] & -> & Hin). eauto.
  - intros (d & c & Hin). by exists (n, d, c).
Qed.

Lemma edge_rel_intro adj m n d c : (n, d, c) ∈ edges_of adj m -> edge_rel adj m n.
Proof. intros. apply edge_rel_iff. eauto. Qed.
#[export] Hint Resolve edge_rel_intro : kukuri.

(** Both directions of a connection are there, and stay inside the instances. *)
Record adj_wf (adj : Adjacency) : Prop := {
  adj_sym : forall m n, edge_rel adj m n -> edge_rel adj n m;
  adj_dom : forall m n, edge_rel adj m n -> n ∈ dom adj
}.

(** ** Breadth-first search *)

(** Edges that leave unvisited instances. *)
Definition todo_in (V : gset string) (l : list (string * list Edge)) : nat :=
  sum_list_with (fun p => if decide (p.1 ∈ V) then 0%nat else length p.2) l.

Lemma todo_in_mono V n l : (todo_in (V ∪ {[ n ]}) l <= todo_in V l)%nat.
Proof.
  induction l as [|[k es] l IH]; unfold todo_in in *; cbn [sum_list_with fst snd]; [lia|].
  destruct (decide (k ∈ V)); [rewrite decide_True by set_solver; lia|].
  destruct (decide (k ∈ V ∪ {[ n ]})); lia.
Qed.

Lemma todo_in_visit V n es l :
  n ∉ V -> (n, es) ∈ l -> (length es + todo_in (V ∪ {[ n ]}) l <= todo_in V l)%nat.
Proof.
  intros Hn. induction l as [|[k es'] l IH]; [set_solver|].
  pose proof (todo_in_mono V n l) as Hm. unfold todo_in in *. cbn [sum_list_with fst snd].
  intros [[= <- <-]|Hin]%elem_of_cons.
  - rewrite decide_True by set_solver. rewrite decide_False by done. lia.
  - specialize (IH Hin). destruct (decide (k ∈ V)); [rewrite decide_True by set_solver; lia|].
    destruct (decide (k ∈ V ∪ {[ n ]})); lia.
Qed.

Definition todo (adj : Adjacency) (V : gset string) : nat := todo_in V (map_to_list adj).

Lemma todo_visit adj V n :
  n ∉ V -> (length (edges_of adj n) + todo adj (V ∪ {[ n ]}) <= todo adj V)%nat.
Proof.
  intros Hn. unfold edges_of. destruct (adj !! n) as [es|] eqn:E; simpl.
  - apply todo_in_visit; [done | by apply elem_of_map_to_list].
  - apply todo_in_mono.
Qed.

Lemma todo_start adj : todo adj ∅ = edge_count adj.
Proof.
  unfold todo, edge_count, todo_in. induction (map_to_list adj) as [|[k es] l IH]; simpl; [done|].
  by rewrite length_app, IH.
Qed.

Lemma reach_loop_spec fuel adj V q :
  (length q + todo adj V <= fuel)%nat ->
  (forall v n, v ∈ V -> edge_rel adj v n -> n ∈ V \/ n ∈ q) ->
  let R := reach_loop fuel adj V q in
  V ⊆ R /\ (forall x, x ∈ q -> x ∈ R) /\ (forall v n, v ∈ R -> edge_rel adj v n -> n ∈ R)
  /\ (forall x, x ∈ R -> x ∈ V \/ exists y, y ∈ q /\ rtc (edge_rel adj) y x).
Proof.
  revert V q. induction fuel as [|fuel IH]; intros V [|n q] Hf HV; simpl in *; try lia.
  - split_and!; [done | set_solver | | eauto]. intros v n Hv He. destruct (HV v n Hv He); [done | set_solver].
  - split_and!; [done | set_solver | | eauto]. intros v n Hv He. destruct (HV v n Hv He); [done | set_solver].
  - destruct (decide (n ∈ V)) as [Hn|Hn].
    + destruct (IH V q) as (H1 & H2 & H3 & H4); [lia | |].
      { intros v m Hv He. destruct (HV v m Hv He) as [?|[->|?]%elem_of_cons]; auto. }
      split_and!; [done | | done |].
      * intros x [->|?]%elem_of_cons; auto.
      * intros x Hx. destruct (H4 x Hx) as [?|(y & ? & ?)]; [by left | right; exists y; set_solver].
    + set (new := filter (fun m => m ∉ V ∪ {[ n ]}) (map edge_target (edges_of adj n))).
      assert (Hlen : (length new <= length (edges_of adj n))%nat).
      { unfold new. etrans; [apply length_filter|]. by rewrite length_map. }
      pose proof (todo_visit adj V n Hn).
      destruct (IH (V ∪ {[ n ]}) (q ++ new)%list) as (H1 & H2 & H3 & H4); [rewrite length_app; lia | |].
      { intros v m Hv He. destruct (decide (m ∈ V ∪ {[ n ]})) as [|Hm]; [by left|]. right.
        apply elem_of_union in Hv as [Hv| ->%elem_of_singleton].
        - destruct (HV v m Hv He) as [?|[->|?]%elem_of_cons]; [set_solver | set_solver |].
          apply elem_of_app. by left.
        - apply elem_of_app. right. by apply list_elem_of_filter. }
      split_and!; [set_solver | | done |].
      * intros x [->|Hx]%elem_of_cons; [apply H1; set_solver | apply H2, elem_of_app; by left].
      * intros x Hx. destruct (H4 x Hx) as [[?| ->%elem_of_singleton]%elem_of_union|(y & Hy & Hp)].
        -- by left.
        -- right. exists n. split; [apply list_elem_of_here | done].
        -- right. apply elem_of_app in Hy as [Hy|[_ Hy]%list_elem_of_filter].
           ++ exists y. split; [by apply list_elem_of_further | done].
           ++ exists n. split; [apply list_elem_of_here | by eapply rtc_l].
Qed.

Lemma rtc_closed (R : string -> string -> Prop) (X : gset string) x y :
  (forall v n, v ∈ X -> R v n -> n ∈ X) -> rtc R x y -> x ∈ X -> y ∈ X.
Proof. intros HX. induction 1; eauto. Qed.

Lemma reachable_spec adj start n : n ∈ reachable_instances adj start <-> rtc (edge_rel adj) start n.
Proof.
  unfold reachable_instances.
  destruct (reach_loop_spec (S (edge_count adj)) adj ∅ [start]) as (_ & H2 & H3 & H4).
  { rewrite todo_start. simpl. lia. }
  { set_solver. }
  split.
  - intros Hn. destruct (H4 n Hn) as [?|(y & ->%list_elem_of_singleton & Hp)]; [set_solver | done].
  - intros Hp. apply (rtc_closed _ _ _ _ H3 Hp), H2, list_elem_of_here.
Qed.

Lemma reachable_closed adj start m n :
  m ∈ reachable_instances adj start -> edge_rel adj m n -> n ∈ reachable_instances adj start.
Proof. rewrite !reachable_spec. intros. by eapply rtc_r. Qed.

Lemma reachable_self adj start : start ∈ reachable_instances adj start.
Proof. by apply reachable_spec. Qed.

(** ** Placement *)
Section placement.
Context (adj : Adjacency) (root : string).
Abbreviation reach := (rtc (edge_rel adj) root).

(** [pos] draws the component of [root] on the grid: neighbours lie where their opening
    points and no two instances share a place. *)
Record embeds (pos : string -> Vec3) : Prop := {
  embeds_edge : forall m n d c, reach m -> (n, d, c) ∈ edges_of adj m ->
    pos n = vec_add (pos m) (direction_offset_cm d);
  embeds_inj : forall m n, reach m -> reach n -> pos m = pos n -> m = n
}.

(** The loop between two turns; [busy] is the instance whose edges are being placed. *)
Record place_inv (busy : option (string * list Edge)) (st : Placing) : Prop := {
  pl_root : coords st !! root = Some origin;
  pl_inv : forall n c, owners st !! c = Some n <-> coords st !! n = Some c;
  pl_pending : forall n, n ∈ pending st -> n ∈ dom (coords st);
  pl_reach : forall n, n ∈ dom (coords st) -> reach n;
  pl_done : forall m cm n d c, coords st !! m = Some cm -> m ∉ pending st -> (n, d, c) ∈ edges_of adj m ->
    (forall todo, busy = Some (m, todo) -> (n, d, c) ∉ todo) ->
    coords st !! n = Some (vec_add cm (direction_offset_cm d)) /\ c ∈ conns st;
  pl_conns : forall c, c ∈ conns st -> exists m n d, m ∈ dom (coords st) /\ (n, d, c) ∈ edges_of adj m;
  pl_embeds : forall pos n c, embeds pos -> coords st !! n = Some c -> pos n = vec_add (pos root) c
}.

Lemma vec_add_assoc a b c : vec_add (vec_add a b) c = vec_add a (vec_add b c).
Proof. unfold vec_add, vx, vy, vz; simpl. f_equal; [f_equal|]; lia. Qed.

Lemma vec_add_inj a b c : vec_add a b = vec_add a c -> b = c.
Proof. destruct b as [[]], c as [[]]. unfold vec_add, vx, vy, vz; simpl. intros [=]. f_equal; [f_equal|]; lia. Qed.

Lemma vec_add_origin a : vec_add a origin = a.
Proof. destruct a as [[]]. unfold vec_add, origin, vx, vy, vz; simpl. f_equal; [f_equal|]; lia. Qed.

(** What a step of the placement may answer: it goes on with [Q], or it reports that the
    component cannot be drawn; it never panics. *)
Definition place_post (r : result TopologyError Placing) (Q : Placing -> Prop) : Prop :=
  match r with
  | Ok st => Q st
  | Err (Bail _) => forall pos, ~ embeds pos
  | Err Panic => False
  end.

Lemma place_post_mono r (Q Q' : Placing -> Prop) : (forall st, Q st -> Q' st) -> place_post r Q -> place_post r Q'.
Proof. destruct r as [st|[m|]]; simpl; auto. Qed.

(** Instances not placed yet, and placed ones whose edges are not followed yet. *)
Definition place_measure (st : Placing) : nat := size (dom adj ∖ dom (coords st)) + length (pending st).

Context (Hwf : adj_wf adj).

(** The edge leads to an instance that is placed already. *)
Lemma place_known m n d cid p es st st' :
  place_inv (Some (m, (n, d, cid) :: es)) st -> m ∈ dom (coords st) -> (n, d, cid) ∈ edges_of adj m ->
  (forall cm, coords st !! m = Some cm -> vec_add cm (direction_offset_cm d) = p) ->
  coords st !! n = Some p ->
  st' = {| coords := coords st; owners := owners st; conns := conns st ∪ {[ cid ]}; pending := pending st |} ->
  place_inv (Some (m, es)) st'.
Proof.
  intros Hinv Hm He Hp En ->. constructor; simpl; try apply Hinv.
  - intros m' cm n' d' c' Hc Hnp He' Hb. destruct (decide ((m', (n', d', c')) = (m, (n, d, cid)))) as [Heq|Hne].
    + injection Heq as -> -> -> ->. rewrite (Hp cm Hc). split; [done | set_solver].
    + destruct (pl_done _ _ Hinv m' cm n' d' c' Hc Hnp He') as [? ?]; [|set_solver].
      intros todo [= -> <-] [?|Hin]%elem_of_cons; [congruence | by eapply Hb].
  - intros c [Hc| ->%elem_of_singleton]%elem_of_union; [by apply (pl_conns _ _ Hinv)|]. by exists m, n, d.
Qed.

(** The edge leads to a new instance and a free place. *)
Lemma place_fresh m n d cid p es st :
  place_inv (Some (m, (n, d, cid) :: es)) st -> m ∈ dom (coords st) -> (n, d, cid) ∈ edges_of adj m ->
  coords st !! n = None -> owners st !! p = None -> reach n ->
  (forall pos, embeds pos -> pos n = vec_add (pos root) p) ->
  place_inv (Some (m, (n, d, cid) :: es))
    {| coords := <[n := p]> (coords st); owners := <[p := n]> (owners st);
       conns := conns st; pending := (pending st ++ [n])%list |}.
Proof.
  intros Hinv Hm He En Ho Hrn Hpos.
  assert (Hnr : n <> root) by (intros ->; pose proof (pl_root _ _ Hinv); congruence).
  constructor; simpl.
  - rewrite lookup_insert_ne by done. apply Hinv.
  - intros n' c'. rewrite !lookup_insert_Some, (pl_inv _ _ Hinv). split.
    + intros [[-> ->]|[? ?]]; [by left|]. right. split; [congruence | done].
    + intros [[-> ->]|[? Hc]]; [by left|]. right. split; [|done]. intros <-.
      apply (pl_inv _ _ Hinv) in Hc. congruence.
  - intros n' [Hp| ->%list_elem_of_singleton]%elem_of_app; [|set_solver].
    pose proof (pl_pending _ _ Hinv n' Hp). set_solver.
  - intros n'. rewrite dom_insert. intros [->%elem_of_singleton|?]%elem_of_union; [done | by apply (pl_reach _ _ Hinv)].
  - intros m' cm n' d' c' Hc Hnp He' Hb. apply lookup_insert_Some in Hc as [[<- _]|[Hne Hc]]; [set_solver|].
    destruct (pl_done _ _ Hinv m' cm n' d' c' Hc) as [Hc' ?]; [set_solver | done | done |].
    split; [|done]. rewrite lookup_insert_ne; [done | congruence].
  - intros c Hc. destruct (pl_conns _ _ Hinv c Hc) as (m' & n' & d' & ? & ?). exists m', n', d'.
    rewrite dom_insert. set_solver.
  - intros pos n' c' Hp [[<- <-]|[? ?]]%lookup_insert_Some; [by apply Hpos | by apply (pl_embeds _ _ Hinv)].
Qed.

Lemma place_measure_fresh n p q cs st :
  coords st !! n = None -> n ∈ dom adj ->
  place_measure {| coords := <[n := p]> (coords st); owners := q; conns := cs; pending := (pending st ++ [n])%list |}
  = place_measure st.
Proof.
  intros En Hn. apply not_elem_of_dom in En. unfold place_measure; simpl. rewrite length_app, dom_insert; simpl.
  replace (dom adj ∖ ({[ n ]} ∪ dom (coords st))) with ((dom adj ∖ dom (coords st)) ∖ {[ n ]}) by set_solver.
  rewrite size_difference by set_solver. rewrite size_singleton.
  assert (size ({[ n ]} : gset string) <= size (dom adj ∖ dom (coords st)))%nat by (apply subseteq_size; set_solver).
  rewrite size_singleton in *. lia.
Qed.

Lemma place_edge_inv m cur e es st :
  place_inv (Some (m, e :: es)) st -> coords st !! m = Some cur -> e ∈ edges_of adj m ->
  place_post (place_edge cur e st) (fun st' =>
    place_inv (Some (m, es)) st' /\ coords st' !! m = Some cur /\ (place_measure st' <= place_measure st)%nat).
Proof using Hwf.
  intros Hinv Hm He. destruct e as [[n d] cid]. unfold place_edge, check, ensure.
  set (p := vec_add cur (direction_offset_cm d)).
  assert (Hmd : m ∈ dom (coords st)) by by eapply elem_of_dom_2.
  assert (Hrm : reach m) by by eapply pl_reach.
  assert (Hrn : reach n) by (eapply rtc_r; eauto with kukuri).
  assert (Hpos : forall pos, embeds pos -> pos n = vec_add (pos root) p).
  { intros pos Hp. rewrite (embeds_edge pos Hp m n d cid Hrm He), (pl_embeds _ _ Hinv pos m cur Hp Hm).
    apply vec_add_assoc. }
  destruct (coords st !! n) as [q|] eqn:En.
  - destruct (bool_decide (q = p)) eqn:Hq; destruct_bools; simpl.
    + split; [|by split]. eapply place_known; [done.. | | by rewrite En, Hq | done]. intros cm ?. by simplify_eq.
    + intros pos Hp. apply Hq. eapply vec_add_inj. rewrite <- (Hpos pos Hp).
      symmetry. by eapply (pl_embeds _ _ Hinv).
  - destruct (match owners st !! p with Some o => bool_decide (o = n) | None => true end) eqn:Eo; simpl.
    + assert (Ho : owners st !! p = None).
      { destruct (owners st !! p) as [o|] eqn:Hop; [|done]. destruct_bools. subst o.
        apply (pl_inv _ _ Hinv) in Hop. congruence. }
      assert (Hnm : n <> m) by congruence.
      pose proof (place_fresh m n d cid p es st Hinv Hmd He En Ho Hrn Hpos) as Hinv'.
      split; [|split].
      * eapply place_known; [exact Hinv' | | done | | apply lookup_insert_eq | done]; simpl; [set_solver|].
        intros cm. rewrite lookup_insert_ne by done. intros ?. by simplify_eq.
      * simpl. by rewrite lookup_insert_ne.
      * rewrite place_measure_fresh; [done | done |]. eapply adj_dom; eauto with kukuri.
    + intros pos Hp. destruct (owners st !! p) as [o|] eqn:Hop; [|done]. destruct_bools. apply Eo.
      apply (pl_inv _ _ Hinv) in Hop. apply (embeds_inj pos Hp); [|done|].
      * eapply pl_reach; [done | by eapply elem_of_dom_2].
      * rewrite (Hpos pos Hp). by apply (pl_embeds _ _ Hinv).
Qed.

Lemma place_edges_inv m cur es st :
  place_inv (Some (m, es)) st -> coords st !! m = Some cur -> (forall e, e ∈ es -> e ∈ edges_of adj m) ->
  place_post (place_edges cur es st) (fun st' =>
    place_inv (Some (m, [])) st' /\ (place_measure st' <= place_measure st)%nat).
Proof using Hwf.
  revert st. induction es as [|e es IH]; intros st Hinv Hm Hes; simpl; [done|].
  pose proof (place_edge_inv m cur e es st Hinv Hm (Hes e (list_elem_of_here _ _))) as He.
  destruct (place_edge cur e st) as [st'|[msg|]]; simpl in *; [|done|done].
  destruct He as (Hinv' & Hm' & Hle). eapply place_post_mono; [|apply IH; [done | done | set_solver]].
  cbv beta. intros st'' [? ?]. split; [done | lia].
Qed.

(** Popping an instance starts the work on its edges. *)
Lemma place_pop n queue es st :
  place_inv None st -> pending st = n :: queue -> (forall e, e ∈ edges_of adj n -> e ∈ es) ->
  place_inv (Some (n, es)) {| coords := coords st; owners := owners st; conns := conns st; pending := queue |}.
Proof.
  intros [? ? Hpe ? Hd ? ?] Eq Hes. constructor; simpl; try done.
  - intros n' ?. apply Hpe. rewrite Eq. by apply list_elem_of_further.
  - intros m cm n' d c Hc Hnp He Hb. eapply Hd; [done | | done | done].
    rewrite Eq. intros [->|?]%elem_of_cons; [|done]. eapply Hb; [done | by apply Hes].
Qed.

Lemma place_finish n st : place_inv (Some (n, [])) st -> place_inv None st.
Proof.
  intros [? ? ? ? Hd ? ?]. constructor; try done.
  intros m cm n' d c Hc Hnp He _. eapply Hd; [done..|]. intros todo [= -> <-]. set_solver.
Qed.

Lemma place_loop_inv fuel st :
  place_inv None st -> (place_measure st <= fuel)%nat ->
  place_post (place_loop fuel adj st) (fun st' => place_inv None st' /\ pending st' = []).
Proof using Hwf.
  revert st. induction fuel as [|fuel IH]; intros st Hinv Hf; destruct (pending st) as [|n queue] eqn:Eq.
  - simpl. by rewrite Eq.
  - unfold place_measure in Hf. rewrite Eq in Hf. simpl in Hf. lia.
  - simpl. by rewrite Eq.
  - cbn [place_loop]. rewrite Eq.
    assert (Hn : n ∈ dom (coords st)) by (eapply pl_pending; [done|]; rewrite Eq; apply list_elem_of_here).
    apply elem_of_dom in Hn as [cur Hn]. rewrite Hn. cbn [ok_of_option mbind result_bind].
    set (es := sort_by edge_leb (edges_of adj n)).
    assert (Hes : forall e, e ∈ es <-> e ∈ edges_of adj n) by (intros; apply elem_of_sort_by).
    pose proof (place_edges_inv n cur es _ (place_pop n queue es st Hinv Eq (fun e => proj2 (Hes e))) Hn
      (fun e => proj1 (Hes e))) as Hp.
    destruct (place_edges cur es _) as [st'|[msg|]]; simpl in *; [|done|done].
    destruct Hp as [Hinv' Hle]. apply IH; [by eapply place_finish|].
    unfold place_measure in *. rewrite Eq in Hf. simpl in *. lia.
Qed.

(** The placement of a component: coordinates for exactly its instances. *)
Record placed (cs : gmap string Vec3) (ids : gset string) : Prop := {
  placed_dom : forall n, n ∈ dom cs <-> reach n;
  placed_root : cs !! root = Some origin;
  placed_edge : forall m cm n d c, cs !! m = Some cm -> (n, d, c) ∈ edges_of adj m ->
    cs !! n = Some (vec_add cm (direction_offset_cm d));
  placed_inj : forall m n c, cs !! m = Some c -> cs !! n = Some c -> m = n;
  placed_conns : forall c, c ∈ ids <-> exists m n d, reach m /\ (n, d, c) ∈ edges_of adj m
}.

Lemma place_done st : place_inv None st -> pending st = [] -> placed (coords st) (conns st).
Proof.
  intros Hinv Ep.
  assert (Hdone : forall m cm n d c, coords st !! m = Some cm -> (n, d, c) ∈ edges_of adj m ->
    coords st !! n = Some (vec_add cm (direction_offset_cm d)) /\ c ∈ conns st).
  { intros. eapply (pl_done _ _ Hinv); [done | rewrite Ep; set_solver | done | done]. }
  assert (Hdom : forall n, n ∈ dom (coords st) <-> reach n).
  { intros n. split; [apply (pl_reach _ _ Hinv)|]. intros Hr. eapply rtc_closed; [|exact Hr|].
    - intros v n' [cv Hv]%elem_of_dom (d & c & He)%edge_rel_iff.
      destruct (Hdone _ _ _ _ _ Hv He) as [? _]. by eapply elem_of_dom_2.
    - eapply elem_of_dom_2, (pl_root _ _ Hinv). }
  split; [done | apply Hinv | | |].
  - intros. by eapply Hdone.
  - intros m n c Hm Hn. apply (pl_inv _ _ Hinv) in Hm, Hn. congruence.
  - intros c. split.
    + intros (m & n & d & ? & ?)%(pl_conns _ _ Hinv). exists m, n, d. by rewrite <- Hdom.
    + intros (m & n & d & Hr & ?). apply Hdom, elem_of_dom in Hr as [cm Hm]. by eapply Hdone.
Qed.

Lemma place_component_spec :
  root ∈ dom adj ->
  place_post (place_component adj root) (fun st => placed (coords st) (conns st)).
Proof using Hwf.
  intros Hroot. unfold place_component.
  apply (place_post_mono _ (fun st => place_inv None st /\ pending st = []));
    [intros st [Hinv Hp]; exact (place_done st Hinv Hp)|].
  apply place_loop_inv.
  - constructor; simpl.
    + apply lookup_singleton_eq.
    + intros n c. rewrite !lookup_singleton_Some. naive_solver.
    + set_solver.
    + intros n. rewrite dom_singleton. by intros ->%elem_of_singleton.
    + intros m cm n d c [<- _]%lookup_singleton_Some. set_solver.
    + set_solver.
    + intros pos n c _ [<- <-]%lookup_singleton_Some. by rewrite vec_add_origin.
  - unfold place_measure; simpl. rewrite dom_singleton, size_difference by set_solver.
    rewrite size_dom. lia.
Qed.

(** A placement draws the component. *)
Lemma placed_embeds cs ids : placed cs ids -> embeds (fun n => default origin (cs !! n)).
Proof.
  intros Hp. split.
  - intros m n d c Hr He. apply (placed_dom _ _ Hp), elem_of_dom in Hr as [cm Hm]. rewrite Hm; simpl.
    by rewrite (placed_edge _ _ Hp m cm n d c Hm He).
  - intros m n Hr Hr'. apply (placed_dom _ _ Hp), elem_of_dom in Hr as [cm Hm], Hr' as [cn Hn].
    rewrite Hm, Hn; simpl. intros ->. by eapply placed_inj.
Qed.
End placement.

(** ** Components *)
Section components.
Context (adj : Adjacency) (Hwf : adj_wf adj).

Lemma reach_sym m n : rtc (edge_rel adj) m n -> rtc (edge_rel adj) n m.
Proof using Hwf.
  induction 1 as [|x y z Hxy _ IH]; [done|]. eapply rtc_r; [exact IH | by apply adj_sym].
Qed.

Lemma reach_in_dom m n : rtc (edge_rel adj) m n -> m ∈ dom adj -> n ∈ dom adj.
Proof using Hwf. intros Hr Hm. eapply rtc_closed; [|done|done]. intros. by eapply adj_dom. Qed.

(** What a derived component promises. *)
Record component_ok (k : Component) : Prop := {
  co_root : root_instance_id k ∈ dom adj;
  co_members : forall n, n ∈ instance_ids k <-> rtc (edge_rel adj) (root_instance_id k) n;
  co_least : forall n, n ∈ instance_ids k -> rust_leb (root_instance_id k) n = true;
  co_sorted : StronglySorted (fun a b => rust_leb a b = true) (instance_ids k);
  co_placed : exists ids, placed adj (root_instance_id k) (coordinates_cm k) ids
                          /\ forall c, c ∈ connection_ids k <-> c ∈ ids
}.

Definition derive_post {A} (r : result TopologyError A) (Q : A -> Prop) : Prop :=
  match r with
  | Ok a => Q a
  | Err (Bail _) => exists n, n ∈ dom adj /\ forall pos, ~ embeds adj n pos
  | Err Panic => False
  end.

Lemma component_of_spec root :
  root ∈ dom adj -> (forall n, rtc (edge_rel adj) root n -> rust_leb root n = true) ->
  derive_post (component_of adj root) (fun p =>
    p.1 = reachable_instances adj root /\ component_ok p.2 /\ root_instance_id p.2 = root
    /\ instance_ids p.2 = set_iter p.1).
Proof using Hwf.
  intros Hroot Hleast. unfold component_of.
  assert (Hfirst : set_first (reachable_instances adj root) = Some root).
  { destruct (set_first (reachable_instances adj root)) as [x|] eqn:E.
    - apply set_first_some in E as [Hx Hle]. f_equal. apply rust_leb_antisym; [apply Hle, reachable_self|].
      by apply Hleast, reachable_spec.
    - apply set_first_none in E. pose proof (reachable_self adj root). rewrite E in *. set_solver. }
  rewrite Hfirst; simpl. pose proof (place_component_spec adj root Hwf Hroot) as Hp.
  destruct (place_component adj root) as [st|[m|]]; simpl in *; [|by exists root|done].
  split_and!; [done| |done|done]. constructor; simpl; [done| | | |].
  - intros n. by rewrite elem_of_set_iter, reachable_spec.
  - intros n. rewrite elem_of_set_iter, reachable_spec. apply Hleast.
  - apply sort_by_sorted; [apply rust_leb_total | apply rust_leb_trans].
  - exists (conns st). split; [done|]. intros c. apply elem_of_set_iter.
Qed.

(** [remaining] is a union of whole components. *)
Definition closed_set (X : gset string) : Prop := forall m n, m ∈ X -> edge_rel adj m n -> n ∈ X.

Lemma remove_component X root :
  closed_set X -> root ∈ X ->
  reachable_instances adj root ⊆ X /\ closed_set (X ∖ reachable_instances adj root)
  /\ (size (X ∖ reachable_instances adj root) < size X)%nat.
Proof using Hwf.
  intros Hcl Hr. split_and!.
  - intros n Hn. apply reachable_spec in Hn. eapply rtc_closed; [exact Hcl | done | done].
  - intros u v [Hu Hnu]%elem_of_difference He. apply elem_of_difference. split; [by eapply Hcl|].
    intros Hv. apply Hnu. eapply reachable_closed; [done | by apply adj_sym].
  - pose proof (reachable_self adj root). apply subset_size. set_solver.
Qed.

Lemma derive_post_bind {A B} (r : result TopologyError A) (k : A -> result TopologyError B) P Q :
  derive_post r P -> (forall a, P a -> derive_post (k a) Q) -> derive_post (r ≫= k) Q.
Proof. destruct r as [a|[m|]]; simpl; auto. Qed.

(** The components of [X], smallest root first. *)
Record components_of (X : gset string) (ks : list Component) : Prop := {
  cs_ok : Forall component_ok ks;
  cs_partition : concat (map instance_ids ks) ≡ₚ elements X;
  cs_sorted : StronglySorted (fun a b => component_leb a b = true) ks
}.

Lemma components_of_cons X root k ks :
  closed_set X -> root ∈ X -> (forall n, n ∈ X -> rust_leb root n = true) ->
  component_ok k -> root_instance_id k = root -> instance_ids k = set_iter (reachable_instances adj root) ->
  components_of (X ∖ reachable_instances adj root) ks -> components_of X (k :: ks).
Proof using Hwf.
  intros Hcl Hr Hle Hk Hkr Hki [Hok Hpart Hsort].
  destruct (remove_component X root Hcl Hr) as (Hsub & _ & _). constructor.
  - by constructor.
  - simpl. rewrite Hpart, Hki. unfold set_iter. rewrite sort_by_perm, <- elements_disj_union by set_solver.
    by rewrite <- union_difference_L.
  - constructor; [done|]. apply Forall_forall. intros k' Hk'. unfold component_leb. rewrite Hkr. apply Hle.
    rewrite Forall_forall in Hok.
    assert (Hin : root_instance_id k' ∈ concat (map instance_ids ks)).
    { apply list_elem_of_In, in_concat. exists (instance_ids k').
      split; [apply in_map; by apply list_elem_of_In | apply list_elem_of_In, (co_members _ (Hok k' Hk'))]. done. }
    rewrite Hpart in Hin. set_solver.
Qed.

Lemma derive_loop_spec fuel X :
  (size X <= fuel)%nat -> closed_set X -> X ⊆ dom adj ->
  derive_post (derive_loop fuel adj X) (components_of X).
Proof using Hwf.
  revert X. induction fuel as [|fuel IH]; intros X Hf Hcl Hsub.
  { assert (X = ∅) as -> by (apply leibniz_equiv, size_empty_iff; lia).
    constructor; simpl; [constructor | by rewrite elements_empty | constructor]. }
  cbn [derive_loop]. destruct (set_first X) as [root|] eqn:E.
  2: { apply set_first_none in E as ->. constructor; simpl; [constructor | by rewrite elements_empty | constructor]. }
  apply set_first_some in E as [Hr Hle].
  destruct (remove_component X root Hcl Hr) as (HrX & Hcl' & Hlt).
  eapply derive_post_bind; [apply component_of_spec; [by apply Hsub|]|].
  { intros n Hn. apply Hle, HrX. by apply reachable_spec. }
  intros [members k] (Hm & Hk & Hkr & Hki). simpl in *. subst members.
  eapply derive_post_bind; [apply IH; [lia | done | set_solver]|].
  intros ks Hks. by apply (components_of_cons X root).
Qed.

Lemma derive_components_spec :
  derive_post (derive_components adj) (components_of (dom adj)).
Proof using Hwf.
  unfold derive_components. eapply derive_post_bind; [apply derive_loop_spec|].
  - by rewrite size_dom.
  - intros m n _ He. by eapply adj_dom.
  - done.
  - intros ks [Hok Hpart Hsort]. assert (Hp : sort_by component_leb ks ≡ₚ ks) by apply sort_by_perm.
    constructor.
    + by rewrite Hp.
    + rewrite <- Hpart. by rewrite Hp.
    + apply sort_by_sorted; unfold component_leb; intros *; [apply rust_leb_total | apply rust_leb_trans].
Qed.

(** Components exist exactly when every instance can be drawn with what it is
    connected to. *)
Lemma derive_components_complete :
  (forall n, n ∈ dom adj -> exists pos, embeds adj n pos) -> exists ks, derive_components adj = Ok ks.
Proof using Hwf.
  intros Hall. pose proof derive_components_spec as Hd. destruct (derive_components adj) as [ks|[m|]]; [eauto| |done].
  destruct Hd as (n & Hn & Hno). destruct (Hall n Hn) as [pos Hp]. by destruct (Hno pos).
Qed.

Lemma components_embed ks n : components_of (dom adj) ks -> n ∈ dom adj -> exists pos, embeds adj n pos.
Proof using Hwf.
  intros [Hok Hpart _] Hn. assert (Hin : n ∈ concat (map instance_ids ks)) by (rewrite Hpart; set_solver).
  apply list_elem_of_In, in_concat in Hin as (ids & Hids & Hin). apply in_map_iff in Hids as (k & <- & Hk).
  rewrite Forall_forall in Hok. destruct (Hok k) as [_ Hm _ _ (ids & Hp & _)]; [by apply list_elem_of_In|].
  apply list_elem_of_In, Hm in Hin. exists (fun n => default origin (coordinates_cm k !! n)).
  destruct (placed_embeds _ _ _ _ Hp) as [He Hi]. split.
  - intros m n' d c Hr. apply He. by etrans.
  - intros m n' Hr Hr'. apply Hi; by etrans.
Qed.
End components.
