(* ===== verification/DomeTopologyOrder.v ===== *)
(** * The order of connection records

    [ordered_topology_connections] is a permutation of the active records; it does not
    depend on the order in which they arrive, and it respects what the records observed
    whenever the observations have no cycle. *)
From S2P Require Import Prelude RustStr DomeTransition DomeTopology.

Section min_by.
Context {A K} `{RustOrdLaws K} (key : A -> K).
Abbreviation by_key := (fun a b => rust_cmp (key a) (key b)).

Lemma min_by_fold x l m :
  foldl (fun m y => match by_key m y with Gt => y | _ => m end) x l = m ->
  m ∈ x :: l /\ forall y, y ∈ x :: l -> rust_leb (key m) (key y) = true.
Proof.
  revert x. induction l as [|a l IH]; simpl; intros x Hm.
  - subst m. split; [apply list_elem_of_here|]. intros y ->%list_elem_of_singleton. apply rust_leb_refl.
  - destruct (IH _ Hm) as [Hin Hle]. clear IH Hm.
    assert (Hcmp := rust_cmp_opp (key x) (key a)).
    destruct (rust_cmp (key x) (key a)) eqn:E; (split; [set_solver|]);
      intros y [->|[->|Hy]%elem_of_cons]%elem_of_cons; try (apply Hle; set_solver);
      (eapply rust_leb_trans; [apply Hle, list_elem_of_here|]); unfold rust_leb.
    all: rewrite ?E, ?Hcmp; done.
Qed.

Lemma min_by_some l m :
  min_by by_key l = Some m -> m ∈ l /\ forall y, y ∈ l -> rust_leb (key m) (key y) = true.
Proof. destruct l as [|x l]; [done|]. intros [= Hm]. by apply min_by_fold. Qed.

Lemma min_by_none l : min_by by_key l = None -> l = [].
Proof. by destruct l. Qed.
End min_by.

Section order.
Context (digest : Connection -> string).
Abbreviation ordered := (ordered_topology_connections digest).

(** The rank of a record in the source's comparison. *)
Definition order_key (c : Connection) : Z * string * string :=
  (activation_generation (agreement c), digest c, conn_id c).

Lemma order_by_key l r : topology_connection_order digest l r = rust_cmp (order_key l) (order_key r).
Proof.
  unfold topology_connection_order, order_key, rust_cmp, prod_rust_ord; simpl.
  unfold rust_cmp, Z_rust_ord. by destruct (Z.compare _ _).
Qed.

Definition key_le (a b : Connection) : Prop := rust_leb (order_key a) (order_key b) = true.

Lemma elem_of_enumerate {A} (l : list A) i x : (i, x) ∈ enumerate l <-> l !! i = Some x.
Proof.
  unfold enumerate. rewrite elem_of_lookup_imap. split; [by intros (? & ? & [= -> ->] & ?) | eauto].
Qed.

(** Which record a turn takes. *)
Definition chosen (cand em : gset string) (rem : list Connection) (c : Connection) : Prop :=
  (is_ready cand em c = true /\ forall c', c' ∈ rem -> is_ready cand em c' = true -> key_le c c')
  \/ ((forall c', c' ∈ rem -> is_ready cand em c' = false) /\ forall c', c' ∈ rem -> key_le c c').

Lemma pick_spec cand em rem :
  match pick digest cand em rem with
  | Some i => exists c, rem !! i = Some c /\ chosen cand em rem c
  | None => rem = []
  end.
Proof.
  unfold pick.
  set (order := fun a b : nat * Connection => topology_connection_order digest a.2 b.2).
  assert (Ho : forall l, min_by order l = min_by (fun a b => rust_cmp (order_key a.2) (order_key b.2)) l).
  { intros [|x l]; simpl; [done|]. f_equal. revert x. induction l as [|y l IH]; intros x; simpl; [done|].
    unfold order. rewrite order_by_key. by apply IH. }
  rewrite !Ho. destruct (min_by _ (List.filter _ _)) as [[i c]|] eqn:E.
  - apply (min_by_some (fun p : nat * Connection => order_key p.2)) in E as [Hin Hle].
    rewrite list_elem_of_In, filter_In, <- list_elem_of_In, elem_of_enumerate in Hin. destruct Hin as [Hi Hr].
    exists c. split; [done|]. left. split; [done|]. intros c' [j Hj]%list_elem_of_lookup Hr'.
    apply (Hle (j, c')). by rewrite list_elem_of_In, filter_In, <- list_elem_of_In, elem_of_enumerate.
  - apply (min_by_none (fun p : nat * Connection => order_key p.2)) in E.
    assert (Hnone : forall c', c' ∈ rem -> is_ready cand em c' = false).
    { intros c' [j Hj]%list_elem_of_lookup. apply not_true_iff_false. intros Hr.
      assert (Hin : In (j, c') []); [|done]. rewrite <- E.
      by rewrite filter_In, <- list_elem_of_In, elem_of_enumerate. }
    destruct (min_by _ (enumerate rem)) as [[i c]|] eqn:E'; simpl.
    + apply (min_by_some (fun p : nat * Connection => order_key p.2)) in E' as [Hin Hle].
      rewrite elem_of_enumerate in Hin. exists c. split; [done|]. right. split; [done|].
      intros c' [j Hj]%list_elem_of_lookup. apply (Hle (j, c')). by apply elem_of_enumerate.
    + apply (min_by_none (fun p : nat * Connection => order_key p.2)) in E'. destruct rem; [done|].
      unfold enumerate in E'. by rewrite imap_cons in E'.
Qed.

(** One turn of the loop. *)
Lemma order_loop_step fuel cand em rem :
  rem <> [] ->
  exists c rest, rem ≡ₚ c :: rest /\ chosen cand em rem c
    /\ order_loop digest (S fuel) cand em rem = c :: order_loop digest fuel cand (em ∪ {[ conn_id c ]}) rest.
Proof.
  intros Hne. pose proof (pick_spec cand em rem) as Hp. cbn [order_loop].
  destruct (pick digest cand em rem) as [i|]; [|done]. destruct Hp as (c & Hi & Hc). simpl. rewrite Hi; simpl.
  exists c, (delete i rem). split_and!; [by apply delete_Permutation | done | done].
Qed.

Lemma order_loop_nil fuel cand em : order_loop digest fuel cand em [] = [].
Proof. by destruct fuel. Qed.

Lemma order_loop_perm fuel cand em rem :
  (length rem <= fuel)%nat -> order_loop digest fuel cand em rem ≡ₚ rem.
Proof.
  revert em rem. induction fuel as [|fuel IH]; intros em rem Hf; [by destruct rem; simpl in Hf; [|lia]|].
  destruct (decide (rem = [])) as [->|Hne]; [by rewrite order_loop_nil|].
  destruct (order_loop_step fuel cand em rem Hne) as (c & rest & Hp & _ & ->).
  rewrite IH; [done|]. apply Permutation_length in Hp. simpl in Hp. lia.
Qed.

(** Records that compare equal are the same record: the digest has no collision. *)
Definition keys_unique (l : list Connection) : Prop :=
  forall c c', c ∈ l -> c' ∈ l -> order_key c = order_key c' -> c = c'.

Lemma chosen_le cand em rem c c' :
  c ∈ rem -> c' ∈ rem -> chosen cand em rem c -> chosen cand em rem c' -> key_le c c'.
Proof.
  intros Hc Hc' [[Hr Hle]|[_ Hle]] H2; [|by apply Hle]. apply Hle; [done|].
  destruct H2 as [[Hr' _]|[Hn _]]; [done|]. by rewrite Hn in Hr.
Qed.

Lemma chosen_unique cand em rem c c' :
  keys_unique rem -> c ∈ rem -> c' ∈ rem -> chosen cand em rem c -> chosen cand em rem c' -> c = c'.
Proof. intros Hk Hc Hc' H1 H2. apply Hk; [done..|]. apply rust_leb_antisym; by eapply chosen_le. Qed.

Lemma chosen_perm cand em rem rem' c : rem ≡ₚ rem' -> chosen cand em rem c -> chosen cand em rem' c.
Proof. intros Hp. unfold chosen. by setoid_rewrite Hp. Qed.

Lemma order_loop_stable fuel cand em rem rem' :
  keys_unique rem -> rem ≡ₚ rem' -> order_loop digest fuel cand em rem = order_loop digest fuel cand em rem'.
Proof.
  revert em rem rem'. induction fuel as [|fuel IH]; intros em rem rem' Hk Hp; [done|].
  destruct (decide (rem = [])) as [->|Hne].
  { by apply Permutation_nil_l in Hp as ->. }
  assert (Hne' : rem' <> []) by (intros ->; apply Hne; by apply Permutation_nil_r).
  destruct (order_loop_step fuel cand em rem Hne) as (c & rest & Hr & Hc & ->).
  destruct (order_loop_step fuel cand em rem' Hne') as (c' & rest' & Hr' & Hc' & ->).
  assert (c = c') as <-.
  { eapply (chosen_unique cand em rem); [done | rewrite Hr; set_solver | rewrite Hp, Hr'; set_solver | done |].
    by apply (chosen_perm _ _ rem'). }
  f_equal. apply IH.
  - intros x y Hx Hy. apply Hk; rewrite Hr; set_solver.
  - apply (Permutation_cons_inv (a:=c)). by rewrite <- Hr, Hp.
Qed.

(** ** The whole order *)
Abbreviation actives := (List.filter is_topology_active).

Lemma actives_perm (l l' : list Connection) : l ≡ₚ l' -> actives l ≡ₚ actives l'.
Proof. apply filter_bool_perm. Qed.

Lemma ordered_perm l : ordered l ≡ₚ actives l.
Proof. by apply order_loop_perm. Qed.

Lemma elem_of_actives c l : c ∈ actives l <-> c ∈ l /\ is_topology_active c = true.
Proof. apply elem_of_filter_bool. Qed.

Lemma elem_of_ordered c l : c ∈ ordered l <-> c ∈ l /\ is_topology_active c = true.
Proof. by rewrite ordered_perm, elem_of_actives. Qed.

Lemma ordered_stable l l' : keys_unique (actives l) -> actives l ≡ₚ actives l' -> ordered l = ordered l'.
Proof.
  intros Hk Hp. unfold ordered_topology_connections.
  rewrite <- (Permutation_length Hp).
  replace (candidate_ids_of (actives l')) with (candidate_ids_of (actives l)).
  - by apply order_loop_stable.
  - unfold candidate_ids_of. apply leibniz_equiv. intros x. rewrite !elem_of_list_to_set. by rewrite Hp.
Qed.

(** ** Observations *)

(** No record observes, through other candidates, itself: the candidates have ranks. *)
Definition causal_ranks (rank : string -> nat) (l : list Connection) : Prop :=
  forall c id, c ∈ l -> id ∈ observed_active_connection_ids c -> id ∈ map conn_id l -> (rank id < rank (conn_id c))%nat.

Lemma is_ready_true cand em c :
  is_ready cand em c = true <-> forall id, id ∈ observed_active_connection_ids c -> id ∈ cand -> id ∈ em.
Proof.
  unfold is_ready. rewrite forallb_forall. setoid_rewrite <- list_elem_of_In.
  setoid_rewrite list_elem_of_filter. setoid_rewrite bool_decide_eq_true. naive_solver.
Qed.

Lemma least_rank (rank : string -> nat) (l : list Connection) :
  l <> [] -> exists c, c ∈ l /\ forall c', c' ∈ l -> (rank (conn_id c) <= rank (conn_id c'))%nat.
Proof.
  induction l as [|x [|y l] IH]; intros; [done| |].
  - exists x. split; [set_solver|]. intros c' ->%list_elem_of_singleton. lia.
  - destruct IH as (c & Hc & Hle); [done|].
    destruct (decide (rank (conn_id x) <= rank (conn_id c)))%nat.
    + exists x. split; [set_solver|]. intros c' [->|Hc']%elem_of_cons; [lia|]. specialize (Hle c' Hc'). lia.
    + exists c. split; [set_solver|]. intros c' [->|Hc']%elem_of_cons; [lia | by apply Hle].
Qed.

Lemma order_loop_causal fuel rank l cand em rem l1 c l2 :
  causal_ranks rank l -> cand = candidate_ids_of l -> (forall x, x ∈ rem -> x ∈ l) ->
  (forall id, id ∈ cand -> id ∈ em \/ id ∈ map conn_id rem) ->
  order_loop digest fuel cand em rem = (l1 ++ c :: l2)%list ->
  forall id, id ∈ observed_active_connection_ids c -> id ∈ cand -> id ∈ em \/ id ∈ map conn_id l1.
Proof.
  intros Hrank Hcand. revert em rem l1. induction fuel as [|fuel IH]; intros em rem l1 Hsub Hem Ho id Hid Hc;
    [by destruct l1|].
  destruct (decide (rem = [])) as [->|Hne]; [by destruct l1|].
  destruct (order_loop_step fuel cand em rem Hne) as (c0 & rest & Hp & Hch & Eq). rewrite Eq in Ho.
  destruct l1 as [|x l1]; injection Ho as Hx Ho.
  - subst c0. left. destruct Hch as [[Hr _]|[Hn _]]; [by eapply is_ready_true|]. exfalso.
    destruct (least_rank rank rem Hne) as (m & Hm & Hle).
    assert (is_ready cand em m = true) as Hr; [|by rewrite Hn in Hr].
    apply is_ready_true. intros i Hi Hic. destruct (Hem i Hic) as [?|Hrem]; [done|]. exfalso.
    apply list_elem_of_fmap in Hrem as (c' & -> & Hc'). specialize (Hle c' Hc').
    enough (rank (conn_id c') < rank (conn_id m))%nat by lia. apply Hrank; [by apply Hsub | done |].
    subst cand. unfold candidate_ids_of in Hic. by apply elem_of_list_to_set in Hic.
  - subst x. destruct (IH (em ∪ {[ conn_id c0 ]}) rest l1) with (id := id) as [Hin|Hin]; try done.
    + intros y Hy. apply Hsub. rewrite Hp. by apply list_elem_of_further.
    + intros i Hi. destruct (Hem i Hi) as [?|Hr]; [set_solver|]. rewrite Hp in Hr. set_solver.
    + apply elem_of_union in Hin as [?| ->%elem_of_singleton]; [by left | right; set_solver].
    + right. set_solver.
Qed.

Lemma ordered_causal rank l l1 c l2 id :
  causal_ranks rank (actives l) -> ordered l = (l1 ++ c :: l2)%list ->
  id ∈ observed_active_connection_ids c -> id ∈ map conn_id (actives l) -> id ∈ map conn_id l1.
Proof.
  intros Hrank Ho Hid Hc.
  destruct (order_loop_causal (length (actives l)) rank (actives l) (candidate_ids_of (actives l)) ∅ (actives l) l1 c l2
    Hrank eq_refl) with (id := id) as [?|?]; try done.
  - intros i Hi. right. by apply elem_of_list_to_set in Hi.
  - by apply elem_of_list_to_set.
Qed.

(** ** Prefixes of the order are ordered *)
Lemma order_loop_prefix fuel fuel' cand cand1 em rem rem1 l1 l2 :
  keys_unique rem -> cand1 ⊆ cand ->
  (forall c id, c ∈ rem1 -> id ∈ observed_active_connection_ids c -> id ∈ cand -> id ∈ cand1) ->
  rem1 ≡ₚ l1 -> (length l1 <= fuel')%nat -> rem ≡ₚ (l1 ++ l2)%list ->
  order_loop digest fuel cand em rem = (l1 ++ l2)%list -> order_loop digest fuel' cand1 em rem1 = l1.
Proof.
  intros Hk Hsub. revert fuel fuel' em rem rem1 Hk.
  induction l1 as [|c l1 IH]; intros fuel fuel' em rem rem1 Hk Hclosed Hp1 Hf Hp Ho.
  { apply Permutation_nil_r in Hp1 as ->. apply order_loop_nil. }
  destruct fuel as [|fuel]; [done|]. destruct fuel' as [|fuel']; [simpl in Hf; lia|].
  assert (Hne : rem <> []) by (intros ->; by apply Permutation_nil_cons in Hp).
  assert (Hne1 : rem1 <> []) by (intros ->; by apply Permutation_nil_cons in Hp1).
  destruct (order_loop_step fuel cand em rem Hne) as (c0 & rest & Hr & Hc & Eq). rewrite Eq in Ho.
  injection Ho as -> Ho.
  destruct (order_loop_step fuel' cand1 em rem1 Hne1) as (c1 & rest1 & Hr1 & Hc1 & ->).
  assert (Hin : forall x, x ∈ rem1 -> x ∈ rem) by (intros x; rewrite Hp1, Hp; set_solver).
  assert (Hready : forall x, x ∈ rem1 -> is_ready cand1 em x = is_ready cand em x).
  { intros x Hx. apply eq_true_iff_eq. rewrite !is_ready_true. split; intros H id Hid Hcd; apply H; eauto. }
  assert (Hc1in : c1 ∈ rem1) by (rewrite Hr1; set_solver).
  assert (Hcin : c ∈ rem1) by (rewrite Hp1; set_solver).
  assert (c1 = c) as ->.
  { apply (chosen_unique cand1 em rem1); [|done|done|done|].
    - intros x y Hx Hy. apply Hk; auto.
    - destruct Hc as [[Hrd Hle]|[Hn Hle]]; [left | right]; split.
      + by rewrite Hready.
      + intros c' Hc' Hr'. apply Hle; [auto|]. by rewrite <- Hready.
      + intros c' Hc'. rewrite Hready by done. auto.
      + intros c' Hc'. auto. }
  f_equal. apply (IH fuel fuel' _ rest rest1).
  - intros x y Hx Hy. apply Hk; rewrite Hr; set_solver.
  - intros x id Hx. apply Hclosed. rewrite Hr1. set_solver.
  - apply (Permutation_cons_inv (a:=c)). by rewrite <- Hr1.
  - simpl in Hf. lia.
  - apply (Permutation_cons_inv (a:=c)). by rewrite <- Hr, Hp.
  - done.
Qed.

Lemma actives_id l : (forall c, c ∈ l -> is_topology_active c = true) -> actives l = l.
Proof.
  induction l as [|x l IH]; intros Ha; simpl; [done|]. rewrite Ha by set_solver. f_equal. apply IH. set_solver.
Qed.

Lemma ordered_prefix rank l l1 l2 :
  keys_unique (actives l) -> causal_ranks rank (actives l) -> ordered l = (l1 ++ l2)%list -> ordered l1 = l1.
Proof.
  intros Hk Hrank Ho. pose proof (ordered_perm l) as Hp. rewrite Ho in Hp.
  assert (Hact : actives l1 = l1).
  { apply actives_id. intros c Hc. apply (elem_of_ordered c l). rewrite Ho. set_solver. }
  unfold ordered_topology_connections at 1. rewrite Hact.
  eapply (order_loop_prefix (length (actives l)) _ (candidate_ids_of (actives l)) _ ∅ (actives l));
    [done | | | done | done | done | done].
  - intros id. unfold candidate_ids_of. rewrite !elem_of_list_to_set, <- Hp, map_app. set_solver.
  - intros c id Hc Hid Hcand. apply elem_of_list_to_set in Hcand. apply elem_of_list_to_set.
    apply list_elem_of_split in Hc as (a & b & ->). rewrite map_app. apply elem_of_app. left.
    apply (ordered_causal rank l a c (b ++ l2)%list id); [done | | done | done]. by rewrite Ho, <- app_assoc.
Qed.
End order.
