(* ===== verification/DomeTopologyResolve.v ===== *)
(** * Resolution lemmas of the Dome topology

    Which instance lists are accepted, the invariant of the loop that adds the ordered
    records to the graph, and what a resolved topology satisfies. *)
From S2P Require Import Prelude RustStr DomeTransition DomeTopology DomeTopologyGraph DomeTopologyOrder.

(** ** Errors and panics *)

(** [r] does not panic, and its value satisfies [Q]. *)
Definition calm {A} (r : result TopologyError A) (Q : A -> Prop) : Prop :=
  match r with Ok a => Q a | Err (Bail _) => True | Err Panic => False end.

Lemma calm_bind {A B} (r : result TopologyError A) (k : A -> result TopologyError B) P Q :
  calm r P -> (forall a, P a -> calm (k a) Q) -> calm (r ≫= k) Q.
Proof. destruct r as [a|[m|]]; simpl; auto. Qed.

Lemma calm_mono {A} (r : result TopologyError A) (P Q : A -> Prop) : (forall a, P a -> Q a) -> calm r P -> calm r Q.
Proof. destruct r as [a|[m|]]; simpl; auto. Qed.

Lemma calm_check b m : calm (check b m) (fun _ => b = true).
Proof. by destruct b. Qed.

Lemma calm_some {A} m (o : option A) : calm (ok_of_option (Bail m) o) (fun a => o = Some a).
Proof. by destruct o. Qed.

Lemma calm_true {A} (r : result TopologyError A) Q : calm r Q -> calm r (fun _ => True).
Proof. by apply calm_mono. Qed.

#[export] Hint Resolve calm_check calm_some : kukuri.

(** Run through a sequence of checks. *)
Ltac calm_checks :=
  repeat first
    [ eapply calm_bind; [solve [eauto with kukuri]|]; intros ? ?
    | eapply calm_true; solve [eauto with kukuri] ].

Lemma calm_manifest m : calm (validate_dome_instance_manifest m) (fun _ => True).
Proof. unfold validate_dome_instance_manifest. calm_checks. Qed.

Lemma calm_record c : calm (validate_dome_connection_record c) (fun _ => True).
Proof.
  unfold validate_dome_connection_record, validate_unique_ids.
  destruct (conn_status c); calm_checks.
Qed.

(** What the check of an agreement establishes. *)
Definition agreement_ok (ins : gmap string InstanceManifest) (c : Connection) : Prop :=
  let a := agreement c in
  ep_instance (proposer a) ∈ dom ins /\ ep_instance (receiver a) ∈ dom ins
  /\ ep_instance (proposer a) <> ep_instance (receiver a)
  /\ ep_owner (proposer a) <> ep_owner (receiver a)
  /\ ep_direction (receiver a) = opposite_dome_direction (ep_direction (proposer a)).

Lemma calm_agreement ins c pm rm :
  ins !! ep_instance (proposer (agreement c)) = Some pm -> ins !! ep_instance (receiver (agreement c)) = Some rm ->
  calm (validate_dome_connection_agreement (agreement c) pm rm) (fun _ => agreement_ok ins c).
Proof.
  intros Hp Hr. unfold validate_dome_connection_agreement, validate_endpoint_pair, validate_dome_relationship_scope.
  calm_checks.
  eapply calm_bind; [calm_checks|]. intros ? ?.
  eapply calm_bind; [apply calm_check|]. intros ? H1. cbv beta in H1.
  eapply calm_bind; [apply calm_check|]. intros ? H2. cbv beta in H2.
  eapply calm_mono; [|apply calm_check]. intros ? H3. cbv beta in H3.
  unfold endpoint_matches in H1. destruct_bools.
  split_and!; [by eapply elem_of_dom_2 | by eapply elem_of_dom_2 | congruence | congruence | done].
Qed.

(** ** Instances *)
Definition manifest_ok (ctx : SpatialContext) (i : InstanceManifest) : Prop :=
  is_ok (validate_dome_instance_manifest i) = true /\ attached i = true /\ im_context i = ctx.

(** The instances of a topology: distinct, valid, active, attached, in one context. *)
Definition instances_ok (ctx : SpatialContext) (is_ : list InstanceManifest) : Prop :=
  is_ <> [] /\ Forall (manifest_ok ctx) is_ /\ NoDup (map im_id is_).

Definition index_instances (is_ : list InstanceManifest) : gmap string InstanceManifest :=
  list_to_map (map (fun i => (im_id i, i)) is_).

Lemma collect_instance_ok m octx i st :
  collect_instance {| instance_by_id := m; collected_context := octx |} i = Ok st <->
  manifest_ok (im_context i) i /\ (octx = None \/ octx = Some (im_context i)) /\ m !! im_id i = None
  /\ st = {| instance_by_id := <[im_id i := i]> m; collected_context := Some (im_context i) |}.
Proof.
  unfold collect_instance, manifest_ok, check, ensure; simpl. split.
  - intros H. destruct (validate_dome_instance_manifest i); [|done]. simpl in *. destruct (attached i); [|done].
    simpl in *. destruct octx as [c|]; simpl in H; repeat case_bool_decide; simplify_eq/=; auto.
  - intros ((Hv & Ha & _) & Hc & Hm & ->).
    destruct (validate_dome_instance_manifest i); [|done]. simpl. rewrite Ha; simpl.
    destruct Hc as [->| ->]; simpl; rewrite ?bool_decide_true by done; simpl; rewrite ?bool_decide_true by done; done.
Qed.

Lemma index_cons_union i is_ m :
  im_id i ∉ map im_id is_ -> index_instances is_ ∪ <[im_id i := i]> m = index_instances (i :: is_) ∪ m.
Proof.
  intros Hni. unfold index_instances at 2; simpl. fold (index_instances is_).
  rewrite <- insert_union_l. symmetry. apply insert_union_r, not_elem_of_list_to_map.
  by rewrite <- list_fmap_compose.
Qed.

Lemma collect_loop_ok ctx m is_ st :
  collect_loop {| instance_by_id := m; collected_context := Some ctx |} is_ = Ok st <->
  Forall (manifest_ok ctx) is_ /\ NoDup (map im_id is_) /\ (forall i, i ∈ is_ -> m !! im_id i = None)
  /\ st = {| instance_by_id := index_instances is_ ∪ m; collected_context := Some ctx |}.
Proof.
  revert m. induction is_ as [|i is_ IH]; intros m; simpl.
  { unfold index_instances; simpl. rewrite map_empty_union. split.
    - intros [= <-]. split_and!; [constructor | constructor | set_solver | done].
    - by intros (_ & _ & _ & ->). }
  rewrite Forall_cons, NoDup_cons. split.
  - intros (st' & Hi & Hl)%result_bind_ok. apply collect_instance_ok in Hi as (Hok & [?|[= ->]] & Hm & ->); [done|].
    apply IH in Hl as (Hall & Hnd & Hfresh & ->).
    assert (Hni : im_id i ∉ map im_id is_).
    { intros (j & Hj & Hin)%list_elem_of_fmap. specialize (Hfresh j Hin). rewrite Hj, lookup_insert_eq in Hfresh. done. }
    split_and!; [done..| |].
    + intros j [->|Hj]%elem_of_cons; [done|]. specialize (Hfresh j Hj). by apply lookup_insert_None in Hfresh as [? _].
    + f_equal. by apply index_cons_union.
  - intros ((Hok & Hall) & (Hni & Hnd) & Hfresh & ->).
    rewrite (proj2 (collect_instance_ok m (Some ctx) i
      {| instance_by_id := <[im_id i := i]> m; collected_context := Some ctx |})); [simpl|].
    + apply IH. split_and!; [done | done | |].
      * intros j Hj. rewrite lookup_insert_ne; [by apply Hfresh, list_elem_of_further|].
        intros Heq. apply Hni. rewrite Heq. apply list_elem_of_fmap. eauto.
      * f_equal. symmetry. by apply index_cons_union.
    + destruct Hok as (? & ? & <-). split_and!; [done | by right | by apply Hfresh, list_elem_of_here | done].
Qed.

Lemma collect_instances_ok is_ ins ctx :
  collect_instances is_ = Ok (ins, ctx) <-> instances_ok ctx is_ /\ ins = index_instances is_.
Proof.
  unfold collect_instances, instances_ok. destruct is_ as [|i is_]; simpl; [split; [done | by intros [[? _] _]]|].
  split.
  - intros (st & H & Hc)%result_bind_ok. apply result_bind_ok in H as (st' & Hi & Hl).
    apply collect_instance_ok in Hi as (Hok & _ & Hm & ->).
    pose proof (proj1 (collect_loop_ok _ _ _ _) Hl) as (Hall & Hnd & Hfresh & ->). simpl in Hc. simplify_eq/=.
    assert (Hni : im_id i ∉ map im_id is_).
    { intros (j & Hj & Hin)%list_elem_of_fmap. specialize (Hfresh j Hin). rewrite Hj, lookup_insert_eq in Hfresh. done. }
    split; [split_and!; [done | by constructor | by constructor]|].
    rewrite (index_cons_union i is_ ∅ Hni). apply map_union_empty.
  - intros ((_ & Hall & Hnd) & ->). apply Forall_cons in Hall as [Hok Hall]. apply NoDup_cons in Hnd as [Hni Hnd].
    rewrite (proj2 (collect_instance_ok ∅ None i
      {| instance_by_id := {[ im_id i := i ]}; collected_context := Some ctx |})); simpl.
    + assert (Hf : forall j, j ∈ is_ -> ({[ im_id i := i ]} : gmap string InstanceManifest) !! im_id j = None).
      { intros j Hj. apply lookup_singleton_None. intros Heq. apply Hni. rewrite Heq. apply list_elem_of_fmap. eauto. }
      rewrite (proj2 (collect_loop_ok ctx _ is_ _) (conj Hall (conj Hnd (conj Hf eq_refl)))); simpl.
      f_equal. f_equal. rewrite <- insert_empty, (index_cons_union i is_ ∅ Hni). by rewrite map_union_empty.
    + destruct Hok as (? & ? & <-). split_and!; [done | by left | done | by rewrite insert_empty].
Qed.

Lemma instances_ok_perm ctx is_ is' : is_ ≡ₚ is' -> instances_ok ctx is_ -> instances_ok ctx is'.
Proof.
  intros Hp (Hne & Hall & Hnd). split_and!.
  - intros ->. apply Hne. by apply Permutation_nil_r.
  - by rewrite <- Hp.
  - by rewrite <- Hp.
Qed.

Lemma index_instances_perm is_ is' : NoDup (map im_id is_) -> is_ ≡ₚ is' -> index_instances is_ = index_instances is'.
Proof.
  intros Hnd Hp. apply list_to_map_proper; [by rewrite <- list_fmap_compose | by rewrite Hp].
Qed.

Lemma dom_index_instances is_ : dom (index_instances is_) = list_to_set (map im_id is_).
Proof. unfold index_instances. rewrite dom_list_to_map_L, <- list_fmap_compose. done. Qed.

(** ** The graph of a list of records *)
Definition proposer_of (c : Connection) : string := ep_instance (proposer (agreement c)).
Definition receiver_of (c : Connection) : string := ep_instance (receiver (agreement c)).

(** [c] has an opening of [m] in direction [d] towards [n]. *)
Definition opens (c : Connection) (m : string) (d : DomeDirection) (n : string) : Prop :=
  (m = proposer_of c /\ n = receiver_of c /\ d = ep_direction (proposer (agreement c)))
  \/ (m = receiver_of c /\ n = proposer_of c /\ d = ep_direction (receiver (agreement c))).

Definition links (cs : list Connection) (m n : string) : Prop := exists c d, c ∈ cs /\ opens c m d n.

(** Each record joins two instances that the records before it leave unconnected. *)
Inductive forest : list Connection -> Prop :=
| forest_nil : forest []
| forest_snoc cs c : forest cs -> ~ rtc (links cs) (proposer_of c) (receiver_of c) -> forest (cs ++ [c]).

Record graph_inv (ins : gmap string InstanceManifest) (cs : list Connection) (g : Graph) : Prop := {
  gi_dom : dom (adjacency g) = dom ins;
  gi_edges : forall m n d id, (n, d, id) ∈ edges_of (adjacency g) m <-> exists c, c ∈ cs /\ opens c m d n /\ id = conn_id c;
  gi_agreements : forall c, c ∈ cs -> agreement_ok ins c;
  gi_seen : forall id, id ∈ seen g <-> id ∈ map conn_id cs;
  gi_slots : forall m d, (m, d) ∈ slots g <-> exists c n, c ∈ cs /\ opens c m d n;
  gi_ids : NoDup (map conn_id cs);
  gi_unique : forall c c' m d n n', c ∈ cs -> c' ∈ cs -> opens c m d n -> opens c' m d n' -> c = c';
  gi_forest : forest cs
}.

Lemma opens_sym c m d n : opens c m d n -> exists d', opens c n d' m.
Proof. intros [(-> & -> & ->)|(-> & -> & ->)]; eexists; [right | left]; eauto. Qed.

Lemma links_sym cs m n : links cs m n -> links cs n m.
Proof. intros (c & d & Hc & [d' Ho]%opens_sym). by exists c, d'. Qed.

Lemma edge_rel_links ins cs g m n : graph_inv ins cs g -> edge_rel (adjacency g) m n <-> links cs m n.
Proof.
  intros Hg. rewrite edge_rel_iff. setoid_rewrite (gi_edges _ _ _ Hg). unfold links. split.
  - intros (d & id & c & Hc & Ho & _). eauto.
  - intros (c & d & Hc & Ho). exists d, (conn_id c). eauto.
Qed.

Lemma graph_inv_wf ins cs g : graph_inv ins cs g -> adj_wf (adjacency g).
Proof.
  intros Hg. split; intros m n.
  - rewrite !(edge_rel_links ins cs g) by done. apply links_sym.
  - rewrite (edge_rel_links ins cs g) by done. rewrite (gi_dom _ _ _ Hg).
    intros (c & d & (Hp & Hr & _)%(gi_agreements _ _ _ Hg) & [(_ & -> & _)|(_ & -> & _)]); done.
Qed.

Lemma initial_graph_inv ins : graph_inv ins [] (initial_graph ins).
Proof.
  constructor; simpl; try (clear; set_solver).
  - intros m n d id. unfold edges_of. rewrite lookup_fmap. destruct (ins !! m); simpl; clear; set_solver.
  - constructor.
  - constructor.
Qed.

Lemma edges_of_push adj m n e es :
  adj !! n = Some es -> edges_of (<[n := (es ++ [e])%list]> adj) m = (edges_of adj m ++ if decide (m = n) then [e] else [])%list.
Proof.
  intros Hn. unfold edges_of. destruct (decide (m = n)) as [->|Hne].
  - by rewrite lookup_insert_eq, Hn.
  - by rewrite lookup_insert_ne, app_nil_r by done.
Qed.

(** [push_edge] finds the instance. *)
Lemma calm_push n e adj :
  n ∈ dom adj -> calm (push_edge n e adj) (fun adj' => dom adj' = dom adj
    /\ forall m, edges_of adj' m = (edges_of adj m ++ if decide (m = n) then [e] else [])%list).
Proof.
  intros [es Hn]%elem_of_dom. unfold push_edge. rewrite Hn; simpl. split.
  - apply elem_of_dom_2 in Hn. rewrite dom_insert_L. set_solver.
  - intros m. by apply edges_of_push.
Qed.

(** Adding one record to the graph. *)
Lemma graph_inv_add ins cs g c adj' :
  graph_inv ins cs g -> agreement_ok ins c -> conn_id c ∉ seen g ->
  (proposer_of c, ep_direction (proposer (agreement c))) ∉ slots g ->
  (receiver_of c, ep_direction (receiver (agreement c))) ∉ slots g ->
  receiver_of c ∉ reachable_instances (adjacency g) (proposer_of c) ->
  dom adj' = dom (adjacency g) ->
  (forall m e, e ∈ edges_of adj' m <-> e ∈ edges_of (adjacency g) m
     \/ (m = proposer_of c /\ e = (receiver_of c, ep_direction (proposer (agreement c)), conn_id c))
     \/ (m = receiver_of c /\ e = (proposer_of c, ep_direction (receiver (agreement c)), conn_id c))) ->
  graph_inv ins (cs ++ [c])
    {| seen := seen g ∪ {[ conn_id c ]};
       slots := slots g ∪ {[ (proposer_of c, ep_direction (proposer (agreement c))) ]}
                        ∪ {[ (receiver_of c, ep_direction (receiver (agreement c))) ]};
       adjacency := adj' |}.
Proof.
  intros Hg Hag Hid Hps Hrs Hreach Hdom Hedges.
  assert (Hnew : forall m d n, opens c m d n -> (m, d) ∉ slots g).
  { intros m d n [(-> & _ & ->)|(-> & _ & ->)]; done. }
  assert (Hself : forall m d n n', opens c m d n -> forall c', c' ∈ cs -> ~ opens c' m d n').
  { intros m d n n' Ho c' Hc' Ho'. apply (Hnew m d n Ho), (gi_slots _ _ _ Hg). eauto. }
  constructor; simpl.
  - by rewrite Hdom, (gi_dom _ _ _ Hg).
  - intros m n d id. rewrite Hedges, (gi_edges _ _ _ Hg). setoid_rewrite elem_of_app.
    setoid_rewrite list_elem_of_singleton. unfold opens at 2. split.
    + intros [(k & ? & ? & ?)|[(-> & [= -> -> ->])|(-> & [= -> -> ->])]]; eauto 10.
    + intros (k & [?| ->] & [(? & ? & ?)|(? & ? & ?)] & ?); subst; [left; exists k; split_and!; auto; by left
        | left; exists k; split_and!; auto; by right | auto | auto].
  - intros k [?| ->%list_elem_of_singleton]%elem_of_app; [by apply (gi_agreements _ _ _ Hg) | done].
  - intros id. rewrite map_app, elem_of_app, elem_of_union, (gi_seen _ _ _ Hg), elem_of_singleton.
    simpl. by rewrite list_elem_of_singleton.
  - intros m d. rewrite !elem_of_union, !elem_of_singleton, (gi_slots _ _ _ Hg). setoid_rewrite elem_of_app.
    setoid_rewrite list_elem_of_singleton. split.
    + intros [[(k & n & ? & ?)|[= -> ->]]|[= -> ->]]; [eauto|..];
        exists c; eexists; (split; [by right|]); [left | right]; eauto.
    + intros (k & n & [?| ->] & Ho); [left; left; eauto|].
      destruct Ho as [(-> & _ & ->)|(-> & _ & ->)]; [left; by right | by right].
  - rewrite map_app. apply NoDup_app. split_and!; [apply Hg | | apply NoDup_singleton].
    intros id Hin ->%list_elem_of_singleton. apply Hid. by apply (gi_seen _ _ _ Hg).
  - intros k k' m d n n'. rewrite !elem_of_app, !list_elem_of_singleton.
    intros [Hk| ->] [Hk'| ->] Ho Ho'; [by eapply (gi_unique _ _ _ Hg) | | | done].
    + by destruct (Hself m d n' n Ho' k Hk).
    + by destruct (Hself m d n n' Ho k' Hk').
  - constructor; [apply Hg|]. intros Hr. apply Hreach, reachable_spec.
    eapply rtc_subrel; [|exact Hr]. intros x y Hxy. by apply (edge_rel_links ins cs g).
Qed.

(** ** The loop over the records *)
Lemma calm_occupy s p r :
  calm (occupy s p r) (fun s' => (p ∉ s) /\ (r ∉ s) /\ s' = s ∪ {[ p ]} ∪ {[ r ]}).
Proof.
  unfold occupy. eapply calm_bind; [apply calm_check|]. intros ? H. cbv beta in H. destruct_bools. simpl.
  split_and!; [done | set_solver | done].
Qed.

Lemma add_connection_inv ins cs g c :
  graph_inv ins cs g -> calm (add_connection ins g c) (fun g' =>
    graph_inv ins (cs ++ [c]) g' /\ exists ks, derive_components (adjacency g') = Ok ks).
Proof.
  intros Hg. unfold add_connection.
  eapply calm_bind; [apply calm_record|]. intros ? _.
  eapply calm_bind; [apply calm_check|]. intros ? Hid. cbv beta in Hid. destruct_bools.
  eapply calm_bind; [apply calm_some|]. intros pm Hpm. cbv beta in Hpm.
  eapply calm_bind; [apply calm_some|]. intros rm Hrm. cbv beta in Hrm.
  eapply calm_bind; [by apply calm_agreement|]. intros ? Hag. cbv beta in Hag.
  eapply calm_bind; [apply calm_occupy|]. intros slots' (Hps & Hrs & ->).
  eapply calm_bind; [apply calm_check|]. intros ? Hcyc. cbv beta in Hcyc. destruct_bools.
  eapply calm_bind; [apply calm_check|]. intros ? _.
  pose proof (gi_dom _ _ _ Hg) as Hdom.
  eapply calm_bind; [apply calm_push; rewrite Hdom; by eapply elem_of_dom_2|]. intros adj1 [Hd1 He1].
  eapply calm_bind; [apply calm_push; rewrite Hd1, Hdom; by eapply elem_of_dom_2|]. intros adj2 [Hd2 He2].
  assert (Hinv : graph_inv ins (cs ++ [c])
    {| seen := seen g ∪ {[ conn_id c ]};
       slots := slots g ∪ {[ (proposer_of c, ep_direction (proposer (agreement c))) ]}
                        ∪ {[ (receiver_of c, ep_direction (receiver (agreement c))) ]};
       adjacency := adj2 |}).
  { apply graph_inv_add; try done; [by rewrite Hd2|]. intros m e. rewrite He2, He1, !elem_of_app.
    unfold proposer_of, receiver_of, conn_id. repeat case_decide; set_solver. }
  pose proof (derive_components_spec adj2 (graph_inv_wf _ _ _ Hinv)) as Hder.
  destruct (derive_components adj2) as [ks|[m|]] eqn:E; simpl; [|done|done]. split; [exact Hinv | eauto].
Qed.

Lemma add_connections_inv ins cs g l :
  graph_inv ins cs g -> (exists ks, derive_components (adjacency g) = Ok ks) ->
  calm (add_connections ins g l) (fun g' =>
    graph_inv ins (cs ++ l) g' /\ exists ks, derive_components (adjacency g') = Ok ks).
Proof.
  revert cs g. induction l as [|c l IH]; intros cs g Hg Hk; simpl; [by rewrite app_nil_r|].
  eapply calm_bind; [by apply add_connection_inv|]. intros g' [Hg' Hk'].
  replace (cs ++ c :: l)%list with ((cs ++ [c]) ++ l)%list by (by rewrite <- app_assoc). by apply IH.
Qed.

(** Without connections every instance is a component of its own. *)
Lemma initial_derives ins : exists ks, derive_components (adjacency (initial_graph ins)) = Ok ks.
Proof.
  pose proof (initial_graph_inv ins) as Hg. apply derive_components_complete; [by eapply graph_inv_wf|].
  intros n _. exists (fun _ => origin).
  assert (Hno : forall x y, ~ edge_rel (adjacency (initial_graph ins)) x y).
  { intros x y Hxy. apply (edge_rel_links ins [] _ x y Hg) in Hxy as (c & d & Hc & _). set_solver. }
  split.
  - intros m n' d c _ He. destruct (Hno m n'). by eapply edge_rel_intro.
  - intros x y Hx Hy _. apply rtc_inv in Hx as [<-|(? & Hx & _)]; [|by destruct (Hno _ _ Hx)].
    apply rtc_inv in Hy as [<-|(? & Hy & _)]; [done | by destruct (Hno _ _ Hy)].
Qed.

(** ** The specification of a topology *)
Section topology_spec.
Context (is_ : list InstanceManifest) (act : list Connection).

(** A component: the instances connected to its root, drawn on the grid. *)
Record component_correct (k : Component) : Prop := {
  cc_least : forall n, n ∈ instance_ids k -> rust_leb (root_instance_id k) n = true;
  cc_members : forall n, n ∈ instance_ids k <-> rtc (links act) (root_instance_id k) n;
  cc_coords : forall n, n ∈ dom (coordinates_cm k) <-> n ∈ instance_ids k;
  cc_origin : coordinates_cm k !! root_instance_id k = Some origin;
  cc_apart : forall m n p, coordinates_cm k !! m = Some p -> coordinates_cm k !! n = Some p -> m = n;
  cc_adjacent : forall c m d n p, c ∈ act -> opens c m d n -> coordinates_cm k !! m = Some p ->
    coordinates_cm k !! n = Some (vec_add p (direction_offset_cm d));
  cc_connections : forall id, id ∈ connection_ids k <->
    exists c, c ∈ act /\ conn_id c = id /\ proposer_of c ∈ instance_ids k
}.

(** A topology: components that partition the instances. *)
Record topology_correct (t : Topology) : Prop := {
  tc_partition : concat (map instance_ids (components t)) ≡ₚ map im_id is_;
  tc_components : Forall component_correct (components t);
  tc_context : forall i, i ∈ is_ -> im_context i = topo_context t;
  tc_active : active_connection_ids t ≡ₚ map conn_id act;
  tc_ends : forall c, c ∈ act -> agreement_ok (index_instances is_) c
}.
End topology_spec.

Lemma component_ok_correct ins act g k :
  graph_inv ins act g -> component_ok (adjacency g) k -> component_correct act k.
Proof.
  intros Hg Hk. pose proof (graph_inv_wf _ _ _ Hg) as Hwf. destruct Hk as [Hr Hm Hle _ (ids & Hp & Hids)].
  assert (Hlk : forall m n, rtc (edge_rel (adjacency g)) m n <-> rtc (links act) m n).
  { intros m n. split; apply rtc_subrel; intros x y Hxy; by apply (edge_rel_links ins act g). }
  assert (He : forall c m d n, c ∈ act -> opens c m d n -> (n, d, conn_id c) ∈ edges_of (adjacency g) m).
  { intros. apply (gi_edges _ _ _ Hg). eauto. }
  constructor; [done | | | apply Hp | apply Hp | |].
  - intros n. by rewrite Hm.
  - intros n. by rewrite (placed_dom _ _ _ _ Hp), Hm.
  - intros c m d n p Hc Ho Hmp. eapply placed_edge; [done | done | by apply He].
  - intros id. rewrite Hids, (placed_conns _ _ _ _ Hp). setoid_rewrite Hm. split.
    + intros (m & n & d & Hreach & (c & Hc & Ho & ->)%(gi_edges _ _ _ Hg)). exists c. split_and!; [done | done |].
      destruct Ho as [(-> & _ & _)|(-> & -> & ->)]; [done|]. eapply rtc_r; [exact Hreach|].
      apply edge_rel_intro with (d := ep_direction (receiver (agreement c))) (c := conn_id c). apply He; [done|]. by right.
    + intros (c & Hc & <- & Hreach). exists (proposer_of c), (receiver_of c), (ep_direction (proposer (agreement c))).
      split; [done|]. apply He; [done|]. by left.
Qed.

Lemma topology_of_graph is_ ctx act g ks dig :
  instances_ok ctx is_ -> graph_inv (index_instances is_) act g -> derive_components (adjacency g) = Ok ks ->
  topology_correct is_ act {| topo_context := ctx; components := ks; active_connection_ids := set_iter (seen g);
                              topology_digest_of := dig |}.
Proof.
  intros (_ & Hall & Hnd) Hg Ek. pose proof (derive_components_spec _ (graph_inv_wf _ _ _ Hg)) as Hd.
  rewrite Ek in Hd. destruct Hd as [Hok Hpart _]. constructor; simpl.
  - rewrite Hpart, (gi_dom _ _ _ Hg), dom_index_instances. by apply elements_list_to_set.
  - eapply Forall_impl; [exact Hok|]. intros k Hk. by eapply component_ok_correct.
  - intros i Hi. rewrite Forall_forall in Hall. by apply Hall.
  - apply NoDup_Permutation; [apply NoDup_set_iter | apply Hg|].
    intros id. by rewrite elem_of_set_iter, (gi_seen _ _ _ Hg).
  - apply Hg.
Qed.

(** ** Forests *)
Lemma rtc_links_snoc l c x y :
  rtc (links (l ++ [c])) x y ->
  rtc (links l) x y
  \/ (rtc (links l) x (proposer_of c) /\ rtc (links l) (receiver_of c) y)
  \/ (rtc (links l) x (receiver_of c) /\ rtc (links l) (proposer_of c) y).
Proof.
  induction 1 as [x|x x' y (k & d & Hk & Ho) _ IH]; [by left|].
  apply elem_of_app in Hk as [Hk| ->%list_elem_of_singleton].
  - assert (Hl : links l x x') by (exists k, d; eauto).
    destruct IH as [?|[[? ?]|[? ?]]]; [left | right; left | right; right]; eauto using rtc_l.
  - destruct Ho as [(-> & -> & _)|(-> & -> & _)].
    + destruct IH as [?|[[? ?]|[? ?]]]; [right; left; by split | right; left; by split | by left].
    + destruct IH as [?|[[? ?]|[? ?]]]; [right; right; by split | by left | right; right; by split].
Qed.

Lemma links_mono l l' x y : (forall c, c ∈ l -> c ∈ l') -> rtc (links l) x y -> rtc (links l') x y.
Proof. intros Hsub. apply rtc_subrel. intros u v (c & d & Hc & Ho). exists c, d. auto. Qed.

Lemma rtc_links_sym l x y : rtc (links l) x y -> rtc (links l) y x.
Proof. induction 1 as [|? ? ? Hl _ IH]; [done|]. eapply rtc_r; [exact IH | by apply links_sym]. Qed.

Lemma links_end cs c : c ∈ cs -> rtc (links cs) (proposer_of c) (receiver_of c).
Proof. intros Hc. apply rtc_once. exists c. eexists. split; [done|]. left. eauto. Qed.

(** Every connection of a forest is a bridge. *)
Lemma forest_bridge cs c :
  forest cs -> NoDup cs -> c ∈ cs -> ~ rtc (links (filter (fun k => k <> c) cs)) (proposer_of c) (receiver_of c).
Proof.
  induction 1 as [|cs c0 Hf IH Hno]; intros Hnd Hc Hpath; [set_solver|].
  apply NoDup_app in Hnd as (Hnd & Hdisj & _). rewrite filter_app in Hpath.
  assert (Hc0 : c0 ∉ cs) by (intros Hin; eapply Hdisj; [done | apply list_elem_of_here]).
  apply elem_of_app in Hc as [Hc| ->%list_elem_of_singleton].
  - assert (c0 <> c) by congruence. rewrite (filter_cons_True _ c0 []) in Hpath by done.
    assert (Hsub : forall k, k ∈ filter (fun k => k <> c) cs -> k ∈ cs) by (intros k [_ ?]%list_elem_of_filter; done).
    pose proof (rtc_links_sym _ _ _ (links_end cs c Hc)) as Hback.
    apply rtc_links_snoc in Hpath as [Hp|[[H1 H2]|[H1 H2]]]; [by apply IH| |];
      apply (links_mono _ cs) in H1, H2; try done; apply Hno.
    + etrans; [by apply rtc_links_sym|]. etrans; [by apply links_end|]. by apply rtc_links_sym.
    + etrans; [exact H2|]. etrans; [exact Hback | exact H1].
  - rewrite (filter_cons_False _ c0 []) in Hpath by (intros Hne; by apply Hne).
    apply Hno. eapply links_mono; [|exact Hpath]. intros k. rewrite elem_of_app, list_elem_of_filter. set_solver.
Qed.

(** ** The whole resolution *)
Section resolve.
Context (digest : Connection -> string) (tdigest : SpatialContext -> list Component -> list string -> string).
Abbreviation resolve := (resolve_dome_topology digest tdigest).
Abbreviation candidates := (resolve_dome_topology_candidates digest tdigest).
Abbreviation ordered := (ordered_topology_connections digest).
Abbreviation actives := (List.filter is_topology_active).

Lemma calm_collect is_ : calm (collect_instances is_) (fun p => instances_ok p.2 is_ /\ p.1 = index_instances is_).
Proof.
  destruct (collect_instances is_) as [[ins ctx]|[m|]] eqn:E; simpl; [by apply collect_instances_ok | done |].
  exfalso. revert E. unfold collect_instances. generalize {| instance_by_id := ∅; collected_context := None |}.
  induction is_ as [|i is_ IH]; intros st; simpl; [by destruct (collected_context st)|].
  assert (Hc : calm (collect_instance st i) (fun _ => True)).
  { unfold collect_instance. eapply calm_bind; [apply calm_manifest|]. intros ? _.
    eapply calm_bind; [apply calm_check|]. intros ? _. apply (calm_bind _ _ (fun _ => True)).
    - destruct (collected_context st); [|exact I]. eapply calm_bind; [apply calm_check|]. by intros.
    - intros ? _. eapply calm_bind; [apply calm_check|]. by intros. }
  destruct (collect_instance st i) as [st'|[m|]]; simpl in *; [apply IH | done | done].
Qed.

(** A resolution with its graph. *)
Lemma resolve_spec is_ cs :
  calm (resolve is_ cs) (fun t => exists ctx g ks,
    instances_ok ctx is_ /\ graph_inv (index_instances is_) (ordered cs) g /\ derive_components (adjacency g) = Ok ks
    /\ t = {| topo_context := ctx; components := ks; active_connection_ids := set_iter (seen g);
              topology_digest_of := tdigest ctx ks (set_iter (seen g)) |}).
Proof.
  unfold resolve_dome_topology. eapply calm_bind; [apply calm_collect|]. intros [ins ctx] [Hok Hins]. simpl in *. subst ins.
  eapply calm_bind; [apply (add_connections_inv _ []); [apply initial_graph_inv | apply initial_derives]|].
  intros g [Hg [ks Hk]]. simpl in Hg. rewrite Hk; simpl. by exists ctx, g, ks.
Qed.

Lemma resolve_same_instances is_ is' cs t :
  is_ ≡ₚ is' -> resolve is_ cs = Ok t -> resolve is' cs = Ok t.
Proof.
  intros Hp. unfold resolve_dome_topology. intros ([ins ctx] & Hc & Hrest)%result_bind_ok.
  apply collect_instances_ok in Hc as [Hok ->].
  rewrite (proj2 (collect_instances_ok is' (index_instances is_) ctx)); [exact Hrest|].
  split; [by eapply instances_ok_perm | apply index_instances_perm; [apply Hok | done]].
Qed.

(** With valid instances, resolution looks at the ordered records only. *)
Lemma resolve_ordered is_ cs cs' : ordered cs = ordered cs' -> resolve is_ cs = resolve is_ cs'.
Proof. unfold resolve_dome_topology. by intros ->. Qed.

Lemma add_connections_app ins g l l' :
  add_connections ins g (l ++ l') = (g' ← add_connections ins g l; add_connections ins g' l').
Proof.
  revert g. induction l as [|c l IH]; intros g; simpl; [done|].
  destruct (add_connection ins g c) as [g'|e]; simpl; [apply IH | done].
Qed.

(** A prefix of the ordered records of a resolvable list is resolvable. *)
Lemma resolve_prefix is_ cs l1 l2 t :
  ordered cs = (l1 ++ l2)%list -> ordered l1 = l1 -> resolve is_ cs = Ok t -> exists t1, resolve is_ l1 = Ok t1.
Proof.
  intros Ho H1. unfold resolve_dome_topology. rewrite Ho, H1.
  intros ([ins ctx] & Hc & Hrest)%result_bind_ok. rewrite Hc; simpl.
  apply result_bind_ok in Hrest as (g & Hg & _). rewrite add_connections_app in Hg.
  apply result_bind_ok in Hg as (g1 & Hg1 & _). rewrite Hg1; simpl.
  pose proof (add_connections_inv ins [] (initial_graph ins) l1 (initial_graph_inv _) (initial_derives _)) as Hi.
  rewrite Hg1 in Hi. destruct Hi as [_ [ks ->]]; simpl. eauto.
Qed.

Lemma resolve_no_records is_ ctx : instances_ok ctx is_ -> exists t, resolve is_ [] = Ok t.
Proof.
  intros Hok. unfold resolve_dome_topology.
  rewrite (proj2 (collect_instances_ok is_ (index_instances is_) ctx)) by done. simpl.
  destruct (initial_derives (index_instances is_)) as [ks Hk]. simpl in Hk. rewrite Hk; simpl. eauto.
Qed.

Lemma resolve_instances is_ cs t : resolve is_ cs = Ok t -> exists ctx, instances_ok ctx is_.
Proof. intros E. pose proof (resolve_spec is_ cs) as Hs. rewrite E in Hs. destruct Hs as (ctx & ? & ? & ? & _). eauto. Qed.

Lemma resolve_instances_eq is_ is' ctx cs :
  is_ ≡ₚ is' -> instances_ok ctx is_ -> resolve is_ cs = resolve is' cs.
Proof.
  intros Hp Hok. unfold resolve_dome_topology.
  rewrite (proj2 (collect_instances_ok is_ (index_instances is_) ctx)) by done.
  by rewrite (proj2 (collect_instances_ok is' (index_instances is_) ctx))
    by (split; [by eapply instances_ok_perm | apply index_instances_perm; [apply Hok | done]]).
Qed.

(** ** Candidates *)

(** Why a candidate was refused: it did not fit what was accepted before it. *)
Definition refused_for (is_ : list InstanceManifest) (accepted : list Connection) (cands : list Connection) (r : Rejected) : Prop :=
  exists c prior later, c ∈ cands /\ conn_id c = rejected_id r /\ accepted = (prior ++ later)%list
    /\ resolve is_ (prior ++ [c]) = Err (Bail (rejected_reason r)).

Lemma accept_loop_spec is_ acc rej cands all :
  (exists t, resolve is_ acc = Ok t) -> (forall c, c ∈ cands -> c ∈ all) -> (forall r, r ∈ rej -> refused_for is_ acc all r) ->
  exists acc' rej', accept_loop digest tdigest is_ acc rej cands = Ok ((acc ++ acc')%list, (rej ++ rej')%list)
    /\ (exists t, resolve is_ (acc ++ acc') = Ok t)
    /\ (forall c, c ∈ acc' -> c ∈ cands)
    /\ (forall r, r ∈ (rej ++ rej')%list -> refused_for is_ (acc ++ acc') all r)
    /\ (map conn_id acc' ++ map rejected_id rej')%list ≡ₚ map conn_id cands.
Proof.
  revert acc rej. induction cands as [|c cands IH]; intros acc rej Hacc Hall Hrej; simpl.
  { exists [], []. rewrite !app_nil_r. split_and!; try done. }
  assert (Hall' : forall x, x ∈ cands -> x ∈ all) by (intros; apply Hall; by apply list_elem_of_further).
  pose proof (resolve_spec is_ (acc ++ [c])) as Hcalm.
  destruct (resolve is_ (acc ++ [c])) as [t|[m|]] eqn:E; [| |done].
  - destruct (IH (acc ++ [c])%list rej) as (acc' & rej' & -> & Hok & Hin & Hr & Hp); [by eexists | done | |].
    { intros r Hr. destruct (Hrej r Hr) as (k & prior & later & ? & ? & -> & ?). exists k, prior, (later ++ [c])%list.
      split_and!; [done | done | by rewrite app_assoc | done]. }
    exists (c :: acc'), rej'. rewrite <- !app_assoc in *. simpl in *. split_and!; [done | done | | done | by rewrite Hp].
    intros x [->|Hx]%elem_of_cons; [apply list_elem_of_here | apply list_elem_of_further; auto].
  - destruct (IH acc (rej ++ [{| rejected_id := conn_id c; rejected_reason := m |}])%list)
      as (acc' & rej' & -> & Hok & Hin & Hr & Hp); [done | done | |].
    { intros r [Hr| ->%list_elem_of_singleton]%elem_of_app; [by apply Hrej|].
      exists c, acc, []. split_and!; [apply Hall, list_elem_of_here | done | by rewrite app_nil_r | done]. }
    exists acc', ({| rejected_id := conn_id c; rejected_reason := m |} :: rej').
    rewrite <- !app_assoc in *. simpl in *. split_and!; [done | done | | done |].
    + intros x Hx. apply list_elem_of_further. auto.
    + rewrite <- Hp. by rewrite <- Permutation_middle.
Qed.

(** Candidates that resolve one after the other are all accepted. *)
Lemma accept_loop_all is_ acc rej cands :
  (forall l1 l2, cands = (l1 ++ l2)%list -> exists t, resolve is_ (acc ++ l1) = Ok t) ->
  accept_loop digest tdigest is_ acc rej cands = Ok ((acc ++ cands)%list, rej).
Proof.
  revert acc. induction cands as [|c cands IH]; intros acc Hall; simpl; [by rewrite app_nil_r|].
  destruct (Hall [c] cands eq_refl) as [t ->]. rewrite IH; [by rewrite <- app_assoc|].
  intros l1 l2 ->. destruct (Hall (c :: l1) l2 eq_refl) as [t' Ht]. exists t'. by rewrite <- app_assoc.
Qed.

Lemma accept_loop_rejects is_ acc rej cands acc' rej' :
  accept_loop digest tdigest is_ acc rej cands = Ok (acc', rej') ->
  exists extra, rej' = (rej ++ extra)%list /\ (extra = [] -> acc' = (acc ++ cands)%list).
Proof.
  revert acc rej. induction cands as [|c cands IH]; intros acc rej; simpl.
  - intros [= <- <-]. exists []. by rewrite !app_nil_r.
  - destruct (resolve is_ (acc ++ [c])) as [t|[m|]]; [| |done]; intros (extra & -> & Hacc)%IH.
    + exists extra. split; [done|]. intros He. by rewrite (Hacc He), <- app_assoc.
    + eexists. rewrite <- app_assoc. split; [done|]. done.
Qed.

Lemma accept_loop_instances is_ is' acc rej cands :
  (forall cs, resolve is_ cs = resolve is' cs) ->
  accept_loop digest tdigest is_ acc rej cands = accept_loop digest tdigest is' acc rej cands.
Proof.
  intros Heq. revert acc rej. induction cands as [|c cands IH]; intros acc rej; simpl; [done|].
  rewrite Heq. destruct (resolve is' _) as [t|[m|]]; auto.
Qed.

Lemma candidates_fail is_ cs :
  (forall l, exists m, resolve is_ l = Err (Bail m)) -> exists m, candidates is_ cs = Err (Bail m).
Proof.
  intros Herr. unfold resolve_dome_topology_candidates. generalize (@nil Connection), (@nil Rejected).
  induction (ordered cs) as [|c l IH]; intros acc rej; simpl.
  - destruct (Herr acc) as [m ->]. by exists m.
  - destruct (Herr (acc ++ [c])%list) as [m ->]. apply IH.
Qed.

Lemma candidates_instances is_ cs r : candidates is_ cs = Ok r -> exists ctx, instances_ok ctx is_.
Proof.
  unfold resolve_dome_topology_candidates.
  intros ([acc rej] & _ & (t & Ht & _)%result_bind_ok)%result_bind_ok. by eapply resolve_instances.
Qed.

Lemma candidates_same is_ is' cs cs' r :
  is_ ≡ₚ is' -> ordered cs = ordered cs' -> candidates is_ cs = Ok r -> candidates is' cs' = Ok r.
Proof.
  intros Hp Ho E. destruct (candidates_instances _ _ _ E) as [ctx Hok]. rewrite <- E.
  assert (Heq : forall l, resolve is_ l = resolve is' l) by (intros; by eapply resolve_instances_eq).
  unfold resolve_dome_topology_candidates. rewrite <- Ho, (accept_loop_instances is_ is' _ _ _ Heq).
  destruct (accept_loop _ _ is' [] [] _) as [[acc rej]|e]; simpl; [|done]. by rewrite Heq.
Qed.

Lemma resolve_reordered is_ cs : keys_unique digest (actives cs) -> resolve is_ (ordered cs) = resolve is_ cs.
Proof.
  intros Hk. apply resolve_ordered. symmetry. apply ordered_stable; [done|].
  rewrite (actives_id digest (ordered cs)) by (intros c Hc; by apply (elem_of_ordered digest c cs)).
  by rewrite ordered_perm.
Qed.
End resolve.
