(* ===== verification/DomeTopologyProps.v ===== *)
(** * Theorems about the Dome topology

    A resolved topology is a drawing of a forest of Domes; it depends on neither the
    order in which records arrive nor the order of instances; bad records are refused
    without failing the whole. *)
From S2P Require Import Prelude RustStr DomeTransition DomeTopology DomeTopologyGraph DomeTopologyOrder DomeTopologyResolve.

(** ** A small world *)
Definition demo_instance (id owner : string) : InstanceManifest :=
  {| im_id := id; im_context := CTopic "plaza"; im_owner := owner;
     im_preset := {| preset_id := "p"; preset_owner := owner; preset_revision := 1;
                     manifest_blob_hash := "h"; manifest_mime := "application/json" |};
     im_title := "Dome"; im_max_peers := Some 8; im_generation := 1;
     im_status := InstanceActive; im_detach := None |}.

Definition demo_connection (id : string) (p : string) (d : DomeDirection) (r : string) (generation : Z) (observed : list string)
    : Connection :=
  {| agreement := {| connection_id_of := id; proposal_id_of := id; ag_context := CTopic "plaza";
       proposer := {| ep_instance := p; ep_generation := 1; ep_owner := p; ep_direction := d |};
       receiver := {| ep_instance := r; ep_generation := 1; ep_owner := r; ep_direction := opposite_dome_direction d |};
       activation_generation := generation |};
     receiver_slot_generation := 1; observed_active_connection_ids := observed; conn_status := Active;
     lifecycle_generation := 1; lifecycle_actor := None; lifecycle_reason := None; lifecycle_deadline_at := None |}.

Definition demo_instances : list InstanceManifest := [demo_instance "a" "a"; demo_instance "b" "b"; demo_instance "c" "c"].

(** The second record is older but has seen the first. *)
Definition demo_connections : list Connection :=
  [demo_connection "k1" "a" East "b" 2 []; demo_connection "k2" "b" North "c" 1 ["k1"]].

Definition demo_cycle : Connection := demo_connection "k3" "c" North "a" 3 [].

Definition demo_digest (c : Connection) : string := conn_id c.
Definition demo_topology_digest (_ : SpatialContext) (_ : list Component) (ids : list string) : string := String.concat "," ids.

Abbreviation demo_resolve := (resolve_dome_topology demo_digest demo_topology_digest).

Definition demo_topology : Topology :=
  match demo_resolve demo_instances demo_connections with
  | Ok t => t
  | Err _ => {| topo_context := CTopic ""; components := []; active_connection_ids := []; topology_digest_of := "" |}
  end.

Example demo_coordinates :
  map (fun k => map_to_list (coordinates_cm k)) (components demo_topology)
  = [[("c", (5700, 0, -5700)); ("a", (0, 0, 0)); ("b", (5700, 0, 0))]]
    /\ demo_resolve demo_instances (demo_connections ++ [demo_cycle]) = Err (Bail "Dome Connection would create a cycle").
Proof. split; vm_compute; reflexivity. Qed.

Section properties.
Context (digest : Connection -> string) (tdigest : SpatialContext -> list Component -> list string -> string).
Abbreviation resolve := (resolve_dome_topology digest tdigest).
Abbreviation candidates := (resolve_dome_topology_candidates digest tdigest).
Abbreviation ordered := (ordered_topology_connections digest).
Abbreviation actives := (List.filter is_topology_active).

(** C3: A topology that [resolve_dome_topology] returns is what the active records
    describe: its components partition the instances into the sets that the connections
    join, each component has its least instance as root at the origin and coordinates for
    exactly its instances, connected Domes lie at the offset of their opening, no two
    Domes of a component share a place, and the active connections are listed once. *)
Theorem topology_resolves is_ cs t :
  resolve is_ cs = Ok t -> topology_correct is_ (ordered cs) t /\ ordered cs ≡ₚ actives cs.
Proof.
  intros E. split; [|apply ordered_perm]. pose proof (resolve_spec digest tdigest is_ cs) as Hs. rewrite E in Hs.
  destruct Hs as (ctx & g & ks & Hok & Hg & Hk & ->). by apply topology_of_graph.
Qed.

(** C36: The connections of a resolved topology form a forest: every active connection is
    the only path between its Domes, two connections never use the same opening of a
    Dome, and every connection joins Domes of different owners through opposite
    openings. *)
Theorem topology_is_a_forest is_ cs t c :
  resolve is_ cs = Ok t -> c ∈ cs -> is_topology_active c = true ->
  ~ rtc (links (filter (fun k => k <> c) (ordered cs))) (proposer_of c) (receiver_of c)
  /\ (forall c' m d n n', c' ∈ ordered cs -> opens c m d n -> opens c' m d n' -> c' = c)
  /\ agreement_ok (index_instances is_) c.
Proof.
  intros E Hc Ha. pose proof (resolve_spec digest tdigest is_ cs) as Hs. rewrite E in Hs.
  destruct Hs as (ctx & g & ks & _ & Hg & _ & _).
  assert (Hin : c ∈ ordered cs) by by apply elem_of_ordered. split_and!.
  - apply forest_bridge; [apply Hg | | done]. eapply NoDup_fmap_1, gi_ids, Hg.
  - intros c' m d n n' Hc' Ho Ho'. by eapply (gi_unique _ _ _ Hg).
  - by apply (gi_agreements _ _ _ Hg).
Qed.

(** C12: Peers that know the same records and instances resolve the same topology and
    refuse the same records for the same reasons, in whatever order these arrived, as long
    as records that compare equal are equal (the record digest has no collision). *)
Theorem delivery_order_irrelevant is_ is' cs cs' :
  keys_unique digest (actives cs) -> is_ ≡ₚ is' -> cs ≡ₚ cs' ->
  (forall t, resolve is_ cs = Ok t <-> resolve is' cs' = Ok t)
  /\ (forall r, candidates is_ cs = Ok r <-> candidates is' cs' = Ok r).
Proof.
  intros Hk Hi Hc. assert (Ho : ordered cs = ordered cs') by (apply ordered_stable; [done | by apply actives_perm]).
  rewrite (resolve_ordered digest tdigest is_ cs cs' Ho). split; split; intros E.
  - by apply (resolve_same_instances _ _ is_).
  - by apply (resolve_same_instances _ _ is').
  - by apply (candidates_same _ _ is_ is' cs).
  - by apply (candidates_same _ _ is' is_ cs').
Qed.

(** When the observations of the active records have no cycle, every record comes
    after all active records it observed. *)
Theorem observed_records_come_first rank cs l1 c l2 id :
  causal_ranks rank (actives cs) -> ordered cs = (l1 ++ c :: l2)%list ->
  id ∈ observed_active_connection_ids c -> id ∈ map conn_id (actives cs) -> id ∈ map conn_id l1.
Proof. apply ordered_causal. Qed.

(** Resolving candidates fails only for the instances, never because of a record, and
    never panics: every active record is either part of the topology or refused, and a
    refused record failed to resolve together with records accepted before it. *)
Theorem candidates_never_fail is_ cs :
  match candidates is_ cs with
  | Ok r => exists acc, resolve is_ acc = Ok (topology r) /\ (forall c, c ∈ acc -> c ∈ ordered cs)
      /\ (map conn_id acc ++ map rejected_id (rejected_connections r))%list ≡ₚ map conn_id (actives cs)
      /\ (forall x, x ∈ rejected_connections r -> refused_for digest tdigest is_ acc (ordered cs) x)
  | Err (Bail _) => forall ctx, ~ instances_ok ctx is_
  | Err Panic => False
  end.
Proof.
  destruct (collect_instances is_) as [[ins ctx]|e] eqn:Ec.
  - apply collect_instances_ok in Ec as [Hok ->].
    destruct (accept_loop_spec digest tdigest is_ [] [] (ordered cs) (ordered cs)) as (acc & rej & Ea & [t Ht] & Hin & Hr & Hp);
      [by eapply resolve_no_records | done | set_solver |].
    unfold resolve_dome_topology_candidates. rewrite Ea; simpl. simpl in Ht. rewrite Ht; simpl.
    exists acc. split_and!; [done | done | by rewrite Hp, ordered_perm | exact Hr].
  - assert (Hno : forall ctx, ~ instances_ok ctx is_).
    { intros ctx Hok. by rewrite (proj2 (collect_instances_ok is_ _ ctx) (conj Hok eq_refl)) in Ec. }
    destruct (candidates_fail digest tdigest is_ cs) as [m ->]; [|exact Hno].
    intros l. pose proof (resolve_spec digest tdigest is_ l) as Hs.
    destruct (resolve is_ l) as [t|[m|]]; [destruct Hs as (ctx & ? & ? & Hok & _); by destruct (Hno ctx) | eauto | done].
Qed.

(** When the observations have no cycle, resolving candidates refuses nothing exactly
    when the strict resolution succeeds, and then both return the same topology. *)
Theorem candidates_agree rank is_ cs t :
  keys_unique digest (actives cs) -> causal_ranks rank (actives cs) ->
  resolve is_ cs = Ok t <-> candidates is_ cs = Ok {| topology := t; rejected_connections := [] |}.
Proof.
  intros Hk Hrank. unfold resolve_dome_topology_candidates. split.
  - intros E. rewrite accept_loop_all; simpl; [by rewrite resolve_reordered, E|].
    intros l1 l2 Ho. eapply resolve_prefix; [done | by eapply ordered_prefix | done].
  - intros ([acc rej] & Ea & (t' & Ht & Heq)%result_bind_ok)%result_bind_ok. simplify_eq/=.
    apply accept_loop_rejects in Ea as (extra & Hr & Hacc). simpl in *. subst extra.
    rewrite Hacc in Ht by done. by rewrite resolve_reordered in Ht.
Qed.
End properties.

(** The search for the Domes connected to one Dome ends after at most one turn per
    edge plus one, and then has found exactly the Domes that a chain of edges reaches. *)
Theorem reachability_terminates fuel adj start n :
  (S (edge_count adj) <= fuel)%nat -> n ∈ reach_loop fuel adj ∅ [start] <-> rtc (edge_rel adj) start n.
Proof.
  intros Hf. destruct (reach_loop_spec fuel adj ∅ [start]) as (_ & Hs & Hcl & Hsound).
  { rewrite todo_start. simpl. lia. }
  { set_solver. }
  split.
  - intros Hn. destruct (Hsound n Hn) as [?|(y & ->%list_elem_of_singleton & Hp)]; [set_solver | done].
  - intros Hp. apply (rtc_closed _ _ _ _ Hcl Hp), Hs, list_elem_of_here.
Qed.

(** For a symmetric graph within the instances, [derive_components] always ends
    without a panic, and it finds coordinates exactly when every component can be drawn
    on the grid with neighbours at the offsets of their openings and no two Domes in one
    place. *)
Theorem derive_components_decides adj :
  adj_wf adj ->
  derive_components adj <> Err Panic
  /\ ((exists ks, derive_components adj = Ok ks) <-> forall n, n ∈ dom adj -> exists pos, embeds adj n pos).
Proof.
  intros Hwf. pose proof (derive_components_spec adj Hwf) as Hd. split; [by destruct (derive_components adj) as [|[|]]|].
  split; [|by apply derive_components_complete]. intros [ks Ek] n Hn. rewrite Ek in Hd.
  by apply (components_embed adj Hwf ks).
Qed.

(** ** Witnesses *)
Lemma demo_keys_unique : keys_unique demo_digest (List.filter is_topology_active demo_connections).
Proof.
  intros c c' Hc Hc'. cbn in Hc, Hc'.
  repeat (apply elem_of_cons in Hc as [->|Hc] || apply elem_of_cons in Hc' as [->|Hc'] || set_solver); done.
Qed.

Definition demo_rank (id : string) : nat := if decide (id = "k1") then 0%nat else 1%nat.

Lemma demo_causal : causal_ranks demo_rank (List.filter is_topology_active demo_connections).
Proof.
  intros c id Hc Hid _. cbn in Hc.
  apply elem_of_cons in Hc as [->|Hc]; [set_solver|]. apply list_elem_of_singleton in Hc as ->.
  apply list_elem_of_singleton in Hid as ->. vm_compute; lia.
Qed.

Lemma topology_resolves_witness :
  topology_correct demo_instances (ordered_topology_connections demo_digest demo_connections) demo_topology
  /\ ordered_topology_connections demo_digest demo_connections
     ≡ₚ List.filter is_topology_active demo_connections.
Proof. apply (topology_resolves demo_digest demo_topology_digest). by_vm. Defined.

Lemma topology_is_a_forest_witness :
  agreement_ok (index_instances demo_instances) (demo_connection "k1" "a" East "b" 2 []).
Proof.
  apply (topology_is_a_forest demo_digest demo_topology_digest demo_instances demo_connections demo_topology);
    [by_vm | apply list_elem_of_here | by_vm].
Defined.

Lemma delivery_order_irrelevant_witness :
  demo_resolve (rev demo_instances) (rev demo_connections) = Ok demo_topology.
Proof.
  apply (delivery_order_irrelevant demo_digest demo_topology_digest demo_instances (rev demo_instances)
    demo_connections (rev demo_connections) demo_keys_unique); [apply Permutation_rev | apply Permutation_rev | by_vm].
Defined.

Lemma observed_records_come_first_witness : "k1" ∈ map conn_id [demo_connection "k1" "a" East "b" 2 []].
Proof.
  apply (observed_records_come_first demo_digest demo_rank demo_connections _ (demo_connection "k2" "b" North "c" 1 ["k1"])
    [] "k1" demo_causal); [by_vm | apply list_elem_of_here | apply list_elem_of_here].
Defined.

Lemma candidates_agree_witness :
  resolve_dome_topology_candidates demo_digest demo_topology_digest demo_instances demo_connections
  = Ok {| topology := demo_topology; rejected_connections := [] |}.
Proof.
  apply (candidates_agree demo_digest demo_topology_digest demo_rank demo_instances demo_connections demo_topology
    demo_keys_unique demo_causal). by_vm.
Defined.

(** The graph of one connection. *)
Definition demo_adjacency : Adjacency := {[ "a" := [("b", East, "k1")]; "b" := [("a", West, "k1")] ]}.

Lemma demo_adjacency_wf : adj_wf demo_adjacency.
Proof.
  assert (H : forall m n, edge_rel demo_adjacency m n -> (m = "a" /\ n = "b") \/ (m = "b" /\ n = "a")).
  { intros m n. unfold edge_rel, edges_of, demo_adjacency.
    destruct (decide (m = "a")) as [->|Ha]; [cbn; set_solver|].
    destruct (decide (m = "b")) as [->|Hb]; [cbn; set_solver|].
    rewrite lookup_insert_ne, lookup_singleton_ne by done. cbn. set_solver. }
  split; intros m n [[-> ->]|[-> ->]]%H; cbn; [apply list_elem_of_here.. | |]; unfold demo_adjacency; set_solver.
Qed.

Lemma reachability_terminates_witness :
  "b" ∈ reach_loop 3 demo_adjacency ∅ ["a"].
Proof.
  apply (reachability_terminates 3 demo_adjacency "a" "b"); [vm_compute; lia|]. apply rtc_once, list_elem_of_here.
Defined.

Lemma derive_components_decides_witness : derive_components demo_adjacency <> Err Panic.
Proof. apply (derive_components_decides demo_adjacency demo_adjacency_wf). Defined.
