(* ===== verification/DomeHosts.v ===== *)
(** * Hosts of Domes (crates/app-api/src/service/received_dome_heartbeats.rs,
      crates/core/src/dome_recovery.rs)

    The ledger of received heartbeats keeps the newest heartbeat per context and instance
    for a bounded time and a bounded number of hosts; the age of a heartbeat decides
    whether its host counts as online; visitors of a Dome whose host is gone are offered
    other Domes in a fixed order.  The signature envelope is opaque, the blob hash is a
    parameter. *)
From S2P Require Import Prelude RustStr DomeTransition.

Definition DOME_HOST_HEARTBEAT_INTERVAL_MILLIS : Z := 5000.
Definition DOME_HOSTING_HEARTBEAT_GRACE_MILLIS : Z := 15000.
Definition HEARTBEAT_RETAIN_MILLIS : Z := 2 * DOME_HOSTING_HEARTBEAT_GRACE_MILLIS.
Definition LIVE_GAME_LIST_LIMIT : Z := 100.

Definition canonical_id (c : SpatialContext) : string :=
  match c with
  | CTopic t => ("topic:" ++s t)%string
  | CChannel t ch => ("channel:" ++s t ++s ":" ++s ch)%string
  end.

Record Heartbeat := {
  hb_instance_id : string;
  hb_instance_generation : Z;
  hb_lease_epoch : Z;
  hb_session_id : string;
  host_pubkey : string;
  hb_participants : Z;
  hb_sleeping : bool;
  hb_sequence : Z;
  sent_at : Z
}.

(** ** Liveness *)
Inductive Liveness := Online | OfflineGrace | HostClosed.
#[export] Instance Liveness_eq_dec : EqDecision Liveness.
Proof. solve_decision. Defined.

Definition resolve_dome_host_liveness (last_heartbeat_at : option Z) (now : Z) : Liveness :=
  match last_heartbeat_at with
  | None => OfflineGrace
  | Some last =>
      let age := i64_saturating_sub now last in
      if DOME_HOSTING_HEARTBEAT_GRACE_MILLIS <? age then HostClosed
      else if DOME_HOST_HEARTBEAT_INTERVAL_MILLIS <? age then OfflineGrace
      else Online
  end.

(** ** The ledger *)
Section ledger.
Context {Envelope : Type} (blob_hash : string -> string).

Record SignedHeartbeat := { heartbeat : Heartbeat; envelope : Envelope }.

Record Ledger := {
  latest : gmap (string * string) (Z * SignedHeartbeat);
  expiries : gset (Z * (string * string))
}.

Definition empty_ledger : Ledger := {| latest := ∅; expiries := ∅ |}.

(** [&hash.as_str()[..24]]; the hash has 64 characters. *)
Definition dome_instance_id (c : SpatialContext) (owner : string) : string :=
  ("dome-" ++s String.substring 0 24 (blob_hash ("dome-instance:" ++s canonical_id c ++s ":" ++s owner)))%string.

Definition remove_key (k : string * string) (l : Ledger) : Ledger :=
  match latest l !! k with
  | Some (e, _) => {| latest := delete k (latest l); expiries := expiries l ∖ {[ (e, k) ]} |}
  | None => l
  end.

(** The [while] loop of [prune]; every turn pops an expiry. *)
Fixpoint prune_loop (fuel : nat) (now : Z) (l : Ledger) : Ledger :=
  match fuel, set_first (expiries l) with
  | S fuel, Some (e, k) =>
      if e <=? now
      then prune_loop fuel now {| latest := delete k (latest l); expiries := expiries l ∖ {[ (e, k) ]} |}
      else l
  | _, _ => l
  end.

Definition prune (now : Z) (l : Ledger) : Ledger := prune_loop (size (expiries l)) now l.

Definition entry_leb (a b : (string * string) * (Z * SignedHeartbeat)) : bool := rust_leb a.1 b.1.

Fixpoint take_while {A} (f : A -> bool) (l : list A) : list A :=
  match l with [] => [] | x :: l => if f x then x :: take_while f l else [] end.

(** [range((context, "")..).take_while(same context)] in the order of the map. *)
Definition hosts_in (context_id : string) (l : Ledger) : list string :=
  let from := List.filter (fun e => rust_leb (context_id, EmptyString) e.1) (sort_by entry_leb (map_to_list (latest l))) in
  map (fun e => host_pubkey (heartbeat e.2.2)) (take_while (fun e => bool_decide (e.1.1 = context_id)) from).

Definition version (s : SignedHeartbeat) : Z * Z := (hb_sequence (heartbeat s), sent_at (heartbeat s)).

Definition record (c : SpatialContext) (instance_id : string) (signed : SignedHeartbeat) (now : Z) (l : Ledger)
    : bool * Ledger :=
  let l := prune now l in
  let k := (canonical_id c, instance_id) in
  let accepted :=
    match latest l !! k with
    | Some (_, current) => rust_ltb (version current) (version signed)
    | None => Z.of_nat (length (hosts_in (canonical_id c) l)) <? LIVE_GAME_LIST_LIMIT
    end in
  let expires_at := i64_saturating_add (Z.min (sent_at (heartbeat signed)) now) HEARTBEAT_RETAIN_MILLIS in
  if negb accepted || (expires_at <=? now)
     || negb (bool_decide (dome_instance_id c (host_pubkey (heartbeat signed)) = instance_id))
  then (false, l)
  else
    let l := remove_key k l in
    (true, {| latest := <[k := (expires_at, signed)]> (latest l); expiries := expiries l ∪ {[ (expires_at, k) ]} |}).

Definition latest_at (c : SpatialContext) (instance_id : string) (now : Z) (l : Ledger)
    : option SignedHeartbeat * Ledger :=
  let l := prune now l in (snd <$> latest l !! (canonical_id c, instance_id), l).

Definition hosts (c : SpatialContext) (now : Z) (l : Ledger) : list string * Ledger :=
  let l := prune now l in (hosts_in (canonical_id c) l, l).

Definition remove (c : SpatialContext) (instance_id : string) (l : Ledger) : Ledger :=
  remove_key (canonical_id c, instance_id) l.

(** The public calls, in any order. *)
Inductive LedgerCall :=
| CRecord (c : SpatialContext) (instance_id : string) (signed : SignedHeartbeat) (now : Z)
| CLatest (c : SpatialContext) (instance_id : string) (now : Z)
| CHosts (c : SpatialContext) (now : Z)
| CRemove (c : SpatialContext) (instance_id : string).

Definition ledger_call (call : LedgerCall) (l : Ledger) : Ledger :=
  match call with
  | CRecord c i s now => snd (record c i s now l)
  | CLatest c i now => snd (latest_at c i now l)
  | CHosts c now => snd (hosts c now l)
  | CRemove c i => remove c i l
  end.

Definition run_ledger (calls : list LedgerCall) : Ledger := foldl (fun l call => ledger_call call l) empty_ledger calls.
End ledger.
Arguments SignedHeartbeat Envelope : clear implicits.
Arguments Ledger Envelope : clear implicits.
Arguments LedgerCall Envelope : clear implicits.

(** ** Evacuation *)
Inductive CandidateKind :=
| EstablishedTransition | ActiveAdjacent | OwnHosted | LastVisited | ChannelEntry | StableFallback.
#[export] Instance CandidateKind_eq_dec : EqDecision CandidateKind.
Proof. solve_decision. Defined.

Definition kind_rank (k : CandidateKind) : Z :=
  match k with
  | EstablishedTransition => 0 | ActiveAdjacent => 1 | OwnHosted => 2
  | LastVisited => 3 | ChannelEntry => 4 | StableFallback => 5
  end.

Record Candidate := { cand_instance : string; cand_kind : CandidateKind; cand_available : bool }.
#[export] Instance Candidate_eq_dec : EqDecision Candidate.
Proof. solve_decision. Defined.

Definition candidate_key (c : Candidate) : Z * string := (kind_rank (cand_kind c), cand_instance c).

Definition candidate_leb (a b : Candidate) : bool := rust_leb (candidate_key a) (candidate_key b).

(** [retain(|c| seen.insert(c.instance_id))] *)
Fixpoint retain_first (seen : gset string) (l : list Candidate) : list Candidate :=
  match l with
  | [] => []
  | c :: l =>
      if decide (cand_instance c ∈ seen) then retain_first seen l
      else c :: retain_first (seen ∪ {[ cand_instance c ]}) l
  end.

Definition order_dome_evacuation_candidates (current : string) (cs : list Candidate) : list Candidate :=
  retain_first ∅
    (sort_by candidate_leb
       (List.filter (fun c => cand_available c && negb (bool_decide (cand_instance c = current))) cs)).
