(* ===== verification/DomeHostsProps.v ===== *)
(** * Theorems about Dome hosts

    The heartbeat ledger stays consistent and bounded in every run, a heartbeat is shown
    until its host counts as closed, and evacuation offers every available Dome once, best
    kind first. *)
From S2P Require Import Prelude RustStr DomeTransition DomeHosts.

(** ** Filtered maps and lists *)
Lemma size_filter_list {K V} `{Countable K} (P : K * V -> Prop) `{forall x, Decision (P x)} (m : gmap K V) :
  size (filter P m) = length (filter P (map_to_list m)).
Proof.
  rewrite map_filter_alt, <- length_map_to_list, map_to_list_to_map; [done|].
  pose proof (NoDup_fst_map_to_list m) as Hnd. induction (map_to_list m) as [|x l IH]; [constructor|].
  simpl in Hnd. apply NoDup_cons in Hnd as [Hx Hnd]. rewrite filter_cons. case_decide; simpl; [|by apply IH].
  apply NoDup_cons. split; [|by apply IH].
  intros (y & Hy & [_ Hin]%list_elem_of_filter)%list_elem_of_fmap. apply Hx, list_elem_of_fmap. eauto.
Qed.

(** ** Prefix of a sorted map *)
Lemma take_while_none {A} (f : A -> bool) l : (forall x, x ∈ l -> f x = false) -> take_while f l = [].
Proof. destruct l as [|x l]; intros Hf; simpl; [done|]. by rewrite Hf by apply list_elem_of_here. Qed.

Lemma leb_context (c a b : string) : rust_leb (c, EmptyString) (a, b) = rust_leb c a.
Proof.
  unfold rust_leb, rust_cmp at 1, prod_rust_ord; simpl.
  destruct (rust_cmp c a) eqn:E; [|done|done]. by destruct b.
Qed.

Section sorted_range.
Context {V : Type} (c : string).
Abbreviation leb := (fun a b : (string * string) * V => rust_leb a.1 b.1).

(** Reading a sorted map from [(c, "")] while the context is [c] reads the entries of
    [c]. *)
Lemma range_context l :
  StronglySorted (fun a b => leb a b = true) l ->
  take_while (fun e : (string * string) * V => bool_decide (e.1.1 = c)) (List.filter (fun e => rust_leb (c, EmptyString) e.1) l)
  = List.filter (fun e => bool_decide (e.1.1 = c)) l.
Proof.
  induction 1 as [|[[a b] v] l Hs IH Hall]; [done|]. cbn [List.filter fst]. rewrite leb_context.
  destruct (bool_decide (a = c)) eqn:Ea; destruct_bools.
  - subst a. rewrite rust_leb_refl. cbn [take_while fst]. rewrite bool_decide_true by done. by rewrite IH.
  - destruct (rust_leb c a) eqn:Ec; [|exact IH]. cbn [take_while fst]. rewrite bool_decide_false by done.
    symmetry. apply filter_none. intros [[a' b'] v'] Hin. apply bool_decide_eq_false. cbn. intros ->.
    rewrite Forall_forall in Hall. specialize (Hall _ Hin). cbn in Hall.
    assert (Hac : rust_leb a c = true).
    { revert Hall. unfold rust_leb, rust_cmp at 1, prod_rust_ord; simpl. by destruct (rust_cmp a c). }
    apply Ea. by apply rust_leb_antisym.
Qed.
End sorted_range.

Section ledger_props.
Context {Envelope : Type} (blob_hash : string -> string).
Abbreviation ledger := (Ledger Envelope).
Abbreviation rec := (record blob_hash).
Abbreviation entries_of c l := (filter (fun kv : (string * string) * (Z * SignedHeartbeat Envelope) => kv.1.1 = c) (latest l)).

Lemma hosts_in_spec c (l : ledger) :
  hosts_in c l = map (fun e => host_pubkey (heartbeat e.2.2))
    (List.filter (fun e => bool_decide (e.1.1 = c)) (sort_by entry_leb (map_to_list (latest l)))).
Proof.
  unfold hosts_in. rewrite range_context; [done|].
  apply sort_by_sorted; unfold entry_leb; intros *; [apply rust_leb_total | apply rust_leb_trans].
Qed.

Lemma list_filter_bool {A} (P : A -> Prop) `{forall x, Decision (P x)} (l : list A) :
  List.filter (fun x => bool_decide (P x)) l = filter P l.
Proof.
  induction l as [|x l IH]; simpl; [done|]. rewrite filter_cons.
  destruct (decide (P x)); [rewrite bool_decide_true by done | rewrite bool_decide_false by done]; by rewrite IH.
Qed.

Lemma hosts_in_length c (l : ledger) : length (hosts_in c l) = size (entries_of c l).
Proof.
  rewrite hosts_in_spec, length_map.
  rewrite (list_filter_bool (fun e : (string * string) * (Z * SignedHeartbeat Envelope) => e.1.1 = c)).
  by rewrite sort_by_perm, size_filter_list.
Qed.

(** ** The invariant *)
Definition retained_until (s : SignedHeartbeat Envelope) (e : Z) : Prop :=
  exists at_, e = i64_saturating_add (Z.min (sent_at (heartbeat s)) at_) HEARTBEAT_RETAIN_MILLIS /\ at_ < e.

Record ledger_inv (l : ledger) : Prop := {
  li_index : forall e k, (e, k) ∈ expiries l <-> exists s, latest l !! k = Some (e, s);
  li_bound : forall c, Z.of_nat (length (hosts_in c l)) <= LIVE_GAME_LIST_LIMIT;
  li_entry : forall k e s, latest l !! k = Some (e, s) -> retained_until s e
    /\ exists c, canonical_id c = k.1 /\ dome_instance_id blob_hash c (host_pubkey (heartbeat s)) = k.2
}.

Definition indexed (l : ledger) : Prop := forall e k, (e, k) ∈ expiries l <-> exists s, latest l !! k = Some (e, s).

Lemma indexed_remove (l : ledger) k e s :
  indexed l -> latest l !! k = Some (e, s) ->
  indexed {| latest := delete k (latest l); expiries := expiries l ∖ {[ (e, k) ]} |}.
Proof.
  intros Hi Hk e' k'. simpl. rewrite elem_of_difference, elem_of_singleton, (Hi e' k'). split.
  - intros [[s' Hs'] Hne]. exists s'. rewrite lookup_delete_Some. split; [|done]. intros ->. congruence.
  - intros (s' & [Hne Hs']%lookup_delete_Some). split; [eauto | congruence].
Qed.

Lemma prune_loop_spec fuel now (l : ledger) :
  (size (expiries l) <= fuel)%nat -> indexed l ->
  indexed (prune_loop fuel now l)
  /\ forall k e s, latest (prune_loop fuel now l) !! k = Some (e, s) <-> latest l !! k = Some (e, s) /\ now < e.
Proof.
  revert l. induction fuel as [|fuel IH]; intros l Hf Hi.
  - assert (He : expiries l = ∅) by (apply leibniz_equiv, size_empty_iff; lia). simpl. split; [done|].
    intros k e s. split; [|naive_solver]. intros Hk. exfalso.
    assert (Hin : (e, k) ∈ expiries l) by (apply Hi; eauto). rewrite He in Hin. set_solver.
  - cbn [prune_loop]. destruct (set_first (expiries l)) as [[e k]|] eqn:E.
    + apply set_first_some in E as [Hin Hle]. destruct (Z.leb_spec e now) as [Hen|Hen].
      * pose proof (proj1 (Hi e k) Hin) as [s Hs]. pose proof (indexed_remove l k e s Hi Hs) as Hi0.
        edestruct IH with (2 := Hi0) as [Hi' Hl'].
        { simpl. rewrite size_difference by set_solver. rewrite size_singleton. lia. }
        split; [done|]. intros k' e' s'. rewrite Hl'. simpl. rewrite lookup_delete_Some. split; [naive_solver|].
        intros [Hk' He']. split_and!; [intros ->; simplify_eq; lia | done | done].
      * split; [done|]. intros k' e' s'. split; [|naive_solver]. intros Hk'. split; [done|].
        assert (Hin' : (e', k') ∈ expiries l) by (apply Hi; eauto). specialize (Hle _ Hin').
        unfold rust_leb, rust_cmp, prod_rust_ord, rust_cmp, Z_rust_ord in Hle; simpl in Hle.
        destruct (Z.compare_spec e e'); [lia | lia | done].
    + apply set_first_none in E. split; [done|]. intros k e s. split; [|naive_solver]. intros Hk. exfalso.
      assert (Hin : (e, k) ∈ expiries l) by (apply Hi; eauto). rewrite E in Hin. set_solver.
Qed.

Lemma prune_spec now (l : ledger) :
  indexed l -> indexed (prune now l)
  /\ forall k e s, latest (prune now l) !! k = Some (e, s) <-> latest l !! k = Some (e, s) /\ now < e.
Proof. intros. by apply prune_loop_spec. Qed.

Lemma entries_prune c now (l : ledger) : indexed l -> (size (entries_of c (prune now l)) <= size (entries_of c l))%nat.
Proof.
  intros Hi. apply map_subseteq_size, map_subseteq_spec. intros k [e s].
  rewrite !map_lookup_filter_Some. intros [Hk Hc]. apply (prune_spec now l Hi) in Hk. naive_solver.
Qed.

Lemma prune_inv now (l : ledger) : ledger_inv l -> ledger_inv (prune now l).
Proof.
  intros Hl. destruct (prune_spec now l (li_index _ Hl)) as [Hi He]. constructor; [exact Hi | |].
  - intros c. pose proof (li_bound _ Hl c) as Hb. rewrite hosts_in_length in *.
    pose proof (entries_prune c now l (li_index _ Hl)). lia.
  - intros k e s [Hk _]%He. by apply (li_entry _ Hl).
Qed.

Lemma remove_key_inv k (l : ledger) : ledger_inv l -> ledger_inv (remove_key k l).
Proof.
  intros Hl. unfold remove_key. destruct (latest l !! k) as [[e s]|] eqn:E; [|done]. constructor.
  - by apply (indexed_remove l k e s (li_index _ Hl)).
  - intros c. pose proof (li_bound _ Hl c) as Hb. rewrite hosts_in_length in *. simpl.
    assert (size (filter (fun kv : (string * string) * (Z * SignedHeartbeat Envelope) => kv.1.1 = c) (delete k (latest l)))
      <= size (entries_of c l))%nat; [|lia].
    apply map_subseteq_size, map_filter_subseteq_mono, delete_subseteq.
  - simpl. intros k' e' s' [_ Hk]%lookup_delete_Some. by apply (li_entry _ Hl).
Qed.

(** What [record] answers and leaves. *)
Definition expires (s : SignedHeartbeat Envelope) (now : Z) : Z :=
  i64_saturating_add (Z.min (sent_at (heartbeat s)) now) HEARTBEAT_RETAIN_MILLIS.

Definition acceptable (c : SpatialContext) (i : string) (s : SignedHeartbeat Envelope) (now : Z) (l : ledger) : Prop :=
  now < expires s now /\ dome_instance_id blob_hash c (host_pubkey (heartbeat s)) = i
  /\ match latest (prune now l) !! (canonical_id c, i) with
     | Some (_, current) => rust_ltb (version current) (version s) = true
     | None => Z.of_nat (length (hosts_in (canonical_id c) (prune now l))) < LIVE_GAME_LIST_LIMIT
     end.

Lemma record_spec c i s now (l : ledger) :
  (exists l', rec c i s now l = (true, l') /\ acceptable c i s now l
     /\ latest l' = <[(canonical_id c, i) := (expires s now, s)]> (latest (prune now l))
     /\ expiries l' = expiries (remove_key (canonical_id c, i) (prune now l)) ∪ {[ (expires s now, (canonical_id c, i)) ]})
  \/ (rec c i s now l = (false, prune now l) /\ ~ acceptable c i s now l).
Proof.
  unfold record, acceptable. fold (expires s now).
  set (acc := match latest (prune now l) !! (canonical_id c, i) with Some _ => _ | None => _ end : bool).
  assert (Hacc : acc = true <-> match latest (prune now l) !! (canonical_id c, i) with
     | Some (_, current) => rust_ltb (version current) (version s) = true
     | None => Z.of_nat (length (hosts_in (canonical_id c) (prune now l))) < LIVE_GAME_LIST_LIMIT
     end).
  { unfold acc. destruct (latest (prune now l) !! _) as [[? ?]|]; [done | apply Z.ltb_lt]. }
  clearbody acc. destruct acc; simpl; [|right; split; [done | intros (_ & _ & Hr); by apply Hacc in Hr]].
  destruct (Z.leb_spec (expires s now) now); simpl; [right; split; [done | intros (? & _); lia]|].
  case_bool_decide; simpl; [|right; split; [done | naive_solver]].
  left. eexists. split; [reflexivity|]. split; [split_and!; [done | done | by apply Hacc]|]. split; [simpl | reflexivity].
  unfold remove_key. destruct (latest (prune now l) !! (canonical_id c, i)) as [[e s']|]; simpl; [|done].
  by rewrite insert_delete_eq.
Qed.

Lemma record_inv c i s now (l : ledger) : ledger_inv l -> ledger_inv (snd (rec c i s now l)).
Proof.
  intros Hl0. pose proof (prune_inv now l Hl0) as Hl.
  destruct (record_spec c i s now l) as [(l' & -> & (Hexp & Hid & Hroom) & Hlat & Hex)|[-> _]]; [|done]. simpl.
  set (k := (canonical_id c, i)) in *. constructor.
  - intros e' k'. rewrite Hlat, Hex. rewrite elem_of_union, elem_of_singleton. unfold remove_key.
    destruct (decide (k' = k)) as [->|Hne].
    + rewrite lookup_insert_eq. destruct (latest (prune now l) !! k) as [[e0 s0]|] eqn:E0; simpl.
      * rewrite elem_of_difference, elem_of_singleton, (li_index _ Hl e' k), E0. naive_solver.
      * rewrite (li_index _ Hl e' k), E0. naive_solver.
    + rewrite lookup_insert_ne by done. destruct (latest (prune now l) !! k) as [[e0 s0]|] eqn:E0; simpl.
      * rewrite elem_of_difference, elem_of_singleton, (li_index _ Hl e' k'). naive_solver.
      * rewrite (li_index _ Hl e' k'). naive_solver.
  - intros c'. pose proof (li_bound _ Hl c') as Hb. rewrite hosts_in_length in *. rewrite Hlat.
    destruct (decide (canonical_id c = c')) as [<-|Hne].
    + rewrite map_filter_insert_True by done. destruct (latest (prune now l) !! k) as [[e0 s0]|] eqn:E0.
      * rewrite map_size_insert_Some; [done|]. exists (e0, s0). by apply map_lookup_filter_Some.
      * rewrite map_size_insert_None by (apply map_lookup_filter_None; by left). lia.
    + by rewrite map_filter_insert_not by (simpl; done).
  - intros k' e' s'. rewrite Hlat. intros [[<- [= <- <-]]|[_ Hk]]%lookup_insert_Some; [|by apply (li_entry _ Hl)].
    split; [by exists now | by exists c].
Qed.

Lemma empty_ledger_inv : ledger_inv (@empty_ledger Envelope).
Proof. constructor; simpl; [set_solver | done | intros *; by rewrite lookup_empty]. Qed.

Lemma run_ledger_inv calls : ledger_inv (run_ledger blob_hash calls).
Proof.
  unfold run_ledger. assert (Hgen : forall l, ledger_inv l -> ledger_inv (foldl (fun l call => ledger_call blob_hash call l) l calls)).
  { induction calls as [|call calls IH]; intros l Hl; simpl; [done|]. apply IH. destruct call; simpl;
      [by apply record_inv | by apply prune_inv | by apply prune_inv | by apply remove_key_inv]. }
  apply Hgen, empty_ledger_inv.
Qed.

Lemma latest_after_record c i s now now' (l : ledger) :
  ledger_inv l -> now <= now' ->
  fst (latest_at c i now' (snd (rec c i s now l)))
  = if fst (rec c i s now l) then (if now' <? expires s now then Some s else None) else fst (latest_at c i now' l).
Proof.
  intros Hl Hnow. pose proof (record_inv c i s now l Hl) as Hl'.
  destruct (prune_spec now' _ (li_index _ Hl')) as [_ He]. unfold latest_at; simpl.
  destruct (record_spec c i s now l) as [(l' & Er & Hacc & Hlat & _)|[Er Hacc]]; rewrite Er in *; simpl in *.
  - destruct (Z.ltb_spec now' (expires s now)) as [Hlt|Hge].
    + assert (Hk : latest (prune now' l') !! (canonical_id c, i) = Some (expires s now, s)).
      { apply He. by rewrite Hlat, lookup_insert_eq. }
      by rewrite Hk.
    + destruct (latest (prune now' l') !! (canonical_id c, i)) as [[e s']|] eqn:E; [|done].
      apply He in E as [Hk Hlt]. rewrite Hlat, lookup_insert_eq in Hk. simplify_eq. lia.
  - f_equal. destruct (prune_spec now l (li_index _ Hl)) as [_ He1].
    destruct (prune_spec now' l (li_index _ Hl)) as [_ He2]. apply option_eq. intros [e s'].
    rewrite He, He1, He2. split; [naive_solver | intros [? ?]; split_and!; [done | lia | done]].
Qed.

(** ** Theorems *)

(** C38: In every run of the heartbeat ledger the expiry queue is exactly the expiries of
    the stored heartbeats, no context holds more hosts than a room list shows, and every
    stored heartbeat belongs to the instance that its context and its host derive. *)
Theorem heartbeat_ledger_invariant (calls : list (LedgerCall Envelope)) : ledger_inv (run_ledger blob_hash calls).
Proof. apply run_ledger_inv. Qed.

(** After [record] at time [now], asking for the same instance at any later time
    [now'] shows the new heartbeat until its retention ends if it was accepted, and
    otherwise what the ledger held before.  A heartbeat is accepted exactly when it is
    fresh, its instance derives from its host, and it is newer than the one held, or none
    is held and the context has room. *)
Theorem record_then_latest (calls : list (LedgerCall Envelope)) c i s now now' :
  let l := run_ledger blob_hash calls in
  now <= now' ->
  (fst (rec c i s now l) = true <-> acceptable c i s now l)
  /\ fst (latest_at c i now' (snd (rec c i s now l)))
     = if fst (rec c i s now l) then (if now' <? expires s now then Some s else None)
       else fst (latest_at c i now' l).
Proof.
  intros l Hnow. split; [|by apply latest_after_record; [apply run_ledger_inv|]].
  by destruct (record_spec c i s now l) as [(l' & -> & ? & _)|[-> ?]].
Qed.

(** A host is reported closed before its heartbeat leaves the ledger: when an accepted
    heartbeat that was not signed in the future is no longer shown, the age of the
    heartbeat makes its host closed. *)
Theorem closed_before_dropped (calls : list (LedgerCall Envelope)) c i s now now' :
  let l := run_ledger blob_hash calls in
  now <= now' -> i64_min <= sent_at (heartbeat s) <= now -> now' + HEARTBEAT_RETAIN_MILLIS <= i64_max ->
  fst (rec c i s now l) = true ->
  fst (latest_at c i now' (snd (rec c i s now l))) = None ->
  resolve_dome_host_liveness (Some (sent_at (heartbeat s))) now' = HostClosed.
Proof.
  intros l Hnow Hs Hmax Hok. rewrite latest_after_record, Hok by (done || apply run_ledger_inv).
  destruct (Z.ltb_spec now' (expires s now)) as [Hlt|Hge]; [done|]. intros _.
  unfold expires, i64_saturating_add, sat_i64 in Hge.
  unfold resolve_dome_host_liveness, i64_saturating_sub, sat_i64.
  unfold HEARTBEAT_RETAIN_MILLIS, DOME_HOSTING_HEARTBEAT_GRACE_MILLIS, i64_max, i64_min in *.
  destruct (Z.ltb_spec 15000 (Z.max (- 2 ^ 63) (Z.min (2 ^ 63 - 1) (now' - sent_at (heartbeat s))))); [done | lia].
Qed.
End ledger_props.

(** ** Evacuation *)
Definition eligible (current : string) (c : Candidate) : bool :=
  cand_available c && negb (bool_decide (cand_instance c = current)).

Abbreviation by_rank := (StronglySorted (fun a b => candidate_leb a b = true)).

Lemma candidate_key_inj a b :
  cand_available a = true -> cand_available b = true -> candidate_leb a b = true -> candidate_leb b a = true -> a = b.
Proof.
  intros Ha Hb Hab Hba. assert (Hk : candidate_key a = candidate_key b) by (by apply rust_leb_antisym).
  destruct a as [i k av], b as [i' k' av']. unfold candidate_key in Hk. simpl in *. injection Hk as Hk ->.
  subst av av'. f_equal. by destruct k, k'.
Qed.

Lemma elem_of_retain_first seen l c :
  by_rank l -> (forall x, x ∈ l -> cand_available x = true) ->
  c ∈ retain_first seen l <->
  (cand_instance c ∉ seen) /\ c ∈ l /\ (forall c', c' ∈ l -> cand_instance c' = cand_instance c -> candidate_leb c c' = true).
Proof.
  intros Hs. revert seen. induction Hs as [|x l Hs IH Hall]; intros seen Hav; simpl; [set_solver|].
  rewrite Forall_forall in Hall.
  assert (Hav' : forall y, y ∈ l -> cand_available y = true) by (intros; apply Hav; by apply list_elem_of_further).
  destruct (decide (cand_instance x ∈ seen)) as [Hx|Hx].
  - rewrite IH by done. split.
    + intros (Hc & Hin & Hle). split_and!; [done | by apply list_elem_of_further |].
      intros c' [->|Hc']%elem_of_cons Heq; [|auto]. by rewrite Heq in Hx.
    + intros (Hc & [->|Hin]%elem_of_cons & Hle); [done|]. split_and!; [done | done |].
      intros. apply Hle; [by apply list_elem_of_further | done].
  - rewrite elem_of_cons, IH by done. split.
    + intros [->|(Hc & Hin & Hle)].
      * split_and!; [done | apply list_elem_of_here |]. intros c' [->|Hc']%elem_of_cons _; [unfold candidate_leb; apply rust_leb_refl | auto].
      * split_and!; [set_solver | by apply list_elem_of_further |].
        intros c' [->|Hc']%elem_of_cons Heq; [|auto]. exfalso. apply Hc. rewrite <- Heq. set_solver.
    + intros (Hc & Hin & Hle). destruct (decide (c = x)) as [->|Hne]; [by left|]. right.
      apply elem_of_cons in Hin as [?|Hin]; [done|]. split_and!; [|done|].
      * intros [?|Heq%elem_of_singleton]%elem_of_union; [done|]. apply Hne. apply candidate_key_inj; auto using list_elem_of_here.
      * intros. apply Hle; [by apply list_elem_of_further | done].
Qed.

Lemma retain_first_sublist seen l : retain_first seen l `sublist_of` l.
Proof.
  revert seen. induction l as [|x l IH]; intros seen; simpl; [constructor|].
  case_decide; [apply sublist_cons, IH | apply sublist_skip, IH].
Qed.

Lemma retain_first_distinct seen l :
  NoDup (map cand_instance (retain_first seen l)) /\ (forall i, i ∈ map cand_instance (retain_first seen l) -> i ∉ seen).
Proof.
  revert seen. induction l as [|x l IH]; intros seen; simpl; [split; [constructor | set_solver]|].
  case_decide as Hx; [apply IH|]. destruct (IH (seen ∪ {[ cand_instance x ]})) as [Hnd Hout]. split; simpl.
  - constructor; [|done]. intros Hin%Hout. set_solver.
  - intros i [->|Hi%Hout]%elem_of_cons; set_solver.
Qed.

(** The evacuation list names every available Dome other than the current one exactly
    once, with the best kind it is a candidate of, ordered by kind and then by id. *)
Theorem evacuation_order_exact current cs :
  let r := order_dome_evacuation_candidates current cs in
  by_rank r /\ NoDup (map cand_instance r)
  /\ (forall c, c ∈ r <-> c ∈ cs /\ eligible current c = true
       /\ forall c', c' ∈ cs -> eligible current c' = true -> cand_instance c' = cand_instance c ->
            kind_rank (cand_kind c) <= kind_rank (cand_kind c')).
Proof.
  unfold order_dome_evacuation_candidates. fold (eligible current). set (l := List.filter (eligible current) cs).
  assert (Hl : forall c, c ∈ sort_by candidate_leb l <-> c ∈ cs /\ eligible current c = true).
  { intros c. unfold l. by rewrite elem_of_sort_by, list_elem_of_In, filter_In, <- list_elem_of_In. }
  assert (Hs : by_rank (sort_by candidate_leb l)).
  { apply sort_by_sorted; unfold candidate_leb; intros *; [apply rust_leb_total | apply rust_leb_trans]. }
  split_and!.
  - by eapply sublist_sorted; [apply retain_first_sublist|].
  - apply retain_first_distinct.
  - intros c. rewrite elem_of_retain_first; [|done|].
    2: { intros x [_ Hx]%Hl. unfold eligible in Hx. by destruct_bools. }
    rewrite Hl. setoid_rewrite Hl. assert (Hk : forall c', cand_instance c' = cand_instance c ->
      candidate_leb c c' = true <-> kind_rank (cand_kind c) <= kind_rank (cand_kind c')).
    { intros c' Heq. unfold candidate_leb, candidate_key, rust_leb, rust_cmp, prod_rust_ord; simpl. rewrite Heq.
      rewrite rust_cmp_refl. unfold rust_cmp, Z_rust_ord. destruct (Z.compare_spec (kind_rank (cand_kind c)) (kind_rank (cand_kind c'))); lia. }
    split.
    + intros (_ & [? ?] & Hle). split_and!; [done | done |]. intros c' ? ? Heq. apply Hk; [done|]. by apply Hle.
    + intros (? & ? & Hle). split_and!; [set_solver | done | done |]. intros c' [? ?] Heq. apply Hk; [done|]. by apply Hle.
Qed.

(** ** Witnesses *)
Definition demo_hash (_ : string) : string := "0123456789abcdef0123456789abcdef".
Definition demo_context : SpatialContext := CTopic "plaza".
Definition demo_id : string := dome_instance_id demo_hash demo_context "host".
Definition demo_heartbeat (at_ : Z) : SignedHeartbeat unit :=
  {| heartbeat := {| hb_instance_id := demo_id; hb_instance_generation := 1; hb_lease_epoch := 1; hb_session_id := "s";
                     host_pubkey := "host"; hb_participants := 0; hb_sleeping := true; hb_sequence := at_; sent_at := at_ |};
     envelope := tt |}.

Lemma record_then_latest_witness :
  fst (latest_at demo_context demo_id 40 (snd (record demo_hash demo_context demo_id (demo_heartbeat 20) 20
    (run_ledger demo_hash [CRecord demo_context demo_id (demo_heartbeat 10) 10])))) = Some (demo_heartbeat 20).
Proof.
  destruct (record_then_latest demo_hash [CRecord demo_context demo_id (demo_heartbeat 10) 10] demo_context demo_id
    (demo_heartbeat 20) 20 40) as [_ H]; [lia|]. etrans; [exact H|]. by_vm.
Defined.

Lemma closed_before_dropped_witness :
  resolve_dome_host_liveness (Some 20) 30020 = HostClosed.
Proof.
  apply (closed_before_dropped demo_hash [] demo_context demo_id (demo_heartbeat 20) 20 30020);
    [lia | unfold i64_min; simpl; lia | unfold HEARTBEAT_RETAIN_MILLIS, i64_max; vm_compute; discriminate | by_vm | by_vm].
Defined.
