(* ===== verification/TimeIndex.v ===== *)
(** * The time index (crates/docs-sync/src/time_index.rs, types.rs, memory.rs)

    A replica keeps an index of its posts under keys
    [<prefix><created_at, 20 digits>-<object id>/<object id>].  A document store answers
    only "the first [limit] keys with this prefix, ascending or descending"; the walk reads
    a page before or after a cursor with a bounded number of such queries, by moving one
    digit of the cursor at a time and by splitting prefixes that malformed keys flood.
    The store is the interface [KeyIndex]; the in-memory store implements it. *)
From S2P Require Import Prelude RustStr.

Definition TIME_DIGITS : nat := 20.
Definition SAME_SECOND_SCAN_LIMIT : nat := 512.
Definition MALFORMED_KEY_ALLOWANCE : nat := 32.
Definition FUTURE_ENTRY_ALLOWANCE : nat := 32.
Definition MAX_WALK_QUERIES : nat := 256.

(** ** Queries for keys *)
Inductive DocKeyOrder := Ascending | Descending.
#[export] Instance DocKeyOrder_eq_dec : EqDecision DocKeyOrder.
Proof. solve_decision. Defined.

Record DocKeyQuery := { q_prefix : string; q_order : DocKeyOrder; q_limit : nat }.

Record DocKeyEntry := { ke_key : string; content_hash : string; content_len : Z; ke_docs_author : option string }.

Record DocKeyPage := { page_entries : list DocKeyEntry; reached_limit : bool }.

(** The key queries of the trait [DocsSync] for one replica: [query_replica_keys], and
    [query_replica_keys_by_author] for [Some] author.  [E] is the error of a query. *)
Class KeyIndex (E Store : Type) :=
  list_keys : Store -> option string -> DocKeyQuery -> result E DocKeyPage.

(** ** Entries *)
Record TimeIndexEntry := { created_at : Z; object_id : string; ti_key : string; ti_docs_author : option string }.

Record TimeIndexCursor := { cur_created_at : Z; cur_object_id : string }.

Definition not_after (t : Z) : TimeIndexCursor := {| cur_created_at := i64_saturating_add t 1; cur_object_id := EmptyString |}.
Definition not_before (t : Z) : TimeIndexCursor := {| cur_created_at := t; cur_object_id := EmptyString |}.

Record TimeIndexPage := { entries : list TimeIndexEntry; resume : option TimeIndexCursor; queries : nat }.

Definition empty_page : TimeIndexPage := {| entries := []; resume := None; queries := 0 |}.

Definition parse_entry (index_prefix : string) (e : DocKeyEntry) : option TimeIndexEntry :=
  rest ← strip_prefix index_prefix (ke_key e);
  '(sort_key, id) ← rsplit_once "/" rest;
  '(time, sort_id) ← split_once "-" sort_key;
  if negb (str_len time =? Z.of_nat TIME_DIGITS) || negb (str_all is_ascii_digit time)
     || negb (bool_decide (sort_id = id)) || str_is_empty id
  then None
  else
    t ← parse_i64 time;
    Some {| created_at := t; object_id := id; ti_key := ke_key e; ti_docs_author := ke_docs_author e |}.

Definition parse_entries (index_prefix : string) (keys : list DocKeyEntry) : list TimeIndexEntry :=
  omap (parse_entry index_prefix) keys.

(** ** Keys that posts are filed under *)

(** [format!("{created_at:020}-{object_id}")]: the sign of a negative time counts as one
    of the 20 characters. *)
Definition timeline_sort_key (t : Z) (id : string) : string :=
  (if t <? 0 then "-" ++s dec_padded 19 (- t) else dec_padded 20 t) ++s "-" ++s id.

Definition stable_key (prefix key : string) : string := prefix ++s "/" ++s key.

Definition profile_index_key (t : Z) (id : string) : string :=
  stable_key "indexes/profile" (timeline_sort_key t id ++s "/" ++s id).

(** ** Time prefixes *)
Fixpoint str_repeat (s : string) (n : nat) : string :=
  match n with O => EmptyString | S n => s ++s str_repeat s n end.

Definition time_prefix_bounds (time_prefix : string) : Z * Z :=
  let pad := (TIME_DIGITS - String.length time_prefix)%nat in
  (default 0 (parse_u64 (time_prefix ++s str_repeat "0" pad)),
   default u64_max (parse_u64 (time_prefix ++s str_repeat "9" pad))).

Definition clamp_time (v : Z) : Z := if v <=? i64_max then v else i64_max.

Inductive IndexEdge := EdgeUnknown | EdgeAt (t : Z) | EdgeEmpty.
#[export] Instance IndexEdge_eq_dec : EqDecision IndexEdge.
Proof. solve_decision. Defined.

Definition opposite (o : DocKeyOrder) : DocKeyOrder :=
  match o with Descending => Ascending | Ascending => Descending end.

(** The prefixes that the loop pushes for one position of the cursor's digits, in the
    order of pushing. *)
Definition prefixes_at (order : DocKeyOrder) (digits : string) (position : nat) : list string :=
  let digit := match String.get position digits with Some a => Z.to_nat (char_digit a) | None => O end in
  let extend := fun k : nat => String.substring 0 position digits ++s String (digit_char (Z.of_nat k)) EmptyString in
  match order with
  | Descending => map extend (seq 0 digit)
  | Ascending => if decide (position = 0%nat) then [] else map extend (rev (seq (S digit) (9 - digit)))
  end.

Definition cursor_prefixes (order : DocKeyOrder) (digits : string) : list string :=
  concat (map (prefixes_at order digits) (seq 0 TIME_DIGITS)).

(** A prefix that is too full, one digit finer, in the order of pushing. *)
Definition finer (order : DocKeyOrder) (time_prefix : string) : list string :=
  let extend := fun k : nat => time_prefix ++s String (digit_char (Z.of_nat k)) EmptyString in
  if str_is_empty time_prefix then ["0"]
  else match order with
       | Descending => map extend (seq 0 10)
       | Ascending => map extend (rev (seq 0 10))
       end.

(** The stack, its top first. *)
Definition push_all (pushed stack : list string) : list string := (rev pushed ++ stack)%list.

Inductive WalkError (E : Type) := QueryFailed (e : E) | OutOfFuel.
Arguments QueryFailed {E} e.
Arguments OutOfFuel {E}.

Section walk.
Context {E Store : Type} `{!KeyIndex E Store} (store : Store) (index_prefix : string) (docs_author : option string).

Definition ask (prefix : string) (order : DocKeyOrder) (limit : nat) : result (WalkError E) DocKeyPage :=
  match list_keys store docs_author {| q_prefix := prefix; q_order := order; q_limit := limit |} with
  | Ok page => Ok page
  | Err e => Err (QueryFailed e)
  end.

Definition index_edge (order : DocKeyOrder) : result (WalkError E) IndexEdge :=
  page ← ask index_prefix (opposite order) (MALFORMED_KEY_ALLOWANCE + 1);
  Ok (match parse_entries index_prefix (page_entries page) with
      | e :: _ => if 0 <=? created_at e then EdgeAt (created_at e)
                  else if reached_limit page then EdgeUnknown else EdgeEmpty
      | [] => if reached_limit page then EdgeUnknown else EdgeEmpty
      end).

Record Walk := {
  found : list TimeIndexEntry;
  pending : list string;
  asked : nat;
  edge : IndexEdge;
  edge_checked : bool
}.

Definition past_edge (order : DocKeyOrder) (edge : IndexEdge) (bounds : Z * Z) : bool :=
  match edge with
  | EdgeAt t => match order with Descending => bounds.2 <? t | Ascending => t <? bounds.1 end
  | _ => false
  end.

Definition resume_at (order : DocKeyOrder) (bounds : Z * Z) : TimeIndexCursor :=
  match order with
  | Descending => not_after (clamp_time bounds.2)
  | Ascending => not_before (clamp_time bounds.1)
  end.

(** The part of a turn after the query for [time_prefix]: [None] leaves the loop. *)
Definition absorb (order : DocKeyOrder) (limit : nat) (time_prefix : string) (rest : list string) (page : DocKeyPage)
    (w : Walk) : result (WalkError E) (option Walk) :=
  let needed := (limit - length (found w))%nat in
  let asked := S (asked w) in
  let truncated := reached_limit page in
  let valid := parse_entries index_prefix (page_entries page) in
  if truncated && (Nat.ltb (length valid) needed) && Nat.ltb (String.length time_prefix) TIME_DIGITS then
    Ok (Some {| found := found w; pending := push_all (finer order time_prefix) rest; asked := asked;
                edge := edge w; edge_checked := edge_checked w |})
  else if match valid with [] => true | _ => false end && negb truncated && negb (edge_checked w)
          && Nat.ltb asked MAX_WALK_QUERIES then
    edge ← index_edge order;
    if decide (edge = EdgeEmpty) then Ok None
    else Ok (Some {| found := (found w ++ valid)%list; pending := rest; asked := S asked; edge := edge; edge_checked := true |})
  else
    Ok (Some {| found := (found w ++ valid)%list; pending := rest; asked := asked;
                edge := edge w; edge_checked := edge_checked w |}).

(** The [while let] loop: what was found, the cursor to resume from, the number of
    queries. *)
Fixpoint walk_loop (fuel : nat) (order : DocKeyOrder) (limit : nat) (w : Walk)
    : result (WalkError E) (list TimeIndexEntry * option TimeIndexCursor * nat) :=
  match pending w with
  | [] => Ok (found w, None, asked w)
  | time_prefix :: rest =>
      match fuel with
      | O => Err OutOfFuel
      | S fuel =>
          if Nat.leb limit (length (found w)) then Ok (found w, None, asked w)
          else
            let bounds := time_prefix_bounds time_prefix in
            if i64_max <? bounds.1 then
              match order with
              | Descending =>
                  walk_loop fuel order limit
                    {| found := found w; pending := rest; asked := asked w; edge := edge w; edge_checked := edge_checked w |}
              | Ascending => Ok (found w, None, asked w)
              end
            else if past_edge order (edge w) bounds then Ok (found w, None, asked w)
            else if Nat.leb MAX_WALK_QUERIES (asked w) then Ok (found w, Some (resume_at order bounds), asked w)
            else
              page ← ask (index_prefix ++s time_prefix) order (limit - length (found w) + MALFORMED_KEY_ALLOWANCE);
              next ← absorb order limit time_prefix rest page w;
              match next with
              | Some w => walk_loop fuel order limit w
              | None => Ok (found w, None, S (S (asked w)))
              end
      end
  end.

(** Every turn pops a prefix; a turn that pushes the ten finer ones has asked. *)
Definition walk_fuel (stack : list string) : nat := (12 * MAX_WALK_QUERIES + length stack)%nat.

Definition beyond_id (order : DocKeyOrder) (cursor : TimeIndexCursor) (e : TimeIndexEntry) : bool :=
  match order with
  | Descending => rust_ltb (object_id e) (cur_object_id cursor)
  | Ascending => rust_ltb (cur_object_id cursor) (object_id e)
  end.

(** Where the loop starts: the entries of the cursor's own second, the stack, the queries
    so far; [None] is an empty page. *)
Definition walk_start (order : DocKeyOrder) (cursor : option TimeIndexCursor) (limit : nat)
    : result (WalkError E) (option (list TimeIndexEntry * list string * nat)) :=
  match cursor with
  | None => Ok (Some ([], [EmptyString], 0%nat))
  | Some cursor =>
      if cur_created_at cursor <? 0 then
        Ok (match order with Descending => None | Ascending => Some ([], [EmptyString], 0%nat) end)
      else
        let digits := dec_padded TIME_DIGITS (cur_created_at cursor) in
        if negb (Nat.eqb (String.length digits) TIME_DIGITS) then Ok None
        else
          same_second ← ask (index_prefix ++s digits ++s "-") order SAME_SECOND_SCAN_LIMIT;
          Ok (Some (take limit (List.filter (beyond_id order cursor) (parse_entries index_prefix (page_entries same_second))),
                    push_all (cursor_prefixes order digits) [], 1%nat))
  end.

(** The variables of the loop before its first turn. *)
Definition start_walk (first : list TimeIndexEntry) (stack : list string) : Walk :=
  {| found := first; pending := stack; asked := 0; edge := EdgeUnknown; edge_checked := false |}.

Definition walk_time_index_as (order : DocKeyOrder) (cursor : option TimeIndexCursor) (limit : nat)
    : result (WalkError E) TimeIndexPage :=
  if Nat.eqb limit 0 then Ok empty_page
  else
    start ← walk_start order cursor limit;
    match start with
    | None => Ok empty_page
    | Some (first, stack, same_second_queries) =>
        '(found, resume, asked) ← walk_loop (walk_fuel stack) order limit (start_walk first stack);
        Ok {| entries := take limit found; resume := resume; queries := asked + same_second_queries |}
    end.
End walk.

Section public.
Context {E Store : Type} `{!KeyIndex E Store} (store : Store) (index_prefix : string).

Definition walk_time_index := walk_time_index_as store index_prefix None.

Definition query_time_index_desc (before : option TimeIndexCursor) (limit : nat) := walk_time_index Descending before limit.
Definition query_time_index_asc (after : option TimeIndexCursor) (limit : nat) := walk_time_index Ascending after limit.
Definition query_time_index_desc_by_author (docs_author : string) (before : option TimeIndexCursor) (limit : nat) :=
  walk_time_index_as store index_prefix (Some docs_author) Descending before limit.

Definition query_time_index_window (not_after_ : Z) (limit : nat) : result (WalkError E) TimeIndexPage :=
  if Nat.eqb limit 0 then Ok empty_page
  else
    page ← ask store None index_prefix Descending (limit + FUTURE_ENTRY_ALLOWANCE + MALFORMED_KEY_ALLOWANCE);
    let es := List.filter (fun e => created_at e <=? not_after_) (parse_entries index_prefix (page_entries page)) in
    if Nat.leb limit (length es) || negb (reached_limit page)
    then Ok {| entries := take limit es; resume := None; queries := 1 |}
    else
      page ← walk_time_index Descending (Some (not_after not_after_)) limit;
      Ok {| entries := entries page; resume := resume page; queries := S (queries page) |}.
End public.

(** ** The in-memory store *)
(** One opened replica of the store ([open_replica] checks the access rule, see
    [Replicas]).  The keys are Rust strings, hence UTF-8. *)
Record MemoryReplica := {
  records : gmap string string;
  own_author : option string;
  records_utf8 : forallb (fun kv => valid_utf8 kv.1) (map_to_list records) = true
}.

Section memory.
Context (value_hash : string -> string).

Definition memory_entry (m : MemoryReplica) (kv : string * string) : DocKeyEntry :=
  {| ke_key := kv.1; content_hash := value_hash kv.2; content_len := str_len kv.2; ke_docs_author := own_author m |}.

Definition order_leb (order : DocKeyOrder) (a b : DocKeyEntry) : bool :=
  match order with Ascending => rust_leb (ke_key a) (ke_key b) | Descending => rust_leb (ke_key b) (ke_key a) end.

Definition memory_query_replica_keys (m : MemoryReplica) (q : DocKeyQuery) : DocKeyPage :=
  let rows := sort_by (order_leb (q_order q))
    (map (memory_entry m) (List.filter (fun kv => starts_with (q_prefix q) kv.1) (map_to_list (records m)))) in
  {| page_entries := take (q_limit q) rows;
     reached_limit := Nat.ltb 0 (q_limit q) && Nat.leb (q_limit q) (length rows) |}.

Definition memory_list_keys (m : MemoryReplica) (docs_author : option string) (q : DocKeyQuery) : DocKeyPage :=
  match docs_author with
  | Some a => if decide (own_author m = Some a) then memory_query_replica_keys m q
              else {| page_entries := []; reached_limit := false |}
  | None => memory_query_replica_keys m q
  end.

#[export] Instance memory_key_index : KeyIndex Empty_set MemoryReplica := fun m a q => Ok (memory_list_keys m a q).
End memory.
