(* ===== verification/TimeIndexSlots.v ===== *)
(** * Digits, time ranges and keys of the time index

    A prefix of the 20 digits of a time is a range of times; the prefixes that a walk
    pushes cut the times before or after its cursor into consecutive ranges; the keys of
    valid entries sort by time. *)
From S2P Require Import Prelude RustStr TimeIndex.

(** ** Decimal windows *)
Lemma pad_digits_app a b n :
  pad_digits (a + b) n = pad_digits a (n / 10 ^ Z.of_nat b) ++s pad_digits b n.
Proof.
  induction a as [|a IH]; [done|]. cbn [Nat.add pad_digits]. rewrite IH. simpl. f_equal. f_equal. f_equal.
  pose proof (pow10_pos a). pose proof (pow10_pos b).
  rewrite Z.div_div by lia. f_equal. rewrite <- Z.pow_add_r by lia. f_equal. lia.
Qed.

Lemma pad_digits_inj w n m :
  0 <= n < 10 ^ Z.of_nat w -> 0 <= m < 10 ^ Z.of_nat w -> pad_digits w n = pad_digits w m -> n = m.
Proof.
  intros Hn Hm E. apply (f_equal (parse_digits 0)) in E. rewrite !parse_digits_pad in E by done. congruence.
Qed.

Lemma pad_digits_mod w n : pad_digits w (n mod 10 ^ Z.of_nat w) = pad_digits w n.
Proof.
  pose proof (pow10_pos w). pose proof (Z.mod_pos_bound n (10 ^ Z.of_nat w) ltac:(lia)).
  destruct (parse_digits_some 0 (pad_digits w n) (pad_digits_digits w n)) as (v & Hv & Hb & Hs & _).
  rewrite pad_digits_length in *. rewrite parse_pad_digits in Hv. simplify_eq.
  rewrite Z.mul_0_l, Z.add_0_l in *. done.
Qed.

(** Appending one digit. *)
Lemma pad_digits_snoc w q k :
  0 <= k < 10 -> pad_digits w q ++s String (digit_char k) "" = pad_digits (S w) (10 * q + k).
Proof.
  intros Hk. replace (S w) with (w + 1)%nat by lia. rewrite pad_digits_app.
  change (10 ^ Z.of_nat 1) with 10. f_equal.
  - f_equal. rewrite Z.mul_comm, Z.div_add_l by lia. rewrite Z.div_small by done. lia.
  - cbn [pad_digits]. f_equal. f_equal. rewrite Z.div_1_r, Z.mul_comm, Z.add_comm, Z.mod_add by lia.
    by rewrite Z.mod_small.
Qed.

Lemma str_app_inj_length a b x y : String.length a = String.length b -> a ++s x = b ++s y -> a = b /\ x = y.
Proof.
  revert b. induction a as [|c a IH]; intros [|d b]; simpl; try done.
  intros [= Hl] [= -> E]. destruct (IH b Hl E) as [-> ->]. done.
Qed.

Lemma str_compare_app p x y : String.compare (p ++s x) (p ++s y) = String.compare x y.
Proof.
  induction p as [|a p IH]; [done|]. simpl. unfold Ascii.compare. by rewrite N.compare_refl.
Qed.

Lemma str_compare_same_length a b x y :
  String.length a = String.length b ->
  String.compare (a ++s x) (b ++s y) = match String.compare a b with Eq => String.compare x y | c => c end.
Proof.
  revert b. induction a as [|c a IH]; intros [|d b]; try done. simpl. intros [= Hl].
  destruct (Ascii.compare c d); [by apply IH | done | done].
Qed.

Lemma digit_compare d e : 0 <= d < 10 -> 0 <= e < 10 -> Ascii.compare (digit_char d) (digit_char e) = Z.compare d e.
Proof.
  intros Hd He.
  assert (Hall : forall n m : nat, (n < 10)%nat -> (m < 10)%nat ->
    Ascii.compare (ascii_of_nat (48 + n)) (ascii_of_nat (48 + m)) = Nat.compare n m).
  { intros n m Hn Hm. do 10 (destruct n as [|n]; [do 10 (destruct m as [|m]; [done|]); lia|]). lia. }
  unfold digit_char. rewrite Hall by lia. rewrite <- Nat2Z.inj_compare. by rewrite !Z2Nat.id by lia.
Qed.

(** Fixed-width decimals compare like numbers. *)
Lemma pad_digits_compare w n m :
  0 <= n < 10 ^ Z.of_nat w -> 0 <= m < 10 ^ Z.of_nat w ->
  String.compare (pad_digits w n) (pad_digits w m) = Z.compare n m.
Proof.
  revert n m. induction w as [|w IH]; intros n m Hn Hm; [simpl in *; replace m with n by lia; by rewrite Z.compare_refl|].
  destruct (pad_digits_head w n Hn) as [-> Hdn]. destruct (pad_digits_head w m Hm) as [-> Hdm].
  cbn [String.compare]. rewrite digit_compare by done.
  rewrite <- (pad_digits_mod w n), <- (pad_digits_mod w m). pose proof (pow10_pos w) as Hp.
  rewrite IH by (apply Z.mod_pos_bound; lia).
  pose proof (Z.div_mod n (10 ^ Z.of_nat w) ltac:(lia)). pose proof (Z.div_mod m (10 ^ Z.of_nat w) ltac:(lia)).
  pose proof (Z.mod_pos_bound n (10 ^ Z.of_nat w) ltac:(lia)). pose proof (Z.mod_pos_bound m (10 ^ Z.of_nat w) ltac:(lia)).
  set (P := 10 ^ Z.of_nat w) in *.
  destruct (Z.compare_spec (n / P) (m / P)) as [E|E|E].
  - destruct (Z.compare_spec (n mod P) (m mod P)); symmetry; [apply Z.compare_eq_iff | apply Z.compare_lt_iff | apply Z.compare_gt_iff]; nia.
  - symmetry. apply Z.compare_lt_iff. nia.
  - symmetry. apply Z.compare_gt_iff. nia.
Qed.

(** ** Ranges of times *)
Abbreviation pow10 w := (10 ^ Z.of_nat (20 - w)).

(** [tp] is the prefix of exactly the times from [lo] up to [hi]; a proper prefix starts
    with 0, as every time that fits an [i64] does. *)
Definition slot (tp : string) (lo hi : Z) : Prop :=
  exists w n, tp = pad_digits w n /\ (w <= 20)%nat /\ 0 <= n < 10 ^ Z.of_nat w
    /\ lo = n * pow10 w /\ hi = (n + 1) * pow10 w /\ (w = 0%nat \/ hi <= 10 ^ 19).

Lemma pow10_split w : (w <= 20)%nat -> 10 ^ Z.of_nat w * pow10 w = 10 ^ 20.
Proof. intros. rewrite <- Z.pow_add_r by lia. f_equal. lia. Qed.

Lemma pow10_next w : (w < 20)%nat -> pow10 w = 10 * pow10 (S w).
Proof. intros. rewrite <- pow10_S. f_equal. lia. Qed.

Lemma slot_pos tp lo hi : slot tp lo hi -> 0 <= lo < hi.
Proof. intros (w & n & -> & Hw & Hn & -> & -> & _). pose proof (pow10_pos (20 - w)). nia. Qed.

Lemma div_between t n p : 0 < p -> t / p = n <-> n * p <= t < (n + 1) * p.
Proof.
  intros Hp. pose proof (Z.div_mod t p ltac:(lia)). pose proof (Z.mod_pos_bound t p Hp). split; [intros <-; nia|].
  intros. symmetry. apply (Z.div_unique t p n (t - n * p)); lia.
Qed.

(** A key of time [t] starts with the prefix exactly when [t] is in its range. *)
Lemma slot_starts tp lo hi ip t rest :
  slot tp lo hi -> 0 <= t < 10 ^ 20 ->
  starts_with (ip ++s tp) (ip ++s pad_digits 20 t ++s rest) = true <-> lo <= t < hi.
Proof.
  intros (w & n & -> & Hw & Hn & -> & -> & _) Ht. pose proof (pow10_pos (20 - w)) as Hp.
  rewrite <- (div_between t n _ Hp), starts_with_true.
  assert (Hpad : pad_digits 20 t = pad_digits w (t / pow10 w) ++s pad_digits (20 - w) t).
  { rewrite <- pad_digits_app. f_equal. lia. }
  assert (Hdiv : 0 <= t / pow10 w < 10 ^ Z.of_nat w).
  { split; [apply Z.div_pos; lia|]. apply Z.div_lt_upper_bound; [lia|].
    rewrite Z.mul_comm, pow10_split by done. lia. }
  split.
  - intros [r Hr]. rewrite str_app_assoc in Hr. apply str_app_inj in Hr. rewrite Hpad, str_app_assoc in Hr.
    apply str_app_inj_length in Hr as [Hr _]; [|by rewrite !pad_digits_length]. by apply pad_digits_inj in Hr.
  - intros <-. exists (pad_digits (20 - w) t ++s rest). rewrite Hpad. by rewrite !str_app_assoc.
Qed.

Lemma str_repeat_zero k : str_repeat "0" k = pad_digits k 0.
Proof. induction k as [|k IH]; [done|]. cbn [str_repeat pad_digits]. rewrite IH. simpl. by rewrite Z.div_0_l by (pose proof (pow10_pos k); lia). Qed.

Lemma str_repeat_nine k : str_repeat "9" k = pad_digits k (10 ^ Z.of_nat k - 1).
Proof.
  induction k as [|k IH]; [done|]. pose proof (pow10_pos k).
  destruct (pad_digits_head k (10 ^ Z.of_nat (S k) - 1)) as [-> _]; [rewrite pow10_S; lia|].
  replace ((10 ^ Z.of_nat (S k) - 1) / 10 ^ Z.of_nat k) with 9.
  - rewrite <- pad_digits_mod. replace ((10 ^ Z.of_nat (S k) - 1) mod 10 ^ Z.of_nat k) with (10 ^ Z.of_nat k - 1).
    + cbn [str_repeat]. by rewrite IH.
    + rewrite pow10_S. apply (Z.mod_unique _ _ 9); lia.
  - rewrite pow10_S. apply (Z.div_unique _ _ 9 (10 ^ Z.of_nat k - 1)); lia.
Qed.

Lemma parse_u64_pad t : 0 <= t < 10 ^ 20 -> parse_u64 (pad_digits 20 t) = if t <=? u64_max then Some t else None.
Proof.
  intros Ht. rewrite parse_u64_digits by (apply pad_digits_digits || (apply pad_digits_nonempty; lia)).
  by rewrite parse_digits_pad.
Qed.

Lemma pad_digits_fill w n z :
  (w <= 20)%nat -> 0 <= z < pow10 w -> pad_digits w n ++s pad_digits (20 - w) z = pad_digits 20 (n * pow10 w + z).
Proof.
  intros Hw Hz. pose proof (pad_digits_app w (20 - w) (n * pow10 w + z)) as Happ.
  replace (w + (20 - w))%nat with 20%nat in Happ by lia. rewrite Happ. f_equal.
  - f_equal. rewrite Z.div_add_l by lia. rewrite Z.div_small by done. lia.
  - rewrite <- (pad_digits_mod _ (n * _ + z)). rewrite Z.add_comm, Z.mod_add by lia. by rewrite Z.mod_small.
Qed.

(** [time_prefix_bounds] computes the range, cut at the largest [u64]. *)
Lemma slot_bounds tp lo hi : slot tp lo hi -> time_prefix_bounds tp = (lo, Z.min (hi - 1) u64_max).
Proof.
  intros (w & n & -> & Hw & Hn & -> & -> & Hcap). unfold time_prefix_bounds. rewrite pad_digits_length.
  pose proof (pow10_pos (20 - w)) as Hp. pose proof (pow10_split w Hw) as Hs.
  rewrite str_repeat_zero, str_repeat_nine. change TIME_DIGITS with 20%nat.
  rewrite !pad_digits_fill by lia. rewrite !parse_u64_pad by nia.
  assert (H19 : 10 ^ 19 <= u64_max) by (vm_compute; discriminate).
  replace (n * pow10 w + (pow10 w - 1)) with ((n + 1) * pow10 w - 1) by lia.
  destruct Hcap as [->|Hcap].
  - assert (n = 0) as -> by (simpl in Hn; lia). by vm_compute.
  - rewrite (proj2 (Z.leb_le (n * pow10 w + 0) u64_max)) by nia. rewrite (proj2 (Z.leb_le _ u64_max)) by nia.
    simpl. f_equal; lia.
Qed.

(** ** Chains of ranges *)

(** [t] lies at or beyond the boundary [b] in the direction of reading. *)
Definition after (order : DocKeyOrder) (b t : Z) : bool :=
  match order with Descending => t <? b | Ascending => b <=? t end.

(** The stack holds consecutive ranges, nearest first, from [b] to the end of the times. *)
Fixpoint chain (order : DocKeyOrder) (b : Z) (stack : list string) : Prop :=
  match stack with
  | [] => match order with Descending => b <= 0 | Ascending => i64_max < b end
  | tp :: stack =>
      exists lo hi, slot tp lo hi
        /\ match order with
           | Descending => b = hi /\ chain order lo stack
           | Ascending => b = lo /\ chain order hi stack
           end
  end.

Section finer_ranges.
Context (w : nat) (q : Z) (Hw : (w < 20)%nat) (Hq : 0 <= q < 10 ^ Z.of_nat w) (Hcap : (q + 1) * pow10 w <= 10 ^ 19).
Abbreviation extend := (fun k : nat => pad_digits w q ++s String (digit_char (Z.of_nat k)) "").

Lemma slot_extend k :
  (k < 10)%nat -> slot (extend k) ((10 * q + Z.of_nat k) * pow10 (S w)) ((10 * q + Z.of_nat k + 1) * pow10 (S w)).
Proof using Hw Hq Hcap.
  intros Hk. exists (S w), (10 * q + Z.of_nat k). pose proof (pow10_next w Hw) as Hn. pose proof (pow10_pos (20 - S w)).
  split; [apply pad_digits_snoc; lia|]. split; [lia|]. split; [rewrite pow10_S; lia|].
  split; [done|]. split; [done|]. right. nia.
Qed.

Lemma chain_desc_finer k stack :
  (k <= 10)%nat -> chain Descending (q * pow10 w) stack ->
  chain Descending ((10 * q + Z.of_nat k) * pow10 (S w)) (rev (map extend (seq 0 k)) ++ stack).
Proof using Hw Hq Hcap.
  intros Hk Hc. induction k as [|k IH].
  - cbn [seq map rev app]. replace ((10 * q + Z.of_nat 0) * pow10 (S w)) with (q * pow10 w); [done|].
    rewrite (pow10_next w Hw). lia.
  - rewrite seq_S, map_app, rev_app_distr. cbn [rev map app Nat.add]. eexists _, _. split; [apply slot_extend; lia|].
    split; [f_equal; lia|]. apply IH. lia.
Qed.

Lemma chain_asc_finer j stack :
  (j <= 10)%nat -> chain Ascending ((q + 1) * pow10 w) stack ->
  chain Ascending ((10 * q + (10 - Z.of_nat j)) * pow10 (S w)) (map extend (seq (10 - j) j) ++ stack).
Proof using Hw Hq Hcap.
  intros Hj Hc. induction j as [|j IH].
  - cbn [seq map app]. replace ((10 * q + (10 - Z.of_nat 0)) * pow10 (S w)) with ((q + 1) * pow10 w); [done|].
    rewrite (pow10_next w Hw). lia.
  - replace (seq (10 - S j) (S j)) with ((10 - S j) :: seq (10 - j) j)%nat.
    2: { cbn [seq]. do 2 f_equal. lia. }
    cbn [map app]. eexists _, _. split; [apply slot_extend; lia|]. split; [f_equal; lia|].
    replace (10 * q + Z.of_nat (10 - S j) + 1) with (10 * q + (10 - Z.of_nat j)) by lia. apply IH. lia.
Qed.
End finer_ranges.

Lemma zero_slot : slot "0" 0 (10 ^ 19).
Proof.
  exists 1%nat, 0. split; [reflexivity|]. split; [lia|]. split; [change (10 ^ Z.of_nat 1) with 10; lia|].
  split; [reflexivity|]. split; [reflexivity|]. right. reflexivity.
Qed.

Lemma slot_empty lo hi : slot "" lo hi -> lo = 0 /\ hi = 10 ^ 20.
Proof.
  intros (w & n & Hw & _ & Hn & -> & -> & _). destruct w as [|w]; [|discriminate].
  change (10 ^ Z.of_nat 0) with 1 in Hn. assert (n = 0) as -> by lia.
  split; [apply Z.mul_0_l | apply Z.mul_1_l].
Qed.

(** The whole range is split into the times whose first digit is 0. *)
Lemma chain_whole order b stack :
  chain order b (""%string :: stack) ->
  exists b', chain order b' ("0"%string :: stack) /\ forall t, 0 <= t <= i64_max -> after order b' t = after order b t.
Proof.
  assert (Hi : i64_max < 10 ^ 19) by (vm_compute; reflexivity).
  intros (lo & hi & Hs & Hb). apply slot_empty in Hs as [-> ->].
  destruct order; destruct Hb as [Hb1 Hb]; subst b.
  - exists 0. split; [|intros; reflexivity]. exists 0, (10 ^ 19). split; [exact zero_slot|]. split; [reflexivity|].
    destruct stack as [|tp stack]; [exact Hi|]. exfalso.
    destruct Hb as (lo & hi & Hslot & Hlo & _). pose proof (slot_pos _ _ _ Hslot) as Hp.
    destruct Hslot as (w & m & _ & _ & Hm & Hlo' & _ & [Hw|Hc]); [|lia].
    subst w. change (10 ^ Z.of_nat 0) with 1 in Hm. assert (m = 0) by lia. subst m. rewrite Z.mul_0_l in Hlo'. lia.
  - exists (10 ^ 19). split.
    + exists 0, (10 ^ 19). split; [exact zero_slot|]. split; [reflexivity | exact Hb].
    + intros t Ht. unfold after. rewrite !(proj2 (Z.ltb_lt _ _)); [reflexivity | lia | lia].
Qed.

(** Splitting a range keeps the chain. *)
Lemma chain_finer order b tp stack :
  chain order b (tp :: stack) -> (String.length tp < TIME_DIGITS)%nat ->
  exists b', chain order b' (push_all (finer order tp) stack)
    /\ forall t, 0 <= t <= i64_max -> after order b' t = after order b t.
Proof.
  intros Hch Hlen. unfold push_all, finer. destruct (str_is_empty tp) eqn:Etp.
  { destruct tp; [|done]. by apply chain_whole. }
  destruct Hch as (lo & hi & (w & n & -> & Hw & Hn & Hlo & Hhi & Hcap) & Hb). rewrite pad_digits_length in Hlen.
  destruct Hcap as [->|Hcap]; [done|]. subst lo hi. change TIME_DIGITS with 20%nat in Hlen. exists b.
  split; [|intros; reflexivity]. destruct order; destruct Hb as [Hb1 Hb]; subst b.
  - rewrite <- map_rev, rev_involutive.
    pose proof (chain_asc_finer w n Hlen Hn Hcap 10 stack ltac:(lia) Hb) as Hc.
    replace ((10 * n + (10 - Z.of_nat 10)) * pow10 (S w)) with (n * pow10 w) in Hc; [exact Hc|].
    rewrite (pow10_next w Hlen). lia.
  - pose proof (chain_desc_finer w n Hlen Hn Hcap 10 stack ltac:(lia) Hb) as Hc.
    replace ((10 * n + Z.of_nat 10) * pow10 (S w)) with ((n + 1) * pow10 w) in Hc; [exact Hc|].
    rewrite (pow10_next w Hlen). lia.
Qed.

(** ** The prefixes around a cursor *)
Section cursor.
Context (c : Z) (Hc : 0 <= c <= i64_max).
Abbreviation digits := (pad_digits 20 c).

Lemma get_pad_digits a b n : String.get a (pad_digits (a + S b) n) = Some (digit_char ((n / 10 ^ Z.of_nat b) mod 10)).
Proof.
  induction a as [|a IH]; [done|]. exact IH.
Qed.

Lemma substring_pad_digits a b n : String.substring 0 a (pad_digits (a + b) n) = pad_digits a (n / 10 ^ Z.of_nat b).
Proof.
  rewrite pad_digits_app. generalize (pad_digits b n). intros r.
  assert (Hs : forall s k, String.length s = k -> String.substring 0 k (s ++s r) = s).
  { induction s as [|x s IH]; intros [|k] Hl; try done; [by destruct r|]. simpl. injection Hl as Hl. by rewrite IH. }
  apply Hs, pad_digits_length.
Qed.

Lemma prefixes_at_pad order p :
  (p < 20)%nat ->
  prefixes_at order digits p =
    let d := Z.to_nat ((c / pow10 (S p)) mod 10) in
    let extend := fun k : nat => pad_digits p (c / pow10 p) ++s String (digit_char (Z.of_nat k)) "" in
    match order with
    | Descending => map extend (seq 0 d)
    | Ascending => if decide (p = 0%nat) then [] else map extend (rev (seq (S d) (9 - d)))
    end.
Proof using.
  intros Hp. unfold prefixes_at.
  pose proof (get_pad_digits p (20 - S p) c) as Hg. replace (p + S (20 - S p))%nat with 20%nat in Hg by lia. rewrite Hg.
  pose proof (substring_pad_digits p (20 - p) c) as Hs. replace (p + (20 - p))%nat with 20%nat in Hs by lia. rewrite Hs.
  rewrite char_digit_char by (apply Z.mod_pos_bound; lia). done.
Qed.

Lemma cursor_prefix_facts p :
  (1 <= p < 20)%nat ->
  0 <= c / pow10 p < 10 ^ Z.of_nat p /\ (c / pow10 p + 1) * pow10 p <= 10 ^ 19
  /\ c / pow10 (S p) = 10 * (c / pow10 p) + (c / pow10 (S p)) mod 10.
Proof using Hc.
  intros Hp. pose proof (pow10_pos (20 - p)) as H1. pose proof (pow10_pos (20 - S p)) as H2.
  assert (Hi : i64_max < 10 ^ 19) by (vm_compute; reflexivity).
  assert (Hsplit : 10 ^ Z.of_nat (p - 1) * pow10 p = 10 ^ 19) by (rewrite <- Z.pow_add_r by lia; f_equal; lia).
  assert (Hq : 0 <= c / pow10 p < 10 ^ Z.of_nat (p - 1)).
  { split; [apply Z.div_pos; lia|]. apply Z.div_lt_upper_bound; [lia|]. rewrite Z.mul_comm, Hsplit. lia. }
  split_and!; [lia | | nia |].
  - apply (Z.lt_le_trans _ (10 ^ Z.of_nat (p - 1))); [lia|]. apply Z.pow_le_mono_r; lia.
  - rewrite (Z.div_mod (c / pow10 (S p)) 10) at 1 by lia. rewrite Z.div_div by lia.
    rewrite (pow10_next p) by lia. f_equal. f_equal. f_equal. lia.
Qed.

Definition stack_to (order : DocKeyOrder) (p : nat) : list string :=
  push_all (concat (map (prefixes_at order digits) (seq 0 p))) [].

Lemma stack_to_S order p : stack_to order (S p) = (rev (prefixes_at order digits p) ++ stack_to order p)%list.
Proof.
  unfold stack_to, push_all. rewrite seq_S, map_app, concat_app, rev_app_distr. simpl. rewrite app_nil_r.
  by rewrite !app_nil_r.
Qed.

Lemma top_digit_zero : c / pow10 1 = 0.
Proof using Hc. apply Z.div_small. assert (i64_max < pow10 1) by (vm_compute; reflexivity). lia. Qed.

Lemma stack_desc p : (1 <= p <= 20)%nat -> chain Descending (c / pow10 p * pow10 p) (stack_to Descending p).
Proof using Hc.
  intros Hp. destruct p as [|p]; [lia|]. induction p as [|p IH].
  - rewrite stack_to_S, prefixes_at_pad by lia. rewrite top_digit_zero. done.
  - rewrite stack_to_S, prefixes_at_pad by lia. cbv zeta.
    destruct (cursor_prefix_facts (S p)) as (Hq & Hcap & Hd); [lia|].
    pose proof (Z.mod_pos_bound (c / pow10 (S (S p))) 10 ltac:(lia)) as Hm.
    pose proof (chain_desc_finer (S p) _ ltac:(lia) Hq Hcap (Z.to_nat ((c / pow10 (S (S p))) mod 10)) (stack_to Descending (S p))
      ltac:(lia) (IH ltac:(lia))) as Hch.
    rewrite Z2Nat.id, <- Hd in Hch by lia. exact Hch.
Qed.

Lemma stack_asc p : (1 <= p <= 20)%nat -> chain Ascending ((c / pow10 p + 1) * pow10 p) (stack_to Ascending p).
Proof using Hc.
  intros Hp. destruct p as [|p]; [lia|]. induction p as [|p IH].
  - rewrite stack_to_S, prefixes_at_pad by lia. rewrite top_digit_zero. vm_compute. reflexivity.
  - rewrite stack_to_S, prefixes_at_pad by lia. cbv zeta. rewrite decide_False by lia.
    destruct (cursor_prefix_facts (S p)) as (Hq & Hcap & Hd); [lia|].
    pose proof (Z.mod_pos_bound (c / pow10 (S (S p))) 10 ltac:(lia)) as Hm.
    set (d := Z.to_nat ((c / pow10 (S (S p))) mod 10)).
    pose proof (chain_asc_finer (S p) _ ltac:(lia) Hq Hcap (9 - d) (stack_to Ascending (S p))
      ltac:(lia) (IH ltac:(lia))) as Hch.
    replace (10 - (9 - d))%nat with (S d) in Hch by lia.
    replace (10 * (c / pow10 (S p)) + (10 - Z.of_nat (9 - d))) with (c / pow10 (S (S p)) + 1) in Hch by lia.
    rewrite <- map_rev, rev_involutive. exact Hch.
Qed.

(** The stack of a walk covers all times strictly beyond the cursor's second. *)
Lemma cursor_chain order :
  chain order (match order with Descending => c | Ascending => c + 1 end) (push_all (cursor_prefixes order digits) []).
Proof using Hc.
  destruct order.
  - pose proof (stack_asc 20 ltac:(lia)) as H. rewrite Z.div_1_r, Z.mul_1_r in H. exact H.
  - pose proof (stack_desc 20 ltac:(lia)) as H. rewrite Z.div_1_r, Z.mul_1_r in H. exact H.
Qed.
End cursor.

Lemma whole_slot : slot "" 0 (10 ^ 20).
Proof.
  exists 0%nat, 0. split; [reflexivity|]. split; [lia|]. split; [change (10 ^ Z.of_nat 0) with 1; lia|].
  split; [reflexivity|]. split; [reflexivity | by left].
Qed.

(** The empty prefix covers everything. *)
Lemma whole_chain order : chain order (match order with Descending => 10 ^ 20 | Ascending => 0 end) [""%string].
Proof.
  destruct order; exists 0, (10 ^ 20); (split; [exact whole_slot|]); (split; [reflexivity|]); [reflexivity | done].
Qed.
