(* ===== verification/TimeIndexWalk.v ===== *)
(** * The walk over the time index

    The laws of a document store, the entries of an index in order of time, and what the
    loop of the walk has read after every turn. *)
From S2P Require Import Prelude RustStr TimeIndex TimeIndexSlots.

#[local] Arguments pad_digits : simpl never.

(** ** Stores *)
Definition in_order {A} (order : DocKeyOrder) (l : list A) : list A :=
  match order with Ascending => l | Descending => rev l end.

Definition hits (order : DocKeyOrder) (prefix : string) (rows : list DocKeyEntry) : list DocKeyEntry :=
  List.filter (fun r => starts_with prefix (ke_key r)) (in_order order rows).

(** What [DocsSync] documents: the rows of a replica, by one author or by all, in the
    order of their keys; a query reads at most [limit] of those with the prefix, skips keys
    that are not UTF-8, and says whether it stopped at the limit. *)
Class KeyIndexLaws (E Store : Type) `{KeyIndex E Store} := {
  rows : Store -> option string -> list DocKeyEntry;
  rows_sorted : forall s a, StronglySorted (fun x y => rust_leb (ke_key x) (ke_key y) = true) (rows s a);
  list_keys_spec : forall s a q page, list_keys s a q = Ok page ->
    let found := hits (q_order q) (q_prefix q) (rows s a) in
    page_entries page = List.filter (fun r => valid_utf8 (ke_key r)) (take (q_limit q) found)
    /\ reached_limit page = Nat.ltb 0 (q_limit q) && Nat.leb (q_limit q) (length found)
}.


(** ** Entries in order *)

(** The shape of a valid key. *)
Lemma parse_entry_spec ip r e :
  parse_entry ip r = Some e ->
  0 <= created_at e <= i64_max /\ object_id e <> ""
  /\ ke_key r = ip ++s pad_digits 20 (created_at e) ++s "-" ++s object_id e ++s "/" ++s object_id e.
Proof.
  unfold parse_entry. destruct (strip_prefix ip (ke_key r)) as [rest|] eqn:Ep; [|done]. cbn.
  apply strip_prefix_some in Ep as ->.
  destruct (rsplit_once "/" rest) as [[sk id]|] eqn:Er; [|done]. cbn. apply rsplit_once_spec in Er as [-> _].
  destruct (split_once "-" sk) as [[time sid]|] eqn:Es; [|done]. cbn. apply split_once_spec in Es as ->.
  match goal with |- context [if ?b then _ else _] => destruct b eqn:Ec; [done|] end. destruct_bools. subst sid.
  destruct (parse_i64 time) as [t|] eqn:Et; [|done]. cbn. intros [= <-]. cbn [created_at object_id].
  assert (Hlen : String.length time = 20%nat).
  { match goal with Hl : (str_len time =? _) = true |- _ => apply Z.eqb_eq, Nat2Z.inj in Hl; exact Hl end. }
  assert (Hne : time <> "") by (intros ->; done).
  destruct (parse_digits_some 0 time) as (v & Hv & Hb & Hs & _); [done|]. rewrite Hlen in *.
  rewrite parse_i64_digits, Hv in Et by done. cbn in Et. destruct (Z.leb_spec v i64_max); [|done]. injection Et as <-.
  split; [lia|]. split; [by destruct id|]. rewrite <- Hs. by rewrite !str_app_assoc.
Qed.

Lemma i64_in_20_digits t : 0 <= t <= i64_max -> 0 <= t < 10 ^ 20.
Proof. intros Ht. assert (i64_max < 10 ^ 20) by (vm_compute; reflexivity). lia. Qed.

(** Keys sort by time. *)
Lemma parse_entry_mono ip r r' e e' :
  parse_entry ip r = Some e -> parse_entry ip r' = Some e' -> rust_leb (ke_key r) (ke_key r') = true ->
  created_at e <= created_at e'.
Proof.
  intros (Ht & _ & Hk)%parse_entry_spec (Ht' & _ & Hk')%parse_entry_spec. rewrite Hk, Hk'.
  unfold rust_leb, rust_cmp, string_rust_ord. rewrite str_compare_app, str_compare_same_length by by rewrite !pad_digits_length.
  rewrite pad_digits_compare by (by apply i64_in_20_digits).
  destruct (Z.compare_spec (created_at e) (created_at e')); [lia | lia | done].
Qed.

Section index.
Context (ip : string).

Definition valid_of (l : list DocKeyEntry) : list TimeIndexEntry :=
  omap (parse_entry ip) (List.filter (fun r => valid_utf8 (ke_key r)) l).

Lemma elem_of_valid_of e l : e ∈ valid_of l <-> exists r, r ∈ l /\ valid_utf8 (ke_key r) = true /\ parse_entry ip r = Some e.
Proof.
  unfold valid_of. rewrite list_elem_of_omap. setoid_rewrite elem_of_filter_bool. naive_solver.
Qed.

Lemma valid_of_app l l' : valid_of (l ++ l') = (valid_of l ++ valid_of l')%list.
Proof. unfold valid_of. by rewrite List.filter_app, omap_app. Qed.

(** A filter on keys that only looks at the time of valid keys. *)
Lemma valid_of_filter (P : DocKeyEntry -> bool) (Q : TimeIndexEntry -> bool) l :
  (forall r e, parse_entry ip r = Some e -> P r = Q e) -> valid_of (List.filter P l) = List.filter Q (valid_of l).
Proof.
  intros HPQ. unfold valid_of. rewrite <- (omap_filter _ P) by eauto. f_equal.
  clear HPQ. induction l as [|x l IH]; [done|]. cbn. destruct (P x) eqn:EP, (valid_utf8 (ke_key x)) eqn:EU; cbn; rewrite ?EP, ?EU, IH; done.
Qed.

Lemma valid_of_slot tp lo hi l :
  slot tp lo hi ->
  valid_of (List.filter (fun r => starts_with (ip ++s tp) (ke_key r)) l)
  = List.filter (fun e => (lo <=? created_at e) && (created_at e <? hi)) (valid_of l).
Proof.
  intros Hs. apply valid_of_filter. intros r e (Ht & _ & ->)%parse_entry_spec.
  apply eq_true_iff_eq. rewrite (slot_starts tp lo hi) by (done || by apply i64_in_20_digits). lia.
Qed.

(** All keys of one second. *)
Lemma valid_of_second t l :
  0 <= t <= i64_max ->
  valid_of (List.filter (fun r => starts_with (ip ++s pad_digits 20 t ++s "-") (ke_key r)) l)
  = List.filter (fun e => created_at e =? t) (valid_of l).
Proof.
  intros Ht0. apply valid_of_filter. intros r e (Ht & _ & ->)%parse_entry_spec.
  apply eq_true_iff_eq. rewrite starts_with_true, Z.eqb_eq. split.
  - intros [rest Hr]. rewrite !str_app_assoc in Hr. apply str_app_inj in Hr.
    apply str_app_inj_length in Hr as [Hr _]; [|by rewrite !pad_digits_length].
    apply pad_digits_inj in Hr; [done | by apply i64_in_20_digits | by apply i64_in_20_digits].
  - intros ->. exists (object_id e ++s "/" ++s object_id e). by rewrite !str_app_assoc.
Qed.

Lemma valid_of_prefix l : valid_of (List.filter (fun r => starts_with ip (ke_key r)) l) = valid_of l.
Proof.
  rewrite (valid_of_filter _ (fun _ => true)).
  - induction (valid_of l) as [|x v IH]; [done|]. cbn. by rewrite IH.
  - intros r e (_ & _ & ->)%parse_entry_spec. apply starts_with_app.
Qed.

(** Keys that are not entries. *)
Definition malformed (r : DocKeyEntry) : bool :=
  negb (valid_utf8 (ke_key r)) || match parse_entry ip r with Some _ => false | None => true end.

Lemma valid_malformed_length l : (length (valid_of l) + length (List.filter malformed l))%nat = length l.
Proof.
  unfold valid_of, malformed. induction l as [|x l IH]; [done|]. cbn.
  destruct (valid_utf8 (ke_key x)); cbn; [destruct (parse_entry ip x); cbn|]; cbn in IH; lia.
Qed.

(** Time order in the direction of reading. *)
Definition reads_before (order : DocKeyOrder) (e e' : TimeIndexEntry) : Prop :=
  match order with Ascending => created_at e <= created_at e' | Descending => created_at e' <= created_at e end.

Lemma StronglySorted_app_inv' {A} (R : A -> A -> Prop) l x : StronglySorted R (l ++ [x]) -> StronglySorted R l /\ Forall (fun y => R y x) l.
Proof.
  induction l as [|y l IH]; cbn; intros Hs; [split; constructor|]. inversion Hs as [|? ? Hs' Hall]; subst.
  destruct (IH Hs') as [Hs1 Hx]. apply Forall_app in Hall as [Hall Hyx]. inversion Hyx; subst.
  split; by constructor.
Qed.

Lemma rev_sorted {A} (R : A -> A -> Prop) l : StronglySorted R l -> StronglySorted (fun x y => R y x) (rev l).
Proof.
  induction l as [|x l IH] using rev_ind; [constructor|]. intros [Hs Hx]%StronglySorted_app_inv'.
  rewrite rev_app_distr. cbn. constructor; [by apply IH|].
  rewrite Forall_forall in *. intros y Hy. apply Hx. by rewrite list_elem_of_In, in_rev, <- list_elem_of_In.
Qed.

Lemma valid_of_sorted order l :
  StronglySorted (fun x y => rust_leb (ke_key x) (ke_key y) = true) l ->
  StronglySorted (reads_before order) (valid_of (in_order order l)).
Proof.
  intros Hs.
  assert (Hgen : forall (R : DocKeyEntry -> DocKeyEntry -> Prop) (R' : TimeIndexEntry -> TimeIndexEntry -> Prop) l,
    (forall r r' e e', R r r' -> parse_entry ip r = Some e -> parse_entry ip r' = Some e' -> R' e e') ->
    StronglySorted R l -> StronglySorted R' (valid_of l)).
  { intros R R' l' HR. induction 1 as [|x l' Hs' IH Hall]; [constructor|]. unfold valid_of. cbn.
    destruct (valid_utf8 (ke_key x)); [|exact IH]. cbn. destruct (parse_entry ip x) as [e|] eqn:E; [|exact IH].
    constructor; [exact IH|]. apply Forall_forall. intros e' (r & Hr & _ & Hp)%elem_of_valid_of.
    rewrite Forall_forall in Hall. eauto. }
  destruct order; cbn.
  - eapply Hgen; [|exact Hs]. cbn. intros. by eapply parse_entry_mono.
  - eapply Hgen; [|by apply rev_sorted]. cbn. intros. by eapply parse_entry_mono.
Qed.
End index.

(** ** The loop *)
Lemma take_prefix_long {A} (n : nat) (l v v' : list A) :
  (n <= length l + length v)%nat -> take n (l ++ v) = take n (l ++ v ++ v').
Proof. intros Hn. rewrite app_assoc, (take_app_le (l ++ v)); [done|]. rewrite length_app. lia. Qed.

Lemma take_eq_short {A} (n : nat) (l l' : list A) : (length l < n)%nat -> take n l = take n l' -> l = l'.
Proof.
  intros Hl Heq. rewrite (take_ge l) in Heq by lia. rewrite Heq. apply take_ge.
  rewrite Heq, length_take in Hl. lia.
Qed.

Section walk.
Context {E Store : Type} `{KeyIndexLaws E Store} (store : Store) (ip : string) (author : option string).
Abbreviation all_rows := (rows store author).

(** The valid entries of the index in the direction of reading. *)
Definition index_of (order : DocKeyOrder) : list TimeIndexEntry := valid_of ip (in_order order all_rows).

(** No second holds more malformed keys than a query has room for. *)
Definition calm_seconds : Prop :=
  forall t, 0 <= t <= i64_max ->
    (length (List.filter (malformed ip) (List.filter (fun r => starts_with (ip ++s pad_digits 20 t) (ke_key r)) all_rows))
     <= MALFORMED_KEY_ALLOWANCE)%nat.

Abbreviation timed f := (fun e => f (created_at e)).

Lemma index_sorted order : StronglySorted (reads_before order) (index_of order).
Proof. apply valid_of_sorted, rows_sorted. Qed.

Lemma index_range order e : e ∈ index_of order -> 0 <= created_at e <= i64_max /\ object_id e <> "".
Proof. intros (r & _ & _ & Hp)%elem_of_valid_of. apply parse_entry_spec in Hp. naive_solver. Qed.

Lemma elem_of_in_order {A} order (l : list A) x : x ∈ in_order order l <-> x ∈ l.
Proof. destruct order; cbn; [done|]. by rewrite !list_elem_of_In, <- in_rev. Qed.

Lemma elem_of_index order order' e : e ∈ index_of order <-> e ∈ index_of order'.
Proof. unfold index_of. rewrite !elem_of_valid_of. by setoid_rewrite elem_of_in_order. Qed.

(** What a query returns. *)
Lemma ask_spec prefix order limit page :
  ask store author prefix order limit = Ok page ->
  parse_entries ip (page_entries page) = valid_of ip (take limit (hits order prefix all_rows))
  /\ reached_limit page = Nat.ltb 0 limit && Nat.leb limit (length (hits order prefix all_rows)).
Proof.
  unfold ask. destruct (list_keys store author _) as [p|] eqn:El; [|done]. intros [= <-].
  apply list_keys_spec in El as [Hp Hr]. cbn in *. rewrite Hp. split; [done | exact Hr].
Qed.

(** A query that did not stop at its limit returned everything. *)
Lemma ask_complete limit (l : list DocKeyEntry) :
  (0 < limit)%nat -> Nat.ltb 0 limit && Nat.leb limit (length l) = false -> take limit l = l.
Proof.
  intros Hl Hr. apply take_ge. destruct (Nat.ltb_spec 0 limit), (Nat.leb_spec limit (length l)); simpl in Hr; try done; lia.
Qed.

Lemma valid_of_hits order tp lo hi :
  slot tp lo hi ->
  valid_of ip (hits order (ip ++s tp) all_rows)
  = List.filter (fun e => (lo <=? created_at e) && (created_at e <? hi)) (index_of order).
Proof. intros. unfold hits. by apply valid_of_slot. Qed.

Definition edge_ok (order : DocKeyOrder) (ed : IndexEdge) : Prop :=
  match ed with
  | EdgeUnknown => True
  | EdgeAt t => forall e, e ∈ index_of order ->
      match order with Descending => t <= created_at e | Ascending => created_at e <= t end
  | EdgeEmpty => index_of order = []
  end.

Lemma index_edge_spec order ed : index_edge store ip author order = Ok ed -> edge_ok order ed.
Proof.
  unfold index_edge. intros (page & Hp & Heq)%result_bind_ok. apply ask_spec in Hp as [Hpe Hr]. rewrite Hpe in Heq.
  set (h := hits (opposite order) ip all_rows) in *.
  assert (Hidx : index_of (opposite order) = valid_of ip h) by (unfold h, hits; by rewrite valid_of_prefix).
  assert (Happ : valid_of ip h = (valid_of ip (take (MALFORMED_KEY_ALLOWANCE + 1) h) ++ valid_of ip (drop (MALFORMED_KEY_ALLOWANCE + 1) h))%list).
  { by rewrite <- valid_of_app, take_drop. }
  destruct (valid_of ip (take _ h)) as [|e v] eqn:Ev.
  - destruct (reached_limit page) eqn:Et; injection Heq as <-; [done|]. cbn.
    symmetry in Hr. apply ask_complete in Hr; [|unfold MALFORMED_KEY_ALLOWANCE; lia]. rewrite Hr in Ev.
    destruct (index_of order) as [|x l] eqn:Ex; [done|]. exfalso.
    assert (Hx : x ∈ index_of (opposite order)) by (apply (elem_of_index _ order); rewrite Ex; apply list_elem_of_here).
    rewrite Hidx, Ev in Hx. by apply not_elem_of_nil in Hx.
  - assert (He : e ∈ index_of (opposite order)) by (rewrite Hidx, Happ; apply list_elem_of_here).
    destruct (index_range _ _ He) as [Hrange _]. rewrite (proj2 (Z.leb_le _ _)) in Heq by lia. injection Heq as <-.
    intros x Hx%(elem_of_index _ (opposite order)).
    pose proof (index_sorted (opposite order)) as Hs. rewrite Hidx, Happ in Hs, Hx. cbn in Hs, Hx.
    inversion Hs as [|? ? _ Hall]; subst. rewrite Forall_forall in Hall.
    apply elem_of_cons in Hx as [->|Hx]; [destruct order; lia|]. specialize (Hall x Hx). by destruct order.
Qed.

(** Popping the nearest range off the remaining times. *)
Lemma chain_pop order b tp rest :
  chain order b (tp :: rest) ->
  exists lo hi b', slot tp lo hi /\ chain order b' rest
    /\ match order with Descending => b = hi /\ b' = lo | Ascending => b = lo /\ b' = hi end
    /\ List.filter (timed (after order b)) (index_of order)
       = (List.filter (fun e => (lo <=? created_at e) && (created_at e <? hi)) (index_of order)
          ++ List.filter (timed (after order b')) (index_of order))%list.
Proof.
  intros (lo & hi & Hs & Hb). pose proof (slot_pos _ _ _ Hs). pose proof (index_sorted order) as Hsort.
  destruct order; destruct Hb as [-> Hb]; [exists lo, hi, hi | exists lo, hi, lo]; (split; [done|]; split; [done|]; split; [done|]);
    apply (filter_sorted_split _ _ _ _ _ Hsort); unfold after, reads_before in *.
  all: intros; lia.
Qed.

(** Under [precise] nothing is lost; it includes that no second is flooded. *)
Context (precise : Prop) (Hprecise : precise -> calm_seconds).

Record walk_inv (order : DocKeyOrder) (limit : nat) (ref : list TimeIndexEntry) (w : Walk) (b : Z) (l : list TimeIndexEntry) : Prop := {
  wi_chain : chain order b (pending w);
  wi_ref : ref = (l ++ List.filter (timed (after order b)) (index_of order))%list;
  wi_sub : found w `sublist_of` l;
  wi_exact : precise -> take limit (found w) = take limit l;
  wi_edge : edge_ok order (edge w);
  wi_asked : (asked w <= MAX_WALK_QUERIES)%nat
}.

Definition walk_measure (w : Walk) : nat := (12 * (MAX_WALK_QUERIES - asked w) + length (pending w))%nat.

(** Malformed keys cannot hide entries of a single second. *)
Lemma calm_second_read order tp lo hi needed :
  calm_seconds -> slot tp lo hi -> lo <= i64_max -> (TIME_DIGITS <= String.length tp)%nat ->
  let h := hits order (ip ++s tp) all_rows in
  (needed + MALFORMED_KEY_ALLOWANCE <= length h)%nat ->
  (needed <= length (valid_of ip (take (needed + MALFORMED_KEY_ALLOWANCE) h)))%nat.
Proof.
  intros Hcalm Hs Hlo Hlen h Hh. set (k := (needed + MALFORMED_KEY_ALLOWANCE)%nat) in *.
  pose proof (valid_malformed_length ip (take k h)) as Hcount. rewrite length_take, Nat.min_l in Hcount by lia.
  enough (length (List.filter (malformed ip) (take k h)) <= MALFORMED_KEY_ALLOWANCE)%nat by lia.
  transitivity (length (List.filter (malformed ip) h)).
  { rewrite <- (take_drop k h) at 2. rewrite List.filter_app, length_app. lia. }
  destruct Hs as (w & n & -> & Hw & Hn & Elo & _). rewrite pad_digits_length in Hlen. unfold TIME_DIGITS in Hlen.
  assert (w = 20%nat) as -> by lia. change (10 ^ Z.of_nat (20 - 20)) with 1 in Elo. rewrite Z.mul_1_r in Elo. subst lo.
  etrans; [|apply (Hcalm n); lia]. unfold h, hits.
  assert (Hperm : in_order order all_rows ≡ₚ all_rows) by (destruct order; cbn; [done | by rewrite <- Permutation_rev]).
  clear - Hperm. apply Nat.eq_le_incl. apply Permutation_length.
  revert Hperm. generalize (in_order order all_rows) as l1, all_rows as l2.
  set (P := fun r => starts_with (ip ++s pad_digits 20 n) (ke_key r)). intros l1 l2 Hp.
  by apply filter_bool_perm, filter_bool_perm.
Qed.

(** One query extends what was read. *)
Lemma read_extends order limit ref w b l tp lo hi rest b' page :
  walk_inv order limit ref w b l -> pending w = tp :: rest -> (length (found w) < limit)%nat ->
  slot tp lo hi -> lo <= i64_max -> chain order b' rest ->
  List.filter (timed (after order b)) (index_of order)
    = (List.filter (fun e => (lo <=? created_at e) && (created_at e <? hi)) (index_of order)
       ++ List.filter (timed (after order b')) (index_of order))%list ->
  ask store author (ip ++s tp) order (limit - length (found w) + MALFORMED_KEY_ALLOWANCE) = Ok page ->
  let valid := parse_entries ip (page_entries page) in
  reached_limit page && Nat.ltb (length valid) (limit - length (found w)) && Nat.ltb (String.length tp) TIME_DIGITS = false ->
  forall n ed ck, (n <= MAX_WALK_QUERIES)%nat -> edge_ok order ed ->
  exists l', walk_inv order limit ref
    {| found := (found w ++ valid)%list; pending := rest; asked := n; edge := ed; edge_checked := ck |} b' l'.
Proof.
  intros Hi Ep Hlim Hs Hlo Hch Hsplit Ha valid Hcond n ed ck Hn Hed.
  set (needed := (limit - length (found w))%nat) in *. set (h := hits order (ip ++s tp) all_rows).
  apply ask_spec in Ha as [Hv Hr]. fold valid in Hv. fold h in Hv, Hr.
  assert (HF : valid_of ip h = List.filter (fun e => (lo <=? created_at e) && (created_at e <? hi)) (index_of order))
    by by apply valid_of_hits.
  assert (Happ : valid_of ip h = (valid ++ valid_of ip (drop (needed + MALFORMED_KEY_ALLOWANCE) h))%list).
  { rewrite Hv, <- valid_of_app, take_drop. done. }
  exists (l ++ valid_of ip h)%list. constructor; cbn; try done.
  - rewrite (wi_ref _ _ _ _ _ _ Hi), Hsplit, HF. by rewrite app_assoc.
  - apply sublist_app; [apply Hi|]. rewrite Happ. apply sublist_inserts_r. done.
  - intros Hcalm. assert (Hfl : found w = l) by (eapply take_eq_short; [done | by apply Hi]). rewrite <- Hfl.
    destruct (reached_limit page) eqn:Et.
    + rewrite Happ. apply take_prefix_long. enough (needed <= length valid)%nat by lia.
      destruct (Nat.ltb_spec (length valid) needed) as [Hshort|]; [|done]. simpl in Hcond.
      apply Nat.ltb_ge in Hcond. rewrite Hv. eapply calm_second_read; try done; [by apply Hprecise|].
      symmetry in Hr. apply andb_prop in Hr as [_ Hr]. by apply Nat.leb_le.
    + f_equal. f_equal. rewrite Hv. f_equal. apply ask_complete; [unfold MALFORMED_KEY_ALLOWANCE; lia | done].
Qed.

Lemma absorb_spec order limit ref w b l tp rest page :
  walk_inv order limit ref w b l -> pending w = tp :: rest -> (length (found w) < limit)%nat ->
  (time_prefix_bounds tp).1 <= i64_max -> (asked w < MAX_WALK_QUERIES)%nat ->
  ask store author (ip ++s tp) order (limit - length (found w) + MALFORMED_KEY_ALLOWANCE) = Ok page ->
  match absorb store ip author order limit tp rest page w with
  | Ok (Some w') => (exists b' l', walk_inv order limit ref w' b' l') /\ (walk_measure w' < walk_measure w)%nat
  | Ok None => index_of order = [] /\ (S (S (asked w)) <= MAX_WALK_QUERIES)%nat
  | Err OutOfFuel => False
  | Err (QueryFailed _) => True
  end.
Proof.
  intros Hi Ep Hlim Hlo Hasked Ha. pose proof (wi_chain _ _ _ _ _ _ Hi) as Hch. rewrite Ep in Hch.
  destruct (chain_pop _ _ _ _ Hch) as (lo & hi & b' & Hs & Hch' & _ & Hsplit).
  rewrite (slot_bounds _ _ _ Hs) in Hlo. cbn in Hlo. unfold absorb.
  destruct (reached_limit page && Nat.ltb (length (parse_entries ip (page_entries page))) (limit - length (found w))
    && Nat.ltb (String.length tp) TIME_DIGITS) eqn:Ec.
  - apply andb_prop in Ec as [_ Hlen]. apply Nat.ltb_lt in Hlen.
    destruct (chain_finer _ _ _ _ Hch Hlen) as (b2 & Hch2 & Hafter). split.
    + exists b2, l. destruct Hi as [? Href ? ? ? ?]. constructor; cbn; try done. rewrite Href. f_equal.
      apply filter_same. intros e He. symmetry. apply Hafter. by apply (index_range order e).
    + unfold walk_measure; cbn [asked pending]. rewrite Ep; cbn [length]. unfold push_all. rewrite length_app, length_rev.
      assert (length (finer order tp) <= 10)%nat.
      { unfold finer. destruct (str_is_empty tp); cbn; [lia|]. destruct order; cbn; lia. }
      lia.
  - pose proof (read_extends _ _ _ _ _ _ _ _ _ _ _ _ Hi Ep Hlim Hs Hlo Hch' Hsplit Ha Ec) as Hext.
    match goal with |- context [if ?c then _ else _] => destruct c eqn:Ecase end.
    + apply andb_prop in Ecase as [_ Hq]. apply Nat.ltb_lt in Hq.
      destruct (index_edge store ip author order) as [ed|[e|]] eqn:Ee; cbn; [|done|].
      * pose proof (index_edge_spec _ _ Ee) as Hed. destruct (decide (ed = EdgeEmpty)) as [->|Hne]; [split; [done | lia]|].
        split; [exists b'; apply Hext; [lia | done]|]. unfold walk_measure; cbn [asked pending]. rewrite Ep; cbn [length]. lia.
      * unfold index_edge, ask in Ee. by destruct (list_keys store author _).
    + split; [exists b'; apply Hext; [lia | apply Hi]|]. unfold walk_measure; cbn [asked pending]. rewrite Ep; cbn [length]. lia.
Qed.

(** The entries that a read from a cursor is about. *)
Definition beyond (order : DocKeyOrder) (c : TimeIndexCursor) (e : TimeIndexEntry) : bool :=
  match order with
  | Descending => (created_at e <? cur_created_at c) || ((created_at e =? cur_created_at c) && rust_ltb (object_id e) (cur_object_id c))
  | Ascending => (cur_created_at c <? created_at e) || ((created_at e =? cur_created_at c) && rust_ltb (cur_object_id c) (object_id e))
  end.

Lemma ltb_empty s : rust_ltb s "" = false.
Proof. by destruct s. Qed.

Lemma empty_ltb s : s <> "" -> rust_ltb "" s = true.
Proof. by destruct s. Qed.

(** No entry at the last representable second, whose resume cursor would saturate. *)
Definition no_last_second : Prop := forall order e, e ∈ index_of order -> created_at e < i64_max.

(** Resuming continues where the loop stopped. *)
Lemma resume_beyond order b tp lo hi :
  no_last_second -> slot tp lo hi -> lo <= i64_max ->
  match order with Descending => b = hi | Ascending => b = lo end ->
  List.filter (beyond order (resume_at order (time_prefix_bounds tp))) (index_of order)
  = List.filter (timed (after order b)) (index_of order).
Proof.
  intros Hlast Hs Hlo Hb. rewrite (slot_bounds _ _ _ Hs). pose proof (slot_pos _ _ _ Hs).
  apply filter_same. intros e He. destruct (index_range _ _ He) as [Hr Hid]. specialize (Hlast _ _ He).
  destruct order; subst b; cbn [beyond resume_at after fst snd not_before not_after cur_created_at cur_object_id].
  - unfold clamp_time. rewrite (proj2 (Z.leb_le lo i64_max) Hlo). rewrite (empty_ltb _ Hid). lia.
  - rewrite ltb_empty, andb_false_r, orb_false_r. unfold clamp_time, i64_saturating_add, sat_i64, i64_min.
    assert (i64_max < u64_max) by (vm_compute; reflexivity). assert (0 < i64_max) by (vm_compute; reflexivity).
    destruct (Z.leb_spec (Z.min (hi - 1) u64_max) i64_max); lia.
Qed.

Definition walk_post (order : DocKeyOrder) (limit : nat) (ref : list TimeIndexEntry)
    (r : result (WalkError E) (list TimeIndexEntry * option TimeIndexCursor * nat)) : Prop :=
  match r with
  | Ok (es, res, n) => (n <= MAX_WALK_QUERIES)%nat /\ exists l rest, ref = (l ++ rest)%list /\ es `sublist_of` l
      /\ match res with
         | None => precise -> take limit es = take limit ref
         | Some c => (length es < limit)%nat /\ (precise -> es = l)
             /\ (no_last_second -> rest = List.filter (beyond order c) (index_of order))
         end
  | Err OutOfFuel => False
  | Err (QueryFailed _) => True
  end.

Lemma chain_done order b : chain order b [] -> List.filter (timed (after order b)) (index_of order) = [].
Proof.
  intros Hch. apply filter_none. intros e He. apply index_range in He as [He _]. cbn in Hch. unfold after.
  destruct order; lia.
Qed.

(** The loop ends with nothing left to read. *)
Lemma walk_end order limit ref w b l :
  walk_inv order limit ref w b l -> List.filter (timed (after order b)) (index_of order) = [] ->
  walk_post order limit ref (Ok (found w, None, asked w)).
Proof.
  intros Hi Hnone. pose proof (wi_ref _ _ _ _ _ _ Hi) as Href. rewrite Hnone, app_nil_r in Href. subst ref.
  split; [apply Hi|]. exists l, []. split; [by rewrite app_nil_r|]. split; [apply Hi | apply Hi].
Qed.

Lemma walk_loop_spec fuel order limit ref w b l :
  walk_inv order limit ref w b l -> (walk_measure w <= fuel)%nat ->
  walk_post order limit ref (walk_loop store ip author fuel order limit w).
Proof.
  revert w b l. induction fuel as [|fuel IH]; intros w b l Hi Hf; pose proof (wi_chain _ _ _ _ _ _ Hi) as Hch.
  { assert (Hp : pending w = []) by (destruct (pending w) eqn:Ep; [done | unfold walk_measure in Hf; rewrite Ep in Hf; cbn [length] in Hf; lia]).
    cbn [walk_loop]. rewrite Hp in *. eapply walk_end; [done | by apply chain_done]. }
  cbn [walk_loop]. destruct (pending w) as [|tp rest] eqn:Ep; [eapply walk_end; [done | by apply chain_done]|].
  destruct (chain_pop _ _ _ _ Hch) as (lo & hi & b' & Hs & Hch' & Hb & Hsplit). pose proof (slot_pos _ _ _ Hs) as Hpos.
  destruct (Nat.leb_spec limit (length (found w))) as [Hfull|Hlim].
  { split; [apply Hi|]. exists l, (List.filter (timed (after order b)) (index_of order)).
    split; [apply Hi|]. split; [apply Hi|]. intros Hcalm. pose proof (wi_exact _ _ _ _ _ _ Hi Hcalm) as Hx.
    rewrite (wi_ref _ _ _ _ _ _ Hi), Hx. rewrite take_app_le; [done|].
    apply (f_equal length) in Hx. rewrite !length_take in Hx. lia. }
  assert (Hbounds : time_prefix_bounds tp = (lo, Z.min (hi - 1) u64_max)) by by apply slot_bounds.
  assert (Hfst : (time_prefix_bounds tp).1 = lo) by by rewrite Hbounds.
  destruct (Z.ltb_spec i64_max (time_prefix_bounds tp).1) as [Hbig|Hlo].
  { rewrite Hfst in Hbig. destruct order.
    - eapply walk_end; [done|]. apply filter_none. intros e He. apply index_range in He as [He _].
      destruct Hb as [-> _]. unfold after. lia.
    - eapply (IH _ b' l).
      + destruct Hi as [_ Href ? ? ? ?]. constructor; cbn; try done. rewrite Href, Hsplit. f_equal.
        rewrite (filter_none (fun e => (lo <=? created_at e) && _)); [done|].
        intros e He. apply index_range in He as [He _]. lia.
      + unfold walk_measure in *; cbn [asked pending]. rewrite Ep in Hf. cbn [length] in Hf. lia. }
  destruct (past_edge order (edge w) (time_prefix_bounds tp)) eqn:Eedge.
  { eapply walk_end; [done|]. apply filter_none. intros e He. pose proof (wi_edge _ _ _ _ _ _ Hi) as Hed.
    unfold past_edge in Eedge. destruct (edge w) as [|t|]; [done | | done]. specialize (Hed e He). rewrite Hbounds in Eedge.
    assert (i64_max < u64_max) by (vm_compute; reflexivity). apply index_range in He as [He _].
    unfold after. destruct order; cbn [fst snd] in Eedge; destruct Hb as [-> _]; lia. }
  destruct (Nat.leb_spec MAX_WALK_QUERIES (asked w)) as [Hq|Hq].
  { split; [apply Hi|]. exists l, (List.filter (timed (after order b)) (index_of order)).
    split; [apply Hi|]. split; [apply Hi|]. split; [done|]. split.
    - intros Hcalm. eapply take_eq_short; [done | by apply Hi].
    - intros Hlast. symmetry. apply (resume_beyond order b tp lo hi); [done | done | by rewrite <- Hfst |].
      destruct order; apply Hb. }
  destruct (ask store author (ip ++s tp) order _) as [page|[e|]] eqn:Ea; cbn [mbind result_bind]; [|done|].
  2: { unfold ask in Ea. by destruct (list_keys store author _). }
  pose proof (absorb_spec _ _ _ _ _ _ _ _ _ Hi Ep Hlim Hlo Hq Ea) as Hab.
  destruct (absorb store ip author order limit tp rest page w) as [[w'|]|[e|]]; cbn [mbind result_bind]; [| |done|done].
  - destruct Hab as [(b2 & l2 & Hi2) Hm]. eapply IH; [exact Hi2 | lia].
  - destruct Hab as [Hempty Hn]. pose proof (wi_ref _ _ _ _ _ _ Hi) as Href. rewrite Hempty in Href. cbn in Href.
    rewrite app_nil_r in Href. subst ref. split; [done|]. exists l, []. split; [by rewrite app_nil_r|]. split; [apply Hi | apply Hi].
Qed.

(** ** The whole walk *)

(** What a page is a part of. *)
Definition reference (order : DocKeyOrder) (cursor : option TimeIndexCursor) : list TimeIndexEntry :=
  match cursor with
  | None => index_of order
  | Some c => List.filter (beyond order c) (index_of order)
  end.

(** The scan of the cursor's own second reads all of it. *)
Definition second_fits (order : DocKeyOrder) (cursor : option TimeIndexCursor) : Prop :=
  match cursor with
  | None => True
  | Some c => (length (hits order (ip ++s pad_digits 20 (cur_created_at c) ++s "-") all_rows) <= SAME_SECOND_SCAN_LIMIT)%nat
  end.

Lemma index_all order b :
  (forall t, 0 <= t <= i64_max -> after order b t = true) -> List.filter (timed (after order b)) (index_of order) = index_of order.
Proof.
  intros Hall. rewrite <- (List.filter_true (index_of order)) at 2. apply filter_same. intros e He.
  apply Hall. by apply (index_range order e).
Qed.

Lemma whole_start order limit :
  exists b, walk_inv order limit (index_of order) (start_walk [] [""%string]) b [].
Proof.
  exists (match order with Descending => 10 ^ 20 | Ascending => 0 end).
  constructor; cbn [found pending asked edge start_walk]; try done; [apply whole_chain | | unfold MAX_WALK_QUERIES; lia].
  cbn [app]. symmetry. apply index_all. assert (i64_max < 10 ^ 20) by (vm_compute; reflexivity).
  intros t Ht. unfold after. destruct order; lia.
Qed.

Lemma cursor_start order c limit page :
  (precise -> second_fits order (Some c)) -> 0 <= cur_created_at c <= i64_max ->
  ask store author (ip ++s pad_digits 20 (cur_created_at c) ++s "-") order SAME_SECOND_SCAN_LIMIT = Ok page ->
  exists b l, walk_inv order limit (reference order (Some c))
    (start_walk (take limit (List.filter (beyond_id order c) (parse_entries ip (page_entries page))))
                (push_all (cursor_prefixes order (pad_digits 20 (cur_created_at c))) [])) b l.
Proof.
  intros Hfits Hc Ha. apply ask_spec in Ha as [-> _]. set (t := cur_created_at c) in *.
  set (h := hits order (ip ++s pad_digits 20 t ++s "-") all_rows) in *.
  exists (match order with Descending => t | Ascending => t + 1 end), (List.filter (beyond_id order c) (valid_of ip h)).
  assert (Hh : valid_of ip h = List.filter (fun e => created_at e =? t) (index_of order)).
  { unfold h, hits. by apply valid_of_second. }
  assert (Happ : valid_of ip h = (valid_of ip (take SAME_SECOND_SCAN_LIMIT h) ++ valid_of ip (drop SAME_SECOND_SCAN_LIMIT h))%list).
  { by rewrite <- valid_of_app, take_drop. }
  constructor; cbn [found pending asked edge start_walk]; [by apply cursor_chain | | | | done | unfold MAX_WALK_QUERIES; lia].
  - rewrite Hh. cbn [reference].
    assert (Hff : forall l, List.filter (beyond_id order c) (List.filter (fun e => created_at e =? t) l)
      = List.filter (fun e => (created_at e =? t) && beyond_id order c e) l).
    { induction l as [|x l IH]; [done|]. cbn. destruct (created_at x =? t); cbn; [|exact IH]. destruct (beyond_id order c x); by rewrite IH. }
    rewrite Hff. apply (filter_sorted_split (reads_before order)); [apply index_sorted | | |];
      unfold beyond, beyond_id, after, reads_before; fold t; destruct order; intros;
      repeat match goal with |- context [rust_ltb ?a ?b] => destruct (rust_ltb a b) | Hx : context [rust_ltb ?a ?b] |- _ => destruct (rust_ltb a b) end;
      lia.
  - rewrite Happ, List.filter_app. etrans; [apply sublist_take|]. by apply sublist_inserts_r.
  - intros Hp. cbn in Hfits. rewrite (take_ge h) by (apply Hfits; done). by rewrite take_take, Nat.min_id.
Qed.
End walk.
