(* ===== verification/TimeIndexProps.v ===== *)
(** * Theorems about the time index

    A page is always a bounded selection, in order, of the entries beyond the cursor, read
    with a bounded number of queries; it is exact unless malformed keys flood single
    seconds; a resume cursor continues where the page stopped. *)
From S2P Require Import Prelude RustStr TimeIndex TimeIndexSlots TimeIndexWalk.

#[local] Arguments pad_digits : simpl never.

(** ** The in-memory store is a store *)
Section memory.
Context (value_hash : string -> string).

Definition memory_rows (m : MemoryReplica) (a : option string) : list DocKeyEntry :=
  let all := sort_by (order_leb Ascending) (map (memory_entry value_hash m) (map_to_list (records m))) in
  match a with Some x => if decide (own_author m = Some x) then all else [] | None => all end.

Lemma order_leb_sorted order l : StronglySorted (fun a b => order_leb order a b = true) (sort_by (order_leb order) l).
Proof.
  apply sort_by_sorted; destruct order; cbn; intros *; [apply rust_leb_total | apply rust_leb_total | apply rust_leb_trans |].
  intros Hxy Hyz. by eapply rust_leb_trans.
Qed.

Lemma map_filter_comm {A B} (f : A -> B) (P : B -> bool) (l : list A) :
  List.filter P (map f l) = map f (List.filter (fun x => P (f x)) l).
Proof. induction l as [|x l IH]; [done|]. cbn. destruct (P (f x)); cbn; by rewrite IH. Qed.

(** Two sorted lists of rows with distinct keys and the same members are equal. *)
Lemma sorted_rows_unique order (l l' : list DocKeyEntry) :
  StronglySorted (fun a b => order_leb order a b = true) l -> StronglySorted (fun a b => order_leb order a b = true) l' ->
  NoDup (map ke_key l) -> l ≡ₚ l' -> l = l'.
Proof.
  intros Hs. revert l'. induction Hs as [|x l Hs IH Hall]; intros l' Hs' Hnd Hp.
  { by apply Permutation_nil_l in Hp. }
  destruct l' as [|y l']; [by apply Permutation_nil_r in Hp|]. cbn in Hnd. apply NoDup_cons in Hnd as [Hx Hnd].
  inversion Hs' as [|? ? Hs'' Hall']; subst. rewrite Forall_forall in Hall, Hall'.
  assert (Hxy : x = y).
  { assert (Hin : x ∈ y :: l') by (rewrite <- Hp; apply list_elem_of_here). assert (Hin' : y ∈ x :: l) by (rewrite Hp; apply list_elem_of_here).
    apply elem_of_cons in Hin as [?|Hin]; [done|]. apply elem_of_cons in Hin' as [?|Hin']; [done|].
    specialize (Hall y Hin'). specialize (Hall' x Hin). exfalso. apply Hx, list_elem_of_fmap. exists y. split; [|done].
    destruct order; cbn in *; by apply rust_leb_antisym. }
  subst y. f_equal. apply IH; [done | done |]. by eapply Permutation_cons_inv.
Qed.

Lemma memory_keys_distinct m : NoDup (map ke_key (map (memory_entry value_hash m) (map_to_list (records m)))).
Proof. rewrite map_map. apply NoDup_fst_map_to_list. Qed.

Lemma rev_order_sorted (l : list DocKeyEntry) :
  StronglySorted (fun a b => order_leb Ascending a b = true) l -> StronglySorted (fun a b => order_leb Descending a b = true) (rev l).
Proof. intros Hs. exact (rev_sorted _ _ Hs). Qed.

Lemma memory_query_hits m q :
  page_entries (memory_query_replica_keys value_hash m q) = take (q_limit q) (hits (q_order q) (q_prefix q) (memory_rows m None))
  /\ reached_limit (memory_query_replica_keys value_hash m q)
     = Nat.ltb 0 (q_limit q) && Nat.leb (q_limit q) (length (hits (q_order q) (q_prefix q) (memory_rows m None))).
Proof.
  unfold memory_query_replica_keys. cbn [page_entries reached_limit].
  set (P := fun r => starts_with (q_prefix q) (ke_key r)). set (all := map (memory_entry value_hash m) (map_to_list (records m))).
  enough (Heq : sort_by (order_leb (q_order q)) (map (memory_entry value_hash m)
      (List.filter (fun kv => starts_with (q_prefix q) kv.1) (map_to_list (records m))))
    = hits (q_order q) (q_prefix q) (memory_rows m None)) by by rewrite Heq.
  rewrite <- (map_filter_comm (memory_entry value_hash m) P). fold all.
  assert (Hnd : NoDup (map ke_key (List.filter P all))).
  { pose proof (memory_keys_distinct m) as Hnd. fold all in Hnd. induction all as [|x l IH]; [constructor|]. cbn in Hnd |- *.
    apply NoDup_cons in Hnd as [Hx Hnd]. destruct (P x); cbn; [|by apply IH]. constructor; [|by apply IH].
    intros (y & Hy & [Hin _]%elem_of_filter_bool)%list_elem_of_fmap. apply Hx, list_elem_of_fmap. eauto. }
  apply (sorted_rows_unique (q_order q)).
  - apply order_leb_sorted.
  - unfold hits, memory_rows. assert (Hs := order_leb_sorted Ascending all).
    assert (Hfs : forall (R : DocKeyEntry -> DocKeyEntry -> Prop) l, StronglySorted R l -> StronglySorted R (List.filter P l)).
    { intros R l Hl. induction Hl as [|x l Hl IH Hall]; [constructor|]. cbn. destruct (P x); [|done]. constructor; [done|].
      rewrite Forall_forall in *. intros y [Hy _]%elem_of_filter_bool. auto. }
    apply Hfs. destruct (q_order q); cbn; [done | by apply rev_order_sorted].
  - by rewrite sort_by_perm.
  - rewrite sort_by_perm. unfold hits, memory_rows. apply filter_bool_perm.
    destruct (q_order q); cbn; [|rewrite <- Permutation_rev]; by rewrite sort_by_perm.
Qed.

Lemma memory_rows_utf8 m a r : r ∈ memory_rows m a -> valid_utf8 (ke_key r) = true.
Proof.
  intros Hr. assert (Hin : r ∈ map (memory_entry value_hash m) (map_to_list (records m))).
  { revert Hr. unfold memory_rows. destruct a as [x|]; [destruct (decide _); [|set_solver]|]; by rewrite elem_of_sort_by. }
  apply list_elem_of_fmap in Hin as (kv & -> & Hin). pose proof (records_utf8 m) as Hu. rewrite forallb_forall in Hu.
  apply Hu. by apply list_elem_of_In.
Qed.

Lemma memory_hits_utf8 m a order prefix n :
  List.filter (fun r => valid_utf8 (ke_key r)) (take n (hits order prefix (memory_rows m a))) = take n (hits order prefix (memory_rows m a)).
Proof.
  rewrite <- (List.filter_true (take n _)) at 2. apply filter_same. intros r Hr.
  apply (memory_rows_utf8 m a). eapply elem_of_take in Hr as (i & Hi & _). apply list_elem_of_lookup_2 in Hi.
  unfold hits in Hi. apply elem_of_filter_bool in Hi as [Hi _]. by apply elem_of_in_order in Hi.
Qed.

#[export] Instance memory_key_index_laws : @KeyIndexLaws Empty_set MemoryReplica (memory_key_index value_hash).
Proof.
  refine {| rows := memory_rows |}.
  - intros m a. unfold memory_rows. pose proof (order_leb_sorted Ascending
      (map (memory_entry value_hash m) (map_to_list (records m)))) as Hs.
    destruct a as [x|]; [destruct (decide _); [exact Hs | constructor] | exact Hs].
  - intros m a q page. unfold list_keys, memory_key_index. intros [= <-]. cbv zeta. rewrite memory_hits_utf8.
    destruct (memory_query_hits m q) as [Hp Hr]. unfold memory_list_keys, memory_rows in *.
    destruct a as [x|]; [|done]. destruct (decide (own_author m = Some x)); [done|].
    assert (Hnil : hits (q_order q) (q_prefix q) [] = []) by (unfold hits; by destruct (q_order q)). rewrite Hnil. cbn.
    split; [by destruct (q_limit q)|]. by destruct (q_limit q).
Defined.
End memory.

(** ** Pages *)
Section pages.
Context {E Store : Type} `{KeyIndexLaws E Store} (store : Store) (ip : string) (author : option string).
Abbreviation walk := (walk_time_index_as store ip author).
Abbreviation index := (index_of store ip author).
Abbreviation ref := (reference store ip author).

(** The times of cursors are [i64]. *)
Definition cursor_ok (c : option TimeIndexCursor) : Prop :=
  match c with Some c => cur_created_at c <= i64_max | None => True end.

(** The store has no flooded second, and the cursor's second can be scanned whole. *)
Definition readable (order : DocKeyOrder) (cursor : option TimeIndexCursor) : Prop :=
  calm_seconds store ip author /\ second_fits store ip author order cursor.

Definition page_post (order : DocKeyOrder) (cursor : option TimeIndexCursor) (limit : nat) (page : TimeIndexPage) : Prop :=
  (queries page <= S MAX_WALK_QUERIES)%nat /\ (length (entries page) <= limit)%nat
  /\ exists l rest, ref order cursor = (l ++ rest)%list /\ entries page `sublist_of` l
     /\ match resume page with
        | None => readable order cursor -> entries page = take limit (ref order cursor)
        | Some c => (length (entries page) < limit)%nat /\ (readable order cursor -> entries page = l)
            /\ (no_last_second store ip author -> rest = ref order (Some c))
        end.

Lemma empty_page_post order cursor limit :
  limit = 0%nat \/ ref order cursor = [] -> page_post order cursor limit empty_page.
Proof.
  intros Hor. split; [cbn; lia|]. split; [cbn; lia|]. exists [], (ref order cursor). split; [done|]. split; [constructor|].
  cbn. intros _. destruct Hor as [->| ->]; [done|]. by destruct limit.
Qed.

(** The loop's result becomes a page. *)
Lemma loop_page order cursor limit first stack b l n :
  walk_inv store ip author (readable order cursor) order limit (ref order cursor) (start_walk first stack) b l ->
  (n <= 1)%nat ->
  match ('(found, resume, asked) ← walk_loop store ip author (walk_fuel stack) order limit (start_walk first stack);
         Ok {| entries := take limit found; resume := resume; queries := (asked + n)%nat |}) with
  | Ok page => page_post order cursor limit page
  | Err OutOfFuel => False
  | Err (QueryFailed _) => True
  end.
Proof.
  intros Hi Hn. assert (Hm : (walk_measure (start_walk first stack) <= walk_fuel stack)%nat)
    by (unfold walk_measure, walk_fuel; cbn [asked pending start_walk]; lia).
  pose proof (walk_loop_spec store ip author (readable order cursor) (fun H => proj1 H) _ _ _ _ _ _ _ Hi Hm) as Hp.
  destruct (walk_loop _ _ _ _ _ _ _) as [[[es res] asked]|[e|]]; cbn [mbind result_bind]; [|done|done].
  destruct Hp as (Hq & l' & rest & Href & Hsub & Hres). split; [cbn; lia|].
  split; [cbn; rewrite length_take; lia|]. exists l', rest. split; [done|]. cbn [entries resume].
  split; [etrans; [apply sublist_take | done]|]. destruct res as [c|]; [|done].
  destruct Hres as (Hlen & Hx & Hr). rewrite take_ge by lia. done.
Qed.

Lemma walk_spec order cursor limit :
  cursor_ok cursor ->
  match walk order cursor limit with
  | Ok page => page_post order cursor limit page
  | Err OutOfFuel => False
  | Err (QueryFailed _) => True
  end.
Proof.
  intros Hc. unfold walk_time_index_as. destruct (Nat.eqb_spec limit 0); [apply empty_page_post; by left|].
  pose proof (whole_start store ip author (readable order cursor) order limit) as [b0 Hwhole].
  unfold walk_start. destruct cursor as [c|]; [|rewrite bind_ok; eapply loop_page; [exact Hwhole | lia]].
  destruct (Z.ltb_spec (cur_created_at c) 0) as [Hneg|Hpos].
  - rewrite bind_ok. destruct order.
    + eapply loop_page; [|lia]. cbn [reference]. rewrite (filter_same _ (fun _ => true)).
      * rewrite List.filter_true. exact Hwhole.
      * intros e He. apply index_range in He as [He _]. unfold beyond. lia.
    + apply empty_page_post. right. apply filter_none. intros e He. apply index_range in He as [He _]. unfold beyond.
      destruct (rust_ltb _ _); lia.
  - cbn in Hc. assert (Hu : i64_max < u64_max) by (vm_compute; reflexivity).
    change TIME_DIGITS with 20%nat. rewrite dec_padded_eq by lia. rewrite pad_digits_length, Nat.eqb_refl. cbn [negb].
    destruct (ask store author (ip ++s pad_digits 20 (cur_created_at c) ++s "-") order SAME_SECOND_SCAN_LIMIT) as [page|[e|]] eqn:Ea;
      [rewrite !bind_ok | done | unfold ask in Ea; by destruct (list_keys store author _)].
    destruct (cursor_start store ip author (readable order (Some c)) order c limit page) as (b & l & Hi); [by intros [_ ?] | lia | done |].
    eapply loop_page; [exact Hi | lia].
Qed.

(** C35: The walk always ends: a read from any cursor returns a page or the error of a
    query, after at most 257 queries, whatever the store holds. *)
Theorem walk_terminates order cursor limit :
  cursor_ok cursor ->
  match walk order cursor limit with
  | Ok page => (queries page <= 257)%nat
  | Err (QueryFailed _) => True
  | Err OutOfFuel => False
  end.
Proof.
  intros Hc. pose proof (walk_spec order cursor limit Hc) as Hs. destruct (walk order cursor limit) as [page|[e|]]; [|done|done].
  apply Hs.
Qed.

(** Whatever malformed keys a replica holds, a page holds at most [limit] entries, all
    of them valid entries of the index strictly beyond the cursor, each at most as often as
    the index, in the order of reading. *)
Theorem page_is_sound order cursor limit page :
  cursor_ok cursor -> walk order cursor limit = Ok page ->
  entries page `sublist_of` ref order cursor /\ (length (entries page) <= limit)%nat
  /\ StronglySorted (reads_before order) (entries page).
Proof.
  intros Hc Ew. pose proof (walk_spec order cursor limit Hc) as Hs. rewrite Ew in Hs.
  destruct Hs as (_ & Hlen & l & rest & Href & Hsub & _).
  assert (Hsub' : entries page `sublist_of` ref order cursor) by (rewrite Href; by apply sublist_inserts_r).
  split_and!; [done | done |]. apply (sublist_sorted _ _ (index order)); [|apply index_sorted].
  etrans; [exact Hsub'|]. destruct cursor as [c|]; cbn; [apply sublist_filter_bool | done].
Qed.

(** C10: When no second holds more than 32 malformed keys and the cursor's second at most
    512 keys, a page without a resume cursor is exactly the first [limit] valid entries
    beyond the cursor: nothing is skipped, and fewer than [limit] means that the index is
    exhausted. *)
Theorem page_is_exact order cursor limit page :
  cursor_ok cursor -> readable order cursor -> walk order cursor limit = Ok page -> resume page = None ->
  entries page = take limit (ref order cursor).
Proof.
  intros Hc Hr Ew Eres. pose proof (walk_spec order cursor limit Hc) as Hs. rewrite Ew in Hs.
  destruct Hs as (_ & _ & l & rest & _ & _ & Hx). rewrite Eres in Hx. by apply Hx.
Qed.

(** Under the same conditions a page that stopped early loses nothing: its entries
    followed by what a read from its resume cursor is about are what this read was about. *)
Theorem resume_loses_nothing order cursor limit page c :
  cursor_ok cursor -> readable order cursor -> no_last_second store ip author ->
  walk order cursor limit = Ok page -> resume page = Some c ->
  ref order cursor = (entries page ++ ref order (Some c))%list /\ (length (entries page) < limit)%nat.
Proof.
  intros Hc Hr Hl Ew Eres. pose proof (walk_spec order cursor limit Hc) as Hs. rewrite Ew in Hs.
  destruct Hs as (_ & _ & l & rest & Href & _ & Hx). rewrite Eres in Hx. destruct Hx as (Hlen & Hx & Hrest).
  rewrite (Hx Hr). split; [|by rewrite <- (Hx Hr)]. by rewrite <- (Hrest Hl).
Qed.
End pages.

(** A window, the newest entries that are not in the future, is read in at most 258
    queries, and without a resume cursor it is exactly the newest [limit] valid entries up
    to [now], however many entries claim a later time. *)
Theorem window_is_exact {E Store} `{KeyIndexLaws E Store} (store : Store) ip now limit :
  i64_min <= now < i64_max ->
  match query_time_index_window store ip now limit with
  | Ok page => (queries page <= 258)%nat
      /\ (readable store ip None Descending (Some (not_after now)) -> resume page = None ->
          entries page = take limit (List.filter (fun e => created_at e <=? now) (index_of store ip None Descending)))
  | Err (QueryFailed _) => True
  | Err OutOfFuel => False
  end.
Proof.
  intros Hnow. unfold query_time_index_window. destruct (Nat.eqb limit 0) eqn:Hlim; [apply Nat.eqb_eq in Hlim as ->; cbn; split; [lia | done]|].
  apply Nat.eqb_neq in Hlim.
  destruct (ask store None ip Descending _) as [page|[e|]] eqn:Ea;
    [rewrite bind_ok | done | unfold ask in Ea; by destruct (list_keys store None _)].
  apply (ask_spec store ip None) in Ea as [Hv Hr]. rewrite Hv. set (req := (limit + FUTURE_ENTRY_ALLOWANCE + MALFORMED_KEY_ALLOWANCE)%nat) in *.
  set (h := hits Descending ip (rows store None)) in *.
  assert (Hidx : index_of store ip None Descending = valid_of ip h) by (unfold index_of, h, hits; by rewrite valid_of_prefix).
  assert (Happ : valid_of ip h = (valid_of ip (take req h) ++ valid_of ip (drop req h))%list) by by rewrite <- valid_of_app, take_drop.
  set (es := List.filter _ (valid_of ip (take req h))).
  destruct (Nat.leb limit (length es) || negb (reached_limit page)) eqn:Ec.
  - cbn [queries entries resume]. split; [lia|]. intros _ _. rewrite Hidx. apply orb_prop in Ec as [Hlen|Ht].
    + apply Nat.leb_le in Hlen. rewrite Happ, List.filter_app, take_app_le by done. done.
    + apply negb_true_iff in Ht. rewrite Hr in Ht. unfold es. rewrite (ask_complete req h) by (done || (unfold req; lia)). done.
  - assert (Hcur : cursor_ok (Some (not_after now))) by (cbn; unfold i64_saturating_add, sat_i64; lia).
    pose proof (walk_spec store ip None Descending (Some (not_after now)) limit Hcur) as Hs. unfold walk_time_index.
    destruct (walk_time_index_as store ip None Descending (Some (not_after now)) limit) as [p|[e|]]; [rewrite bind_ok | done | done].
    destruct Hs as (Hq & _ & l & rest & _ & _ & Hx). cbn [queries entries resume]. split; [unfold MAX_WALK_QUERIES in Hq; lia|].
    intros Hread Hres. rewrite Hres in Hx. rewrite (Hx Hread). f_equal. cbn [reference]. apply filter_same. intros e He.
    unfold beyond, not_after; cbn [cur_created_at cur_object_id]. rewrite ltb_empty, andb_false_r, orb_false_r.
    unfold i64_saturating_add, sat_i64, i64_min in *. lia.
Qed.

(** The key that a post is filed under in the profile index is read back as its time
    and object id; a post with a negative time is not an entry of the index. *)
Theorem profile_key_roundtrip t id hash len author :
  id <> "" -> lacks "/" id = true -> i64_min <= t <= i64_max ->
  parse_entry "indexes/profile/"
    {| ke_key := profile_index_key t id; content_hash := hash; content_len := len; ke_docs_author := author |}
  = if t <? 0 then None
    else Some {| created_at := t; object_id := id; ti_key := profile_index_key t id; ti_docs_author := author |}.
Proof.
  intros Hid Hl Ht. unfold parse_entry. cbn [ke_key ke_docs_author].
  assert (Hk : profile_index_key t id = "indexes/profile/" ++s timeline_sort_key t id ++s "/" ++s id) by done.
  rewrite Hk at 1. rewrite strip_prefix_app. cbn [mbind option_bind].
  change "/"%string with (String "/" ""). rewrite rsplit_once_lacks by done. cbn [mbind option_bind].
  unfold timeline_sort_key. assert (Hu : i64_max < u64_max) by (vm_compute; reflexivity).
  destruct (Z.ltb_spec t 0) as [Hneg|Hpos]; [done|].
  rewrite dec_padded_eq by lia. change "-"%string with (String "-" "").
  rewrite split_once_lacks; [|apply (str_all_impl is_ascii_digit); [|apply pad_digits_digits]].
  2: { intros a Ha. apply negb_true_iff, bool_decide_eq_false. by intros ->. }
  cbn [mbind option_bind]. unfold str_len. rewrite pad_digits_length, pad_digits_digits, Z.eqb_refl, bool_decide_true by done.
  replace (str_is_empty id) with false by by destruct id. cbn [negb orb].
  rewrite parse_i64_pad by lia. done.
Qed.

(** ** Witnesses *)
Definition demo_value_hash (s : string) : string := s.

Definition demo_replica : MemoryReplica :=
  {| records := {[ "indexes/profile/00000000000000000010-a/a" := "x"; "indexes/profile/00000000000000000020-b/b" := "y";
                   "indexes/profile/00000000000000000020-c/c" := "z"; "indexes/profile/junk" := "" ]};
     own_author := None; records_utf8 := eq_refl |}.

#[local] Existing Instance memory_key_index.
#[local] Existing Instance memory_key_index_laws.
#[local] Instance demo_index : KeyIndex Empty_set MemoryReplica := memory_key_index demo_value_hash.
#[local] Instance demo_laws : KeyIndexLaws Empty_set MemoryReplica := memory_key_index_laws demo_value_hash.
Abbreviation demo_walk := (walk_time_index_as demo_replica "indexes/profile/" None).

Definition demo_cursor : option TimeIndexCursor := Some {| cur_created_at := 20; cur_object_id := "c" |}.

Definition demo_page : TimeIndexPage :=
  match demo_walk Descending demo_cursor 5 with Ok p => p | Err _ => empty_page end.

Example demo_page_ids : map object_id (entries demo_page) = ["b"; "a"] /\ resume demo_page = None.
Proof. split; by_vm. Qed.

Lemma demo_readable : readable demo_replica "indexes/profile/" None Descending demo_cursor.
Proof.
  split.
  - intros t _. etrans; [apply filter_length_le|]. etrans; [apply filter_length_le|]. vm_compute. lia.
  - vm_compute. lia.
Qed.

Lemma walk_terminates_witness : demo_walk Descending demo_cursor 5 = Ok demo_page /\ (queries demo_page <= 257)%nat.
Proof.
  assert (Ew : demo_walk Descending demo_cursor 5 = Ok demo_page) by by_vm. split; [exact Ew|].
  pose proof (walk_terminates demo_replica "indexes/profile/" None Descending demo_cursor 5) as Ht. rewrite Ew in Ht.
  apply Ht. cbn. vm_compute. discriminate.
Defined.

Lemma page_is_sound_witness : (length (entries demo_page) <= 5)%nat.
Proof.
  apply (page_is_sound demo_replica "indexes/profile/" None Descending demo_cursor 5 demo_page); [|by_vm].
  cbn. vm_compute. discriminate.
Defined.

Lemma page_is_exact_witness :
  entries demo_page = take 5 (reference demo_replica "indexes/profile/" None Descending demo_cursor).
Proof.
  apply (page_is_exact demo_replica "indexes/profile/" None Descending demo_cursor 5 demo_page);
    [cbn; vm_compute; discriminate | exact demo_readable | by_vm | by_vm].
Defined.

Lemma window_is_exact_witness : exists page, query_time_index_window demo_replica "indexes/profile/" 15 5 = Ok page
  /\ map object_id (entries page) = ["a"] /\ (queries page <= 258)%nat.
Proof.
  pose proof (window_is_exact demo_replica "indexes/profile/" 15 5) as Hw.
  destruct (query_time_index_window demo_replica "indexes/profile/" 15 5) as [page|e] eqn:Eq; [|by vm_compute in Eq].
  exists page. split; [done|]. split; [|apply Hw; vm_compute; split; [discriminate | done]].
  revert Eq. vm_compute. by intros [= <-].
Defined.

Lemma profile_key_roundtrip_witness :
  parse_entry "indexes/profile/" {| ke_key := profile_index_key 7 "id"; content_hash := ""; content_len := 0; ke_docs_author := None |}
  = Some {| created_at := 7; object_id := "id"; ti_key := profile_index_key 7 "id"; ti_docs_author := None |}.
Proof.
  etrans; [apply (profile_key_roundtrip 7 "id" "" 0 None); [done | by_vm | vm_compute; split; discriminate] | by_vm].
Defined.

(** A replica with 80 malformed keys around two entries: reading it stops early. *)
Definition flooded_keys : list string :=
  ["indexes/profile/00900000000000000000-b/b"; "indexes/profile/00000000000000000007-a/a"]
  ++ map (fun n => "indexes/profile/0000000000000000000x" ++s dec (Z.of_nat n)) (seq 0 40)
  ++ map (fun n => "indexes/profile/0000000005000000000x" ++s dec (Z.of_nat n)) (seq 0 40).

Definition flooded_replica : MemoryReplica :=
  {| records := list_to_map (map (fun k => (k, EmptyString)) flooded_keys); own_author := None; records_utf8 := eq_refl |}.

Abbreviation flooded_walk := (walk_time_index_as flooded_replica "indexes/profile/" None).

Definition flooded_page : TimeIndexPage := match flooded_walk Descending None 2 with Ok p => p | Err _ => empty_page end.

Definition flooded_resume : TimeIndexCursor := default (not_after 0) (resume flooded_page).

(** The 20 characters after the prefix are digits. *)
Definition digits_follow (key : string) : bool :=
  match strip_prefix "indexes/profile/" key with
  | Some rest => str_all is_ascii_digit (String.substring 0 20 rest)
  | None => false
  end.

Lemma starts_digits_follow t key : starts_with ("indexes/profile/" ++s pad_digits 20 t) key = true -> digits_follow key = true.
Proof.
  intros [r ->]%starts_with_true. unfold digits_follow. rewrite str_app_assoc, strip_prefix_app.
  assert (Hs : forall s k, String.length s = k -> String.substring 0 k (s ++s r) = s).
  { induction s as [|x s IH]; intros [|k] Hl; try done; [by destruct r|]. simpl. injection Hl as Hl. by rewrite IH. }
  rewrite Hs by apply pad_digits_length. apply pad_digits_digits.
Qed.

Lemma flooded_readable : readable flooded_replica "indexes/profile/" None Descending None.
Proof.
  split; [|done]. intros t _. rewrite filter_none; [cbn; lia|]. intros r [Hr Hs%starts_digits_follow]%elem_of_filter_bool.
  assert (Hall : forallb (fun r => negb (digits_follow (ke_key r)) || negb (malformed "indexes/profile/" r)) (rows flooded_replica None) = true) by by_vm.
  rewrite forallb_forall in Hall. specialize (Hall r (proj1 (list_elem_of_In _ _) Hr)). rewrite Hs in Hall. simpl in Hall.
  by apply negb_true_iff in Hall.
Qed.

Lemma flooded_no_last : no_last_second flooded_replica "indexes/profile/" None.
Proof.
  assert (Hall : forall order, forallb (fun e => created_at e <? i64_max) (index_of flooded_replica "indexes/profile/" None order) = true)
    by (intros []; by_vm).
  intros order e He. specialize (Hall order). rewrite forallb_forall in Hall. apply Z.ltb_lt, Hall. by apply list_elem_of_In.
Qed.

Lemma resume_loses_nothing_witness :
  resume flooded_page = Some flooded_resume
  /\ reference flooded_replica "indexes/profile/" None Descending None
     = (entries flooded_page ++ reference flooded_replica "indexes/profile/" None Descending (Some flooded_resume))%list.
Proof.
  assert (Er : resume flooded_page = Some flooded_resume) by by_vm. split; [exact Er|].
  apply (resume_loses_nothing flooded_replica "indexes/profile/" None Descending None 2 flooded_page flooded_resume);
    [exact I | exact flooded_readable | exact flooded_no_last | by_vm | exact Er].
Defined.
