(* ===== verification/Envelope.v ===== *)
(** * Signed envelopes (crates/core/src/envelope.rs)

    A record that an author signs travels as an envelope: the author's public key, a time,
    a kind, tags and the record as JSON, with the SHA-256 of the canonical payload as its
    id and a Schnorr signature of that digest.  Hashing, signatures and JSON are library
    code: the classes [Crypto] and [Json] list the calls, [CryptoLaws] and [JsonLaws] what
    the libraries document of them. *)
From S2P Require Import Prelude.

Class Crypto := {
  Keys : Type;
  Digest : Type;
  Signature : Type;
  XOnlyPublicKey : Type;
  public_key_hex : Keys -> string;
  (** [sign_schnorr(..).to_string()] *)
  sign_schnorr : Keys -> Digest -> string;
  sha256_digest : string -> Digest;
  hex_encode : Digest -> string;
  signature_from_str : string -> option Signature;
  public_key_from_str : string -> option XOnlyPublicKey;
  schnorr_verify : Signature -> Digest -> XOnlyPublicKey -> bool;
  (** The JSON of [[0, pubkey, created_at, kind, tags, content]]. *)
  canonical_json : string -> Z -> string -> list (list string) -> string -> string
}.

(** A signature verifies under the key that made it. *)
Class CryptoLaws `{Crypto} := {
  sign_verifies keys digest : exists s p,
    signature_from_str (sign_schnorr keys digest) = Some s
    /\ public_key_from_str (public_key_hex keys) = Some p /\ schnorr_verify s digest p = true
}.

Class Json (T : Type) := { to_json : T -> string; from_json : string -> option T }.

(** Reading what was written gives the value back. *)
Class JsonLaws (T : Type) `{Json T} := { from_to_json (x : T) : from_json (to_json x) = Some x }.

Record KukuriEnvelope := {
  env_id : string;
  pubkey : string;
  created_at : Z;
  env_kind : string;
  tags : list (list string);
  content : string;
  sig : string
}.

Section envelope.
Context `{Crypto}.

Definition canonical_envelope_payload (pubkey : string) (created_at : Z) (kind : string) (tags : list (list string))
    (content : string) : string :=
  canonical_json pubkey created_at kind tags content.

Definition payload_of (e : KukuriEnvelope) : string :=
  canonical_envelope_payload (pubkey e) (created_at e) (env_kind e) (tags e) (content e).

Definition verify (e : KukuriEnvelope) : result string unit :=
  let digest := sha256_digest (payload_of e) in
  _ ← ensure (bool_decide (hex_encode digest = env_id e)) "envelope id mismatch";
  signature ← ok_of_option "invalid envelope sig" (signature_from_str (sig e));
  public_key ← ok_of_option "invalid envelope pubkey" (public_key_from_str (pubkey e));
  ensure (schnorr_verify signature digest public_key) "envelope signature verification failed".

Definition sign_envelope_at (keys : Keys) (kind : string) (tags : list (list string)) (content : string)
    (created_at : Z) : KukuriEnvelope :=
  let pubkey := public_key_hex keys in
  let digest := sha256_digest (canonical_envelope_payload pubkey created_at kind tags content) in
  {| env_id := hex_encode digest; pubkey := pubkey; created_at := created_at; env_kind := kind; tags := tags;
     content := content; sig := sign_schnorr keys digest |}.

(** [clock] is the time in seconds; [None] is a clock before the epoch. *)
Definition sign_envelope (clock : option Z) (keys : Keys) (kind : string) (tags : list (list string))
    (content : string) : result string KukuriEnvelope :=
  now ← ok_of_option "system clock is before unix epoch" clock;
  mret (sign_envelope_at keys kind tags content now).

Context {T : Type} `{Json T} `{EqDecision T}.

Definition sign_envelope_json_at (keys : Keys) (kind : string) (tags : list (list string)) (x : T) (created_at : Z)
    : KukuriEnvelope :=
  sign_envelope_at keys kind tags (to_json x) created_at.

Definition sign_envelope_json (clock : option Z) (keys : Keys) (kind : string) (tags : list (list string)) (x : T)
    : result string KukuriEnvelope :=
  sign_envelope clock keys kind tags (to_json x).

(** [verify_envelope_content] of dome_hosting.rs *)
Definition verify_envelope_content (e : KukuriEnvelope) (kind signer : string) (expected : T) : result string unit :=
  _ ← verify e;
  _ ← ensure (bool_decide (env_kind e = kind) && bool_decide (pubkey e = signer))
        "Dome Hosting envelope authority mismatch";
  decoded ← ok_of_option "invalid Dome Hosting envelope content" (from_json (content e));
  ensure (bool_decide (decoded = expected)) "Dome Hosting envelope content mismatch".

(** The envelope carries [x], signed by [signer]. *)
Record authentic (e : KukuriEnvelope) (kind signer : string) (x : T) : Prop := {
  auth_id : env_id e = hex_encode (sha256_digest (payload_of e));
  auth_sig : exists s p, signature_from_str (sig e) = Some s /\ public_key_from_str signer = Some p
             /\ schnorr_verify s (sha256_digest (payload_of e)) p = true;
  auth_kind : env_kind e = kind;
  auth_signer : pubkey e = signer;
  auth_content : from_json (content e) = Some x
}.

Lemma verify_envelope_content_ok e kind signer x :
  verify_envelope_content e kind signer x = Ok tt <-> authentic e kind signer x.
Proof.
  unfold verify_envelope_content, verify. split.
  - intros Hv. inv_result. destruct_bools. subst. constructor; eauto 6.
  - intros [Hid (s & p & Hs & Hp & Hv) <- <- Hc]. rewrite bool_decide_true by done. cbn. rewrite Hs. cbn.
    rewrite Hp. cbn. rewrite Hv. cbn. rewrite !bool_decide_true by done. cbn. rewrite Hc. cbn.
    by rewrite bool_decide_true.
Qed.

Lemma authentic_unique e kind signer x y : authentic e kind signer x -> authentic e kind signer y -> x = y.
Proof. intros [_ _ _ _ Hx] [_ _ _ _ Hy]. congruence. Qed.

Lemma sign_envelope_authentic `{!CryptoLaws} `{!JsonLaws T} clock keys kind tags x e :
  sign_envelope_json clock keys kind tags x = Ok e -> authentic e kind (public_key_hex keys) x.
Proof.
  unfold sign_envelope_json, sign_envelope. intros He. inv_result.
  injection He as <-. constructor; cbn; [done | apply sign_verifies | done | done | apply from_to_json].
Qed.
End envelope.
