(* ===== verification/DomeHosting.v ===== *)
(** * Dome hosting leases (crates/core/src/dome_hosting.rs)

    The owner of a Dome leases its hosting to a device or to a community node: the owner
    signs a lease with an epoch, the host signs an acceptance with a session, the owner
    activates the acceptance and may close the lease.  Every peer derives from the records
    it knows who hosts the Dome ([resolve_dome_hosting_state]).  Envelopes, hashing and
    JSON are those of [Envelope]; the digest of a lease, a hash of its JSON, is a
    parameter.  Errors are those of the Dome records ([TopologyError]). *)
From S2P Require Import Prelude RustStr Envelope DomeTransition DomeTopology DomeHosts.

Definition DOME_HOSTING_MAX_LEASE_MILLIS : Z := 30 * 24 * 60 * 60 * 1000.
Definition LEASE_KIND : string := "dome-hosting-lease".
Definition ACCEPTANCE_KIND : string := "dome-hosting-acceptance".
Definition ACTIVATION_KIND : string := "dome-hosting-activation".
Definition CLOSE_KIND : string := "dome-hosting-close".
Definition SNAPSHOT_KIND : string := "dome-physics-snapshot".
Definition HEARTBEAT_KIND : string := "dome-host-heartbeat".

(** ** Records *)
Inductive HostTarget :=
| OwnerDevice (endpoint_id target_pubkey : string)
| CommunityNode (node_id api_base_url : string).
#[export] Instance HostTarget_eq_dec : EqDecision HostTarget.
Proof. solve_decision. Defined.

Record Lease := {
  lease_id : string;
  lease_context : SpatialContext;
  lease_instance : string;
  lease_generation : Z;
  lease_owner : string;
  lease_host : HostTarget;
  lease_manifest : string;
  manifest_version : Z;
  epoch : Z;
  issued_at : Z;
  expires_at : Z
}.
#[export] Instance Lease_eq_dec : EqDecision Lease.
Proof. solve_decision. Defined.

Record SignedLease := { lease : Lease; lease_envelope : KukuriEnvelope }.

Record Acceptance := {
  acc_lease_id : string;
  acc_digest : string;
  acc_instance : string;
  acc_generation : Z;
  acc_epoch : Z;
  acc_session : string;
  accepted_at : Z
}.
#[export] Instance Acceptance_eq_dec : EqDecision Acceptance.
Proof. solve_decision. Defined.

Record SignedAcceptance := { acceptance : Acceptance; acceptance_envelope : KukuriEnvelope }.

Record Activation := {
  act_lease_id : string;
  act_digest : string;
  act_epoch : Z;
  host_acceptance_envelope_id : string;
  activated_at : Z
}.
#[export] Instance Activation_eq_dec : EqDecision Activation.
Proof. solve_decision. Defined.

Record SignedActivation := { activation : Activation; activation_envelope : KukuriEnvelope }.

Record Close := { close_lease_id : string; close_digest : string; close_epoch : Z; closed_at : Z }.
#[export] Instance Close_eq_dec : EqDecision Close.
Proof. solve_decision. Defined.

Record SignedClose := { close : Close; close_envelope : KukuriEnvelope }.

Inductive HostingRecord :=
| LeaseIssued (s : SignedLease)
| HostAccepted (s : SignedAcceptance)
| LeaseActivated (s : SignedActivation)
| LeaseClosed (s : SignedClose).

Inductive StateKind := StateClosed | OwnerHosted | CommunityNodeHosted | GracePeriod | Transferring.
#[export] Instance StateKind_eq_dec : EqDecision StateKind.
Proof. solve_decision. Defined.

Record HostingState := {
  state_kind : StateKind;
  state_host : option HostTarget;
  state_lease_id : option string;
  state_epoch : option Z;
  state_expires_at : option Z;
  state_session : option string;
  state_reason : option string;
  state_heartbeat : option Z
}.

Definition closed (reason : string) : HostingState :=
  {| state_kind := StateClosed; state_host := None; state_lease_id := None; state_epoch := None;
     state_expires_at := None; state_session := None; state_reason := Some reason; state_heartbeat := None |}.

Inductive PhysicsBodyKind := BodyAvatar | BodyPersistentProp | BodyGuestProp.
#[export] Instance PhysicsBodyKind_eq_dec : EqDecision PhysicsBodyKind.
Proof. solve_decision. Defined.

Record PhysicsBody := {
  entity_id : string;
  body_kind : PhysicsBodyKind;
  body_position : Vec3;
  body_rotation : Vec3;
  linear_velocity : Vec3;
  body_animation : option string;
  body_grabbed_by : option string;
  body_expires_at : option Z
}.
#[export] Instance PhysicsBody_eq_dec : EqDecision PhysicsBody.
Proof. solve_decision. Defined.

Record Snapshot := {
  snap_instance : string;
  snap_generation : Z;
  snap_epoch : Z;
  snap_session : string;
  snap_host : string;
  snap_sequence : Z;
  simulated_at : Z;
  snap_sleeping : bool;
  snap_bodies : list PhysicsBody
}.
#[export] Instance Snapshot_eq_dec : EqDecision Snapshot.
Proof. solve_decision. Defined.

Record SignedSnapshot := { snapshot : Snapshot; snapshot_envelope : KukuriEnvelope }.

#[export] Instance Heartbeat_eq_dec : EqDecision Heartbeat.
Proof. solve_decision. Defined.

(** ** Validation *)
Abbreviation outcome := (result TopologyError).

Definition blank (s : string) : bool := str_is_empty (trim s).

(** An error of the envelope code passes through [?]. *)
Definition lift {A} (r : result string A) : outcome A :=
  match r with Ok a => Ok a | Err m => Err (Bail m) end.

Definition signing_pubkey (h : HostTarget) : string :=
  match h with OwnerDevice _ p => p | CommunityNode n _ => n end.

Definition validate_target (h : HostTarget) : outcome unit :=
  match h with
  | OwnerDevice e p => check (negb (blank e || blank p)) "owner device hosting target is incomplete"
  | CommunityNode n url =>
      check (negb (blank n || negb (starts_with "https://" url || starts_with "http://localhost" url
                                    || starts_with "http://127.0.0.1" url)))
        "Community Node hosting target is invalid"
  end.

(** [expires_at - issued_at] is an [i64] subtraction, which wraps in a release build. *)
Definition expiry_supported (l : Lease) : bool :=
  negb ((expires_at l <=? issued_at l) || (DOME_HOSTING_MAX_LEASE_MILLIS <? sub_i64 (expires_at l) (issued_at l))).

Definition validate_dome_hosting_lease (l : Lease) (i : InstanceManifest) : outcome unit :=
  _ ← validate_dome_instance_manifest i;
  _ ← check (attached i) "Dome Hosting Lease requires an active attached instance";
  _ ← check (negb (blank (lease_id l) || blank (lease_instance l) || blank (lease_manifest l)
                   || (lease_generation l =? 0) || (manifest_version l =? 0) || (epoch l =? 0)))
        "Dome Hosting Lease identity is incomplete";
  _ ← check (bool_decide (lease_owner l = im_owner i) && bool_decide (lease_context l = im_context i)
             && bool_decide (lease_instance l = im_id i) && (lease_generation l =? im_generation i)
             && bool_decide (lease_manifest l = manifest_blob_hash (im_preset i))
             && (manifest_version l =? preset_revision (im_preset i)))
        "Dome Hosting Lease does not match the current instance";
  _ ← check (expiry_supported l) "Dome Hosting Lease expiry is outside the supported range";
  validate_target (lease_host l).

Definition hosting_tags (instance_id : string) (epoch : Z) (lease_id : string) : list (list string) :=
  [["object"; "dome-hosting"]; ["instance_id"; instance_id]; ["epoch"; dec epoch]; ["lease_id"; lease_id]].

Definition session_tags (instance_id : string) (epoch : Z) (session_id : string) : list (list string) :=
  [["object"; "dome-session"]; ["instance_id"; instance_id]; ["epoch"; dec epoch]; ["session_id"; session_id]].

Definition validate_dome_physics_snapshot (l : Lease) (s : Snapshot) : outcome unit :=
  _ ← check (bool_decide (snap_instance s = lease_instance l) && (snap_generation s =? lease_generation l)
             && (snap_epoch s =? epoch l) && negb (blank (snap_session s))
             && bool_decide (snap_host s = signing_pubkey (lease_host l)) && negb (snap_sequence s =? 0))
        "Dome physics snapshot does not match active lease";
  check (negb (existsb (fun b => blank (entity_id b)) (snap_bodies s))
         && bool_decide (NoDup (map entity_id (snap_bodies s))))
    "Dome physics snapshot entity ids must be non-empty and unique".

Definition validate_dome_host_heartbeat (l : Lease) (h : Heartbeat) : outcome unit :=
  check (bool_decide (hb_instance_id h = lease_instance l) && (hb_instance_generation h =? lease_generation l)
         && (hb_lease_epoch h =? epoch l) && negb (blank (hb_session_id h))
         && bool_decide (host_pubkey h = signing_pubkey (lease_host l)) && negb (hb_sequence h =? 0)
         && (issued_at l <=? sent_at h) && (sent_at h <? expires_at l))
    "Dome host heartbeat does not match active lease".

(** [BTreeMap::last_key_value] *)
Definition last_key_value {A} (m : gmap Z A) : option (Z * A) :=
  foldr (fun kv best => match best with
                        | Some b => if b.1 <? kv.1 then Some kv else Some b
                        | None => Some kv
                        end) None (map_to_list m).

(** [iter().find_map(f)] *)
Fixpoint find_map {A B} (f : A -> option B) (l : list A) : option B :=
  match l with
  | [] => None
  | x :: l => match f x with Some b => Some b | None => find_map f l end
  end.

Section hosting.
Context {crypto : Crypto} `{Json Lease} `{Json Acceptance} `{Json Activation} `{Json Close} `{Json Snapshot} `{Json Heartbeat}.
Context (dome_hosting_lease_digest : Lease -> string).

Definition public_key (k : Keys) : string := public_key_hex k.

(** ** Signing *)
Definition build_signed_dome_hosting_lease (clock : option Z) (owner_keys : Keys) (l : Lease) : outcome SignedLease :=
  _ ← check (bool_decide (lease_owner l = public_key owner_keys)) "Dome Hosting Lease owner must match signer";
  _ ← validate_target (lease_host l);
  _ ← check (negb (blank (lease_id l) || (epoch l =? 0) || (manifest_version l =? 0) || negb (expiry_supported l)))
        "Dome Hosting Lease is invalid";
  e ← lift (sign_envelope_json clock owner_keys LEASE_KIND (hosting_tags (lease_instance l) (epoch l) (lease_id l)) l);
  mret {| lease := l; lease_envelope := e |}.

Definition verify_signed_dome_hosting_lease (s : SignedLease) (i : InstanceManifest) : outcome unit :=
  _ ← validate_dome_hosting_lease (lease s) i;
  lift (verify_envelope_content (lease_envelope s) LEASE_KIND (lease_owner (lease s)) (lease s)).

Definition accept_dome_hosting_lease (clock : option Z) (host_keys : Keys) (s : SignedLease) (session_id : string)
    (at_ : Z) : outcome SignedAcceptance :=
  let l := lease s in
  _ ← check (bool_decide (signing_pubkey (lease_host l) = public_key host_keys))
        "Dome host acceptance signer does not match lease target";
  _ ← lift (verify (lease_envelope s));
  let a := {| acc_lease_id := lease_id l; acc_digest := dome_hosting_lease_digest l; acc_instance := lease_instance l;
              acc_generation := lease_generation l; acc_epoch := epoch l; acc_session := session_id;
              accepted_at := at_ |} in
  _ ← check (negb (blank (acc_session a) || (at_ <? issued_at l) || (expires_at l <=? at_)))
        "Dome host acceptance is outside the lease lifetime";
  e ← lift (sign_envelope_json clock host_keys ACCEPTANCE_KIND (hosting_tags (lease_instance l) (epoch l) (lease_id l)) a);
  mret {| acceptance := a; acceptance_envelope := e |}.

Definition verify_acceptance (s : SignedLease) (sa : SignedAcceptance) : outcome unit :=
  let l := lease s in let c := acceptance sa in
  _ ← check (bool_decide (acc_lease_id c = lease_id l) && bool_decide (acc_digest c = dome_hosting_lease_digest l)
             && bool_decide (acc_instance c = lease_instance l) && (acc_generation c =? lease_generation l)
             && (acc_epoch c =? epoch l) && negb (blank (acc_session c))
             && (issued_at l <=? accepted_at c) && (accepted_at c <? expires_at l))
        "Dome host acceptance does not match lease";
  lift (verify_envelope_content (acceptance_envelope sa) ACCEPTANCE_KIND (signing_pubkey (lease_host l)) c).

Definition verify_activation (s : SignedLease) (sa : SignedActivation) : outcome unit :=
  let l := lease s in let c := activation sa in
  _ ← check (bool_decide (act_lease_id c = lease_id l) && bool_decide (act_digest c = dome_hosting_lease_digest l)
             && (act_epoch c =? epoch l) && negb (blank (host_acceptance_envelope_id c))
             && (issued_at l <=? activated_at c) && (activated_at c <? expires_at l))
        "Dome Hosting activation does not match lease";
  lift (verify_envelope_content (activation_envelope sa) ACTIVATION_KIND (lease_owner l) c).

Definition verify_close (s : SignedLease) (sc : SignedClose) : outcome unit :=
  let l := lease s in let c := close sc in
  _ ← check (bool_decide (close_lease_id c = lease_id l) && bool_decide (close_digest c = dome_hosting_lease_digest l)
             && (close_epoch c =? epoch l) && (issued_at l <=? closed_at c))
        "Dome Hosting close does not match lease";
  lift (verify_envelope_content (close_envelope sc) CLOSE_KIND (lease_owner l) c).

Definition activate_dome_hosting_lease (clock : option Z) (owner_keys : Keys) (s : SignedLease) (sa : SignedAcceptance)
    (at_ : Z) : outcome SignedActivation :=
  let l := lease s in
  _ ← check (bool_decide (lease_owner l = public_key owner_keys)) "Dome Hosting activation owner must match signer";
  _ ← verify_acceptance s sa;
  _ ← check (negb ((at_ <? accepted_at (acceptance sa)) || (expires_at l <=? at_)))
        "Dome Hosting activation is outside the lease lifetime";
  let a := {| act_lease_id := lease_id l; act_digest := dome_hosting_lease_digest l; act_epoch := epoch l;
              host_acceptance_envelope_id := env_id (acceptance_envelope sa); activated_at := at_ |} in
  e ← lift (sign_envelope_json clock owner_keys ACTIVATION_KIND (hosting_tags (lease_instance l) (epoch l) (lease_id l)) a);
  mret {| activation := a; activation_envelope := e |}.

Definition close_dome_hosting_lease (clock : option Z) (owner_keys : Keys) (s : SignedLease) (at_ : Z)
    : outcome SignedClose :=
  let l := lease s in
  _ ← check (negb (negb (bool_decide (lease_owner l = public_key owner_keys)) || (at_ <? issued_at l)))
        "Dome Hosting close is invalid";
  let c := {| close_lease_id := lease_id l; close_digest := dome_hosting_lease_digest l; close_epoch := epoch l;
              closed_at := at_ |} in
  e ← lift (sign_envelope_json clock owner_keys CLOSE_KIND (hosting_tags (lease_instance l) (epoch l) (lease_id l)) c);
  mret {| close := c; close_envelope := e |}.

(** ** Output of a host *)
Definition signs_for (l : Lease) (claimed : string) (host_keys : Keys) : bool :=
  bool_decide (signing_pubkey (lease_host l) = public_key host_keys) && bool_decide (claimed = public_key host_keys).

Definition build_signed_dome_physics_snapshot (clock : option Z) (host_keys : Keys) (l : Lease) (s : Snapshot)
    : outcome SignedSnapshot :=
  _ ← validate_dome_physics_snapshot l s;
  _ ← check (signs_for l (snap_host s) host_keys) "Dome physics snapshot host must match lease target";
  e ← lift (sign_envelope_json clock host_keys SNAPSHOT_KIND (session_tags (snap_instance s) (snap_epoch s) (snap_session s)) s);
  mret {| snapshot := s; snapshot_envelope := e |}.

Definition verify_signed_dome_physics_snapshot (s : SignedSnapshot) (l : Lease) (session_id : string) : outcome unit :=
  _ ← validate_dome_physics_snapshot l (snapshot s);
  _ ← check (bool_decide (snap_session (snapshot s) = session_id)) "Dome physics snapshot session is stale";
  lift (verify_envelope_content (snapshot_envelope s) SNAPSHOT_KIND (signing_pubkey (lease_host l)) (snapshot s)).

Definition build_signed_dome_host_heartbeat (clock : option Z) (host_keys : Keys) (l : Lease) (h : Heartbeat)
    : outcome (SignedHeartbeat KukuriEnvelope) :=
  _ ← validate_dome_host_heartbeat l h;
  _ ← check (signs_for l (host_pubkey h) host_keys) "Dome host heartbeat signer does not match lease target";
  e ← lift (sign_envelope_json clock host_keys HEARTBEAT_KIND (session_tags (hb_instance_id h) (hb_lease_epoch h) (hb_session_id h)) h);
  mret {| heartbeat := h; envelope := e |}.

Definition verify_signed_dome_host_heartbeat (s : SignedHeartbeat KukuriEnvelope) (l : Lease) (session_id : string)
    : outcome unit :=
  _ ← validate_dome_host_heartbeat l (heartbeat s);
  _ ← check (bool_decide (hb_session_id (heartbeat s) = session_id)) "Dome host heartbeat session is stale";
  lift (verify_envelope_content (envelope s) HEARTBEAT_KIND (signing_pubkey (lease_host l)) (heartbeat s)).

(** ** Resolution *)
Section resolve.
Context (i : InstanceManifest).

Definition lease_signed (s : SignedLease) : outcome unit :=
  lift (verify_envelope_content (lease_envelope s) LEASE_KIND (lease_owner (lease s)) (lease s)).

(** Whether an issued lease counts: [false] for the leases of an older generation or
    preset revision, which are kept as history. *)
Definition check_lease (s : SignedLease) : outcome bool :=
  let l := lease s in
  if lease_generation l <? im_generation i then
    _ ← check (bool_decide (lease_instance l = im_id i) && bool_decide (lease_owner l = im_owner i)
               && bool_decide (lease_context l = im_context i)) "historical Dome lease identity mismatch";
    _ ← lease_signed s; mret false
  else if manifest_version l <? preset_revision (im_preset i) then
    _ ← check (bool_decide (lease_instance l = im_id i) && (lease_generation l =? im_generation i)
               && bool_decide (lease_owner l = im_owner i) && bool_decide (lease_context l = im_context i))
          "stale Dome Hosting Lease identity does not match the instance";
    _ ← lease_signed s; mret false
  else _ ← verify_signed_dome_hosting_lease s i; mret true.

Abbreviation LeasesByEpoch := (gmap Z (gmap string SignedLease)).

Definition insert_lease (s : SignedLease) (m : LeasesByEpoch) : LeasesByEpoch :=
  <[epoch (lease s) := <[dome_hosting_lease_digest (lease s) := s]> (default ∅ (m !! epoch (lease s)))]> m.

Definition insert_if (counts : bool) (s : SignedLease) (m : LeasesByEpoch) : LeasesByEpoch :=
  if counts then insert_lease s m else m.

Fixpoint collect_leases (m : LeasesByEpoch) (records : list HostingRecord) : outcome LeasesByEpoch :=
  match records with
  | [] => mret m
  | LeaseIssued s :: records =>
      counts ← check_lease s;
      collect_leases (insert_if counts s m) records
  | _ :: records => collect_leases m records
  end.

Record Answers := { acceptances : gmap string SignedAcceptance; activation_ids : gset string; is_closed : bool }.
Definition no_answers : Answers := {| acceptances := ∅; activation_ids := ∅; is_closed := false |}.

Definition add_answer (s : SignedLease) (epoch : Z) (digest : string) (st : Answers) (r : HostingRecord) : outcome Answers :=
  match r with
  | HostAccepted a =>
      if (acc_epoch (acceptance a) =? epoch) && bool_decide (acc_digest (acceptance a) = digest) then
        _ ← verify_acceptance s a;
        mret {| acceptances := <[env_id (acceptance_envelope a) := a]> (acceptances st);
                activation_ids := activation_ids st; is_closed := is_closed st |}
      else mret st
  | LeaseActivated a =>
      if (act_epoch (activation a) =? epoch) && bool_decide (act_digest (activation a) = digest) then
        _ ← verify_activation s a;
        mret {| acceptances := acceptances st;
                activation_ids := activation_ids st ∪ {[ host_acceptance_envelope_id (activation a) ]};
                is_closed := is_closed st |}
      else mret st
  | LeaseClosed c =>
      if (close_epoch (close c) =? epoch) && bool_decide (close_digest (close c) = digest) then
        _ ← verify_close s c;
        mret {| acceptances := acceptances st; activation_ids := activation_ids st; is_closed := true |}
      else mret st
  | LeaseIssued _ => mret st
  end.

Fixpoint collect_answers (s : SignedLease) (epoch : Z) (digest : string) (st : Answers) (records : list HostingRecord)
    : outcome Answers :=
  match records with
  | [] => mret st
  | r :: records => st ← add_answer s epoch digest st r; collect_answers s epoch digest st records
  end.

Definition split_brain (epoch : Z) (last_heartbeat_at : option Z) : HostingState :=
  {| state_kind := GracePeriod; state_host := None; state_lease_id := None; state_epoch := Some epoch;
     state_expires_at := None; state_session := None; state_reason := Some "split_brain";
     state_heartbeat := last_heartbeat_at |}.

Definition lease_state (l : Lease) (k : StateKind) (session reason : option string) (last_heartbeat_at : option Z)
    : HostingState :=
  {| state_kind := k; state_host := Some (lease_host l); state_lease_id := Some (lease_id l);
     state_epoch := Some (epoch l); state_expires_at := Some (expires_at l); state_session := session;
     state_reason := reason; state_heartbeat := last_heartbeat_at |}.

Definition hosted_kind (h : HostTarget) : StateKind :=
  match h with OwnerDevice _ _ => OwnerHosted | CommunityNode _ _ => CommunityNodeHosted end.

(** The state once the lease has been accepted and activated. *)
Definition active_state (l : Lease) (session : string) (now : Z) (last_heartbeat_at : option Z) : HostingState :=
  match resolve_dome_host_liveness last_heartbeat_at now with
  | HostClosed => lease_state l StateClosed (Some session) (Some "heartbeat_timeout") last_heartbeat_at
  | OfflineGrace => lease_state l GracePeriod (Some session) (Some "heartbeat_missing") last_heartbeat_at
  | Online => lease_state l (hosted_kind (lease_host l)) (Some session) None last_heartbeat_at
  end.

Definition decide_state (l : Lease) (st : Answers) (now : Z) (last_heartbeat_at : option Z) : HostingState :=
  if is_closed st then closed "owner_closed"
  else match find_map (fun id => acceptances st !! id) (set_iter (activation_ids st)) with
       | None => lease_state l Transferring None (Some "awaiting_activation") last_heartbeat_at
       | Some a => active_state l (acc_session (acceptance a)) now last_heartbeat_at
       end.

Definition resolve_dome_hosting_state (records : list HostingRecord) (now : Z) (last_heartbeat_at : option Z)
    : outcome HostingState :=
  _ ← validate_dome_instance_manifest i;
  if negb (attached i) then mret (closed "instance_inactive")
  else
    m ← collect_leases (∅ : LeasesByEpoch) records;
    match last_key_value m with
    | None => mret (closed "no_lease")
    | Some (e, leases) =>
        match map_to_list leases with
        | [(_, s)] =>
            if expires_at (lease s) <=? now then mret (closed "lease_expired")
            else
              st ← collect_answers s e (dome_hosting_lease_digest (lease s)) no_answers records;
              mret (decide_state (lease s) st now last_heartbeat_at)
        | _ => mret (split_brain e last_heartbeat_at)
        end
    end.
End resolve.
End hosting.
