(* ===== verification/DomeHostingSpec.v ===== *)
(** * What the hosting records of a Dome say

    The declarative reading of a set of hosting records ([hosting_spec]) and the lemmas
    that relate the two loops of [resolve_dome_hosting_state] to it. *)
From S2P Require Import Prelude RustStr Envelope DomeTransition DomeTopology DomeHosts DomeHosting.

(** ** The last entry of a map and the first hit of a list *)
Lemma last_key_value_spec {A} (m : gmap Z A) :
  match last_key_value m with
  | None => m = ∅
  | Some (k, a) => m !! k = Some a /\ forall k' a', m !! k' = Some a' -> k' <= k
  end.
Proof.
  unfold last_key_value. set (best := fun kv b => _).
  assert (Hgen : forall l, match foldr best None l with
                           | None => l = []
                           | Some (k, a) => (k, a) ∈ l /\ forall k' a', (k', a') ∈ l -> k' <= k
                           end).
  { induction l as [|[k a] l IH]; [done|]. simpl. unfold best at 1.
    destruct (foldr best None l) as [[k0 a0]|]; simpl.
    - destruct IH as [Hin Hmax]. destruct (Z.ltb_spec k0 k).
      + split; [apply list_elem_of_here|]. intros k' a' [[= -> ->]|Hk']%elem_of_cons; [lia|]. apply Hmax in Hk'. lia.
      + split; [by apply list_elem_of_further|]. intros k' a' [[= -> ->]|Hk']%elem_of_cons; [lia|]. by apply Hmax in Hk'.
    - subst l. split; [apply list_elem_of_here|]. intros k' a' [[= -> ->]|Hk']%elem_of_cons; [lia|]. by apply not_elem_of_nil in Hk'. }
  specialize (Hgen (map_to_list m)). destruct (foldr best None (map_to_list m)) as [[k a]|].
  - destruct Hgen as [Hin Hmax]. split; [by apply elem_of_map_to_list|]. intros k' a' Hk'. by eapply Hmax, elem_of_map_to_list.
  - by apply map_to_list_empty_iff.
Qed.

Lemma find_map_spec {A B} (f : A -> option B) l :
  match find_map f l with
  | None => forall x, x ∈ l -> f x = None
  | Some b => exists l1 x l2, l = (l1 ++ x :: l2)%list /\ f x = Some b /\ forall y, y ∈ l1 -> f y = None
  end.
Proof.
  induction l as [|x l IH]; simpl; [set_solver|]. destruct (f x) as [b|] eqn:E.
  - exists [], x, l. split_and!; [done | done | set_solver].
  - destruct (find_map f l) as [b|].
    + destruct IH as (l1 & y & l2 & -> & Hy & Hl1). exists (x :: l1), y, l2. split_and!; [done | done |].
      intros z [->|Hz]%elem_of_cons; [done | by apply Hl1].
    + intros y [->|Hy]%elem_of_cons; [done | by apply IH].
Qed.

Section spec.
Context {crypto : Crypto} `{Json Lease} `{Json Acceptance} `{Json Activation} `{Json Close}.
Context (digest : Lease -> string) (i : InstanceManifest).
Implicit Types records : list HostingRecord.

(** ** Reading the records *)

(** An issued lease of the current generation and revision of the instance. *)
Definition current records (s : SignedLease) : Prop := LeaseIssued s ∈ records /\ check_lease i s = Ok true.

(** [l] is the lease of the highest epoch, up to its digest. *)
Definition sole records (l : Lease) : Prop :=
  (exists s, current records s /\ lease s = l)
  /\ forall s, current records s -> epoch (lease s) < epoch l \/ epoch (lease s) = epoch l /\ digest (lease s) = digest l.

(** Two leases share the highest epoch. *)
Definition conflict records (e : Z) : Prop :=
  (exists s s', current records s /\ current records s' /\ epoch (lease s) = e /\ epoch (lease s') = e
     /\ digest (lease s) <> digest (lease s'))
  /\ forall s, current records s -> epoch (lease s) <= e.

Definition about_acceptance (l : Lease) (a : SignedAcceptance) : bool :=
  (acc_epoch (acceptance a) =? epoch l) && bool_decide (acc_digest (acceptance a) = digest l).
Definition about_activation (l : Lease) (a : SignedActivation) : bool :=
  (act_epoch (activation a) =? epoch l) && bool_decide (act_digest (activation a) = digest l).
Definition about_close (l : Lease) (c : SignedClose) : bool :=
  (close_epoch (close c) =? epoch l) && bool_decide (close_digest (close c) = digest l).

Definition closed_by records (l : Lease) (c : SignedClose) : Prop := LeaseClosed c ∈ records /\ about_close l c = true.

(** The host's acceptance [a] of [l] has been activated by the owner. *)
Definition activated records (l : Lease) (a : SignedAcceptance) : Prop :=
  (HostAccepted a ∈ records /\ about_acceptance l a = true)
  /\ exists act, (LeaseActivated act ∈ records /\ about_activation l act = true)
     /\ host_acceptance_envelope_id (activation act) = env_id (acceptance_envelope a).

(** No activated acceptance has a smaller envelope id. *)
Definition first_activated records (l : Lease) (a : SignedAcceptance) : Prop :=
  activated records l a
  /\ forall a', activated records l a' -> rust_leb (env_id (acceptance_envelope a)) (env_id (acceptance_envelope a')) = true.

(** An answer to the lease [s] passes its check. *)
Definition answer_verified (s : SignedLease) (r : HostingRecord) : Prop :=
  match r with
  | HostAccepted a => about_acceptance (lease s) a = true -> verify_acceptance digest s a = Ok tt
  | LeaseActivated a => about_activation (lease s) a = true -> verify_activation digest s a = Ok tt
  | LeaseClosed c => about_close (lease s) c = true -> verify_close digest s c = Ok tt
  | LeaseIssued _ => True
  end.

(** [s] is the lease in force: the only one of the highest epoch, not expired, with only
    authentic answers to it. *)
Record in_force records (now : Z) (s : SignedLease) : Prop := {
  if_current : current records s;
  if_sole : sole records (lease s);
  if_alive : now < expires_at (lease s);
  if_answers r : r ∈ records -> answer_verified s r
}.

Inductive hosting_spec records (now : Z) (hb : option Z) : HostingState -> Prop :=
| SpecInactive : attached i = false -> hosting_spec records now hb (closed "instance_inactive")
| SpecNoLease : attached i = true -> (forall s, ~ current records s) -> hosting_spec records now hb (closed "no_lease")
| SpecConflict e : attached i = true -> conflict records e -> hosting_spec records now hb (split_brain e hb)
| SpecExpired l : attached i = true -> sole records l -> expires_at l <= now ->
    hosting_spec records now hb (closed "lease_expired")
| SpecClosed s c : attached i = true -> in_force records now s -> closed_by records (lease s) c ->
    hosting_spec records now hb (closed "owner_closed")
| SpecWaiting s : attached i = true -> in_force records now s -> (forall c, ~ closed_by records (lease s) c) ->
    (forall a, ~ activated records (lease s) a) ->
    hosting_spec records now hb (lease_state (lease s) Transferring None (Some "awaiting_activation") hb)
| SpecActive s a : attached i = true -> in_force records now s -> (forall c, ~ closed_by records (lease s) c) ->
    first_activated records (lease s) a ->
    hosting_spec records now hb (active_state (lease s) (acc_session (acceptance a)) now hb).

Definition leases_ok records : Prop := forall s, LeaseIssued s ∈ records -> is_ok (check_lease i s) = true.

(** ** The first loop *)
Fixpoint current_leases records : list SignedLease :=
  match records with
  | [] => []
  | LeaseIssued s :: records =>
      match check_lease i s with Ok true => s :: current_leases records | _ => current_leases records end
  | _ :: records => current_leases records
  end.

Lemma elem_of_current_leases records s : s ∈ current_leases records <-> current records s.
Proof.
  unfold current. induction records as [|[s'|s'|s'|s'] records IH]; simpl.
  { split; [by intros ?%not_elem_of_nil | by intros [?%not_elem_of_nil _]]. }
  2-4: rewrite IH, elem_of_cons; naive_solver.
  rewrite elem_of_cons. destruct (check_lease i s') as [[]|] eqn:E; rewrite ?elem_of_cons, IH.
  1: split; [intros [->|[??]]; auto | intros [[[= ->]|?] ?]; auto].
  all: split; [intros [??]; auto | intros [[[= ->]|?] ?]; [congruence | auto]].
Qed.

Definition insert_all (m : gmap Z (gmap string SignedLease)) (l : list SignedLease) : gmap Z (gmap string SignedLease) :=
  foldl (fun m s => insert_lease digest s m) m l.

Lemma collect_leases_ok m records m' :
  collect_leases digest i m records = Ok m' <->
  leases_ok records /\ m' = insert_all m (current_leases records).
Proof.
  unfold leases_ok. revert m. induction records as [|[s|s|s|s] records IH]; intros m; simpl.
  { split; [intros [= ->]; split; [by intros ? ?%not_elem_of_nil | done] | by intros [_ ->]]. }
  2-4: rewrite IH; setoid_rewrite elem_of_cons; naive_solver.
  destruct (check_lease i s) as [b|e] eqn:E.
  - rewrite bind_ok, IH. destruct b; simpl; split; intros [Hok Hm]; (split; [|done]); intros s' Hs';
      (apply Hok; by right) || (apply elem_of_cons in Hs' as [[= ->]|?]; [by rewrite E | by apply Hok]).
  - split; [done|]. intros [Hok _]. specialize (Hok s (list_elem_of_here _ _)). by rewrite E in Hok.
Qed.

Lemma insert_all_spec l m :
  (forall e inner d s, m !! e = Some inner -> inner !! d = Some s -> epoch (lease s) = e /\ digest (lease s) = d) ->
  (forall e inner, m !! e = Some inner -> inner <> ∅) ->
  let m' := insert_all m l in
  (forall e inner d s, m' !! e = Some inner -> inner !! d = Some s ->
     (epoch (lease s) = e /\ digest (lease s) = d) /\ (s ∈ l \/ exists inner0, m !! e = Some inner0 /\ inner0 !! d = Some s))
  /\ (forall e inner, m' !! e = Some inner -> inner <> ∅)
  /\ (forall s, (s ∈ l \/ exists inner, m !! epoch (lease s) = Some inner /\ is_Some (inner !! digest (lease s))) ->
        exists inner, m' !! epoch (lease s) = Some inner /\ is_Some (inner !! digest (lease s))).
Proof.
  revert m. induction l as [|s0 l IH]; intros m Hkey Hne; cbn zeta; simpl.
  { split_and!; [intros; split; [by eapply Hkey | right; eauto] | done | set_solver]. }
  set (m1 := insert_lease digest s0 m).
  assert (Hm1 : forall e inner, m1 !! e = Some inner ->
    e = epoch (lease s0) /\ inner = <[digest (lease s0) := s0]> (default ∅ (m !! e)) \/ e <> epoch (lease s0) /\ m !! e = Some inner).
  { intros e inner. unfold m1, insert_lease. rewrite lookup_insert_Some. intros [[<- <-]|[? ?]]; [by left | by right]. }
  destruct (IH m1) as (IH1 & IH2 & IH3).
  - intros e inner d s He Hd. destruct (Hm1 _ _ He) as [[-> ->]|[_ He0]]; [|by eapply Hkey].
    apply lookup_insert_Some in Hd as [[<- <-]|[_ Hd]]; [done|].
    destruct (m !! epoch (lease s0)) as [inner0|] eqn:E0; [by eapply Hkey | simpl in Hd; by rewrite lookup_empty in Hd].
  - intros e inner He. destruct (Hm1 _ _ He) as [[-> ->]|[_ He0]]; [apply insert_non_empty | by eapply Hne].
  - split_and!; [|done|].
    + intros e inner d s He Hd. destruct (IH1 _ _ _ _ He Hd) as [Hk [Hin|(inner0 & He0 & Hd0)]]; (split; [done|]).
      { left. by right. }
      destruct (Hm1 _ _ He0) as [[-> ->]|[_ He1]]; [|eauto].
      apply lookup_insert_Some in Hd0 as [[_ <-]|[_ Hd0]]; [left; apply list_elem_of_here|].
      destruct (m !! epoch (lease s0)) as [inner0|] eqn:E0; [by eauto | simpl in Hd0; by rewrite lookup_empty in Hd0].
    + intros s Hs. apply IH3. unfold m1, insert_lease. destruct Hs as [[->|Hs]%elem_of_cons|(inner & He & Hd)].
      * right. eexists. rewrite lookup_insert_eq. split; [done|]. by rewrite lookup_insert_eq.
      * by left.
      * right. destruct (decide (epoch (lease s) = epoch (lease s0))) as [Heq|Hne'].
        -- rewrite Heq in *. rewrite He. simpl. eexists. rewrite lookup_insert_eq. split; [done|].
           destruct (decide (digest (lease s0) = digest (lease s))) as [<-|]; [by rewrite lookup_insert_eq | by rewrite lookup_insert_ne].
        -- exists inner. by rewrite lookup_insert_ne by done.
Qed.

Lemma top_lease records :
  match last_key_value (insert_all ∅ (current_leases records)) with
  | None => forall s, ~ current records s
  | Some (e, leases) =>
      match map_to_list leases with
      | [(_, s)] => current records s /\ epoch (lease s) = e /\ sole records (lease s)
      | _ => conflict records e
      end
  end.
Proof.
  destruct (insert_all_spec (current_leases records) ∅) as (Hfrom & Hne & Hin);
    [intros *; by rewrite lookup_empty | intros *; by rewrite lookup_empty |].
  set (m := insert_all ∅ (current_leases records)) in *. cbv zeta in *.
  assert (Hcur : forall e inner d s, m !! e = Some inner -> inner !! d = Some s ->
    current records s /\ epoch (lease s) = e /\ digest (lease s) = d).
  { intros e inner d s He Hd. destruct (Hfrom _ _ _ _ He Hd) as [Hk [?%elem_of_current_leases|(? & Hx & _)]]; [done|].
    by rewrite lookup_empty in Hx. }
  assert (Hall : forall s, current records s ->
    exists inner, m !! epoch (lease s) = Some inner /\ is_Some (inner !! digest (lease s))).
  { intros s ?%elem_of_current_leases. apply Hin. by left. }
  pose proof (last_key_value_spec m) as Hlast. destruct (last_key_value m) as [[e leases]|].
  2: { intros s (inner & Hx & _)%Hall. by rewrite Hlast, lookup_empty in Hx. }
  destruct Hlast as [He Hmax].
  assert (Htop : forall s, current records s -> epoch (lease s) <= e).
  { intros s (inner & Hx & _)%Hall. by eapply Hmax. }
  assert (Hl : forall d s, (d, s) ∈ map_to_list leases <-> leases !! d = Some s) by (intros; by rewrite elem_of_map_to_list).
  pose proof (NoDup_fst_map_to_list leases) as Hnd.
  destruct (map_to_list leases) as [|[d s] [|[d' s'] rest]] eqn:E.
  - apply map_to_list_empty_iff in E. by apply Hne in He.
  - assert (Hs : leases !! d = Some s) by (apply Hl, list_elem_of_here).
    destruct (Hcur _ _ _ _ He Hs) as (Hc & Hep & Hd). split_and!; [done | done |]. split; [eauto|].
    intros s0 Hs0. pose proof (Htop _ Hs0). destruct (Hall _ Hs0) as (inner & Hx & [s1 Hs1]).
    destruct (decide (epoch (lease s0) = e)) as [Heq|]; [right | left; lia]. split; [congruence|].
    rewrite Heq, He in Hx. injection Hx as <-. apply Hl, list_elem_of_singleton in Hs1. congruence.
  - assert (Hs : leases !! d = Some s) by (apply Hl, list_elem_of_here).
    assert (Hs' : leases !! d' = Some s') by (apply Hl; right; apply list_elem_of_here).
    destruct (Hcur _ _ _ _ He Hs) as (Hc & Hep & Hd). destruct (Hcur _ _ _ _ He Hs') as (Hc' & Hep' & Hd').
    split; [|done]. exists s, s'. split_and!; [done.. |]. rewrite Hd, Hd'. intros <-.
    simpl in Hnd. apply NoDup_cons in Hnd as [Hn _]. apply Hn, list_elem_of_here.
Qed.

(** ** The second loop *)
Record answers records (l : Lease) (st st' : Answers) : Prop := {
  an_closed : is_closed st' = true <-> is_closed st = true \/ exists c, closed_by records l c;
  an_ids id : id ∈ activation_ids st' <-> id ∈ activation_ids st
    \/ exists a, (LeaseActivated a ∈ records /\ about_activation l a = true) /\ host_acceptance_envelope_id (activation a) = id;
  an_from id a : acceptances st' !! id = Some a -> acceptances st !! id = Some a
    \/ (HostAccepted a ∈ records /\ about_acceptance l a = true) /\ env_id (acceptance_envelope a) = id;
  an_all id : is_Some (acceptances st' !! id) <-> is_Some (acceptances st !! id)
    \/ exists a, (HostAccepted a ∈ records /\ about_acceptance l a = true) /\ env_id (acceptance_envelope a) = id
}.

Lemma answers_none l st r :
  match r with
  | HostAccepted a => about_acceptance l a = false
  | LeaseActivated a => about_activation l a = false
  | LeaseClosed c => about_close l c = false
  | LeaseIssued _ => True
  end -> answers [r] l st st.
Proof.
  intros Hr. constructor; unfold closed_by; setoid_rewrite list_elem_of_singleton; try tauto; split; (tauto || intros [?|(x & [<- Hx] & _)] || intros [?|(x & <- & Hx)]); congruence.
Qed.

Lemma add_answer_ok s st r st1 :
  add_answer digest s (epoch (lease s)) (digest (lease s)) st r = Ok st1 ->
  answer_verified s r /\ answers [r] (lease s) st st1.
Proof.
  destruct r as [r|r|r|r]; simpl; fold (about_acceptance (lease s) r) || fold (about_activation (lease s) r)
    || fold (about_close (lease s) r) || idtac.
  { intros [= <-]. split; [done | by apply answers_none]. }
  all: destruct (_ (lease s) r) eqn:E; [|intros [= <-]; split; [done | by apply answers_none]].
  all: intros Hv; inv_result; injection Hv as <-; destruct r0 as [].
  all: (split; [done|]); constructor; unfold closed_by; setoid_rewrite list_elem_of_singleton; cbn [acceptances activation_ids is_closed].
  all: intros; rewrite ?lookup_insert_Some, ?lookup_insert_is_Some, ?elem_of_union, ?elem_of_singleton.
  all: try (split; [tauto|]; intros [?|(x & Hx)]; [tauto | exfalso; destruct_and?; congruence]).
  all: try tauto.
  - match goal with Hl : insert _ _ _ !! _ = Some _ |- _ => apply lookup_insert_Some in Hl as [[<- <-]|[_ ?]] end; auto.
  - destruct (decide (env_id (acceptance_envelope r) = id)); naive_solver.
  - naive_solver.
  - naive_solver.
Qed.

Lemma add_answer_total s st r :
  answer_verified s r -> exists st1, add_answer digest s (epoch (lease s)) (digest (lease s)) st r = Ok st1.
Proof.
  destruct r as [r|r|r|r]; simpl; fold (about_acceptance (lease s) r) || fold (about_activation (lease s) r)
    || fold (about_close (lease s) r) || idtac; intros Hv; [by eexists|..].
  all: destruct (_ (lease s) r) eqn:E; [rewrite Hv by done; by eexists | by eexists].
Qed.

Lemma answers_nil l st : answers [] l st st.
Proof.
  constructor; unfold closed_by; intros; try tauto; (split; [tauto|]); intros [?|(x & Hx)]; try tauto;
    exfalso; destruct_and?; by eapply not_elem_of_nil.
Qed.

Lemma answers_cons r records l st st1 st2 :
  answers [r] l st st1 -> answers records l st1 st2 -> answers (r :: records) l st st2.
Proof.
  intros [C I F A] [C' I' F' A']. unfold closed_by in *. constructor; unfold closed_by.
  - rewrite C', C. setoid_rewrite elem_of_cons. setoid_rewrite elem_of_nil. naive_solver.
  - intros id. rewrite I', I. setoid_rewrite elem_of_cons. setoid_rewrite elem_of_nil. naive_solver.
  - intros id a Ha. destruct (F' _ _ Ha) as [Hb|Hb]; [destruct (F _ _ Hb) as [?|Hc]; [by left|] |]; right.
    + destruct Hc as [[Hr%list_elem_of_singleton ?] ?]. rewrite Hr. split_and!; auto using list_elem_of_here. 
    + destruct Hb as [[? ?] ?]. split_and!; auto using list_elem_of_further.
  - intros id. rewrite A', A. setoid_rewrite elem_of_cons. setoid_rewrite elem_of_nil. naive_solver.
Qed.

Lemma collect_answers_ok s st records st' :
  collect_answers digest s (epoch (lease s)) (digest (lease s)) st records = Ok st' ->
  (forall r, r ∈ records -> answer_verified s r) /\ answers records (lease s) st st'.
Proof.
  revert st. induction records as [|r records IH]; intros st; simpl.
  { intros [= ->]. split; [by intros ? ?%not_elem_of_nil | apply answers_nil]. }
  intros (st1 & E1 & E2)%result_bind_ok. destruct (add_answer_ok _ _ _ _ E1), (IH _ E2). split.
  - intros r' [->|?]%elem_of_cons; auto.
  - by eapply answers_cons.
Qed.

Lemma collect_answers_total s st records :
  (forall r, r ∈ records -> answer_verified s r) ->
  exists st', collect_answers digest s (epoch (lease s)) (digest (lease s)) st records = Ok st'.
Proof.
  revert st. induction records as [|r records IH]; intros st Hv; simpl; [by eexists|].
  destruct (add_answer_total s st r) as [st1 ->]; [apply Hv, list_elem_of_here|]. rewrite bind_ok.
  apply IH. intros. apply Hv. by right.
Qed.

(** ** The whole resolution *)
Lemma first_in_set {B} (f : string -> option B) (X : gset string) :
  match find_map f (set_iter X) with
  | None => forall x, x ∈ X -> f x = None
  | Some b => exists x, x ∈ X /\ f x = Some b /\ forall y, y ∈ X -> is_Some (f y) -> rust_leb x y = true
  end.
Proof.
  pose proof (find_map_spec f (set_iter X)) as Hf. destruct (find_map f (set_iter X)) as [b|].
  - destruct Hf as (l1 & x & l2 & Hl & Hx & Hl1). exists x. split_and!; [|done|].
    { apply elem_of_set_iter. rewrite Hl. set_solver. }
    intros y Hy%elem_of_set_iter [b' Hb']. rewrite Hl in Hy.
    assert (Hs : StronglySorted (fun a b => rust_leb a b = true) (set_iter X)).
    { apply sort_by_sorted; intros *; [apply rust_leb_total | apply rust_leb_trans]. }
    rewrite Hl in Hs. apply elem_of_app in Hy as [Hy|[->|Hy]%elem_of_cons]; [by rewrite Hl1 in Hb' | apply rust_leb_refl |].
    apply (sublist_sorted _ (x :: l2)) in Hs; [|by apply sublist_inserts_l].
    apply StronglySorted_inv in Hs as [_ Hall]. rewrite Forall_forall in Hall. by apply Hall.
  - intros x Hx. apply Hf. by apply elem_of_set_iter.
Qed.

Lemma decide_state_spec records s st now hb :
  attached i = true -> in_force records now s -> answers records (lease s) no_answers st -> hosting_spec records now hb (decide_state (lease s) st now hb).
Proof.
  intros Hat Hs [C I F A]. unfold decide_state. destruct (is_closed st).
  { destruct C as [[?|[c Hc]] _]; [done | done |]. by eapply SpecClosed. }
  assert (Hopen : forall c, ~ closed_by records (lease s) c) by (intros c Hc; assert (false = true) by (apply C; eauto); done).
  assert (Hids : forall a, activated records (lease s) a ->
    env_id (acceptance_envelope a) ∈ activation_ids st /\ is_Some (acceptances st !! env_id (acceptance_envelope a))).
  { intros a [Ha (act & Hact & Hid)]. split; [apply I | apply A]; right; eauto. }
  pose proof (first_in_set (fun id => acceptances st !! id) (activation_ids st)) as Hf.
  destruct (find_map _ _) as [a|].
  - destruct Hf as (id & Hin & Ha & Hmin).
    destruct (F _ _ Ha) as [Hx|[Hacc <-]]; [simpl in Hx; by rewrite lookup_empty in Hx|].
    apply I in Hin as [Hx|(act & Hact & Hid)]; [simpl in Hx; set_solver|].
    apply SpecActive; [done.. |]. split; [split; eauto|]. intros a' [Hi' Hs']%Hids. by apply Hmin.
  - apply SpecWaiting; [done.. |]. intros a [Hi' [x Hx]]%Hids. by rewrite Hf in Hx.
Qed.

Lemma resolve_sound records now hb st :
  resolve_dome_hosting_state digest i records now hb = Ok st ->
  validate_dome_instance_manifest i = Ok tt /\ (attached i = true -> leases_ok records) /\ hosting_spec records now hb st.
Proof.
  unfold resolve_dome_hosting_state. intros ([] & Hv & Hr)%result_bind_ok. split; [done|].
  destruct (attached i) eqn:Hat; simpl in Hr; [|injection Hr as <-; split; [done | by apply SpecInactive]].
  apply result_bind_ok in Hr as (m & [Hok ->]%collect_leases_ok & Hr). split; [done|].
  pose proof (top_lease records) as Htop. destruct (last_key_value _) as [[e leases]|]; [|injection Hr as <-; by apply SpecNoLease].
  destruct (map_to_list leases) as [|[d s] [|? ?]]; [injection Hr as <-; by apply SpecConflict | | injection Hr as <-; by apply SpecConflict].
  destruct Htop as (Hc & <- & Hsole). destruct (Z.leb_spec (expires_at (lease s)) now).
  { injection Hr as <-. by eapply SpecExpired. }
  apply result_bind_ok in Hr as (an & [Hver Han]%collect_answers_ok & Hr). injection Hr as <-. by apply decide_state_spec.
Qed.

Lemma resolve_total records now hb :
  validate_dome_instance_manifest i = Ok tt -> leases_ok records ->
  (forall s, current records s -> sole records (lease s) -> now < expires_at (lease s) -> in_force records now s) ->
  exists st, resolve_dome_hosting_state digest i records now hb = Ok st.
Proof.
  intros Hv Hok Hin. unfold resolve_dome_hosting_state. rewrite Hv, bind_ok. destruct (attached i); [|by eexists]. simpl.
  destruct (collect_leases_ok ∅ records (insert_all ∅ (current_leases records))) as [_ ->]; [|done]. rewrite bind_ok.
  pose proof (top_lease records) as Htop. destruct (last_key_value _) as [[e leases]|]; [|by eexists].
  destruct (map_to_list leases) as [|[d s] [|? ?]]; [by eexists | | by eexists].
  destruct Htop as (Hc & <- & Hsole). destruct (Z.leb_spec (expires_at (lease s)) now); [by eexists|].
  destruct (collect_answers_total s no_answers records) as [an ->]; [|by eexists].
  by apply Hin.
Qed.
End spec.
