(* ===== verification/DomeHostingProps.v ===== *)
(** * Theorems about Dome hosting leases

    The resolved state is the declarative reading of the set of records, a session is
    named only with the signatures of owner and host, a closed lease stays closed, what the
    signing functions produce passes verification, and the length of a lease. *)
From S2P Require Import Prelude RustStr Envelope DomeTransition DomeTopology DomeHosts DomeHosting DomeHostingSpec.

Lemma lift_ok {A} (r : result string A) a : lift r = Ok a <-> r = Ok a.
Proof. destruct r; simpl; split; congruence. Qed.

Lemma check_ok b m : check b m = Ok tt <-> b = true.
Proof. unfold check, ensure. by destruct b. Qed.

(** Invert the checks of a validation that succeeded. *)
Ltac inv_checks :=
  repeat match goal with
  | H : (_ ≫= _) = Ok _ |- _ => let x := fresh "u" in let E := fresh "E" in
      apply result_bind_ok in H; destruct H as (x & E & H)
  | u : unit |- _ => destruct u
  | H : check _ _ = Ok _ |- _ => apply check_ok in H
  | H : lift _ = Ok _ |- _ => apply lift_ok in H
  end; destruct_bools.

Section props.
Context {crypto : Crypto} `{Json Lease} `{Json Acceptance} `{Json Activation} `{Json Close}.
Context (digest : Lease -> string) (i : InstanceManifest).
Implicit Types records : list HostingRecord.

(** ** What the checks establish *)
Lemma check_lease_true s :
  check_lease i s = Ok true ->
  validate_dome_hosting_lease (lease s) i = Ok tt
  /\ authentic (lease_envelope s) LEASE_KIND (lease_owner (lease s)) (lease s).
Proof.
  unfold check_lease. destruct (_ <? _); [|destruct (_ <? _)]; intros Hc; inv_checks; try done.
  unfold verify_signed_dome_hosting_lease in *. inv_checks. split; [done|]. by apply verify_envelope_content_ok.
Qed.

Lemma valid_lease l :
  validate_dome_hosting_lease l i = Ok tt ->
  attached i = true /\ lease_owner l = im_owner i /\ lease_instance l = im_id i /\ lease_context l = im_context i
  /\ lease_generation l = im_generation i /\ manifest_version l = preset_revision (im_preset i)
  /\ lease_manifest l = manifest_blob_hash (im_preset i) /\ expiry_supported l = true /\ validate_target (lease_host l) = Ok tt.
Proof.
  unfold validate_dome_hosting_lease. intros Hv. inv_checks. split_and!; try done; by apply Z.eqb_eq.
Qed.

Lemma verify_acceptance_ok s a :
  verify_acceptance digest s a = Ok tt ->
  authentic (acceptance_envelope a) ACCEPTANCE_KIND (signing_pubkey (lease_host (lease s))) (acceptance a)
  /\ blank (acc_session (acceptance a)) = false /\ issued_at (lease s) <= accepted_at (acceptance a) < expires_at (lease s).
Proof. unfold verify_acceptance. intros Hv. inv_checks. split_and!; [by apply verify_envelope_content_ok | done | lia..]. Qed.

Lemma verify_activation_ok s a :
  verify_activation digest s a = Ok tt ->
  authentic (activation_envelope a) ACTIVATION_KIND (lease_owner (lease s)) (activation a).
Proof. unfold verify_activation. intros Hv. inv_checks. by apply verify_envelope_content_ok. Qed.

Lemma verify_close_ok s c :
  verify_close digest s c = Ok tt ->
  authentic (close_envelope c) CLOSE_KIND (lease_owner (lease s)) (close c) /\ about_close digest (lease s) c = true.
Proof.
  unfold verify_close, about_close. intros Hv. inv_checks. split; [by apply verify_envelope_content_ok|].
  apply andb_true_intro. split; [done | by apply bool_decide_eq_true].
Qed.

(** The checks of an answer read the lease, not its envelope. *)
Lemma answer_verified_lease s s' r :
  lease s = lease s' -> answer_verified digest s r -> answer_verified digest s' r.
Proof. destruct s, s'; simpl. intros ->. by destruct r. Qed.

(** ** The reading is a function of the set of records *)

(** The hashes of the records at hand do not collide: leases with one digest are equal,
    and so is the content of acceptance envelopes with one id. *)
Record collision_free records : Prop := {
  cf_digest s s' : LeaseIssued s ∈ records -> LeaseIssued s' ∈ records ->
    digest (lease s) = digest (lease s') -> lease s = lease s';
  cf_id a a' : HostAccepted a ∈ records -> HostAccepted a' ∈ records ->
    hex_encode (sha256_digest (payload_of (acceptance_envelope a))) = hex_encode (sha256_digest (payload_of (acceptance_envelope a'))) ->
    content (acceptance_envelope a) = content (acceptance_envelope a')
}.

Lemma sole_unique records l l' :
  collision_free records -> sole digest i records l -> sole digest i records l' -> l = l'.
Proof.
  intros Hcf [(s & Hs & <-) Hm] [(s' & Hs' & <-) Hm'].
  destruct (Hm _ Hs') as [?|[? Hd]]; [destruct (Hm' _ Hs) as [?|[? ?]]; lia|].
  symmetry. by apply (cf_digest _ Hcf); [apply Hs' | apply Hs |].
Qed.

Lemma sole_conflict records l e : sole digest i records l -> conflict digest i records e -> False.
Proof.
  intros [(s0 & Hs0 & <-) Hm] [(s & s' & Hs & Hs' & He & He' & Hd) Htop].
  pose proof (Htop _ Hs0). destruct (Hm _ Hs) as [?|[? ?]], (Hm _ Hs') as [?|[? ?]]; [lia.. | congruence].
Qed.

Lemma conflict_unique records e e' : conflict digest i records e -> conflict digest i records e' -> e = e'.
Proof.
  intros [(s & _ & Hs & _ & He & _) Ht] [(s' & _ & Hs' & _ & He' & _) Ht'].
  pose proof (Ht _ Hs'). pose proof (Ht' _ Hs). lia.
Qed.

Lemma first_activated_unique records now s a a' :
  collision_free records -> in_force digest i records now s ->
  first_activated digest records (lease s) a -> first_activated digest records (lease s) a' ->
  acc_session (acceptance a) = acc_session (acceptance a').
Proof.
  intros Hcf Hf [Ha Hmin] [Ha' Hmin'].
  assert (Hid : env_id (acceptance_envelope a) = env_id (acceptance_envelope a')) by (apply rust_leb_antisym; auto).
  destruct Ha as [[Hin Hab] _], Ha' as [[Hin' Hab'] _].
  destruct (verify_acceptance_ok s a) as [Hau _]; [by apply (if_answers _ _ _ _ _ Hf (HostAccepted a))|].
  destruct (verify_acceptance_ok s a') as [Hau' _]; [by apply (if_answers _ _ _ _ _ Hf (HostAccepted a'))|].
  assert (Hc : content (acceptance_envelope a) = content (acceptance_envelope a')).
  { apply (cf_id _ Hcf); [done..|]. by rewrite <- (auth_id _ _ _ _ Hau), <- (auth_id _ _ _ _ Hau'). }
  pose proof (auth_content _ _ _ _ Hau) as Hd. rewrite Hc, (auth_content _ _ _ _ Hau') in Hd. congruence.
Qed.

Lemma no_lease_sole records l : (forall s, ~ current i records s) -> sole digest i records l -> False.
Proof. intros Hno [(s & Hs & _) _]. by apply (Hno s). Qed.

Lemma no_lease_conflict records e : (forall s, ~ current i records s) -> conflict digest i records e -> False.
Proof. intros Hno [(s & _ & Hs & _) _]. by apply (Hno s). Qed.

Lemma hosting_spec_unique records now hb st st' :
  collision_free records -> hosting_spec digest i records now hb st -> hosting_spec digest i records now hb st' -> st = st'.
Proof.
  intros Hcf Hs Hs'.
  destruct Hs as [|Hat Hno|e Hat Hcon|l Hat Hso Hex|s c Hat Hf Hc|s Hat Hf Hno Hw|s a Hat Hf Hno Ha];
  destruct Hs' as [|Hat' Hno'|e' Hat' Hcon'|l' Hat' Hso' Hex'|s' c' Hat' Hf' Hc'|s' Hat' Hf' Hno' Hw'|s' a' Hat' Hf' Hno' Ha'];
  try done; try congruence;
  try (pose proof (if_sole _ _ _ _ _ Hf) as Hso); try (pose proof (if_sole _ _ _ _ _ Hf') as Hso');
  try (pose proof (if_alive _ _ _ _ _ Hf) as Hal); try (pose proof (if_alive _ _ _ _ _ Hf') as Hal');
  try (exfalso; by eauto using no_lease_sole, no_lease_conflict, sole_conflict);
  try (rewrite (conflict_unique records e e') by done; done);
  try (pose proof (sole_unique _ _ _ Hcf Hso Hso') as Heq; subst; try rewrite Heq in * );
  try (exfalso; lia); try (by destruct (Hno' c)); try (by destruct (Hno c')); try done.
  - exfalso. by apply (Hw a'), Ha'.
  - exfalso. by apply (Hw' a), Ha.
  - by rewrite (first_activated_unique records now s' a a') by done.
Qed.

Lemma in_force_sole records now s s' :
  collision_free records -> in_force digest i records now s -> current i records s' -> sole digest i records (lease s') ->
  now < expires_at (lease s') -> in_force digest i records now s'.
Proof.
  intros Hcf Hf Hc Hso Hal. pose proof (sole_unique _ _ _ Hcf (if_sole _ _ _ _ _ Hf) Hso) as Heq. constructor; [done.. |].
  intros r Hr. apply (answer_verified_lease s); [done|]. by apply (if_answers _ _ _ _ _ Hf).
Qed.

Lemma hosting_resolves_iff records now hb st :
  collision_free records ->
  resolve_dome_hosting_state digest i records now hb = Ok st <->
  validate_dome_instance_manifest i = Ok tt /\ (attached i = true -> leases_ok i records)
  /\ hosting_spec digest i records now hb st.
Proof.
  intros Hcf. split; [apply resolve_sound|]. intros (Hv & Hok & Hs).
  assert (exists st', resolve_dome_hosting_state digest i records now hb = Ok st') as [st' Hr].
  { destruct (attached i) eqn:Hat.
    - apply resolve_total; [done | by apply Hok |]. intros s Hc Hso Hal.
      destruct Hs as [|_ Hno|e _ Hcon|l _ Hso' Hex|s' c _ Hf _|s' _ Hf _ _|s' a _ Hf _ _]; [congruence | ..].
      + by destruct (Hno s).
      + by destruct (sole_conflict records (lease s) e).
      + rewrite (sole_unique records l (lease s)) in Hex by done. lia.
      + by apply (in_force_sole _ _ s').
      + by apply (in_force_sole _ _ s').
      + by apply (in_force_sole _ _ s').
    - unfold resolve_dome_hosting_state. rewrite Hv, bind_ok, Hat. by eexists. }
  rewrite Hr. f_equal. apply resolve_sound in Hr as (_ & _ & Hs'). by eapply hosting_spec_unique.
Qed.

(** ** Sets of records *)
Section same_records.
Context records records' (Hset : forall r, r ∈ records <-> r ∈ records').

Lemma current_same s : current i records s <-> current i records' s.
Proof. unfold current. by rewrite Hset. Qed.

Lemma sole_same l : sole digest i records l <-> sole digest i records' l.
Proof. unfold sole. by setoid_rewrite current_same. Qed.

Lemma conflict_same e : conflict digest i records e <-> conflict digest i records' e.
Proof. unfold conflict. by setoid_rewrite current_same. Qed.

Lemma closed_by_same l c : closed_by digest records l c <-> closed_by digest records' l c.
Proof. unfold closed_by. by rewrite Hset. Qed.

Lemma activated_same l a : activated digest records l a <-> activated digest records' l a.
Proof. unfold activated. by setoid_rewrite Hset. Qed.

Lemma first_activated_same l a : first_activated digest records l a <-> first_activated digest records' l a.
Proof. unfold first_activated. by setoid_rewrite activated_same. Qed.

Lemma in_force_same now s : in_force digest i records now s -> in_force digest i records' now s.
Proof. intros [C S A V]. constructor; [by apply current_same | by apply sole_same | done |]. intros r ?%Hset. by apply V. Qed.

Lemma hosting_spec_same now hb st : hosting_spec digest i records now hb st -> hosting_spec digest i records' now hb st.
Proof.
  intros [|Hat Hno|e Hat Hcon|l Hat Hso Hex|s c Hat Hf Hc|s Hat Hf Hno Hw|s a Hat Hf Hno Ha].
  - by apply SpecInactive.
  - apply SpecNoLease; [done|]. by setoid_rewrite <- current_same.
  - apply SpecConflict; [done|]. by apply conflict_same.
  - eapply SpecExpired; [done | by apply sole_same | done].
  - eapply SpecClosed; [done | by apply in_force_same | by apply closed_by_same].
  - apply SpecWaiting; [done | by apply in_force_same | |]; [by setoid_rewrite <- closed_by_same | by setoid_rewrite <- activated_same].
  - apply SpecActive; [done | by apply in_force_same | by setoid_rewrite <- closed_by_same | by apply first_activated_same].
Qed.

Lemma collision_free_same : collision_free records -> collision_free records'.
Proof. intros [Hd Hi]. constructor; intros *; rewrite <- !Hset; [apply Hd | apply Hi]. Qed.
End same_records.

(** ** Theorems *)

(** C7: The hosting state is the declarative reading of the records.  When hashes do not
    collide, the resolution answers exactly if the instance is valid, every issued lease
    passes its check and the state is the one the records describe: closed without a
    current lease, split brain when two leases share the highest epoch, else the state of
    the one lease of the highest epoch: expired, closed by its owner, waiting for an
    activation, or active with the session of the activated acceptance and the liveness of
    its host.  The answers to the lease in force are all authentic. *)
Theorem hosting_resolves records now hb st :
  collision_free records ->
  resolve_dome_hosting_state digest i records now hb = Ok st <->
  validate_dome_instance_manifest i = Ok tt /\ (attached i = true -> leases_ok i records)
  /\ hosting_spec digest i records now hb st.
Proof. apply hosting_resolves_iff. Qed.

(** C17: Peers that know the same records derive the same hosting state, whatever the order
    in which the records arrived and however often. *)
Theorem hosting_order_irrelevant records records' now hb st :
  collision_free records -> (forall r, r ∈ records <-> r ∈ records') ->
  resolve_dome_hosting_state digest i records now hb = Ok st <-> resolve_dome_hosting_state digest i records' now hb = Ok st.
Proof.
  intros Hcf Hset. rewrite !hosting_resolves_iff by eauto using collision_free_same. unfold leases_ok. setoid_rewrite Hset.
  split; intros (? & ? & Hs); (split_and!; [done.. |]); eapply hosting_spec_same; try exact Hs; naive_solver.
Qed.

(** C8: A state that names a session is authorised: the records hold a lease that the
    owner of the instance signed for this generation and preset revision, an acceptance of
    it that its host signed with that session, and the owner's activation of that
    acceptance.  The lease is not expired, no current lease has a higher epoch, and no
    authentic close of it is known. *)
Theorem session_is_authorised records now hb st session :
  resolve_dome_hosting_state digest i records now hb = Ok st -> state_session st = Some session ->
  exists s a act,
    (LeaseIssued s ∈ records /\ HostAccepted a ∈ records /\ LeaseActivated act ∈ records)
    /\ authentic (lease_envelope s) LEASE_KIND (im_owner i) (lease s)
    /\ authentic (acceptance_envelope a) ACCEPTANCE_KIND (signing_pubkey (lease_host (lease s))) (acceptance a)
    /\ authentic (activation_envelope act) ACTIVATION_KIND (im_owner i) (activation act)
    /\ host_acceptance_envelope_id (activation act) = env_id (acceptance_envelope a)
    /\ acc_digest (acceptance a) = digest (lease s) /\ act_digest (activation act) = digest (lease s)
    /\ acc_session (acceptance a) = session
    /\ lease_generation (lease s) = im_generation i /\ manifest_version (lease s) = preset_revision (im_preset i)
    /\ now < expires_at (lease s)
    /\ (state_host st, state_epoch st) = (Some (lease_host (lease s)), Some (epoch (lease s)))
    /\ (forall s', current i records s' -> epoch (lease s') <= epoch (lease s))
    /\ (forall c, LeaseClosed c ∈ records -> verify_close digest s c <> Ok tt).
Proof.
  intros (_ & _ & Hs)%resolve_sound Hses.
  destruct Hs as [| | | | | |s a Hat Hf Hno [[[Hin Hab] (act & [Hact Habt] & Hid)] _]]; try done.
  pose proof (if_current _ _ _ _ _ Hf) as [Hl Hc]. destruct (check_lease_true s Hc) as [Hv Hau].
  destruct (valid_lease _ Hv) as (_ & Ho & _ & _ & Hg & Hr & _). rewrite Ho in Hau.
  destruct (verify_acceptance_ok s a) as [Haa _]; [by apply (if_answers _ _ _ _ _ Hf (HostAccepted a))|].
  pose proof (verify_activation_ok s act (if_answers _ _ _ _ _ Hf (LeaseActivated act) Hact Habt)) as Hacta. rewrite Ho in Hacta.
  assert (Hss : acc_session (acceptance a) = session).
  { revert Hses. unfold active_state. by destruct (resolve_dome_host_liveness hb now); intros [= ->]. }
  unfold about_acceptance, about_activation in *. destruct_bools.
  exists s, a, act. split_and!; try done.
  - apply (if_alive _ _ _ _ _ Hf).
  - unfold active_state. by destruct (resolve_dome_host_liveness hb now).
  - intros s' Hs'. destruct (if_sole _ _ _ _ _ Hf) as [_ Hm]. destruct (Hm _ Hs') as [?|[? _]]; lia.
  - intros c Hcl [_ Hcc]%verify_close_ok. by apply (Hno c).
Qed.

(** A close is final.  Once the owner's authentic close of a current lease is among
    the records, no state derived from them names a host unless the owner has issued a
    lease of a higher epoch, and then it names that one. *)
Theorem close_is_final records now hb st s c :
  resolve_dome_hosting_state digest i records now hb = Ok st ->
  current i records s -> LeaseClosed c ∈ records -> verify_close digest s c = Ok tt ->
  state_host st = None
  \/ exists s', current i records s' /\ epoch (lease s) < epoch (lease s')
     /\ (state_host st, state_epoch st) = (Some (lease_host (lease s')), Some (epoch (lease s'))).
Proof.
  intros (_ & _ & Hs)%resolve_sound Hc Hin [_ Hab]%verify_close_ok.
  assert (Hlater : forall s', in_force digest i records now s' -> (forall c, ~ closed_by digest records (lease s') c) ->
    epoch (lease s) < epoch (lease s')).
  { intros s' Hf Hno. destruct (if_sole _ _ _ _ _ Hf) as [_ Hm]. destruct (Hm _ Hc) as [?|[He Hd]]; [done|].
    destruct (Hno c). split; [done|]. unfold about_close in *. by rewrite <- He, <- Hd. }
  destruct Hs as [| | | | |s' Hat Hf Hno _|s' a Hat Hf Hno _]; try by left.
  all: right; exists s'; split_and!; [apply Hf | by apply Hlater |].
  - done.
  - unfold active_state. by destruct (resolve_dome_host_liveness hb now).
Qed.

(** A lease with a time of issue that is not negative runs for at most thirty days. *)
Theorem lease_length_bounded l :
  0 <= issued_at l <= i64_max -> expires_at l <= i64_max -> validate_dome_hosting_lease l i = Ok tt ->
  0 < expires_at l - issued_at l <= DOME_HOSTING_MAX_LEASE_MILLIS.
Proof.
  intros Hi He Hv. apply valid_lease in Hv as (_ & _ & _ & _ & _ & _ & _ & Hx & _). unfold expiry_supported in Hx. destruct_bools.
  unfold sub_i64, wrap_i64, i64_max in *. rewrite Z.mod_small in *; lia.
Qed.
End props.
