(* ===== verification/DomeHostingService.v ===== *)
(** * Hosting a Dome from this device (crates/app-api/src/dome_hosting.rs,
      service/dome_host_ownership.rs)

    The application service of an owner: starting to host on the own device, handing the
    Dome to a community node, activating its acceptance, closing, and the view of the
    state.  The calls run under one lock.  The state is the stored records, the running
    sessions, the heartbeat tasks, the scope leases (of [ScopeLeases]), the heartbeats
    received from other hosts (of [DomeHosts]) and the projection rows.  Reads and writes
    of other services can fail; their outcomes are the arguments of a call ([CallEnv]).
    The session runtime is an interface ([HostRuntime]). *)
From S2P Require Import Prelude RustStr TimeIndex ScopeLeases Envelope DomeTransition DomeTopology DomeHosts DomeHosting.

Definition HOSTING_RECORD_PREFIX : string := "metaverse/dome-hosting".
Definition DEFAULT_LEASE_MILLIS : Z := 24 * 60 * 60 * 1000.

Definition hosting_state_key (instance_id : string) : string :=
  stable_key HOSTING_RECORD_PREFIX (instance_id ++s "/state").

Definition hosting_record_identity (r : HostingRecord) : Z * string * string :=
  match r with
  | LeaseIssued s => (epoch (lease s), "issued", env_id (lease_envelope s))
  | HostAccepted s => (acc_epoch (acceptance s), "accepted", env_id (acceptance_envelope s))
  | LeaseActivated s => (act_epoch (activation s), "activated", env_id (activation_envelope s))
  | LeaseClosed s => (close_epoch (close s), "closed", env_id (close_envelope s))
  end%string.

Definition record_epoch (r : HostingRecord) : Z := (hosting_record_identity r).1.1.

(** [iter().max()] *)
Definition max_epoch (l : list Z) : option Z :=
  match l with [] => None | x :: l => Some (foldr Z.max x l) end.

Definition next_hosting_epoch (records : list HostingRecord) : Z :=
  u64_saturating_add (default 0 (max_epoch (map record_epoch records))) 1.

Definition lease_expiry (now requested_duration : Z) : outcome Z :=
  let duration := if requested_duration =? 0 then DEFAULT_LEASE_MILLIS else requested_duration in
  _ ← check (negb ((duration <=? 0) || (DOME_HOSTING_MAX_LEASE_MILLIS <? duration)))
        "Dome Hosting Lease duration is outside the supported range";
  if in_i64 (now + duration) then mret (now + duration) else fail_with "Dome Hosting Lease expiry overflow".

(** [{}] of an [i64] *)
Definition dec_i64 (n : Z) : string := if n <? 0 then ("-" ++s dec (- n))%string else dec n.

Definition issued_of (r : HostingRecord) : option SignedLease :=
  match r with LeaseIssued s => Some s | _ => None end.

(** The records that [persist_dome_hosting_records] keeps: those of the highest epoch. *)
Definition latest_epoch_records (records : list HostingRecord) : list HostingRecord :=
  let latest := max_epoch (map record_epoch records) in
  List.filter (fun r => bool_decide (Some (record_epoch r) = latest)) records.

(** The records of the epochs that have a lease of the current generation. *)
Definition generation_records (i : InstanceManifest) (records : list HostingRecord) : list HostingRecord :=
  let epochs := map (fun s => epoch (lease s))
                  (List.filter (fun s => lease_generation (lease s) =? im_generation i) (omap issued_of records)) in
  List.filter (fun r => bool_decide (record_epoch r ∈ epochs)) records.

Definition activation_at (e : Z) (r : HostingRecord) : option SignedActivation :=
  match r with LeaseActivated s => if act_epoch (activation s) =? e then Some s else None | _ => None end.
Definition close_at (e : Z) (r : HostingRecord) : option SignedClose :=
  match r with LeaseClosed s => if close_epoch (close s) =? e then Some s else None | _ => None end.

Definition topic_of (c : SpatialContext) : string := match c with CTopic t => t | CChannel t _ => t end.
Definition channel_of (c : SpatialContext) : option string := match c with CTopic _ => None | CChannel _ ch => Some ch end.

(** What the service asks of a running session (crates/metaverse-host). *)
Class HostRuntime := {
  Preset : Type;
  Runtime : Type;
  start_with_budget : SignedLease -> InstanceManifest -> Preset -> string -> Z -> outcome Runtime;
  advance_for_read : Z -> Runtime -> outcome unit * Runtime;
  participant_count : Runtime -> Z;
  is_sleeping : Runtime -> bool
}.

Record ProjectionRow := {
  row_instance : string;
  row_context : string;
  row_topic : string;
  row_channel : string;
  row_state : HostingState;
  row_epoch : option Z;
  row_session : option string;
  derived_at : Z;
  projection_version : Z
}.

(** [DomeHostingView] without the serialized manifests and the resource metrics. *)
Record View := {
  view_instance : string;
  view_state : HostingState;
  view_lease : option SignedLease;
  view_activation : option SignedActivation;
  view_close : option SignedClose;
  view_participants : Z;
  view_sleeping : bool
}.

Section service.
Context {crypto : Crypto} `{Json Lease} `{Json Acceptance} `{Json Activation} `{Json Close} `{Json Snapshot} `{Json Heartbeat}.
Context (digest : Lease -> string) {runtime : HostRuntime} (spawner : Spawner).
(** The keys of the account, [self.services.keys]. *)
Context (keys : Keys).

Definition current_unique_lease (records : list HostingRecord) : outcome (option SignedLease) :=
  match max_epoch (map (fun s => epoch (lease s)) (omap issued_of records)) with
  | None => mret None
  | Some highest =>
      let leases := List.filter (fun s => epoch (lease s) =? highest) (omap issued_of records) in
      let digests : gset string := list_to_set (map (fun s => digest (lease s)) leases) in
      _ ← check (bool_decide (size digests <= 1)%nat) "split-brain Hosting Leases require a higher owner epoch";
      mret (head leases)
  end.

(** ** State *)
Record Host := {
  stored : gmap string (list HostingRecord);
  dome_host_sessions : gmap string Runtime;
  dome_heartbeats : gmap string string;
  scope_leases : ScopeLeases;
  dome_host_heartbeats : Ledger KukuriEnvelope;
  projections : gmap string ProjectionRow
}.

Definition initial_host : Host :=
  {| stored := ∅; dome_host_sessions := ∅; dome_heartbeats := ∅; scope_leases := empty_leases;
     dome_host_heartbeats := empty_ledger; projections := ∅ |}.

Definition set_stored f (h : Host) : Host :=
  {| stored := f (stored h); dome_host_sessions := dome_host_sessions h; dome_heartbeats := dome_heartbeats h;
     scope_leases := scope_leases h; dome_host_heartbeats := dome_host_heartbeats h; projections := projections h |}.
Definition set_sessions f (h : Host) : Host :=
  {| stored := stored h; dome_host_sessions := f (dome_host_sessions h); dome_heartbeats := dome_heartbeats h;
     scope_leases := scope_leases h; dome_host_heartbeats := dome_host_heartbeats h; projections := projections h |}.
Definition set_tasks f (h : Host) : Host :=
  {| stored := stored h; dome_host_sessions := dome_host_sessions h; dome_heartbeats := f (dome_heartbeats h);
     scope_leases := scope_leases h; dome_host_heartbeats := dome_host_heartbeats h; projections := projections h |}.
Definition set_scopes (st : ScopeLeases) (h : Host) : Host :=
  {| stored := stored h; dome_host_sessions := dome_host_sessions h; dome_heartbeats := dome_heartbeats h;
     scope_leases := st; dome_host_heartbeats := dome_host_heartbeats h; projections := projections h |}.
Definition set_received l (h : Host) : Host :=
  {| stored := stored h; dome_host_sessions := dome_host_sessions h; dome_heartbeats := dome_heartbeats h;
     scope_leases := scope_leases h; dome_host_heartbeats := l; projections := projections h |}.
Definition set_projections f (h : Host) : Host :=
  {| stored := stored h; dome_host_sessions := dome_host_sessions h; dome_heartbeats := dome_heartbeats h;
     scope_leases := scope_leases h; dome_host_heartbeats := dome_host_heartbeats h; projections := f (projections h) |}.

(** ** Calls *)

(** The answers of the other services during one call. *)
Record CallEnv := {
  now : Z;
  clock : option Z;
  context_replica : outcome unit;
  found_instance : outcome (option InstanceManifest);
  not_deleting : outcome unit;
  fetched_preset : outcome (option Preset);
  read_records : outcome unit;
  write_records : outcome unit;
  locator_replica : outcome unit;
  publish_hint : outcome unit;
  upsert_projection : outcome unit;
  view_preset : outcome unit
}.

Definition Call (A : Type) : Type := Host -> outcome A * Host.
#[export] Instance call_ret : MRet Call := fun A a h => (Ok a, h).
#[export] Instance call_bind : MBind Call := fun A B k m h =>
  match m h with (Ok a, h) => k a h | (Err e, h) => (Err e, h) end.

Definition try_ {A} (r : outcome A) : Call A := fun h => (r, h).
Definition gets {A} (f : Host -> A) : Call A := fun h => (Ok (f h), h).
Definition modify (f : Host -> Host) : Call unit := fun h => (Ok tt, f h).

(** [AppService::set_scope_holder]; [None] of the leases is a panic. *)
Definition take_scopes (holder : string) (ks : list ScopeKey) : Call unit := fun h =>
  match set_scope_holder spawner holder (list_to_set ks) (scope_leases h) with
  | None => (Err Panic, h)
  | Some (Err _, st) => (fail_with "scope limit reached", set_scopes st h)
  | Some (Ok _, st) => (Ok tt, set_scopes st h)
  end.

Definition drop_scopes (holder : string) : Call unit := fun h =>
  match release_scope_holder holder (scope_leases h) with
  | None => (Err Panic, h)
  | Some (_, st) => (Ok tt, set_scopes st h)
  end.

Definition stop_owner_dome_hosting (instance_id : string) : Call unit :=
  _ ← modify (set_sessions (delete instance_id));
  _ ← modify (set_tasks (delete instance_id));
  drop_scopes (dome_holder instance_id).

Definition ensure_dome_hosting_owner (i : InstanceManifest) : outcome unit :=
  check (attached i && bool_decide (im_owner i = public_key_hex keys))
    "only the active attached Dome owner can change hosting".

Definition list_dome_hosting_records (e : CallEnv) (i : InstanceManifest) : Call (list HostingRecord) :=
  _ ← try_ (read_records e);
  gets (fun h => default [] (stored h !! hosting_state_key (im_id i))).

Definition persist_dome_hosting_records (e : CallEnv) (i : InstanceManifest) (records : list HostingRecord) : Call unit :=
  _ ← try_ (write_records e);
  modify (set_stored (insert (hosting_state_key (im_id i)) (latest_epoch_records records))).

(** [hosting_instance(..)?.context("Dome instance was not found")] *)
Definition instance_or_fail (e : CallEnv) : outcome InstanceManifest :=
  i ← found_instance e; ok_of_option (Bail "Dome instance was not found") i.

Definition expect_generation (expected : option Z) (i : InstanceManifest) : outcome unit :=
  check (match expected with Some g => g =? im_generation i | None => true end) "DOME_HOSTING_STALE_INSTANCE".

(** The session of this device, advanced to now: heartbeat, participants, sleeping. *)
Definition local_session (e : CallEnv) (id : string) : Call (option Z * Z * bool) :=
  s ← gets (fun h => dome_host_sessions h !! id);
  match s with
  | None => mret (None, 0, true)
  | Some r =>
      let '(res, r') := advance_for_read (now e) r in
      _ ← modify (set_sessions (insert id r'));
      _ ← try_ res;
      mret (Some (now e), Z.min u32_max (participant_count r'), is_sleeping r')
  end.

(** The heartbeat received from another host, dropped when it does not fit. *)
Definition remote_heartbeat (e : CallEnv) (i : InstanceManifest) (lease_ : option SignedLease) (session : option string)
    : Call (option (SignedHeartbeat KukuriEnvelope)) := fun h =>
  let '(latest_, l) := latest_at (im_context i) (im_id i) (now e) (dome_host_heartbeats h) in
  match lease_, session, latest_ with
  | Some s, Some session, Some signed =>
      if (sent_at (heartbeat signed) <=? i64_saturating_add (now e) 5000)
         && is_ok (verify_signed_dome_host_heartbeat signed (lease s) session)
      then (Ok (Some signed), set_received l h)
      else (Ok None, set_received (DomeHosts.remove (im_context i) (im_id i) l) h)
  | _, _, _ => (Ok None, set_received l h)
  end.

Definition is_hosted (k : StateKind) : bool := bool_decide (k = OwnerHosted) || bool_decide (k = CommunityNodeHosted).

Definition heartbeat_source (e : CallEnv) (i : InstanceManifest) (records : list HostingRecord)
    (local : option Z * Z * bool) : Call (option Z * Z * bool) :=
  match local with
  | (Some at_, p, sl) => mret (Some at_, p, sl)
  | (None, p, sl) =>
      preliminary ← try_ (resolve_dome_hosting_state digest i records (now e) (Some (now e)));
      lease_ ← try_ (current_unique_lease records);
      signed ← remote_heartbeat e i lease_ (state_session preliminary);
      mret (match signed with
            | Some s => (Some (sent_at (heartbeat s)), hb_participants (heartbeat s), hb_sleeping (heartbeat s))
            | None =>
                (if is_hosted (state_kind preliminary)
                 then ep ← state_epoch preliminary; (fun s => activated_at (activation s)) <$> find_map (activation_at ep) (rev records)
                 else None, p, sl)
            end)
  end.

Definition projection_row (i : InstanceManifest) (st : HostingState) (at_ : Z) : ProjectionRow :=
  {| row_instance := im_id i; row_context := canonical_id (im_context i); row_topic := topic_of (im_context i);
     row_channel := default EmptyString (channel_of (im_context i)); row_state := st; row_epoch := state_epoch st;
     row_session := state_session st; derived_at := at_; projection_version := 1 |}.

Definition hosting_authority_view (e : CallEnv) (i : InstanceManifest) (all : list HostingRecord) : Call View :=
  _ ← try_ (resolve_dome_hosting_state digest i all (now e) (Some (now e)));
  let records := generation_records i all in
  local ← local_session e (im_id i);
  source ← heartbeat_source e i records local;
  let '(heartbeat_at, participants, sleeping) := source : option Z * Z * bool in
  st ← try_ (resolve_dome_hosting_state digest i records (now e) heartbeat_at);
  _ ← try_ (upsert_projection e);
  _ ← modify (set_projections (insert (im_id i) (projection_row i st (now e))));
  lease_ ← try_ (current_unique_lease records);
  let ep := (fun s => epoch (lease s)) <$> (lease_ : option SignedLease) in
  mret {| view_instance := im_id i; view_state := st; view_lease := lease_;
          view_activation := ep ≫= fun ep => find_map (activation_at ep) (rev records);
          view_close := ep ≫= fun ep => find_map (close_at ep) (rev records);
          view_participants := participants; view_sleeping := sleeping |}.

Definition hosting_view (e : CallEnv) (i : InstanceManifest) (records : list HostingRecord) : Call View :=
  v ← hosting_authority_view e i records;
  _ ← try_ (view_preset e);
  mret v.

(** The lease that a start or a transfer issues. *)
Definition new_lease (e : CallEnv) (i : InstanceManifest) (ep : Z) (host : HostTarget) (expires : Z) : Lease :=
  {| lease_id := ("lease-" ++s im_id i ++s "-" ++s dec ep)%string; lease_context := im_context i; lease_instance := im_id i;
     lease_generation := im_generation i; lease_owner := im_owner i; lease_host := host;
     lease_manifest := manifest_blob_hash (im_preset i); manifest_version := preset_revision (im_preset i); epoch := ep;
     issued_at := now e; expires_at := expires |}.

Record StartInput := {
  start_context : SpatialContext;
  start_instance : string;
  start_generation : option Z;
  start_endpoint : string;
  start_duration : Z
}.

Definition start_owner_dome_hosting_unlocked (e : CallEnv) (input : StartInput) : Call View :=
  _ ← try_ (check (negb (blank (start_endpoint input))) "owner device endpoint id is required");
  _ ← try_ (context_replica e);
  i ← try_ (instance_or_fail e);
  _ ← try_ (expect_generation (start_generation input) i);
  _ ← try_ (ensure_dome_hosting_owner i);
  _ ← try_ (not_deleting e);
  p ← try_ (fetched_preset e);
  p ← try_ (ok_of_option (Bail "Dome preset unavailable") p);
  records ← list_dome_hosting_records e i;
  let ep := next_hosting_epoch records in
  expires ← try_ (lease_expiry (now e) (start_duration input));
  s ← try_ (build_signed_dome_hosting_lease (clock e) keys
              (new_lease e i ep (OwnerDevice (start_endpoint input) (public_key_hex keys)) expires));
  let session_id := ("dome-session-" ++s im_id i ++s "-" ++s dec ep ++s "-" ++s dec_i64 (now e))%string in
  a ← try_ (accept_dome_hosting_lease digest (clock e) keys s session_id (now e));
  act ← try_ (activate_dome_hosting_lease digest (clock e) keys s a (now e));
  r ← try_ (start_with_budget s i p session_id (now e));
  let all := (records ++ [LeaseIssued s; HostAccepted a; LeaseActivated act])%list in
  _ ← persist_dome_hosting_records e i all;
  _ ← modify (set_sessions (insert (im_id i) r));
  _ ← try_ (match im_context i with CTopic _ => Ok tt | CChannel _ _ => locator_replica e end);
  _ ← modify (set_tasks (insert (im_id i) session_id));
  _ ← try_ (publish_hint e);
  hosting_view e i all.

(** The start, and the release of the scopes when it failed without a session. *)
Definition start_or_release (e : CallEnv) (input : StartInput) : Call View := fun h =>
  let '(started, h) := start_owner_dome_hosting_unlocked e input h in
  if negb (is_ok started) && negb (bool_decide (is_Some (dome_host_sessions h !! start_instance input)))
  then match drop_scopes (dome_holder (start_instance input)) h with
       | (Ok _, h) => (started, h)
       | (Err p, h) => (Err p, h)
       end
  else (started, h).

Definition start_owner_dome_hosting (e : CallEnv) (input : StartInput) : Call View :=
  _ ← take_scopes (dome_holder (start_instance input))
        (participation_keys (topic_of (start_context input)) (channel_of (start_context input)));
  start_or_release e input.

(** The instance is found by context and id: [found_instance]. *)
Record PrepareInput := {
  prepare_context : SpatialContext;
  prepare_instance : string;
  prepare_generation : option Z;
  prepare_node : string;
  prepare_url : string;
  prepare_duration : Z
}.

Definition prepare_community_node_dome_hosting (e : CallEnv) (input : PrepareInput) : Call View :=
  _ ← try_ (context_replica e);
  i ← try_ (instance_or_fail e);
  _ ← try_ (expect_generation (prepare_generation input) i);
  _ ← try_ (ensure_dome_hosting_owner i);
  _ ← try_ (not_deleting e);
  records ← list_dome_hosting_records e i;
  let ep := next_hosting_epoch records in
  expires ← try_ (lease_expiry (now e) (prepare_duration input));
  s ← try_ (build_signed_dome_hosting_lease (clock e) keys
              (new_lease e i ep (CommunityNode (prepare_node input) (prepare_url input)) expires));
  let all := (records ++ [LeaseIssued s])%list in
  _ ← persist_dome_hosting_records e i all;
  _ ← stop_owner_dome_hosting (im_id i);
  _ ← try_ (publish_hint e);
  hosting_view e i all.

(** [acceptance] is the decoded [signed_acceptance_json], [None] when it is not JSON. *)
Definition activate_community_node_dome_hosting (e : CallEnv) (acceptance : option SignedAcceptance) : Call View :=
  _ ← try_ (context_replica e);
  i ← try_ (instance_or_fail e);
  _ ← try_ (ensure_dome_hosting_owner i);
  _ ← try_ (not_deleting e);
  records ← list_dome_hosting_records e i;
  s ← try_ (current_unique_lease records);
  s ← try_ (ok_of_option (Bail "no pending Hosting Lease") s);
  _ ← try_ (check (match lease_host (lease s) with CommunityNode _ _ => true | OwnerDevice _ _ => false end)
              "pending Hosting Lease does not target a Community Node");
  a ← try_ (ok_of_option (Bail "invalid Community Node hosting acceptance") acceptance);
  act ← try_ (activate_dome_hosting_lease digest (clock e) keys s a (now e));
  let all := (records ++ [HostAccepted a; LeaseActivated act])%list in
  _ ← persist_dome_hosting_records e i all;
  _ ← try_ (publish_hint e);
  hosting_view e i all.

Definition close_dome_hosting_unlocked (e : CallEnv) (expected_generation : option Z) : Call View :=
  _ ← try_ (context_replica e);
  i ← try_ (instance_or_fail e);
  _ ← try_ (expect_generation expected_generation i);
  _ ← try_ (ensure_dome_hosting_owner i);
  records ← list_dome_hosting_records e i;
  s ← try_ (current_unique_lease records);
  s ← try_ (ok_of_option (Bail "no Hosting Lease to close") s);
  _ ← try_ (check (lease_generation (lease s) =? im_generation i) "no current-generation Hosting Lease to close");
  c ← try_ (close_dome_hosting_lease digest (clock e) keys s (now e));
  let all := (records ++ [LeaseClosed c])%list in
  _ ← persist_dome_hosting_records e i all;
  _ ← stop_owner_dome_hosting (im_id i);
  _ ← try_ (publish_hint e);
  hosting_authority_view e i all.

Definition get_dome_hosting (e : CallEnv) : Call View :=
  _ ← try_ (context_replica e);
  i ← try_ (instance_or_fail e);
  records ← list_dome_hosting_records e i;
  hosting_view e i records.

(** The close is followed by a fresh read. *)
Definition close_dome_hosting (e e' : CallEnv) (expected_generation : option Z) : Call View :=
  _ ← close_dome_hosting_unlocked e expected_generation;
  get_dome_hosting e'.
End service.
