(* ===== verification/DomeHostingLifecycle.v ===== *)
(** * From lease to session

    What the signing functions of the owner and the host produce passes verification, and
    a lease that is newer than all known records decides the state alone: it is waiting
    until its activation, then hosted, and closed after its close. *)
From S2P Require Import Prelude RustStr ScopeLeases Envelope DomeTransition DomeTopology DomeHosts DomeHosting DomeHostingSpec DomeHostingProps DomeHostingService.

(** An envelope id is the hex of a digest, which is not blank. *)
Class HexLaws `{Crypto} := { hex_not_blank d : blank (hex_encode d) = false }.

Section lifecycle.
Context {crypto : Crypto} {crypto_laws : CryptoLaws} {hex_laws : HexLaws}.
Context `{JsonLaws Lease} `{JsonLaws Acceptance} `{JsonLaws Activation} `{JsonLaws Close}.
Context (digest : Lease -> string) (i : InstanceManifest).

(** ** Signed records verify *)
Lemma sign_verifies_content {T} `{JsonLaws T} `{EqDecision T} clock keys kind tags (x : T) e :
  lift (sign_envelope_json clock keys kind tags x) = Ok e ->
  lift (verify_envelope_content e kind (public_key keys) x) = Ok tt.
Proof. rewrite !lift_ok. intros Hs. by eapply verify_envelope_content_ok, sign_envelope_authentic. Qed.

Lemma built_lease clock keys l s :
  build_signed_dome_hosting_lease clock keys l = Ok s ->
  lease s = l /\ lease_owner l = public_key keys
  /\ lift (verify_envelope_content (lease_envelope s) LEASE_KIND (lease_owner l) l) = Ok tt.
Proof.
  unfold build_signed_dome_hosting_lease. intros Hb.
  repeat (apply result_bind_ok in Hb as ([] & ?%check_ok & Hb) || apply result_bind_ok in Hb as (? & ? & Hb)).
  injection Hb as <-. destruct_bools. simpl. split_and!; [done | done |].
  match goal with Ho : lease_owner l = _ |- _ => rewrite Ho end. by eapply sign_verifies_content.
Qed.

Lemma built_lease_verifies clock keys l s :
  build_signed_dome_hosting_lease clock keys l = Ok s -> validate_dome_hosting_lease l i = Ok tt ->
  verify_signed_dome_hosting_lease s i = Ok tt.
Proof. intros (<- & Ho & Hv)%built_lease Hl. unfold verify_signed_dome_hosting_lease. by rewrite Hl, bind_ok. Qed.

Lemma built_lease_counts clock keys l s :
  build_signed_dome_hosting_lease clock keys l = Ok s -> validate_dome_hosting_lease l i = Ok tt -> check_lease i s = Ok true.
Proof.
  intros Hb Hl. pose proof (built_lease_verifies _ _ _ _ Hb Hl) as Hv. apply built_lease in Hb as (Hs & _).
  apply valid_lease in Hl as (_ & _ & _ & _ & Hg & Hr & _). unfold check_lease. rewrite Hs, Hg, Hr, !Z.ltb_irrefl, Hv. done.
Qed.

Lemma accepted_verifies clock keys s session at_ a :
  accept_dome_hosting_lease digest clock keys s session at_ = Ok a ->
  verify_acceptance digest s a = Ok tt /\ acc_session (acceptance a) = session /\ acc_epoch (acceptance a) = epoch (lease s)
  /\ accepted_at (acceptance a) = at_.
Proof.
  unfold accept_dome_hosting_lease. cbv zeta. intros Ha.
  apply result_bind_ok in Ha as ([] & Hk%check_ok & Ha). apply result_bind_ok in Ha as (u & _ & Ha).
  apply result_bind_ok in Ha as ([] & Hl%check_ok & Ha). apply result_bind_ok in Ha as (e & He & Ha). injection Ha as <-.
  split; [|done]. destruct_bools. unfold verify_acceptance. cbn. simpl in *.
  rewrite !bool_decide_true, !Z.eqb_refl by done. cbn.
  repeat match goal with Hb : blank _ = false |- _ => rewrite Hb end. rewrite Hk.
  rewrite (proj2 (Z.leb_le _ _)) by lia. rewrite (proj2 (Z.ltb_lt _ _)) by lia. cbn. by eapply sign_verifies_content.
Qed.

Lemma activated_verifies clock keys s a at_ act :
  activate_dome_hosting_lease digest clock keys s a at_ = Ok act ->
  verify_acceptance digest s a = Ok tt /\ verify_activation digest s act = Ok tt
  /\ host_acceptance_envelope_id (activation act) = env_id (acceptance_envelope a) /\ activated_at (activation act) = at_
  /\ act_epoch (activation act) = epoch (lease s).
Proof.
  unfold activate_dome_hosting_lease. cbv zeta. intros Ha.
  apply result_bind_ok in Ha as ([] & Hk%check_ok & Ha). apply result_bind_ok in Ha as ([] & Hv & Ha).
  apply result_bind_ok in Ha as ([] & Hl%check_ok & Ha). apply result_bind_ok in Ha as (e & He & Ha). injection Ha as <-.
  split; [done|]. split; [|done]. destruct (verify_acceptance_ok _ _ _ Hv) as (Hau & _ & Hat & _).
  destruct_bools. unfold verify_activation. cbn [activation activation_envelope act_lease_id act_digest act_epoch host_acceptance_envelope_id activated_at].
  rewrite !bool_decide_true, !Z.eqb_refl, (auth_id _ _ _ _ Hau), hex_not_blank by done.
  rewrite (proj2 (Z.leb_le _ _)), (proj2 (Z.ltb_lt _ _)) by lia. rewrite <- (auth_id _ _ _ _ Hau). cbn.
  rewrite Hk. by eapply sign_verifies_content.
Qed.

Lemma closed_verifies clock keys s at_ c :
  close_dome_hosting_lease digest clock keys s at_ = Ok c ->
  verify_close digest s c = Ok tt /\ close_epoch (close c) = epoch (lease s).
Proof.
  unfold close_dome_hosting_lease. cbv zeta. intros Ha.
  apply result_bind_ok in Ha as ([] & Hl%check_ok & Ha). apply result_bind_ok in Ha as (e & He & Ha). injection Ha as <-.
  split; [|done]. destruct_bools. unfold verify_close. cbn. rewrite !bool_decide_true, !Z.eqb_refl by done.
  rewrite (proj2 (Z.leb_le _ _)) by lia. cbn. match goal with Ho : lease_owner _ = _ |- _ => rewrite Ho end.
  by eapply sign_verifies_content.
Qed.

Section host_output.
Context `{JsonLaws Snapshot} `{JsonLaws Heartbeat}.

Lemma snapshot_verifies clock keys l x s :
  build_signed_dome_physics_snapshot clock keys l x = Ok s ->
  snapshot s = x /\ verify_signed_dome_physics_snapshot s l (snap_session x) = Ok tt.
Proof.
  unfold build_signed_dome_physics_snapshot. intros Ha.
  apply result_bind_ok in Ha as ([] & Hv & Ha). apply result_bind_ok in Ha as ([] & Hk%check_ok & Ha).
  apply result_bind_ok in Ha as (e & He & Ha). injection Ha as <-. split; [done|].
  unfold signs_for in Hk. destruct_bools. unfold verify_signed_dome_physics_snapshot. cbn [snapshot snapshot_envelope].
  rewrite Hv, bind_ok. rewrite bool_decide_true by done. cbn. match goal with Ho : signing_pubkey _ = _ |- _ => rewrite Ho end.
  by eapply sign_verifies_content.
Qed.

Lemma heartbeat_verifies clock keys l x s :
  build_signed_dome_host_heartbeat clock keys l x = Ok s ->
  heartbeat s = x /\ verify_signed_dome_host_heartbeat s l (hb_session_id x) = Ok tt.
Proof.
  unfold build_signed_dome_host_heartbeat. intros Ha.
  apply result_bind_ok in Ha as ([] & Hv & Ha). apply result_bind_ok in Ha as ([] & Hk%check_ok & Ha).
  apply result_bind_ok in Ha as (e & He & Ha). injection Ha as <-. split; [done|].
  unfold signs_for in Hk. destruct_bools. unfold verify_signed_dome_host_heartbeat. cbn [heartbeat envelope].
  rewrite Hv, bind_ok. rewrite bool_decide_true by done. cbn. match goal with Ho : signing_pubkey _ = _ |- _ => rewrite Ho end.
  by eapply sign_verifies_content.
Qed.

End host_output.

(** ** A lease newer than all known records *)
Section fresh.
Context (old : list HostingRecord) (s : SignedLease) (answers_ : list HostingRecord).
Context (Hvalid : validate_dome_instance_manifest i = Ok tt) (Hat : attached i = true).
Context (Hold : leases_ok i old) (Hlow : forall r, r ∈ old -> record_epoch r < epoch (lease s)).
Context (Hcount : check_lease i s = Ok true).
Context (Hans : forall r, r ∈ answers_ -> issued_of r = None /\ answer_verified digest s r).

Abbreviation all := ((old ++ LeaseIssued s :: answers_)%list).

Lemma elem_of_all r : r ∈ all <-> r ∈ old \/ r = LeaseIssued s \/ r ∈ answers_.
Proof. by rewrite elem_of_app, elem_of_cons. Qed.

Lemma fresh_current s' : current i all s' -> s' = s \/ epoch (lease s') < epoch (lease s).
Proof.
  intros [[Hin|[[= ->]|Hin]]%elem_of_all _]; [right; by apply (Hlow (LeaseIssued s')) | by left |].
  by destruct (Hans _ Hin).
Qed.

Lemma fresh_is_current : current i all s.
Proof. split; [|done]. apply elem_of_all. auto. Qed.

Lemma fresh_sole : sole digest i all (lease s).
Proof. split; [eauto using fresh_is_current|]. intros s' [->|?]%fresh_current; auto. Qed.

Lemma fresh_sole_only l : sole digest i all l -> l = lease s.
Proof.
  intros [(s' & Hs' & <-) Hm]. destruct (fresh_current _ Hs') as [->|Hlt]; [done|].
  destruct (Hm _ fresh_is_current) as [?|[? _]]; lia.
Qed.

Lemma fresh_old_answers r : r ∈ old -> answer_verified digest s r.
Proof.
  intros Hr. pose proof (Hlow r Hr) as Hlt. destruct r as [r|r|r|r]; simpl; [done|..]; unfold record_epoch in Hlt; simpl in Hlt;
    unfold about_acceptance, about_activation, about_close; rewrite (proj2 (Z.eqb_neq _ _)) by lia; done.
Qed.

Lemma fresh_leases_ok : leases_ok i all.
Proof.
  intros s' [Hin|[[= ->]|Hin]]%elem_of_all; [by apply Hold | by rewrite Hcount | by destruct (Hans _ Hin)].
Qed.

Lemma fresh_in_force now : now < expires_at (lease s) -> in_force digest i all now s.
Proof.
  intros Hn. constructor; [apply fresh_is_current | apply fresh_sole | done |].
  intros r [Hr|[->|Hr]]%elem_of_all; [by apply fresh_old_answers | done | by apply Hans].
Qed.

(** The answers of the new lease alone decide. *)
Lemma fresh_resolves now hb :
  now < expires_at (lease s) -> exists st, resolve_dome_hosting_state digest i all now hb = Ok st /\
  ( (exists c, closed_by digest all (lease s) c) /\ st = closed "owner_closed"
    \/ (forall c, ~ closed_by digest all (lease s) c) /\ (forall a, ~ activated digest all (lease s) a)
       /\ st = lease_state (lease s) Transferring None (Some "awaiting_activation") hb
    \/ (forall c, ~ closed_by digest all (lease s) c)
       /\ exists a, activated digest all (lease s) a /\ st = active_state (lease s) (acc_session (acceptance a)) now hb).
Proof.
  intros Hn. destruct (resolve_total digest i all now hb) as [st Hr]; [done | apply fresh_leases_ok | |].
  { intros s' Hc Hso Hal. destruct (fresh_current _ Hc) as [->|Hlt]; [by apply fresh_in_force|].
    apply fresh_sole_only in Hso. rewrite Hso in Hlt. lia. }
  exists st. split; [done|]. apply resolve_sound in Hr as (_ & _ & Hs).
  destruct Hs as [|_ Hno|e _ Hcon|l _ Hso Hex|s' c _ Hf Hc|s' _ Hf Hno Hw|s' a _ Hf Hno [Ha _]]; [congruence | ..].
  - destruct (Hno s). apply fresh_is_current.
  - destruct (sole_conflict digest i _ _ _ fresh_sole Hcon).
  - apply fresh_sole_only in Hso. subst. lia.
  - rewrite (fresh_sole_only _ (if_sole _ _ _ _ _ Hf)) in Hc. eauto.
  - rewrite (fresh_sole_only _ (if_sole _ _ _ _ _ Hf)) in *. eauto.
  - rewrite (fresh_sole_only _ (if_sole _ _ _ _ _ Hf)) in *. right. right. eauto.
Qed.

(** Answers to the new lease are among its own. *)
Lemma fresh_close c : closed_by digest all (lease s) c -> LeaseClosed c ∈ answers_.
Proof.
  intros [[Hin|[|]]%elem_of_all Hab]; [|done..]. specialize (Hlow _ Hin). unfold record_epoch, about_close in *. simpl in *.
  destruct_bools. lia.
Qed.

Lemma fresh_activated a : activated digest all (lease s) a -> HostAccepted a ∈ answers_.
Proof.
  intros [[[Hin|[|]]%elem_of_all Hab] _]; [|done..]. specialize (Hlow _ Hin). unfold record_epoch, about_acceptance in *. simpl in *.
  destruct_bools. lia.
Qed.

Lemma fresh_waiting now hb :
  now < expires_at (lease s) -> (forall c, LeaseClosed c ∉ answers_) -> (forall a, LeaseActivated a ∉ answers_) ->
  resolve_dome_hosting_state digest i all now hb = Ok (lease_state (lease s) Transferring None (Some "awaiting_activation") hb).
Proof.
  intros Hn Hc Ha. destruct (fresh_resolves now hb Hn) as (st & -> & Hst).
  destruct Hst as [[[c Hcl%fresh_close] _]|[(_ & _ & ->)|(_ & a & [_ (act & [[Hin|[|Hin]]%elem_of_all Hab] & _)] & _)]];
    [by destruct (Hc c) | done | | done | by destruct (Ha act)].
  specialize (Hlow _ Hin). unfold record_epoch, about_activation in *. simpl in *. destruct_bools. lia.
Qed.

Lemma fresh_active now hb a act :
  now < expires_at (lease s) -> (forall c, LeaseClosed c ∉ answers_) ->
  HostAccepted a ∈ answers_ -> (forall a', HostAccepted a' ∈ answers_ -> a' = a) -> LeaseActivated act ∈ answers_ ->
  verify_acceptance digest s a = Ok tt -> verify_activation digest s act = Ok tt ->
  host_acceptance_envelope_id (activation act) = env_id (acceptance_envelope a) ->
  resolve_dome_hosting_state digest i all now hb = Ok (active_state (lease s) (acc_session (acceptance a)) now hb).
Proof.
  intros Hn Hc Ha Huniq Hact Hva Hvact Hid. destruct (fresh_resolves now hb Hn) as (st & -> & Hst).
  destruct Hst as [[[c Hcl%fresh_close] _]|[(_ & Hno & _)|(_ & a' & Ha'%fresh_activated & ->)]];
    [by destruct (Hc c) | | by rewrite (Huniq a')].
  destruct (Hno a). split; [split|exists act; split; [split|done]].
  - apply elem_of_all. auto.
  - unfold verify_acceptance in Hva. inv_checks. unfold about_acceptance. apply andb_true_intro. split; [done | by apply bool_decide_eq_true].
  - apply elem_of_all. auto.
  - unfold verify_activation in Hvact. inv_checks. unfold about_activation. apply andb_true_intro. split; [done | by apply bool_decide_eq_true].
Qed.

Lemma fresh_closed now hb c :
  now < expires_at (lease s) -> LeaseClosed c ∈ answers_ -> verify_close digest s c = Ok tt ->
  resolve_dome_hosting_state digest i all now hb = Ok (closed "owner_closed").
Proof.
  intros Hn Hin [_ Hab]%verify_close_ok. destruct (fresh_resolves now hb Hn) as (st & -> & Hst).
  assert (Hcl : closed_by digest all (lease s) c) by (split; [apply elem_of_all; auto | done]).
  destruct Hst as [[_ ->]|[(Hno & _)|(Hno & _)]]; [done | by destruct (Hno c)..].
Qed.
End fresh.

(** ** Theorems *)

(** The life of a lease.  When the owner issues a valid lease with an epoch above all
    known records, the Dome is in transfer and no earlier host is named; it stays in
    transfer until the owner has activated the host's acceptance, then the state is that
    of the active lease with the accepted session, and after the owner's close it is
    closed.  The records are those that the signing functions return. *)
Theorem lease_lifecycle clock owner host old l s session at1 a at2 act at3 c now hb :
  validate_dome_instance_manifest i = Ok tt -> leases_ok i old -> (forall r, r ∈ old -> record_epoch r < epoch l) ->
  validate_dome_hosting_lease l i = Ok tt -> now < expires_at l ->
  build_signed_dome_hosting_lease clock owner l = Ok s ->
  accept_dome_hosting_lease digest clock host s session at1 = Ok a ->
  activate_dome_hosting_lease digest clock owner s a at2 = Ok act ->
  close_dome_hosting_lease digest clock owner s at3 = Ok c ->
  let resolve records := resolve_dome_hosting_state digest i (old ++ records)%list now hb in
  let waiting := Ok (lease_state l Transferring None (Some "awaiting_activation") hb) in
  resolve [LeaseIssued s] = waiting
  /\ resolve [LeaseIssued s; HostAccepted a] = waiting
  /\ resolve [LeaseIssued s; HostAccepted a; LeaseActivated act] = Ok (active_state l session now hb)
  /\ resolve [LeaseIssued s; HostAccepted a; LeaseActivated act; LeaseClosed c] = Ok (closed "owner_closed").
Proof.
  intros Hv Hold Hlow Hval Hn Hb Ha Hact Hc resolve waiting. unfold resolve, waiting. clear resolve waiting.
  pose proof (built_lease_counts _ _ _ _ Hb Hval) as Hcount. apply built_lease in Hb as (<- & _).
  pose proof (valid_lease _ _ Hval) as (Hat & _). apply accepted_verifies in Ha as (Hva & <- & _).
  apply activated_verifies in Hact as (_ & Hvact & Hid & _). apply closed_verifies in Hc as (Hvc & _).
  assert (Hans : forall r, r ∈ [HostAccepted a; LeaseActivated act; LeaseClosed c] -> issued_of r = None /\ answer_verified digest s r).
  { intros r [->|[->|[->|[]%not_elem_of_nil]%elem_of_cons]%elem_of_cons]%elem_of_cons; by split; [|intros _]. }
  assert (Hsub : forall k r, r ∈ take k [HostAccepted a; LeaseActivated act; LeaseClosed c] -> issued_of r = None /\ answer_verified digest s r).
  { intros k r Hr. apply Hans. by apply (subseteq_take k). }
  split_and!.
  - apply (fresh_waiting _ _ []); try done; intros ?; [apply Hsub with (k := 0%nat) | apply not_elem_of_nil..].
  - apply (fresh_waiting _ _ [HostAccepted a]); try done; [apply (Hsub 1%nat) | set_solver..].
  - apply (fresh_active _ _ [HostAccepted a; LeaseActivated act]) with (act := act); try done; [apply (Hsub 2%nat) | set_solver..].
  - apply (fresh_closed _ _ [HostAccepted a; LeaseActivated act; LeaseClosed c]) with (c := c); try done. set_solver.
Qed.
End lifecycle.
