(* ===== verification/DomeHostingRun.v ===== *)
(** * Invariants of the hosting service

    In every run of the owner's calls the stored records of an instance are one signed
    lease with verified answers to it, sessions hold their scopes, and heartbeat tasks
    belong to sessions. *)
From S2P Require Import Prelude RustStr ScopeLeases ScopeLeasesProps Envelope DomeTransition DomeTopology DomeHosts DomeHosting DomeHostingSpec DomeHostingProps DomeHostingService DomeHostingLifecycle.

(** ** Epochs of lists *)
Lemma max_epoch_spec l :
  match max_epoch l with None => l = [] | Some m => m ∈ l /\ forall x, x ∈ l -> x <= m end.
Proof.
  destruct l as [|x l]; simpl; [done|]. assert (Hg : forall y, (foldr Z.max y l = y \/ foldr Z.max y l ∈ l) /\ y <= foldr Z.max y l
    /\ forall z, z ∈ l -> z <= foldr Z.max y l).
  { intros y. induction l as [|z l IH]; simpl; [split_and!; [by left | lia | by intros ? ?%not_elem_of_nil]|].
    destruct IH as (Hin & Hy & Hz). destruct (Z.max_spec z (foldr Z.max y l)) as [[? ->]|[? ->]].
    - split_and!; [destruct Hin; [by left | right; by right] | done |]. intros w [->|Hw]%elem_of_cons; [lia | by apply Hz].
    - split_and!; [right; by left | lia |]. intros w [->|Hw]%elem_of_cons; [lia|]. specialize (Hz w Hw). lia. }
  destruct (Hg x) as (Hin & Hx & Hz). split; [destruct Hin as [->|?]; [by left | by right]|].
  intros w [->|Hw]%elem_of_cons; [lia | by apply Hz].
Qed.

Lemma latest_of_new old new e :
  new <> [] -> (forall r, r ∈ old -> record_epoch r < e) -> (forall r, r ∈ new -> record_epoch r = e) ->
  latest_epoch_records (old ++ new)%list = new.
Proof.
  intros Hne Hold Hnew. unfold latest_epoch_records.
  assert (Hmax : max_epoch (map record_epoch (old ++ new)%list) = Some e).
  { pose proof (max_epoch_spec (map record_epoch (old ++ new)%list)) as Hm. destruct (max_epoch _) as [m|].
    - destruct Hm as [(r & -> & Hr)%list_elem_of_fmap Hle]. f_equal. destruct new as [|r0 new]; [done|].
      specialize (Hle (record_epoch r0)). rewrite (Hnew r0) in Hle by apply list_elem_of_here.
      assert (e <= record_epoch r).
      { apply Hle, list_elem_of_fmap. exists r0. split; [by rewrite (Hnew r0) by apply list_elem_of_here|].
        apply elem_of_app. right. apply list_elem_of_here. }
      apply elem_of_app in Hr as [Hr%Hold|Hr%Hnew]; lia.
    - apply map_eq_nil, app_nil in Hm as [_ ->]. done. }
  rewrite Hmax, List.filter_app, filter_none by (intros r Hr%Hold; apply bool_decide_eq_false; intros [= ?]; lia).
  rewrite (filter_same _ (fun _ => true)) by (intros r Hr; rewrite (Hnew r Hr); by apply bool_decide_eq_true).
  apply forallb_filter_id. by apply forallb_forall.
Qed.

Section run.
Context {crypto : Crypto} {crypto_laws : CryptoLaws} {hex_laws : HexLaws}.
Context `{JsonLaws Lease} `{JsonLaws Acceptance} `{JsonLaws Activation} `{JsonLaws Close} `{Json Heartbeat}.
Context (digest : Lease -> string) {runtime : HostRuntime} (spawner : Spawner) (keys : Keys).

(** ** Calls *)
Definition call_wp {A} (m : Call A) (Q : outcome A -> Host -> Prop) (h : Host) : Prop := Q (m h).1 (m h).2.

Lemma call_wp_bind {A B} (m : Call A) (k : A -> Call B) Q h :
  call_wp m (fun r h => match r with Ok a => call_wp (k a) Q h | Err e => Q (Err e) h end) h -> call_wp (m ≫= k) Q h.
Proof. unfold call_wp, mbind, call_bind. by destruct (m h) as [[a|e] h']. Qed.

Lemma call_wp_try {A B} (r : outcome A) (k : A -> Call B) Q h :
  (forall e, r = Err e -> Q (Err e) h) -> (forall a, r = Ok a -> call_wp (k a) Q h) -> call_wp (try_ r ≫= k) Q h.
Proof. intros He Ha. apply call_wp_bind. unfold call_wp at 1. simpl. destruct r; [by apply Ha | by apply He]. Qed.

Lemma call_wp_modify {B} f (k : unit -> Call B) Q h : call_wp (k tt) Q (f h) -> call_wp (modify f ≫= k) Q h.
Proof. done. Qed.

Lemma call_wp_mono {A} (m : Call A) (Q Q' : outcome A -> Host -> Prop) h :
  call_wp m Q h -> (forall r h', Q r h' -> Q' r h') -> call_wp m Q' h.
Proof. unfold call_wp. auto. Qed.

(** ** Views leave the records alone *)
Record same_core (h h' : Host) : Prop := {
  sc_stored : stored h' = stored h;
  sc_scopes : scope_leases h' = scope_leases h;
  sc_tasks : dome_heartbeats h' = dome_heartbeats h;
  sc_sessions id : is_Some (dome_host_sessions h' !! id) <-> is_Some (dome_host_sessions h !! id)
}.

#[local] Instance same_core_preorder : PreOrder same_core.
Proof.
  split; [by intros h; constructor|]. intros h1 h2 h3 [??? A] [??? B]. constructor; [congruence.. | intros id]. by rewrite B, A.
Qed.

(** A call that keeps the core whatever happens. *)
Definition keeps_core {A} (m : Call A) : Prop := forall h, same_core h (m h).2.

Lemma keeps_bind {A B} (m : Call A) (k : A -> Call B) : keeps_core m -> (forall a, keeps_core (k a)) -> keeps_core (m ≫= k).
Proof.
  intros Hm Hk h. specialize (Hm h). unfold mbind, call_bind. destruct (m h) as [[a|e] h']; [|done].
  simpl in Hm. etrans; [exact Hm | apply Hk].
Qed.

Lemma keeps_try {A} (r : outcome A) : keeps_core (try_ r).
Proof. by intros h. Qed.

Lemma keeps_ret {A} (a : A) : keeps_core (mret a).
Proof. by intros h. Qed.

Lemma keeps_local e id : keeps_core (local_session e id).
Proof.
  intros h. unfold local_session, mbind, call_bind, gets. cbn. destruct (dome_host_sessions h !! id) as [r|] eqn:Er; [|done].
  destruct (advance_for_read (now e) r) as [res r']. unfold modify, try_. cbn.
  assert (Hs : same_core h (set_sessions (insert id r') h)).
  { constructor; simpl; [done.. | intros id']. destruct (decide (id = id')) as [<-|];
      [rewrite lookup_insert_eq, Er; split; by eexists | by rewrite lookup_insert_ne]. }
  destruct res; exact Hs.
Qed.

Lemma keeps_remote e i l s : keeps_core (remote_heartbeat e i l s).
Proof.
  intros h. unfold remote_heartbeat. destruct (latest_at _ _ _ _) as [lt l'].
  repeat case_match; done.
Qed.

#[local] Hint Resolve keeps_bind keeps_try keeps_ret keeps_local keeps_remote : core.

Lemma keeps_authority_view e i records : keeps_core (hosting_authority_view digest e i records).
Proof.
  unfold hosting_authority_view. apply keeps_bind; [apply keeps_try|]. intros _. cbv zeta.
  apply keeps_bind; [apply keeps_local|]. intros local. apply keeps_bind.
  { unfold heartbeat_source. destruct local as [[[at_|] p] sl]; auto. }
  intros [[hb p] sl]. apply keeps_bind; [apply keeps_try|]. intros st. apply keeps_bind; [apply keeps_try|]. intros _.
  apply keeps_bind; [by intros h|]. intros _. auto.
Qed.

Lemma keeps_view e i records : keeps_core (hosting_view digest e i records).
Proof. unfold hosting_view. auto using keeps_authority_view. Qed.

(** ** Stored records *)

(** One lease of this owner, with an epoch of at most [n], and verified answers to it. *)
Definition tidy (n : Z) (records : list HostingRecord) : Prop :=
  exists s rest, records = LeaseIssued s :: rest /\ 1 <= epoch (lease s) <= n /\ lease_owner (lease s) = public_key_hex keys
    /\ forall r, r ∈ rest -> issued_of r = None /\ record_epoch r = epoch (lease s) /\ answer_verified digest s r.

Lemma tidy_mono n m records : n <= m -> tidy n records -> tidy m records.
Proof. intros Hnm (s & rest & -> & ? & ? & ?). exists s, rest. split_and!; [done | lia | lia | done | done]. Qed.

Lemma tidy_epochs n records r : tidy n records -> r ∈ records -> record_epoch r <= n.
Proof. intros (s & rest & -> & He & _ & Hr) [->|Hin]%elem_of_cons; [apply He|]. destruct (Hr _ Hin) as (_ & -> & _). lia. Qed.

Lemma omap_issued_none rest : (forall r, r ∈ rest -> issued_of r = None) -> omap issued_of rest = [].
Proof.
  induction rest as [|r rest IH]; intros Hr; simpl; [done|]. rewrite Hr by apply list_elem_of_here.
  apply IH. intros. by apply Hr, list_elem_of_further.
Qed.

Lemma tidy_unique_lease s rest :
  (forall r, r ∈ rest -> issued_of r = None) -> current_unique_lease digest (LeaseIssued s :: rest) = Ok (Some s).
Proof.
  intros Hr. unfold current_unique_lease. simpl. rewrite omap_issued_none by done. simpl. rewrite Z.eqb_refl.
  assert (Hsz : (size (list_to_set [digest (lease s)] : gset string) <= 1)%nat).
  { replace (list_to_set [digest (lease s)] : gset string) with ({[ digest (lease s) ]} : gset string) by (simpl; set_solver).
    by rewrite size_singleton. }
  cbn [map]. rewrite (bool_decide_true _ Hsz). done.
Qed.

(** The next epoch is above all records and, below the limit of [u64], one more than the
    highest. *)
Lemma next_epoch_fresh n records :
  0 <= n < u64_max -> records = [] \/ tidy n records ->
  1 <= next_hosting_epoch records <= n + 1 /\ forall r, r ∈ records -> record_epoch r < next_hosting_epoch records.
Proof.
  intros Hn Ht. unfold next_hosting_epoch, u64_saturating_add. pose proof (max_epoch_spec (map record_epoch records)) as Hm.
  destruct Ht as [->|Ht]; [simpl; split; [lia | by intros ? ?%not_elem_of_nil]|].
  destruct (max_epoch _) as [m|]; simpl.
  - destruct Hm as [(r & -> & Hr)%list_elem_of_fmap Hle]. pose proof (tidy_epochs _ _ _ Ht Hr).
    assert (1 <= record_epoch r).
    { destruct Ht as (s & rest & -> & He & _). assert (record_epoch (LeaseIssued s) <= record_epoch r); [|unfold record_epoch in *; simpl in *; lia].
      apply Hle, list_elem_of_fmap. exists (LeaseIssued s). split; [done | apply list_elem_of_here]. }
    split; [lia|]. intros r' Hr'. assert (record_epoch r' <= record_epoch r) by (apply Hle, list_elem_of_fmap; eauto). lia.
  - apply map_eq_nil in Hm as ->. by destruct Ht as (s & rest & ? & _).
Qed.

(** Records of a new lease replace the old ones. *)
Lemma tidy_replace n old s rest :
  (forall r, r ∈ old -> record_epoch r < epoch (lease s)) -> 1 <= epoch (lease s) <= n ->
  lease_owner (lease s) = public_key_hex keys ->
  (forall r, r ∈ rest -> issued_of r = None /\ record_epoch r = epoch (lease s) /\ answer_verified digest s r) ->
  latest_epoch_records (old ++ LeaseIssued s :: rest)%list = LeaseIssued s :: rest /\ tidy n (LeaseIssued s :: rest).
Proof.
  intros Hold He Ho Hr. split; [|by exists s, rest]. apply (latest_of_new _ _ (epoch (lease s))); [done | done |].
  intros r [->|Hin]%elem_of_cons; [done | by apply Hr].
Qed.

(** Answers to the stored lease are added. *)
Lemma tidy_extend n s rest new :
  tidy n (LeaseIssued s :: rest) ->
  (forall r, r ∈ new -> issued_of r = None /\ record_epoch r = epoch (lease s) /\ answer_verified digest s r) ->
  latest_epoch_records ((LeaseIssued s :: rest) ++ new)%list = LeaseIssued s :: (rest ++ new)%list
  /\ tidy n (LeaseIssued s :: (rest ++ new)%list).
Proof.
  intros (s' & rest' & [= <- <-] & He & Ho & Hr) Hn.
  apply (tidy_replace n []); [by intros ? ?%not_elem_of_nil | done | done |].
  intros r [Hin|Hin]%elem_of_app; auto.
Qed.

(** ** Sessions, tasks and scopes *)
Abbreviation held h id := (is_Some (holders (scope_leases h) !! dome_holder id)).
Abbreviation running h id := (is_Some (dome_host_sessions h !! id)).

(** [ex] is an instance whose scopes were just taken. *)
Record coupled (ex : option string) (h : Host) : Prop := {
  cp_wf : leases_wf (scope_leases h);
  cp_tasks id : is_Some (dome_heartbeats h !! id) -> running h id;
  cp_held id : running h id -> held h id;
  cp_only id : held h id -> running h id \/ ex = Some id
}.

Lemma dome_holder_inj id id' : dome_holder id = dome_holder id' -> id = id'.
Proof. unfold dome_holder. intros [= ?]. done. Qed.

Lemma coupled_same ex h h' : same_core h h' -> coupled ex h -> coupled ex h'.
Proof.
  intros [Hst Hsc Ht Hs] [W T D O]. constructor; rewrite ?Hsc, ?Ht; [done | | |]; setoid_rewrite Hs; auto.
Qed.

Lemma take_scopes_ok id ks h :
  coupled None h -> ks <> [] ->
  call_wp (take_scopes spawner (dome_holder id) ks) (fun r h' =>
    stored h' = stored h /\ dome_host_sessions h' = dome_host_sessions h /\ r <> Err Panic
    /\ match r with Ok _ => coupled (Some id) h' /\ held h' id | Err _ => coupled None h' end) h.
Proof.
  intros [W T D O] Hks. unfold call_wp, take_scopes.
  destruct (set_scope_holder_ok spawner (dome_holder id) (list_to_set ks) _ W) as (r & st & -> & W' & _ & Hh).
  destruct r as [eff|e]; simpl; do 3 (split; [done|]).
  - assert (Hhold : holders st !! dome_holder id = Some (list_to_set ks)).
    { rewrite Hh, replace_holder_lookup, decide_True by done. rewrite decide_False; [done|].
      destruct ks as [|k ks]; [done|]. simpl. set_solver. }
    split; [|by eexists]. assert (Hmono : forall id', held h id' -> is_Some (holders st !! dome_holder id')).
    { intros id' Hid. destruct (decide (id = id')) as [<-|Hne]; [by eexists|]. rewrite Hh, replace_holder_lookup, decide_False; [done|].
      by intros ?%dome_holder_inj. }
    constructor; simpl; [done | done | auto |]. intros id' Hid. destruct (decide (id = id')) as [<-|Hne]; [by right|]. left.
    rewrite Hh, replace_holder_lookup, decide_False in Hid by (by intros ?%dome_holder_inj). by destruct (O _ Hid).
  - constructor; simpl; [done | done | by rewrite Hh | by rewrite Hh].
Qed.

Lemma drop_scopes_ok ex id h :
  coupled ex h -> dome_heartbeats h !! id = None -> dome_host_sessions h !! id = None -> (forall id', ex = Some id' -> id' = id) ->
  call_wp (drop_scopes (dome_holder id)) (fun r h' => r = Ok tt /\ coupled None h' /\ stored h' = stored h
    /\ dome_host_sessions h' = dome_host_sessions h /\ ~ held h' id) h.
Proof.
  intros [W T D O] Ht Hs Hex. unfold call_wp, drop_scopes.
  destruct (release_scope_holder_ok (dome_holder id) _ W) as (eff & st & -> & W' & _ & Hh & _). simpl.
  split; [done|]. split; [|split_and!; [done | done | rewrite Hh, lookup_delete_eq; by intros [? ?]]].
  constructor; simpl; [done | done | |]; intros id' Hid; rewrite Hh in *.
  - rewrite lookup_delete_ne; [by apply D|]. intros <-%dome_holder_inj. rewrite Hs in Hid. by destruct Hid.
  - destruct (decide (id = id')) as [<-|Hne]; [rewrite lookup_delete_eq in Hid; by destruct Hid|].
    rewrite lookup_delete_ne in Hid by (by intros ?%dome_holder_inj). destruct (O _ Hid) as [?|Hx]; [by left|]. apply Hex in Hx. congruence.
Qed.

Lemma stop_ok id h :
  coupled None h -> call_wp (stop_owner_dome_hosting id) (fun r h' => r = Ok tt /\ coupled None h' /\ stored h' = stored h
    /\ dome_host_sessions h' = delete id (dome_host_sessions h) /\ ~ held h' id) h.
Proof.
  intros Hc. unfold stop_owner_dome_hosting. apply call_wp_modify, call_wp_modify.
  set (h1 := set_tasks (delete id) (set_sessions (delete id) h)).
  eapply call_wp_mono; [|by intros r h' Hp; exact Hp].
  apply (drop_scopes_ok (Some id) id h1); [|by apply lookup_delete_eq | by apply lookup_delete_eq | congruence].
  destruct Hc as [W T D O]. constructor; simpl; [done | | |].
  - intros id' (Hne & Hid)%lookup_delete_is_Some. apply lookup_delete_is_Some. auto.
  - intros id' (Hne & Hid)%lookup_delete_is_Some. auto.
  - intros id' Hid. destruct (decide (id = id')) as [->|]; [by right|]. left. apply lookup_delete_is_Some. split; [done|].
    by destruct (O _ Hid).
Qed.

(** ** The invariant *)
Definition tidy_store (n : Z) (h : Host) : Prop := forall k rs, stored h !! k = Some rs -> tidy n rs.

Record host_inv (n : Z) (h : Host) : Prop := { hi_store : tidy_store n h; hi_coupled : coupled None h }.

Lemma tidy_store_mono n m h : n <= m -> tidy_store n h -> tidy_store m h.
Proof. intros Hnm Ht k rs Hk. by eapply tidy_mono, Ht. Qed.

Lemma tidy_store_insert n h k rs : tidy_store n h -> tidy n rs -> tidy_store n (set_stored (insert k rs) h).
Proof. intros Ht Hrs k' rs'. cbn [set_stored stored]. intros [[<- <-]|[_ ?]]%lookup_insert_Some; [done | by eapply Ht]. Qed.

Lemma host_inv_mono n m h : n <= m -> host_inv n h -> host_inv m h.
Proof. intros Hnm [T C]. constructor; [by eapply tidy_store_mono | done]. Qed.

(** A stored list is empty or tidy. *)
Lemma stored_records n h k : tidy_store n h -> default [] (stored h !! k) = [] \/ tidy n (default [] (stored h !! k)).
Proof. intros Ht. destruct (stored h !! k) as [rs|] eqn:E; simpl; [right; by eapply Ht | by left]. Qed.

Lemma coupled_view {A} ex h (m : Call A) : keeps_core m -> coupled ex h -> coupled ex (m h).2.
Proof. intros Hk. apply coupled_same, Hk. Qed.

Lemma tidy_view {A} n h (m : Call A) : keeps_core m -> tidy_store n h -> tidy_store n (m h).2.
Proof. intros Hk Ht k rs. rewrite (sc_stored _ _ (Hk h)). apply Ht. Qed.

(** ** The calls keep it *)
Lemma call_wp_list {B} e i (k : list HostingRecord -> Call B) Q h :
  (forall err, Q (Err err) h) -> call_wp (k (default [] (stored h !! hosting_state_key (im_id i)))) Q h ->
  call_wp (list_dome_hosting_records e i ≫= k) Q h.
Proof.
  intros He Hk. apply call_wp_bind. unfold list_dome_hosting_records. apply call_wp_try; [auto|]. intros _ _. exact Hk.
Qed.

Lemma call_wp_persist {B} e i records (k : unit -> Call B) Q h :
  (forall err, Q (Err err) h) ->
  call_wp (k tt) Q (set_stored (insert (hosting_state_key (im_id i)) (latest_epoch_records records)) h) ->
  call_wp (persist_dome_hosting_records e i records ≫= k) Q h.
Proof. intros He Hk. apply call_wp_bind. unfold persist_dome_hosting_records. apply call_wp_try; [auto|]. intros _ _. exact Hk. Qed.

Lemma held_coupled_store ex h k rs : coupled ex h -> coupled ex (set_stored (insert k rs) h).
Proof. intros [W T D O]. by constructor. Qed.

Lemma coupled_session id r h : coupled (Some id) h -> held h id -> coupled (Some id) (set_sessions (insert id r) h).
Proof.
  intros [W T D O] Hh. constructor; simpl; [done | | |].
  - intros id' Hid. apply lookup_insert_is_Some'. auto.
  - intros id' [<-|Hid]%lookup_insert_is_Some'; auto.
  - intros id' Hid. destruct (O _ Hid); [left; apply lookup_insert_is_Some'; auto | by right].
Qed.

Lemma coupled_task ex id x h : coupled ex h -> running h id -> coupled ex (set_tasks (insert id x) h).
Proof. intros [W T D O] Hr. constructor; simpl; [done | | done | done]. intros id' [<-|Hid]%lookup_insert_is_Some'; auto. Qed.

(** The names of the answers that a lease gets. *)
Lemma acceptance_answer s a :
  verify_acceptance digest s a = Ok tt ->
  issued_of (HostAccepted a) = None /\ record_epoch (HostAccepted a) = epoch (lease s) /\ answer_verified digest s (HostAccepted a).
Proof.
  intros Hv. split_and!; [done | | by intros _]. unfold verify_acceptance in Hv. inv_checks. by apply Z.eqb_eq.
Qed.

Lemma activation_answer s a :
  verify_activation digest s a = Ok tt ->
  issued_of (LeaseActivated a) = None /\ record_epoch (LeaseActivated a) = epoch (lease s) /\ answer_verified digest s (LeaseActivated a).
Proof.
  intros Hv. split_and!; [done | | by intros _]. unfold verify_activation in Hv. inv_checks. by apply Z.eqb_eq.
Qed.

Lemma close_answer s c :
  verify_close digest s c = Ok tt ->
  issued_of (LeaseClosed c) = None /\ record_epoch (LeaseClosed c) = epoch (lease s) /\ answer_verified digest s (LeaseClosed c).
Proof.
  intros Hv. split_and!; [done | | by intros _]. unfold verify_close in Hv. inv_checks. by apply Z.eqb_eq.
Qed.

Definition fits (e : CallEnv) (id : string) : Prop := forall i, found_instance e = Ok (Some i) -> im_id i = id.

Lemma instance_fits e id i : fits e id -> instance_or_fail e = Ok i -> im_id i = id.
Proof.
  intros Hf Hi. unfold instance_or_fail in Hi. apply result_bind_ok in Hi as ([i'|] & Hi' & Hi); [|done].
  injection Hi as <-. by apply Hf.
Qed.

Definition started_post (n : Z) (id : string) (r : outcome View) (h : Host) : Prop :=
  (tidy_store (n + 1) h /\ coupled (Some id) h /\ held h id) /\ (is_ok r = true -> running h id).

Lemma started_err n id err h : tidy_store n h -> coupled (Some id) h -> held h id -> started_post n id (Err err) h.
Proof. intros. split; [|done]. split_and!; [eapply tidy_store_mono; [|done]; lia | done | done]. Qed.

Lemma start_unlocked_ok n e input h :
  let id := start_instance input in
  0 <= n < u64_max -> fits e id -> tidy_store n h -> coupled (Some id) h -> held h id ->
  call_wp (start_owner_dome_hosting_unlocked digest keys e input) (started_post n id) h.
Proof.
  intros id Hn Hfit Ht Hc Hh. pose proof (fun err => started_err n id err h Ht Hc Hh) as Herr.
  unfold start_owner_dome_hosting_unlocked.
  do 2 (apply call_wp_try; [auto|]; intros [] _). apply call_wp_try; [auto|]. intros i Hi%(instance_fits _ id); [|done].
  do 3 (apply call_wp_try; [auto|]; intros [] _). apply call_wp_try; [auto|]; intros p _. apply call_wp_try; [auto|]; intros preset _.
  apply call_wp_list; [auto|]. set (old := default [] _). destruct (next_epoch_fresh n old Hn) as [Hep Hlow]; [by apply stored_records|].
  cbv zeta. apply call_wp_try; [auto|]; intros expires _. apply call_wp_try; [auto|]. intros s (Hl & Ho & _)%built_lease.
  apply call_wp_try; [auto|]. intros a (Hva & _)%accepted_verifies. apply call_wp_try; [auto|]. intros act (_ & Hvact & _)%activated_verifies.
  apply call_wp_try; [auto|]. intros r _. apply call_wp_persist; [auto|].
  destruct (tidy_replace (n + 1) old s [HostAccepted a; LeaseActivated act]) as [Hlat Htidy].
  { by rewrite Hl. } { rewrite Hl. simpl. lia. } { by rewrite Hl. }
  { intros x [->|[->|[]%not_elem_of_nil]%elem_of_cons]%elem_of_cons; [by apply acceptance_answer | by apply activation_answer]. }
  rewrite Hlat, Hi. apply call_wp_modify.
  set (h1 := set_sessions _ _).
  assert (T1 : tidy_store (n + 1) h1) by (apply tidy_store_insert; [eapply tidy_store_mono; [|done]; lia | done]).
  assert (C1 : coupled (Some id) h1) by (apply coupled_session; [by apply held_coupled_store | done]).
  assert (R1 : running h1 id) by (simpl; rewrite lookup_insert_eq; by eexists).
  apply call_wp_try; [by split|]. intros [] _. apply call_wp_modify. set (h2 := set_tasks _ _).
  assert (C2 : coupled (Some id) h2) by (by apply coupled_task).
  apply call_wp_try; [by split|]. intros [] _. unfold call_wp, started_post.
  pose proof (keeps_view e i (old ++ [LeaseIssued s; HostAccepted a; LeaseActivated act])%list) as Hk.
  split; [split_and!|].
  - by apply tidy_view.
  - by apply coupled_view.
  - by rewrite (sc_scopes _ _ (Hk h2)).
  - intros _. by apply (sc_sessions _ _ (Hk h2)).
Qed.

Lemma participation_keys_nonempty t ch : participation_keys t ch <> [].
Proof. unfold participation_keys. by destruct ch. Qed.

Lemma start_keeps n e input h :
  0 <= n < u64_max -> fits e (start_instance input) -> host_inv n h ->
  host_inv (n + 1) (start_owner_dome_hosting digest spawner keys e input h).2.
Proof.
  intros Hn Hfit [Ht Hc]. set (id := start_instance input).
  enough (call_wp (start_owner_dome_hosting digest spawner keys e input) (fun _ h' => host_inv (n + 1) h') h) as Hw by exact Hw.
  unfold start_owner_dome_hosting. apply call_wp_bind. eapply call_wp_mono.
  { apply take_scopes_ok; [done | apply participation_keys_nonempty]. }
  intros r h1 (Hst & Hse & _ & Hr). cbv beta. assert (T1 : tidy_store n h1) by (unfold tidy_store; by rewrite Hst).
  destruct r as [[]|err]; [|constructor; [eapply tidy_store_mono; [|done]; lia | done]].
  destruct Hr as [C1 Hh]. pose proof (start_unlocked_ok n e input h1 Hn Hfit T1 C1 Hh) as [(T2 & C2 & Hh2) Hok].
  unfold call_wp, start_or_release in *. destruct (start_owner_dome_hosting_unlocked digest keys e input h1) as [res h2]. simpl in *.
  destruct (dome_host_sessions h2 !! start_instance input) as [rt|] eqn:Es.
  - rewrite (bool_decide_true (is_Some (Some rt))) by (by eexists). rewrite andb_false_r. simpl. constructor; [done|].
    destruct C2 as [W T D O]. constructor; [done | done | done |]. intros id' Hid. destruct (O _ Hid) as [?|Heq]; [by left|]. injection Heq as <-.
    left. rewrite Es. by eexists.
  - destruct res as [v|err]; [destruct (Hok eq_refl) as [? Hx]; congruence|]. simpl.
    destruct (drop_scopes_ok (Some id) id h2) as (Er & C3 & S3 & _); [done | | done | congruence |].
    { destruct (dome_heartbeats h2 !! id) eqn:E; [|done]. destruct (cp_tasks _ _ C2 id) as [? Hx]; [by eexists |]. unfold id in Hx. congruence. }
    subst id. destruct (drop_scopes (dome_holder (start_instance input)) h2) as [[[]|e'] h3]; [|done]. simpl in *.
    constructor; [|done]. unfold tidy_store. by rewrite S3.
Qed.

Lemma prepare_keeps n e input h :
  0 <= n < u64_max -> host_inv n h -> host_inv (n + 1) (prepare_community_node_dome_hosting digest keys e input h).2.
Proof.
  intros Hn Hi. assert (Hmono : forall h', host_inv n h' -> host_inv (n + 1) h') by (intros; eapply host_inv_mono; [|done]; lia).
  enough (call_wp (prepare_community_node_dome_hosting digest keys e input) (fun _ h' => host_inv (n + 1) h') h) as Hw by exact Hw.
  unfold prepare_community_node_dome_hosting.
  apply call_wp_try; [auto|]; intros [] _. apply call_wp_try; [auto|]; intros i _.
  do 3 (apply call_wp_try; [auto|]; intros [] _). apply call_wp_list; [auto|]. set (old := default [] _).
  destruct (next_epoch_fresh n old Hn) as [Hep Hlow]; [apply stored_records, Hi|]. cbv zeta.
  apply call_wp_try; [auto|]; intros expires _. apply call_wp_try; [auto|]. intros s (Hl & Ho & _)%built_lease.
  apply call_wp_persist; [auto|]. destruct (tidy_replace (n + 1) old s []) as [Hlat Htidy].
  { by rewrite Hl. } { rewrite Hl. simpl. lia. } { by rewrite Hl. } { by intros ? ?%not_elem_of_nil. }
  rewrite Hlat. apply call_wp_bind. set (h1 := set_stored _ _).
  assert (T1 : tidy_store (n + 1) h1) by (apply tidy_store_insert; [apply (Hmono h Hi) | done]).
  eapply call_wp_mono; [apply stop_ok, held_coupled_store, Hi|]. intros r h2 (-> & C2 & S2 & _). cbv beta.
  assert (I2 : host_inv (n + 1) h2) by (constructor; [unfold tidy_store; by rewrite S2 | done]).
  apply call_wp_try; [auto|]. intros [] _. pose proof (keeps_view e i (old ++ [LeaseIssued s])%list) as Hk.
  constructor; [apply tidy_view; [done | apply I2] | apply coupled_view; [done | apply I2]].
Qed.

(** The lease that the stored records name. *)
Lemma unique_of_tidy n records s :
  records = [] \/ tidy n records -> current_unique_lease digest records = Ok (Some s) ->
  exists rest, records = LeaseIssued s :: rest /\ tidy n (LeaseIssued s :: rest).
Proof.
  intros [->|Ht] Hu; [done|]. destruct Ht as (s' & rest & -> & He & Ho & Hr).
  rewrite tidy_unique_lease in Hu by (intros; by apply Hr). injection Hu as ->. exists rest. split; [done|]. by exists s, rest.
Qed.

Lemma activate_keeps n e acc h :
  host_inv n h -> host_inv n (activate_community_node_dome_hosting digest keys e acc h).2.
Proof.
  intros Hi. enough (call_wp (activate_community_node_dome_hosting digest keys e acc) (fun _ h' => host_inv n h') h) as Hw by exact Hw.
  unfold activate_community_node_dome_hosting.
  apply call_wp_try; [auto|]; intros [] _. apply call_wp_try; [auto|]; intros i _.
  do 2 (apply call_wp_try; [auto|]; intros [] _). apply call_wp_list; [auto|]. set (old := default [] _).
  apply call_wp_try; [auto|]; intros s0 Hu. apply call_wp_try; [auto|]; intros s Hs. apply call_wp_try; [auto|]; intros [] _.
  destruct s0 as [s0|]; [injection Hs as ->|done].
  destruct (unique_of_tidy n old s) as (rest & Hold & Htidy); [apply stored_records, Hi | done |].
  apply call_wp_try; [auto|]; intros a _. apply call_wp_try; [auto|]. intros act (Hva & Hvact & _)%activated_verifies.
  cbv zeta. apply call_wp_persist; [auto|]. rewrite Hold.
  destruct (tidy_extend n s rest [HostAccepted a; LeaseActivated act]) as [Hlat Ht1]; [done | |].
  { intros x [->|[->|[]%not_elem_of_nil]%elem_of_cons]%elem_of_cons; [by apply acceptance_answer | by apply activation_answer]. }
  rewrite Hlat. set (h1 := set_stored _ _).
  assert (I1 : host_inv n h1) by (constructor; [apply tidy_store_insert; [apply Hi | done] | apply held_coupled_store, Hi]).
  apply call_wp_try; [auto|]; intros [] _.
  pose proof (keeps_view e i ((LeaseIssued s :: rest) ++ [HostAccepted a; LeaseActivated act])%list) as Hk.
  constructor; [apply tidy_view; [done | apply I1] | apply coupled_view; [done | apply I1]].
Qed.

Lemma close_unlocked_keeps n e g h :
  host_inv n h -> host_inv n (close_dome_hosting_unlocked digest keys e g h).2.
Proof.
  intros Hi. enough (call_wp (close_dome_hosting_unlocked digest keys e g) (fun _ h' => host_inv n h') h) as Hw by exact Hw.
  unfold close_dome_hosting_unlocked.
  apply call_wp_try; [auto|]; intros [] _. apply call_wp_try; [auto|]; intros i _.
  do 2 (apply call_wp_try; [auto|]; intros [] _). apply call_wp_list; [auto|]. set (old := default [] _).
  apply call_wp_try; [auto|]; intros s0 Hu. apply call_wp_try; [auto|]; intros s Hs. apply call_wp_try; [auto|]; intros [] _.
  destruct s0 as [s0|]; [injection Hs as ->|done].
  destruct (unique_of_tidy n old s) as (rest & Hold & Htidy); [apply stored_records, Hi | done |].
  apply call_wp_try; [auto|]. intros c (Hvc & _)%closed_verifies. cbv zeta. apply call_wp_persist; [auto|]. rewrite Hold.
  destruct (tidy_extend n s rest [LeaseClosed c]) as [Hlat Ht1]; [done | |].
  { intros x ->%list_elem_of_singleton. by apply close_answer. }
  rewrite Hlat. apply call_wp_bind. set (h1 := set_stored _ _).
  assert (T1 : tidy_store n h1) by (apply tidy_store_insert; [apply Hi | done]).
  eapply call_wp_mono; [apply stop_ok, held_coupled_store, Hi|]. intros r h2 (-> & C2 & S2 & _). cbv beta.
  assert (I2 : host_inv n h2) by (constructor; [unfold tidy_store; by rewrite S2 | done]).
  apply call_wp_try; [auto|]. intros [] _. pose proof (keeps_authority_view e i ((LeaseIssued s :: rest) ++ [LeaseClosed c])%list) as Hk.
  constructor; [apply tidy_view; [done | apply I2] | apply coupled_view; [done | apply I2]].
Qed.

Lemma get_keeps n e h : host_inv n h -> host_inv n (get_dome_hosting digest e h).2.
Proof.
  intros Hi. assert (Hk : keeps_core (get_dome_hosting digest e)).
  { unfold get_dome_hosting, list_dome_hosting_records. apply keeps_bind; [apply keeps_try|]. intros _.
    apply keeps_bind; [apply keeps_try|]. intros i. apply keeps_bind; [|intros; apply keeps_view].
    apply keeps_bind; [apply keeps_try|]. by intros _ h'. }
  constructor; [apply tidy_view; [done | apply Hi] | apply coupled_view; [done | apply Hi]].
Qed.
End run.
