(* ===== verification/DomeHostingView.v ===== *)
(** * Total correctness of starting and closing

    Lemmas for the calls of the hosting service when the services around it answer: names
    are not blank, signing succeeds, and the view of fresh records shows the new lease. *)
From S2P Require Import Prelude RustStr ScopeLeases ScopeLeasesProps Envelope DomeTransition DomeTopology DomeHosts DomeHosting DomeHostingSpec DomeHostingProps DomeHostingService DomeHostingLifecycle DomeHostingRun.

(** ** Names *)

(** No white space character holds the byte [c]. *)
Definition outside (c : ascii) (ps : list string) : bool := forallb (fun p => lacks c p && negb (str_is_empty p)) ps.
Definition not_space (c : ascii) : bool := outside c utf8_whitespace && outside c (map str_rev utf8_whitespace).

Lemma strip_any_outside c ps s : outside c ps = true -> strip_any ps (String c s) = None.
Proof.
  unfold outside, strip_any. induction ps as [|p ps IH]; intros Ho; [done|]. cbn [forallb foldr] in *. destruct_bools.
  rewrite IH by done. destruct p as [|a p]; [done|]. unfold lacks in *. simpl in *. destruct_bools. by rewrite decide_False.
Qed.

Lemma strip_any_some ps s r : strip_any ps s = Some r -> exists p, p ∈ ps /\ s = p ++s r.
Proof.
  unfold strip_any. induction ps as [|p ps IH]; simpl; [done|]. destruct (strip_prefix p s) as [r'|] eqn:E.
  - intros [= <-]. apply strip_prefix_some in E. exists p. split; [apply list_elem_of_here | done].
  - intros (p' & Hp' & ->)%IH. exists p'. split; [by apply list_elem_of_further | done].
Qed.

Lemma lacks_suffix c p y r : lacks c p = true -> p ++s y = r ++s String c "" -> exists r', y = r' ++s String c "".
Proof.
  unfold lacks. revert r. induction p as [|a p IH]; intros r Hl Heq; [by exists r|]. simpl in Hl. destruct_bools.
  destruct r as [|b r]; simpl in Heq; injection Heq as <- Heq; [congruence|]. by apply (IH r).
Qed.

Lemma trim_fuel_keeps c ps n r :
  outside c ps = true -> exists r', trim_fuel n ps (r ++s String c "") = r' ++s String c "".
Proof.
  intros Ho. revert r. induction n as [|n IH]; intros r; simpl; [by exists r|].
  destruct (strip_any ps (r ++s String c "")) as [y|] eqn:E; [|by exists r].
  apply strip_any_some in E as (p & Hp & Heq). unfold outside in Ho. rewrite forallb_forall in Ho.
  specialize (Ho p). rewrite <- list_elem_of_In in Ho. specialize (Ho Hp). destruct_bools.
  destruct (lacks_suffix c p y r) as [r' ->]; [done | done |]. apply IH.
Qed.

Lemma str_rev_cons c s : str_rev (String c s) = str_rev s ++s String c "".
Proof.
  unfold str_rev. simpl. induction (rev (String.list_ascii_of_string s)) as [|a l IH]; simpl; [done|]. by rewrite IH.
Qed.

Lemma str_rev_nonempty c r : str_is_empty (str_rev (r ++s String c "")) = false.
Proof.
  destruct r as [|a r]; [done|]. change (String a r ++s String c "") with (String a (r ++s String c "")).
  rewrite str_rev_cons. by destruct (str_rev _).
Qed.

Lemma not_blank c s : not_space c = true -> blank (String c s) = false.
Proof.
  unfold not_space, blank, trim, trim_start, trim_end. intros Hc. destruct_bools. cbn [String.length trim_fuel].
  rewrite strip_any_outside by done. rewrite str_rev_cons.
  destruct (trim_fuel_keeps c (map str_rev utf8_whitespace) (String.length (String c s)) (str_rev s)) as [r' ->]; [done|].
  apply str_rev_nonempty.
Qed.

Section view.
Context {crypto : Crypto} {crypto_laws : CryptoLaws} {hex_laws : HexLaws}.
Context `{JsonLaws Lease} `{JsonLaws Acceptance} `{JsonLaws Activation} `{JsonLaws Close} `{Json Heartbeat}.
Context (digest : Lease -> string) {runtime : HostRuntime} (spawner : Spawner) (keys : Keys).

(** ** Signing succeeds *)
Lemma valid_instance i :
  validate_dome_instance_manifest i = Ok tt ->
  blank (im_id i) = false /\ blank (manifest_blob_hash (im_preset i)) = false
  /\ (im_generation i =? 0) = false /\ (preset_revision (im_preset i) =? 0) = false.
Proof. unfold validate_dome_instance_manifest. cbv zeta. intros Hv. inv_checks. done. Qed.

Lemma lease_expiry_ok now duration x :
  lease_expiry now duration = Ok x -> 0 < x - now <= DOME_HOSTING_MAX_LEASE_MILLIS.
Proof.
  unfold lease_expiry. cbv zeta. set (d := if duration =? 0 then _ else _). intros Hx.
  apply result_bind_ok in Hx as ([] & Hd%check_ok & Hx). destruct_bools. destruct (in_i64 (now + d)); [|done].
  injection Hx as <-. lia.
Qed.

Lemma new_lease_expiry e i ep host x duration :
  lease_expiry (now e) duration = Ok x -> expiry_supported (new_lease e i ep host x) = true.
Proof.
  intros Hx%lease_expiry_ok. unfold expiry_supported. cbn [new_lease expires_at issued_at].
  assert (Hs : sub_i64 x (now e) = x - now e).
  { unfold sub_i64, wrap_i64. unfold DOME_HOSTING_MAX_LEASE_MILLIS in Hx. rewrite Z.mod_small; lia. }
  rewrite Hs. destruct (Z.leb_spec x (now e)); [lia|]. destruct (Z.ltb_spec DOME_HOSTING_MAX_LEASE_MILLIS (x - now e)); [lia | done].
Qed.

Lemma lease_id_not_blank e i ep host x : blank (lease_id (new_lease e i ep host x)) = false.
Proof. apply not_blank. by_vm. Qed.

Lemma new_lease_valid e i ep host x duration :
  validate_dome_instance_manifest i = Ok tt -> attached i = true -> validate_target host = Ok tt -> 0 < ep ->
  lease_expiry (now e) duration = Ok x -> validate_dome_hosting_lease (new_lease e i ep host x) i = Ok tt.
Proof.
  intros Hv Hat Hh Hep Hx. destruct (valid_instance i Hv) as (B1 & B2 & B3 & B4).
  unfold validate_dome_hosting_lease. rewrite Hv, bind_ok, Hat, lease_id_not_blank, (new_lease_expiry _ _ _ _ _ _ Hx).
  cbn [new_lease lease_id lease_instance lease_manifest lease_generation manifest_version epoch lease_owner lease_context lease_host].
  rewrite B1, B2, B3, B4, !bool_decide_true, !Z.eqb_refl by done. rewrite (proj2 (Z.eqb_neq ep 0)) by lia. exact Hh.
Qed.

Lemma sign_ok {T} `{Json T} t k kind tags (x : T) : exists e, lift (sign_envelope_json (Some t) k kind tags x) = Ok e.
Proof. by eexists. Qed.

Lemma build_ok t l :
  lease_owner l = public_key_hex keys -> validate_target (lease_host l) = Ok tt -> blank (lease_id l) = false ->
  (epoch l =? 0) = false -> (manifest_version l =? 0) = false -> expiry_supported l = true ->
  exists s, build_signed_dome_hosting_lease (Some t) keys l = Ok s.
Proof.
  intros Ho Hh Hb He Hm Hx. unfold build_signed_dome_hosting_lease. rewrite (bool_decide_true _ Ho), Hh, Hb, He, Hm, Hx. cbn. by eexists.
Qed.

Lemma accept_ok t s session at_ :
  signing_pubkey (lease_host (lease s)) = public_key_hex keys ->
  lift (verify_envelope_content (lease_envelope s) LEASE_KIND (lease_owner (lease s)) (lease s)) = Ok tt ->
  blank session = false -> issued_at (lease s) <= at_ < expires_at (lease s) ->
  exists a, accept_dome_hosting_lease digest (Some t) keys s session at_ = Ok a.
Proof.
  intros Ho Hv Hb Hat. unfold accept_dome_hosting_lease. cbv zeta. rewrite (bool_decide_true _ Ho).
  assert (Hver : verify (lease_envelope s) = Ok tt).
  { apply lift_ok in Hv. unfold verify_envelope_content in Hv. by apply result_bind_ok in Hv as ([] & -> & _). }
  rewrite Hver. cbn [acc_session]. rewrite Hb. destruct (Z.ltb_spec at_ (issued_at (lease s))); [lia|].
  destruct (Z.leb_spec (expires_at (lease s)) at_); [lia|]. cbn. by eexists.
Qed.

Lemma activate_ok t s a at_ :
  lease_owner (lease s) = public_key_hex keys -> verify_acceptance digest s a = Ok tt ->
  accepted_at (acceptance a) <= at_ < expires_at (lease s) ->
  exists act, activate_dome_hosting_lease digest (Some t) keys s a at_ = Ok act.
Proof.
  intros Ho Hv Hat. unfold activate_dome_hosting_lease. cbv zeta. rewrite (bool_decide_true _ Ho), Hv.
  destruct (Z.ltb_spec at_ (accepted_at (acceptance a))); [lia|]. destruct (Z.leb_spec (expires_at (lease s)) at_); [lia|]. cbn. by eexists.
Qed.

Lemma close_ok t s at_ :
  lease_owner (lease s) = public_key_hex keys -> issued_at (lease s) <= at_ ->
  exists c, close_dome_hosting_lease digest (Some t) keys s at_ = Ok c.
Proof.
  intros Ho Hat. unfold close_dome_hosting_lease. cbv zeta. rewrite (bool_decide_true _ Ho).
  destruct (Z.ltb_spec at_ (issued_at (lease s))); [lia|]. cbn. by eexists.
Qed.

(** ** Fresh records in the view *)
Section fresh_view.
Context (i : InstanceManifest) (old : list HostingRecord) (s : SignedLease) (rest : list HostingRecord).
Context (Hlow : forall r, r ∈ old -> record_epoch r < epoch (lease s)) (Hgen : lease_generation (lease s) = im_generation i).
Context (Hrest : forall r, r ∈ rest -> issued_of r = None /\ record_epoch r = epoch (lease s) /\ answer_verified digest s r).

Lemma omap_issued_app (l l' : list HostingRecord) : omap issued_of (l ++ l')%list = (omap issued_of l ++ omap issued_of l')%list.
Proof. by rewrite omap_app. Qed.

Lemma issued_fresh : omap issued_of (old ++ LeaseIssued s :: rest)%list = (omap issued_of old ++ [s])%list.
Proof. rewrite omap_issued_app. change (omap issued_of (LeaseIssued s :: rest)) with (s :: omap issued_of rest). rewrite (omap_issued_none rest); [done|]. intros. by apply Hrest. Qed.

Lemma elem_of_issued (l : list HostingRecord) s' : s' ∈ omap issued_of l <-> LeaseIssued s' ∈ l.
Proof.
  rewrite list_elem_of_omap. split; [|by exists (LeaseIssued s')]. intros (r & Hr & Hs). destruct r; simplify_eq/=. done.
Qed.

(** The view reads a part of the old records and all of the new ones. *)
Lemma generation_fresh :
  exists old', generation_records i (old ++ LeaseIssued s :: rest)%list = (old' ++ LeaseIssued s :: rest)%list /\ old' ⊆ old.
Proof.
  unfold generation_records. set (f := fun r => bool_decide _). exists (List.filter f old). split.
  - rewrite List.filter_app. f_equal. assert (Hs : forall r, r ∈ LeaseIssued s :: rest -> f r = true).
    { intros r Hr. apply bool_decide_eq_true. assert (Hep : record_epoch r = epoch (lease s)).
      { apply elem_of_cons in Hr as [->|Hr]; [done | by apply Hrest]. }
      rewrite Hep. apply list_elem_of_fmap. exists s. split; [done|]. apply elem_of_filter_bool. split; [|by apply Z.eqb_eq].
      apply elem_of_issued, elem_of_app. right. apply list_elem_of_here. }
    rewrite (filter_same f (fun _ => true)) by done. apply forallb_filter_id. by apply forallb_forall.
  - intros r [Hr _]%elem_of_filter_bool. done.
Qed.

Lemma unique_fresh : current_unique_lease digest (old ++ LeaseIssued s :: rest)%list = Ok (Some s).
Proof.
  unfold current_unique_lease. rewrite issued_fresh, map_app. simpl.
  assert (Hold : forall s', s' ∈ omap issued_of old -> epoch (lease s') < epoch (lease s)).
  { intros s' ?%elem_of_issued. by apply (Hlow (LeaseIssued s')). }
  pose proof (max_epoch_spec (map (fun s0 => epoch (lease s0)) (omap issued_of old) ++ [epoch (lease s)])%list) as Hm.
  destruct (max_epoch _) as [m|]; [|by destruct (app_cons_not_nil _ _ _ (eq_sym Hm))].
  assert (Hmax : m = epoch (lease s)).
  { destruct Hm as [[(s' & -> & Hs')%list_elem_of_fmap|Hx%list_elem_of_singleton]%elem_of_app Hle]; [|done].
    specialize (Hold _ Hs'). specialize (Hle (epoch (lease s))). rewrite elem_of_app, list_elem_of_singleton in Hle. lia. }
  subst m. rewrite List.filter_app, filter_none by (intros s' Hs'; specialize (Hold _ Hs'); apply Z.eqb_neq; lia).
  simpl. rewrite Z.eqb_refl. pose proof (tidy_unique_lease digest s []) as Hu. unfold current_unique_lease in Hu. simpl in Hu.
  rewrite Z.eqb_refl in Hu. apply Hu. by intros ? ?%not_elem_of_nil.
Qed.
End fresh_view.

(** ** Running a call whose steps succeed *)
Lemma run_try {A B} (r : outcome A) a (k : A -> Call B) h : r = Ok a -> (try_ r ≫= k) h = k a h.
Proof. by intros ->. Qed.

Lemma run_modify {B} f (k : unit -> Call B) h : (modify f ≫= k) h = k tt (f h).
Proof. done. Qed.

Lemma run_bind {A B} (m : Call A) (k : A -> Call B) a h h' : m h = (Ok a, h') -> (m ≫= k) h = k a h'.
Proof. unfold mbind, call_bind. by intros ->. Qed.

Lemma run_list {B} e i (k : list HostingRecord -> Call B) h :
  read_records e = Ok tt -> (list_dome_hosting_records e i ≫= k) h = k (default [] (stored h !! hosting_state_key (im_id i))) h.
Proof. intros Hr. unfold list_dome_hosting_records. by rewrite Hr. Qed.

Lemma run_persist {B} e i records (k : unit -> Call B) h :
  write_records e = Ok tt -> (persist_dome_hosting_records e i records ≫= k) h
  = k tt (set_stored (insert (hosting_state_key (im_id i)) (latest_epoch_records records)) h).
Proof. intros Hr. unfold persist_dome_hosting_records. by rewrite Hr. Qed.

Lemma online_now at_ : resolve_dome_host_liveness (Some at_) at_ = Online.
Proof. unfold resolve_dome_host_liveness, i64_saturating_sub. by rewrite Z.sub_diag. Qed.

(** The view of fresh records of a lease whose session runs here. *)
Lemma view_of_session e i old s rest h rt rt' st :
  validate_dome_instance_manifest i = Ok tt -> attached i = true -> check_lease i s = Ok true ->
  (forall r, r ∈ old -> record_epoch r < epoch (lease s)) ->
  (forall r, r ∈ rest -> issued_of r = None /\ record_epoch r = epoch (lease s) /\ answer_verified digest s r) ->
  (forall old', old' ⊆ old -> resolve_dome_hosting_state digest i (old' ++ LeaseIssued s :: rest)%list (now e) (Some (now e)) = Ok st) ->
  dome_host_sessions h !! im_id i = Some rt -> advance_for_read (now e) rt = (Ok tt, rt') -> upsert_projection e = Ok tt ->
  exists v h', hosting_authority_view digest e i (old ++ LeaseIssued s :: rest)%list h = (Ok v, h')
    /\ view_state v = st /\ view_lease v = Some s.
Proof.
  intros Hv Hat Hcount Hlow Hrest Hres Hs Hadv Hup. unfold hosting_authority_view.
  rewrite (run_try _ _ _ _ (Hres old (reflexivity old))). cbv zeta.
  apply check_lease_true in Hcount as [(_ & _ & _ & _ & Hgen & _)%valid_lease _].
  destruct (generation_fresh i old s rest Hgen Hrest) as (old' & -> & Hsub).
  assert (Hlow' : forall r, r ∈ old' -> record_epoch r < epoch (lease s)) by (intros r ?%Hsub; auto).
  assert (Hloc : local_session e (im_id i) h
    = (Ok (Some (now e), Z.min u32_max (participant_count rt'), is_sleeping rt'), set_sessions (insert (im_id i) rt') h)).
  { unfold local_session, gets, mbind, call_bind. rewrite Hs, Hadv. done. }
  rewrite (run_bind _ _ _ _ _ Hloc). rewrite (run_bind _ _ _ _ _ (eq_refl : heartbeat_source digest e i _ (Some (now e), _, _) _ = (Ok _, _))).
  rewrite (run_try _ _ _ _ (Hres old' Hsub)), (run_try _ _ _ _ Hup), run_modify.
  rewrite (run_try _ _ _ _ (unique_fresh old' s rest Hlow' Hrest)). do 2 eexists. split; [reflexivity | done].
Qed.

(** The view of fresh records that name no session, when none runs here. *)
Lemma view_without_session e i old s rest h (st : option Z -> HostingState) :
  validate_dome_instance_manifest i = Ok tt -> attached i = true -> check_lease i s = Ok true ->
  (forall r, r ∈ old -> record_epoch r < epoch (lease s)) ->
  (forall r, r ∈ rest -> issued_of r = None /\ record_epoch r = epoch (lease s) /\ answer_verified digest s r) ->
  (forall old' hb, old' ⊆ old -> resolve_dome_hosting_state digest i (old' ++ LeaseIssued s :: rest)%list (now e) hb = Ok (st hb)) ->
  (forall hb, state_session (st hb) = None /\ is_hosted (state_kind (st hb)) = false) ->
  dome_host_sessions h !! im_id i = None -> upsert_projection e = Ok tt ->
  exists v h', hosting_authority_view digest e i (old ++ LeaseIssued s :: rest)%list h = (Ok v, h')
    /\ view_state v = st None /\ view_lease v = Some s.
Proof.
  intros Hv Hat Hcount Hlow Hrest Hres Hst Hs Hup. unfold hosting_authority_view.
  rewrite (run_try _ _ _ _ (Hres old (Some (now e)) (reflexivity old))). cbv zeta.
  apply check_lease_true in Hcount as [(_ & _ & _ & _ & Hgen & _)%valid_lease _].
  destruct (generation_fresh i old s rest Hgen Hrest) as (old' & -> & Hsub).
  assert (Hlow' : forall r, r ∈ old' -> record_epoch r < epoch (lease s)) by (intros r ?%Hsub; auto).
  set (records := (old' ++ LeaseIssued s :: rest)%list) in *.
  assert (Hloc : local_session e (im_id i) h = (Ok (None, 0, true), h)).
  { unfold local_session, gets, mbind, call_bind. by rewrite Hs. }
  rewrite (run_bind _ _ _ _ _ Hloc).
  assert (Hsrc : exists h1, heartbeat_source digest e i records (None, 0, true) h = (Ok (None, 0, true), h1)).
  { unfold heartbeat_source. rewrite (run_try _ _ _ _ (Hres old' (Some (now e)) Hsub)).
    rewrite (run_try _ _ _ _ (unique_fresh old' s rest Hlow' Hrest)). destruct (Hst (Some (now e))) as [-> Hh].
    assert (Hrem : exists h1, remote_heartbeat e i (Some s) None h = (Ok None, h1)).
    { unfold remote_heartbeat. destruct (latest_at _ _ _ _) as [lt l']. by eexists. }
    destruct Hrem as [h1 Hrem]. rewrite (run_bind _ _ _ _ _ Hrem), Hh. by eexists. }
  destruct Hsrc as [h1 Hsrc]. rewrite (run_bind _ _ _ _ _ Hsrc).
  rewrite (run_try _ _ _ _ (Hres old' None Hsub)), (run_try _ _ _ _ Hup), run_modify.
  rewrite (run_try _ _ _ _ (unique_fresh old' s rest Hlow' Hrest)). do 2 eexists. split; [reflexivity | done].
Qed.
End view.
