(* ===== verification/DomeHostingServiceProps.v ===== *)
(** * Theorems about the hosting service

    The invariant of every run of the owner's calls, the results of starting, handing over
    and closing, and the view of conflicting leases. *)
From S2P Require Import Prelude RustStr ScopeLeases ScopeLeasesProps Envelope DomeTransition DomeTopology DomeHosts DomeHosting DomeHostingSpec DomeHostingProps DomeHostingService DomeHostingLifecycle DomeHostingRun DomeHostingView.

Section service_props.
Context {crypto : Crypto} {crypto_laws : CryptoLaws} {hex_laws : HexLaws}.
Context `{JsonLaws Lease} `{JsonLaws Acceptance} `{JsonLaws Activation} `{JsonLaws Close} `{Json Heartbeat}.
Context (digest : Lease -> string) {runtime : HostRuntime} (spawner : Spawner) (keys : Keys).

(** ** Runs *)
Inductive HostCall :=
| CStart (e : CallEnv) (input : StartInput)
| CPrepare (e : CallEnv) (input : PrepareInput)
| CActivate (e : CallEnv) (acceptance : option SignedAcceptance)
| CClose (e e' : CallEnv) (expected_generation : option Z)
| CGet (e : CallEnv)
| CStop (instance_id : string).

Definition host_call (c : HostCall) (h : Host) : Host :=
  match c with
  | CStart e input => (start_owner_dome_hosting digest spawner keys e input h).2
  | CPrepare e input => (prepare_community_node_dome_hosting digest keys e input h).2
  | CActivate e a => (activate_community_node_dome_hosting digest keys e a h).2
  | CClose e e' g => (close_dome_hosting digest keys e e' g h).2
  | CGet e => (get_dome_hosting digest e h).2
  | CStop id => (stop_owner_dome_hosting id h).2
  end.

Definition run_host (calls : list HostCall) : Host := foldl (fun h c => host_call c h) initial_host calls.

(** The instance that a start finds is the one it asked for. *)
Definition call_fits (c : HostCall) : Prop :=
  match c with CStart e input => fits e (start_instance input) | _ => True end.

Lemma host_call_keeps n c h :
  0 <= n < u64_max -> call_fits c -> host_inv digest keys n h -> host_inv digest keys (n + 1) (host_call c h).
Proof.
  intros Hn Hfit Hi. assert (Hup : forall h', host_inv digest keys n h' -> host_inv digest keys (n + 1) h').
  { intros h'. apply host_inv_mono. lia. }
  destruct c as [e input|e input|e a|e e' g|e|id]; simpl.
  - by apply start_keeps.
  - by apply prepare_keeps.
  - by apply Hup, activate_keeps.
  - apply Hup. pose proof (close_unlocked_keeps digest keys n e g h Hi) as Hc. unfold close_dome_hosting, mbind, call_bind.
    destruct (close_dome_hosting_unlocked digest keys e g h) as [[v|err] h1]; [by apply get_keeps | done].
  - by apply Hup, get_keeps.
  - apply Hup. destruct (stop_ok id h (hi_coupled _ _ _ _ Hi)) as (_ & Hc & Hs & _). constructor; [|done].
    intros k rs. rewrite Hs. apply Hi.
Qed.

Lemma initial_inv : host_inv digest keys 0 initial_host.
Proof.
  constructor; [intros k rs; simpl; by rewrite lookup_empty|].
  constructor; simpl; [apply empty_leases_wf | | |]; intros id; rewrite lookup_empty; by intros [? ?].
Qed.

Lemma run_host_inv calls n h :
  0 <= n -> n + Z.of_nat (length calls) <= u64_max -> Forall call_fits calls -> host_inv digest keys n h ->
  host_inv digest keys (n + Z.of_nat (length calls)) (foldl (fun h c => host_call c h) h calls).
Proof.
  intros Hn Hlen Hfit. revert n h Hn Hlen. induction Hfit as [|c calls Hc Hcs IH]; intros n h Hn Hlen Hi; simpl.
  { by rewrite Z.add_0_r. }
  simpl in Hlen. replace (n + Z.of_nat (S (length calls))) with (n + 1 + Z.of_nat (length calls)) by lia.
  apply IH; [lia | lia |]. apply host_call_keeps; [lia | done | done].
Qed.

(** ** Theorems *)

(** C9: In every run of an owner's calls (fewer than 2^64 of them) the stored records of
    each instance are one lease signed by this owner, with an epoch of at most the number
    of calls, followed by verified answers to that lease, so that the owner never makes a
    split brain.  A running session holds the scopes of its instance and only running
    sessions do, and heartbeat tasks belong to sessions. *)
Theorem hosting_service_invariant calls :
  Z.of_nat (length calls) <= u64_max -> Forall call_fits calls ->
  host_inv digest keys (Z.of_nat (length calls)) (run_host calls).
Proof. intros Hlen Hfit. apply (run_host_inv calls 0 initial_host); [lia | lia | done | apply initial_inv]. Qed.

(** The services around a call answer. *)
Record services_ok (e : CallEnv) (i : InstanceManifest) (t : Z) : Prop := {
  ok_context : context_replica e = Ok tt;
  ok_instance : found_instance e = Ok (Some i);
  ok_deleting : not_deleting e = Ok tt;
  ok_read : read_records e = Ok tt;
  ok_write : write_records e = Ok tt;
  ok_locator : locator_replica e = Ok tt;
  ok_hint : publish_hint e = Ok tt;
  ok_projection : upsert_projection e = Ok tt;
  ok_view : view_preset e = Ok tt;
  ok_clock : clock e = Some t
}.

(** The instance can be hosted by this account. *)
Record hostable (i : InstanceManifest) : Prop := {
  ho_valid : validate_dome_instance_manifest i = Ok tt;
  ho_attached : attached i = true;
  ho_owner : im_owner i = public_key_hex keys
}.

Lemma owner_ok i : hostable i -> ensure_dome_hosting_owner keys i = Ok tt.
Proof. intros [_ Hat Ho]. unfold ensure_dome_hosting_owner. by rewrite Hat, (bool_decide_true _ Ho). Qed.

Lemma instance_found e i t : services_ok e i t -> instance_or_fail e = Ok i.
Proof. intros Hs. unfold instance_or_fail. by rewrite (ok_instance _ _ _ Hs). Qed.

Abbreviation records_of h i := (default [] (stored h !! hosting_state_key (im_id i))).

(** The lease that a call issues for [i], signed and valid. *)
Lemma issue_ok e i t n h host x duration :
  tidy_store digest keys n h -> 0 <= n < u64_max -> services_ok e i t -> hostable i ->
  validate_target host = Ok tt -> lease_expiry (now e) duration = Ok x ->
  let ep := next_hosting_epoch (records_of h i) in
  exists s, build_signed_dome_hosting_lease (clock e) keys (new_lease e i ep host x) = Ok s
    /\ lease s = new_lease e i ep host x /\ check_lease i s = Ok true
    /\ (forall r, r ∈ records_of h i -> record_epoch r < epoch (lease s))
    /\ lift (verify_envelope_content (lease_envelope s) LEASE_KIND (lease_owner (lease s)) (lease s)) = Ok tt.
Proof.
  intros Ht Hn Hs [Hv Hat Ho] Htgt Hx ep.
  destruct (next_epoch_fresh digest keys n (records_of h i) Hn (stored_records digest keys n h _ Ht)) as [Hep Hlow]. fold ep in Hep, Hlow.
  pose proof (new_lease_valid e i ep host x duration Hv Hat Htgt ltac:(lia) Hx) as Hval.
  destruct (valid_instance i Hv) as (_ & _ & _ & Hrev). rewrite (ok_clock _ _ _ Hs).
  destruct (build_ok keys t (new_lease e i ep host x)) as [s Hb]; [done | done | apply lease_id_not_blank | | done | by eapply new_lease_expiry |].
  { apply Z.eqb_neq. cbn [new_lease epoch]. lia. }
  pose proof (built_lease_counts i _ _ _ _ Hb Hval). pose proof (built_lease _ _ _ _ Hb) as (Hl & _ & Hsig).
  exists s. rewrite Hl. split_and!; [done | done | done | done | done].
Qed.

(** The three records of a start. *)
Lemma start_records s a act old :
  verify_acceptance digest s a = Ok tt -> verify_activation digest s act = Ok tt ->
  (forall r, r ∈ old -> record_epoch r < epoch (lease s)) ->
  (forall r, r ∈ [HostAccepted a; LeaseActivated act] -> issued_of r = None /\ record_epoch r = epoch (lease s) /\ answer_verified digest s r)
  /\ latest_epoch_records (old ++ [LeaseIssued s; HostAccepted a; LeaseActivated act])%list
     = [LeaseIssued s; HostAccepted a; LeaseActivated act].
Proof.
  intros Hva Hvact Hlow.
  assert (Hrest : forall r, r ∈ [HostAccepted a; LeaseActivated act] ->
    issued_of r = None /\ record_epoch r = epoch (lease s) /\ answer_verified digest s r).
  { intros r [->|[->|[]%not_elem_of_nil]%elem_of_cons]%elem_of_cons; [by apply acceptance_answer | by apply activation_answer]. }
  split; [done|]. apply (latest_of_new _ _ (epoch (lease s))); [done | done |]. intros r [->|Hr]%elem_of_cons; [done | by apply Hrest].
Qed.

Lemma start_active i old s a act at_ hb :
  validate_dome_instance_manifest i = Ok tt -> attached i = true -> leases_ok i old ->
  (forall r, r ∈ old -> record_epoch r < epoch (lease s)) -> check_lease i s = Ok true -> at_ < expires_at (lease s) ->
  verify_acceptance digest s a = Ok tt -> verify_activation digest s act = Ok tt ->
  host_acceptance_envelope_id (activation act) = env_id (acceptance_envelope a) ->
  resolve_dome_hosting_state digest i (old ++ [LeaseIssued s; HostAccepted a; LeaseActivated act])%list at_ hb
  = Ok (active_state (lease s) (acc_session (acceptance a)) at_ hb).
Proof.
  intros Hv Hat Hok Hlow Hcount Hn Hva Hvact Hid. destruct (start_records s a act old Hva Hvact Hlow) as [Hrest _].
  apply (fresh_active digest i old s [HostAccepted a; LeaseActivated act]) with (act := act); try done; [|set_solver..].
  intros r Hr. destruct (Hrest r Hr) as (? & _ & ?). done.
Qed.

Lemma start_unlocked_hosts n h e input i t p x :
  tidy_store digest keys n h -> 0 <= n < u64_max -> services_ok e i t -> hostable i ->
  leases_ok i (records_of h i) -> fetched_preset e = Ok (Some p) -> expect_generation (start_generation input) i = Ok tt ->
  validate_target (OwnerDevice (start_endpoint input) (public_key_hex keys)) = Ok tt ->
  lease_expiry (now e) (start_duration input) = Ok x ->
  (forall s session, exists r r', start_with_budget s i p session (now e) = Ok r /\ advance_for_read (now e) r = (Ok tt, r')) ->
  exists v h' s a act session, start_owner_dome_hosting_unlocked digest keys e input h = (Ok v, h')
    /\ view_state v = lease_state (lease s) OwnerHosted (Some session) None (Some (now e)) /\ view_lease v = Some s
    /\ records_of h' i = [LeaseIssued s; HostAccepted a; LeaseActivated act]
    /\ epoch (lease s) = next_hosting_epoch (records_of h i)
    /\ is_Some (dome_host_sessions h' !! im_id i) /\ scope_leases h' = scope_leases h.
Proof.
  intros Ht Hn Hs Hho Hok Hp Hg Htgt Hx Hrt. unfold start_owner_dome_hosting_unlocked.
  assert (Hblank : blank (start_endpoint input) = false) by (unfold validate_target in Htgt; inv_checks; done).
  rewrite Hblank. rewrite (run_try _ _ _ _ (eq_refl : check (negb false) _ = Ok tt)), (run_try _ _ _ _ (ok_context _ _ _ Hs)),
    (run_try _ _ _ _ (instance_found _ _ _ Hs)), (run_try _ _ _ _ Hg), (run_try _ _ _ _ (owner_ok _ Hho)),
    (run_try _ _ _ _ (ok_deleting _ _ _ Hs)), (run_try _ _ _ _ Hp), (run_try _ _ _ _ (eq_refl : ok_of_option _ (Some p) = Ok p)),
    (run_list _ _ _ _ (ok_read _ _ _ Hs)). cbv zeta. rewrite (run_try _ _ _ _ Hx).
  destruct (issue_ok e i t n h _ x _ Ht Hn Hs Hho Htgt Hx) as (s & Hb & Hl & Hcount & Hlow & Hsig). cbv zeta in Hb, Hl.
  set (ep := next_hosting_epoch (records_of h i)) in *. rewrite (run_try _ _ _ _ Hb).
  set (session := ("dome-session-" ++s _)%string). pose proof (lease_expiry_ok _ _ _ Hx) as Hlen.
  destruct (accept_ok digest keys t s session (now e)) as [a Ha]; [by rewrite Hl | done | apply not_blank; by_vm | rewrite Hl; cbn [new_lease issued_at expires_at]; lia |].
  rewrite <- (ok_clock _ _ _ Hs) in Ha. rewrite (run_try _ _ _ _ Ha). apply accepted_verifies in Ha as (Hva & Hses & _ & Hat_).
  destruct (activate_ok digest keys t s a (now e)) as [act Hact]; [rewrite Hl; apply Hho | done | rewrite Hat_, Hl; cbn [new_lease expires_at]; lia |].
  rewrite <- (ok_clock _ _ _ Hs) in Hact. rewrite (run_try _ _ _ _ Hact). apply activated_verifies in Hact as (_ & Hvact & Hid & _).
  destruct (Hrt s session) as (r & r' & Hst & Hadv). rewrite (run_try _ _ _ _ Hst), (run_persist _ _ _ _ _ (ok_write _ _ _ Hs)), run_modify.
  destruct (start_records s a act (records_of h i) Hva Hvact Hlow) as [Hrest Hlat]. rewrite Hlat. rewrite (run_try _ tt); [|by destruct (im_context i); [|apply Hs]]. rewrite run_modify, (run_try _ _ _ _ (ok_hint _ _ _ Hs)).
  set (h1 := set_tasks _ _). destruct (view_of_session digest e i (records_of h i) s [HostAccepted a; LeaseActivated act] h1 r r'
    (active_state (lease s) (acc_session (acceptance a)) (now e) (Some (now e)))) as (v & h2 & Hview & Hvs & Hvl);
    [apply Hho | apply Hho | done | done | done | | | done | apply Hs |].
  { intros old' Hsub. apply (start_active i old' s a act); try done; try apply Hho.
    - intros s' ?%Hsub. by apply Hok.
    - intros r0 ?%Hsub. auto.
    - rewrite Hl. cbn [new_lease expires_at]. lia. }
  { unfold h1. simpl. by rewrite lookup_insert_eq. }
  unfold hosting_view. rewrite (run_bind _ _ _ _ _ Hview), (run_try _ _ _ _ (ok_view _ _ _ Hs)).
  pose proof (keeps_authority_view digest e i (records_of h i ++ [LeaseIssued s; HostAccepted a; LeaseActivated act])%list h1) as Hk.
  rewrite Hview in Hk. simpl in Hk.
  exists v, h2, s, a, act, session. split; [reflexivity|]. split_and!.
  - rewrite Hvs, Hses. unfold active_state. rewrite online_now. by rewrite Hl.
  - done.
  - rewrite (sc_stored _ _ Hk). unfold h1. simpl. by rewrite lookup_insert_eq.
  - by rewrite Hl.
  - apply (sc_sessions _ _ Hk). unfold h1. simpl. rewrite lookup_insert_eq. by eexists.
  - by rewrite (sc_scopes _ _ Hk).
Qed.

(** C29: Starting to host succeeds when the services around it answer, the scopes can be
    taken and the runtime starts: it returns a view that is hosted by the owner under the
    new session, stores exactly the lease with the next epoch, its acceptance and its
    activation, and the session of the instance runs and holds its scopes. *)
Theorem start_hosts n h e input i t p x eff scopes :
  host_inv digest keys n h -> 0 <= n < u64_max -> services_ok e i t -> hostable i -> im_id i = start_instance input ->
  leases_ok i (records_of h i) -> fetched_preset e = Ok (Some p) -> expect_generation (start_generation input) i = Ok tt ->
  validate_target (OwnerDevice (start_endpoint input) (public_key_hex keys)) = Ok tt ->
  lease_expiry (now e) (start_duration input) = Ok x ->
  set_scope_holder spawner (dome_holder (start_instance input))
    (list_to_set (participation_keys (topic_of (start_context input)) (channel_of (start_context input)))) (scope_leases h)
    = Some (Ok eff, scopes) ->
  (forall s session, exists r r', start_with_budget s i p session (now e) = Ok r /\ advance_for_read (now e) r = (Ok tt, r')) ->
  exists v h' s a act session, start_owner_dome_hosting digest spawner keys e input h = (Ok v, h')
    /\ view_state v = lease_state (lease s) OwnerHosted (Some session) None (Some (now e)) /\ view_lease v = Some s
    /\ records_of h' i = [LeaseIssued s; HostAccepted a; LeaseActivated act]
    /\ epoch (lease s) = next_hosting_epoch (records_of h i)
    /\ is_Some (dome_host_sessions h' !! im_id i) /\ is_Some (holders (scope_leases h') !! dome_holder (im_id i)).
Proof.
  intros Hi Hn Hs Hho Hid Hok Hp Hg Htgt Hx Hsc Hrt.
  pose proof (take_scopes_ok spawner (start_instance input) _ h (hi_coupled _ _ _ _ Hi) (participation_keys_nonempty
    (topic_of (start_context input)) (channel_of (start_context input)))) as Htake. unfold call_wp in Htake.
  unfold start_owner_dome_hosting. unfold take_scopes in *. rewrite Hsc in Htake. destruct Htake as (_ & _ & _ & _ & Hheld).
  set (h0 := set_scopes scopes h) in *. unfold mbind at 1, call_bind at 1. rewrite Hsc. fold h0.
  destruct (start_unlocked_hosts n h0 e input i t p x) as (v & h1 & s & a & act & session & Hrun & Hvs & Hvl & Hrec & Hep & Hrunning & Hscopes);
    [apply Hi | done..|].
  exists v, h1, s, a, act, session. split_and!; [|done..|by rewrite Hscopes, Hid].
  unfold start_or_release. by rewrite Hrun.
Qed.

(** Handing a Dome to a community node takes effect at once: the call succeeds when
    the services around it answer, the view is in transfer to the node under the next
    epoch, only the new lease is stored, and this device has stopped its session and
    released its scopes. *)
Theorem prepare_fences n h e input i t x :
  host_inv digest keys n h -> 0 <= n < u64_max -> services_ok e i t -> hostable i -> leases_ok i (records_of h i) ->
  expect_generation (prepare_generation input) i = Ok tt ->
  validate_target (CommunityNode (prepare_node input) (prepare_url input)) = Ok tt ->
  lease_expiry (now e) (prepare_duration input) = Ok x ->
  exists v h' s, prepare_community_node_dome_hosting digest keys e input h = (Ok v, h')
    /\ view_state v = lease_state (lease s) Transferring None (Some "awaiting_activation") None /\ view_lease v = Some s
    /\ lease_host (lease s) = CommunityNode (prepare_node input) (prepare_url input)
    /\ records_of h' i = [LeaseIssued s] /\ epoch (lease s) = next_hosting_epoch (records_of h i)
    /\ dome_host_sessions h' !! im_id i = None /\ holders (scope_leases h') !! dome_holder (im_id i) = None.
Proof.
  intros Hi Hn Hs Hho Hok Hg Htgt Hx. unfold prepare_community_node_dome_hosting.
  rewrite (run_try _ _ _ _ (ok_context _ _ _ Hs)), (run_try _ _ _ _ (instance_found _ _ _ Hs)), (run_try _ _ _ _ Hg),
    (run_try _ _ _ _ (owner_ok _ Hho)), (run_try _ _ _ _ (ok_deleting _ _ _ Hs)), (run_list _ _ _ _ (ok_read _ _ _ Hs)).
  cbv zeta. rewrite (run_try _ _ _ _ Hx).
  destruct (issue_ok e i t n h _ x _ (hi_store _ _ _ _ Hi) Hn Hs Hho Htgt Hx) as (s & Hb & Hl & Hcount & Hlow & _). cbv zeta in Hb, Hl.
  pose proof (lease_expiry_ok _ _ _ Hx) as Hlen. rewrite (run_try _ _ _ _ Hb), (run_persist _ _ _ _ _ (ok_write _ _ _ Hs)).
  rewrite (latest_of_new (records_of h i) [LeaseIssued s] (epoch (lease s))); [|done | done | by intros r ->%list_elem_of_singleton].
  set (h1 := set_stored _ h). pose proof (stop_ok (im_id i) h1 (held_coupled_store _ h _ _ (hi_coupled _ _ _ _ Hi))) as Hstop.
  unfold call_wp in Hstop. destruct (stop_owner_dome_hosting (im_id i) h1) as [r h2] eqn:Est. simpl in Hstop. destruct Hstop as (-> & _ & Hst2 & Hse2 & Hheld).
  rewrite (run_bind _ _ _ _ _ Est), (run_try _ _ _ _ (ok_hint _ _ _ Hs)). simpl in Hst2, Hse2.
  destruct (view_without_session digest e i (records_of h i) s [] h2
    (lease_state (lease s) Transferring None (Some "awaiting_activation"))) as (v & h3 & Hview & Hvs & Hvl);
    [apply Hho | apply Hho | done | done | by intros ? ?%not_elem_of_nil | | done | by rewrite Hse2, lookup_delete_eq | apply Hs |].
  { intros old' hb Hsub. apply (fresh_waiting digest i old' s []); try apply Hho; try done.
    - intros s' ?%Hsub. by apply Hok.
    - intros r0 ?%Hsub. auto.
    - by intros r0 ?%not_elem_of_nil.
    - rewrite Hl. cbn [new_lease expires_at]. lia.
    - intros c. apply not_elem_of_nil.
    - intros a. apply not_elem_of_nil. }
  unfold hosting_view. rewrite (run_bind _ _ _ _ _ Hview), (run_try _ _ _ _ (ok_view _ _ _ Hs)).
  pose proof (keeps_authority_view digest e i (records_of h i ++ [LeaseIssued s])%list h2) as Hk. rewrite Hview in Hk. simpl in Hk.
  exists v, h3, s. split; [reflexivity|]. split_and!; [done | done | by rewrite Hl | | by rewrite Hl | |].
  - rewrite (sc_stored _ _ Hk), Hst2. by rewrite lookup_insert_eq.
  - apply eq_None_not_Some. intros Hx0%(sc_sessions _ _ Hk). rewrite Hse2, lookup_delete_eq in Hx0. by destruct Hx0.
  - rewrite (sc_scopes _ _ Hk). by apply eq_None_not_Some.
Qed.

(** A stored lease with a close of it, in any view where no session runs. *)
Lemma view_closed e i s rest c h :
  hostable i -> check_lease i s = Ok true -> now e < expires_at (lease s) ->
  (forall r, r ∈ rest -> issued_of r = None /\ record_epoch r = epoch (lease s) /\ answer_verified digest s r) ->
  LeaseClosed c ∈ rest -> verify_close digest s c = Ok tt ->
  dome_host_sessions h !! im_id i = None -> upsert_projection e = Ok tt ->
  exists v h', hosting_authority_view digest e i (LeaseIssued s :: rest) h = (Ok v, h') /\ view_state v = closed "owner_closed".
Proof.
  intros Hho Hcount Hn Hrest Hin Hvc Hses Hup.
  destruct (view_without_session digest e i [] s rest h (fun _ => closed "owner_closed")) as (v & h' & Hview & Hvs & _);
    [apply Hho | apply Hho | done | by intros ? ?%not_elem_of_nil | done | | done | done | done | by exists v, h'].
  intros old' hb Hsub. apply (fresh_closed digest i old' s rest) with (c := c); try done; try apply Hho.
  - intros s' ?%Hsub. by destruct (not_elem_of_nil (LeaseIssued s')).
  - intros r ?%Hsub. by destruct (not_elem_of_nil r).
  - intros r Hr. destruct (Hrest r Hr) as (? & _ & ?). done.
Qed.

(** The answers of a stored lease together with a close of it. *)
Lemma closed_answers n s rest c :
  tidy digest keys n (LeaseIssued s :: rest) -> verify_close digest s c = Ok tt ->
  forall r, r ∈ (rest ++ [LeaseClosed c])%list -> issued_of r = None /\ record_epoch r = epoch (lease s) /\ answer_verified digest s r.
Proof.
  intros (s0 & rest0 & [= <- <-] & _ & _ & Hrest) Hvc r [Hr| ->%list_elem_of_singleton]%elem_of_app; [by apply Hrest | by apply close_answer].
Qed.

Lemma stored_tidy n h i s rest :
  tidy_store digest keys n h -> records_of h i = LeaseIssued s :: rest -> tidy digest keys n (LeaseIssued s :: rest).
Proof.
  intros Ht Hrec. destruct (stored_records digest keys n h (hosting_state_key (im_id i)) Ht) as [Hx|Hx]; rewrite Hrec in Hx; done.
Qed.

Lemma close_unlocked_closes n h e g i t s rest :
  host_inv digest keys n h -> services_ok e i t -> hostable i ->
  records_of h i = LeaseIssued s :: rest -> check_lease i s = Ok true -> expect_generation g i = Ok tt ->
  issued_at (lease s) <= now e < expires_at (lease s) ->
  exists v h' c, close_dome_hosting_unlocked digest keys e g h = (Ok v, h') /\ verify_close digest s c = Ok tt
    /\ records_of h' i = LeaseIssued s :: (rest ++ [LeaseClosed c])%list
    /\ dome_host_sessions h' !! im_id i = None /\ holders (scope_leases h') !! dome_holder (im_id i) = None.
Proof.
  intros Hi Hs Hho Hrec Hcount Hg Hn. pose proof (stored_tidy n h i s rest (hi_store _ _ _ _ Hi) Hrec) as Htidy.
  pose proof Htidy as (s0 & rest0 & [= <- <-] & _ & Ho & Hrest).
  destruct (close_ok digest keys t s (now e)) as [c Hc]; [done | lia |]. rewrite <- (ok_clock _ _ _ Hs) in Hc.
  pose proof (closed_verifies _ _ _ _ _ _ Hc) as (Hvc & _).
  pose proof (check_lease_true i s Hcount) as [(_ & _ & _ & _ & Hgen & _)%valid_lease _].
  destruct (tidy_extend digest keys n s rest [LeaseClosed c] Htidy) as [Hlat _].
  { intros r ->%list_elem_of_singleton. by apply close_answer. }
  unfold close_dome_hosting_unlocked.
  rewrite (run_try _ _ _ _ (ok_context _ _ _ Hs)), (run_try _ _ _ _ (instance_found _ _ _ Hs)), (run_try _ _ _ _ Hg),
    (run_try _ _ _ _ (owner_ok _ Hho)), (run_list _ _ _ _ (ok_read _ _ _ Hs)), Hrec.
  rewrite (run_try _ _ _ _ (tidy_unique_lease digest s rest (fun r Hr => proj1 (Hrest r Hr)))), (run_try _ _ _ _ (eq_refl : ok_of_option _ (Some s) = Ok s)).
  rewrite (run_try _ tt) by (by rewrite Hgen, Z.eqb_refl). rewrite (run_try _ _ _ _ Hc). cbv zeta.
  rewrite (run_persist _ _ _ _ _ (ok_write _ _ _ Hs)), Hlat.
  set (h1 := set_stored _ h). pose proof (stop_ok (im_id i) h1 (held_coupled_store _ h _ _ (hi_coupled _ _ _ _ Hi))) as Hstop.
  unfold call_wp in Hstop. destruct (stop_owner_dome_hosting (im_id i) h1) as [r h2] eqn:Est. simpl in Hstop. destruct Hstop as (-> & _ & Hst2 & Hse2 & Hheld).
  rewrite (run_bind _ _ _ _ _ Est), (run_try _ _ _ _ (ok_hint _ _ _ Hs)).
  assert (Hno : dome_host_sessions h2 !! im_id i = None) by (by rewrite Hse2, lookup_delete_eq).
  destruct (view_closed e i s _ c h2 Hho Hcount (proj2 Hn) (closed_answers _ _ _ _ Htidy Hvc)) as (v & h3 & Hview & _); [set_solver | done | done | apply Hs |].
  simpl app. rewrite Hview. pose proof (keeps_authority_view digest e i (LeaseIssued s :: (rest ++ [LeaseClosed c])%list) h2) as Hk.
  rewrite Hview in Hk. simpl in Hk. exists v, h3, c. split_and!; [done | done | | |].
  - rewrite (sc_stored _ _ Hk), Hst2. unfold h1. simpl. by rewrite lookup_insert_eq.
  - apply eq_None_not_Some. rewrite (sc_sessions _ _ Hk), Hno. by intros [? ?].
  - rewrite (sc_scopes _ _ Hk). by apply eq_None_not_Some.
Qed.

(** Closing ends the hosting: when the stored lease is current and not expired, the
    close and the read after it succeed and show the Dome closed by its owner; the close
    is stored with the records of the lease, and this device has stopped its session and
    released its scopes. *)
Theorem close_ends_hosting n h e e' g i t t' s rest :
  host_inv digest keys n h -> services_ok e i t -> services_ok e' i t' -> hostable i ->
  records_of h i = LeaseIssued s :: rest -> check_lease i s = Ok true -> expect_generation g i = Ok tt ->
  issued_at (lease s) <= now e < expires_at (lease s) -> now e' < expires_at (lease s) ->
  exists v h' c, close_dome_hosting digest keys e e' g h = (Ok v, h') /\ view_state v = closed "owner_closed"
    /\ records_of h' i = LeaseIssued s :: (rest ++ [LeaseClosed c])%list
    /\ dome_host_sessions h' !! im_id i = None /\ holders (scope_leases h') !! dome_holder (im_id i) = None.
Proof.
  intros Hi Hs Hs' Hho Hrec Hcount Hg Hn Hn'.
  destruct (close_unlocked_closes n h e g i t s rest) as (v & h3 & c & Hrun & Hvc & Hrec3 & Hno3 & Hheld); [done..|].
  unfold close_dome_hosting. rewrite (run_bind _ _ _ _ _ Hrun).
  unfold get_dome_hosting. rewrite (run_try _ _ _ _ (ok_context _ _ _ Hs')), (run_try _ _ _ _ (instance_found _ _ _ Hs')),
    (run_list _ _ _ _ (ok_read _ _ _ Hs')), Hrec3.
  pose proof (closed_answers n s rest c (stored_tidy n h i s rest (hi_store _ _ _ _ Hi) Hrec) Hvc) as Hrest.
  destruct (view_closed e' i s _ c h3 Hho Hcount Hn' Hrest) as (v' & h4 & Hview & Hvs); [set_solver | done | done | apply Hs' |].
  unfold hosting_view. rewrite (run_bind _ _ _ _ _ Hview), (run_try _ _ _ _ (ok_view _ _ _ Hs')).
  pose proof (keeps_authority_view digest e' i (LeaseIssued s :: (rest ++ [LeaseClosed c])%list) h3) as Hk. rewrite Hview in Hk. simpl in Hk.
  exists v', h4, c. split; [reflexivity|]. split_and!; [done | | |].
  - by rewrite (sc_stored _ _ Hk).
  - apply eq_None_not_Some. rewrite (sc_sessions _ _ Hk), Hno3. by intros [? ?].
  - by rewrite (sc_scopes _ _ Hk).
Qed.

(** Conflicting leases have no view.  When the records hold two current leases that
    share the highest epoch and no other issued lease is above them, resolving the state
    reports a split brain but the view of the service fails, whatever the state of the
    service and the answers of the services around it. *)
Theorem split_brain_has_no_view e i records ep h :
  conflict digest i (generation_records i records) ep ->
  (forall s, LeaseIssued s ∈ generation_records i records -> epoch (lease s) <= ep) ->
  is_ok (hosting_authority_view digest e i records h).1 = false.
Proof.
  intros [(s & s' & [Hs _] & [Hs' _] & He & He' & Hd) _] Htop.
  assert (Hu : is_ok (current_unique_lease digest (generation_records i records)) = false).
  { unfold current_unique_lease. set (l := omap issued_of _).
    assert (Hl : forall s0, s0 ∈ l <-> LeaseIssued s0 ∈ generation_records i records) by (intros; apply elem_of_issued).
    pose proof (max_epoch_spec (map (fun s0 => epoch (lease s0)) l)) as Hm. destruct (max_epoch _) as [m|].
    2: { apply map_eq_nil in Hm. apply Hl in Hs. rewrite Hm in Hs. by apply not_elem_of_nil in Hs. }
    assert (m = ep) as ->.
    { destruct Hm as [(s0 & -> & Hs0%Hl)%list_elem_of_fmap Hle]. specialize (Htop _ Hs0).
      assert (ep <= epoch (lease s0)); [|lia]. rewrite <- He. apply Hle, list_elem_of_fmap. exists s. split; [done | by apply Hl]. }
    set (X := list_to_set _ : gset string). destruct (decide (size X <= 1)%nat) as [Hsz|Hsz]; [|by rewrite bool_decide_false].
    exfalso. apply Hd. assert (HX : forall s0, LeaseIssued s0 ∈ generation_records i records -> epoch (lease s0) = ep -> digest (lease s0) ∈ X).
    { intros s0 Hs0 He0. apply elem_of_list_to_set, list_elem_of_fmap. exists s0. split; [done|]. apply elem_of_filter_bool.
      split; [by apply Hl | by apply Z.eqb_eq]. }
    apply (size_singleton_inv X); [|by apply HX | by apply HX]. pose proof (HX s Hs He) as Hin.
    assert (size X <> 0%nat); [|lia]. intros Hz%size_empty_inv. set_solver. }
  unfold hosting_authority_view, mbind, call_bind, try_, modify. cbn beta zeta.
  repeat case_match; simplify_eq/=; done.
Qed.
End service_props.
