(* ===== verification/DomeHostingDemo.v ===== *)
(** * A concrete account for the hosting theorems

    Instances of the library interfaces that satisfy their laws, and the theorems about
    hosting applied to a concrete Dome.  The signatures are not secure and the hash is the
    identity; the JSON of a record is an injective encoding of its fields. *)
From S2P Require Import Prelude RustStr ScopeLeases ScopeLeasesProps Envelope DomeTransition DomeTopology DomeHosts DomeHosting DomeHostingSpec DomeHostingProps DomeHostingService DomeHostingLifecycle DomeHostingRun DomeHostingView DomeHostingServiceProps.

(** ** Encodings *)
Fixpoint bits_of (p : positive) : string :=
  match p with xI p => String "1" (bits_of p) | xO p => String "0" (bits_of p) | xH => EmptyString end.

Fixpoint of_bits (s : string) : positive :=
  match s with
  | EmptyString => xH
  | String a s => if decide (a = "1"%char) then xI (of_bits s) else xO (of_bits s)
  end.

Lemma of_bits_of p : of_bits (bits_of p) = p.
Proof. induction p as [p IH|p IH|]; simpl; [by rewrite IH.. | done]. Qed.

(** A record as the list of its fields. *)
Abbreviation field := (string + Z)%type.

Definition json_of {T} (fields : T -> list field) (parse : list field -> option T) : Json T :=
  {| to_json x := bits_of (encode (fields x)); from_json s := decode (of_bits s) ≫= parse |}.

Lemma json_of_laws {T} (fields : T -> list field) parse :
  (forall x, parse (fields x) = Some x) -> @JsonLaws T (json_of fields parse).
Proof. intros Hp. constructor. intros x. cbn. rewrite of_bits_of, decode_encode. apply Hp. Qed.

Definition context_fields (c : SpatialContext) : list field :=
  match c with CTopic t => [inl t] | CChannel t ch => [inl t; inl ch] end.
Definition host_fields (h : HostTarget) : list field :=
  match h with OwnerDevice e p => [inr 0; inl e; inl p] | CommunityNode n u => [inr 1; inl n; inl u] end.

Definition lease_fields (l : Lease) : list field :=
  (host_fields (lease_host l) ++ [inl (lease_id l); inl (lease_instance l); inr (lease_generation l); inl (lease_owner l);
     inl (lease_manifest l); inr (manifest_version l); inr (epoch l); inr (issued_at l); inr (expires_at l)]
   ++ context_fields (lease_context l))%list.

Definition parse_lease (fs : list field) : option Lease :=
  match fs with
  | inr k :: inl a :: inl b :: inl id :: inl ins :: inr g :: inl o :: inl m :: inr v :: inr ep :: inr t :: inr x :: inl topic :: rest =>
      let h := if k =? 0 then OwnerDevice a b else CommunityNode a b in
      let c := match rest with inl ch :: _ => CChannel topic ch | _ => CTopic topic end in
      Some {| lease_id := id; lease_context := c; lease_instance := ins; lease_generation := g; lease_owner := o; lease_host := h;
              lease_manifest := m; manifest_version := v; epoch := ep; issued_at := t; expires_at := x |}
  | _ => None
  end.
#[local] Instance lease_json : Json Lease := json_of lease_fields parse_lease.
#[local] Instance lease_json_laws : JsonLaws Lease.
Proof. apply json_of_laws. by intros [id [t|t ch] ins g o [a b|a b] m v ep t0 x]. Qed.

#[local] Instance acceptance_json : Json Acceptance :=
  json_of (fun a => [inl (acc_lease_id a); inl (acc_digest a); inl (acc_instance a); inr (acc_generation a); inr (acc_epoch a);
                     inl (acc_session a); inr (accepted_at a)])
    (fun fs => match fs with
               | [inl a; inl b; inl c; inr d; inr e; inl f; inr g] =>
                   Some {| acc_lease_id := a; acc_digest := b; acc_instance := c; acc_generation := d; acc_epoch := e; acc_session := f; accepted_at := g |}
               | _ => None
               end).
#[local] Instance acceptance_json_laws : JsonLaws Acceptance.
Proof. apply json_of_laws. by intros []. Qed.

#[local] Instance activation_json : Json Activation :=
  json_of (fun a => [inl (act_lease_id a); inl (act_digest a); inr (act_epoch a); inl (host_acceptance_envelope_id a); inr (activated_at a)])
    (fun fs => match fs with
               | [inl a; inl b; inr c; inl d; inr e] =>
                   Some {| act_lease_id := a; act_digest := b; act_epoch := c; host_acceptance_envelope_id := d; activated_at := e |}
               | _ => None
               end).
#[local] Instance activation_json_laws : JsonLaws Activation.
Proof. apply json_of_laws. by intros []. Qed.

#[local] Instance close_json : Json Close :=
  json_of (fun c => [inl (close_lease_id c); inl (close_digest c); inr (close_epoch c); inr (closed_at c)])
    (fun fs => match fs with
               | [inl a; inl b; inr c; inr d] => Some {| close_lease_id := a; close_digest := b; close_epoch := c; closed_at := d |}
               | _ => None
               end).
#[local] Instance close_json_laws : JsonLaws Close.
Proof. apply json_of_laws. by intros []. Qed.

#[local] Instance heartbeat_json : Json Heartbeat :=
  json_of (fun h => [inl (hb_instance_id h); inr (hb_instance_generation h); inr (hb_lease_epoch h); inl (hb_session_id h);
                     inl (host_pubkey h); inr (hb_participants h); inr (if hb_sleeping h then 1 else 0); inr (hb_sequence h); inr (sent_at h)])
    (fun fs => match fs with
               | [inl a; inr b; inr c; inl d; inl e; inr f; inr g; inr s; inr t] =>
                   Some {| hb_instance_id := a; hb_instance_generation := b; hb_lease_epoch := c; hb_session_id := d; host_pubkey := e;
                           hb_participants := f; hb_sleeping := g =? 1; hb_sequence := s; sent_at := t |}
               | _ => None
               end).
#[local] Instance heartbeat_json_laws : JsonLaws Heartbeat.
Proof. apply json_of_laws. by intros [? ? ? ? ? ? [] ? ?]. Qed.

(** ** Keys *)
#[local] Instance demo_crypto : Crypto := {|
  Keys := string; Digest := string; Signature := string; XOnlyPublicKey := string;
  public_key_hex k := ("key:" ++s k)%string;
  sign_schnorr k d := ("key:" ++s k ++s "|" ++s d)%string;
  sha256_digest s := s;
  hex_encode d := ("h" ++s d)%string;
  signature_from_str s := Some s;
  public_key_from_str s := Some s;
  schnorr_verify s d p := bool_decide (s = p ++s "|" ++s d)%string;
  canonical_json p t k ts c := (p ++s k ++s c)%string
|}.
#[local] Instance demo_crypto_laws : CryptoLaws.
Proof.
  constructor. intros k d. exists ("key:" ++s k ++s "|" ++s d)%string, ("key:" ++s k)%string. split_and!; [done | done |].
  apply bool_decide_eq_true. cbn. done.
Qed.
#[local] Instance demo_hex_laws : HexLaws.
Proof. constructor. intros d. apply not_blank. by_vm. Qed.

Definition owner_keys : Keys := "owner".

Definition demo_digest (l : Lease) : string := (lease_id l ++s ":" ++s signing_pubkey (lease_host l))%string.

(** ** A Dome *)
Definition demo_preset : PresetRef :=
  {| preset_id := "preset"; preset_owner := "key:owner"; preset_revision := 2; manifest_blob_hash := "blob"; manifest_mime := "json" |}.
Definition demo_instance : InstanceManifest :=
  {| im_id := "dome"; im_context := CTopic "plaza"; im_owner := "key:owner"; im_preset := demo_preset; im_title := "Plaza";
     im_max_peers := None; im_generation := 1; im_status := InstanceActive; im_detach := None |}.

Definition demo_lease_of (ep : Z) (h : HostTarget) : Lease :=
  {| lease_id := "lease"; lease_context := CTopic "plaza"; lease_instance := "dome"; lease_generation := 1; lease_owner := "key:owner";
     lease_host := h; lease_manifest := "blob"; manifest_version := 2; epoch := ep; issued_at := 100; expires_at := 1000 |}.

Definition device : HostTarget := OwnerDevice "endpoint" "key:owner".
Definition node : HostTarget := CommunityNode "key:node" "https://node.example".

(** Signing that is known to succeed. *)
Definition made {A} (r : outcome A) (a : A) : A := match r with Ok x => x | Err _ => a end.
Definition blank_envelope : KukuriEnvelope :=
  {| env_id := ""; pubkey := ""; created_at := 0; env_kind := ""; tags := []; content := ""; sig := "" |}.

Definition demo_signed (ep : Z) (h : HostTarget) : SignedLease :=
  made (build_signed_dome_hosting_lease (Some 7) owner_keys (demo_lease_of ep h)) {| lease := demo_lease_of ep h; lease_envelope := blank_envelope |}.
Definition no_acceptance : SignedAcceptance :=
  {| acceptance := {| acc_lease_id := ""; acc_digest := ""; acc_instance := ""; acc_generation := 0; acc_epoch := 0; acc_session := ""; accepted_at := 0 |};
     acceptance_envelope := blank_envelope |}.
Definition demo_acceptance (ep : Z) : SignedAcceptance :=
  made (accept_dome_hosting_lease demo_digest (Some 7) owner_keys (demo_signed ep device) "session" 110) no_acceptance.
Definition no_activation : SignedActivation :=
  {| activation := {| act_lease_id := ""; act_digest := ""; act_epoch := 0; host_acceptance_envelope_id := ""; activated_at := 0 |};
     activation_envelope := blank_envelope |}.
Definition demo_activation (ep : Z) : SignedActivation :=
  made (activate_dome_hosting_lease demo_digest (Some 7) owner_keys (demo_signed ep device) (demo_acceptance ep) 120) no_activation.
Definition no_close : SignedClose :=
  {| close := {| close_lease_id := ""; close_digest := ""; close_epoch := 0; closed_at := 0 |}; close_envelope := blank_envelope |}.
Definition demo_close (ep : Z) : SignedClose :=
  made (close_dome_hosting_lease demo_digest (Some 7) owner_keys (demo_signed ep device) 130) no_close.

Definition demo_records : list HostingRecord :=
  [LeaseIssued (demo_signed 3 device); HostAccepted (demo_acceptance 3); LeaseActivated (demo_activation 3)].

Example demo_resolves : resolve_dome_hosting_state demo_digest demo_instance demo_records 200 (Some 199)
  = Ok (lease_state (demo_lease_of 3 device) OwnerHosted (Some "session") None (Some 199)).
Proof. by_vm. Qed.

(** ** The theorems at this Dome *)
#[local] Opaque demo_signed demo_acceptance demo_activation demo_close.

Lemma single_collision_free digest s a act : collision_free digest [LeaseIssued s; HostAccepted a; LeaseActivated act].
Proof.
  constructor.
  - intros s1 s2 Hs1 Hs2. rewrite !elem_of_cons, elem_of_nil in Hs1, Hs2.
    destruct Hs1 as [[= ->]|[|[|[]]]], Hs2 as [[= ->]|[|[|[]]]]; done.
  - intros a1 a2 Ha1 Ha2. rewrite !elem_of_cons, elem_of_nil in Ha1, Ha2.
    destruct Ha1 as [|[[= ->]|[|[]]]], Ha2 as [|[[= ->]|[|[]]]]; done.
Qed.

Lemma single_leases_ok i s a act : is_ok (check_lease i s) = true -> leases_ok i [LeaseIssued s; HostAccepted a; LeaseActivated act].
Proof. intros Hok s1 Hs1. rewrite !elem_of_cons, elem_of_nil in Hs1. by destruct Hs1 as [[= ->]|[|[|[]]]]. Qed.

Definition demo_collision_free : collision_free demo_digest demo_records := single_collision_free _ _ _ _.

Definition demo_hosted : HostingState := lease_state (demo_lease_of 3 device) OwnerHosted (Some "session") None (Some 199).

Lemma hosting_resolves_witness : hosting_spec demo_digest demo_instance demo_records 200 (Some 199) demo_hosted.
Proof.
  destruct (proj1 (hosting_resolves demo_digest demo_instance demo_records 200 (Some 199) demo_hosted demo_collision_free)) as (_ & _ & Hs);
    [by_vm | exact Hs].
Defined.

Lemma hosting_order_irrelevant_witness :
  resolve_dome_hosting_state demo_digest demo_instance (rev demo_records ++ demo_records)%list 200 (Some 199) = Ok demo_hosted.
Proof.
  apply (proj1 (hosting_order_irrelevant demo_digest demo_instance demo_records (rev demo_records ++ demo_records)%list 200 (Some 199) demo_hosted
    demo_collision_free ltac:(intros r; rewrite elem_of_app, !list_elem_of_In, <- in_rev; tauto))). by_vm.
Defined.

Lemma session_is_authorised_witness :
  exists s, LeaseIssued s ∈ demo_records /\ authentic (lease_envelope s) LEASE_KIND (im_owner demo_instance) (lease s).
Proof.
  destruct (session_is_authorised demo_digest demo_instance demo_records 200 (Some 199) demo_hosted "session") as (s & a & act & (Hin & _) & Hau & _);
    [by_vm | reflexivity | exists s; by split].
Defined.

Definition demo_reopened : list HostingRecord :=
  (demo_records ++ [LeaseClosed (demo_close 3); LeaseIssued (demo_signed 4 node)])%list.

Lemma demo_current_3 : current demo_instance demo_reopened (demo_signed 3 device).
Proof. split; [apply list_elem_of_here | by_vm]. Qed.

Lemma close_is_final_witness : exists s', current demo_instance demo_reopened s' /\ 3 < epoch (lease s').
Proof.
  destruct (close_is_final demo_digest demo_instance demo_reopened 200 (Some 199)
    (lease_state (demo_lease_of 4 node) Transferring None (Some "awaiting_activation") (Some 199)) (demo_signed 3 device) (demo_close 3))
    as [Hx|(s' & Hc & He & _)]; [by_vm | apply demo_current_3 | unfold demo_reopened; apply elem_of_app; right; apply list_elem_of_here | by_vm | discriminate Hx | by exists s'].
Defined.

Lemma lease_length_bounded_witness : 0 < 1000 - 100 <= DOME_HOSTING_MAX_LEASE_MILLIS.
Proof.
  apply (lease_length_bounded demo_instance (demo_lease_of 3 device)); [vm_compute; split; discriminate | vm_compute; discriminate | by_vm].
Defined.

(** A lease whose times are at the two ends of [i64] passes validation: the difference
    wraps to -1 in a release build.  Such a lease never expires. *)
Theorem lease_length_wraps :
  let l := {| lease_id := "lease"; lease_context := CTopic "plaza"; lease_instance := "dome"; lease_generation := 1;
              lease_owner := "key:owner"; lease_host := device; lease_manifest := "blob"; manifest_version := 2; epoch := 1;
              issued_at := i64_min; expires_at := i64_max |} in
  validate_dome_hosting_lease l demo_instance = Ok tt /\ DOME_HOSTING_MAX_LEASE_MILLIS < expires_at l - issued_at l.
Proof. split; [by_vm | vm_compute; reflexivity]. Qed.

Lemma lease_lifecycle_witness :
  resolve_dome_hosting_state demo_digest demo_instance (demo_records ++ [LeaseIssued (demo_signed 4 device)])%list 200 (Some 199)
  = Ok (lease_state (demo_lease_of 4 device) Transferring None (Some "awaiting_activation") (Some 199)).
Proof.
  destruct (lease_lifecycle demo_digest demo_instance (Some 7) owner_keys owner_keys demo_records (demo_lease_of 4 device)
    (demo_signed 4 device) "session" 110 (demo_acceptance 4) 120 (demo_activation 4) 130 (demo_close 4) 200 (Some 199)) as (Hw & _);
    [by_vm | | | by_vm | reflexivity | by_vm | by_vm | by_vm | by_vm | exact Hw].
  - apply single_leases_ok. by_vm.
  - intros r Hr. apply (Forall_forall (fun r => record_epoch r < 4) demo_records); [|done]. repeat constructor; vm_compute; reflexivity.
Defined.

(** ** The service of the account *)
#[local] Instance demo_runtime : HostRuntime := {|
  Preset := unit; Runtime := Z;
  start_with_budget _ _ _ _ at_ := Ok at_;
  advance_for_read at_ r := (Ok tt, Z.max at_ r);
  participant_count _ := 0;
  is_sleeping _ := true
|}.

Definition demo_env (at_ : Z) : CallEnv :=
  {| now := at_; clock := Some 7; context_replica := Ok tt; found_instance := Ok (Some demo_instance); not_deleting := Ok tt;
     fetched_preset := Ok (Some tt); read_records := Ok tt; write_records := Ok tt; locator_replica := Ok tt; publish_hint := Ok tt;
     upsert_projection := Ok tt; view_preset := Ok tt |}.

Definition demo_start : StartInput :=
  {| start_context := CTopic "plaza"; start_instance := "dome"; start_generation := Some 1; start_endpoint := "endpoint"; start_duration := 0 |}.
Definition demo_prepare : PrepareInput :=
  {| prepare_context := CTopic "plaza"; prepare_instance := "dome"; prepare_generation := None; prepare_node := "key:node"; prepare_url := "https://node.example"; prepare_duration := 1000 |}.

Lemma demo_services at_ : services_ok (demo_env at_) demo_instance 7.
Proof. by constructor. Qed.

Lemma demo_hostable : hostable owner_keys demo_instance.
Proof. constructor; by_vm. Qed.

Lemma demo_fits at_ : fits (demo_env at_) "dome".
Proof. intros i [= <-]. done. Qed.

Lemma hosting_service_invariant_witness :
  host_inv demo_digest owner_keys 2 (run_host demo_digest demo_spawner owner_keys [CStart (demo_env 100) demo_start; CPrepare (demo_env 200) demo_prepare]).
Proof.
  apply (hosting_service_invariant demo_digest demo_spawner owner_keys [CStart (demo_env 100) demo_start; CPrepare (demo_env 200) demo_prepare]);
    [vm_compute; discriminate | repeat constructor; apply demo_fits].
Defined.

Definition demo_scopes : result ScopeLimitReached (list Effect) * ScopeLeases :=
  default (Err ScopeLimit, empty_leases)
    (set_scope_holder demo_spawner (dome_holder "dome") (list_to_set (participation_keys "plaza" None)) empty_leases).

Lemma start_hosts_witness :
  exists v h', start_owner_dome_hosting demo_digest demo_spawner owner_keys (demo_env 100) demo_start initial_host = (Ok v, h')
    /\ state_kind (view_state v) = OwnerHosted.
Proof.
  destruct (start_hosts demo_digest demo_spawner owner_keys 0 initial_host (demo_env 100) demo_start demo_instance 7 tt (100 + DEFAULT_LEASE_MILLIS)
    (match demo_scopes.1 with Ok eff => eff | Err _ => [] end) demo_scopes.2) as (v & h' & s & a & act & session & Hrun & Hvs & _);
    [apply initial_inv | vm_compute; split; discriminate || reflexivity | apply demo_services | apply demo_hostable | reflexivity
    | by intros s ?%not_elem_of_nil | reflexivity | by_vm | by_vm | by_vm | by_vm | intros; do 2 eexists; split; reflexivity |].
  exists v, h'. split; [exact Hrun|]. by rewrite Hvs.
Defined.

Lemma prepare_fences_witness :
  exists v h', prepare_community_node_dome_hosting demo_digest owner_keys (demo_env 100) demo_prepare initial_host = (Ok v, h')
    /\ state_kind (view_state v) = Transferring.
Proof.
  destruct (prepare_fences demo_digest owner_keys 0 initial_host (demo_env 100) demo_prepare demo_instance 7 1100)
    as (v & h' & s & Hrun & Hvs & _);
    [apply initial_inv | vm_compute; split; discriminate || reflexivity | apply demo_services | apply demo_hostable
    | by intros s ?%not_elem_of_nil | by_vm | by_vm | by_vm |].
  exists v, h'. split; [exact Hrun|]. by rewrite Hvs.
Defined.

(** The account after it has started to host. *)
Definition demo_host : Host := (start_owner_dome_hosting demo_digest demo_spawner owner_keys (demo_env 100) demo_start initial_host).2.
Definition demo_stored : list HostingRecord := default [] (stored demo_host !! hosting_state_key "dome").
Definition demo_lease : SignedLease := match demo_stored with LeaseIssued s :: _ => s | _ => demo_signed 1 device end.

Lemma demo_host_inv : host_inv demo_digest owner_keys 1 demo_host.
Proof. apply (start_keeps demo_digest demo_spawner owner_keys 0); [vm_compute; split; discriminate || reflexivity | apply demo_fits | apply initial_inv]. Qed.

Lemma close_ends_hosting_witness :
  exists v h', close_dome_hosting demo_digest owner_keys (demo_env 200) (demo_env 210) None demo_host = (Ok v, h')
    /\ view_state v = closed "owner_closed".
Proof.
  destruct (close_ends_hosting demo_digest owner_keys 1 demo_host (demo_env 200) (demo_env 210) None demo_instance 7 7 demo_lease (tail demo_stored))
    as (v & h' & c & Hrun & Hvs & _);
    [apply demo_host_inv | apply demo_services | apply demo_services | apply demo_hostable | by_vm | by_vm | by_vm
    | vm_compute; split; discriminate || reflexivity | vm_compute; reflexivity |].
  exists v, h'. by split.
Defined.

(** Two leases of one epoch. *)
Definition demo_conflict : list HostingRecord := [LeaseIssued (demo_signed 3 device); LeaseIssued (demo_signed 3 node)].

Lemma pair_conflict i digest s s' ep :
  check_lease i s = Ok true -> check_lease i s' = Ok true -> epoch (lease s) = ep -> epoch (lease s') = ep -> digest (lease s) <> digest (lease s') ->
  conflict digest i [LeaseIssued s; LeaseIssued s'] ep /\ (forall s0, LeaseIssued s0 ∈ [LeaseIssued s; LeaseIssued s'] -> epoch (lease s0) <= ep).
Proof.
  intros Hc Hc' He He' Hd.
  assert (Hle : forall s0, LeaseIssued s0 ∈ [LeaseIssued s; LeaseIssued s'] -> epoch (lease s0) <= ep).
  { intros s0 Hs0. rewrite !elem_of_cons, elem_of_nil in Hs0. destruct Hs0 as [[= ->]|[[= ->]|[]]]; lia. }
  split; [|done]. split; [|intros s0 [Hs0 _]; by apply Hle]. exists s, s'. unfold current.
  split_and!; [apply list_elem_of_here | done | apply list_elem_of_further, list_elem_of_here | done | done | done | done].
Qed.

Lemma split_brain_has_no_view_witness :
  resolve_dome_hosting_state demo_digest demo_instance demo_conflict 200 (Some 200) = Ok (split_brain 3 (Some 200))
  /\ is_ok (hosting_authority_view demo_digest (demo_env 200) demo_instance demo_conflict initial_host).1 = false.
Proof.
  split; [by_vm|].
  destruct (pair_conflict demo_instance demo_digest (demo_signed 3 device) (demo_signed 3 node) 3) as [Hc Hle];
    [by_vm | by_vm | by_vm | by_vm | vm_compute; discriminate |].
  assert (Hg : generation_records demo_instance demo_conflict = demo_conflict) by by_vm.
  apply (split_brain_has_no_view demo_digest (demo_env 200) demo_instance demo_conflict 3 initial_host); rewrite Hg; [exact Hc | exact Hle].
Defined.
