(* ===== verification/AccountSyncItem.v ===== *)
(** * Items of the account sync (crates/core/src/account_sync.rs)

    The devices of one account share items: the profile, settings, follow edges and the
    membership, keys and controller of private channels.  An item is filed in a private
    replica under a textual key and sealed with a key derived from the account's secret;
    account and item key are bound to the ciphertext.  [hex], [blake3], the AEAD cipher,
    Schnorr keys and JSON are library code, the classes below. *)
From S2P Require Import Prelude RustStr Envelope Replicas.

Definition MAX_ACCOUNT_SYNC_ITEM_BYTES : Z := 16 * 1024.
Definition MAX_SEALED_ACCOUNT_SYNC_ITEM_BYTES : Z := 2 * MAX_ACCOUNT_SYNC_ITEM_BYTES + 256.
Definition MAX_ITEM_ID_BYTES : Z := 256.
Definition ACCOUNT_SYNC_CHANGE_WINDOW : Z := 256.

Definition ID_CONTEXT : string := "kukuri.app 2026-10-01 account sync id v1".
Definition NAMESPACE_CONTEXT : string := "kukuri.app 2026-10-01 account sync namespace v1".
Definition PAYLOAD_CONTEXT : string := "kukuri.app 2026-10-01 account sync payload v1".
Definition RENDEZVOUS_CONTEXT : string := "kukuri.app 2026-10-01 account sync rendezvous v1".
Definition PAIRING_CONTEXT : string := "kukuri.app 2026-10-07 account sync pairing v1".
Definition ITEM_AAD_DOMAIN : string := "kukuri account sync item v1" ++s String zero "".
Definition PAIRING_DOMAIN : string := "kukuri account union sync hello v1" ++s String zero "".

(** ** Libraries *)

(** [serde_json::Value], with [to_string] and [from_str]. *)
Class JsonValue := {
  Value : Type;
  Value_eq_dec :: EqDecision Value;
  value_to_string : Value -> string;
  value_from_str : string -> option Value
}.
Class JsonValueLaws `{JsonValue} := { value_from_to_string v : value_from_str (value_to_string v) = Some v }.

(** [serde_json::to_value] and [from_value]. *)
Class Serde `{JsonValue} (T : Type) := { to_value : T -> Value; from_value : Value -> option T }.
Class SerdeLaws `{JsonValue} (T : Type) `{!Serde T} := { from_to_value (x : T) : from_value (to_value x) = Some x }.

(** [blake3::derive_key(context, material)] *)
Class Blake3Kdf := { blake3_derive_key : string -> string -> string }.

(** XChaCha20-Poly1305: key, nonce, associated data and message or ciphertext. *)
Class Aead := {
  aead_encrypt : string -> string -> string -> string -> option string;
  aead_decrypt : string -> string -> string -> string -> option string
}.

(** What is decrypted is what was encrypted under the same key, nonce and associated data,
    and the tag adds 16 bytes. *)
Class AeadLaws `{Aead} := {
  aead_decrypt_spec key nonce aad c p :
    aead_decrypt key nonce aad c = Some p <-> aead_encrypt key nonce aad p = Some c;
  aead_encrypt_length key nonce aad p c :
    aead_encrypt key nonce aad p = Some c -> String.length c = (String.length p + 16)%nat
}.

(** An x-only public key is written as 64 hexadecimal digits. *)
Definition is_ascii_hexdigit (a : ascii) : bool := is_lower_hex a || byte_in 65 70 a.
Class PubkeyLaws `{Crypto} := {
  pubkey_hex s p : public_key_from_str s = Some p ->
    String.length s = 64%nat /\ str_all is_ascii_hexdigit s = true
}.

(** ** Keys of items *)
Inductive AccountSyncItemKey :=
| Profile
| TrustAlwaysVisible (author : string)
| ChannelCapability (channel_id epoch_id : string)
| ChannelMembership (channel_id : string)
| ChannelController (channel_id : string)
| ChannelRotationRequest (channel_id : string)
| ChannelControllerRequest (channel_id : string)
| ChannelParticipant (channel_id participant : string)
| ParticipantFollow (subject target : string)
| OwnFollow (target : string)
| OwnBlock (target : string)
| FollowerEdge (subject : string)
| ChangeSlot (device_id : string) (slot : Z)
| ChangeHead (device_id : string).
#[export] Instance AccountSyncItemKey_eq_dec : EqDecision AccountSyncItemKey.
Proof. solve_decision. Defined.

Definition is_ascii_alphanumeric (a : ascii) : bool := is_ascii_digit a || byte_in 65 90 a || byte_in 97 122 a.

Definition validate_device_id (d : string) : result string unit :=
  ensure (negb (str_is_empty d) && (str_len d <=? MAX_ITEM_ID_BYTES)
          && str_all (fun b => is_ascii_alphanumeric b || bool_decide (b = "-"%char) || bool_decide (b = "_"%char)) d)
    "account sync device id must be alphanumeric".

Definition validate_id (v : string) : result string unit :=
  ensure (negb (str_is_empty v) && (str_len v <=? MAX_ITEM_ID_BYTES)) "account sync item id must contain 1..=256 bytes".

(** [seq % WINDOW] fits [u16], so [try_from] never fails. *)
Definition change_slot (device_id : string) (seq : Z) : AccountSyncItemKey :=
  ChangeSlot device_id (seq mod ACCOUNT_SYNC_CHANGE_WINDOW).

Section keys.
Context `{HexCrate} {crypto : Crypto}.

Definition validate_pubkey (v : string) : result string unit :=
  _ ← ok_of_option "invalid x-only public key" (public_key_from_str v); mret tt.

Definition docs_key (k : AccountSyncItemKey) : string :=
  match k with
  | Profile => "profile"
  | TrustAlwaysVisible author => "trust/always-visible/" ++s author
  | ChannelCapability c e => "channel/" ++s hex_encode c ++s "/epoch/" ++s hex_encode e
  | ChannelMembership c => "channel/" ++s hex_encode c ++s "/membership"
  | ChannelController c => "channel/" ++s hex_encode c ++s "/controller"
  | ChannelRotationRequest c => "channel/" ++s hex_encode c ++s "/rotation"
  | ChannelControllerRequest c => "channel/" ++s hex_encode c ++s "/controller-request"
  | ChannelParticipant c p => "channel/" ++s hex_encode c ++s "/participant/" ++s p
  | ParticipantFollow s t => "follow/" ++s s ++s "/" ++s t
  | OwnFollow t => "graph/follows/" ++s t
  | OwnBlock t => "graph/blocks/" ++s t
  | FollowerEdge s => "graph/followers/" ++s s
  | ChangeSlot d slot => "changes/" ++s d ++s "/" ++s dec_padded 3 slot
  | ChangeHead d => "changes/" ++s d ++s "/head"
  end.

Definition validate_key (k : AccountSyncItemKey) : result string unit :=
  match k with
  | Profile => Ok tt
  | TrustAlwaysVisible author => validate_pubkey author
  | ChannelCapability c e => _ ← validate_id c; validate_id e
  | ChannelMembership c | ChannelController c | ChannelRotationRequest c | ChannelControllerRequest c => validate_id c
  | ChannelParticipant c p => _ ← validate_id c; validate_pubkey p
  | ParticipantFollow s t => _ ← validate_pubkey s; validate_pubkey t
  | OwnFollow k | OwnBlock k | FollowerEdge k => validate_pubkey k
  | ChangeSlot d slot =>
      _ ← ensure (slot <? ACCOUNT_SYNC_CHANGE_WINDOW) "account sync change slot is outside the window";
      validate_device_id d
  | ChangeHead d => validate_device_id d
  end.

(** [String::from_utf8(hex::decode(value)?)] *)
Definition text (v : string) : result string string :=
  b ← ok_of_option "invalid hex" (hex_decode v);
  if valid_utf8 b then Ok b else Err "account sync item id is not UTF-8".

(** The item part of a key below [channel/<channel>/]. *)
Definition channel_item (channel_id item : string) : result string AccountSyncItemKey :=
  match split_once "/" item with
  | Some (kind, rest) =>
      if decide (kind = "epoch") then e ← text rest; mret (ChannelCapability channel_id e)
      else if decide (kind = "participant") then Ok (ChannelParticipant channel_id rest)
      else Err "unknown channel item"
  | None =>
      if decide (item = "membership") then Ok (ChannelMembership channel_id)
      else if decide (item = "controller") then Ok (ChannelController channel_id)
      else if decide (item = "rotation") then Ok (ChannelRotationRequest channel_id)
      else if decide (item = "controller-request") then Ok (ChannelControllerRequest channel_id)
      else Err "unknown channel item"
  end.

(** The key before validation. *)
Definition read_docs_key (k : string) : result string AccountSyncItemKey :=
  if decide (k = "profile") then Ok Profile
  else match strip_prefix "trust/always-visible/" k with
  | Some author => Ok (TrustAlwaysVisible author)
  | None =>
  match strip_prefix "channel/" k with
  | Some rest =>
      '(channel, item) ← ok_of_option "missing channel item" (split_once "/" rest);
      channel_id ← text channel;
      channel_item channel_id item
  | None =>
  match strip_prefix "graph/follows/" k with
  | Some t => Ok (OwnFollow t)
  | None =>
  match strip_prefix "graph/blocks/" k with
  | Some t => Ok (OwnBlock t)
  | None =>
  match strip_prefix "graph/followers/" k with
  | Some s => Ok (FollowerEdge s)
  | None =>
  match strip_prefix "follow/" k with
  | Some rest =>
      '(s, t) ← ok_of_option "missing follow target" (split_once "/" rest);
      mret (ParticipantFollow s t)
  | None => Err "unknown account sync item key"
  end end end end end end.

Definition from_docs_key (k : string) : result string AccountSyncItemKey :=
  key ← read_docs_key k;
  _ ← validate_key key;
  _ ← ensure (bool_decide (docs_key key = k)) "account sync item key is not canonical";
  mret key.
End keys.

(** ** Follow and block edges (crates/core/src/profile.rs) *)
Inductive EdgeStatus := EdgeActive | EdgeRevoked.
#[export] Instance EdgeStatus_eq_dec : EqDecision EdgeStatus.
Proof. solve_decision. Defined.

(** [KukuriFollowEdgeEnvelopeContentV1] and [KukuriBlockEdgeEnvelopeContentV1] have the same
    fields, and so do [FollowEdge] and [BlockEdge]; the tag tells their JSON apart. *)
Inductive EdgeTag := FollowTag | BlockTag.
Record EdgeContent (tag : EdgeTag) := { ec_subject : string; ec_target : string; ec_status : EdgeStatus }.
Arguments ec_subject {tag}. Arguments ec_target {tag}. Arguments ec_status {tag}.

Record Edge := { edge_subject : string; edge_target : string; edge_status : EdgeStatus; edge_updated_at : Z; edge_envelope_id : string }.

Section edges.
Context {crypto : Crypto} `{Json (EdgeContent FollowTag)} `{Json (EdgeContent BlockTag)}.

Definition parse_edge_content {tag} (content : EdgeContent tag) (e : KukuriEnvelope) (what : string)
    : result string (option Edge) :=
  _ ← validate_pubkey (ec_subject content);
  _ ← validate_pubkey (ec_target content);
  if negb (bool_decide (ec_subject content = pubkey e)) then Err (what ++s " subject pubkey must match envelope signer")
  else if bool_decide (ec_subject content = ec_target content) then Err ("self " ++s what ++s " is not allowed")
  else Ok (Some {| edge_subject := ec_subject content; edge_target := ec_target content; edge_status := ec_status content;
                   edge_updated_at := created_at e; edge_envelope_id := env_id e |}).

Definition parse_follow_edge (e : KukuriEnvelope) : result string (option Edge) :=
  if negb (bool_decide (env_kind e = "follow-edge")) then Ok None
  else c ← ok_of_option "failed to parse follow edge envelope" (from_json (T := EdgeContent FollowTag) (content e));
       parse_edge_content c e "follow".

Definition parse_block_edge (e : KukuriEnvelope) : result string (option Edge) :=
  if negb (bool_decide (env_kind e = "block-edge")) then Ok None
  else c ← ok_of_option "failed to parse block edge envelope" (from_json (T := EdgeContent BlockTag) (content e));
       parse_edge_content c e "block".
End edges.

(** ** Items *)

Record ChannelParticipantV1 := { cp_epoch_id : string; cp_joined_at : Z; cp_left_at : option Z }.
Record AccountSyncChangeV1 := { ch_seq : Z; ch_docs_key : string }.
Record SealedAccountSyncItem := { sealed_v : Z; nonce_hex : string; ciphertext_hex : string }.

Section items.
Context `{HexCrate} {crypto : Crypto} {json_value : JsonValue}.

Record AccountSyncItem := { key : AccountSyncItemKey; op_id : string; updated_at : Z; value : option Value }.
#[export] Instance AccountSyncItem_eq_dec : EqDecision AccountSyncItem.
Proof. solve_decision. Defined.

Definition validate_item (i : AccountSyncItem) : result string unit :=
  _ ← validate_key (key i);
  _ ← ensure ((str_len (op_id i) =? 32) && str_all is_ascii_hexdigit (op_id i)) "account sync op id must be 32 hex digits";
  ensure (0 <=? updated_at i) "account sync edit time must not be negative".

Definition validated (i : AccountSyncItem) : result string AccountSyncItem := _ ← validate_item i; mret i.

(** [edit]: [random] are the 16 bytes drawn for the operation. *)
Definition edit (random : string) (k : AccountSyncItemKey) (at_ : Z) (v : option Value) : AccountSyncItem :=
  {| key := k; op_id := hex_encode random; updated_at := at_; value := v |}.

Context `{!Serde KukuriEnvelope} `{!Serde ChannelParticipantV1} `{!Serde EdgeStatus} `{!Json ChannelParticipantV1}.
Context `{Blake3Crate} `{Json (EdgeContent FollowTag)} `{Json (EdgeContent BlockTag)}.

Definition profile (e : KukuriEnvelope) : result string AccountSyncItem :=
  op ← ok_of_option "profile envelope id is too short" (str_get_to 32 (env_id e));
  validated {| key := Profile; op_id := op; updated_at := created_at e; value := Some (to_value e) |}.

(** [blake3::hash(&seed).to_hex()[..32]] *)
Definition seeded_op_id (seed : string) : string := String.substring 0 32 (hex_encode (blake3_hash seed)).

Definition channel_epoch (channel_id epoch_id : string) (at_ : Z) (v : Value) : result string AccountSyncItem :=
  let seed := ("kukuri channel epoch item v1" ++s String zero "") ++s channel_id ++s String zero "" ++s epoch_id in
  validated {| key := ChannelCapability channel_id epoch_id; op_id := seeded_op_id seed; updated_at := at_; value := Some v |}.

Definition channel_participant (channel_id participant : string) (v : ChannelParticipantV1) : result string AccountSyncItem :=
  let encoded := to_json v in
  let seed := ("kukuri channel participant item v1" ++s String zero "") ++s channel_id ++s String zero ""
              ++s participant ++s String zero "" ++s encoded in
  v' ← ok_of_option "invalid JSON" (value_from_str encoded);
  validated {| key := ChannelParticipant channel_id participant; op_id := seeded_op_id seed;
               updated_at := default (cp_joined_at v) (cp_left_at v); value := Some v' |}.

Definition participant_follow (e : Edge) : result string AccountSyncItem :=
  op ← ok_of_option "follow envelope id is too short" (str_get_to 32 (edge_envelope_id e));
  validated {| key := ParticipantFollow (edge_subject e) (edge_target e); op_id := op; updated_at := edge_updated_at e;
               value := Some (to_value (edge_status e)) |}.

(** The key and the time of an edge that touches the account. *)
Definition edge_key (account : string) (e : KukuriEnvelope) : result string (AccountSyncItemKey * Z) :=
  follow ← parse_follow_edge e;
  match follow with
  | Some f =>
      if bool_decide (edge_subject f = account) then Ok (OwnFollow (edge_target f), edge_updated_at f)
      else _ ← ensure (bool_decide (edge_target f = account)) "the follow edge does not touch the account";
           mret (FollowerEdge (edge_subject f), edge_updated_at f)
  | None =>
      block ← parse_block_edge e;
      match block with
      | Some b =>
          _ ← ensure (bool_decide (edge_subject b = account)) "the block edge is not the account's";
          mret (OwnBlock (edge_target b), edge_updated_at b)
      | None => Err "not a follow or block edge envelope"
      end
  end.

Definition edge (account : string) (e : KukuriEnvelope) : result string AccountSyncItem :=
  '(k, at_) ← edge_key account e;
  op ← ok_of_option "edge envelope id is too short" (str_get_to 32 (env_id e));
  validated {| key := k; op_id := op; updated_at := at_; value := Some (to_value e) |}.

(** ** Sealing *)
Record AccountSyncKeys := {
  sync_replica_id : string;
  hint_topic : string;
  namespace_secret : string;
  payload_key : string;
  pairing_key : string
}.

Context `{Blake3Kdf} `{Aead} `{Json AccountSyncItem}.

(** [KukuriKeys::derive_account_sync], from the secret bytes of the account. *)
Definition derive_account_sync (secret : string) : AccountSyncKeys :=
  let id := blake3_derive_key ID_CONTEXT secret in
  let rendezvous := blake3_derive_key RENDEZVOUS_CONTEXT secret in
  {| sync_replica_id := ACCOUNT_SYNC_REPLICA_PREFIX ++s hex_encode id;
     hint_topic := ACCOUNT_SYNC_TOPIC_PREFIX ++s hex_encode rendezvous;
     namespace_secret := blake3_derive_key NAMESPACE_CONTEXT secret;
     payload_key := blake3_derive_key PAYLOAD_CONTEXT secret;
     pairing_key := blake3_derive_key PAIRING_CONTEXT secret |}.

Definition item_aad (account docs_key : string) : string :=
  ITEM_AAD_DOMAIN ++s account ++s String zero "" ++s docs_key.

(** [nonce] are the 24 bytes drawn for the item. *)
Definition seal (ks : AccountSyncKeys) (nonce account : string) (i : AccountSyncItem) : result string SealedAccountSyncItem :=
  _ ← validate_item i;
  let plaintext := to_json i in
  _ ← ensure (str_len plaintext <=? MAX_ACCOUNT_SYNC_ITEM_BYTES) "account sync item exceeds 16384 bytes";
  ciphertext ← ok_of_option "failed to seal account sync item"
    (aead_encrypt (payload_key ks) nonce (item_aad account (docs_key (key i))) plaintext);
  mret {| sealed_v := 1; nonce_hex := hex_encode nonce; ciphertext_hex := hex_encode ciphertext |}.

Definition open (ks : AccountSyncKeys) (account k : string) (s : SealedAccountSyncItem) : result string AccountSyncItem :=
  _ ← ensure (sealed_v s =? 1) "unsupported account sync item version";
  _ ← ensure (str_len (nonce_hex s) + str_len (ciphertext_hex s) <=? MAX_SEALED_ACCOUNT_SYNC_ITEM_BYTES)
        "sealed account sync item is too large";
  nonce ← ok_of_option "invalid hex" (hex_decode (nonce_hex s));
  _ ← ensure (str_len nonce =? 24) "invalid account sync nonce";
  ciphertext ← ok_of_option "invalid hex" (hex_decode (ciphertext_hex s));
  plaintext ← ok_of_option "account sync item failed authentication"
    (aead_decrypt (payload_key ks) nonce (item_aad account k) ciphertext);
  _ ← ensure (str_len plaintext <=? MAX_ACCOUNT_SYNC_ITEM_BYTES) "account sync item exceeds 16384 bytes";
  i ← ok_of_option "invalid account sync item" (from_json (T := AccountSyncItem) plaintext);
  _ ← validate_item i;
  _ ← ensure (bool_decide (docs_key (key i) = k)) "account sync item key does not match its docs key";
  mret i.

(** [pairing_proof] and [verify_pairing]: the keyed hash over both endpoints and the direction. *)
Definition pairing_proof (ks : AccountSyncKeys) (initiator responder : string) (from_initiator : bool) : string :=
  blake3_keyed (pairing_key ks)
    (PAIRING_DOMAIN ++s String (if from_initiator then one else zero) "" ++s initiator ++s responder).

Definition verify_pairing (ks : AccountSyncKeys) (initiator responder : string) (from_initiator : bool) (proof : string) : bool :=
  bool_decide (pairing_proof ks initiator responder from_initiator = proof).
End items.
Arguments AccountSyncItem {json_value}.
