(* ===== verification/AccountSyncItemProps.v ===== *)
(** * Keys and seals of account sync items

    The key of an item and its text determine each other, and a sealed item opens to what was
    sealed, for the account and under the key it was sealed for. *)
From S2P Require Import Prelude RustStr Envelope Replicas AccountSyncItem.

(** ** The text of a key *)

(** Keys of items that are merged; the change window is not. *)
Definition merge_key (k : AccountSyncItemKey) : bool :=
  match k with ChangeSlot _ _ | ChangeHead _ => false | _ => true end.

(** The fields fit their Rust types: ids that are printed as hexadecimal digits are strings,
    slots are [u16]. *)
Definition key_typed (k : AccountSyncItemKey) : bool :=
  match k with
  | ChannelCapability c e => valid_utf8 c && valid_utf8 e
  | ChannelMembership c | ChannelController c | ChannelRotationRequest c | ChannelControllerRequest c
  | ChannelParticipant c _ => valid_utf8 c
  | ChangeSlot _ slot => (0 <=? slot) && (slot <? 2 ^ 16)
  | _ => true
  end.

Section keys.
Context {hex_crate : HexCrate} {hex_laws : HexCrateLaws} {crypto : Crypto} {pubkey_laws : PubkeyLaws}.

Lemma lower_hex_no_slash s : str_all is_lower_hex s = true -> lacks "/" s = true.
Proof.
  apply str_all_impl. intros a Ha. apply negb_true_iff, bool_decide_eq_false. intros ->. done.
Qed.

Lemma hexdigit_no_slash s : str_all is_ascii_hexdigit s = true -> lacks "/" s = true.
Proof.
  apply str_all_impl. intros a Ha. apply negb_true_iff, bool_decide_eq_false. intros ->. done.
Qed.

Lemma pubkey_no_slash s : validate_pubkey s = Ok tt -> lacks "/" s = true.
Proof. unfold validate_pubkey. intros Hv. inv_result. by eapply hexdigit_no_slash, pubkey_hex. Qed.

Lemma text_encode s : valid_utf8 s = true -> text (Replicas.hex_encode s) = Ok s.
Proof. intros Hs. unfold text. rewrite hex_decode_encode. cbn. by rewrite Hs. Qed.

Lemma text_ok v s : text v = Ok s -> valid_utf8 s = true.
Proof. unfold text. intros Ht. inv_result. by case_match; simplify_eq. Qed.

Lemma read_channel c item :
  valid_utf8 c = true -> read_docs_key ("channel/" ++s Replicas.hex_encode c ++s "/" ++s item) = channel_item c item.
Proof.
  intros Hc. change (read_docs_key ("channel/" ++s Replicas.hex_encode c ++s "/" ++s item)) with
    ('(channel, item) ← ok_of_option "missing channel item" (split_once "/" (Replicas.hex_encode c ++s "/" ++s item));
     channel_id ← text channel; channel_item channel_id item : result string AccountSyncItemKey).
  rewrite split_once_lacks by apply lower_hex_no_slash, hex_encode_lower. cbn [ok_of_option]. rewrite bind_ok.
  by rewrite text_encode.
Qed.

Lemma read_docs_key_printed k :
  validate_key k = Ok tt -> merge_key k = true -> key_typed k = true -> read_docs_key (docs_key k) = Ok k.
Proof.
  destruct k; intros Hv Hm Hu; try done; cbn in Hu; cbn [docs_key].
  - apply andb_prop in Hu as [Hc He].
    change ("channel/" ++s Replicas.hex_encode channel_id ++s "/epoch/" ++s Replicas.hex_encode epoch_id) with
      ("channel/" ++s Replicas.hex_encode channel_id ++s "/" ++s "epoch" ++s "/" ++s Replicas.hex_encode epoch_id).
    rewrite read_channel by done. unfold channel_item. rewrite split_once_lacks by done. rewrite decide_True by done.
    by rewrite text_encode.
  - by apply (read_channel channel_id "membership").
  - by apply (read_channel channel_id "controller").
  - by apply (read_channel channel_id "rotation").
  - by apply (read_channel channel_id "controller-request").
  - change ("channel/" ++s Replicas.hex_encode channel_id ++s "/participant/" ++s participant) with
      ("channel/" ++s Replicas.hex_encode channel_id ++s "/" ++s "participant" ++s "/" ++s participant).
    rewrite read_channel by done. unfold channel_item. by rewrite split_once_lacks.
  - assert (Hs : lacks "/" subject = true).
    { cbn in Hv. inv_result. destruct r. by apply pubkey_no_slash. }
    change (read_docs_key ("follow/" ++s subject ++s "/" ++s target)) with
      ('(s, t) ← ok_of_option "missing follow target" (split_once "/" (subject ++s "/" ++s target));
       mret (ParticipantFollow s t) : result string AccountSyncItemKey).
    by rewrite split_once_lacks.
Qed.

Lemma channel_item_shape c item k : valid_utf8 c = true -> channel_item c item = Ok k -> merge_key k = true /\ key_typed k = true.
Proof.
  intros Hc. unfold channel_item. destruct (split_once "/" item) as [[kind rest]|].
  - case_decide as Hk; [intros (e & He%text_ok & [= <-])%result_bind_ok; simpl; by rewrite Hc, He|].
    case_decide; intros [= <-]; done.
  - repeat case_decide; intros [= <-]; done.
Qed.

Lemma read_docs_key_shape s k : read_docs_key s = Ok k -> merge_key k = true /\ key_typed k = true.
Proof.
  unfold read_docs_key. case_decide; [by intros [= <-]|].
  destruct (strip_prefix "trust/always-visible/" s); [by intros [= <-]|].
  destruct (strip_prefix "channel/" s).
  { intros ([c item] & _ & (id & Hid%text_ok & Hi)%result_bind_ok)%result_bind_ok. by eapply channel_item_shape. }
  destruct (strip_prefix "graph/follows/" s); [by intros [= <-]|].
  destruct (strip_prefix "graph/blocks/" s); [by intros [= <-]|].
  destruct (strip_prefix "graph/followers/" s); [by intros [= <-]|].
  destruct (strip_prefix "follow/" s); [|done]. by intros ([a b] & _ & [= <-])%result_bind_ok.
Qed.

Lemma device_no_slash d : validate_device_id d = Ok tt -> lacks "/" d = true.
Proof.
  unfold validate_device_id. intros Hv%ensure_ok. destruct_bools.
  match goal with Ha : str_all _ d = true |- _ => revert Ha; apply str_all_impl end.
  intros a Ha. apply negb_true_iff, bool_decide_eq_false. intros ->. done.
Qed.

Lemma ndigits_small n : 0 <= n < 1000 -> (ndigits n <= 3)%nat.
Proof.
  intros Hn. unfold ndigits. cbn [ndigits_from]. change (10 ^ Z.of_nat 1) with 10. change (10 ^ Z.of_nat 2) with 100.
  change (10 ^ Z.of_nat 3) with 1000. repeat case_match; try lia.
Qed.

Lemma dec_padded_small n : 0 <= n < 1000 -> parse_digits 0 (dec_padded 3 n) = Some n /\ String.length (dec_padded 3 n) = 3%nat.
Proof.
  intros Hn. unfold dec_padded. pose proof (ndigits_small n Hn). rewrite Nat.max_l by done.
  rewrite parse_pad_digits, pad_digits_length. change (10 ^ Z.of_nat 3) with 1000. by rewrite Z.mod_small.
Qed.

(** The text of a key of the change window. *)
Lemma change_key_text k :
  validate_key k = Ok tt -> merge_key k = false -> key_typed k = true ->
  exists d x, lacks "/" d = true /\ docs_key k = "changes/" ++s d ++s "/" ++s x
    /\ (k = ChangeHead d /\ x = "head" \/ exists n, k = ChangeSlot d n /\ x = dec_padded 3 n /\ 0 <= n < 1000).
Proof.
  destruct k; intros Hv Hm Ht; try done; cbn in Hv.
  - apply result_bind_ok in Hv as ([] & Hs%ensure_ok & Hd). unfold ACCOUNT_SYNC_CHANGE_WINDOW in Hs. cbn in Ht.
    apply andb_prop in Ht as [Ht _]. exists device_id, (dec_padded 3 slot). split_and!; [by apply device_no_slash | done |].
    right. exists slot. split_and!; [done..| |]; lia.
  - exists device_id, "head". split_and!; [by apply device_no_slash | done | by left].
Qed.

(** Distinct items have distinct texts, those of the change window included. *)
Lemma docs_key_inj k k' :
  validate_key k = Ok tt -> validate_key k' = Ok tt -> key_typed k = true -> key_typed k' = true ->
  docs_key k = docs_key k' -> k = k'.
Proof.
  intros Hv Hv' Ht Ht' He.
  assert (Hread : forall a b, merge_key a = true -> merge_key b = false -> validate_key a = Ok tt -> validate_key b = Ok tt ->
            key_typed a = true -> key_typed b = true -> docs_key a <> docs_key b).
  { intros a b Ha Hb Hva Hvb Hta Htb Hab. pose proof (read_docs_key_printed a Hva Ha Hta) as Hr.
    destruct (change_key_text b) as (d & x & _ & Hx & _); [done..|]. rewrite Hab, Hx in Hr. discriminate Hr. }
  destruct (merge_key k) eqn:Hm, (merge_key k') eqn:Hm'.
  - pose proof (read_docs_key_printed k Hv Hm Ht) as Hr. rewrite He, read_docs_key_printed in Hr by done. by injection Hr.
  - by apply Hread in He.
  - symmetry in He. by apply Hread in He.
  - destruct (change_key_text k) as (d & x & Hd & Hx & Hk); [done..|].
    destruct (change_key_text k') as (d' & x' & Hd' & Hx' & Hk'); [done..|].
    rewrite Hx, Hx' in He. apply str_app_inj in He. apply (f_equal (split_once "/")) in He.
    rewrite !split_once_lacks in He by done. injection He as <- ->.
    destruct Hk as [[-> ->]|(n & -> & -> & Hn)], Hk' as [[-> Hh]|(n' & -> & Hh & Hn')]; try done.
    + apply (f_equal String.length) in Hh. by rewrite (proj2 (dec_padded_small n' Hn')) in Hh.
    + apply (f_equal String.length) in Hh. by rewrite (proj2 (dec_padded_small n Hn)) in Hh.
    + apply (f_equal (parse_digits 0)) in Hh. rewrite (proj1 (dec_padded_small n Hn)), (proj1 (dec_padded_small n' Hn')) in Hh. congruence.
Qed.

(** C24: Reading the text of an item key succeeds exactly for the canonical texts of valid
    keys of merged items, and returns that key: no other spelling of a key is accepted and
    no two keys share a text. *)
Theorem item_key_roundtrip s k :
  from_docs_key s = Ok k <->
  docs_key k = s /\ validate_key k = Ok tt /\ merge_key k = true /\ key_typed k = true.
Proof.
  unfold from_docs_key. split.
  - intros (k' & Hr%read_docs_key_shape & ([] & Hv & ([] & Hc%ensure_ok & [= ->])%result_bind_ok)%result_bind_ok)%result_bind_ok.
    destruct Hr. by apply bool_decide_eq_true in Hc.
  - intros (<- & Hv & Hm & Hu). rewrite (read_docs_key_printed k) by done. rewrite bind_ok, Hv, bind_ok.
    by rewrite bool_decide_true.
Qed.
End keys.

(** ** Seals *)

(** The tag authenticates the associated data: no ciphertext is valid for two of them. *)
Class AeadBinding `{Aead} := {
  aead_binds key nonce aad aad' p p' c :
    aead_encrypt key nonce aad p = Some c -> aead_encrypt key nonce aad' p' = Some c -> aad = aad'
}.

Section seals.
Context {hex_crate : HexCrate} {hex_laws : HexCrateLaws} {crypto : Crypto} {pubkey_laws : PubkeyLaws}.
Context {json_value : JsonValue} `{JsonLaws AccountSyncItem} {aead : Aead} {aead_laws : AeadLaws}.

Lemma pubkey_no_nul s : validate_pubkey s = Ok tt -> lacks zero s = true.
Proof.
  unfold validate_pubkey. intros Hv. inv_result. destruct (pubkey_hex _ _ E) as [_ Hh]. revert Hh.
  apply str_all_impl. intros a Ha. apply negb_true_iff, bool_decide_eq_false. intros ->. done.
Qed.

(** Account and key can be read off the associated data. *)
Lemma item_aad_inj a a' k k' :
  validate_pubkey a = Ok tt -> validate_pubkey a' = Ok tt -> item_aad a k = item_aad a' k' -> a = a' /\ k = k'.
Proof.
  intros Ha%pubkey_no_nul Ha'%pubkey_no_nul He. unfold item_aad in He. apply str_app_inj in He.
  apply (f_equal (split_once (String zero ""))) in He. rewrite !split_once_lacks in He by done. by injection He.
Qed.

Lemma seal_inv ks nonce account i s :
  seal ks nonce account i = Ok s ->
  validate_item i = Ok tt /\ str_len (to_json i) <= MAX_ACCOUNT_SYNC_ITEM_BYTES
  /\ exists c, aead_encrypt (payload_key ks) nonce (item_aad account (docs_key (key i))) (to_json i) = Some c
     /\ s = {| sealed_v := 1; nonce_hex := Replicas.hex_encode nonce; ciphertext_hex := Replicas.hex_encode c |}.
Proof.
  unfold seal. intros ([] & Hv & ([] & Hl%ensure_ok & (c & Hc%ok_of_option_ok & [= <-])%result_bind_ok)%result_bind_ok)%result_bind_ok.
  split_and!; [done | lia | eauto].
Qed.

Lemma open_sealed ks nonce account i s :
  String.length nonce = 24%nat -> seal ks nonce account i = Ok s -> open ks account (docs_key (key i)) s = Ok i.
Proof.
  intros Hn (Hv & Hl & c & Hc & ->)%seal_inv. unfold open. cbn [sealed_v nonce_hex ciphertext_hex].
  pose proof (aead_encrypt_length _ _ _ _ _ Hc) as Hlen. unfold str_len in *.
  assert (Hsize : Z.of_nat (String.length (Replicas.hex_encode nonce)) + Z.of_nat (String.length (Replicas.hex_encode c))
                  <= MAX_SEALED_ACCOUNT_SYNC_ITEM_BYTES).
  { rewrite !hex_encode_length, Hlen, Hn. unfold MAX_SEALED_ACCOUNT_SYNC_ITEM_BYTES. lia. }
  rewrite (proj2 (Z.leb_le _ _) Hsize). rewrite !hex_decode_encode. cbn [ensure ok_of_option Z.eqb Pos.eqb]. rewrite !bind_ok, Hn.
  change (Z.of_nat 24 =? 24) with true. cbn [ensure ok_of_option]. rewrite ?bind_ok.
  rewrite (proj2 (aead_decrypt_spec _ _ _ _ _) Hc). cbn [ok_of_option]. rewrite bind_ok, (proj2 (Z.leb_le _ _) Hl).
  cbn [ensure]. rewrite bind_ok, from_to_json. cbn [ok_of_option]. rewrite bind_ok, Hv, bind_ok. by rewrite bool_decide_true.
Qed.

Lemma open_inv ks account k s i :
  open ks account k s = Ok i ->
  docs_key (key i) = k /\ validate_item i = Ok tt
  /\ exists nonce c p, hex_decode (nonce_hex s) = Some nonce /\ hex_decode (ciphertext_hex s) = Some c
     /\ aead_decrypt (payload_key ks) nonce (item_aad account k) c = Some p /\ from_json p = Some i.
Proof.
  unfold open. intros Ho. repeat (apply result_bind_ok in Ho as (? & ? & Ho)).
  repeat match goal with Hx : ensure _ _ = Ok _ |- _ => apply ensure_ok in Hx | Hx : ok_of_option _ _ = Ok _ |- _ => apply ok_of_option_ok in Hx end.
  injection Ho as ->. match goal with Hx : validate_item _ = Ok ?u |- _ => destruct u end. destruct_bools. eauto 10.
Qed.

(** C16: A sealed item opens for the account and under the key it was sealed for, to the item
    that was sealed, and for no other account or key. *)
Theorem sealed_item_opens_as_itself {binding : AeadBinding} ks nonce account i s account' k j :
  String.length nonce = 24%nat -> validate_pubkey account = Ok tt -> validate_pubkey account' = Ok tt ->
  seal ks nonce account i = Ok s ->
  open ks account' k s = Ok j <-> account' = account /\ k = docs_key (key i) /\ j = i.
Proof.
  intros Hn Ha Ha' Hs. split; [|intros (-> & -> & ->); by eapply open_sealed].
  intros (Hk & _ & nonce' & c & p & Hnon & Hcip & Hdec & Hj)%open_inv.
  destruct (seal_inv _ _ _ _ _ Hs) as (_ & _ & c' & Hc & ->). cbn in Hnon, Hcip.
  rewrite !hex_decode_encode in *. simplify_eq. pose proof (proj1 (aead_decrypt_spec _ _ _ _ _) Hdec) as Henc.
  pose proof (aead_binds _ _ _ _ _ _ _ Henc Hc) as Haad. destruct (item_aad_inj _ _ _ _ Ha' Ha Haad) as [-> He].
  split_and!; [done..|]. rewrite He in Hdec. rewrite (proj2 (aead_decrypt_spec _ _ _ _ _) Hc) in Hdec. simplify_eq.
  rewrite from_to_json in Hj. congruence.
Qed.
End seals.
