(* ===== verification/ChannelSeal.v ===== *)
(** * Sealed keys of private channels (crates/core: private_channels.rs, receive_offer.rs)

    The secret of an epoch is kept in a row sealed with a key of the account; account,
    channel and epoch are bound to the seal.  Offers name an epoch by a keyed hash. *)
From S2P Require Import Prelude RustStr Envelope Replicas AccountSyncItem.

Definition KEY_ROW_CONTEXT : string := "kukuri.app 2026-10-02 private channel key rows v1".
Definition KEY_ROW_AAD_DOMAIN : string := "kukuri private channel key row v1" ++s String zero "".
Definition EPOCH_ID_DOMAIN : string := "kukuri:receive-epoch-key-id:v1" ++s String zero "".

Record PrivateChannelKeyRowSeal := { seal_account : string; seal_key : string }.

Definition derive_private_channel_key_row_seal `{Blake3Kdf} (public_key_hex secret_bytes : string) : PrivateChannelKeyRowSeal :=
  {| seal_account := public_key_hex; seal_key := blake3_derive_key KEY_ROW_CONTEXT secret_bytes |}.

Definition validate_private_channel_secret_hex `{HexCrate} (v label : string) : result string unit :=
  b ← ok_of_option ("invalid " ++s label ++s " hex") (hex_decode (trim v));
  ensure (str_len b =? 32) (label ++s " must be 32 bytes").

Definition key_row_aad (s : PrivateChannelKeyRowSeal) (channel_id epoch_id : string) : string :=
  KEY_ROW_AAD_DOMAIN ++s seal_account s ++s String zero "" ++s channel_id ++s String zero "" ++s epoch_id ++s String zero "".

(** [PrivateChannelKeyRowSeal::seal]; [nonce] are the 24 bytes drawn for the row. *)
Definition seal_secret `{HexCrate} `{Aead} (s : PrivateChannelKeyRowSeal) (nonce channel_id epoch_id secret_hex : string)
    : result string string :=
  _ ← validate_private_channel_secret_hex secret_hex "private channel epoch secret";
  secret ← ok_of_option "invalid hex" (hex_decode (trim secret_hex));
  ciphertext ← ok_of_option "failed to seal private channel key row"
    (aead_encrypt (seal_key s) nonce (key_row_aad s channel_id epoch_id) secret);
  mret (nonce ++s ciphertext).

(** [PrivateChannelKeyRowSeal::open] *)
Definition open_secret `{HexCrate} `{Aead} (s : PrivateChannelKeyRowSeal) (channel_id epoch_id sealed : string) : result string string :=
  _ ← ensure (24 <=? String.length sealed)%nat "private channel key row is too short";
  secret ← ok_of_option "private channel key row failed authentication"
    (aead_decrypt (seal_key s) (String.substring 0 24 sealed) (key_row_aad s channel_id epoch_id)
       (String.substring 24 (String.length sealed - 24) sealed));
  let secret := hex_encode secret in
  _ ← validate_private_channel_secret_hex secret "private channel epoch secret";
  mret secret.

(** ** Names of epochs (receive_offer.rs) *)
Definition byte_of (n : Z) : ascii := ascii_of_nat (Z.to_nat (n mod 256)).

(** [(len as u32).to_be_bytes()] *)
Definition be_bytes32 (n : Z) : string :=
  String (byte_of (n / 2 ^ 24)) (String (byte_of (n / 2 ^ 16)) (String (byte_of (n / 2 ^ 8)) (String (byte_of n) ""))).

Definition epoch_key_hash `{Blake3Crate} (secret channel epoch domain : string) : result string string :=
  _ ← ensure (negb (str_is_empty channel) && (str_len channel <=? 1024) && negb (str_is_empty epoch) && (str_len epoch <=? 1024))
        "invalid receive epoch identifiers";
  mret (blake3_keyed secret (domain ++s be_bytes32 (str_len channel) ++s channel ++s be_bytes32 (str_len epoch) ++s epoch)).

Definition receive_epoch_key_id `{HexCrate} `{Blake3Crate} (secret channel epoch : string) : result string string :=
  k ← epoch_key_hash secret channel epoch EPOCH_ID_DOMAIN;
  mret (hex_encode k).

(** ** A sealed secret opens as itself *)
Lemma substring_app_left a b : String.substring 0 (String.length a) (a ++s b) = a.
Proof. induction a as [|c a IH]; simpl; [by destruct b | by rewrite IH]. Qed.

Lemma substring_all b : String.substring 0 (String.length b) b = b.
Proof. induction b as [|c b IH]; simpl; [done | by rewrite IH]. Qed.

Lemma substring_app_right a b : String.substring (String.length a) (String.length b) (a ++s b) = b.
Proof. induction a as [|c a IH]; simpl; [apply substring_all | exact IH]. Qed.

(** Bytes [P] with which no pattern begins. *)
Definition begins_none (P : ascii -> bool) (ps : list string) : bool :=
  forallb (fun p => match p with String b _ => negb (P b) | EmptyString => false end) ps.

Lemma strip_any_plain P ps a s : begins_none P ps = true -> P a = true -> strip_any ps (String a s) = None.
Proof.
  intros Hp Ha. induction ps as [|p ps IH]; [done|]. simpl in Hp |- *. apply andb_prop in Hp as [Hp Hps]. rewrite IH by done.
  destruct p as [|b p]; [done|]. apply negb_true_iff in Hp. simpl. by rewrite decide_False by congruence.
Qed.

Lemma trim_fuel_plain P ps n s : begins_none P ps = true -> str_all P s = true -> trim_fuel n ps s = s.
Proof.
  intros Hp Hs. destruct n as [|n]; [done|]. destruct s as [|a s]; simpl in Hs.
  - simpl. replace (strip_any ps "") with (@None string); [done|]. induction ps as [|[|b p] ps IH]; [done | done |].
    simpl in Hp |- *. apply andb_prop in Hp as [_ Hp]. by apply IH.
  - apply andb_prop in Hs as [Ha _]. simpl. by rewrite (strip_any_plain P).
Qed.

Lemma str_all_list f s : str_all f s = forallb f (String.list_ascii_of_string s).
Proof. induction s as [|a s IH]; simpl; [done | by rewrite IH]. Qed.

Lemma str_rev_all P s : str_all P s = true -> str_all P (str_rev s) = true.
Proof.
  unfold str_rev. rewrite !str_all_list, String.list_ascii_of_string_of_list_ascii, !forallb_forall.
  intros Hs x Hx. apply Hs. by apply in_rev.
Qed.

Lemma str_rev_involutive s : str_rev (str_rev s) = s.
Proof. unfold str_rev. by rewrite String.list_ascii_of_string_of_list_ascii, rev_involutive, String.string_of_list_ascii_of_string. Qed.

(** A text of printable ASCII characters other than the space has no white space around it. *)
Definition is_graphic (a : ascii) : bool := byte_in 33 126 a.
Lemma trim_graphic s : str_all is_graphic s = true -> trim s = s.
Proof.
  intros Hs. unfold trim, trim_start, trim_end. rewrite (trim_fuel_plain is_graphic utf8_whitespace) by first [reflexivity | done].
  rewrite (trim_fuel_plain is_graphic); [apply str_rev_involutive | reflexivity | by apply str_rev_all].
Qed.

Lemma lower_hex_graphic a : is_lower_hex a = true -> is_graphic a = true.
Proof.
  unfold is_lower_hex, is_ascii_digit, is_graphic, byte_in. rewrite ?orb_true_iff, !andb_true_iff, !Z.leb_le. lia.
Qed.

(** Hexadecimal digits have no white space around them. *)
Lemma trim_digits s : str_all is_lower_hex s = true -> trim s = s.
Proof. intros Hs. apply trim_graphic. eapply str_all_impl; [apply lower_hex_graphic | done]. Qed.

(** The seal of a row opens for its account, channel and epoch, as the digits of the secret. *)
Lemma key_row_opens `{HexCrateLaws} `{AeadLaws} s nonce c e secret_hex sealed :
  String.length nonce = 24%nat -> seal_secret s nonce c e secret_hex = Ok sealed ->
  exists secret, hex_decode (trim secret_hex) = Some secret /\ open_secret s c e sealed = Ok (hex_encode secret).
Proof.
  intros Hn. unfold seal_secret, validate_private_channel_secret_hex.
  destruct (hex_decode (trim secret_hex)) as [b|] eqn:Hb; [|done]. cbn [ok_of_option]. rewrite !bind_ok.
  destruct (Z.eqb_spec (str_len b) 32) as [Hl|]; [|done]. cbn [ensure]. rewrite !bind_ok.
  destruct (aead_encrypt _ _ _ b) as [ct|] eqn:Hc; [|done]. cbn. intros [= <-]. exists b. split; [done|].
  unfold open_secret. rewrite str_app_length, Hn, (proj2 (Nat.leb_le 24 _)) by lia. cbn [ensure]. rewrite bind_ok.
  replace (24 + String.length ct - 24)%nat with (String.length ct) by lia.
  pose proof (substring_app_left nonce ct) as Hl1. pose proof (substring_app_right nonce ct) as Hl2. rewrite Hn in Hl1, Hl2.
  rewrite Hl1, Hl2. apply aead_decrypt_spec in Hc. rewrite Hc. cbn [ok_of_option]. rewrite bind_ok.
  unfold validate_private_channel_secret_hex. rewrite trim_digits by apply hex_encode_lower. rewrite hex_decode_encode.
  cbn [ok_of_option]. rewrite bind_ok. apply Z.eqb_eq in Hl. rewrite Hl. done.
Qed.
