(* ===== verification/AccountSyncStore.v ===== *)
(** * The ledger of the account sync (crates/store: account_sync.rs, memory/account_sync.rs)

    Every device keeps one row per item, the newest version it adopted, which rows its
    replica does not show yet, and how far it has read each other device.  The newest
    version is the greatest pair of edit time and operation id, so devices that receive the
    same versions agree whatever the order. *)
From S2P Require Import Prelude RustStr.

Record AccountSyncRow := { row_key : string; row_op_id : string; row_updated_at : Z; row_value : option string }.
#[export] Instance AccountSyncRow_eq_dec : EqDecision AccountSyncRow.
Proof. solve_decision. Defined.

Record AccountSyncCursor := {
  cur_device : string;
  cur_seq : Z;
  cur_head : Z;
  cycle_prefix : option string;
  cycle_head : Z;
  cur_updated_at : Z
}.

Definition ACCOUNT_SYNC_CURSOR_LIMIT : nat := 16.

Record MemoryAccountSync := {
  sync_rows : gmap string AccountSyncRow;
  sync_unwritten : gset string;
  sync_cursors : gmap string AccountSyncCursor
}.

Definition empty_ledger : MemoryAccountSync := {| sync_rows := ∅; sync_unwritten := ∅; sync_cursors := ∅ |}.

(** The pair that decides which version of an item wins. *)
Definition version (r : AccountSyncRow) : Z * string := (row_updated_at r, row_op_id r).

Definition newer (r : AccountSyncRow) (current : option AccountSyncRow) : bool :=
  match current with None => true | Some c => rust_ltb (version c) (version r) end.

Definition get_account_sync_row (m : MemoryAccountSync) (k : string) : option AccountSyncRow := sync_rows m !! k.

Definition adopt_account_sync_row (r : AccountSyncRow) (m : MemoryAccountSync) : bool * MemoryAccountSync :=
  if newer r (sync_rows m !! row_key r)
  then (true, {| sync_rows := <[row_key r := r]> (sync_rows m); sync_unwritten := {[row_key r]} ∪ sync_unwritten m;
                 sync_cursors := sync_cursors m |})
  else (false, m).

Definition mark_account_sync_written (r : AccountSyncRow) (m : MemoryAccountSync) : MemoryAccountSync :=
  match sync_rows m !! row_key r with
  | Some c =>
      if decide (version c = version r)
      then {| sync_rows := sync_rows m; sync_unwritten := sync_unwritten m ∖ {[row_key r]}; sync_cursors := sync_cursors m |}
      else m
  | None => m
  end.

Definition list_unwritten_account_sync_rows (limit : nat) (m : MemoryAccountSync) : list AccountSyncRow :=
  omap (fun k => sync_rows m !! k) (take limit (set_iter (sync_unwritten m))).

Definition get_account_sync_cursor (m : MemoryAccountSync) (d : string) : option AccountSyncCursor := sync_cursors m !! d.

(** The other devices, the most recently updated first, and those beyond the limit. *)
Definition other_cursors (own : string) (cs : gmap string AccountSyncCursor) : list (Z * string) :=
  sort_by rust_leb (map (fun kv => (- cur_updated_at kv.2, cur_device kv.2))
    (List.filter (fun kv => negb (bool_decide (cur_device kv.2 = own))) (map_to_list cs))).

Definition put_account_sync_cursor (c : AccountSyncCursor) (own : string) (m : MemoryAccountSync) : MemoryAccountSync :=
  let cs := <[cur_device c := c]> (sync_cursors m) in
  {| sync_rows := sync_rows m; sync_unwritten := sync_unwritten m;
     sync_cursors := foldl (fun cs x => delete x.2 cs) cs (drop ACCOUNT_SYNC_CURSOR_LIMIT (other_cursors own cs)) |}.

Definition list_account_sync_cursors (m : MemoryAccountSync) : list AccountSyncCursor :=
  omap (fun d => sync_cursors m !! d) (set_iter (dom (sync_cursors m))).

Definition list_account_sync_keys (prefix : string) (m : MemoryAccountSync) : list string :=
  List.filter (fun k => starts_with prefix k
                        && match sync_rows m !! k with Some r => bool_decide (is_Some (row_value r)) | None => false end)
    (set_iter (dom (sync_rows m))).

(** ** Versions *)
Definition version_le (v w : Z * string) : Prop := rust_leb v w = true.

#[export] Instance version_le_preorder : PreOrder version_le.
Proof. split; [intros v; apply rust_leb_refl | intros u v w; apply rust_leb_trans]. Qed.

Lemma version_le_antisym v w : version_le v w -> version_le w v -> v = w.
Proof. apply rust_leb_antisym. Qed.

Lemma newer_false r c : newer r (Some c) = false <-> version_le (version r) (version c).
Proof. unfold newer, version_le. rewrite rust_ltb_leb. by rewrite negb_false_iff. Qed.

Lemma newer_le r c : newer r (Some c) = true -> version_le (version c) (version r).
Proof.
  unfold newer, version_le. rewrite rust_ltb_leb. intros Hn%negb_true_iff. by apply rust_leb_total.
Qed.

(** The ledger holds at least the version [v] of [k]. *)
Definition holds_version (m : MemoryAccountSync) (k : string) (v : Z * string) : Prop :=
  exists r, sync_rows m !! k = Some r /\ version_le v (version r).

(** [m'] holds every version that [m] holds. *)
Definition ledger_le (m m' : MemoryAccountSync) : Prop := forall k v, holds_version m k v -> holds_version m' k v.

#[export] Instance ledger_le_preorder : PreOrder ledger_le.
Proof. split; [by intros m k v | intros m1 m2 m3 H12 H23 k v Hv; eauto]. Qed.

Lemma ledger_le_rows m m' : sync_rows m = sync_rows m' -> ledger_le m m'.
Proof. intros He k v (r & Hr & Hv). exists r. by rewrite <- He. Qed.

Lemma adopt_ledger_le r m : ledger_le m (adopt_account_sync_row r m).2.
Proof.
  intros k v (c & Hc & Hv). unfold adopt_account_sync_row. destruct (newer r _) eqn:Hn; simpl; [|by exists c].
  destruct (decide (row_key r = k)) as [<-|]; [|exists c; simpl; by rewrite lookup_insert_ne].
  exists r. simpl. rewrite lookup_insert_eq. split; [done|]. rewrite Hc in Hn. etrans; [exact Hv | by apply newer_le].
Qed.

Lemma adopt_holds r m : holds_version (adopt_account_sync_row r m).2 (row_key r) (version r).
Proof.
  unfold adopt_account_sync_row. destruct (newer r _) eqn:Hn; simpl.
  - exists r. simpl. by rewrite lookup_insert_eq.
  - destruct (sync_rows m !! row_key r) as [c|] eqn:Hc; [|done]. exists c. split; [done|]. by apply newer_false.
Qed.

Lemma mark_rows r m : sync_rows (mark_account_sync_written r m) = sync_rows m.
Proof. unfold mark_account_sync_written. by repeat case_match. Qed.

Lemma mark_ledger_le r m : ledger_le m (mark_account_sync_written r m).
Proof. apply ledger_le_rows. by rewrite mark_rows. Qed.

Lemma put_cursor_ledger_le c own m : ledger_le m (put_account_sync_cursor c own m).
Proof. by apply ledger_le_rows. Qed.
#[export] Hint Resolve adopt_ledger_le mark_ledger_le put_cursor_ledger_le adopt_holds : kukuri.
