(* ===== verification/AccountSyncStoreProps.v ===== *)
(** * Properties of the account sync ledger

    Ledgers that receive the same versions agree, and the tables of a ledger stay
    consistent and bounded. *)
From S2P Require Import Prelude RustStr AccountSyncStore.

(** ** Convergence *)
Definition adopt_all (l : list AccountSyncRow) (m : MemoryAccountSync) : MemoryAccountSync :=
  foldl (fun m r => (adopt_account_sync_row r m).2) m l.

(** A row of [m] or of the received rows, filed under [k]. *)
Definition offered (m : MemoryAccountSync) (l : list AccountSyncRow) (k : string) (r : AccountSyncRow) : Prop :=
  sync_rows m !! k = Some r \/ r ∈ l /\ row_key r = k.

Lemma adopt_lookup r m k :
  sync_rows (adopt_account_sync_row r m).2 !! k
  = if decide (row_key r = k) then if newer r (sync_rows m !! k) then Some r else sync_rows m !! k else sync_rows m !! k.
Proof.
  unfold adopt_account_sync_row. case_decide as Hk; [subst k|].
  - destruct (newer r _); simpl; [by rewrite lookup_insert_eq | done].
  - destruct (newer r _); simpl; [by rewrite lookup_insert_ne | done].
Qed.

(** Each row of the result is the greatest of those offered for its key. *)
Lemma adopt_all_lookup l m k :
  match sync_rows (adopt_all l m) !! k with
  | Some r => offered m l k r /\ forall c, offered m l k c -> version_le (version c) (version r)
  | None => forall c, ~ offered m l k c
  end.
Proof.
  revert m. induction l as [|r l IH]; intros m; simpl.
  - unfold offered. destruct (sync_rows m !! k) as [c|] eqn:Hc.
    + split; [by left|]. intros c' [[= <-]|[?%not_elem_of_nil _]]; [done | contradiction].
    + intros c [?|[?%not_elem_of_nil _]]; done.
  - specialize (IH (adopt_account_sync_row r m).2). set (m' := (adopt_account_sync_row r m).2) in *.
    assert (Hback : forall c, offered m' l k c -> offered m (r :: l) k c).
    { intros c [Hc|[Hc <-]]; [|right; split; [by right|done]]. subst m'. rewrite adopt_lookup in Hc.
      case_decide as Hk; [|by left]. destruct (newer r _); [|by left]. injection Hc as <-. right. split; [by left|done]. }
    assert (Hfwd : forall c, offered m (r :: l) k c -> exists d, offered m' l k d /\ version_le (version c) (version d)).
    { intros c Hc. assert (Hcase : offered m' l k c \/ exists d, sync_rows m' !! k = Some d /\ version_le (version c) (version d)).
      { subst m'. rewrite adopt_lookup. destruct Hc as [Hc|[[->|Hc]%elem_of_cons Hk]].
        - rewrite Hc. case_decide as Hk; [|right; by exists c]. destruct (newer r (Some c)) eqn:Hn; right; [|by exists c].
          exists r. split; [done|]. by apply newer_le.
        - rewrite decide_True by done. destruct (newer r _) eqn:Hn; right; [by exists r|].
          destruct (sync_rows m !! k) as [d|]; [|done]. exists d. split; [done|]. by apply newer_false.
        - left. right. done. }
      destruct Hcase as [Hc'|(d & Hd & Hv)]; [by exists c | exists d; split; [by left | done]]. }
    change (foldl _ m' l) with (adopt_all l m') in *. destruct (sync_rows (adopt_all l m') !! k) as [d|].
    + destruct IH as [Hd Hmax]. split; [auto|]. intros c (e & He & Hce)%Hfwd. etrans; [exact Hce | by apply Hmax].
    + intros c (e & He & _)%Hfwd. by apply (IH e).
Qed.

(** An operation id is drawn once: a version of an item has one content. *)
Definition versions_unique (m : MemoryAccountSync) (l : list AccountSyncRow) : Prop :=
  forall k r r', offered m l k r -> offered m l k r' -> version r = version r' -> r = r'.

(** C23: Ledgers that start alike and receive the same versions, in any order and however
    often, hold the same rows, and each is the greatest version offered for its key. *)
Theorem ledger_converges m l l' :
  versions_unique m l -> (forall r, r ∈ l <-> r ∈ l') ->
  sync_rows (adopt_all l m) = sync_rows (adopt_all l' m)
  /\ forall k r, sync_rows (adopt_all l m) !! k = Some r <->
       offered m l k r /\ forall c, offered m l k c -> version_le (version c) (version r).
Proof.
  intros Hu Hl. assert (Hoff : forall k r, offered m l k r <-> offered m l' k r) by (intros k r; unfold offered; by rewrite Hl).
  assert (Hbest : forall k r r', offered m l k r -> (forall c, offered m l k c -> version_le (version c) (version r)) ->
                    offered m l k r' -> (forall c, offered m l k c -> version_le (version c) (version r')) -> r = r').
  { intros k r r' Hr Hm Hr' Hm'. apply (Hu k); [done..|]. apply version_le_antisym; auto. }
  split.
  - apply map_eq. intros k. pose proof (adopt_all_lookup l m k) as H1. pose proof (adopt_all_lookup l' m k) as H2.
    destruct (sync_rows (adopt_all l m) !! k) as [r|], (sync_rows (adopt_all l' m) !! k) as [r'|]; try done.
    + f_equal. destruct H1 as [Hr Hm], H2 as [Hr' Hm']. apply (Hbest k); [done..| by apply Hoff |].
      intros c Hc%Hoff. by apply Hm'.
    + destruct H1 as [H1%Hoff _]. by apply H2 in H1.
    + destruct H2 as [H2%Hoff _]. by apply H1 in H2.
  - intros k r. pose proof (adopt_all_lookup l m k) as H1. destruct (sync_rows (adopt_all l m) !! k) as [d|].
    + split; [by intros [= <-]|]. intros [Hr Hm]. f_equal. destruct H1 as [Hd Hmax]. by eapply Hbest.
    + split; [done|]. intros [Hr _]. by apply H1 in Hr.
Qed.

(** ** The tables *)
Record ledger_inv (own : string) (m : MemoryAccountSync) : Prop := {
  li_rows k r : sync_rows m !! k = Some r -> row_key r = k;
  li_unwritten : sync_unwritten m ⊆ dom (sync_rows m);
  li_cursors d c : sync_cursors m !! d = Some c -> cur_device c = d;
  li_limit : (size (dom (sync_cursors m) ∖ {[own]}) <= ACCOUNT_SYNC_CURSOR_LIMIT)%nat
}.

Inductive LedgerOp :=
| AdoptRow (r : AccountSyncRow)
| MarkWritten (r : AccountSyncRow)
| PutCursor (c : AccountSyncCursor).

Definition ledger_step (own : string) (m : MemoryAccountSync) (o : LedgerOp) : MemoryAccountSync :=
  match o with
  | AdoptRow r => (adopt_account_sync_row r m).2
  | MarkWritten r => mark_account_sync_written r m
  | PutCursor c => put_account_sync_cursor c own m
  end.

Lemma foldl_delete_lookup (l : list (Z * string)) (cs : gmap string AccountSyncCursor) d :
  foldl (fun cs x => delete x.2 cs) cs l !! d = if decide (d ∈ map snd l) then None else cs !! d.
Proof.
  revert cs. induction l as [|[z x] l IH]; intros cs.
  { rewrite decide_False; [done|]. apply not_elem_of_nil. }
  cbn [foldl map snd]. rewrite IH. destruct (decide (d ∈ map snd l)) as [Hin|Hin].
  - by rewrite decide_True by by apply list_elem_of_further.
  - destruct (decide (d = x)) as [->|Hne]; [rewrite decide_True by apply list_elem_of_here; apply lookup_delete_eq|].
    rewrite decide_False by (intros [?|?]%elem_of_cons; done). by rewrite lookup_delete_ne.
Qed.

Lemma other_cursors_elem own cs z d :
  (z, d) ∈ other_cursors own cs <-> exists i c, cs !! i = Some c /\ cur_device c <> own /\ z = - cur_updated_at c /\ d = cur_device c.
Proof.
  unfold other_cursors. rewrite elem_of_sort_by, list_elem_of_fmap. split.
  - intros ([i c] & [= -> ->] & [Hi%elem_of_map_to_list Hf]%elem_of_filter_bool). destruct_bools. eauto 6.
  - intros (i & c & Hi & Hne & -> & ->). exists (i, c). split; [done|]. apply elem_of_filter_bool. simpl.
    split; [by apply elem_of_map_to_list|]. by apply negb_true_iff, bool_decide_eq_false.
Qed.

Lemma put_cursor_lookup c own m d :
  sync_cursors (put_account_sync_cursor c own m) !! d
  = if decide (d ∈ map snd (drop ACCOUNT_SYNC_CURSOR_LIMIT (other_cursors own (<[cur_device c:=c]> (sync_cursors m)))))
    then None else <[cur_device c:=c]> (sync_cursors m) !! d.
Proof. apply foldl_delete_lookup. Qed.

Lemma put_cursor_device c own m d c' :
  (forall d c, sync_cursors m !! d = Some c -> cur_device c = d) ->
  sync_cursors (put_account_sync_cursor c own m) !! d = Some c' -> cur_device c' = d.
Proof.
  intros Hd. rewrite put_cursor_lookup. case_decide; [done|]. intros [[<- <-]|[_ Hc]]%lookup_insert_Some; [done | by apply Hd].
Qed.

Lemma put_cursor_limit c own m :
  (forall d c, sync_cursors m !! d = Some c -> cur_device c = d) ->
  (size (dom (sync_cursors (put_account_sync_cursor c own m)) ∖ {[own]}) <= ACCOUNT_SYNC_CURSOR_LIMIT)%nat.
Proof.
  intros Hd. set (cs := <[cur_device c:=c]> (sync_cursors m)). set (others := other_cursors own cs).
  transitivity (size (list_to_set (map snd (take ACCOUNT_SYNC_CURSOR_LIMIT others)) : gset string)).
  - apply subseteq_size. intros d [Hdom Hown]%elem_of_difference. apply elem_of_dom in Hdom as [c' Hc'].
    pose proof (put_cursor_device c own m d c' Hd Hc') as Hdev. rewrite put_cursor_lookup in Hc'. fold cs others in Hc'.
    case_decide as Hin; [done|]. apply elem_of_list_to_set.
    assert (Ho : (- cur_updated_at c', d) ∈ others).
    { apply other_cursors_elem. exists d, c'. split_and!; [done | set_solver | done..]. }
    rewrite <- (take_drop ACCOUNT_SYNC_CURSOR_LIMIT others) in Ho. apply elem_of_app in Ho as [Ho|Ho].
    + apply list_elem_of_fmap. by exists (- cur_updated_at c', d).
    + destruct Hin. apply list_elem_of_fmap. by exists (- cur_updated_at c', d).
  - etrans; [|exact (firstn_le_length ACCOUNT_SYNC_CURSOR_LIMIT others)].
    rewrite <- (length_map snd). induction (map snd _) as [|x l IH]; [done|]. cbn [list_to_set length].
    pose proof (size_union_alt ({[x]} : gset string) (list_to_set l)) as Hsz. rewrite size_singleton in Hsz.
    assert ((size ((list_to_set l : gset string) ∖ {[x]}) <= size (list_to_set l : gset string))%nat) by (apply subseteq_size; set_solver).
    lia.
Qed.

Lemma ledger_step_inv own m o : ledger_inv own m -> ledger_inv own (ledger_step own m o).
Proof.
  intros [Hr Hu Hc Hl]. destruct o as [r|r|c]; simpl.
  - unfold adopt_account_sync_row. destruct (newer r _); simpl; [|done]. constructor; simpl; [|set_solver|done..].
    intros k r' [[<- <-]|[_ ?]]%lookup_insert_Some; auto.
  - unfold mark_account_sync_written. repeat case_match; [|done..]. constructor; simpl; [done | set_solver | done..].
  - constructor; [done | done | intros; by eapply put_cursor_device | by apply put_cursor_limit].
Qed.

(** C28: Whatever is adopted, marked and fetched, the ledger files rows and cursors under
    their own names, only rows it holds wait to be written, and at most 16 other devices
    have a cursor. *)
Theorem ledger_tables_consistent own ops : ledger_inv own (foldl (ledger_step own) empty_ledger ops).
Proof.
  assert (Hi : ledger_inv own empty_ledger).
  { constructor; simpl; [done | set_solver | done |]. rewrite dom_empty_L. replace (∅ ∖ {[own]}) with (∅ : gset string) by set_solver.
    rewrite size_empty. lia. }
  revert Hi. generalize empty_ledger. induction ops as [|o ops IH]; intros m Hi; simpl; [done|]. by apply IH, ledger_step_inv.
Qed.

(** ** Which cursor is kept *)
Lemma sublist_map {A B} (f : A -> B) (l l' : list A) : l `sublist_of` l' -> map f l `sublist_of` map f l'.
Proof. induction 1; simpl; [done | by apply sublist_skip | by apply sublist_cons]. Qed.

Lemma other_cursors_nodup own cs :
  (forall d c, cs !! d = Some c -> cur_device c = d) -> NoDup (map snd (other_cursors own cs)).
Proof.
  intros Hd. unfold other_cursors. rewrite (Permutation_map snd (sort_by_perm rust_leb _)), map_map. cbn.
  rewrite (map_ext_in _ fst).
  - eapply sublist_NoDup; [exact (NoDup_fst_map_to_list cs)|]. apply (sublist_map fst), sublist_filter_bool.
  - intros [d c] Hin. apply list_elem_of_In, elem_of_filter_bool in Hin as [Hin%elem_of_map_to_list _]. by apply Hd.
Qed.

(** The most recently updated cursor survives. *)
Lemma put_cursor_kept c own m :
  (forall d c', sync_cursors m !! d = Some c' -> cur_device c' = d) ->
  (forall d c', d <> cur_device c -> d <> own -> sync_cursors m !! d = Some c' -> cur_updated_at c' < cur_updated_at c) ->
  sync_cursors (put_account_sync_cursor c own m) !! cur_device c = Some c.
Proof.
  intros Hdev Hold. rewrite put_cursor_lookup, lookup_insert_eq. set (cs := <[cur_device c:=c]> (sync_cursors m)).
  case_decide as Hin; [exfalso|done].
  assert (Hdev' : forall d c', cs !! d = Some c' -> cur_device c' = d).
  { intros d c' [[<- <-]|[_ ?]]%lookup_insert_Some; auto. }
  pose proof (other_cursors_nodup own cs Hdev') as Hnd.
  assert (Hown : cur_device c <> own).
  { apply list_elem_of_fmap in Hin as ([z d] & Hd & Hz). cbn in Hd. subst d.
    assert (Hz' : (z, cur_device c) ∈ other_cursors own cs) by (eapply elem_of_sublist; [exact Hz | apply sublist_drop]).
    apply other_cursors_elem in Hz' as (i & c' & _ & Hne & _ & He). congruence. }
  assert (Hx : (- cur_updated_at c, cur_device c) ∈ other_cursors own cs).
  { apply other_cursors_elem. exists (cur_device c), c. split_and!; [apply lookup_insert_eq | done..]. }
  assert (Hmin : forall y, y ∈ other_cursors own cs -> rust_leb (- cur_updated_at c, cur_device c) y = true).
  { intros [z d] (i & c' & Hi & Hne & -> & ->)%other_cursors_elem. apply lookup_insert_Some in Hi as [[_ <-]|[Hic Hi]]; [apply rust_leb_refl|].
    pose proof (Hdev _ _ Hi). assert (Hlt : cur_updated_at c' < cur_updated_at c) by (apply (Hold i); congruence).
    unfold rust_leb, rust_cmp, prod_rust_ord. cbn. unfold rust_cmp, Z_rust_ord.
    rewrite (proj2 (Z.compare_lt_iff (- cur_updated_at c) (- cur_updated_at c'))) by lia. done. }
  pose proof (sort_by_sorted (@rust_leb (Z * string) _) rust_leb_total rust_leb_trans
    (map (fun kv : string * AccountSyncCursor => (- cur_updated_at kv.2, cur_device kv.2))
      (List.filter (fun kv => negb (bool_decide (cur_device kv.2 = own))) (map_to_list cs)))) as Hs.
  fold (other_cursors own cs) in Hs. destruct (other_cursors own cs) as [|x l]; [by apply not_elem_of_nil in Hx|].
  assert (Hhead : x = (- cur_updated_at c, cur_device c)).
  { apply elem_of_cons in Hx as [->|Hx]; [done|]. inversion Hs as [|? ? _ Hf]; subst. rewrite Forall_forall in Hf.
    apply rust_leb_antisym; [by apply Hf | apply Hmin; by left]. }
  subst x. cbn in Hnd, Hin. apply NoDup_cons in Hnd as [Hnl _]. destruct Hnl. apply list_elem_of_fmap in Hin as (y & Hy & Hin).
  rewrite Hy. apply list_elem_of_fmap_2. eapply elem_of_sublist; [exact Hin | apply (sublist_drop l 15)].
Qed.
