(* ===== verification/AccountSyncCycle.v ===== *)
(** * The cycle over a replica (crates/app-api/src/service/account_sync_fetch.rs)

    A device that cannot follow another one's change window reads its whole replica: it asks
    for the keys below a prefix, 64 at most; a full page makes it ask for each longer prefix
    in turn.  The prefix to ask next is the whole position, so a cycle can stop and resume.
    Positions are numbers in base 39 here, one digit for each character of the alphabet and
    zero for the end of the prefix; a query moves the position to the end of its interval. *)
From S2P Require Import Prelude RustStr TimeIndex.

Definition ACCOUNT_SYNC_PAGE : nat := 64.
Definition OWN_EDGES_ROOT : string := "graph/".
Definition CYCLE_ROOTS : list string := ["profile"; "trust/always-visible/"; "follow/"; OWN_EDGES_ROOT; "channel/"].
Definition KEY_ALPHABET : string := "-/0123456789abcdefghijklmnopqrstuvwxyz".

(** [iter().position(..)] and [str::find] of one character *)
Fixpoint position {A} (f : A -> bool) (l : list A) : option nat :=
  match l with [] => None | x :: l => if f x then Some 0%nat else S <$> position f l end.
Definition char_position (a : ascii) (s : string) : option nat :=
  position (fun b => bool_decide (b = a)) (String.list_ascii_of_string s).

(** [String::pop] *)
Fixpoint pop (s : string) : option (string * ascii) :=
  match s with
  | EmptyString => None
  | String a s => Some (match pop s with None => (EmptyString, a) | Some (p, l) => (String a p, l) end)
  end.

(** Every turn drops a character, so the length of the prefix bounds the turns. *)
Fixpoint next_cycle_prefix_fuel (fuel : nat) (prefix : string) : option string :=
  match position (fun root => bool_decide (root = prefix)) CYCLE_ROOTS with
  | Some i => CYCLE_ROOTS !! S i
  | None =>
      match fuel with
      | O => None
      | S fuel =>
          '(parent, last) ← pop prefix;
          match (i ← char_position last KEY_ALPHABET; String.get (S i) KEY_ALPHABET) with
          | Some next => Some (parent ++s String next "")
          | None => next_cycle_prefix_fuel fuel parent
          end
      end
  end.
Definition next_cycle_prefix (prefix : string) : option string := next_cycle_prefix_fuel (String.length prefix) prefix.

Section cycle.
Context {E Store : Type} `{!KeyIndex E Store}.

(** [account_sync_cycle_keys]: the keys to merge and the next prefix. *)
Definition account_sync_cycle_keys (docs_author : option string) (source : Store) (prefix : string)
    : result E (list string * option string) :=
  page ← list_keys source docs_author {| q_prefix := prefix; q_order := Ascending; q_limit := ACCOUNT_SYNC_PAGE |};
  let complete := negb (reached_limit page) in
  mret (List.filter (fun k => complete || bool_decide (k = prefix)) (map ke_key (page_entries page)),
        if complete then next_cycle_prefix prefix else Some (prefix ++s "-")).
End cycle.

(** ** Positions *)
Definition in_alphabet (a : ascii) : bool := bool_decide (is_Some (char_position a KEY_ALPHABET)).
Definition rank (a : ascii) : Z := match char_position a KEY_ALPHABET with Some i => Z.of_nat i + 1 | None => 0 end.
Definition BASE : Z := 39.

(** The position of a prefix of at most [D] characters. *)
Fixpoint code (D : nat) (s : string) : Z :=
  match s with EmptyString => 0 | String a s => rank a * BASE ^ Z.of_nat (pred D) + code (pred D) s end.

Definition alphabetic (s : string) : bool := str_all in_alphabet s.

Lemma rank_bounds a : in_alphabet a = true -> 1 <= rank a < BASE.
Proof. destruct a as [[] [] [] [] [] [] [] []]; vm_compute; (intros; discriminate) || (intros; split; [intros; discriminate | reflexivity]). Qed.

Lemma rank_inj a b : in_alphabet a = true -> in_alphabet b = true -> rank a = rank b -> a = b.
Proof.
  assert (Hall : forallb (fun '(a, b) => negb (in_alphabet a && in_alphabet b && (rank a =? rank b)) || bool_decide (a = b))
            (list_prod (map ascii_of_nat (seq 0 256)) (map ascii_of_nat (seq 0 256))) = true) by by_vm.
  rewrite forallb_forall in Hall. intros Ha Hb Hr.
  assert (Hin : forall c, In c (map ascii_of_nat (seq 0 256))).
  { intros c. apply in_map_iff. exists (nat_of_ascii c). split; [apply ascii_nat_embedding|]. apply in_seq.
    pose proof (nat_ascii_bounded c). lia. }
  specialize (Hall (a, b) (in_prod _ _ _ _ (Hin a) (Hin b))). simpl in Hall. rewrite Ha, Hb, Hr, Z.eqb_refl in Hall.
  simpl in Hall. by apply bool_decide_eq_true in Hall.
Qed.

(** The character after [a] has the next rank, and the last character has none. *)
Lemma next_char a :
  in_alphabet a = true ->
  match (i ← char_position a KEY_ALPHABET; String.get (S i) KEY_ALPHABET) with
  | Some b => in_alphabet b = true /\ rank b = rank a + 1
  | None => rank a = BASE - 1
  end.
Proof. destruct a as [[] [] [] [] [] [] [] []]; vm_compute; intros; (discriminate || split; reflexivity || reflexivity). Qed.

Lemma base_pow n : 0 < BASE ^ Z.of_nat n.
Proof. apply Z.pow_pos_nonneg; unfold BASE; lia. Qed.

Lemma base_pow_S n : BASE ^ Z.of_nat (S n) = BASE * BASE ^ Z.of_nat n.
Proof. rewrite Nat2Z.inj_succ, Z.pow_succ_r by lia. done. Qed.

Lemma code_app D p t : code D (p ++s t) = code D p + code (D - String.length p) t.
Proof.
  revert D. induction p as [|a p IH]; intros D; simpl.
  - by rewrite Nat.sub_0_r.
  - rewrite IH. replace (pred D - String.length p)%nat with (D - S (String.length p))%nat by lia. lia.
Qed.

(** Prefixes of [p] end where [p] ends or later, inside the numbers of [D] digits. *)
Lemma code_bounds D p :
  alphabetic p = true -> (String.length p <= D)%nat ->
  0 <= code D p /\ code D p + BASE ^ Z.of_nat (D - String.length p) <= BASE ^ Z.of_nat D.
Proof.
  revert D. induction p as [|a p IH]; intros D Ha Hl; simpl in *.
  - rewrite Nat.sub_0_r. lia.
  - apply andb_prop in Ha as [Hr%rank_bounds Hp]. destruct D as [|D]; [lia|]. simpl pred.
    destruct (IH D Hp) as [H1 H2]; [lia|]. simpl (S D - S (String.length p))%nat. rewrite base_pow_S.
    pose proof (base_pow D). nia.
Qed.

(** The strings in the interval of [p] are its extensions. *)
Lemma code_interval D p k :
  alphabetic p = true -> alphabetic k = true -> (String.length p <= D)%nat -> (String.length k <= D)%nat ->
  code D p <= code D k < code D p + BASE ^ Z.of_nat (D - String.length p) -> exists t, k = p ++s t.
Proof.
  revert D k. induction p as [|a p IH]; intros D k Hp Hk Hlp Hlk Hc; [by exists k|].
  simpl in *. apply andb_prop in Hp as [Ha Hp]. pose proof (rank_bounds a Ha) as Hra. destruct D as [|D]; [lia|].
  simpl pred in *. simpl (S D - S (String.length p))%nat in Hc. pose proof (base_pow D).
  destruct (code_bounds D p Hp) as [Hp0 Hp1]; [lia|]. destruct k as [|b k]; simpl in Hc, Hk, Hlk; [nia|].
  apply andb_prop in Hk as [Hb Hk]. pose proof (rank_bounds b Hb) as Hrb. destruct (code_bounds D k Hk) as [Hk0 Hk1]; [lia|].
  pose proof (base_pow (D - String.length k)). assert (Hab : rank b = rank a) by nia.
  apply rank_inj in Hab as ->; [|done..]. destruct (IH D k) as [t ->]; [done..|lia|lia|lia|by exists t].
Qed.

(** ** Moving on *)
Lemma some_bind {A B} (a : A) (k : A -> option B) : Some a ≫= k = k a.
Proof. done. Qed.

Lemma pop_snoc p a : pop (p ++s String a "") = Some (p, a).
Proof. induction p as [|b p IH]; simpl; [done|]. by rewrite IH. Qed.

Lemma str_snoc s : s <> "" -> exists p a, s = p ++s String a "".
Proof.
  induction s as [|a s IH]; [done|]. intros _. destruct s as [|b s]; [by exists "", a|].
  destruct IH as (p & c & Hs); [done|]. exists (String a p), c. simpl. by rewrite <- Hs.
Qed.

Lemma str_app_ne r t : r = r ++s t -> t = "".
Proof.
  intros He. apply (f_equal String.length) in He. rewrite str_app_length in He. destruct t; [done|]. simpl in He. lia.
Qed.

(** No root extends another one. *)
Lemma root_position i r t :
  CYCLE_ROOTS !! i = Some r ->
  position (fun root => bool_decide (root = r ++s t)) CYCLE_ROOTS = if decide (t = "") then Some i else None.
Proof.
  intros Hi. assert (Hj : forall j r', CYCLE_ROOTS !! j = Some r' ->
    bool_decide (r' = r ++s t) = bool_decide (j = i) && bool_decide (t = "")).
  { intros j r' Hr. destruct (decide (t = "")) as [->|Ht].
    - rewrite str_app_nil, (bool_decide_true (_ = "")), andb_true_r by done. apply bool_decide_ext.
      do 5 (destruct j as [|j]; [injection Hr as <-; do 5 (destruct i as [|i]; [injection Hi as <-; done|]); done|]). done.
    - rewrite (bool_decide_false (t = "")), andb_false_r by done. apply bool_decide_eq_false. intros He.
      do 5 (destruct i as [|i]; [injection Hi as <-;
        do 5 (destruct j as [|j]; [injection Hr as <-; try discriminate He; by apply str_app_ne in He|]); done|]); done. }
  assert (Hp : forall l k, (forall j r', l !! j = Some r' -> CYCLE_ROOTS !! (k + j)%nat = Some r') ->
    position (fun root => bool_decide (root = r ++s t)) l
    = if decide (t = "") then position (fun j => bool_decide (j = i)) (seq k (length l)) else None).
  { induction l as [|x l IH]; intros k Hl; [by case_decide|]. cbn [position length seq].
    rewrite (Hj k x) by (specialize (Hl 0%nat x eq_refl); by rewrite Nat.add_0_r in Hl).
    rewrite (IH (S k)) by (intros j r' Hr; specialize (Hl (S j) r' Hr); by rewrite Nat.add_succ_r in Hl).
    case_decide; [rewrite (bool_decide_true (t = "")), andb_true_r by done | rewrite (bool_decide_false (t = "")), andb_false_r by done]; done. }
  rewrite (Hp CYCLE_ROOTS 0%nat) by done. case_decide; [|done].
  do 5 (destruct i as [|i]; [done|]). done.
Qed.

(** The position [t] below the root with index [i]. *)
Definition at_pos (x : string) (i : nat) (t : string) : Prop :=
  exists r, CYCLE_ROOTS !! i = Some r /\ x = r ++s t /\ alphabetic t = true.

Lemma at_pos_unique x i t i' t' : at_pos x i t -> at_pos x i' t' -> i = i' /\ t = t'.
Proof.
  intros (r & Hr & -> & _) (r' & Hr' & He & _).
  do 5 (destruct i as [|i]; [injection Hr as <-;
    do 5 (destruct i' as [|i']; [injection Hr' as <-; try discriminate He; by apply str_app_inj in He|]); done|]); done.
Qed.

Definition gcode (D i : nat) (t : string) : Z := Z.of_nat i * BASE ^ Z.of_nat D + code D t.

(** The number of positions. *)
Definition cycle_end (D : nat) : Z := 5 * BASE ^ Z.of_nat D.

Lemma next_fuel_spec fuel D x i t :
  at_pos x i t -> (String.length t <= fuel)%nat -> (String.length t <= D)%nat ->
  let e := gcode D i t + BASE ^ Z.of_nat (D - String.length t) in
  match next_cycle_prefix_fuel fuel x with
  | Some y => exists i' t', at_pos y i' t' /\ (String.length t' <= String.length t)%nat /\ gcode D i' t' = e
  | None => e = cycle_end D
  end.
Proof.
  revert x t. induction fuel as [|fuel IH]; intros x t (r & Hr & -> & Ha) Hf HD e; subst e;
    cbn [next_cycle_prefix_fuel]; rewrite (root_position i r t Hr); case_decide as Ht.
  1,3: subst t; unfold gcode, cycle_end; cbn [code String.length]; rewrite Nat.sub_0_r;
    destruct (CYCLE_ROOTS !! S i) as [r'|] eqn:Hs;
      [exists (S i), ""; split_and!; [exists r'; split_and!; [done | by rewrite str_app_nil | done] | done | cbn [code]; lia]|];
      do 4 (destruct i as [|i]; [done|]); (destruct i as [|i]; [lia|done]).
  - destruct t; [done | simpl in Hf; lia].
  - destruct (str_snoc t Ht) as (p & a & ->). rewrite <- str_app_assoc, pop_snoc, some_bind. cbv beta iota.
    unfold alphabetic in Ha. rewrite str_all_app in Ha. simpl in Ha. rewrite andb_true_r in Ha. apply andb_prop in Ha as [Hp Hc].
    rewrite str_app_length in Hf, HD |- *. simpl in Hf, HD. pose proof (next_char a Hc) as Hn.
    assert (Hpow : BASE ^ Z.of_nat (D - String.length p) = BASE * BASE ^ Z.of_nat (D - (String.length p + 1))).
    { rewrite <- base_pow_S. f_equal. lia. }
    assert (Hcode : code (D - String.length p) (String a "") = rank a * BASE ^ Z.of_nat (D - (String.length p + 1))).
    { simpl. rewrite Z.add_0_r. f_equal. f_equal. lia. }
    destruct (i ← char_position a KEY_ALPHABET; String.get (S i) KEY_ALPHABET) as [b|].
    + destruct Hn as [Hb Hrank]. exists i, (p ++s String b ""). split_and!.
      * exists r. split_and!; [done | by rewrite str_app_assoc |]. unfold alphabetic. rewrite str_all_app. simpl. unfold alphabetic in Hp. by rewrite Hp, Hb.
      * rewrite str_app_length. simpl. lia.
      * unfold gcode. rewrite !code_app, Hcode. cbn [code]. rewrite Z.add_0_r, Hrank.
        replace (pred (D - String.length p)) with (D - (String.length p + 1))%nat by lia. cbn [String.length]. lia.
    + specialize (IH (r ++s p) p). destruct (next_cycle_prefix_fuel fuel (r ++s p)) as [y|].
      * destruct IH as (i' & t' & Hy & Hl & Hg); [by exists r | lia | lia |]. exists i', t'. split_and!; [done | lia |].
        rewrite Hg. unfold gcode. rewrite code_app, Hcode, Hn, Hpow. cbn [String.length]. lia.
      * rewrite <- IH; [|by exists r|lia|lia]. unfold gcode. rewrite code_app, Hcode, Hn, Hpow. cbn [String.length]. lia.
Qed.

(** The next prefix starts where the interval of the last one ends. *)
Lemma next_position D x i t :
  at_pos x i t -> (String.length t <= D)%nat ->
  match next_cycle_prefix x with
  | Some y => exists i' t', at_pos y i' t' /\ (String.length t' <= String.length t)%nat
                /\ gcode D i' t' = gcode D i t + BASE ^ Z.of_nat (D - String.length t)
  | None => gcode D i t + BASE ^ Z.of_nat (D - String.length t) = cycle_end D
  end.
Proof.
  intros Hx HD. apply (next_fuel_spec (String.length x) D x i t Hx); [|done].
  destruct Hx as (r & _ & -> & _). rewrite str_app_length. lia.
Qed.
