(* ===== verification/ChannelKeyStore.v ===== *)
(** * Private channel rows (crates/store: private_channel_keys.rs, memory/private_channel_keys.rs)

    One row per private channel the account joined or left, and one row per key of a
    channel's epochs.  Keys are only added, never replaced; leaving deletes them. *)
From S2P Require Import Prelude RustStr.

Record PrivateChannelRow := {
  pc_channel_key : string;
  pc_topic_id : string;
  pc_channel_id : string;
  pc_label : string;
  pc_creator : string;
  pc_owner : string;
  pc_joined_via : option string;
  pc_audience : string;
  pc_current_epoch : string;
  pc_controller : option string;
  pc_joined : bool;
  pc_updated_at : Z;
  pc_op_id : string
}.
#[export] Instance PrivateChannelRow_eq_dec : EqDecision PrivateChannelRow.
Proof. solve_decision. Defined.

Record PrivateChannelEpochRow := {
  pe_channel_id : string;
  pe_epoch_id : string;
  pe_started_at : Z;
  pe_receive_key_id : string;
  pe_updated_at : Z;
  pe_sealed_secret : string;
  pe_rotation_from : option string;
  pe_rotation_after : option string
}.
#[export] Instance PrivateChannelEpochRow_eq_dec : EqDecision PrivateChannelEpochRow.
Proof. solve_decision. Defined.

Inductive PrivateChannelFilter := AllChannels | OfTopic (topic : string) | OfOwner (owner : string).
Inductive PrivateChannelEpochRange := AtOrBefore (t : Z) | AfterTime (t : Z).

Record MemoryPrivateChannelKeys := {
  channels : gmap string PrivateChannelRow;
  epochs : gmap (string * string) PrivateChannelEpochRow;
  epochs_unwritten : gset (string * string)
}.
Definition empty_channel_keys : MemoryPrivateChannelKeys := {| channels := ∅; epochs := ∅; epochs_unwritten := ∅ |}.

Definition epoch_key (e : PrivateChannelEpochRow) : string * string := (pe_channel_id e, pe_epoch_id e).

(** A key row is added unless the epoch has one. *)
Definition add_epoch (m : MemoryPrivateChannelKeys) (e : PrivateChannelEpochRow) : MemoryPrivateChannelKeys :=
  match epochs m !! epoch_key e with
  | Some _ => m
  | None => {| channels := channels m; epochs := <[epoch_key e := e]> (epochs m);
               epochs_unwritten := {[epoch_key e]} ∪ epochs_unwritten m |}
  end.

Definition put_private_channel (r : PrivateChannelRow) (es : list PrivateChannelEpochRow) (m : MemoryPrivateChannelKeys)
    : MemoryPrivateChannelKeys :=
  foldl add_epoch
    {| channels := <[pc_channel_key r := r]> (channels m); epochs := epochs m; epochs_unwritten := epochs_unwritten m |} es.

Definition put_private_channel_epoch (e : PrivateChannelEpochRow) (m : MemoryPrivateChannelKeys) : bool * MemoryPrivateChannelKeys :=
  (bool_decide (epochs m !! epoch_key e = None), add_epoch m e).

Definition get_private_channel (m : MemoryPrivateChannelKeys) (k : string) : option PrivateChannelRow := channels m !! k.

(** The rows in the order of their keys. *)
Definition channel_rows (m : MemoryPrivateChannelKeys) : list PrivateChannelRow :=
  omap (fun k => channels m !! k) (set_iter (dom (channels m))).
Definition epoch_rows (m : MemoryPrivateChannelKeys) : list PrivateChannelEpochRow :=
  omap (fun k => epochs m !! k) (set_iter (dom (epochs m))).

Definition get_private_channel_by_id (m : MemoryPrivateChannelKeys) (id : string) : option PrivateChannelRow :=
  List.find (fun r => bool_decide (pc_channel_id r = id)) (channel_rows m).

Definition filter_matches (f : PrivateChannelFilter) (r : PrivateChannelRow) : bool :=
  match f with
  | AllChannels => true
  | OfTopic t => bool_decide (pc_topic_id r = t)
  | OfOwner o => bool_decide (pc_owner r = o)
  end.

Definition list_joined_private_channels (f : PrivateChannelFilter) (after : string) (limit : nat) (m : MemoryPrivateChannelKeys)
    : list PrivateChannelRow :=
  take limit (List.filter (fun r => pc_joined r && filter_matches f r)
    (omap (fun k => channels m !! k) (List.filter (fun k => rust_ltb after k) (set_iter (dom (channels m)))))).

Definition get_private_channel_epoch (m : MemoryPrivateChannelKeys) (c e : string) : option PrivateChannelEpochRow :=
  epochs m !! (c, e).

Definition find_private_channel_epoch (m : MemoryPrivateChannelKeys) (receive_key_id : string) : option PrivateChannelEpochRow :=
  List.find (fun e => bool_decide (pe_receive_key_id e = receive_key_id)) (epoch_rows m).

Definition in_range (r : PrivateChannelEpochRange) (started_at : Z) : bool :=
  match r with AtOrBefore t => started_at <=? t | AfterTime t => t <? started_at end.

Definition list_private_channel_epochs (c : string) (r : PrivateChannelEpochRange) (limit : nat) (m : MemoryPrivateChannelKeys)
    : list PrivateChannelEpochRow :=
  let found := sort_by (fun x y => rust_leb (pe_started_at x, pe_epoch_id x) (pe_started_at y, pe_epoch_id y))
    (List.filter (fun e => bool_decide (pe_channel_id e = c) && in_range r (pe_started_at e)) (epoch_rows m)) in
  take limit (match r with AtOrBefore _ => rev found | AfterTime _ => found end).

Definition mark_private_channel_epoch_written (c e : string) (m : MemoryPrivateChannelKeys) : MemoryPrivateChannelKeys :=
  {| channels := channels m; epochs := epochs m; epochs_unwritten := epochs_unwritten m ∖ {[(c, e)]} |}.

Definition list_unwritten_private_channel_epochs (limit : nat) (m : MemoryPrivateChannelKeys) : list PrivateChannelEpochRow :=
  take limit (List.filter (fun e => bool_decide (pe_rotation_from e = None) || bool_decide (is_Some (pe_rotation_after e)))
    (omap (fun k => epochs m !! k) (set_iter (epochs_unwritten m)))).

Definition set_private_channel_rotation (c e : string) (after : option string) (m : MemoryPrivateChannelKeys)
    : MemoryPrivateChannelKeys :=
  {| channels := channels m;
     epochs := alter (fun r => {| pe_channel_id := pe_channel_id r; pe_epoch_id := pe_epoch_id r; pe_started_at := pe_started_at r;
                                  pe_receive_key_id := pe_receive_key_id r; pe_updated_at := pe_updated_at r;
                                  pe_sealed_secret := pe_sealed_secret r;
                                  pe_rotation_from := match after with None => None | Some _ => pe_rotation_from r end;
                                  pe_rotation_after := after |}) (c, e) (epochs m);
     epochs_unwritten := epochs_unwritten m |}.

Definition list_private_channel_rotations (after : string * string) (limit : nat) (m : MemoryPrivateChannelKeys)
    : list PrivateChannelEpochRow :=
  take limit (List.filter (fun e => bool_decide (is_Some (pe_rotation_from e)))
    (omap (fun k => epochs m !! k) (List.filter (fun k => rust_ltb after k) (set_iter (dom (epochs m)))))).

Definition delete_private_channel_epochs (c : string) (limit : nat) (m : MemoryPrivateChannelKeys)
    : list string * MemoryPrivateChannelKeys :=
  let doomed := take limit (List.filter (fun k => bool_decide (k.1 = c)) (set_iter (dom (epochs m)))) in
  (map snd doomed,
   foldl (fun m k => {| channels := channels m; epochs := delete k (epochs m); epochs_unwritten := epochs_unwritten m ∖ {[k]} |})
     m doomed).
