(* ===== verification/Calls.v ===== *)
(** * Calls that change state and may fail

    A Rust method that returns [Result] keeps the changes it made before it failed: a call
    returns its result and the state after it.  [wp] reasons about the state after a call
    in both cases. *)
From S2P Require Import Prelude.

Definition Prog (St A : Type) : Type := St -> result string A * St.

Section prog.
Context {St : Type}.

#[export] Instance prog_ret : MRet (Prog St) := fun A a s => (Ok a, s).
#[export] Instance prog_bind : MBind (Prog St) := fun A B k m s =>
  match m s with (Ok a, s) => k a s | (Err e, s) => (Err e, s) end.

(** The [?] of a pure result. *)
Definition lift {A} (r : result string A) : Prog St A := fun s => (r, s).
Definition get {A} (f : St -> A) : Prog St A := fun s => (Ok (f s), s).
Definition put (f : St -> St) : Prog St unit := fun s => (Ok tt, f s).
(** A failure that the caller logs and drops. *)
Definition logged (m : Prog St unit) : Prog St unit := fun s => (Ok tt, (m s).2).

(** The result of a call as a value ([match call.await]). *)
Definition attempt {A} (m : Prog St A) : Prog St (result string A) := fun s => let '(r, s) := m s in (Ok r, s).

Fixpoint for_each {A} (f : A -> Prog St unit) (l : list A) : Prog St unit :=
  match l with [] => mret tt | x :: l => _ ← f x; for_each f l end.

(** ** What holds after a call *)
Definition wp {A} (m : Prog St A) (Q : result string A -> St -> Prop) (s : St) : Prop := Q (m s).1 (m s).2.

Lemma prog_wp_bind {A B} (m : Prog St A) (k : A -> Prog St B) Q s :
  wp m (fun r s => match r with Ok a => wp (k a) Q s | Err e => Q (Err e) s end) s -> wp (m ≫= k) Q s.
Proof. unfold wp, mbind, prog_bind. by destruct (m s) as [[a|e] s']. Qed.

Lemma prog_wp_mono {A} (m : Prog St A) (Q Q' : result string A -> St -> Prop) s :
  wp m Q s -> (forall r s', Q r s' -> Q' r s') -> wp m Q' s.
Proof. unfold wp. auto. Qed.

Lemma prog_wp_lift {A} (r : result string A) Q s : Q r s -> wp (lift r) Q s.
Proof. done. Qed.

(** ** A relation between the states before and after *)
Section keeps.
Context (R : St -> St -> Prop) `{!PreOrder R}.

Definition keeps {A} (m : Prog St A) : Prop := forall s, R s (m s).2.

Lemma keeps_pure {A} (r : result string A) : keeps (lift r).
Proof. by intros s. Qed.

Lemma keeps_mret {A} (a : A) : keeps (mret a).
Proof. by intros s. Qed.

Lemma keeps_get {A} (f : St -> A) : keeps (get f).
Proof. by intros s. Qed.

Lemma keeps_put f : (forall s, R s (f s)) -> keeps (put f).
Proof. by intros Hf s. Qed.

Lemma keeps_seq {A B} (m : Prog St A) (k : A -> Prog St B) : keeps m -> (forall a, keeps (k a)) -> keeps (m ≫= k).
Proof.
  intros Hm Hk s. specialize (Hm s). unfold mbind, prog_bind. destruct (m s) as [[a|e] s']; [|done].
  simpl in Hm. etrans; [exact Hm | apply Hk].
Qed.

Lemma keeps_logged m : keeps m -> keeps (logged m).
Proof. done. Qed.

Lemma keeps_attempt {A} (m : Prog St A) : keeps m -> keeps (attempt m).
Proof. intros Hm s. specialize (Hm s). unfold attempt. by destruct (m s). Qed.

Lemma keeps_for_each {A} (f : A -> Prog St unit) l : (forall x, keeps (f x)) -> keeps (for_each f l).
Proof. intros Hf. induction l; simpl; [apply keeps_mret | by apply keeps_seq]. Qed.
End keeps.
End prog.

Lemma keeps_impl {St A} (R R' : St -> St -> Prop) (m : Prog St A) :
  (forall s s', R s s' -> R' s s') -> keeps R m -> keeps R' m.
Proof. intros Hr Hm s. auto. Qed.

Create HintDb calls.
#[export] Hint Resolve keeps_pure keeps_mret keeps_get keeps_seq keeps_logged keeps_attempt keeps_for_each : calls.

(** Follows the shape of a call down to the calls that [calls] knows. *)
Ltac keeps_go :=
  cbv zeta; lazymatch goal with
  | |- forall _, _ => intros; keeps_go
  | |- keeps _ (match ?x with _ => _ end) => destruct x; keeps_go
  | |- keeps _ (mbind _ _) => apply keeps_seq; [apply _ | keeps_go | intros ?; keeps_go]
  | |- keeps _ (lift _) => apply keeps_pure; apply _
  | |- keeps _ (mret _) => apply keeps_mret; apply _
  | |- keeps _ (get _) => apply keeps_get; apply _
  | |- keeps _ (logged _) => apply keeps_logged; keeps_go
  | |- keeps _ (attempt _) => apply keeps_attempt; keeps_go
  | |- keeps _ (for_each _ _) => apply keeps_for_each; [apply _ | intros ?; keeps_go]
  | |- _ => try solve [auto with calls]
  end.
