(* ===== verification/AccountSync.v ===== *)
(** * Writing and reading account sync items
    (crates/app-api/src/service: account_sync_support.rs, account_sync_fetch.rs)

    A device adopts an item into its ledger, seals it into its own replica and announces it
    in its change window: a slot per sequence number modulo 256 and the head with the last
    number.  Other devices read the replica, never write it.  The clock, the random bytes
    and the answers of the document store are the environment [Env], which numbers the
    questions it is asked. *)
From S2P Require Import Prelude RustStr Envelope Replicas TimeIndex AccountSyncItem ChannelSeal AccountSyncStore AccountSyncCycle ChannelKeyStore Calls.

#[global] Arguments AccountSyncItem.key {json_value} _.
#[global] Arguments AccountSyncItem.value {json_value} _.
#[global] Arguments op_id {json_value} _.
#[global] Arguments updated_at {json_value} _.

Definition ACCOUNT_SYNC_RECORDS_PER_KEY : nat := 8.
Definition TRUST_ALWAYS_VISIBLE_PREFIX : string := "trust/always-visible/".
Definition add_u64 (x y : Z) : Z := (x + y) mod 2 ^ 64.

Record AccountSyncStatus := {
  st_no_peers : bool;
  st_fetch_failed : bool;
  st_behind : bool;
  st_pending_writes : bool;
  st_rebuilding : bool
}.
#[export] Instance AccountSyncStatus_eq_dec : EqDecision AccountSyncStatus.
Proof. solve_decision. Defined.

(** ** Replicas as sources *)

(** The reads of [DocsSync] on the account's replica: keys, the record of one author and
    key, and a bounded number of records of one key.  A record is its value. *)
Class DocsSource (Src : Type) := {
  source_keys :: KeyIndex string Src;
  query_replica_by_author : Src -> string -> string -> result string (option string);
  query_replica_exact_bounded : Src -> string -> nat -> result string (list string)
}.

(** The in-memory store (crates/docs-sync/src/memory.rs); nothing here reads the content
    hash of an entry. *)
#[export] Instance memory_source : DocsSource MemoryReplica := {
  source_keys := fun m a q => Ok (memory_list_keys (fun v => v) m a q);
  query_replica_by_author := fun m a k => Ok (if decide (own_author m = Some a) then records m !! k else None);
  query_replica_exact_bounded := fun m k limit => Ok (take limit (option_list (records m !! k)))
}.

(** [DocOp::SetJson].  A key is a Rust string, hence UTF-8. *)
Definition set_record (k v : string) (m : MemoryReplica) : MemoryReplica :=
  match decide (forallb (fun kv => valid_utf8 kv.1) (map_to_list (<[k := v]> (records m))) = true) with
  | left H => {| records := <[k := v]> (records m); own_author := own_author m; records_utf8 := H |}
  | right _ => m
  end.

(** ** The environment *)
Record Env := {
  clock : nat -> Z;
  random_bytes : nat -> nat -> string;
  docs_write_ok : nat -> bool;
  discovery_ok : nat -> bool
}.

(** The account and the device it runs on. *)
Record Identity := {
  id_account : string;
  id_keys : AccountSyncKeys;
  id_row_seal : PrivateChannelKeyRowSeal;
  id_docs_author : option string;
  id_device : string
}.

(** The state of the service.  [outside] is the state of the parts that are interfaces here. *)
Record Device (W : Type) := {
  ledger : MemoryAccountSync;
  channel_keys : MemoryPrivateChannelKeys;
  replica : MemoryReplica;
  failed : gset string;
  no_candidates : bool;
  last_status : AccountSyncStatus;
  summary_marks : nat;
  asked : nat;
  outside : W
}.
Arguments ledger {W}. Arguments channel_keys {W}. Arguments replica {W}. Arguments failed {W}. Arguments no_candidates {W}.
Arguments last_status {W}. Arguments summary_marks {W}. Arguments asked {W}. Arguments outside {W}.

Section setters.
Context {W : Type}.
Definition set_ledger (f : MemoryAccountSync -> MemoryAccountSync) (d : Device W) : Device W :=
  {| ledger := f (ledger d); channel_keys := channel_keys d; replica := replica d; failed := failed d; no_candidates := no_candidates d;
     last_status := last_status d; summary_marks := summary_marks d; asked := asked d; outside := outside d |}.
Definition set_channel_keys (f : MemoryPrivateChannelKeys -> MemoryPrivateChannelKeys) (d : Device W) : Device W :=
  {| ledger := ledger d; channel_keys := f (channel_keys d); replica := replica d; failed := failed d; no_candidates := no_candidates d;
     last_status := last_status d; summary_marks := summary_marks d; asked := asked d; outside := outside d |}.
Definition set_replica (f : MemoryReplica -> MemoryReplica) (d : Device W) : Device W :=
  {| ledger := ledger d; channel_keys := channel_keys d; replica := f (replica d); failed := failed d; no_candidates := no_candidates d;
     last_status := last_status d; summary_marks := summary_marks d; asked := asked d; outside := outside d |}.
Definition set_fetch (fs : gset string) (none : bool) (d : Device W) : Device W :=
  {| ledger := ledger d; channel_keys := channel_keys d; replica := replica d; failed := fs; no_candidates := none;
     last_status := last_status d; summary_marks := summary_marks d; asked := asked d; outside := outside d |}.
Definition set_status (s : AccountSyncStatus) (d : Device W) : Device W :=
  {| ledger := ledger d; channel_keys := channel_keys d; replica := replica d; failed := failed d; no_candidates := no_candidates d;
     last_status := s; summary_marks := S (summary_marks d); asked := asked d; outside := outside d |}.
Definition set_outside (w : W) (d : Device W) : Device W :=
  {| ledger := ledger d; channel_keys := channel_keys d; replica := replica d; failed := failed d; no_candidates := no_candidates d;
     last_status := last_status d; summary_marks := summary_marks d; asked := asked d; outside := w |}.

(** The number of the next question. *)
Definition ask_env : Prog (Device W) nat := fun d =>
  (Ok (asked d),
   {| ledger := ledger d; channel_keys := channel_keys d; replica := replica d; failed := failed d; no_candidates := no_candidates d;
      last_status := last_status d; summary_marks := summary_marks d; asked := S (asked d); outside := outside d |}).
End setters.

Section sync.
Context {hex_crate : HexCrate} {crypto : Crypto} {json_value : JsonValue} {aead : Aead}.
Context `{!Json (@AccountSyncItem json_value)} `{!Json SealedAccountSyncItem} `{!Serde AccountSyncChangeV1}.
Context {W : Type} (env : Env) (me : Identity).
#[local] Abbreviation Call := (Prog (Device W)).

Definition now : Call Z := n ← ask_env; mret (clock env n).
Definition random (len : nat) : Call string := n ← ask_env; mret (random_bytes env n len).

(** [local_device_id] *)
Definition local_device_id : Call string :=
  n ← ask_env; lift (if discovery_ok env n then Ok (id_device me) else Err "discovery failed").

(** [apply_doc_op(SetJson)] on the account's replica *)
Definition apply_set_json (k v : string) : Call unit :=
  n ← ask_env;
  _ ← lift (ensure (docs_write_ok env n) "the docs write failed");
  put (set_replica (set_record k v)).

Definition row_of (i : AccountSyncItem) : AccountSyncRow :=
  {| row_key := docs_key (key i); row_op_id := op_id i; row_updated_at := updated_at i; row_value := value_to_string <$> value i |}.

(** [AccountSyncItem::edit] with fresh random bytes *)
Definition edited (k : AccountSyncItemKey) (at_ : Z) (v : option Value) : Call AccountSyncItem :=
  r ← random 16; mret (edit r k at_ v).

(** ** Reading *)

(** [max_by] on versions keeps the last of equal elements. *)
Definition max_version (l : list AccountSyncItem) : option AccountSyncItem :=
  foldl (fun acc x => match acc with
                      | None => Some x
                      | Some y => Some (if rust_leb (updated_at y, op_id y) (updated_at x, op_id x) then x else y)
                      end) None l.

Definition open_record (k : string) (v : string) : option AccountSyncItem :=
  sealed ← from_json (T := SealedAccountSyncItem) v;
  match open (id_keys me) (id_account me) k sealed with Ok i => Some i | Err _ => None end.

Context {Src : Type} `{!DocsSource Src}.

Definition read_account_sync_record (source : Src) (k : string) : result string (option AccountSyncItem) :=
  own ← match id_docs_author me with
        | Some a => r ← query_replica_by_author source a k; mret (r ≫= open_record k)
        | None => mret None
        end;
  match own with
  | Some i => mret (Some i)
  | None =>
      rs ← query_replica_exact_bounded source k ACCOUNT_SYNC_RECORDS_PER_KEY;
      mret (max_version (omap (open_record k) rs))
  end.

(** [read_account_sync_change] *)
Definition read_account_sync_change (source : Src) (k : AccountSyncItemKey) : result string (option AccountSyncChangeV1) :=
  i ← read_account_sync_record source (docs_key k);
  match i ≫= value with
  | None => mret None
  | Some v => c ← ok_of_option "invalid change" (from_value (T := AccountSyncChangeV1) v); mret (Some c)
  end.
End sync.

Section writing.
Context {hex_crate : HexCrate} {crypto : Crypto} {json_value : JsonValue} {aead : Aead}.
Context `{!Json (@AccountSyncItem json_value)} `{!Json SealedAccountSyncItem} `{!Serde AccountSyncChangeV1}.
Context {W : Type} (env : Env) (me : Identity).
#[local] Abbreviation Call := (Prog (Device W)).

(** ** Status *)
Definition account_sync_status (own : string) (d : Device W) : AccountSyncStatus :=
  let cursors := list_account_sync_cursors (ledger d) in
  {| st_no_peers := no_candidates d;
     st_fetch_failed := negb (bool_decide (failed d = ∅));
     st_behind := existsb (fun c => negb (bool_decide (cur_device c = own))
                                    && (bool_decide (is_Some (cycle_prefix c)) || (cur_seq c <? cur_head c))) cursors;
     st_pending_writes := negb (bool_decide (list_unwritten_account_sync_rows 1 (ledger d) = []))
                          || negb (bool_decide (list_unwritten_private_channel_epochs 1 (channel_keys d) = []));
     st_rebuilding := match List.find (fun c => bool_decide (cur_device c = own)) cursors with
                      | None => true
                      | Some c => bool_decide (is_Some (cycle_prefix c))
                      end |}.

Definition refresh_account_sync_status : Call unit := logged (
  own ← local_device_id env me;
  status ← get (account_sync_status own);
  last ← get last_status;
  if decide (status = last) then mret tt else put (set_status status)).

(** ** Writing *)
Definition set_account_sync_entry (i : AccountSyncItem) : Call unit :=
  nonce ← random env 24;
  sealed ← lift (seal (id_keys me) nonce (id_account me) i);
  apply_set_json env (docs_key (key i)) (to_json sealed).

Definition mark_account_sync_item_written (i : AccountSyncItem) : Call unit :=
  _ ← put (match key i with
           | ChannelCapability c e => set_channel_keys (mark_private_channel_epoch_written c e)
           | _ => set_ledger (mark_account_sync_written (row_of i))
           end);
  refresh_account_sync_status.

(** The change of the window: the slot of the next number, then the head. *)
Definition announce (device_id : string) (i : AccountSyncItem) : Call unit :=
  own ← get replica;
  head ← lift (read_account_sync_change me own (ChangeHead device_id));
  let seq := add_u64 (match head with Some h => ch_seq h | None => 0 end) 1 in
  at_ ← now env;
  slot ← edited env (change_slot device_id seq) at_ (Some (to_value {| ch_seq := seq; ch_docs_key := docs_key (key i) |}));
  _ ← set_account_sync_entry slot;
  new_head ← edited env (ChangeHead device_id) at_ (Some (to_value {| ch_seq := seq; ch_docs_key := "" |}));
  set_account_sync_entry new_head.

Definition try_write_account_sync_item (i : AccountSyncItem) : Call unit :=
  device_id ← local_device_id env me;
  _ ← set_account_sync_entry i;
  _ ← announce device_id i;
  mark_account_sync_item_written i.

Definition write_account_sync_item (i : AccountSyncItem) : Call unit :=
  _ ← logged (try_write_account_sync_item i);
  refresh_account_sync_status.

Definition adopt (r : AccountSyncRow) : Call bool := fun d =>
  let '(b, m) := adopt_account_sync_row r (ledger d) in (Ok b, set_ledger (fun _ => m) d).

Definition publish_account_sync_item (i : AccountSyncItem) : Call unit :=
  adopted ← adopt (row_of i);
  if (adopted : bool) then write_account_sync_item i else mret tt.

(** [holds_account_sync_item] *)
Definition holds_account_sync_item (i : AccountSyncItem) (d : Device W) : bool :=
  match get_account_sync_row (ledger d) (docs_key (key i)) with
  | Some r => (row_updated_at r =? updated_at i) && bool_decide (row_op_id r = op_id i)
  | None => false
  end.
End writing.
