(* ===== verification/AccountSyncMerge.v ===== *)
(** * Merging items of other devices (crates/app-api/src/service/account_sync_support.rs)

    An item of another device is adopted when its version is newer, and then takes effect:
    the profile is committed, follow and block edges enter their tables.  An item whose value
    does not match its key is refused.  The profile and edge tables are the interface
    [Social]; items of private channels are merged by [ChannelMerge]. *)
From S2P Require Import Prelude RustStr Envelope Replicas TimeIndex AccountSyncItem AccountSyncStore AccountSyncCycle ChannelKeyStore Calls AccountSync.

(** ** Profiles (crates/core/src/profile.rs) *)
Record ProfileContent (Asset : Type) := {
  pr_author : string;
  pr_name : option string;
  pr_display_name : option string;
  pr_about : option string;
  pr_picture : option Asset;
  pr_nip05 : option string
}.
Arguments pr_author {Asset}.

(** The content and the time of a profile envelope; the other fields are those of the content. *)
Definition parse_profile {crypto : Crypto} {Asset} `{!Json (ProfileContent Asset)} (e : KukuriEnvelope)
    : result string (option (ProfileContent Asset * Z)) :=
  if negb (bool_decide (env_kind e = "identity-profile")) then Ok None
  else
    c ← ok_of_option "failed to parse profile envelope" (from_json (T := ProfileContent Asset) (content e));
    _ ← validate_pubkey (pr_author c);
    if negb (bool_decide (pr_author c = pubkey e)) then Err "profile author pubkey must match envelope signer"
    else Ok (Some (c, Envelope.created_at e)).

(** The profile, edge and relationship tables of the rest of the service: the time of the
    own profile, the time and envelope of an edge, and the commits. *)
Class Social (W : Type) := {
  my_profile_updated_at : W -> result string Z;
  commit_my_profile : KukuriEnvelope -> Prog W unit;
  get_follow_edge : W -> string -> string -> result string (option (Z * string));
  get_block_edge : W -> string -> string -> result string (option (Z * string));
  commit_own_follow_edge : KukuriEnvelope -> Prog W bool;
  commit_own_block_edge : KukuriEnvelope -> Prog W bool;
  put_envelope : KukuriEnvelope -> Prog W unit;
  relationship_changed : string -> W -> W
}.

(** A call of the other parts. *)
Definition outside_call {W A} (m : Prog W A) : Prog (Device W) A := fun d =>
  let '(r, w) := m (outside d) in (r, set_outside w d).
Definition outside_get {W A} (f : W -> result string A) : Prog (Device W) A := fun d => (f (outside d), d).

Section merge.
Context {hex_crate : HexCrate} {crypto : Crypto} {json_value : JsonValue}.
Context `{!Serde KukuriEnvelope} `{!Serde EdgeStatus} `{!Json (EdgeContent FollowTag)} `{!Json (EdgeContent BlockTag)}.
Context {Asset : Type} `{!Json (ProfileContent Asset)} {W : Type} `{!Social W}.
(** [true_value] is the JSON value [true]. *)
Context (true_value : Value) (account : string).
#[local] Abbreviation Call := (Prog (Device W)).

Definition envelope_of (i : AccountSyncItem) (missing : string) : result string KukuriEnvelope :=
  v ← ok_of_option missing (value i);
  ok_of_option "invalid envelope" (from_value (T := KukuriEnvelope) v).

Definition merge_profile (i : AccountSyncItem) : Call bool :=
  e ← lift (envelope_of i "a profile item must carry its envelope");
  _ ← lift (verify e);
  same ← lift (if bool_decide (pubkey e = account)
               then p ← profile e;
                    if decide (p = i) then q ← parse_profile (Asset := Asset) e; mret (bool_decide (is_Some q)) else mret false
               else mret false);
  _ ← lift (ensure same "the profile item does not match its envelope");
  row ← get (fun d => get_account_sync_row (ledger d) (docs_key (key i)));
  older ← (if bool_decide (row = None)
           then t ← outside_get my_profile_updated_at; mret (updated_at i <? t) else mret false);
  if (older : bool) then mret false
  else
    adopted ← adopt (row_of i);
    again ← (if (adopted : bool) then mret true
             else holds ← get (holds_account_sync_item i);
                  if (holds : bool) then t ← outside_get my_profile_updated_at; mret (t <? updated_at i) else mret false);
    if negb again then mret false
    else
      _ ← outside_call (commit_my_profile e);
      _ ← put (fun d => set_outside (relationship_changed account (outside d)) d);
      mret adopted.

(** The local edge and the other party. *)
Definition local_edge (k : AccountSyncItemKey) (w : W) : result string (option (Z * string) * string) :=
  match k with
  | OwnFollow t => e ← get_follow_edge w account t; mret (e, t)
  | OwnBlock t => e ← get_block_edge w account t; mret (e, t)
  | FollowerEdge s => e ← get_follow_edge w s account; mret (e, s)
  | _ => Err "not an edge item"
  end.

Definition commit_edge (k : AccountSyncItemKey) (e : KukuriEnvelope) : Prog W bool :=
  match k with
  | OwnFollow _ => commit_own_follow_edge e
  | OwnBlock _ => commit_own_block_edge e
  | _ => _ ← put_envelope e; mret true
  end.

Definition merge_edge (i : AccountSyncItem) : Call bool :=
  e ← lift (envelope_of i "an edge item must carry its envelope");
  made ← lift (edge account e);
  _ ← lift (ensure (bool_decide (made = i)) "the edge item does not match its envelope");
  _ ← lift (verify e);
  '(local, other) ← outside_get (local_edge (key i));
  if match local with Some (t, id) => (updated_at i <? t) || bool_decide (id = env_id e) | None => false end then mret false
  else
    adopted ← adopt (row_of i);
    holds ← get (holds_account_sync_item i);
    if negb adopted && negb holds then mret false
    else
      committed ← outside_call (commit_edge (key i) e);
      _ ← (if (committed : bool)
           then put (fun d => set_outside (relationship_changed account (relationship_changed other (outside d))) d)
           else mret tt);
      mret (adopted && committed).

(** [merge_account_sync_item]; [merge_channel_item] is in [ChannelMerge]. *)
Definition merge_account_sync_item (merge_channel_item : AccountSyncItem -> Call bool) (i : AccountSyncItem) : Call bool :=
  match key i with
  | Profile => merge_profile i
  | TrustAlwaysVisible _ =>
      _ ← lift (ensure (match value i with None => true | Some v => bool_decide (v = true_value) end)
                  "an always-visible item must be true or a tombstone");
      adopt (row_of i)
  | OwnFollow _ | OwnBlock _ | FollowerEdge _ => merge_edge i
  | ParticipantFollow _ _ =>
      _ ← lift (v ← ok_of_option "a follow item must carry its status" (value i);
                ok_of_option "invalid status" (from_value (T := EdgeStatus) v));
      adopt (row_of i)
  | _ => merge_channel_item i
  end.

(** ** Authors that are always shown *)
Definition is_ascii_hexdigit_str (s : string) : bool := str_all is_ascii_hexdigit s.

Definition normalize_author_pubkey (s : string) : result string string :=
  let t := trim s in
  if negb (str_len t =? 64) || negb (is_ascii_hexdigit_str t) then Err "invalid author pubkey" else Ok t.

Definition trust_always_visible_item (random author : string) (at_ : Z) (visible : bool) : result string AccountSyncItem :=
  a ← normalize_author_pubkey author;
  mret (edit random (TrustAlwaysVisible a) at_ (if visible then Some true_value else None)).

Definition trust_always_visible (authors : list string) (m : MemoryAccountSync) : gset string :=
  list_to_set (List.filter (fun a =>
    match get_account_sync_row m (TRUST_ALWAYS_VISIBLE_PREFIX ++s a) with
    | Some r => bool_decide (is_Some (row_value r)) | None => false end) authors).

Definition list_trust_always_visible (m : MemoryAccountSync) : list string :=
  omap (strip_prefix TRUST_ALWAYS_VISIBLE_PREFIX) (list_account_sync_keys TRUST_ALWAYS_VISIBLE_PREFIX m).
End merge.

Section trust_calls.
Context {hex_crate : HexCrate} {crypto : Crypto} {json_value : JsonValue} {aead : Aead}.
Context `{!Json (@AccountSyncItem json_value)} `{!Json SealedAccountSyncItem} `{!Serde AccountSyncChangeV1}.
Context {W : Type} (env : Env) (me : Identity) (true_value : Value).
#[local] Abbreviation Call := (Prog (Device W)).

Definition set_trust_always_visible (author : string) (visible : bool) : Call unit :=
  at_ ← now env;
  r ← random env 16;
  i ← lift (trust_always_visible_item true_value r author at_ visible);
  publish_account_sync_item env me i.

(** The settings of an older version have no known time: 0, older than any edit. *)
Definition import_trust_always_visible (author : string) : Call unit :=
  r ← random env 16;
  i ← lift (trust_always_visible_item true_value r author 0 true);
  _ ← adopt (row_of i);
  mret tt.
End trust_calls.
