(* ===== verification/ChannelRows.v ===== *)
(** * Rows of private channels (crates/app-api/src/service: private_channel_rows.rs,
    private_channels_support.rs, projection_support.rs)

    The membership of a channel and the keys of its epochs are rows of the store; memory
    holds only the channels whose scope is leased.  Joining, advancing to a new epoch and
    leaving write the row, adopt the item for the account's other devices, and write it to
    the replica.  The scope leases, the participant records and the registered replica
    secrets belong to other parts of the service, the interface [ChannelService]. *)
From S2P Require Import Prelude RustStr Envelope Replicas TimeIndex AccountSyncItem ChannelSeal AccountSyncStore AccountSyncCycle ChannelKeyStore Calls AccountSync AccountSyncMerge.

Definition PRIVATE_CHANNEL_PAGE : nat := 128.
Definition SCOPE_LIMIT_REACHED : string := "SCOPE_LIMIT_REACHED".

Inductive ChannelAudienceKind := InviteOnly | FriendOnly | FriendPlus.
#[export] Instance ChannelAudienceKind_eq_dec : EqDecision ChannelAudienceKind.
Proof. solve_decision. Defined.

Record PrivateChannelController := {
  ctl_device : string;
  ctl_generation : Z;
  ctl_transfer_to : option string
}.
#[export] Instance PrivateChannelController_eq_dec : EqDecision PrivateChannelController.
Proof. solve_decision. Defined.

Record PrivateChannelEpochCapability := { cap_epoch_id : string; cap_secret_hex : string }.

Record ChannelMembershipV1 := {
  ms_topic_id : string;
  ms_label : string;
  ms_creator : string;
  ms_owner : string;
  ms_joined_via : option string;
  ms_audience : ChannelAudienceKind;
  ms_current_epoch : string
}.

Record JoinedPrivateChannelState := {
  js_generation : Z;
  js_topic_id : string;
  js_channel_id : string;
  js_label : string;
  js_creator : string;
  js_owner : string;
  js_joined_via : option string;
  js_audience : ChannelAudienceKind;
  js_current_epoch : string;
  js_secret_hex : string;
  js_controller : option PrivateChannelController
}.
#[export] Instance JoinedPrivateChannelState_eq_dec : EqDecision JoinedPrivateChannelState.
Proof. solve_decision. Defined.

Inductive JoinMode := OwnerSeed | InviteToken | FriendOnlyGrant | FriendPlusShare | RotationRedeem.
Record ParticipantDoc := {
  pd_channel_id : string;
  pd_topic_id : string;
  pd_epoch_id : string;
  pd_participant : string;
  pd_joined_at : Z;
  pd_is_owner : bool;
  pd_join_mode : option JoinMode;
  pd_sponsor : option string;
  pd_share_token : option string;
  pd_left_at : option Z
}.

(** ** Names *)

(** [epoch_start_millis] *)
Definition epoch_start_millis (id : string) : option Z :=
  rest ← strip_prefix "epoch-" id;
  first ← head (split "-" rest);
  parse_i64 first.

Definition epoch_started_at (id : string) : Z := default i64_min (epoch_start_millis id).

Definition joined_private_channel_key (topic_id channel_id : string) : string := topic_id ++s "::" ++s channel_id.
Definition private_channel_holder (topic channel : string) : string := "private:" ++s topic ++s "::" ++s channel.

Definition audience_name (k : ChannelAudienceKind) : string :=
  match k with InviteOnly => "invite_only" | FriendOnly => "friend_only" | FriendPlus => "friend_plus" end.

(** [serde_json::from_value(Value::String(name))] *)
Definition audience_from_name (n : string) : option ChannelAudienceKind :=
  List.find (fun k => bool_decide (audience_name k = n)) [InviteOnly; FriendOnly; FriendPlus].

Definition current_private_channel_replica_id (s : JoinedPrivateChannelState) : string :=
  private_channel_replica_for_epoch (js_channel_id s) (js_current_epoch s).

Definition with_generation (g : Z) (s : JoinedPrivateChannelState) : JoinedPrivateChannelState :=
  {| js_generation := g; js_topic_id := js_topic_id s; js_channel_id := js_channel_id s; js_label := js_label s;
     js_creator := js_creator s; js_owner := js_owner s; js_joined_via := js_joined_via s; js_audience := js_audience s;
     js_current_epoch := js_current_epoch s; js_secret_hex := js_secret_hex s; js_controller := js_controller s |}.

Definition same_private_channel_state (current next : JoinedPrivateChannelState) : bool :=
  bool_decide (current = with_generation (js_generation current) next).

Definition membership_value (s : JoinedPrivateChannelState) : ChannelMembershipV1 :=
  {| ms_topic_id := js_topic_id s; ms_label := js_label s; ms_creator := js_creator s; ms_owner := js_owner s;
     ms_joined_via := js_joined_via s; ms_audience := js_audience s; ms_current_epoch := js_current_epoch s |}.

Definition private_channel_row `{!Json PrivateChannelController} (s : JoinedPrivateChannelState) (joined : bool) (version : Z * string)
    : PrivateChannelRow :=
  {| pc_channel_key := joined_private_channel_key (js_topic_id s) (js_channel_id s);
     pc_topic_id := js_topic_id s; pc_channel_id := js_channel_id s; pc_label := js_label s; pc_creator := js_creator s;
     pc_owner := js_owner s; pc_joined_via := js_joined_via s; pc_audience := audience_name (js_audience s);
     pc_current_epoch := js_current_epoch s; pc_controller := to_json <$> js_controller s; pc_joined := joined;
     pc_updated_at := version.1; pc_op_id := version.2 |}.

(** The rows with one field replaced ([..row]). *)
Definition row_with (joined : bool) (epoch : string) (controller : option string) (version : Z * string) (r : PrivateChannelRow)
    : PrivateChannelRow :=
  {| pc_channel_key := pc_channel_key r; pc_topic_id := pc_topic_id r; pc_channel_id := pc_channel_id r; pc_label := pc_label r;
     pc_creator := pc_creator r; pc_owner := pc_owner r; pc_joined_via := pc_joined_via r; pc_audience := pc_audience r;
     pc_current_epoch := epoch; pc_controller := controller; pc_joined := joined;
     pc_updated_at := version.1; pc_op_id := version.2 |}.
Definition row_version (r : PrivateChannelRow) : Z * string := (pc_updated_at r, pc_op_id r).

(** ** The other parts *)

(** The states of the leased channels and their generation, and whether rows changed. *)
Record ChannelMemory := {
  joined_private_channels : gmap string JoinedPrivateChannelState;
  content_scope_generation : Z;
  rows_changed : bool
}.
Definition memory_insert (k : string) (s : JoinedPrivateChannelState) (m : ChannelMemory) : ChannelMemory :=
  {| joined_private_channels := <[k := s]> (joined_private_channels m); content_scope_generation := content_scope_generation m;
     rows_changed := rows_changed m |}.
Definition memory_remove (k : string) (m : ChannelMemory) : ChannelMemory :=
  {| joined_private_channels := delete k (joined_private_channels m); content_scope_generation := content_scope_generation m;
     rows_changed := rows_changed m |}.
(** [fetch_add(1)] wraps at [u64]. *)
Definition memory_next_generation (m : ChannelMemory) : ChannelMemory :=
  {| joined_private_channels := joined_private_channels m; content_scope_generation := add_u64 (content_scope_generation m) 1;
     rows_changed := rows_changed m |}.
Definition memory_rows_changed (m : ChannelMemory) : ChannelMemory :=
  {| joined_private_channels := joined_private_channels m; content_scope_generation := content_scope_generation m; rows_changed := true |}.

Class ChannelService (W : Type) := {
  channel_memory : W -> ChannelMemory;
  with_channel_memory : (ChannelMemory -> ChannelMemory) -> W -> W;
  install_private_epoch_secrets : Prog W unit;
  (** the scope leases: take the key of a channel (whether it was taken now), release a
      holder, restart the task of a channel *)
  hold_joined_private_channel : string -> string -> Prog W bool;
  release_scope_holder : string -> W -> W;
  restart_scope_subscription : string -> string -> W -> W;
  (** the own record in the replica of an epoch, and writing the own record *)
  fetch_own_participant : W -> string -> result string (option ParticipantDoc);
  record_private_channel_participant : ParticipantDoc -> string -> string -> string -> Prog W unit;
  (** dropping the projections and the secret of replicas *)
  forget_replicas : list string -> Prog W unit
}.

Section rows.
Context {hex_crate : HexCrate} {crypto : Crypto} {json_value : JsonValue} {aead : Aead} {blake3 : Blake3Crate}.
Context `{!Json (@AccountSyncItem json_value)} `{!Json SealedAccountSyncItem} `{!Serde AccountSyncChangeV1}.
Context `{!Serde PrivateChannelEpochCapability} `{!Serde ChannelMembershipV1} `{!Serde PrivateChannelController} `{!Json PrivateChannelController}.
Context {W : Type} `{!ChannelService W} (env : Env) (me : Identity).
#[local] Abbreviation Call := (Prog (Device W)).

Definition current_author_pubkey : string := id_account me.

Definition in_rows {A} (f : MemoryPrivateChannelKeys -> A) : Call A := get (fun d => f (channel_keys d)).
Definition write_rows (f : MemoryPrivateChannelKeys -> MemoryPrivateChannelKeys) : Call unit := put (set_channel_keys f).
Definition memory : Call ChannelMemory := get (fun d => channel_memory (outside d)).
Definition set_memory (f : ChannelMemory -> ChannelMemory) : Call unit := put (fun d => set_outside (with_channel_memory f (outside d)) d).
Definition restart_scope (topic channel : string) : Call unit :=
  put (fun d => set_outside (restart_scope_subscription topic channel (outside d)) d).

(** The next generation, as it is announced. *)
Definition bump_generation : Call Z :=
  m ← memory;
  _ ← set_memory memory_next_generation;
  mret (u64_saturating_add (content_scope_generation m) 1).

(** [first_controller] *)
Definition first_controller : Call PrivateChannelController :=
  id ← local_device_id env me;
  mret {| ctl_device := id; ctl_generation := 1; ctl_transfer_to := None |}.

(** ** Keys of epochs *)
Definition private_channel_epoch_row (channel_id epoch_id secret_hex : string) (at_ : Z) : Call PrivateChannelEpochRow :=
  secret ← lift (ok_of_option "invalid secret" (parse_namespace_secret_hex secret_hex));
  id ← lift (receive_epoch_key_id secret channel_id epoch_id);
  nonce ← random env 24;
  sealed ← lift (seal_secret (id_row_seal me) nonce channel_id epoch_id secret_hex);
  mret {| pe_channel_id := channel_id; pe_epoch_id := epoch_id; pe_started_at := epoch_started_at epoch_id;
          pe_receive_key_id := id; pe_updated_at := at_; pe_sealed_secret := sealed;
          pe_rotation_from := None; pe_rotation_after := None |}.

Definition open_epoch_row (e : PrivateChannelEpochRow) : result string (string * string) :=
  secret ← open_secret (id_row_seal me) (pe_channel_id e) (pe_epoch_id e) (pe_sealed_secret e);
  mret (pe_epoch_id e, secret).

Definition private_channel_epoch_secret (channel_id epoch_id : string) (m : MemoryPrivateChannelKeys) : result string (option string) :=
  match get_private_channel_epoch m channel_id epoch_id with
  | None => Ok None
  | Some e => es ← open_epoch_row e; mret (Some es.2)
  end.

Fixpoint open_epoch_rows (l : list PrivateChannelEpochRow) : result string (list (string * string)) :=
  match l with [] => Ok [] | e :: l => x ← open_epoch_row e; xs ← open_epoch_rows l; mret (x :: xs) end.

Definition private_channel_epochs (channel_id : string) (range : PrivateChannelEpochRange) (limit : nat) (m : MemoryPrivateChannelKeys)
    : result string (list (string * string)) :=
  open_epoch_rows (list_private_channel_epochs channel_id range limit m).

Definition private_channel_epoch_ids (channel_id : string) (range : PrivateChannelEpochRange) (limit : nat) (m : MemoryPrivateChannelKeys)
    : list string :=
  map pe_epoch_id (list_private_channel_epochs channel_id range limit m).

Definition archived_private_channel_epochs (s : JoinedPrivateChannelState) (limit : nat) (m : MemoryPrivateChannelKeys)
    : result string (list (string * string)) :=
  let current_at := epoch_started_at (js_current_epoch s) in
  if current_at =? i64_min then Ok []
  else private_channel_epochs (js_channel_id s) (AtOrBefore (sub_i64 current_at 1)) limit m.

(** ** The state of a row *)
Definition controller_of (o : option string) : result string (option PrivateChannelController) :=
  match o with
  | None => Ok None
  | Some s => c ← ok_of_option "invalid controller" (from_json (T := PrivateChannelController) s); mret (Some c)
  end.

Definition private_channel_state_from_row (r : PrivateChannelRow) (m : MemoryPrivateChannelKeys)
    : result string (option JoinedPrivateChannelState) :=
  if negb (pc_joined r) then Ok None
  else
    secret ← private_channel_epoch_secret (pc_channel_id r) (pc_current_epoch r) m;
    match secret with
    | None => Ok None
    | Some secret =>
        audience ← ok_of_option "invalid audience" (audience_from_name (pc_audience r));
        controller ← controller_of (pc_controller r);
        mret (Some {| js_generation := 0; js_topic_id := pc_topic_id r; js_channel_id := pc_channel_id r; js_label := pc_label r;
                      js_creator := pc_creator r; js_owner := pc_owner r; js_joined_via := pc_joined_via r; js_audience := audience;
                      js_current_epoch := pc_current_epoch r; js_secret_hex := secret; js_controller := controller |})
    end.

Definition stored_private_channel_state (k : string) (m : MemoryPrivateChannelKeys) : result string (option JoinedPrivateChannelState) :=
  match get_private_channel m k with None => Ok None | Some r => private_channel_state_from_row r m end.

Definition joined_private_channel_state (topic_id channel_id : string) (d : Device W) : option JoinedPrivateChannelState :=
  let k := joined_private_channel_key topic_id channel_id in
  match joined_private_channels (channel_memory (outside d)) !! k with
  | Some s => Some s
  | None => match stored_private_channel_state k (channel_keys d) with Ok o => o | Err _ => None end
  end.

Definition private_channel_epoch_by_receive_key (id : string) (d : Device W)
    : result string (option (JoinedPrivateChannelState * string * string)) :=
  match find_private_channel_epoch (channel_keys d) id with
  | None => Ok None
  | Some e =>
      match get_private_channel_by_id (channel_keys d) (pe_channel_id e) with
      | None => Ok None
      | Some r =>
          match joined_private_channel_state (pc_topic_id r) (pc_channel_id r) d with
          | None => Ok None
          | Some s =>
              '(epoch_id, secret_hex) ← open_epoch_row e;
              secret ← ok_of_option "invalid secret" (hex_decode secret_hex);
              _ ← ensure (str_len secret =? 32) "invalid secret";
              mret (Some (s, epoch_id, secret))
          end
      end
  end.

(** ** Memory *)
Definition evict_private_channels (released : list (string * string)) : Call unit :=
  m ← memory;
  let ks := map (fun tc => joined_private_channel_key tc.1 tc.2) released in
  let evicted := existsb (fun k => bool_decide (is_Some (joined_private_channels m !! k))) ks in
  _ ← for_each (fun k => set_memory (memory_remove k)) ks;
  if evicted then _ ← bump_generation; mret tt else mret tt.

Definition load_leased_private_channel (topic_id channel_id : string) : Call (option JoinedPrivateChannelState) :=
  let k := joined_private_channel_key topic_id channel_id in
  stored ← in_rows (stored_private_channel_state k);
  match stored with
  | Ok (Some s) =>
      m ← memory;
      match joined_private_channels m !! k with
      | Some current =>
          if same_private_channel_state current s then mret (Some current)
          else g ← bump_generation; _ ← set_memory (memory_insert k (with_generation g s)); mret (Some (with_generation g s))
      | None => g ← bump_generation; _ ← set_memory (memory_insert k (with_generation g s)); mret (Some (with_generation g s))
      end
  | _ => mret None
  end.

(** ** Writing rows *)
Fixpoint epoch_rows_of (channel_id : string) (at_ : Z) (l : list (string * string)) : Call (list PrivateChannelEpochRow) :=
  match l with
  | [] => mret []
  | (e, s) :: l => r ← private_channel_epoch_row channel_id e s at_; rs ← epoch_rows_of channel_id at_ l; mret (r :: rs)
  end.

(** Adopting an item; it is to be written to the replica when it was adopted and is not of
    an older version. *)
Definition adopt_for_writing (i : AccountSyncItem) (at_ : Z) : Call (list AccountSyncItem) :=
  adopted ← adopt (row_of i);
  mret (if adopted && negb (at_ =? 0) then [i] else []).

(** [local_device_id().await.ok() == Some(device)] *)
Definition is_local_device (device : string) : Call bool :=
  r ← attempt (local_device_id env me);
  mret (match r with Ok id => bool_decide (id = device) | Err _ => false end).

(** The membership of the row that is written: a new item for a join, else the present version. *)
Definition membership_version (s : JoinedPrivateChannelState) (at_ : Z) (join : bool) : Call (option AccountSyncItem * (Z * string)) :=
  existing ← in_rows (fun m => get_private_channel m (joined_private_channel_key (js_topic_id s) (js_channel_id s)));
  let fresh := i ← edited env (ChannelMembership (js_channel_id s)) at_ (Some (to_value (membership_value s)));
               mret (Some i, (updated_at i, op_id i)) in
  match existing with
  | Some r => if pc_joined r && negb join then mret (None, row_version r) else fresh
  | None => fresh
  end.

(** The items to write to the replica: the membership, the controller of a channel that
    begins on its device, and the key. *)
Definition persist_items (s : JoinedPrivateChannelState) (at_ : Z) (join : bool) (item : option AccountSyncItem) : Call (list AccountSyncItem) :=
  w1 ← match item with Some i => adopt_for_writing i at_ | None => mret [] end;
  w2 ← match js_controller s with
       | Some c =>
           own ← (if join then is_local_device (ctl_device c) else mret false);
           if (own : bool) then i ← edited env (ChannelController (js_channel_id s)) at_ (Some (to_value c)); adopt_for_writing i at_
           else mret []
       | None => mret []
       end;
  w3 ← (if at_ =? 0 then mret []
        else i ← lift (channel_epoch (js_channel_id s) (js_current_epoch s) at_
                         (to_value {| cap_epoch_id := js_current_epoch s; cap_secret_hex := js_secret_hex s |}));
             mret [i]);
  mret (w1 ++ w2 ++ w3)%list.

Definition persist_private_channel (s : JoinedPrivateChannelState) (at_ : Z) (archived : list PrivateChannelEpochCapability) (join : bool)
    : Call (Z * list AccountSyncItem) :=
  '(item, version) ← membership_version s at_ join;
  epochs ← epoch_rows_of (js_channel_id s) at_
    ((js_current_epoch s, js_secret_hex s) :: map (fun c => (cap_epoch_id c, cap_secret_hex c)) archived);
  _ ← write_rows (put_private_channel (private_channel_row s true version) epochs);
  _ ← set_memory memory_rows_changed;
  writes ← persist_items s at_ join item;
  mret (version.1, writes).

Inductive ChannelCommit := Join (joined_at : Z) | Advance (from_epoch : string).

(** The rows are written while the save lock is held; the result is [None] when the epoch
    has moved on meanwhile. *)
Definition commit_rows (s : JoinedPrivateChannelState) (c : ChannelCommit) : Call (option (Z * list AccountSyncItem)) :=
  match c with
  | Join at_ => p ← persist_private_channel s at_ [] true; mret (Some p)
  | Advance from_epoch =>
      row ← in_rows (fun m => get_private_channel m (joined_private_channel_key (js_topic_id s) (js_channel_id s)));
      if match row with Some r => pc_joined r && bool_decide (pc_current_epoch r = from_epoch) | None => false end
      then at_ ← now env; p ← persist_private_channel s at_ [] false; mret (Some p)
      else mret None
  end.

Definition commit_joined_private_channel_state (s : JoinedPrivateChannelState) (c : ChannelCommit) : Call (option Z) :=
  _ ← outside_call install_private_epoch_secrets;
  persisted ← commit_rows s c;
  match persisted with
  | None => mret None
  | Some (membership_at, writes) =>
      m ← memory;
      let changed := match joined_private_channels m !! joined_private_channel_key (js_topic_id s) (js_channel_id s) with
                     | None => true | Some current => negb (same_private_channel_state current s) end in
      _ ← for_each (write_account_sync_item env me) writes;
      _ ← (if changed then restart_scope (js_topic_id s) (js_channel_id s) else mret tt);
      mret (Some membership_at)
  end.

Definition register_joined_private_channel (s : JoinedPrivateChannelState) (joined_at : Z) : Call unit :=
  _ ← outside_call (hold_joined_private_channel (js_topic_id s) (js_channel_id s));
  _ ← commit_joined_private_channel_state s (Join joined_at);
  mret tt.

(** A channel beyond the limit of leases is not subscribed. *)
Definition restore_joined_private_channel (topic_id channel_id : string) : Call unit :=
  taken ← attempt (outside_call (hold_joined_private_channel topic_id channel_id));
  match taken with Ok false => restart_scope topic_id channel_id | _ => mret tt end.

(** ** Leaving *)

(** Whether the item is written to the replica: only an own, adopted leave. *)
Definition leave_item (s : JoinedPrivateChannelState) (adopted : option AccountSyncItem) : Call (AccountSyncItem * bool) :=
  match adopted with
  | Some i => mret (i, false)
  | None =>
      at_ ← now env;
      i ← edited env (ChannelMembership (js_channel_id s)) at_ None;
      b ← adopt (row_of i);
      mret (i, b)
  end.

Definition tombstone_private_channel (s : JoinedPrivateChannelState) (adopted : option AccountSyncItem) : Call Z :=
  '(i, write) ← leave_item s adopted;
  _ ← write_rows (put_private_channel (private_channel_row s false (updated_at i, op_id i)) []);
  _ ← set_memory (fun m => memory_remove (joined_private_channel_key (js_topic_id s) (js_channel_id s)) (memory_rows_changed m));
  _ ← bump_generation;
  _ ← (if (write : bool) then write_account_sync_item env me i else mret tt);
  mret (updated_at i).

Definition record_private_channel_leave (s : JoinedPrivateChannelState) (left_at : Z) : Call unit :=
  let replica := current_private_channel_replica_id s in
  found ← outside_get (fun w => fetch_own_participant w replica);
  let existing := match found with
                  | Some p => if decide (pd_epoch_id p = js_current_epoch s) then Some p else None
                  | None => None end in
  outside_call (record_private_channel_participant
    {| pd_channel_id := js_channel_id s; pd_topic_id := js_topic_id s; pd_epoch_id := js_current_epoch s;
       pd_participant := current_author_pubkey; pd_joined_at := from_option pd_joined_at left_at existing;
       pd_is_owner := from_option pd_is_owner (bool_decide (js_owner s = current_author_pubkey)) existing;
       pd_join_mode := existing ≫= pd_join_mode; pd_sponsor := existing ≫= pd_sponsor; pd_share_token := existing ≫= pd_share_token;
       pd_left_at := Some left_at |}
    (js_owner s) (js_secret_hex s) replica).

(** The keys of a channel, 128 at a time. *)
Definition delete_keys_page (channel_id : string) : Call (list string) := fun d =>
  let '(es, m) := delete_private_channel_epochs channel_id PRIVATE_CHANNEL_PAGE (channel_keys d) in
  (Ok es, set_channel_keys (fun _ => m) d).

Fixpoint delete_keys_loop (fuel : nat) (channel_id : string) : Call unit :=
  match fuel with
  | O => mret tt
  | S fuel =>
      es ← delete_keys_page channel_id;
      match es with
      | [] => mret tt
      | _ => _ ← outside_call (forget_replicas (map (private_channel_replica_for_epoch channel_id) es));
             delete_keys_loop fuel channel_id
      end
  end.

(** Every page but the last deletes a key, so the number of keys is enough fuel. *)
Definition delete_private_channel_keys (channel_id : string) : Call unit := fun d =>
  delete_keys_loop (S (size (epochs (channel_keys d)))) channel_id d.

Definition forget_private_channel_keys (topic_id channel_id : string) : Call unit :=
  _ ← delete_private_channel_keys channel_id;
  _ ← put (fun d => set_outside (release_scope_holder (private_channel_holder topic_id channel_id) (outside d)) d);
  restart_scope topic_id channel_id.

Definition remove_joined_private_channel (topic_id channel_id : string) : Call (option JoinedPrivateChannelState) :=
  removed ← get (joined_private_channel_state topic_id channel_id);
  _ ← match removed with Some s => _ ← tombstone_private_channel s None; mret tt | None => mret tt end;
  _ ← forget_private_channel_keys topic_id channel_id;
  mret removed.

(** ** Pages of channels *)
Definition joined_private_channel_states_for_topic (topic_id after : string) : Call (list JoinedPrivateChannelState * option string) :=
  rows ← in_rows (list_joined_private_channels (OfTopic topic_id) after PRIVATE_CHANNEL_PAGE);
  let next := if (length rows =? PRIVATE_CHANNEL_PAGE)%nat then pc_channel_key <$> last rows else None in
  d ← get (fun d => d);
  states ← lift (foldr (fun r acc =>
    match joined_private_channels (channel_memory (outside d)) !! pc_channel_key r with
    | Some s => ss ← acc; mret (s :: ss)
    | None => o ← private_channel_state_from_row r (channel_keys d);
              ss ← acc;
              mret (match o with Some s => s :: ss | None => ss end)
    end) (Ok []) rows);
  mret (states, next).

Definition joined_private_channel_replicas (after : string) (limit : nat) (m : MemoryPrivateChannelKeys) : list (string * string) :=
  map (fun r => (pc_channel_key r, private_channel_replica_for_epoch (pc_channel_id r) (pc_current_epoch r)))
    (list_joined_private_channels AllChannels after limit m).

(** Taking the leases of a page: [false] when the limit was reached. *)
Fixpoint hold_page (rows : list PrivateChannelRow) : Call bool :=
  match rows with
  | [] => mret true
  | r :: rows =>
      taken ← attempt (outside_call (hold_joined_private_channel (pc_topic_id r) (pc_channel_id r)));
      match taken with
      | Ok _ => hold_page rows
      | Err e => if decide (e = SCOPE_LIMIT_REACHED) then mret false else lift (Err e)
      end
  end.

(** The loop over the pages, with fuel; [None] is out of fuel. *)
Fixpoint restore_pages (fuel : nat) (after : string) : Call (option unit) :=
  match fuel with
  | O => mret None
  | S fuel =>
      page ← in_rows (list_joined_private_channels AllChannels after PRIVATE_CHANNEL_PAGE);
      room ← hold_page page;
      if negb room then mret (Some tt)
      else match last page with
           | Some r => if (length page =? PRIVATE_CHANNEL_PAGE)%nat then restore_pages fuel (pc_channel_key r) else mret (Some tt)
           | None => mret (Some tt)
           end
  end.

Definition restore_joined_private_channels (fuel : nat) : Call (option unit) :=
  _ ← outside_call install_private_epoch_secrets;
  restore_pages fuel "".
End rows.
