(* ===== verification/ChannelRotation.v ===== *)
(** * Updating the keys of a private channel (crates/app-api/src/private_channel_rotation.rs)

    Only one device of the owner, the controller of the channel's row, makes new epochs.  A
    rotation reserves the key row of the new epoch, then publishes the epoch, commits the
    membership row to it and hands the key to the participants, 128 at a time; a rotation
    that stopped is resumed from its key row.  The documents of an epoch and the
    participants' grants are the interface [EpochService]. *)
From S2P Require Import Prelude RustStr Envelope Replicas TimeIndex AccountSyncItem ChannelSeal AccountSyncStore AccountSyncCycle ChannelKeyStore Calls AccountSync AccountSyncMerge ChannelRows.

Definition PRIVATE_CHANNEL_PARTICIPANT_PAGE : nat := 128.
(** The error [PrivateChannelControllerPending]. *)
Definition CONTROLLER_PENDING : string :=
  "PRIVATE_CHANNEL_CONTROLLER_PENDING: the channel key update waits for the owner's controlling device".

Record PrivateChannelRotation := {
  rot_topic_id : string;
  rot_channel_id : string;
  rot_from_epoch : string;
  rot_epoch_id : string;
  rot_secret_hex : string;
  rot_after : option string
}.

Class EpochService (W : Type) := {
  (** the frozen policy of the old epoch, and metadata, open policy and the owner's record
      of the new one *)
  publish_rotated_epoch : PrivateChannelRotation -> JoinedPrivateChannelState -> Z -> Prog W unit;
  list_private_channel_participants : W -> string -> string -> nat -> result string (list string);
  (** the grant of a new key to one participant *)
  distribute_epoch_handoff_grant : JoinedPrivateChannelState -> string -> string -> string -> Prog W unit;
  (** [generate_keys().export_secret_hex()] of the drawn bytes *)
  export_secret_hex : string -> string;
  joined_private_channel_view_for_state : W -> JoinedPrivateChannelState -> result string unit
}.

(** [private_channel_is_epoch_aware]: every kind of channel is. *)
Definition private_channel_is_epoch_aware (_ : ChannelAudienceKind) : bool := true.

Definition short_id_suffix (author : string) : string := default author (str_get_to 8 author).

(** [next_private_channel_epoch_id] at the time [now_ms] *)
Definition next_private_channel_epoch_id (now_ms : Z) (owner current_epoch : string) : string :=
  "epoch-" ++s dec_i64 (Z.max now_ms (i64_saturating_add (epoch_started_at current_epoch) 1)) ++s "-" ++s short_id_suffix owner.

Definition with_epoch (epoch secret_hex : string) (s : JoinedPrivateChannelState) : JoinedPrivateChannelState :=
  {| js_generation := js_generation s; js_topic_id := js_topic_id s; js_channel_id := js_channel_id s; js_label := js_label s;
     js_creator := js_creator s; js_owner := js_owner s; js_joined_via := js_joined_via s; js_audience := js_audience s;
     js_current_epoch := epoch; js_secret_hex := secret_hex; js_controller := js_controller s |}.

(** The own, active record. *)
Definition controls (device : string) (o : option PrivateChannelController) : bool :=
  match o with Some c => bool_decide (ctl_device c = device) && bool_decide (ctl_transfer_to c = None) | None => false end.

Section rotation.
Context {hex_crate : HexCrate} {crypto : Crypto} {json_value : JsonValue} {aead : Aead} {blake3 : Blake3Crate}.
Context `{!Json (@AccountSyncItem json_value)} `{!Json SealedAccountSyncItem} `{!Serde AccountSyncChangeV1}.
Context `{!Serde PrivateChannelEpochCapability} `{!Serde ChannelMembershipV1} `{!Serde PrivateChannelController} `{!Json PrivateChannelController}.
Context {W : Type} `{!ChannelService W} `{!EpochService W} (env : Env) (me : Identity).
#[local] Abbreviation Call := (Prog (Device W)).

Definition private_channel_rotation (topic_id : string) (e : PrivateChannelEpochRow) : result string PrivateChannelRotation :=
  from_epoch ← ok_of_option "private channel epoch is not a pending rotation" (pe_rotation_from e);
  '(epoch_id, secret) ← open_epoch_row me e;
  mret {| rot_topic_id := topic_id; rot_channel_id := pe_channel_id e; rot_from_epoch := from_epoch; rot_epoch_id := epoch_id;
          rot_secret_hex := secret; rot_after := pe_rotation_after e |}.

Definition rotation_channel_state (topic_id channel_id : string) : Call (option JoinedPrivateChannelState) :=
  o ← in_rows (stored_private_channel_state me (joined_private_channel_key topic_id channel_id));
  lift o.

Definition reserved_by (from_epoch : string) (e : PrivateChannelEpochRow) : PrivateChannelEpochRow :=
  {| pe_channel_id := pe_channel_id e; pe_epoch_id := pe_epoch_id e; pe_started_at := pe_started_at e;
     pe_receive_key_id := pe_receive_key_id e; pe_updated_at := pe_updated_at e; pe_sealed_secret := pe_sealed_secret e;
     pe_rotation_from := Some from_epoch; pe_rotation_after := pe_rotation_after e |}.

Definition new_reserved_epoch (channel_id from_epoch : string) : Call PrivateChannelEpochRow :=
  t ← now env;
  r ← random env 32;
  at_ ← now env;
  e ← private_channel_epoch_row env me channel_id (next_private_channel_epoch_id t (current_author_pubkey me) from_epoch)
        (export_secret_hex r) at_;
  _ ← write_rows (fun m => (put_private_channel_epoch (reserved_by from_epoch e) m).2);
  mret (reserved_by from_epoch e).

(** The row of an unfinished rotation from the epoch, else a new one. *)
Definition reserve_epoch (channel_id from_epoch : string) : Call PrivateChannelEpochRow :=
  found ← in_rows (list_private_channel_epochs channel_id (AfterTime (epoch_started_at from_epoch)) 1);
  match last found with
  | Some e => if decide (pe_rotation_from e = Some from_epoch) then mret e else new_reserved_epoch channel_id from_epoch
  | None => new_reserved_epoch channel_id from_epoch
  end.

Definition prepare_private_channel_rotation (topic_id channel_id : string) : Call PrivateChannelRotation :=
  state ← get (joined_private_channel_state me topic_id channel_id);
  match state with
  | None => lift (Err "private channel is not joined")
  | Some s =>
      _ ← lift (ensure (private_channel_is_epoch_aware (js_audience s)) "rotate is only available for epoch-aware private channels");
      _ ← lift (ensure (bool_decide (js_owner s = current_author_pubkey me)) "only the channel owner can rotate the channel");
      device ← local_device_id env me;
      row ← in_rows (fun m => get_private_channel m (joined_private_channel_key topic_id channel_id));
      match row with
      | Some r =>
          if negb (pc_joined r) then lift (Err "private channel is not joined")
          else
            c ← lift (controller_of (pc_controller r));
            _ ← lift (ensure (controls device c) CONTROLLER_PENDING);
            e ← reserve_epoch channel_id (pc_current_epoch r);
            lift (private_channel_rotation topic_id e)
      | None => lift (Err "private channel is not joined")
      end
  end.

(** The state is the one the caller read before. *)
Definition commit_private_channel_rotation (r : PrivateChannelRotation) (s : JoinedPrivateChannelState) : Call unit :=
  _ ← outside_call install_private_epoch_secrets;
  row ← in_rows (fun m => get_private_channel m (joined_private_channel_key (rot_topic_id r) (rot_channel_id r)));
  joined_at ← match row with Some r => mret (pc_updated_at r) | None => now env end;
  _ ← outside_call (publish_rotated_epoch r s joined_at);
  done ← commit_joined_private_channel_state env me (with_epoch (rot_epoch_id r) (rot_secret_hex r) s) (Advance (js_current_epoch s));
  lift (_ ← ok_of_option "private channel is not joined" done; Ok tt).

Definition set_rotation (r : PrivateChannelRotation) (after : option string) : Call unit :=
  write_rows (set_private_channel_rotation (rot_channel_id r) (rot_epoch_id r) after).

Definition advance_private_channel_rotation (r : PrivateChannelRotation) : Call unit :=
  state ← rotation_channel_state (rot_topic_id r) (rot_channel_id r);
  match state with
  | None => set_rotation r None
  | Some s =>
      after ← match rot_after r with
              | Some after => mret after
              | None =>
                  _ ← (if decide (js_current_epoch s = rot_from_epoch r) then commit_private_channel_rotation r s
                       else at_ ← now env;
                            i ← lift (channel_epoch (js_channel_id s) (rot_epoch_id r) at_
                                        (to_value {| cap_epoch_id := rot_epoch_id r; cap_secret_hex := rot_secret_hex r |}));
                            write_account_sync_item env me i);
                  _ ← set_rotation r (Some "");
                  mret ""
              end;
      page ← outside_get (fun w => list_private_channel_participants w (rot_channel_id r) after PRIVATE_CHANNEL_PARTICIPANT_PAGE);
      secret ← in_rows (private_channel_epoch_secret me (rot_channel_id r) (rot_from_epoch r));
      secret ← lift (o ← secret; ok_of_option "private channel rotation source epoch is missing" o);
      _ ← for_each (fun recipient => outside_call (distribute_epoch_handoff_grant
                      (with_epoch (rot_from_epoch r) secret s) (rot_epoch_id r) (rot_secret_hex r) recipient)) page;
      set_rotation r (if (length page =? PRIVATE_CHANNEL_PARTICIPANT_PAGE)%nat then last page else None)
  end.

(** A failure after the commit is left to the background; the hint to the peers is not modelled. *)
Definition rotate_private_channel (topic_id channel_id : string) : Call unit :=
  rotation ← prepare_private_channel_rotation topic_id channel_id;
  advanced ← attempt (advance_private_channel_rotation rotation);
  _ ← match advanced with
      | Ok _ => mret tt
      | Err e =>
          o ← rotation_channel_state topic_id channel_id;
          s ← lift (ok_of_option "private channel is not joined" o);
          if decide (js_current_epoch s = rot_from_epoch rotation) then lift (Err e) else mret tt
      end;
  o ← rotation_channel_state topic_id channel_id;
  s ← lift (ok_of_option "private channel is not joined" o);
  outside_get (fun w => joined_private_channel_view_for_state w s).

Definition step_rotation (e : PrivateChannelEpochRow) : Call unit :=
  row ← in_rows (fun m => get_private_channel_by_id m (pe_channel_id e));
  match row with
  | None => write_rows (set_private_channel_rotation (pe_channel_id e) (pe_epoch_id e) None)
  | Some r =>
      if decide (pe_rotation_from e = Some (pc_current_epoch r)) then mret tt
      else rotation ← lift (private_channel_rotation (pc_topic_id r) e); advance_private_channel_rotation rotation
  end.

(** One background step: the cursor is the rotation last advanced, also when it failed. *)
Definition step_private_channel_rotations (cursor : string * string) : Call ((string * string) * result string unit) :=
  rows ← in_rows (list_private_channel_rotations cursor 1);
  more ← (match rows, str_is_empty cursor.1 with
          | [], false => in_rows (list_private_channel_rotations ("", "") 1)
          | _, _ => mret rows
          end : Call (list PrivateChannelEpochRow));
  match last more with
  | None => mret (("", ""), Ok tt)
  | Some e => r ← attempt (step_rotation e); mret ((pe_channel_id e, pe_epoch_id e), r)
  end.

(** [controls_private_channel] *)
Definition controls_private_channel (channel_id : string) : Call bool :=
  device ← local_device_id env me;
  row ← in_rows (fun m => get_private_channel_by_id m channel_id);
  c ← lift (match row with Some r => controller_of (pc_controller r) | None => Ok None end);
  mret (controls device c).
End rotation.
