(* ===== verification/ChannelMerge.v ===== *)
(** * Merging items of private channels (crates/app-api/src/service: channel_sync_merge.rs,
    epoch_control_support.rs, private_channels_support.rs)

    Memberships and requests are adopted by their version.  Keys are only added, unless the
    channel was left since.  The record of the controller is taken by its generation: a
    handoff is a stop of the old controller and an activation of the new one with the next
    generation. *)
From S2P Require Import Prelude RustStr Envelope Replicas TimeIndex AccountSyncItem ChannelSeal AccountSyncStore AccountSyncCycle ChannelKeyStore Calls AccountSync AccountSyncMerge ChannelRows ChannelRotation.

Definition CHANNEL_EPOCH_ITEM_PAGE : nat := 64.

Record ChannelRotationRequestV1 := { rr_from_epoch : string }.
Record ChannelControllerRequestV1 := { cr_to_device : string; cr_generation : Z }.

Record PrivateChannelParticipantRow := {
  pp_channel_id : string;
  pp_epoch_id : string;
  pp_participant : string;
  pp_left_at : option Z;
  pp_updated_at : Z
}.

(** The table of participants and the local follow edges. *)
Class ParticipantService (W : Type) := {
  has_private_channel_participant : W -> string -> string -> result string bool;
  put_private_channel_participant : PrivateChannelParticipantRow -> Prog W bool;
  follow_edge : W -> string -> string -> result string (option Edge);
  (** the devices of the account that are candidates for a connection *)
  account_peers : W -> list string
}.

(** ** Records of the controller *)

(** [controller_supersedes]; device ids are compared as strings. *)
Definition controller_supersedes (local : option PrivateChannelController) (incoming : PrivateChannelController) : bool :=
  match local with
  | None => true
  | Some l =>
      (ctl_generation l <? ctl_generation incoming)
      || (ctl_generation incoming =? ctl_generation l)
         && (if decide (ctl_device incoming = ctl_device l)
             then bool_decide (ctl_transfer_to l = None) && bool_decide (is_Some (ctl_transfer_to incoming))
             else rust_ltb (ctl_device l) (ctl_device incoming))
  end.

(** The record a stop for [device] turns into. *)
Definition activation_of (device : string) (joined : bool) (incoming : PrivateChannelController) : option PrivateChannelController :=
  if joined && bool_decide (ctl_transfer_to incoming = Some device)
  then Some {| ctl_device := device; ctl_generation := add_u64 (ctl_generation incoming) 1; ctl_transfer_to := None |}
  else None.

(** The stop of the own record for a request; none when the record is not the own one of
    that generation, or is already stopped for another device. *)
Definition stop_of (device : string) (local : option PrivateChannelController) (q : ChannelControllerRequestV1)
    : option PrivateChannelController :=
  let stop := {| ctl_device := device; ctl_generation := cr_generation q; ctl_transfer_to := Some (cr_to_device q) |} in
  match local with
  | Some l =>
      if bool_decide (ctl_device l = device) && (ctl_generation l =? ctl_generation stop)
         && (bool_decide (ctl_transfer_to l = None) || bool_decide (ctl_transfer_to l = ctl_transfer_to stop))
      then Some stop else None
  | None => None
  end.

Section merge.
Context {hex_crate : HexCrate} {crypto : Crypto} {json_value : JsonValue} {aead : Aead} {blake3 : Blake3Crate}.
Context `{!Json (@AccountSyncItem json_value)} `{!Json SealedAccountSyncItem} `{!Serde AccountSyncChangeV1}.
Context `{!Serde PrivateChannelEpochCapability} `{!Serde ChannelMembershipV1} `{!Serde PrivateChannelController} `{!Json PrivateChannelController}.
Context `{!Serde ChannelRotationRequestV1} `{!Serde ChannelControllerRequestV1} `{!Serde ChannelParticipantV1} `{!Json ChannelParticipantV1} `{!Serde EdgeStatus}.
Context {W : Type} `{!ChannelService W} `{!EpochService W} `{!ParticipantService W} (env : Env) (me : Identity).
#[local] Abbreviation Call := (Prog (Device W)).

Definition controller_item (channel_id : string) (c : PrivateChannelController) : Call AccountSyncItem :=
  at_ ← now env;
  edited env (ChannelController channel_id) at_ (Some (to_value c)).

(** [serde_json::from_value] of the value of an item *)
Definition item_value (T : Type) `{!Serde T} (missing : string) (i : AccountSyncItem) : result string T :=
  v ← ok_of_option missing (AccountSyncItem.value i);
  ok_of_option "invalid value" (from_value (T := T) v).

Definition opt_value (T : Type) `{!Serde T} (o : option Value) : result string (option T) :=
  match o with None => Ok None | Some v => x ← ok_of_option "invalid value" (from_value (T := T) v); mret (Some x) end.

Definition holds (i : AccountSyncItem) : Call bool := get (holds_account_sync_item i).
Definition row_by_id (channel_id : string) : Call (option PrivateChannelRow) := in_rows (fun m => get_private_channel_by_id m channel_id).
Definition has_epoch (channel_id epoch : string) : Call bool :=
  in_rows (fun m => bool_decide (is_Some (get_private_channel_epoch m channel_id epoch))).

(** [read_account_sync_docs_key(.., LocalOnly)] *)
Definition read_own (k : string) : Call (option AccountSyncItem) :=
  own ← get replica;
  lift (read_account_sync_record me own k).

Definition own_controller (channel_id : string) : Call (option PrivateChannelController) :=
  i ← read_own (docs_key (ChannelController channel_id));
  lift (opt_value PrivateChannelController (i ≫= AccountSyncItem.value)).

(** ** Channels that begin *)
Definition start_synced_channel (topic_id channel_id : string) (membership_at : Z) : Call unit :=
  _ ← restore_joined_private_channel topic_id channel_id;
  state ← get (joined_private_channel_state me topic_id channel_id);
  match state with
  | None => mret tt
  | Some s =>
      outside_call (record_private_channel_participant
        {| pd_channel_id := js_channel_id s; pd_topic_id := topic_id; pd_epoch_id := js_current_epoch s;
           pd_participant := current_author_pubkey me; pd_joined_at := membership_at;
           pd_is_owner := bool_decide (js_owner s = current_author_pubkey me); pd_join_mode := None; pd_sponsor := None;
           pd_share_token := None; pd_left_at := None |}
        (js_owner s) (js_secret_hex s) (current_private_channel_replica_id s))
  end.

(** ** Keys *)

(** The channel was left at or after the time of the key. *)
Definition left_since (channel_id : string) (at_ : Z) : Call bool := get (fun d =>
  match get_account_sync_row (ledger d) (docs_key (ChannelMembership channel_id)) with
  | Some r => bool_decide (row_value r = None) && (at_ <=? row_updated_at r)
  | None => false
  end).

(** The row and what follows: the channel begins ([true]) or only its task restarts. *)
Definition store_epoch (channel_id epoch_id : string) (e : PrivateChannelEpochRow) : Call (option (string * bool * Z)) :=
  row ← row_by_id channel_id;
  let only_key := _ ← write_rows (fun m => (put_private_channel_epoch e m).2); mret None in
  match row with
  | Some r =>
      if negb (pc_joined r) then only_key
      else
        present ← has_epoch channel_id (pc_current_epoch r);
        if negb present || (epoch_started_at (pc_current_epoch r) <? pe_started_at e)
        then _ ← write_rows (put_private_channel (row_with (pc_joined r) epoch_id (pc_controller r) (row_version r) r) [e]);
             mret (Some (pc_topic_id r, negb present, pc_updated_at r))
        else only_key
  | None => only_key
  end.

Definition merge_channel_epoch (channel_id epoch_id : string) (i : AccountSyncItem) : Call bool :=
  cap ← lift (item_value PrivateChannelEpochCapability "an epoch item must carry its key" i);
  _ ← lift (ensure (bool_decide (cap_epoch_id cap = epoch_id)) "the epoch item does not match its key");
  left ← left_since channel_id (updated_at i);
  if (left : bool) then mret false
  else
    e ← private_channel_epoch_row env me channel_id epoch_id (cap_secret_hex cap) (updated_at i);
    known ← has_epoch channel_id epoch_id;
    if (known : bool) then mret false
    else
      advanced ← store_epoch channel_id epoch_id e;
      _ ← match advanced with
          | Some (topic_id, true, at_) => start_synced_channel topic_id channel_id at_
          | Some (topic_id, false, _) => restart_scope topic_id channel_id
          | None => mret tt
          end;
      mret true.

Definition refill_entry (k : string) : Call unit :=
  i ← read_own k;
  match i with
  | Some i => match AccountSyncItem.key i with
              | ChannelCapability c e => _ ← merge_channel_epoch c e i; mret tt
              | _ => mret tt
              end
  | None => mret tt
  end.

(** The keys of the channel in the own replica, the newest page first. *)
Definition refill_channel_keys (channel_id : string) : Call unit :=
  own ← get replica;
  page ← lift (list_keys own None
                 {| q_prefix := "channel/" ++s hex_encode channel_id ++s "/epoch/"; q_order := Descending; q_limit := CHANNEL_EPOCH_ITEM_PAGE |});
  for_each (fun e => refill_entry (ke_key e)) (page_entries page).

(** ** Memberships *)

(** A leave: the row loses its membership, and the keys are deleted in any case. *)
Definition merge_leave (channel_id : string) (i : AccountSyncItem) (row : option PrivateChannelRow) : Call unit :=
  match row with
  | None => delete_private_channel_keys channel_id
  | Some r =>
      _ ← (if pc_joined r then
             state ← in_rows (private_channel_state_from_row me r);
             state ← lift state;
             match state with
             | Some s => left_at ← tombstone_private_channel env me s (Some i); record_private_channel_leave me s left_at
             | None => write_rows (put_private_channel
                         (row_with false (pc_current_epoch r) (pc_controller r) (updated_at i, op_id i) r) [])
             end
           else mret tt);
      forget_private_channel_keys (pc_topic_id r) (pc_channel_id r)
  end.

(** The membership of a channel that is joined already: only the version is taken. *)
Definition merge_joined (channel_id : string) (i : AccountSyncItem) (r : PrivateChannelRow) : Call unit :=
  present ← has_epoch channel_id (pc_current_epoch r);
  _ ← write_rows (put_private_channel
        (row_with (pc_joined r) (pc_current_epoch r) (pc_controller r) (updated_at i, op_id i) r) []);
  if (present : bool) then mret tt else refill_channel_keys channel_id.

Definition membership_row (channel_id : string) (i : AccountSyncItem) (ms : ChannelMembershipV1) (epoch : string) (controller : option string)
    : PrivateChannelRow :=
  {| pc_channel_key := joined_private_channel_key (ms_topic_id ms) channel_id; pc_topic_id := ms_topic_id ms; pc_channel_id := channel_id;
     pc_label := ms_label ms; pc_creator := ms_creator ms; pc_owner := ms_owner ms; pc_joined_via := ms_joined_via ms;
     pc_audience := audience_name (ms_audience ms); pc_current_epoch := epoch; pc_controller := controller; pc_joined := true;
     pc_updated_at := updated_at i; pc_op_id := op_id i |}.

(** The membership of a channel that is not joined here. *)
Definition merge_join (channel_id : string) (i : AccountSyncItem) (ms : ChannelMembershipV1) (previous : option string) : Call unit :=
  newest ← in_rows (fun m => last (private_channel_epoch_ids channel_id (AtOrBefore i64_max) 1 m));
  controller ← match previous with
               | Some c => mret (Some c)
               | None => o ← own_controller channel_id; mret (to_json <$> o)
               end;
  _ ← write_rows (put_private_channel (membership_row channel_id i ms (default (ms_current_epoch ms) newest) controller) []);
  _ ← set_memory memory_rows_changed;
  match newest with
  | None => refill_channel_keys channel_id
  | Some _ => start_synced_channel (ms_topic_id ms) channel_id (updated_at i)
  end.

Definition merge_channel_membership (channel_id : string) (i : AccountSyncItem) : Call bool :=
  membership ← lift (opt_value ChannelMembershipV1 (AccountSyncItem.value i));
  adopted ← adopt (row_of i);
  held ← (if (adopted : bool) then mret true else holds i);
  if negb held then mret false
  else
    row ← row_by_id channel_id;
    _ ← match membership with
        | None => merge_leave channel_id i row
        | Some ms =>
            match row with
            | Some r => if pc_joined r then merge_joined channel_id i r else merge_join channel_id i ms (pc_controller r)
            | None => merge_join channel_id i ms None
            end
        end;
    mret adopted.

(** ** Controllers *)
Definition put_private_channel_controller (r : PrivateChannelRow) (c : PrivateChannelController) (i : option AccountSyncItem) : Call unit :=
  _ ← write_rows (put_private_channel (row_with (pc_joined r) (pc_current_epoch r) (Some (to_json c)) (row_version r) r) []);
  match i with Some i => _ ← adopt (row_of i); mret tt | None => mret tt end.

Definition optional_item (channel_id : string) (o : option PrivateChannelController) : Call (option AccountSyncItem) :=
  match o with None => mret None | Some c => i ← controller_item channel_id c; mret (Some i) end.

(** A record for a channel with a row. *)
Definition merge_controller_row (channel_id device : string) (incoming : PrivateChannelController) (r : PrivateChannelRow) : Call bool :=
  local ← lift (controller_of (pc_controller r));
  let activation := activation_of device (pc_joined r) incoming in
  if negb (controller_supersedes local incoming) && (bool_decide (activation = None) || negb (bool_decide (local = activation)))
  then mret false
  else
    item ← optional_item channel_id activation;
    _ ← put_private_channel_controller r (default incoming activation) item;
    _ ← match item with Some i => write_account_sync_item env me i | None => mret tt end;
    _ ← (if pc_joined r then restart_scope (pc_topic_id r) channel_id else mret tt);
    mret (bool_decide (activation = None)).

Definition merge_channel_controller (channel_id : string) (i : AccountSyncItem) : Call bool :=
  match AccountSyncItem.value i with
  | None => mret false
  | Some v =>
      incoming ← lift (ok_of_option "invalid value" (from_value (T := PrivateChannelController) v));
      device ← local_device_id env me;
      row ← row_by_id channel_id;
      match row with
      | Some r => merge_controller_row channel_id device incoming r
      | None =>
          own ← read_own (docs_key (AccountSyncItem.key i));
          local ← lift (opt_value PrivateChannelController (own ≫= AccountSyncItem.value));
          mret (controller_supersedes local incoming)
      end
  end.

Definition merge_channel_controller_request (channel_id : string) (i : AccountSyncItem) : Call bool :=
  q ← lift (item_value ChannelControllerRequestV1 "a controller request must carry its target" i);
  adopted ← adopt (row_of i);
  device ← local_device_id env me;
  if decide (cr_to_device q = device) then mret adopted
  else
    row ← row_by_id channel_id;
    match row with
    | Some r =>
        if negb (pc_joined r && bool_decide (pc_owner r = current_author_pubkey me)) then mret adopted
        else
          local ← lift (controller_of (pc_controller r));
          match stop_of device local q with
          | None => mret adopted
          | Some stop =>
              item ← controller_item channel_id stop;
              _ ← put_private_channel_controller r stop (Some item);
              _ ← write_account_sync_item env me item;
              _ ← restart_scope (pc_topic_id r) channel_id;
              mret adopted
          end
    | None => mret adopted
    end.

(** ** Requests for a key update *)
Definition merge_channel_rotation_request (channel_id : string) (i : AccountSyncItem) : Call bool :=
  q ← lift (item_value ChannelRotationRequestV1 "a rotation request must carry its epoch" i);
  adopted ← adopt (row_of i);
  current ← (if (adopted : bool) then mret true else holds i);
  row ← row_by_id channel_id;
  match row with
  | Some r =>
      if (current : bool) && pc_joined r && bool_decide (pc_current_epoch r = rr_from_epoch q)
         && bool_decide (pc_owner r = current_author_pubkey me)
      then
        rotated ← attempt (rotate_private_channel env me (pc_topic_id r) channel_id);
        match rotated with
        | Err e => if decide (e = CONTROLLER_PENDING) then mret adopted else lift (Err e)
        | Ok _ => mret adopted
        end
      else mret adopted
  | None => mret adopted
  end.

(** ** Participants (epoch_control_support.rs) *)
Definition share_edges (participant : string) : Call unit :=
  for_each (fun st =>
    e ← outside_get (fun w => follow_edge w st.1 st.2);
    match e with
    | Some e => i ← lift (participant_follow e); publish_account_sync_item env me i
    | None => mret tt
    end) [(current_author_pubkey me, participant); (participant, current_author_pubkey me)].

Definition grant_current_epoch_to_late_participant (s : JoinedPrivateChannelState) (participant_epoch recipient : string) : Call unit :=
  archived ← in_rows (archived_private_channel_epochs me s 1);
  archived ← lift archived;
  match archived with
  | (e, secret) :: _ =>
      if decide (e = participant_epoch)
      then outside_call (distribute_epoch_handoff_grant (with_epoch e secret s) (js_current_epoch s) (js_secret_hex s) recipient)
      else mret tt
  | [] => mret tt
  end.

Definition take_in_private_channel_participant (s : JoinedPrivateChannelState) (participant : string) (record : ChannelParticipantV1)
    (publish : bool) : Call bool :=
  known ← outside_get (fun w => has_private_channel_participant w (js_channel_id s) participant);
  let late := bool_decide (cp_left_at record = None) && negb (bool_decide (cp_epoch_id record = js_current_epoch s)) in
  if late && (known || negb (match epoch_start_millis (js_current_epoch s) with Some t => cp_joined_at record <? t | None => false end))
  then mret false
  else
    stored ← outside_call (put_private_channel_participant
      {| pp_channel_id := js_channel_id s; pp_epoch_id := cp_epoch_id record; pp_participant := participant;
         pp_left_at := cp_left_at record; pp_updated_at := default (cp_joined_at record) (cp_left_at record) |});
    if negb stored then mret false
    else
      _ ← (if (known : bool) then mret tt else share_edges participant);
      _ ← (if publish then i ← lift (channel_participant (js_channel_id s) participant record); publish_account_sync_item env me i
           else mret tt);
      _ ← (if late then
             mine ← controls_private_channel env me (js_channel_id s);
             if (mine : bool) then grant_current_epoch_to_late_participant s (cp_epoch_id record) participant else mret tt
           else mret tt);
      mret true.

Definition merge_channel_participant (channel_id participant : string) (i : AccountSyncItem) : Call bool :=
  record ← lift (item_value ChannelParticipantV1 "a participant item must carry its record" i);
  row ← row_by_id channel_id;
  match row with
  | Some r =>
      if negb (pc_joined r && bool_decide (pc_owner r = current_author_pubkey me)) then mret false
      else
        state ← in_rows (stored_private_channel_state me (joined_private_channel_key (pc_topic_id r) channel_id));
        state ← lift state;
        match state with
        | None => mret false
        | Some s =>
            adopted ← adopt (row_of i);
            held ← (if (adopted : bool) then mret true else holds i);
            if negb held then mret false
            else _ ← take_in_private_channel_participant s participant record false; mret adopted
        end
  | None => mret false
  end.

(** ** The dispatch *)
Definition merge_channel_item (i : AccountSyncItem) : Call bool :=
  match AccountSyncItem.key i with
  | ChannelMembership c => merge_channel_membership c i
  | ChannelCapability c e => merge_channel_epoch c e i
  | ChannelController c => merge_channel_controller c i
  | ChannelRotationRequest c => merge_channel_rotation_request c i
  | ChannelControllerRequest c => merge_channel_controller_request c i
  | ChannelParticipant c p => merge_channel_participant c p i
  | _ => mret false
  end.

(** ** Taking over (private_channels_support.rs) *)
Inductive PrivateChannelControllerTake := Taken | Waiting | NotConnected.

(** [take_private_channel_controller] up to the wait: [None] when the request is written and
    the call waits for the answer. *)
Definition request_private_channel_controller (topic_id channel_id : string) : Call (option PrivateChannelControllerTake) :=
  state ← in_rows (stored_private_channel_state me (joined_private_channel_key topic_id channel_id));
  state ← lift (o ← state; ok_of_option "private channel is not joined" o);
  _ ← lift (ensure (bool_decide (js_owner state = current_author_pubkey me)) "only the channel owner can take over key updates");
  c ← lift (ok_of_option "the device that updates keys is not known yet" (js_controller state));
  device ← local_device_id env me;
  if controls device (Some c) then mret (Some Taken)
  else if decide (is_Some (ctl_transfer_to c)) then mret (Some Waiting)
  else
    reachable ← get (fun d => bool_decide (ctl_device c ∈ account_peers (outside d)));
    if negb reachable then mret (Some NotConnected)
    else
      at_ ← now env;
      i ← edited env (ChannelControllerRequest channel_id) at_
            (Some (to_value {| cr_to_device := device; cr_generation := ctl_generation c |}));
      _ ← publish_account_sync_item env me i;
      mret None.

(** The record a restored device claims. *)
Definition claimed_record (device : string) (local : option PrivateChannelController) : PrivateChannelController :=
  match local with
  | Some l => if controls device (Some l) then l
              else {| ctl_device := device; ctl_generation := add_u64 (ctl_generation l) 1; ctl_transfer_to := None |}
  | None => {| ctl_device := device; ctl_generation := 1; ctl_transfer_to := None |}
  end.

Definition claim_channel (device : string) (listed : PrivateChannelRow) : Call unit :=
  row ← in_rows (fun m => get_private_channel m (pc_channel_key listed));
  match row with
  | Some r =>
      if negb (pc_joined r) then mret tt
      else
        local ← lift (controller_of (pc_controller r));
        let next := claimed_record device local in
        item ← controller_item (pc_channel_id r) next;
        _ ← put_private_channel_controller r next (Some item);
        _ ← write_account_sync_item env me item;
        restart_scope (pc_topic_id r) (pc_channel_id r)
  | None => mret tt
  end.

Definition claim_private_channel_controllers (after : string) (limit : nat) : Call (option string) :=
  device ← local_device_id env me;
  rows ← in_rows (list_joined_private_channels (OfOwner (current_author_pubkey me)) after limit);
  _ ← for_each (claim_channel device) rows;
  mret (if (length rows =? limit)%nat then pc_channel_key <$> last rows else None).
End merge.
