(* ===== verification/AccountSyncFetch.v ===== *)
(** * Fetching from other devices (crates/app-api/src/service/account_sync_fetch.rs)

    A device reads another one's head, then the slots after its cursor and the items they
    name; when it has no cursor or the window moved past it, it reads the whole replica with
    the cycle.  Rows that did not reach the own replica are sent again, and a device that
    lost its database rebuilds it from its own replica. *)
From S2P Require Import Prelude RustStr Envelope Replicas TimeIndex AccountSyncItem AccountSyncStore AccountSyncCycle ChannelKeyStore Calls AccountSync AccountSyncMerge.

Definition new_cursor (device_id : string) (head : Z) : AccountSyncCursor :=
  {| cur_device := device_id; cur_seq := 0; cur_head := head; cycle_prefix := Some "profile"; cycle_head := head; cur_updated_at := 0 |}.

Section setters.
Context (c : AccountSyncCursor).
Definition with_cycle_prefix (p : option string) : AccountSyncCursor :=
  {| cur_device := cur_device c; cur_seq := cur_seq c; cur_head := cur_head c; cycle_prefix := p; cycle_head := cycle_head c;
     cur_updated_at := cur_updated_at c |}.
Definition with_seq (s : Z) : AccountSyncCursor :=
  {| cur_device := cur_device c; cur_seq := s; cur_head := cur_head c; cycle_prefix := cycle_prefix c; cycle_head := cycle_head c;
     cur_updated_at := cur_updated_at c |}.
Definition with_head (h : Z) : AccountSyncCursor :=
  {| cur_device := cur_device c; cur_seq := cur_seq c; cur_head := h; cycle_prefix := cycle_prefix c; cycle_head := cycle_head c;
     cur_updated_at := cur_updated_at c |}.
Definition with_updated_at (t : Z) : AccountSyncCursor :=
  {| cur_device := cur_device c; cur_seq := cur_seq c; cur_head := cur_head c; cycle_prefix := cycle_prefix c; cycle_head := cycle_head c;
     cur_updated_at := t |}.
End setters.

Section fetch.
Context {hex_crate : HexCrate} {crypto : Crypto} {json_value : JsonValue} {aead : Aead}.
Context `{!Json (@AccountSyncItem json_value)} `{!Json SealedAccountSyncItem} `{!Serde AccountSyncChangeV1}.
Context {W : Type} (env : Env) (me : Identity).
#[local] Abbreviation Call := (Prog (Device W)).
(** [merge_account_sync_item] of the account. *)
Context (merge : AccountSyncItem -> Call bool).

Definition put_cursor (c : AccountSyncCursor) (own : string) : Call unit := put (set_ledger (put_account_sync_cursor c own)).

Definition merge_fetched_account_sync_item (i : AccountSyncItem) (from_own_replica : bool) : Call unit :=
  adopted ← merge i;
  if (adopted : bool)
  then if from_own_replica then mark_account_sync_item_written env me i else write_account_sync_item env me i
  else mret tt.

Section source.
Context {Src : Type} `{!DocsSource Src}.
(** The source as it is at a moment of the call: a reader of another device, or the own
    replica, which merges may change. *)
Context (source : Device W -> Src).
Definition from_source {A} (f : Src -> result string A) : Call A := fun d => (f (source d), d).

(** [read_account_sync_from] and the merge of what it finds *)
Definition merge_key_of (from_own_replica : bool) (k : string) : Call unit :=
  i ← from_source (fun src => read_account_sync_record me src k);
  match i with Some i => merge_fetched_account_sync_item i from_own_replica | None => mret tt end.

Definition account_sync_cycle_step (prefix : string) (from_own_replica : bool) : Call (option string) :=
  '(keys, next) ← from_source (fun src => account_sync_cycle_keys (id_docs_author me) src prefix);
  _ ← for_each (merge_key_of from_own_replica) keys;
  mret next.

(** The loop over the slots of one fetch; a slot that was overwritten starts a cycle. *)
Fixpoint read_window (device_id own : string) (head : Z) (n : nat) (c : AccountSyncCursor)
    : Call AccountSyncCursor :=
  match n with
  | O => mret c
  | S n =>
      let seq := cur_seq c + 1 in
      change ← from_source (fun src => read_account_sync_change me src (change_slot device_id seq));
      match change with
      | Some ch =>
          if ch_seq ch =? seq
          then
            _ ← merge_key_of false (ch_docs_key ch);
            let c := with_seq c seq in
            _ ← put_cursor c own;
            read_window device_id own head n c
          else mret (with_updated_at (new_cursor device_id head) (cur_updated_at c))
      | None => mret (with_updated_at (new_cursor device_id head) (cur_updated_at c))
      end
  end.

(** The number of slots of one fetch: up to the head, at most a page. *)
Definition window_len (head seq : Z) : nat := Z.to_nat (Z.min head (add_u64 seq (Z.of_nat ACCOUNT_SYNC_PAGE)) - seq).

Definition advance_cursor (device_id own : string) (head : Z) (c : AccountSyncCursor) : Call AccountSyncCursor :=
  match cycle_prefix c with
  | Some prefix =>
      next ← account_sync_cycle_step prefix false;
      let c := with_cycle_prefix c next in
      mret (if bool_decide (next = None) then with_seq c (cycle_head c) else c)
  | None =>
      if ACCOUNT_SYNC_CHANGE_WINDOW <? Z.max 0 (head - cur_seq c)
      then mret (with_updated_at (new_cursor device_id head) (cur_updated_at c))
      else read_window device_id own head (window_len head (cur_seq c)) c
  end.

Definition account_sync_fetch_step (device_id own : string) : Call bool :=
  change ← from_source (fun src => read_account_sync_change me src (ChangeHead device_id));
  let head := match change with Some h => ch_seq h | None => 0 end in
  stored ← get (fun d => get_account_sync_cursor (ledger d) device_id);
  t ← now env;
  let c := with_updated_at (with_head (default (new_cursor device_id head) stored) head) t in
  c ← advance_cursor device_id own head c;
  _ ← put_cursor c own;
  mret (bool_decide (is_Some (cycle_prefix c)) || (cur_seq c <? head)).

(** The loop [while step {}], with fuel. [None] is out of fuel. *)
Fixpoint fetch_loop (fuel : nat) (device_id own : string) : Call (option unit) :=
  match fuel with
  | O => mret None
  | S fuel =>
      more ← account_sync_fetch_step device_id own;
      if (more : bool) then fetch_loop fuel device_id own else mret (Some tt)
  end.

(** The cycle of a device over one source, with fuel. *)
Fixpoint cycle_loop (fuel : nat) (own : string) (c : AccountSyncCursor) : Call (option unit) :=
  match cycle_prefix c with
  | None => mret (Some tt)
  | Some prefix =>
      match fuel with
      | O => mret None
      | S fuel =>
          next ← account_sync_cycle_step prefix true;
          t ← now env;
          let c := with_updated_at (with_cycle_prefix c next) t in
          _ ← put_cursor c own;
          cycle_loop fuel own c
      end
  end.
End source.

(** [fetch_account_sync_from_peer], given the reader of the peer. *)
Definition fetch_account_sync_from_peer {Src} `{!DocsSource Src} (fuel : nat) (reader : result string Src) (device_id : string) : Call (option unit) :=
  own ← local_device_id env me;
  if decide (device_id = own) then mret (Some tt)
  else fun d =>
    let '(r, d) := (source ← lift reader; fetch_loop (fun _ => source) fuel device_id own) d in
    let d := match r with
             | Ok _ => set_fetch (failed d ∖ {[device_id]}) false d
             | Err _ => set_fetch ({[device_id]} ∪ failed d) (no_candidates d) d
             end in
    (r, (refresh_account_sync_status env me d).2).

(** [rebuild_account_sync] *)
Definition rebuild_cursor (own : string) (d : Device W) : AccountSyncCursor :=
  default (new_cursor own 0) (get_account_sync_cursor (ledger d) own).

Definition rebuild_account_sync (fuel : nat) (own : string) : Call (option unit) :=
  c ← get (rebuild_cursor own);
  cycle_loop replica fuel own c.
End fetch.
