(* ===== verification/AccountSyncResend.v ===== *)
(** * Sending rows again (crates/app-api/src/service/account_sync_fetch.rs)

    Rows that the own replica does not show are written again at the next occasion, 64 at a
    time.  A row whose version the replica already shows only loses its mark. *)
From S2P Require Import Prelude RustStr Envelope Replicas TimeIndex AccountSyncItem ChannelSeal AccountSyncStore AccountSyncCycle ChannelKeyStore Calls AccountSync AccountSyncMerge AccountSyncFetch ChannelRows.

Section resend.
Context {hex_crate : HexCrate} {crypto : Crypto} {json_value : JsonValue} {aead : Aead} {blake3 : Blake3Crate}.
Context `{!Json (@AccountSyncItem json_value)} `{!Json SealedAccountSyncItem} `{!Serde AccountSyncChangeV1} `{!Serde PrivateChannelEpochCapability}.
Context `{!Serde KukuriEnvelope}.
Context {W : Type} (env : Env) (me : Identity).
#[local] Abbreviation Call := (Prog (Device W)).
(** [own_profile_envelope]: the newest signed profile of the author's replica. *)
Context (own_profile_envelope : W -> result string (option KukuriEnvelope)).

Definition adopt_unsynced_profile : Call unit :=
  row ← get (fun d => get_account_sync_row (ledger d) (docs_key Profile));
  match row with
  | Some _ => mret tt
  | None =>
      e ← outside_get own_profile_envelope;
      match e with
      | None => mret tt
      | Some e => i ← lift (profile e); _ ← adopt (row_of i); mret tt
      end
  end.

Definition item_of_row (r : AccountSyncRow) : result string AccountSyncItem :=
  k ← from_docs_key (row_key r);
  v ← match row_value r with
      | None => Ok None
      | Some s => v ← ok_of_option "invalid JSON" (value_from_str s); mret (Some v)
      end;
  mret {| key := k; op_id := row_op_id r; updated_at := row_updated_at r; value := v |}.

(** [open_epoch_row] and the item of the key *)
Definition item_of_epoch (e : PrivateChannelEpochRow) : result string AccountSyncItem :=
  secret ← open_secret (id_row_seal me) (pe_channel_id e) (pe_epoch_id e) (pe_sealed_secret e);
  channel_epoch (pe_channel_id e) (pe_epoch_id e) (pe_updated_at e)
    (to_value {| cap_epoch_id := pe_epoch_id e; cap_secret_hex := secret |}).

Fixpoint collect_results {A B} (f : A -> result string B) (l : list A) : result string (list B) :=
  match l with [] => Ok [] | x :: l => y ← f x; ys ← collect_results f l; mret (y :: ys) end.

(** The replica shows the item: for a key any version, else the same one. *)
Definition shown (i : AccountSyncItem) (in_replica : option AccountSyncItem) : bool :=
  match key i, in_replica with
  | ChannelCapability _ _, o => bool_decide (is_Some o)
  | _, Some j => (updated_at j =? updated_at i) && bool_decide (op_id j = op_id i)
  | _, None => false
  end.

Definition resend_item (i : AccountSyncItem) : Call unit :=
  own ← get replica;
  in_replica ← lift (read_account_sync_record me own (docs_key (key i)));
  if shown i in_replica then mark_account_sync_item_written env me i else try_write_account_sync_item env me i.

(** One round; [false] when nothing is left. *)
Definition resend_round : Call bool :=
  rows ← get (fun d => list_unwritten_account_sync_rows ACCOUNT_SYNC_PAGE (ledger d));
  epochs ← get (fun d => list_unwritten_private_channel_epochs ACCOUNT_SYNC_PAGE (channel_keys d));
  match rows, epochs with
  | [], [] => mret false
  | _, _ =>
      items ← lift (collect_results item_of_row rows);
      keys ← lift (collect_results item_of_epoch epochs);
      _ ← for_each resend_item (items ++ keys)%list;
      mret true
  end.

(** The loop, with fuel. [None] is out of fuel. *)
Fixpoint resend_loop (fuel : nat) : Call (option unit) :=
  match fuel with
  | O => mret None
  | S fuel => more ← resend_round; if (more : bool) then resend_loop fuel else mret (Some tt)
  end.

Definition resend_account_sync_items (fuel : nat) : Call (option unit) :=
  _ ← adopt_unsynced_profile;
  resend_loop fuel.
End resend.
