(* ===== verification/AccountSyncReplica.v ===== *)
(** * The replica of a device

    What a device writes with its items is what others read: reading a key of the in-memory
    replica opens its record, and a completed write leaves the item, its slot and the head. *)
From S2P Require Import Prelude RustStr Envelope Replicas TimeIndex AccountSyncItem AccountSyncItemProps AccountSyncStore AccountSyncCycle ChannelKeyStore Calls AccountSync.

(** ** Keys are short ASCII texts *)
Definition is_ascii_char (a : ascii) : bool := byte_in 0 127 a.

Lemma ascii_utf8 s : str_all is_ascii_char s = true -> valid_utf8 s = true.
Proof. induction s as [|a s IH]; [done|]. intros [Ha Hs]%andb_prop. cbn [valid_utf8]. unfold is_ascii_char in Ha. by rewrite Ha, IH. Qed.

Lemma lower_hex_ascii a : is_lower_hex a = true -> is_ascii_char a = true.
Proof. destruct a as [[] [] [] [] [] [] [] []]; vm_compute; done. Qed.

Lemma hexdigit_ascii a : is_ascii_hexdigit a = true -> is_ascii_char a = true.
Proof. destruct a as [[] [] [] [] [] [] [] []]; vm_compute; done. Qed.

Lemma device_char_ascii a :
  is_ascii_alphanumeric a || bool_decide (a = "-"%char) || bool_decide (a = "_"%char) = true -> is_ascii_char a = true.
Proof. destruct a as [[] [] [] [] [] [] [] []]; vm_compute; done. Qed.

Lemma digit_ascii a : is_ascii_digit a = true -> is_ascii_char a = true.
Proof. destruct a as [[] [] [] [] [] [] [] []]; vm_compute; done. Qed.

Section keys.
Context {hex_crate : HexCrate} {hex_laws : HexCrateLaws} {crypto : Crypto} {pubkey_laws : PubkeyLaws}.

Lemma hex_text s : str_all is_ascii_char (Replicas.hex_encode s) = true.
Proof. eapply str_all_impl, hex_encode_lower. apply lower_hex_ascii. Qed.

Lemma pubkey_text s : validate_pubkey s = Ok tt -> str_all is_ascii_char s = true /\ String.length s = 64%nat.
Proof.
  unfold validate_pubkey. intros Hv. inv_result. destruct (pubkey_hex _ _ E) as [Hl Hh]. split; [|done].
  eapply str_all_impl, Hh. apply hexdigit_ascii.
Qed.

Lemma id_length s : validate_id s = Ok tt -> (String.length (Replicas.hex_encode s) <= 512)%nat.
Proof. unfold validate_id, MAX_ITEM_ID_BYTES, str_len. intros Hv%ensure_ok. rewrite hex_encode_length. lia. Qed.

Lemma device_text d : validate_device_id d = Ok tt -> str_all is_ascii_char d = true /\ (String.length d <= 256)%nat.
Proof.
  unfold validate_device_id, MAX_ITEM_ID_BYTES, str_len. intros Hv%ensure_ok. destruct_bools. split; [|lia].
  match goal with Ha : str_all _ d = true |- _ => revert Ha; apply str_all_impl, device_char_ascii end.
Qed.

(** No key of an item is longer. *)
Definition MAX_KEY_LENGTH : nat := 1100.

Ltac text_bounds :=
  repeat match goal with
  | H : validate_id ?s = Ok _ |- _ => pose proof (id_length s H); clear H
  | H : validate_pubkey ?s = Ok _ |- _ => destruct (pubkey_text s H); clear H
  | H : validate_device_id ?s = Ok _ |- _ => destruct (device_text s H); clear H
  end.

Lemma docs_key_text k :
  validate_key k = Ok tt -> key_typed k = true ->
  str_all is_ascii_char (docs_key k) = true /\ (String.length (docs_key k) <= MAX_KEY_LENGTH)%nat.
Proof.
  unfold MAX_KEY_LENGTH. intros Hv Ht. destruct k; cbn [validate_key docs_key] in *;
    repeat match goal with H : (_ ≫= _) = Ok _ |- _ => apply result_bind_ok in H as ([] & ? & H) end; text_bounds;
    rewrite ?str_all_app, ?str_app_length, ?hex_text;
    repeat match goal with H : str_all is_ascii_char _ = true |- _ => rewrite ?H; clear H end;
    try (split; [done | cbn [String.length]; lia]).
  - cbn [key_typed] in Ht. match goal with H : ensure _ _ = Ok _ |- _ => apply ensure_ok in H end. unfold ACCOUNT_SYNC_CHANGE_WINDOW in *.
    destruct (dec_padded_small slot) as [_ Hl]; [lia|]. rewrite Hl. split; [|cbn [String.length]; lia].
    rewrite (str_all_impl is_ascii_digit is_ascii_char (dec_padded 3 slot)); [done | apply digit_ascii | apply pad_digits_digits].
Qed.
End keys.

(** ** Reading *)
Lemma set_record_records k v m :
  valid_utf8 k = true -> records (set_record k v m) = <[k := v]> (records m) /\ own_author (set_record k v m) = own_author m.
Proof.
  intros Hk. unfold set_record. case_decide as Hd; [done|]. destruct Hd. apply forallb_forall. intros [k' v'] Hin.
  apply list_elem_of_In, elem_of_map_to_list in Hin. apply lookup_insert_Some in Hin as [[<- _]|[_ Hin]]; [done|].
  pose proof (records_utf8 m) as Hu. rewrite forallb_forall in Hu.
  apply (Hu (k', v')), list_elem_of_In. by apply elem_of_map_to_list.
Qed.

Section replica.
Context {hex_crate : HexCrate} {hex_laws : HexCrateLaws} {crypto : Crypto} {pubkey_laws : PubkeyLaws}.
Context {json_value : JsonValue} {aead : Aead} {aead_laws : AeadLaws}.
Context {item_json : Json (@AccountSyncItem json_value)} {item_laws : JsonLaws (@AccountSyncItem json_value)}.
Context {sealed_json : Json SealedAccountSyncItem} {sealed_laws : JsonLaws SealedAccountSyncItem}.
Context {change_serde : Serde AccountSyncChangeV1} {change_laws : SerdeLaws AccountSyncChangeV1}.
Context (me : Identity).

(** The item that a replica shows under a key. *)
Definition stored (m : MemoryReplica) (k : string) : option AccountSyncItem := records m !! k ≫= open_record me k.

Lemma read_memory m k : read_account_sync_record me m k = Ok (stored m k).
Proof.
  unfold read_account_sync_record, stored. cbn [query_replica_by_author query_replica_exact_bounded memory_source].
  assert (Hb : max_version (omap (open_record me k) (take ACCOUNT_SYNC_RECORDS_PER_KEY (option_list (records m !! k))))
               = records m !! k ≫= open_record me k).
  { destruct (records m !! k) as [v|]; cbn; [|done]. by destruct (open_record me k v). }
  destruct (id_docs_author me) as [a|]; change (@mret (result string) _ ?A ?x) with (@Ok string A x); rewrite !bind_ok; [|by rewrite Hb].
  assert (Hown : (if decide (own_author m = Some a) then records m !! k else None) ≫= open_record me k = None
                 \/ (if decide (own_author m = Some a) then records m !! k else None) ≫= open_record me k
                    = records m !! k ≫= open_record me k) by (case_decide; [by right | by left]).
  destruct Hown as [->| ->]; [by rewrite Hb|].
  destruct (records m !! k ≫= open_record me k) as [i|]; [done|]. by rewrite Hb.
Qed.

Lemma stored_key m k i : stored m k = Some i -> docs_key (AccountSyncItem.key i) = k /\ validate_item i = Ok tt /\ k ∈ dom (records m).
Proof.
  unfold stored, open_record. intros (v & Hv & (s & _ & Ho)%bind_Some)%bind_Some.
  destruct (open _ _ _ _) as [j|] eqn:E; [|done]. injection Ho as ->. apply open_inv in E as (? & ? & _).
  split_and!; [done..|]. by eapply elem_of_dom_2.
Qed.

(** The change recorded under a key of the window. *)
Definition change_at (m : MemoryReplica) (k : AccountSyncItemKey) : option AccountSyncChangeV1 :=
  (stored m (docs_key k) ≫= AccountSyncItem.value) ≫= from_value (T := AccountSyncChangeV1).

Lemma read_change_memory m k c : read_account_sync_change me m k = Ok c -> change_at m k = c.
Proof.
  unfold read_account_sync_change, change_at. rewrite read_memory, bind_ok.
  destruct (stored m (docs_key k) ≫= AccountSyncItem.value) as [v|]; cbn; [|by intros [= <-]].
  destruct (from_value v) as [x|]; cbn; [by intros [= <-] | done].
Qed.

Lemma read_change_some m k c : change_at m k = Some c -> read_account_sync_change me m k = Ok (Some c).
Proof.
  unfold read_account_sync_change, change_at. rewrite read_memory, bind_ok.
  destruct (stored m (docs_key k) ≫= AccountSyncItem.value) as [v|]; cbn; [|done]. by intros ->.
Qed.

(** ** Writing *)

(** [m'] is [m] with the item [i] written. *)
Record wrote (m : MemoryReplica) (i : AccountSyncItem) (m' : MemoryReplica) : Prop := {
  wrote_stored k : stored m' k = if decide (k = docs_key (AccountSyncItem.key i)) then Some i else stored m k;
  wrote_dom : dom (records m') = {[docs_key (AccountSyncItem.key i)]} ∪ dom (records m);
  wrote_author : own_author m' = own_author m;
  wrote_valid : validate_item i = Ok tt
}.

Context {W : Type} (env : Env) (random_length : forall n len, String.length (random_bytes env n len) = len).

Definition write_frame (d d' : Device W) : Prop :=
  ledger d' = ledger d /\ channel_keys d' = channel_keys d /\ outside d' = outside d /\ failed d' = failed d
  /\ no_candidates d' = no_candidates d.

Lemma set_entry_spec i (d : Device W) :
  key_typed (AccountSyncItem.key i) = true ->
  wp (set_account_sync_entry env me i) (fun r d' => write_frame d d' /\
    match r with Ok _ => wrote (replica d) i (replica d') | Err _ => replica d' = replica d end) d.
Proof.
  intros Ht. unfold set_account_sync_entry, random, apply_set_json, ask_env, lift, put, wp, mbind, prog_bind, mret, prog_ret.
  cbn. destruct (seal _ _ _ i) as [s|] eqn:Hs; [|done]. cbn. destruct (docs_write_ok _ _); [|done]. cbn. split; [done|].
  destruct (seal_inv _ _ _ _ _ Hs) as (Hv & _). pose proof Hv as Hk. unfold validate_item in Hk.
  apply result_bind_ok in Hk as ([] & Hk & _). destruct (docs_key_text _ Hk Ht) as [Hascii%ascii_utf8 _].
  destruct (set_record_records _ (to_json s) (replica d) Hascii) as [Hr Ho]. constructor; [|by rewrite Hr, dom_insert_L | done | done].
  intros k. unfold stored. rewrite Hr. case_decide as He; [subst k|by rewrite lookup_insert_ne].
  rewrite lookup_insert_eq. cbn. unfold open_record. rewrite from_to_json. cbn.
  by rewrite (open_sealed _ _ _ _ _ (random_length _ _) Hs).
Qed.

(** The last number of the window of a device. *)
Definition head_seq (device : string) (m : MemoryReplica) : Z :=
  match change_at m (ChangeHead device) with Some h => ch_seq h | None => 0 end.

(** [m'] is [m] with the item [i] written and announced. *)
Definition announced (device : string) (m : MemoryReplica) (i : AccountSyncItem) (m' : MemoryReplica) : Prop :=
  exists m1 m2 slot head,
    let seq := add_u64 (head_seq device m1) 1 in
    wrote m i m1 /\ wrote m1 slot m2 /\ wrote m2 head m'
    /\ AccountSyncItem.key slot = change_slot device seq
    /\ AccountSyncItem.value slot = Some (to_value {| ch_seq := seq; ch_docs_key := docs_key (AccountSyncItem.key i) |})
    /\ AccountSyncItem.key head = ChangeHead device
    /\ AccountSyncItem.value head = Some (to_value {| ch_seq := seq; ch_docs_key := EmptyString |}).

(** [slot] names [i] as the change after the last one of [m]. *)
Definition slot_for (device : string) (m : MemoryReplica) (i slot : AccountSyncItem) : Prop :=
  let seq := add_u64 (head_seq device m) 1 in
  AccountSyncItem.key slot = change_slot device seq
  /\ AccountSyncItem.value slot = Some (to_value {| ch_seq := seq; ch_docs_key := docs_key (AccountSyncItem.key i) |}).

(** [m'] is [m] after a write of [i] that stopped before its head: nothing, the item, or the
    item and its slot are written. *)
Inductive stopped (device : string) (m : MemoryReplica) (i : AccountSyncItem) : MemoryReplica -> Prop :=
| stopped_before : stopped device m i m
| stopped_after_item m1 : wrote m i m1 -> stopped device m i m1
| stopped_after_slot m1 m2 slot : wrote m i m1 -> slot_for device m1 i slot -> wrote m1 slot m2 -> stopped device m i m2.

Lemma refresh_frame (d : Device W) : replica (refresh_account_sync_status env me d).2 = replica d /\ write_frame d (refresh_account_sync_status env me d).2.
Proof.
  unfold refresh_account_sync_status, logged, local_device_id, ask_env, lift, get, put, mbind, prog_bind, mret, prog_ret. cbn.
  destruct (discovery_ok _ _); cbn; [|done]. by case_decide.
Qed.

Lemma mark_replica i (d : Device W) : replica (mark_account_sync_item_written env me i d).2 = replica d.
Proof.
  unfold mark_account_sync_item_written, put, mbind, prog_bind.
  rewrite (proj1 (refresh_frame _)). by destruct (AccountSyncItem.key i).
Qed.

Lemma change_slot_typed device seq : key_typed (change_slot device seq) = true.
Proof.
  unfold change_slot, key_typed, ACCOUNT_SYNC_CHANGE_WINDOW. pose proof (Z.mod_pos_bound seq 256 eq_refl). lia.
Qed.

(** Steps that ask the environment leave the replica alone. *)
Lemma now_step {B} (k : Z -> Prog (Device W) B) (Q : result string B -> Device W -> Prop) (d : Device W) :
  (forall t d', replica d' = replica d -> write_frame d d' -> wp (k t) Q d') -> wp (now env ≫= k) Q d.
Proof. intros Hk. by apply Hk. Qed.

Lemma edited_step {B} key at_ v (k : AccountSyncItem -> Prog (Device W) B) (Q : result string B -> Device W -> Prop) (d : Device W) :
  (forall r d', replica d' = replica d -> write_frame d d' -> wp (k (edit r key at_ v)) Q d') -> wp (edited env key at_ v ≫= k) Q d.
Proof. intros Hk. by apply Hk. Qed.

Lemma announce_spec i (d : Device W) :
  wp (announce env me (id_device me) i) (fun r d' => r = Ok tt -> exists m2 slot head,
    let seq := add_u64 (head_seq (id_device me) (replica d)) 1 in
    wrote (replica d) slot m2 /\ wrote m2 head (replica d')
    /\ AccountSyncItem.key slot = change_slot (id_device me) seq
    /\ AccountSyncItem.value slot = Some (to_value {| ch_seq := seq; ch_docs_key := docs_key (AccountSyncItem.key i) |})
    /\ AccountSyncItem.key head = ChangeHead (id_device me)
    /\ AccountSyncItem.value head = Some (to_value {| ch_seq := seq; ch_docs_key := EmptyString |})) d.
Proof.
  unfold announce. apply prog_wp_bind. cbn [wp get fst snd]. apply prog_wp_bind. unfold wp at 1, lift. cbn [fst snd].
  destruct (read_account_sync_change me (replica d) (ChangeHead (id_device me))) as [head|e] eqn:Hh; [|done].
  apply read_change_memory in Hh. cbv zeta.
  replace (match head with Some h => ch_seq h | None => 0 end) with (head_seq (id_device me) (replica d)) by (unfold head_seq; by rewrite Hh).
  set (seq := add_u64 (head_seq (id_device me) (replica d)) 1).
  apply now_step. intros at_ d1 H1 _. apply edited_step. intros r1 d2 H2 _.
  apply prog_wp_bind. eapply prog_wp_mono; [apply set_entry_spec, change_slot_typed|]. intros [[]|e] d3 [_ H3]; [|done].
  apply edited_step. intros r2 d4 H4 _.
  eapply prog_wp_mono; [by apply set_entry_spec|]. intros [[]|e] d5 [_ H5]; [|done]. intros _.
  rewrite H2, H1 in H3. rewrite H4 in H5. eexists (replica d3), _, _. split_and!; [exact H3 | exact H5 | done..].
Qed.

(** How far an announcement got that failed. *)
Lemma announce_stopped i (d : Device W) :
  wp (announce env me (id_device me) i) (fun r d' => forall e, r = Err e -> replica d' = replica d
    \/ exists slot, slot_for (id_device me) (replica d) i slot /\ wrote (replica d) slot (replica d')) d.
Proof.
  unfold announce. apply prog_wp_bind. cbn [wp get fst snd]. apply prog_wp_bind. unfold wp at 1, lift. cbn [fst snd].
  destruct (read_account_sync_change me (replica d) (ChangeHead (id_device me))) as [head|e] eqn:Hh; [|by left].
  apply read_change_memory in Hh. cbv zeta.
  replace (match head with Some h => ch_seq h | None => 0 end) with (head_seq (id_device me) (replica d)) by (unfold head_seq; by rewrite Hh).
  set (seq := add_u64 (head_seq (id_device me) (replica d)) 1).
  apply now_step. intros at_ d1 H1 _. apply edited_step. intros r1 d2 H2 _.
  apply prog_wp_bind. eapply prog_wp_mono; [apply set_entry_spec, change_slot_typed|].
  intros [[]|e] d3 [_ H3]; rewrite H2, H1 in H3; [|by left].
  apply edited_step. intros r2 d4 H4 _.
  eapply prog_wp_mono; [by apply set_entry_spec|]. intros [[]|e] d5 [_ H5]; [done|]. intros e' _. right.
  rewrite H5, H4. eexists. split; [|exact H3]. by split.
Qed.

(** A write that fails stopped before its head. *)
Lemma try_write_stopped i (d d' : Device W) e :
  key_typed (AccountSyncItem.key i) = true -> try_write_account_sync_item env me i d = (Err e, d') ->
  stopped (id_device me) (replica d) i (replica d').
Proof.
  intros Ht Hw. enough (wp (try_write_account_sync_item env me i)
    (fun r d' => forall e, r = Err e -> stopped (id_device me) (replica d) i (replica d')) d) as Hq.
  { unfold wp in Hq. rewrite Hw in Hq. by eapply Hq. }
  unfold try_write_account_sync_item, local_device_id. apply prog_wp_bind, prog_wp_bind.
  unfold wp at 1, ask_env. cbn [fst snd]. unfold wp at 1, lift. cbn [fst snd]. destruct (discovery_ok _ _); [|constructor].
  apply prog_wp_bind. eapply prog_wp_mono; [by apply set_entry_spec|].
  intros [[]|e1] d1 [_ H1]; cbn in H1; [|intros e2 _; rewrite H1; constructor].
  apply prog_wp_bind. eapply prog_wp_mono; [apply announce_stopped|]. intros [[]|e1] d2 H2; [done|].
  intros e2 _. destruct (H2 e1 eq_refl) as [->|(slot & Hs & Hm)]; [by apply stopped_after_item | by eapply stopped_after_slot].
Qed.

(** A write that succeeds is announced. *)
Lemma try_write_announced i (d d' : Device W) :
  key_typed (AccountSyncItem.key i) = true -> try_write_account_sync_item env me i d = (Ok tt, d') ->
  announced (id_device me) (replica d) i (replica d').
Proof.
  intros Ht Hw. enough (wp (try_write_account_sync_item env me i)
    (fun r d' => r = Ok tt -> announced (id_device me) (replica d) i (replica d')) d) as Hq.
  { unfold wp in Hq. rewrite Hw in Hq. by apply Hq. }
  unfold try_write_account_sync_item, local_device_id. apply prog_wp_bind, prog_wp_bind.
  unfold wp at 1, ask_env. cbn [fst snd]. unfold wp at 1, lift. cbn [fst snd]. destruct (discovery_ok _ _); [|done].
  apply prog_wp_bind. eapply prog_wp_mono; [by apply set_entry_spec|]. intros [[]|e] d1 [_ H1]; [|done]. cbn in H1.
  apply prog_wp_bind. eapply prog_wp_mono; [apply announce_spec|]. intros [[]|e] d2 H2; [|done].
  unfold wp. rewrite mark_replica. intros _. destruct (H2 eq_refl) as (m2 & slot & head & H). by exists (replica d1), m2, slot, head.
Qed.
End replica.
