(* ===== verification/AccountSyncFetchInv.v ===== *)
(** * What a fetch has read

    A writer's window names its last 256 changes; a write that stopped before its head has
    overwritten the oldest of them.  For a reader, every item of the writer's replica is
    settled, or lies ahead of the position of the cycle, or is named by a change after the
    reader's cursor, or its last write stopped half-way; every step of a fetch and every
    write keeps this. *)
From S2P Require Import Prelude RustStr Envelope Replicas TimeIndex AccountSyncItem AccountSyncItemProps AccountSyncStore AccountSyncStoreProps AccountSyncCycle ChannelKeyStore Calls AccountSync AccountSyncFetch AccountSyncReplica.

(** The same account on another device. *)
Definition on_device (me : Identity) (device : string) : Identity :=
  {| id_account := id_account me; id_keys := id_keys me; id_row_seal := id_row_seal me; id_docs_author := id_docs_author me; id_device := device |}.

Section window.
Context {hex_crate : HexCrate} {hex_laws : HexCrateLaws} {crypto : Crypto} {pubkey_laws : PubkeyLaws}.
Context {json_value : JsonValue} {aead : Aead} {aead_laws : AeadLaws}.
Context {item_json : Json (@AccountSyncItem json_value)} {item_laws : JsonLaws (@AccountSyncItem json_value)}.
Context {sealed_json : Json SealedAccountSyncItem} {sealed_laws : JsonLaws SealedAccountSyncItem}.
Context {change_serde : Serde AccountSyncChangeV1} {change_laws : SerdeLaws AccountSyncChangeV1}.
Context (me : Identity) (device : string).

(** ** The window of a writer *)

(** [log] are the keys of all announced changes, the first one first.  The slot of the oldest
    change of the window is also that of the next one. *)
Record window (m : MemoryReplica) (log : list string) : Prop := {
  win_head : head_seq me device m = Z.of_nat (length log);
  win_read : is_ok (read_account_sync_change me m (ChangeHead device)) = true;
  win_slots s k : 1 <= s -> Z.of_nat (length log) - ACCOUNT_SYNC_CHANGE_WINDOW < s -> log !! Z.to_nat (s - 1) = Some k ->
    change_at me m (change_slot device s) = Some {| ch_seq := s; ch_docs_key := k |}
    \/ s + ACCOUNT_SYNC_CHANGE_WINDOW = Z.of_nat (length log) + 1
       /\ exists k', change_at me m (change_slot device s) = Some {| ch_seq := Z.of_nat (length log) + 1; ch_docs_key := k' |}
}.

Lemma change_at_wrote m i m' k :
  wrote me m i m' ->
  change_at me m' k = if decide (docs_key k = docs_key (AccountSyncItem.key i)) then AccountSyncItem.value i ≫= from_value else change_at me m k.
Proof. intros [Hs _ _ _]. unfold change_at. rewrite Hs. by case_decide. Qed.

Lemma wrote_key m i m' : wrote me m i m' -> validate_key (AccountSyncItem.key i) = Ok tt.
Proof. intros [_ _ _ Hv]. unfold validate_item in Hv. by apply result_bind_ok in Hv as ([] & Hv & _). Qed.

Lemma slot_valid seq : validate_key (ChangeHead device) = Ok tt -> validate_key (change_slot device seq) = Ok tt.
Proof.
  unfold change_slot. cbn. intros ->. pose proof (Z.mod_pos_bound seq ACCOUNT_SYNC_CHANGE_WINDOW eq_refl).
  rewrite (proj2 (Z.ltb_lt _ _)) by lia. done.
Qed.

Lemma change_item_ne k k' : merge_key k = true -> merge_key k' = false -> docs_key k' <> docs_key k.
Proof. by destruct k, k'. Qed.

(** An item is not in the window. *)
Lemma window_item m log i m1 : window m log -> wrote me m i m1 -> merge_key (AccountSyncItem.key i) = true -> window m1 log.
Proof.
  intros [Hhead Hread Hslots] Hw Hm.
  assert (Hsame : forall k, merge_key k = false -> stored me m1 (docs_key k) = stored me m (docs_key k)).
  { intros k Hk. rewrite (wrote_stored _ _ _ _ Hw), decide_False; [done | by apply change_item_ne]. }
  assert (Hch : forall k, merge_key k = false -> change_at me m1 k = change_at me m k) by (intros k Hk; unfold change_at; by rewrite Hsame).
  split.
  - unfold head_seq. by rewrite Hch.
  - unfold read_account_sync_change in *. rewrite read_memory in *. by rewrite Hsame.
  - intros s k. rewrite Hch by done. apply Hslots.
Qed.

Lemma next_seq m log : window m log -> Z.of_nat (length log) + 1 < 2 ^ 64 -> add_u64 (head_seq me device m) 1 = Z.of_nat (length log) + 1.
Proof. intros [-> _ _] Hb. unfold add_u64. apply Z.mod_small. lia. Qed.

Lemma slot_head_ne s : validate_key (ChangeHead device) = Ok tt -> docs_key (change_slot device s) <> docs_key (ChangeHead device).
Proof. intros Hv He. apply docs_key_inj in He; [discriminate | by apply slot_valid | done | apply change_slot_typed | done]. Qed.

(** Two numbers at most a window apart share a slot at the ends of the window only. *)
Lemma slot_eq s n :
  validate_key (ChangeHead device) = Ok tt -> s <= n -> n - ACCOUNT_SYNC_CHANGE_WINDOW <= s ->
  docs_key (change_slot device s) = docs_key (change_slot device n) -> s = n \/ s + ACCOUNT_SYNC_CHANGE_WINDOW = n.
Proof.
  intros Hv H1 H2 He. apply docs_key_inj in He; [|by apply slot_valid|by apply slot_valid|apply change_slot_typed|apply change_slot_typed].
  injection He as He. unfold ACCOUNT_SYNC_CHANGE_WINDOW in *. clear -He H1 H2. Z.to_euclidean_division_equations. lia.
Qed.

(** A slot without its head overwrites the oldest change. *)
Lemma window_slot m log i slot m' :
  window m log -> wrote me m slot m' -> slot_for me device m i slot -> Z.of_nat (length log) + 1 < 2 ^ 64 -> window m' log.
Proof.
  intros Hwin Hw [Hk Hv] Hb. rewrite (next_seq m log Hwin Hb) in Hk, Hv. destruct Hwin as [Hhead Hread Hslots].
  assert (Hvh : validate_key (ChangeHead device) = Ok tt).
  { pose proof (wrote_key _ _ _ Hw) as Hvs. rewrite Hk in Hvs. unfold change_slot in Hvs. cbn in Hvs |- *. by apply result_bind_ok in Hvs as ([] & _ & ?). }
  assert (Hne : docs_key (ChangeHead device) <> docs_key (AccountSyncItem.key slot)) by (rewrite Hk; intros He; by eapply slot_head_ne).
  split.
  - unfold head_seq. by rewrite (change_at_wrote _ _ _ _ Hw), decide_False.
  - unfold read_account_sync_change in *. rewrite read_memory in *. by rewrite (wrote_stored _ _ _ _ Hw), decide_False.
  - intros s k Hs1 Hs2 Hl. assert (Hle : s <= Z.of_nat (length log)) by (apply lookup_lt_Some in Hl; lia).
    rewrite (change_at_wrote _ _ _ _ Hw), Hk. case_decide as He; [|by apply Hslots].
    apply slot_eq in He as [He|He]; [lia| |done|lia|lia]. right. split; [done|]. rewrite Hv. cbn. rewrite from_to_value. by eexists.
Qed.

Lemma window_stopped m log i m' :
  window m log -> stopped me device m i m' -> merge_key (AccountSyncItem.key i) = true -> Z.of_nat (length log) + 1 < 2 ^ 64 -> window m' log.
Proof.
  intros Hwin [|m1 H1|m1 m2 slot H1 Hs H2] Hm Hb; [done | by eapply window_item|].
  eapply window_slot; [eapply window_item; [exact Hwin | exact H1 | done] | exact H2 | exact Hs | done].
Qed.

Lemma window_announced m log i m' :
  window m log -> announced me device m i m' -> merge_key (AccountSyncItem.key i) = true ->
  Z.of_nat (length log) + 1 < 2 ^ 64 -> window m' (log ++ [docs_key (AccountSyncItem.key i)])%list.
Proof.
  intros Hwin (m1 & m2 & slot & head & H1 & H2 & H3 & Hks & Hvs & Hkh & Hvh) Hm Hb.
  pose proof (wrote_key _ _ _ H3) as Hvhead. rewrite Hkh in Hvhead.
  assert (Hwin1 : window m1 log) by by eapply window_item. rewrite (next_seq m1 log Hwin1 Hb) in *. destruct Hwin1 as [_ _ Hslots].
  split.
  - unfold head_seq. rewrite (change_at_wrote _ _ _ _ H3), Hkh, decide_True by done. rewrite Hvh. cbn. rewrite from_to_value. cbn.
    rewrite length_app. cbn. lia.
  - rewrite (read_change_some me m' _ {| ch_seq := Z.of_nat (length log) + 1; ch_docs_key := EmptyString |}); [done|].
    rewrite (change_at_wrote _ _ _ _ H3), Hkh, decide_True by done. rewrite Hvh. cbn. apply from_to_value.
  - intros s k Hs1 Hs2 Hk. assert (Hl := Hk). apply lookup_lt_Some in Hl. rewrite length_app in Hl, Hs2. cbn in Hl, Hs2. left.
    rewrite (change_at_wrote _ _ _ _ H3), Hkh, decide_False by by apply slot_head_ne.
    rewrite (change_at_wrote _ _ _ _ H2), Hks. case_decide as Heq.
    + assert (Hs : s = Z.of_nat (length log) + 1) by (apply slot_eq in Heq as [|]; [done | lia | done | lia | lia]).
      subst s. rewrite Hvs. cbn. rewrite from_to_value. f_equal. rewrite lookup_app_r in Hk by lia.
      replace (Z.to_nat _ - length log)%nat with 0%nat in Hk by lia. by injection Hk as ->.
    + assert (Hlt : s <= Z.of_nat (length log)) by (destruct (Z.le_gt_cases s (Z.of_nat (length log))) as [|Hgt]; [done|]; destruct Heq; do 2 f_equal; lia).
      rewrite lookup_app_l in Hk by lia. destruct (Hslots s k) as [|[? _]]; [lia | lia | done | done | lia].
Qed.
End window.

(** ** Pages of keys *)
Lemma str_leb_prefix p t : rust_leb p (p ++s t) = true.
Proof.
  unfold rust_leb, rust_cmp, string_rust_ord. induction p as [|a p IH]; simpl; [by destruct t|].
  unfold Ascii.compare. by rewrite N.compare_refl.
Qed.

Lemma order_leb_total a b : order_leb Ascending a b = false -> order_leb Ascending b a = true.
Proof. apply rust_leb_total. Qed.

Lemma order_leb_trans a b c : order_leb Ascending a b = true -> order_leb Ascending b c = true -> order_leb Ascending a c = true.
Proof. apply rust_leb_trans. Qed.

(** The rows of a prefix, in the order of their keys. *)
Definition prefix_rows (m : MemoryReplica) (p : string) : list DocKeyEntry :=
  sort_by (order_leb Ascending)
    (map (memory_entry (fun v => v) m) (List.filter (fun kv => starts_with p kv.1) (map_to_list (records m)))).

Lemma prefix_rows_keys m p : map ke_key (prefix_rows m p) ≡ₚ List.filter (starts_with p) (map fst (map_to_list (records m))).
Proof.
  unfold prefix_rows. rewrite (Permutation_map ke_key (sort_by_perm (order_leb Ascending) _)), map_map. cbn.
  induction (map_to_list (records m)) as [|[k v] l IH]; simpl; [done|]. destruct (starts_with p k); simpl; by rewrite IH.
Qed.

Lemma elem_of_prefix_rows m p k : k ∈ map ke_key (prefix_rows m p) <-> k ∈ dom (records m) /\ starts_with p k = true.
Proof.
  rewrite prefix_rows_keys, elem_of_filter_bool. f_equiv. rewrite elem_of_dom. split.
  - intros ([k' v] & -> & Hv%elem_of_map_to_list)%list_elem_of_fmap. by exists v.
  - intros [v Hv%elem_of_map_to_list]. apply list_elem_of_fmap. by exists (k, v).
Qed.

Lemma prefix_rows_nodup m p : NoDup (map ke_key (prefix_rows m p)).
Proof.
  rewrite prefix_rows_keys. eapply sublist_NoDup; [exact (NoDup_fst_map_to_list (records m)) | apply sublist_filter_bool].
Qed.

(** The key that is the prefix itself comes first. *)
Lemma prefix_first m p : p ∈ dom (records m) -> exists x l, prefix_rows m p = x :: l /\ ke_key x = p.
Proof.
  intros Hp. assert (Hin : p ∈ map ke_key (prefix_rows m p)).
  { apply elem_of_prefix_rows. split; [done|]. rewrite <- (str_app_nil p) at 2. apply starts_with_app. }
  pose proof (sort_by_sorted _ order_leb_total order_leb_trans
    (map (memory_entry (fun v => v) m) (List.filter (fun kv => starts_with p kv.1) (map_to_list (records m))))) as Hs.
  fold (prefix_rows m p) in Hs. assert (Hall : forall x, x ∈ prefix_rows m p -> rust_leb p (ke_key x) = true).
  { intros x Hx. assert (Hk : ke_key x ∈ map ke_key (prefix_rows m p)) by by apply list_elem_of_fmap_2.
    apply elem_of_prefix_rows in Hk as [_ [t ->]%starts_with_true]. apply str_leb_prefix. }
  destruct (prefix_rows m p) as [|x l]; [by apply not_elem_of_nil in Hin|]. exists x, l. split; [done|].
  apply elem_of_cons in Hin as [Hin|(y & Hy & Hl)%list_elem_of_fmap]; [done|]. inversion Hs as [|? ? _ Hx]; subst.
  rewrite Forall_forall in Hx. apply rust_leb_antisym; [|apply Hall; by left]. exact (Hx y Hl).
Qed.

(** A prefix with two keys has a longer one. *)
Lemma prefix_longer m p : (2 <= length (prefix_rows m p))%nat -> exists k t, k ∈ dom (records m) /\ k = p ++s t /\ t <> EmptyString.
Proof.
  intros Hl. pose proof (prefix_rows_nodup m p) as Hn. pose proof (elem_of_prefix_rows m p) as He.
  destruct (prefix_rows m p) as [|x [|y l]]; [simpl in Hl; lia..|]. cbn in Hn. apply NoDup_cons in Hn as [Hxy _].
  assert (Hxy' : ke_key x <> ke_key y) by (intros Heq; apply Hxy; rewrite Heq; apply list_elem_of_here).
  assert (Hx := proj1 (He (ke_key x)) (list_elem_of_here _ _)).
  assert (Hy := proj1 (He (ke_key y)) (list_elem_of_further _ _ _ (list_elem_of_here _ _))).
  destruct Hx as [Hdx [tx Hx]%starts_with_true], Hy as [Hdy [ty Hy]%starts_with_true].
  destruct (decide (tx = EmptyString)) as [->|]; [|by exists (ke_key x), tx].
  destruct (decide (ty = EmptyString)) as [->|]; [congruence | by exists (ke_key y), ty].
Qed.

Lemma cycle_page author m p :
  author = None \/ own_author m = author ->
  list_keys m author {| q_prefix := p; q_order := Ascending; q_limit := ACCOUNT_SYNC_PAGE |}
  = Ok {| page_entries := take ACCOUNT_SYNC_PAGE (prefix_rows m p); reached_limit := Nat.leb ACCOUNT_SYNC_PAGE (length (prefix_rows m p)) |}.
Proof.
  intros Ha. unfold list_keys. cbn [source_keys memory_source]. unfold memory_list_keys. f_equal.
  destruct author as [a|]; [|done]. destruct Ha as [|Ha]; [done|]. by rewrite decide_True.
Qed.

(** What one query of the cycle finds. *)
Lemma cycle_keys_memory author m p keys next :
  author = None \/ own_author m = author ->
  account_sync_cycle_keys author m p = Ok (keys, next) ->
  next = next_cycle_prefix p /\ (forall k, k ∈ dom (records m) -> starts_with p k = true -> k ∈ keys)
  \/ next = Some (p ++s "-") /\ (p ∈ dom (records m) -> p ∈ keys)
     /\ exists k t, k ∈ dom (records m) /\ k = p ++s t /\ t <> EmptyString.
Proof.
  intros Ha. unfold account_sync_cycle_keys.
  rewrite cycle_page, bind_ok by done. cbn [page_entries reached_limit]. cbv zeta.
  destruct (Nat.leb_spec ACCOUNT_SYNC_PAGE (length (prefix_rows m p))) as [Hfull|Hpart]; cbn [negb]; intros [= <- <-].
  - right. split; [done|]. split.
    + intros Hp. destruct (prefix_first m p Hp) as (x & l & Hr & Hx). rewrite Hr. cbn.
      rewrite Hx, bool_decide_true by done. apply list_elem_of_here.
    + apply prefix_longer. unfold ACCOUNT_SYNC_PAGE in Hfull. lia.
  - left. split; [done|]. intros k Hk Hs. apply elem_of_filter_bool. split; [|done]. rewrite take_ge by lia.
    by apply elem_of_prefix_rows.
Qed.

Lemma cycle_keys_prefix author m p keys next k :
  author = None \/ own_author m = author ->
  account_sync_cycle_keys author m p = Ok (keys, next) -> k ∈ keys -> k ∈ dom (records m) /\ starts_with p k = true.
Proof.
  intros Ha. unfold account_sync_cycle_keys.
  rewrite cycle_page, bind_ok by done. cbn [page_entries reached_limit]. cbv zeta. intros [= <- _] Hk.
  apply elem_of_filter_bool in Hk as [Hk _]. apply elem_of_prefix_rows.
  eapply elem_of_sublist; [exact Hk|]. apply fmap_sublist, sublist_take.
Qed.

(** ** Progress of the reader *)
Definition progress {W} (d d' : Device W) : Prop :=
  ledger_le (ledger d) (ledger d') /\ sync_cursors (ledger d') = sync_cursors (ledger d).

#[export] Instance progress_preorder {W} : PreOrder (@progress W).
Proof. split; [intros d; split; [reflexivity | done] | intros d1 d2 d3 [H1 C1] [H2 C2]; split; [by etrans | congruence]]. Qed.

Lemma progress_same {W} (d d' : Device W) : ledger d' = ledger d -> progress d d'.
Proof. intros He. unfold progress. rewrite He. split; [reflexivity | done]. Qed.

(** The items whose merge adopts the newest version, whatever else it does. *)
Definition lww_key (k : AccountSyncItemKey) : bool :=
  match k with
  | TrustAlwaysVisible _ | ParticipantFollow _ _ | ChannelMembership _ | ChannelRotationRequest _ | ChannelControllerRequest _ => true
  | _ => false
  end.

Section reader.
Context {hex_crate : HexCrate} {hex_laws : HexCrateLaws} {crypto : Crypto} {pubkey_laws : PubkeyLaws}.
Context {json_value : JsonValue} {aead : Aead} {aead_laws : AeadLaws}.
Context {item_json : Json (@AccountSyncItem json_value)} {item_laws : JsonLaws (@AccountSyncItem json_value)}.
Context {sealed_json : Json SealedAccountSyncItem} {sealed_laws : JsonLaws SealedAccountSyncItem}.
Context {change_serde : Serde AccountSyncChangeV1} {change_laws : SerdeLaws AccountSyncChangeV1}.
Context {W : Type} (env : Env) (me : Identity).
#[local] Abbreviation Call := (Prog (Device W)).

(** What a fetch relies on of [merge_account_sync_item]. *)
Record MergeLaws (merge : AccountSyncItem -> Call bool) : Prop := {
  ml_progress i : keeps progress (merge i);
  ml_adopts i d b d' : lww_key (AccountSyncItem.key i) = true -> merge i d = (Ok b, d') ->
    holds_version (ledger d') (docs_key (AccountSyncItem.key i)) (updated_at i, op_id i)
}.

Lemma progress_ask : keeps progress (ask_env (W := W)).
Proof. intros d. by apply progress_same. Qed.

Lemma progress_device : keeps progress (local_device_id (W := W) env me).
Proof. apply keeps_seq; [apply _ | apply progress_ask | intros; apply keeps_pure, _]. Qed.

Lemma progress_refresh : keeps progress (refresh_account_sync_status (W := W) env me).
Proof. intros d. apply progress_same. apply (refresh_frame me env d). Qed.

Lemma progress_entry i : keeps progress (set_account_sync_entry (W := W) env me i).
Proof.
  apply keeps_seq; [apply _ | apply keeps_seq; [apply _ | apply progress_ask | intros; apply keeps_mret, _] |].
  intros n. apply keeps_seq; [apply _ | apply keeps_pure, _ |]. intros s. apply keeps_seq; [apply _ | apply progress_ask |].
  intros x. apply keeps_seq; [apply _ | apply keeps_pure, _ |]. intros _. apply keeps_put. intros d. by apply progress_same.
Qed.

Lemma progress_mark i : keeps progress (mark_account_sync_item_written (W := W) env me i).
Proof.
  apply keeps_seq; [apply _ | | intros; apply progress_refresh]. apply keeps_put. intros d.
  destruct (AccountSyncItem.key i); try (split; [apply mark_ledger_le | cbn; unfold mark_account_sync_written; by repeat case_match]).
  by apply progress_same.
Qed.

Lemma progress_announce dev i : keeps progress (announce (W := W) env me dev i).
Proof.
  assert (Hnow : keeps progress (now (W := W) env)) by (apply keeps_seq; [apply _ | apply progress_ask | intros; apply keeps_mret, _]).
  assert (Hed : forall k t v, keeps progress (edited (W := W) env k t v)).
  { intros. apply keeps_seq; [apply _ | | intros; apply keeps_mret, _]. apply keeps_seq; [apply _ | apply progress_ask | intros; apply keeps_mret, _]. }
  unfold announce. apply keeps_seq; [apply _ | apply keeps_get, _ |]. intros own. apply keeps_seq; [apply _ | apply keeps_pure, _ |].
  intros h. cbv zeta. apply keeps_seq; [apply _ | done |]. intros t. apply keeps_seq; [apply _ | apply Hed |]. intros slot.
  apply keeps_seq; [apply _ | apply progress_entry |]. intros _. apply keeps_seq; [apply _ | apply Hed |]. intros head. apply progress_entry.
Qed.

Lemma progress_write i : keeps progress (write_account_sync_item (W := W) env me i).
Proof.
  apply keeps_seq; [apply _ | apply keeps_logged | intros; apply progress_refresh].
  apply keeps_seq; [apply _ | apply progress_device |]. intros dev. apply keeps_seq; [apply _ | apply progress_entry |]. intros _.
  apply keeps_seq; [apply _ | apply progress_announce | intros; apply progress_mark].
Qed.

Lemma progress_adopt r : keeps progress (adopt (W := W) r).
Proof.
  intros d. unfold adopt. pose proof (adopt_ledger_le r (ledger d)) as Ha. unfold adopt_account_sync_row in *.
  by destruct (newer r _).
Qed.

Lemma progress_publish i : keeps progress (publish_account_sync_item (W := W) env me i).
Proof.
  apply keeps_seq; [apply _ | apply progress_adopt |]. intros [|]; [apply progress_write | apply keeps_mret, _].
Qed.

(** Adopting a row leaves the ledger with its version. *)
Lemma adopt_version r (d : Device W) b d' : adopt r d = (Ok b, d') -> holds_version (ledger d') (row_key r) (version r).
Proof.
  unfold adopt. pose proof (adopt_holds r (ledger d)) as Ha. destruct (adopt_account_sync_row r (ledger d)) as [b' m]. by intros [= <- <-].
Qed.

Context (merge : AccountSyncItem -> Call bool) (laws : MergeLaws merge).

Lemma progress_fetched i b : keeps progress (merge_fetched_account_sync_item env me merge i b).
Proof.
  apply keeps_seq; [apply _ | by apply ml_progress |]. intros [|]; [|apply keeps_mret, _].
  destruct b; [apply progress_mark | apply progress_write].
Qed.

(** ** Settled items *)
Definition settled (m : MemoryReplica) (d : Device W) (k : string) : Prop :=
  forall i, stored me m k = Some i -> lww_key (AccountSyncItem.key i) = true -> holds_version (ledger d) k (updated_at i, op_id i).

Lemma settled_mono m d d' k : ledger_le (ledger d) (ledger d') -> settled m d k -> settled m d' k.
Proof. intros Hl Hs i Hi Hw. by apply Hl, Hs. Qed.

Lemma merge_key_settles m k d :
  wp (merge_key_of env me merge (fun _ => m) false k) (fun r d' => progress d d' /\ (r = Ok tt -> settled m d' k)) d.
Proof.
  unfold merge_key_of. apply prog_wp_bind. unfold wp at 1, from_source. cbn [fst snd]. rewrite read_memory.
  destruct (stored me m k) as [i|] eqn:Hi; [|split; [done|]; intros _ j Hj; congruence].
  unfold merge_fetched_account_sync_item. apply prog_wp_bind. unfold wp at 1.
  pose proof (ml_progress _ laws i d) as Hp. pose proof (ml_adopts _ laws i d) as Ha. destruct (merge i d) as [[b|e] d1]; cbn [fst snd] in *; [|done].
  assert (Hs : settled m d1 k).
  { intros j Hj Hw. rewrite Hi in Hj. injection Hj as <-. destruct (stored_key _ _ _ _ Hi) as [<- _]. by apply (Ha b). }
  destruct b; [|done]. pose proof (progress_write i d1) as Hw. split; [by etrans|]. intros _. eapply settled_mono, Hs. apply Hw.
Qed.

Lemma merge_keys_settle m ks d :
  wp (for_each (merge_key_of env me merge (fun _ => m) false) ks)
    (fun r d' => progress d d' /\ (r = Ok tt -> forall k, k ∈ ks -> settled m d' k)) d.
Proof.
  revert d. induction ks as [|k ks IH]; intros d; [split; [done|]; by intros _ k ?%not_elem_of_nil|]. cbn [for_each].
  apply prog_wp_bind. eapply prog_wp_mono; [apply merge_key_settles|]. intros [[]|e] d1 [H1 Hs]; [|done].
  eapply prog_wp_mono; [apply IH|]. intros r d2 [H2 Hk]. split; [by etrans|]. intros Hr k' [->|Hin]%elem_of_cons; [|by apply Hk].
  eapply settled_mono, Hs; [apply H2 | done].
Qed.
(** ** Coverage *)

(** [half] are the keys whose last write stopped half-way. *)
Context (device : string) (half : gset string).
#[local] Abbreviation D := MAX_KEY_LENGTH.

(** The number from which on the window has to be read. *)
Definition base (c : AccountSyncCursor) : Z := match cycle_prefix c with Some _ => cycle_head c | None => cur_seq c end.

(** The cycle of the cursor has not passed [k]. *)
Definition ahead (c : AccountSyncCursor) (ik : nat) (tk : string) : Prop :=
  exists p ip tp, cycle_prefix c = Some p /\ at_pos p ip tp /\ gcode D ip tp <= gcode D ik tk.

Record covered (m : MemoryReplica) (log : list string) (d : Device W) (c : AccountSyncCursor) : Prop := {
  cov_device : cur_device c = device;
  cov_pos p : cycle_prefix c = Some p -> exists i t, at_pos p i t /\ (String.length t <= D)%nat;
  cov_base : 0 <= base c <= Z.of_nat (length log);
  cov_keys k i t : k ∈ dom (records m) -> at_pos k i t -> k ∉ half ->
    settled m d k \/ ahead c i t \/ exists s, base c < s /\ log !! Z.to_nat (s - 1) = Some k
}.

Definition keys_short (m : MemoryReplica) : Prop := forall k, k ∈ dom (records m) -> (String.length k <= D)%nat.

Lemma covered_mono m log d d' c : ledger_le (ledger d) (ledger d') -> covered m log d c -> covered m log d' c.
Proof.
  intros Hl [Hd Hp Hb Hk]. constructor; [done..|]. intros k i t Hin Hat Hh. destruct (Hk k i t Hin Hat Hh) as [Hs|?]; [|by right].
  left. by eapply settled_mono.
Qed.

(** Coverage depends on the position only. *)
Lemma covered_ext m log d c c' :
  cur_device c' = cur_device c -> cycle_prefix c' = cycle_prefix c -> cycle_head c' = cycle_head c -> cur_seq c' = cur_seq c ->
  covered m log d c -> covered m log d c'.
Proof.
  intros E1 E2 E3 E4 [Hd Hp Hb Hk]. assert (Hbase : base c' = base c) by (unfold base; by rewrite E2, E3, E4).
  constructor; [congruence | by rewrite E2 | by rewrite Hbase |]. intros k i t Hin Hat Hh. rewrite Hbase.
  destruct (Hk k i t Hin Hat Hh) as [?|[(p & ip & tp & Hc & ?)|?]]; [by left | | by right; right].
  right. left. exists p, ip, tp. by rewrite E2.
Qed.

Lemma at_pos_profile : at_pos "profile" 0 "".
Proof. by exists "profile". Qed.

Lemma gcode_nonneg i t : alphabetic t = true -> (String.length t <= D)%nat -> 0 <= gcode D i t.
Proof.
  intros Ha Hl. unfold gcode. destruct (code_bounds D t Ha Hl) as [H0 _]. pose proof (base_pow D). nia.
Qed.

Lemma at_pos_short k i t : at_pos k i t -> (String.length k <= D)%nat -> (String.length t <= D)%nat /\ alphabetic t = true.
Proof. intros (r & _ & -> & Ha). rewrite str_app_length. split; [lia | done]. Qed.

(** A new cursor has everything ahead. *)
Lemma new_cursor_covered m log d t :
  keys_short m -> covered m log d (with_updated_at (new_cursor device (Z.of_nat (length log))) t).
Proof.
  intros Hshort. constructor; [done | | cbn; lia |].
  - intros p [= <-]. exists 0%nat, "". split; [apply at_pos_profile | cbn; lia].
  - intros k i tk Hin Hat _. right. left. exists "profile", 0%nat, "". split; [done|]. split; [apply at_pos_profile|].
    destruct (at_pos_short _ _ _ Hat (Hshort k Hin)) as [Hl Ha]. pose proof (gcode_nonneg i tk Ha Hl). unfold gcode at 1. cbn [code]. lia.
Qed.

(** The keys of one interval below a prefix are its extensions. *)
Lemma interval_extends p ip tp k ik tk :
  at_pos p ip tp -> (String.length tp <= D)%nat -> at_pos k ik tk -> (String.length tk <= D)%nat ->
  gcode D ip tp <= gcode D ik tk < gcode D ip tp + BASE ^ Z.of_nat (D - String.length tp) ->
  exists t, k = p ++s t /\ tk = tp ++s t /\ ik = ip.
Proof.
  intros (r & Hr & -> & Hap) Hlp (r' & Hr' & -> & Hak) Hlk Hg. unfold gcode in Hg.
  destruct (code_bounds D tp Hap Hlp) as [Hp0 Hp1]. destruct (code_bounds D tk Hak Hlk) as [Hk0 Hk1].
  pose proof (base_pow (D - String.length tk)). pose proof (base_pow D).
  assert (Hi : ik = ip) by (apply Nat2Z.inj; nia). subst ik. rewrite Hr in Hr'. injection Hr' as <-.
  destruct (code_interval D tp tk) as [t ->]; [done..|lia|]. exists t. by rewrite str_app_assoc.
Qed.

Lemma ahead_cycle_end ik tk : (String.length tk <= D)%nat -> alphabetic tk = true -> (ik < 5)%nat -> gcode D ik tk < cycle_end D.
Proof.
  intros Hl Ha Hi. unfold gcode, cycle_end. destruct (code_bounds D tk Ha Hl) as [_ H1]. pose proof (base_pow (D - String.length tk)).
  pose proof (base_pow D). nia.
Qed.
Lemma at_pos_index k i t : at_pos k i t -> (i < 5)%nat.
Proof. intros (r & Hr & _). by apply lookup_lt_Some in Hr. Qed.

(** A query moves the position forward and passes only keys that it returns. *)
Lemma cycle_covers m p ip tp keys next :
  keys_short m -> id_docs_author me = None \/ own_author m = id_docs_author me ->
  at_pos p ip tp -> (String.length tp <= D)%nat -> account_sync_cycle_keys (id_docs_author me) m p = Ok (keys, next) ->
  (forall y, next = Some y -> exists iy ty, at_pos y iy ty /\ (String.length ty <= D)%nat /\ gcode D ip tp < gcode D iy ty)
  /\ forall k ik tk, k ∈ dom (records m) -> at_pos k ik tk -> gcode D ip tp <= gcode D ik tk ->
       k ∈ keys \/ exists y iy ty, next = Some y /\ at_pos y iy ty /\ gcode D iy ty <= gcode D ik tk.
Proof.
  intros Hshort Hauth Hp Hlp Hk. apply (cycle_keys_memory _ _ _ _ _ Hauth) in Hk as [[Hn Hall]|(-> & Hself & k0 & t0 & Hk0 & Hk0' & Ht0)].
  - pose proof (next_position D p ip tp Hp Hlp) as Hnext. rewrite <- Hn in Hnext. pose proof (base_pow (D - String.length tp)). split.
    + intros y ->. destruct Hnext as (iy & ty & Hy & Hly & Hg). exists iy, ty. split_and!; [done | lia | lia].
    + intros k ik tk Hin Hat Hge. destruct (at_pos_short _ _ _ Hat (Hshort k Hin)) as [Hlk Hak].
      destruct (Z.lt_ge_cases (gcode D ik tk) (gcode D ip tp + BASE ^ Z.of_nat (D - String.length tp))) as [Hlt|Hgt].
      * left. destruct (interval_extends p ip tp k ik tk) as (t & -> & _); [done..|]. apply Hall; [done | apply starts_with_app].
      * right. destruct next as [y|].
        -- destruct Hnext as (iy & ty & Hy & Hly & Hg). exists y, iy, ty. split_and!; [done..|lia].
        -- pose proof (ahead_cycle_end ik tk Hlk Hak (at_pos_index _ _ _ Hat)). lia.
  - assert (Hdeep : (String.length tp + 1 <= D)%nat).
    { specialize (Hshort k0 Hk0). destruct Hp as (r & _ & -> & _). subst k0. rewrite !str_app_length in Hshort. destruct t0; [done|].
      simpl in Hshort. lia. }
    assert (Hat' : at_pos (p ++s "-") ip (tp ++s "-")).
    { destruct Hp as (r & Hr & -> & Ha). exists r. split_and!; [done | by rewrite str_app_assoc |]. unfold alphabetic in *. by rewrite str_all_app, Ha. }
    assert (Hg : gcode D ip (tp ++s "-") = gcode D ip tp + BASE ^ Z.of_nat (D - (String.length tp + 1))).
    { unfold gcode. rewrite code_app. cbn [code]. change (rank "-") with 1.
      replace (pred (D - String.length tp)) with (D - (String.length tp + 1))%nat by lia. lia. }
    pose proof (base_pow (D - (String.length tp + 1))). split.
    + intros y [= <-]. exists ip, (tp ++s "-"). rewrite str_app_length. cbn [String.length]. split_and!; [done | lia | lia].
    + intros k ik tk Hin Hat Hge. destruct (at_pos_short _ _ _ Hat (Hshort k Hin)) as [Hlk Hak].
      destruct (Z.lt_ge_cases (gcode D ik tk) (gcode D ip (tp ++s "-"))) as [Hlt|Hgt]; [|right; by exists (p ++s "-"), ip, (tp ++s "-")].
      left. assert (Hw : BASE ^ Z.of_nat (D - String.length tp) = BASE * BASE ^ Z.of_nat (D - (String.length tp + 1))).
      { rewrite <- base_pow_S. f_equal. lia. }
      destruct (interval_extends p ip tp k ik tk) as (t & -> & -> & ->); [done..| unfold BASE in *; lia |].
      destruct t as [|a t]; [rewrite str_app_nil in Hin |- *; by apply Hself|]. exfalso.
      rewrite Hg in Hlt. unfold gcode in Hlt. rewrite code_app in Hlt. cbn [code] in Hlt.
      unfold alphabetic in Hak. rewrite str_all_app in Hak. cbn [str_all] in Hak. destruct_bools.
      match goal with Ha : in_alphabet a = true |- _ => pose proof (rank_bounds a Ha) end.
      rewrite str_app_length in Hlk. cbn [String.length] in Hlk.
      destruct (code_bounds (pred (D - String.length tp)) t) as [Ht _]; [done | lia |].
      replace (pred (D - String.length tp)) with (D - (String.length tp + 1))%nat in * by lia. nia.
Qed.

Context (m : MemoryReplica) (log : list string) (short : keys_short m)
        (author : id_docs_author me = None \/ own_author m = id_docs_author me).

Lemma cycle_step_covered d c p :
  covered m log d c -> cycle_prefix c = Some p ->
  wp (account_sync_cycle_step env me merge (fun _ => m) p false) (fun r d' => progress d d' /\ forall next, r = Ok next ->
    covered m log d' (let c' := with_cycle_prefix c next in if bool_decide (next = None) then with_seq c' (cycle_head c') else c')) d.
Proof using laws short author.
  intros Hc Hp. unfold account_sync_cycle_step. apply prog_wp_bind. unfold wp at 1, from_source. cbn [fst snd].
  destruct (account_sync_cycle_keys _ m p) as [[keys next]|e] eqn:Hk; [|split; [reflexivity | done]].
  apply prog_wp_bind. eapply prog_wp_mono; [by apply merge_keys_settle|]. intros [[]|e] d1 [Hprog Hset]; [|by split].
  split; [done|]. intros next' [= <-]. specialize (Hset eq_refl).
  destruct Hc as [Hd Hpos Hbase Hkeys]. destruct (Hpos p Hp) as (ip & tp & Hat & Hlen).
  destruct (cycle_covers m p ip tp keys next short author Hat Hlen Hk) as [Hnext Hcov].
  assert (Hb : base c = cycle_head c) by (unfold base; by rewrite Hp). rewrite Hb in *.
  set (c' := if bool_decide (next = None) then _ else _).
  assert (Hc' : cycle_prefix c' = next) by (subst c'; by case_bool_decide).
  assert (Hb' : base c' = cycle_head c) by (unfold base; rewrite Hc'; subst c'; destruct next; by case_bool_decide).
  constructor; [subst c'; by case_bool_decide | | by rewrite Hb' |].
  - rewrite Hc'. intros y Hy. destruct (Hnext y Hy) as (iy & ty & ? & ? & _). by exists iy, ty.
  - intros k i t Hin Hatk Hh. rewrite Hb'. destruct (Hkeys k i t Hin Hatk Hh) as [Hs|[(q & iq & tq & Hq & Hatq & Hle)|Hlog]].
    + left. eapply settled_mono, Hs. apply Hprog.
    + rewrite Hp in Hq. injection Hq as <-. destruct (at_pos_unique _ _ _ _ _ Hatq Hat) as [-> ->].
      destruct (Hcov k i t Hin Hatk Hle) as [Hin'|(y & iy & ty & -> & Hy & Hley)]; [left; by apply Hset|].
      right. left. exists y, iy, ty. by rewrite Hc'.
    + by right; right.
Qed.
(** The cursor that the next step starts from, and the invariant of a reader. *)
Definition cursor_of (d : Device W) : AccountSyncCursor :=
  default (new_cursor device (Z.of_nat (length log))) (sync_cursors (ledger d) !! device).
Definition fetch_inv (d : Device W) : Prop := covered m log d (cursor_of d).

Lemma progress_inv d d' : progress d d' -> fetch_inv d -> fetch_inv d'.
Proof. intros [Hl Hc] Hi. unfold fetch_inv, cursor_of in *. rewrite Hc. by eapply covered_mono. Qed.

(** Storing a cursor; one that is evicted starts from the beginning. *)
Lemma put_cursor_inv d c own :
  covered m log d c -> fetch_inv (set_ledger (put_account_sync_cursor c own) d)
                       /\ covered m log (set_ledger (put_account_sync_cursor c own) d) c.
Proof using short.
  intros Hc. assert (Hl : ledger_le (ledger d) (ledger (set_ledger (put_account_sync_cursor c own) d))) by apply put_cursor_ledger_le.
  split; [|by eapply covered_mono]. unfold fetch_inv, cursor_of. cbn [ledger set_ledger]. rewrite put_cursor_lookup.
  rewrite (cov_device _ _ _ _ Hc). rewrite lookup_insert_eq. case_decide; cbn [default].
  - apply (covered_ext _ _ _ (with_updated_at (new_cursor device (Z.of_nat (length log))) 0)); [done..|]. by apply new_cursor_covered.
  - by eapply covered_mono.
Qed.

Context (win : window me device m log).

Lemma window_change c :
  0 <= cur_seq c < Z.of_nat (length log) -> Z.of_nat (length log) - cur_seq c <= ACCOUNT_SYNC_CHANGE_WINDOW ->
  exists k, log !! Z.to_nat (cur_seq c) = Some k
    /\ exists ch, read_account_sync_change me m (change_slot device (cur_seq c + 1)) = Ok (Some ch)
       /\ (ch = {| ch_seq := cur_seq c + 1; ch_docs_key := k |}
           \/ Z.of_nat (length log) - cur_seq c = ACCOUNT_SYNC_CHANGE_WINDOW /\ ch_seq ch <> cur_seq c + 1).
Proof using win.
  intros Hc Hw. destruct (lookup_lt_is_Some_2 log (Z.to_nat (cur_seq c))) as [k Hk]; [lia|]. exists k. split; [done|].
  destruct (win_slots _ _ _ _ win (cur_seq c + 1) k) as [Hs|[He [k' Hs]]]; [lia | lia | by replace (cur_seq c + 1 - 1) with (cur_seq c) by lia | |].
  - eexists. split; [by apply read_change_some | by left].
  - eexists. split; [by apply read_change_some | right]. cbn. unfold ACCOUNT_SYNC_CHANGE_WINDOW in *. lia.
Qed.

(** The change after the cursor is settled: the cursor can move past it. *)
Lemma covered_next d c k :
  covered m log d c -> cycle_prefix c = None -> log !! Z.to_nat (cur_seq c) = Some k -> settled m d k ->
  covered m log d (with_seq c (cur_seq c + 1)).
Proof.
  intros [Hd Hp Hb Hk] Hn Hlog Hs. assert (Hbase : base c = cur_seq c) by (unfold base; by rewrite Hn).
  assert (Hbase' : base (with_seq c (cur_seq c + 1)) = cur_seq c + 1) by (unfold base; cbn; by rewrite Hn).
  rewrite Hbase in *. constructor; [done | done | rewrite Hbase'; apply lookup_lt_Some in Hlog; lia |].
  intros k' i t Hin Hat Hh. rewrite Hbase'. destruct (Hk k' i t Hin Hat Hh) as [?|[(p & ip & tp & Hc & _)|(s & Hs1 & Hs2)]];
    [by left | by rewrite Hn in Hc |]. destruct (decide (s = cur_seq c + 1)) as [->|]; [|right; right; exists s; split; [lia|done]].
  replace (cur_seq c + 1 - 1) with (cur_seq c) in Hs2 by lia. left. rewrite Hlog in Hs2. by injection Hs2 as <-.
Qed.

Lemma read_window_covered n own d c :
  covered m log d c -> fetch_inv d -> cycle_prefix c = None -> cur_seq c + Z.of_nat n <= Z.of_nat (length log) ->
  Z.of_nat (length log) - cur_seq c <= ACCOUNT_SYNC_CHANGE_WINDOW ->
  wp (read_window env me merge (fun _ => m) device own (Z.of_nat (length log)) n c)
    (fun r d' => fetch_inv d' /\ forall c', r = Ok c' -> covered m log d' c') d.
Proof using laws short win.
  revert d c. induction n as [|n IH]; intros d c Hc Hi Hn Hlen Hw; [split; [done|]; by intros c' [= <-]|]. cbn [read_window]. cbv zeta.
  pose proof (cov_base _ _ _ _ Hc) as Hb. unfold base in Hb. rewrite Hn in Hb.
  destruct (window_change c) as (k & Hk & ch & Hread & Hch); [lia | done |].
  apply prog_wp_bind. unfold wp at 1, from_source. cbn [fst snd]. rewrite Hread.
  destruct Hch as [->|[_ Hne]]; [|rewrite (proj2 (Z.eqb_neq _ _)) by done; split; [done|]; intros c' [= <-]; by apply new_cursor_covered].
  cbn [ch_seq ch_docs_key]. rewrite Z.eqb_refl.
  apply prog_wp_bind. eapply prog_wp_mono; [by apply merge_key_settles|]. intros [[]|e] d1 [Hp1 Hs1].
  - assert (Hc1 : covered m log d1 (with_seq c (cur_seq c + 1))).
    { eapply covered_next; [|done|exact Hk|by apply Hs1]. eapply covered_mono, Hc. apply Hp1. }
    apply prog_wp_bind. unfold wp at 1, put_cursor, put. cbn [fst snd]. destruct (put_cursor_inv d1 _ own Hc1) as [Hi2 Hc2].
    apply IH; [done | done | done | cbn; lia | cbn; lia].
  - split; [by eapply progress_inv | done].
Qed.

(** Every item of the writer is settled, but for those whose write stopped. *)
Definition caught_up (d : Device W) : Prop := forall k i t, k ∈ dom (records m) -> at_pos k i t -> k ∉ half -> settled m d k.

Lemma covered_end d c : covered m log d c -> cycle_prefix c = None -> Z.of_nat (length log) <= cur_seq c -> caught_up d.
Proof.
  intros [Hd Hp Hb Hk] Hn Hge k i t Hin Hat Hh. unfold base in *. rewrite Hn in *.
  destruct (Hk k i t Hin Hat Hh) as [?|[(p & ip & tp & Hc & _)|(s & Hs1 & Hs2)]]; [done | by rewrite Hn in Hc |].
  apply lookup_lt_Some in Hs2. lia.
Qed.

(** A step of a fetch keeps the invariant, also when it fails, and a step that reports that
    nothing is left leaves the reader caught up. *)
Lemma fetch_step_covered own d :
  fetch_inv d -> Z.of_nat (length log) < 2 ^ 63 ->
  wp (account_sync_fetch_step env me merge (fun _ => m) device own) (fun r d' => fetch_inv d' /\ (r = Ok false -> caught_up d')) d.
Proof using laws short author win.
  intros Hi Hlen. unfold account_sync_fetch_step. apply prog_wp_bind. unfold wp at 1, from_source. cbn [fst snd].
  destruct (read_account_sync_change me m (ChangeHead device)) as [ch|e] eqn:Hch; [|by split].
  apply read_change_memory in Hch. pose proof (win_head _ _ _ _ win) as Hhead. unfold head_seq in Hhead. rewrite Hch in Hhead. rewrite Hhead.
  cbv zeta. apply prog_wp_bind. unfold wp at 1, get. cbn [fst snd]. unfold get_account_sync_cursor.
  change (default (new_cursor device (Z.of_nat (length log))) (sync_cursors (ledger d) !! device)) with (cursor_of d).
  apply now_step. intros t d1 _ (Hl1 & _).
  assert (Hi1 : fetch_inv d1) by (eapply progress_inv, Hi; by apply progress_same).
  set (c := with_updated_at (with_head (cursor_of d) (Z.of_nat (length log))) t).
  assert (Hc : covered m log d1 c).
  { eapply covered_ext, Hi1; unfold cursor_of; by rewrite Hl1. }
  apply prog_wp_bind. eapply (prog_wp_mono _ (fun r d' => fetch_inv d' /\ forall c', r = Ok c' -> covered m log d' c')).
  - unfold advance_cursor. destruct (cycle_prefix c) as [p|] eqn:Hp.
    + apply prog_wp_bind. eapply prog_wp_mono; [by apply cycle_step_covered|]. intros [next|e] d2 [Hp2 Hcov].
      * split; [by eapply progress_inv|]. intros c' [= <-]. by apply Hcov.
      * split; [by eapply progress_inv | done].
    + pose proof (cov_base _ _ _ _ Hc) as Hb. unfold base in Hb. rewrite Hp in Hb.
      destruct (Z.ltb_spec ACCOUNT_SYNC_CHANGE_WINDOW (Z.max 0 (Z.of_nat (length log) - cur_seq c))) as [Hgt|Hle].
      * split; [done|]. intros c' [= <-]. by apply new_cursor_covered.
      * apply read_window_covered; [done | done | done | | lia]. unfold window_len, add_u64, ACCOUNT_SYNC_PAGE.
        rewrite Z.mod_small by lia. lia.
  - intros [c'|e] d2 [Hi2 Hcov]; [|by split]. specialize (Hcov c' eq_refl). apply prog_wp_bind. unfold wp at 1, put_cursor, put. cbn [fst snd].
    destruct (put_cursor_inv d2 c' own Hcov) as [Hi3 Hc3]. split; [done|]. intros [= Hm]. apply orb_false_elim in Hm as [Hcy Hseq].
    apply bool_decide_eq_false, eq_None_not_Some in Hcy. apply (covered_end _ c'); [done | done | lia].
Qed.
End reader.
