(* ===== verification/AccountSyncFetchProps.v ===== *)
(** * Devices catch up

    Two devices of one account, a writer that publishes and a reader that fetches, in any
    order and with calls that fail anywhere: when a fetch reports that nothing is left, the
    reader holds every version the writer shows, but for items whose last write stopped
    half-way. *)
From S2P Require Import Prelude RustStr Envelope Replicas TimeIndex AccountSyncItem AccountSyncItemProps AccountSyncStore AccountSyncStoreProps AccountSyncCycle ChannelKeyStore Calls AccountSync AccountSyncMerge AccountSyncFetch AccountSyncReplica AccountSyncFetchInv.

(** ** Positions of items *)

(** Public keys are written in lower case. *)
Definition lower_key (k : AccountSyncItemKey) : bool :=
  match k with
  | TrustAlwaysVisible a => str_all is_lower_hex a
  | ParticipantFollow s t => str_all is_lower_hex s && str_all is_lower_hex t
  | ChannelParticipant _ p => str_all is_lower_hex p
  | OwnFollow a | OwnBlock a | FollowerEdge a => str_all is_lower_hex a
  | _ => true
  end.

Lemma lower_hex_alphabet a : is_lower_hex a = true -> in_alphabet a = true.
Proof. destruct a as [[] [] [] [] [] [] [] []]; vm_compute; done. Qed.

Lemma lower_hex_alphabetic s : str_all is_lower_hex s = true -> alphabetic s = true.
Proof. apply str_all_impl, lower_hex_alphabet. Qed.

Section positions.
Context {hex_crate : HexCrate} {hex_laws : HexCrateLaws}.

Lemma hex_alphabetic s : alphabetic (Replicas.hex_encode s) = true.
Proof. apply lower_hex_alphabetic, hex_encode_lower. Qed.

(** The cycle reaches the key of every merged item in lower case. *)
Lemma item_position k : merge_key k = true -> lower_key k = true -> exists i t, at_pos (docs_key k) i t.
Proof.
  assert (Happ : forall x y, alphabetic x = true -> alphabetic y = true -> alphabetic (x ++s y) = true).
  { intros x y Hx Hy. unfold alphabetic in *. by rewrite str_all_app, Hx, Hy. }
  pose proof hex_alphabetic as Hhex. pose proof lower_hex_alphabetic as Hlow.
  destruct k; intros Hm Hl; try done; cbn [lower_key] in Hl; destruct_bools; cbn [docs_key].
  - by exists 0%nat, "", "profile".
  - eexists 1%nat, _, "trust/always-visible/". split_and!; [done..|auto].
  - eexists 4%nat, _, "channel/". split_and!; [done..|auto].
  - eexists 4%nat, _, "channel/". split_and!; [done..|auto].
  - eexists 4%nat, _, "channel/". split_and!; [done..|auto].
  - eexists 4%nat, _, "channel/". split_and!; [done..|auto].
  - eexists 4%nat, _, "channel/". split_and!; [done..|auto].
  - eexists 4%nat, _, "channel/". split_and!; [done..|auto].
  - eexists 2%nat, _, "follow/". split_and!; [done..|auto].
  - exists 3%nat, ("follows/" ++s target), "graph/". split_and!; [done..|auto].
  - exists 3%nat, ("blocks/" ++s target), "graph/". split_and!; [done..|auto].
  - exists 3%nat, ("followers/" ++s subject), "graph/". split_and!; [done..|auto].
Qed.

(** The keys of the change window are outside the cycle. *)
Lemma change_no_position k i t : merge_key k = false -> ~ at_pos (docs_key k) i t.
Proof.
  intros Hm (r & Hr & He & _). destruct k; try done; cbn [docs_key] in He;
    do 5 (destruct i as [|i]; [injection Hr as <-; discriminate He|]); done.
Qed.
End positions.

(** ** Runs of a writer and a reader *)
Section runs.
Context {hex_crate : HexCrate} {hex_laws : HexCrateLaws} {crypto : Crypto} {pubkey_laws : PubkeyLaws}.
Context {json_value : JsonValue} {aead : Aead} {aead_laws : AeadLaws}.
Context {item_json : Json (@AccountSyncItem json_value)} {item_laws : JsonLaws (@AccountSyncItem json_value)}.
Context {sealed_json : Json SealedAccountSyncItem} {sealed_laws : JsonLaws SealedAccountSyncItem}.
Context {change_serde : Serde AccountSyncChangeV1} {change_laws : SerdeLaws AccountSyncChangeV1}.
Context {W : Type} (me : Identity) (device : string).
#[local] Abbreviation Call := (Prog (Device W)).

(** The random source returns as many bytes as it is asked for. *)
Definition env_ok (env : Env) : Prop := forall n len, String.length (random_bytes env n len) = len.

(** [sync_run n half w r]: the writer [w] on [device] has announced [n] changes, [half] are
    the keys of the items whose last write stopped and may have changed the replica, and [r]
    is the reader's state.  Every call may fail anywhere; a write that failed and left the
    replica as it was adds nothing to [half]. *)
Inductive sync_run (merge : Env -> AccountSyncItem -> Call bool) (own : string) : nat -> gset string -> Device W -> Device W -> Prop :=
| run_start w r :
    records (replica w) = ∅ -> own_author (replica w) = id_docs_author me -> sync_cursors (ledger r) !! device = None ->
    sync_run merge own 0 ∅ w r
| run_write n half env w w' r i :
    sync_run merge own n half w r -> env_ok env -> merge_key (AccountSyncItem.key i) = true -> key_typed (AccountSyncItem.key i) = true ->
    try_write_account_sync_item env (on_device me device) i w = (Ok tt, w') ->
    sync_run merge own (S n) (half ∖ {[docs_key (AccountSyncItem.key i)]}) w' r
| run_write_failed n half env w w' r e i :
    sync_run merge own n half w r -> try_write_account_sync_item env (on_device me device) i w = (Err e, w') -> replica w' = replica w ->
    sync_run merge own n half w' r
| run_write_stopped n half env w w' r e i :
    sync_run merge own n half w r -> env_ok env -> merge_key (AccountSyncItem.key i) = true -> key_typed (AccountSyncItem.key i) = true ->
    try_write_account_sync_item env (on_device me device) i w = (Err e, w') ->
    sync_run merge own n (half ∪ {[docs_key (AccountSyncItem.key i)]}) w' r
| run_fetch n half env w r r' res :
    sync_run merge own n half w r -> account_sync_fetch_step env me (merge env) (fun _ => replica w) device own r = (res, r') ->
    sync_run merge own n half w r'
| run_local n half env w r r' res i :
    sync_run merge own n half w r -> publish_account_sync_item env me i r = (res, r') -> sync_run merge own n half w r'.

Lemma announced_elim m i m' :
  announced (on_device me device) device m i m' -> announced me device m i m'.
Proof. intros (m1 & m2 & slot & head & [] & [] & [] & H). by exists m1, m2, slot, head. Qed.

Lemma stopped_elim m i m' : stopped (on_device me device) device m i m' -> stopped me device m i m'.
Proof.
  intros [|m1 []|m1 m2 slot [] Hs []]; [constructor | by constructor |]. by eapply (stopped_after_slot _ _ _ _ m1 m2 slot).
Qed.

Lemma wrote_short m i m' : wrote me m i m' -> key_typed (AccountSyncItem.key i) = true -> keys_short m -> keys_short m'.
Proof.
  intros Hw Hx Hs k Hk. rewrite (wrote_dom _ _ _ _ Hw) in Hk. apply elem_of_union in Hk as [->%elem_of_singleton|Hk]; [|by apply Hs].
  apply docs_key_text; [by eapply wrote_key | done].
Qed.

(** The keys and the items after a write, and after one that stopped. *)
Definition only_changes (k0 : string) (m m' : MemoryReplica) : Prop :=
  own_author m' = own_author m /\ (keys_short m -> keys_short m')
  /\ forall k ik t, at_pos k ik t -> (k ∈ dom (records m') -> k = k0 \/ k ∈ dom (records m)) /\ (k <> k0 -> stored me m' k = stored me m k).

Lemma slot_no_position s k ik t : at_pos k ik t -> k <> docs_key (change_slot device s).
Proof. intros Hat ->. by apply change_no_position in Hat. Qed.

Lemma announced_keys m i m' :
  announced me device m i m' -> key_typed (AccountSyncItem.key i) = true -> only_changes (docs_key (AccountSyncItem.key i)) m m'.
Proof.
  intros (m1 & m2 & slot & head & H1 & H2 & H3 & Hks & _ & Hkh & _) Ht. split_and!.
  - by rewrite (wrote_author _ _ _ _ H3), (wrote_author _ _ _ _ H2), (wrote_author _ _ _ _ H1).
  - intros Hs. eapply wrote_short; [exact H3 | by rewrite Hkh |]. eapply wrote_short; [exact H2 | rewrite Hks; apply change_slot_typed |]. by eapply wrote_short.
  - intros k ik t Hat. assert (Hs : k <> docs_key (AccountSyncItem.key slot)) by (rewrite Hks; by eapply slot_no_position).
    assert (Hh : k <> docs_key (AccountSyncItem.key head)) by (rewrite Hkh; intros ->; by apply change_no_position in Hat).
    split.
    + rewrite (wrote_dom _ _ _ _ H3), (wrote_dom _ _ _ _ H2), (wrote_dom _ _ _ _ H1). set_solver.
    + intros Hi. by rewrite (wrote_stored _ _ _ _ H3), (wrote_stored _ _ _ _ H2), (wrote_stored _ _ _ _ H1), !decide_False.
Qed.

Lemma stopped_keys m i m' :
  stopped me device m i m' -> key_typed (AccountSyncItem.key i) = true -> only_changes (docs_key (AccountSyncItem.key i)) m m'.
Proof.
  intros [|m1 H1|m1 m2 slot H1 [Hks _] H2] Ht; split_and!; try done.
  - intros k ik t Hat. split; [by right | done].
  - by rewrite (wrote_author _ _ _ _ H1).
  - by eapply wrote_short.
  - intros k ik t Hat. split; [rewrite (wrote_dom _ _ _ _ H1); set_solver|]. intros Hi. by rewrite (wrote_stored _ _ _ _ H1), decide_False.
  - by rewrite (wrote_author _ _ _ _ H2), (wrote_author _ _ _ _ H1).
  - intros Hs. eapply wrote_short; [exact H2 | rewrite Hks; apply change_slot_typed |]. by eapply wrote_short.
  - intros k ik t Hat. assert (Hs : k <> docs_key (AccountSyncItem.key slot)) by (rewrite Hks; by eapply slot_no_position). split.
    + rewrite (wrote_dom _ _ _ _ H2), (wrote_dom _ _ _ _ H1). set_solver.
    + intros Hi. by rewrite (wrote_stored _ _ _ _ H2), (wrote_stored _ _ _ _ H1), !decide_False.
Qed.

Lemma covered_announced half m log (d : Device W) c i m' :
  announced me device m i m' -> key_typed (AccountSyncItem.key i) = true -> covered me device half m log d c ->
  covered me device (half ∖ {[docs_key (AccountSyncItem.key i)]}) m' (log ++ [docs_key (AccountSyncItem.key i)])%list d c.
Proof.
  intros Hann Ht [Hd Hp Hb Hk]. destruct (announced_keys _ _ _ Hann Ht) as (_ & _ & Hkeys).
  constructor; [done | done | rewrite length_app; lia |]. intros k ik t Hin Hat Hh. destruct (Hkeys k ik t Hat) as [Hdom Hst].
  destruct (decide (k = docs_key (AccountSyncItem.key i))) as [->|Hne].
  - right. right. exists (Z.of_nat (length log) + 1). split; [lia|]. rewrite lookup_app_r by lia.
    by replace (Z.to_nat _ - length log)%nat with 0%nat by lia.
  - destruct (Hdom Hin) as [?|Hin']; [done|]. destruct (Hk k ik t Hin' Hat) as [Hs|[Ha|(s & Hs1 & Hs2)]]; [set_solver|..].
    + left. intros j Hj. rewrite Hst in Hj by done. by apply Hs.
    + by right; left.
    + right. right. exists s. split; [done|]. by apply lookup_app_l_Some.
Qed.

Lemma covered_stopped half m log (d : Device W) c i m' :
  stopped me device m i m' -> key_typed (AccountSyncItem.key i) = true -> covered me device half m log d c ->
  covered me device (half ∪ {[docs_key (AccountSyncItem.key i)]}) m' log d c.
Proof.
  intros Hst Ht [Hd Hp Hb Hk]. destruct (stopped_keys _ _ _ Hst Ht) as (_ & _ & Hkeys).
  constructor; [done..|]. intros k ik t Hin Hat Hh. destruct (Hkeys k ik t Hat) as [Hdom Hsame].
  assert (Hne : k <> docs_key (AccountSyncItem.key i)) by set_solver. destruct (Hdom Hin) as [?|Hin']; [done|].
  destruct (Hk k ik t Hin' Hat) as [Hs|?]; [set_solver | left | by right]. intros j Hj. rewrite Hsame in Hj by done. by apply Hs.
Qed.

(** ** The invariant of a run *)
Context (merge : Env -> AccountSyncItem -> Call bool) (laws : forall env, MergeLaws (merge env)) (own : string).

Record run_inv (n : nat) (half : gset string) (w r : Device W) (log : list string) : Prop := {
  ri_log : length log = n;
  ri_merged : Forall (fun k => exists key, merge_key key = true /\ docs_key key = k) log;
  ri_window : window me device (replica w) log;
  ri_short : keys_short (replica w);
  ri_author : own_author (replica w) = id_docs_author me;
  ri_fetch : fetch_inv me device half (replica w) log r
}.

Lemma start_inv w r :
  records (replica w) = ∅ -> own_author (replica w) = id_docs_author me -> sync_cursors (ledger r) !! device = None -> run_inv 0 ∅ w r [].
Proof.
  intros Hw Ha Hr. assert (Hno : forall k, stored me (replica w) k = None) by (intros k; unfold stored; by rewrite Hw).
  constructor; [done | done | | intros k; rewrite Hw, dom_empty_L; set_solver | done |].
  - assert (Hc : forall k, change_at me (replica w) k = None) by (intros k; unfold change_at; by rewrite Hno).
    constructor; [unfold head_seq; by rewrite Hc | unfold read_account_sync_change; by rewrite read_memory, Hno | by intros s k _ _ ?].
  - unfold fetch_inv, cursor_of. rewrite Hr. cbn [default length].
    apply (covered_ext _ _ _ _ _ _ (with_updated_at (new_cursor device (Z.of_nat 0)) 0)); [done..|].
    apply (new_cursor_covered me device ∅ (replica w) []). intros k. rewrite Hw, dom_empty_L. set_solver.
Qed.

Lemma write_inv n half w r log i w' :
  run_inv n half w r log -> announced me device (replica w) i (replica w') -> merge_key (AccountSyncItem.key i) = true ->
  key_typed (AccountSyncItem.key i) = true -> Z.of_nat n + 1 < 2 ^ 64 ->
  run_inv (S n) (half ∖ {[docs_key (AccountSyncItem.key i)]}) w' r (log ++ [docs_key (AccountSyncItem.key i)]).
Proof using hex_laws pubkey_laws aead_laws item_laws sealed_laws change_laws.
  intros [Hlog Hmer Hwin Hsh Hau Hfe] Hann Hm Ht Hn. destruct (announced_keys _ _ _ Hann Ht) as (Hau' & Hsh' & _).
  constructor; [rewrite length_app; simpl; lia | | | by apply Hsh' | congruence |].
  - apply Forall_app. split; [done|]. apply Forall_singleton. eauto.
  - apply (window_announced me device (replica w) log i); [done..|lia].
  - unfold fetch_inv, cursor_of in *. rewrite length_app. cbn [length].
    destruct (sync_cursors (ledger r) !! device) as [c|]; [by eapply covered_announced|].
    cbn [default]. apply (covered_ext _ _ _ _ _ _ (with_updated_at (new_cursor device (Z.of_nat (length (log ++ [docs_key (AccountSyncItem.key i)])%list))) 0));
      [done | done | cbn; rewrite length_app; cbn; lia | done |]. by apply new_cursor_covered, Hsh'.
Qed.

Lemma stopped_inv n half w r log i w' :
  run_inv n half w r log -> stopped me device (replica w) i (replica w') -> merge_key (AccountSyncItem.key i) = true ->
  key_typed (AccountSyncItem.key i) = true -> Z.of_nat n + 1 < 2 ^ 64 -> run_inv n (half ∪ {[docs_key (AccountSyncItem.key i)]}) w' r log.
Proof using hex_laws pubkey_laws aead_laws item_laws sealed_laws change_laws.
  intros [Hlog Hmer Hwin Hsh Hau Hfe] Hst Hm Ht Hn. destruct (stopped_keys _ _ _ Hst Ht) as (Hau' & Hsh' & _).
  constructor; [done | done | | by apply Hsh' | congruence | by eapply covered_stopped].
  apply (window_stopped me device (replica w) log i); [done..|lia].
Qed.

Lemma run_invariant n half w r : sync_run merge own n half w r -> Z.of_nat n < 2 ^ 63 -> exists log, run_inv n half w r log.
Proof using laws hex_laws pubkey_laws aead_laws item_laws sealed_laws change_laws.
  induction 1 as [w r Hw Ha Hr|n half env w w' r i Hrun IH He Hm Ht Hwr|n half env w w' r e i Hrun IH Hwr Hsame
                 |n half env w w' r e i Hrun IH He Hm Ht Hwr|n half env w r r' res Hrun IH Hf|n half env w r r' res i Hrun IH Hl];
    intros Hn.
  - exists []. by apply start_inv.
  - destruct IH as [log Hi]; [lia|]. eexists. apply (write_inv n half w); [exact Hi | | done | done | lia].
    apply announced_elim, (try_write_announced (on_device me device) env He); done.
  - destruct IH as [log [Hlog Hmer Hwin Hsh Hau Hfe]]; [lia|]. exists log. constructor; by rewrite ?Hsame.
  - destruct IH as [log Hi]; [lia|]. exists log. apply (stopped_inv n half w); [done | | done | done | lia].
    eapply stopped_elim, (try_write_stopped (on_device me device) env He); done.
  - destruct IH as [log [Hlog Hmer Hwin Hsh Hau Hfe]]; [lia|]. exists log. constructor; [done..|].
    assert (Hs := fetch_step_covered env me (merge env) (laws env) device half (replica w) log Hsh (or_intror Hau) Hwin own r Hfe).
    unfold wp in Hs. rewrite Hf in Hs. apply Hs. lia.
  - destruct IH as [log [Hlog Hmer Hwin Hsh Hau Hfe]]; [lia|]. exists log. constructor; [done..|].
    eapply progress_inv, Hfe. pose proof (progress_publish env me i r) as Hp. by rewrite Hl in Hp.
Qed.

(** C6: Whatever writes, fetches and own edits came before, and wherever calls of the writer
    and of the reader failed, when a step of a fetch reports that nothing is left, the reader
    holds a version at least as new as the one the writer shows, for every item in lower case
    whose merge decides by version, except an item whose last write by the writer stopped
    half-way: it can be in the replica without a change that announces it. *)
Theorem fetch_leaves_nothing_behind n half w r env r' k i :
  sync_run merge own n half w r -> Z.of_nat n < 2 ^ 63 ->
  account_sync_fetch_step env me (merge env) (fun _ => replica w) device own r = (Ok false, r') ->
  stored me (replica w) k = Some i -> lww_key (AccountSyncItem.key i) = true -> lower_key (AccountSyncItem.key i) = true -> k ∉ half ->
  holds_version (ledger r') k (updated_at i, op_id i).
Proof using laws hex_laws pubkey_laws aead_laws item_laws sealed_laws change_laws.
  intros Hrun Hn Hf Hst Hw Hl Hh. destruct (run_invariant n half w r Hrun Hn) as [log [Hlog _ Hwin Hsh Hau Hfe]].
  assert (Hs := fetch_step_covered env me (merge env) (laws env) device half (replica w) log Hsh (or_intror Hau) Hwin own r Hfe).
  unfold wp in Hs. rewrite Hf in Hs. destruct Hs as [_ Hc]; [lia|]. destruct (stored_key _ _ _ _ Hst) as (Hk & _ & Hdom).
  destruct (item_position (AccountSyncItem.key i)) as (j & t & Hat); [by destruct (AccountSyncItem.key i) | done |]. rewrite Hk in Hat.
  by apply (Hc eq_refl k j t).
Qed.
End runs.
