(* ===== verification/AccountSyncFetchLive.v ===== *)
(** * A fetch ends

    Against a writer at rest every step of a fetch reports the end, or comes closer to it, or
    fails with the error of a merge: the cycle moves its position forward, the window its
    number, and a cycle that is started because the window moved on, or because its oldest
    slot was overwritten, starts from the present head. *)
From S2P Require Import Prelude RustStr Envelope Replicas TimeIndex AccountSyncItem AccountSyncItemProps AccountSyncStore AccountSyncStoreProps AccountSyncCycle ChannelKeyStore Calls AccountSync AccountSyncMerge AccountSyncFetch AccountSyncReplica AccountSyncFetchInv AccountSyncFetchProps.

Section live.
Context {hex_crate : HexCrate} {hex_laws : HexCrateLaws} {crypto : Crypto} {pubkey_laws : PubkeyLaws}.
Context {json_value : JsonValue} {aead : Aead} {aead_laws : AeadLaws}.
Context {item_json : Json (@AccountSyncItem json_value)} {item_laws : JsonLaws (@AccountSyncItem json_value)}.
Context {sealed_json : Json SealedAccountSyncItem} {sealed_laws : JsonLaws SealedAccountSyncItem}.
Context {change_serde : Serde AccountSyncChangeV1} {change_laws : SerdeLaws AccountSyncChangeV1}.
Context {W : Type} (env : Env) (me : Identity) (device own : string).
#[local] Abbreviation Call := (Prog (Device W)).
Context (merge : AccountSyncItem -> Call bool) (laws : MergeLaws merge).
Context (half : gset string) (m : MemoryReplica) (log : list string) (short : keys_short m)
        (author : id_docs_author me = None \/ own_author m = id_docs_author me) (win : window me device m log)
        (merged : Forall (fun k => exists key, merge_key key = true /\ docs_key key = k) log)
        (bounded : Z.of_nat (length log) < 2 ^ 63).
#[local] Abbreviation D := MAX_KEY_LENGTH.
#[local] Abbreviation L := (Z.of_nat (length log)).
#[local] Abbreviation src := (fun _ : Device W => m).

(** ** Calls that fail by a merge only *)

(** [e] is the error of the merge of an item that the writer shows. *)
Definition merge_failed (e : string) : Prop :=
  exists i d d', stored me m (docs_key (AccountSyncItem.key i)) = Some i /\ merge_key (AccountSyncItem.key i) = true /\ merge i d = (Err e, d').
Definition ok_or_merge {A} (Q : A -> Device W -> Prop) (r : result string A) (d : Device W) : Prop :=
  match r with Ok a => Q a d | Err e => merge_failed e end.

Lemma ok_or_merge_and {A} (c : Call A) (P : result string A -> Device W -> Prop) (Q : A -> Device W -> Prop) d :
  wp c P d -> wp c (ok_or_merge Q) d -> wp c (ok_or_merge (fun a d' => P (Ok a) d' /\ Q a d')) d.
Proof. unfold wp, ok_or_merge. by destruct (c d) as [[a|e] d']. Qed.

(** What [k] names can be merged. *)
Definition names_item (k : string) : Prop := forall i, stored me m k = Some i -> merge_key (AccountSyncItem.key i) = true.

Lemma position_names_item p i t k : at_pos p i t -> starts_with p k = true -> names_item k.
Proof.
  intros (r & Hr & -> & _) [u ->]%starts_with_true j Hj. destruct (stored_key _ _ _ _ Hj) as (Hk & _ & _). rewrite str_app_assoc in Hk.
  destruct (AccountSyncItem.key j); try done; cbn [docs_key] in Hk;
    do 5 (destruct i as [|i]; [injection Hr as <-; discriminate Hk|]); done.
Qed.

Lemma change_names_item k : k ∈ log -> names_item k.
Proof using merged.
  intros Hk i Hi. rewrite Forall_forall in merged. destruct (merged k Hk) as (key & Hm & <-). destruct (stored_key _ _ _ _ Hi) as (He & _ & _).
  destruct (merge_key (AccountSyncItem.key i)) eqn:E; [done|]. by apply (change_item_ne key) in E.
Qed.

Lemma merge_key_ok k d : names_item k -> wp (merge_key_of env me merge src false k) (ok_or_merge (fun _ _ => True)) d.
Proof.
  intros Hk. unfold merge_key_of. apply prog_wp_bind. unfold wp at 1, from_source. cbn [fst snd]. rewrite read_memory.
  destruct (stored me m k) as [i|] eqn:Hi; [|done]. unfold merge_fetched_account_sync_item. apply prog_wp_bind. unfold wp at 1.
  destruct (merge i d) as [[b|e] d1] eqn:E; cbn [fst snd].
  - by destruct b.
  - exists i, d, d1. destruct (stored_key _ _ _ _ Hi) as (He & _ & _). rewrite He. split_and!; [done | by apply Hk | done].
Qed.

Lemma merge_keys_ok ks d : Forall names_item ks -> wp (for_each (merge_key_of env me merge src false) ks) (ok_or_merge (fun _ _ => True)) d.
Proof.
  intros Hks. revert d. induction Hks as [|k ks Hk Hks IH]; intros d; [done|]. cbn [for_each].
  apply prog_wp_bind. eapply prog_wp_mono; [by apply merge_key_ok|]. intros [[]|e] d1 H1; [apply IH | done].
Qed.

(** ** How far a cursor is from the end *)

(** The steps left without a cycle, from the number [s]. *)
Definition window_left (s : Z) : Z :=
  if ACCOUNT_SYNC_CHANGE_WINDOW <=? L - s then cycle_end D + ACCOUNT_SYNC_CHANGE_WINDOW + 2 else L - s + 1.

Inductive left_of (c : AccountSyncCursor) : Z -> Prop :=
| left_cycle p i t :
    cycle_prefix c = Some p -> at_pos p i t -> (String.length t <= D)%nat ->
    left_of c (cycle_end D - gcode D i t + window_left (cycle_head c))
| left_window : cycle_prefix c = None -> left_of c (window_left (cur_seq c)).

Lemma cycle_end_pos : 0 < cycle_end D.
Proof. unfold cycle_end. pose proof (base_pow D). lia. Qed.

Lemma window_left_pos s : s <= L -> 0 < window_left s.
Proof. intros Hs. unfold window_left, ACCOUNT_SYNC_CHANGE_WINDOW. pose proof cycle_end_pos. case_match; lia. Qed.

Lemma left_pos c z (d : Device W) : covered me device half m log d c -> left_of c z -> 0 < z.
Proof.
  intros Hc [p i t Hp Hat Hl|Hn]; pose proof (cov_base _ _ _ _ _ _ _ Hc) as Hb; unfold base in Hb.
  - rewrite Hp in Hb. destruct (Hat) as (r & _ & _ & Ha). pose proof (ahead_cycle_end i t Hl Ha (at_pos_index _ _ _ Hat)).
    pose proof (window_left_pos (cycle_head c)). lia.
  - rewrite Hn in Hb. apply window_left_pos. lia.
Qed.

Lemma covered_left c (d : Device W) : covered me device half m log d c -> exists z, left_of c z.
Proof.
  intros Hc. destruct (cycle_prefix c) as [p|] eqn:Hp; [|eexists; by apply left_window].
  destruct (cov_pos _ _ _ _ _ _ _ Hc p Hp) as (i & t & Hat & Hl). eexists. by eapply left_cycle.
Qed.

Lemma left_ext c c' z : cycle_prefix c' = cycle_prefix c -> cycle_head c' = cycle_head c -> cur_seq c' = cur_seq c -> left_of c z -> left_of c' z.
Proof.
  intros E1 E2 E3 [p i t Hp Hat Hl|Hn]; [rewrite <- E2; eapply left_cycle; [by rewrite E1 | done..] |].
  rewrite <- E3. apply left_window. by rewrite E1.
Qed.

(** ** The other cursors are older than the clock *)
Definition others_older (d : Device W) : Prop :=
  (forall x c, sync_cursors (ledger d) !! x = Some c -> cur_device c = x)
  /\ forall x c n, x <> device -> x <> own -> sync_cursors (ledger d) !! x = Some c -> cur_updated_at c < clock env n.

Lemma others_older_progress d d' : progress d d' -> others_older d -> others_older d'.
Proof. intros [_ Hc]. unfold others_older. by rewrite Hc. Qed.

Lemma others_older_put d c : cur_device c = device -> others_older d -> others_older (set_ledger (put_account_sync_cursor c own) d).
Proof.
  intros Hc [Hf Ho]. split; cbn [ledger set_ledger].
  - intros x c' Hx. by eapply put_cursor_device.
  - intros x c' n Hx Hown Hl. rewrite put_cursor_lookup in Hl. case_decide; [done|]. rewrite lookup_insert_ne in Hl by congruence. by eapply Ho.
Qed.

(** The cursor after a step: closer to the end, or at the end of the window. *)
Definition advanced (t : Z) (c c' : AccountSyncCursor) : Prop :=
  cur_device c' = device /\ cur_updated_at c' = t
  /\ (cycle_prefix c' = None /\ L <= cur_seq c' \/ forall z, left_of c z -> exists z', left_of c' z' /\ z' < z).

Lemma cycle_step_ok p i t d : at_pos p i t -> wp (account_sync_cycle_step env me merge src p false) (ok_or_merge (fun _ _ => True)) d.
Proof using author.
  intros Hat. unfold account_sync_cycle_step. apply prog_wp_bind. unfold wp at 1, from_source. cbn [fst snd].
  destruct (account_sync_cycle_keys (id_docs_author me) m p) as [[keys next]|e] eqn:Hk; [|discriminate Hk].
  assert (Hall : Forall names_item keys).
  { apply Forall_forall. intros k Hin. eapply position_names_item; [exact Hat | by eapply cycle_keys_prefix]. }
  apply prog_wp_bind. eapply prog_wp_mono; [exact (merge_keys_ok keys d Hall)|]. by intros [[]|e] d1 H1.
Qed.

Lemma cycle_step_keys p d next d' :
  account_sync_cycle_step env me merge src p false d = (Ok next, d') -> exists keys, account_sync_cycle_keys (id_docs_author me) m p = Ok (keys, next).
Proof.
  unfold account_sync_cycle_step, from_source, mbind, prog_bind.
  destruct (account_sync_cycle_keys (id_docs_author me) m p) as [[keys nx]|]; [|done]. intros E. exists keys.
  destruct (for_each _ keys d) as [[]?]; [|done]. by injection E as -> ->.
Qed.

Lemma cycle_advances d c p :
  covered me device half m log d c -> cycle_prefix c = Some p -> others_older d ->
  wp (account_sync_cycle_step env me merge src p false) (ok_or_merge (fun next d' => others_older d'
    /\ advanced (cur_updated_at c) c (let c' := with_cycle_prefix c next in if bool_decide (next = None) then with_seq c' (cycle_head c') else c'))) d.
Proof using laws short author.
  intros Hc Hp Ho. destruct (cov_pos _ _ _ _ _ _ _ Hc p Hp) as (i & t & Hat & Hl). pose proof (cycle_step_ok p i t d Hat) as Hok.
  pose proof (cycle_step_covered env me merge laws device half m log short author d c p Hc Hp) as Hw. unfold wp in *.
  destruct (account_sync_cycle_step env me merge src p false d) as [[next|e] d'] eqn:E; [|exact Hok]. cbn [fst snd ok_or_merge] in *.
  split; [by eapply others_older_progress; [apply Hw|]|]. destruct (cycle_step_keys _ _ _ _ E) as [keys Hk].
  split; [case_bool_decide; apply (cov_device _ _ _ _ _ _ _ Hc)|]. split; [by case_bool_decide|]. right.
  destruct (cycle_covers me m p i t keys next short author Hat Hl Hk) as [Hnext _].
  intros z [p' i' t' Hp' Hat' Hl'|Hn]; [|congruence]. rewrite Hp in Hp'. injection Hp' as <-.
  destruct (at_pos_unique _ _ _ _ _ Hat' Hat) as [-> ->]. destruct next as [y|].
  - destruct (Hnext y eq_refl) as (iy & ty & Hy & Hly & Hg). rewrite bool_decide_false by done. eexists. split.
    + by eapply (left_cycle _ y iy ty).
    + cbn [cycle_head with_cycle_prefix]. lia.
  - rewrite bool_decide_true by done. eexists. split; [by apply left_window|]. cbn [cur_seq with_seq cycle_head with_cycle_prefix].
    destruct Hat as (r & Hr & _ & Ha). assert (gcode D i t < cycle_end D); [|lia].
    apply ahead_cycle_end; [done..|]. by apply lookup_lt_Some in Hr.
Qed.

(** The cursor after reading [n] slots, or a new one when the oldest slot was overwritten. *)
Definition after_window (n : nat) (c c' : AccountSyncCursor) : Prop :=
  cur_device c' = device /\ cur_updated_at c' = cur_updated_at c
  /\ (cycle_prefix c' = None /\ cur_seq c' = cur_seq c + Z.of_nat n
      \/ L - cur_seq c = ACCOUNT_SYNC_CHANGE_WINDOW /\ c' = with_updated_at (new_cursor device L) (cur_updated_at c)).

Lemma read_window_ok n d c :
  cycle_prefix c = None -> cur_device c = device -> 0 <= cur_seq c -> cur_seq c + Z.of_nat n <= L ->
  L - cur_seq c <= ACCOUNT_SYNC_CHANGE_WINDOW -> others_older d ->
  wp (read_window env me merge src device own L n c) (ok_or_merge (fun c' d' => others_older d' /\ after_window n c c')) d.
Proof using laws win merged.
  revert d c. induction n as [|n IH]; intros d c Hn Hd H0 Hlen Hw Ho.
  { split; [done|]. split_and!; [done..|]. left. split; [done | lia]. }
  destruct (window_change me device m log win c) as (k & Hk & ch & Hread & Hch); [lia | done |].
  cbn [read_window]. cbv zeta. apply prog_wp_bind. unfold wp at 1, from_source. cbn [fst snd]. rewrite Hread.
  destruct Hch as [->|[He Hne]]; [|rewrite (proj2 (Z.eqb_neq _ _)) by done; split; [done|]; split_and!; [done..|by right]].
  cbn [ch_seq ch_docs_key]. rewrite Z.eqb_refl. apply prog_wp_bind.
  assert (Hkey : names_item k) by (apply change_names_item; by eapply list_elem_of_lookup_2).
  eapply prog_wp_mono; [apply (ok_or_merge_and _ _ _ _ (merge_key_settles env me merge laws m k d) (merge_key_ok k d Hkey))|].
  intros [[]|e] d1 H1; [|exact H1]. destruct H1 as [[Hp _] _]. set (c1 := with_seq c (cur_seq c + 1)).
  apply prog_wp_bind. unfold wp at 1, put_cursor, put. cbn [fst snd].
  eapply prog_wp_mono; [apply (IH _ c1); [done | done | cbn; lia | cbn; lia | cbn; lia |]|].
  { apply others_older_put; [done|]. by eapply others_older_progress. }
  intros [c'|e] d2 H2; [|exact H2]. destruct H2 as [Ho2 (Hd2 & Hu2 & Hs2)]. split; [done|]. split_and!; [done..|].
  cbn in Hs2. destruct Hs2 as [[? ?]|[? _]]; [left; split; [done | lia] | lia].
Qed.

Lemma advance_ok t d c :
  covered me device half m log d c -> cur_updated_at c = t -> others_older d ->
  wp (advance_cursor env me merge src device own L c) (ok_or_merge (fun c' d' => others_older d' /\ advanced t c c')) d.
Proof using laws short author win merged bounded.
  intros Hc <- Ho. unfold advance_cursor. pose proof cycle_end_pos as Hend. destruct (cycle_prefix c) as [p|] eqn:Hp.
  { apply prog_wp_bind. eapply prog_wp_mono; [by apply cycle_advances|]. by intros [next|e] d' H1. }
  pose proof (cov_base _ _ _ _ _ _ _ Hc) as Hb. unfold base in Hb. rewrite Hp in Hb.
  assert (Hnew : ACCOUNT_SYNC_CHANGE_WINDOW <= L - cur_seq c -> advanced (cur_updated_at c) c (with_updated_at (new_cursor device L) (cur_updated_at c))).
  { intros Hge. split; [done|]. split; [done|]. right. intros z [p i x Hp'|_]; [congruence|].
    eexists. split; [eapply left_cycle; [done | apply at_pos_profile | cbn; lia]|]. unfold window_left, gcode. cbn [cycle_head with_updated_at new_cursor code].
    unfold ACCOUNT_SYNC_CHANGE_WINDOW in *. change (Z.of_nat 0) with 0. rewrite Z.mul_0_l. repeat case_match; lia. }
  destruct (Z.ltb_spec ACCOUNT_SYNC_CHANGE_WINDOW (Z.max 0 (L - cur_seq c))) as [Hgt|Hle]; [split; [done | apply Hnew; lia]|].
  assert (Hlen : window_len L (cur_seq c) = Z.to_nat (Z.min L (cur_seq c + 64) - cur_seq c)).
  { unfold window_len, add_u64, ACCOUNT_SYNC_PAGE. rewrite Z.mod_small by lia. done. }
  eapply prog_wp_mono; [apply read_window_ok; [done | apply (cov_device _ _ _ _ _ _ _ Hc) | lia | rewrite Hlen; lia | lia | done]|].
  intros [c'|e] d' H1; [|exact H1]. destruct H1 as [Ho' (Hd' & Hu' & [[Hn' Hs']|[He ->]])]; (split; [done|]); [|apply Hnew; lia].
  split; [done|]. split; [done|]. destruct (decide (L <= cur_seq c')) as [|Hlt]; [by left|]. right. intros z [p i x Hp'|_]; [congruence|].
  eexists. split; [by apply left_window|]. assert (0 < Z.of_nat (window_len L (cur_seq c))) by (rewrite Hs' in Hlt; rewrite Hlen in *; lia).
  unfold window_left, ACCOUNT_SYNC_CHANGE_WINDOW in *.
  destruct (Z.leb_spec 256 (L - cur_seq c')), (Z.leb_spec 256 (L - cur_seq c)); lia.
Qed.

(** One step: it reports the end, or the stored cursor is closer to it, or a merge failed. *)
Lemma fetch_step_advances d :
  fetch_inv me device half m log d -> others_older d ->
  wp (account_sync_fetch_step env me merge src device own) (ok_or_merge (fun more d' => others_older d'
    /\ (more = true -> forall z, left_of (cursor_of device log d) z -> exists z', left_of (cursor_of device log d') z' /\ z' < z))) d.
Proof using laws short author win merged bounded.
  intros Hi Ho. unfold account_sync_fetch_step. apply prog_wp_bind. unfold wp at 1, from_source. cbn [fst snd].
  pose proof (win_read _ _ _ _ win) as Hr. destruct (read_account_sync_change me m (ChangeHead device)) as [ch|] eqn:Hch; [|done].
  apply read_change_memory in Hch. pose proof (win_head _ _ _ _ win) as Hhead. unfold head_seq in Hhead. rewrite Hch in Hhead. rewrite Hhead.
  cbv zeta. apply prog_wp_bind. unfold wp at 1, get. cbn [fst snd]. unfold get_account_sync_cursor.
  change (default (new_cursor device L) (sync_cursors (ledger d) !! device)) with (cursor_of device log d).
  unfold now, ask_env. apply prog_wp_bind, prog_wp_bind. unfold wp at 1. cbn [fst snd]. unfold wp at 1, mret, prog_ret. cbn [fst snd].
  set (d1 := {| ledger := ledger d |}). set (t := clock env (asked d)).
  assert (Hp1 : progress d d1) by by apply progress_same.
  set (c := with_updated_at (with_head (cursor_of device log d) L) t).
  assert (Hc : covered me device half m log d1 c).
  { eapply covered_ext; [..| eapply covered_mono; [apply Hp1 | exact Hi]]; done. }
  assert (Ho1 : others_older d1) by by eapply others_older_progress.
  apply prog_wp_bind. eapply prog_wp_mono; [by apply (advance_ok t)|]. intros [c'|e] d2 H2; [|exact H2].
  destruct H2 as [Ho2 (Hdev & Hup & Hleft)]. apply prog_wp_bind. unfold wp at 1, put_cursor, put. cbn [fst snd].
  split; [by apply others_older_put|]. intros Hmore z Hz.
  assert (Hcur : cursor_of device log (set_ledger (put_account_sync_cursor c' own) d2) = c').
  { assert (Hk : sync_cursors (put_account_sync_cursor c' own (ledger d2)) !! cur_device c' = Some c').
    { apply put_cursor_kept; [apply Ho2|]. intros x c'' Hx Hown Hl. rewrite Hup. apply (proj2 Ho2 x c''); congruence. }
    rewrite Hdev in Hk. unfold cursor_of. cbn [ledger set_ledger]. by rewrite Hk. }
  change (exists z', left_of (cursor_of device log (set_ledger (put_account_sync_cursor c' own) d2)) z' /\ z' < z).
  rewrite Hcur. destruct Hleft as [[Hn Hge]|Hleft].
  - rewrite Hn in Hmore. rewrite bool_decide_false in Hmore by (by intros []). cbn in Hmore. lia.
  - apply Hleft. by eapply left_ext, Hz.
Qed.

Lemma fetch_loop_ends z d :
  fetch_inv me device half m log d -> others_older d -> left_of (cursor_of device log d) z ->
  exists fuel, wp (fetch_loop env me merge src fuel device own) (ok_or_merge (fun o d' => o = Some tt /\ caught_up me half m d')) d.
Proof using laws short author win merged bounded.
  revert d. induction z as [z IH] using (well_founded_induction (Z.lt_wf 0)). intros d Hi Ho Hz.
  pose proof (fetch_step_advances d Hi Ho) as Hs.
  pose proof (fetch_step_covered env me merge laws device half m log short author win own d Hi bounded) as Hc.
  pose proof (ok_or_merge_and _ _ _ _ Hc Hs) as Hstep. clear Hs Hc. unfold wp in Hstep.
  destruct (account_sync_fetch_step env me merge src device own d) as [[more|e] d1] eqn:E; cbn [fst snd ok_or_merge] in Hstep.
  - destruct Hstep as [[Hi1 Hend] [Ho1 Hless]]. destruct more.
    + destruct (Hless eq_refl z Hz) as (z' & Hz' & Hlt). pose proof (left_pos _ _ _ Hi1 Hz') as Hpos.
      destruct (IH z') with (d := d1) as [fuel Hf]; [lia | done..|]. exists (S fuel).
      cbn [fetch_loop]. apply prog_wp_bind. unfold wp at 1. rewrite E. exact Hf.
    + exists 1%nat. cbn [fetch_loop]. apply prog_wp_bind. unfold wp at 1. rewrite E. split; [done | by apply Hend].
  - exists 1%nat. cbn [fetch_loop]. apply prog_wp_bind. unfold wp at 1. by rewrite E.
Qed.
End live.

Section completion.
Context {hex_crate : HexCrate} {hex_laws : HexCrateLaws} {crypto : Crypto} {pubkey_laws : PubkeyLaws}.
Context {json_value : JsonValue} {aead : Aead} {aead_laws : AeadLaws}.
Context {item_json : Json (@AccountSyncItem json_value)} {item_laws : JsonLaws (@AccountSyncItem json_value)}.
Context {sealed_json : Json SealedAccountSyncItem} {sealed_laws : JsonLaws SealedAccountSyncItem}.
Context {change_serde : Serde AccountSyncChangeV1} {change_laws : SerdeLaws AccountSyncChangeV1}.
Context {W : Type} (me : Identity) (device own : string).
Context (merge : Env -> AccountSyncItem -> Prog (Device W) bool) (laws : forall env, MergeLaws (merge env)).

(** C13: After any run, when the writer is at rest and the cursors of the other devices are
    older than the clock, the fetch loop ends: either it reports that nothing is left, and the
    reader holds a version at least as new as the writer's of every item in lower case whose
    merge decides by version, but for those whose last write stopped half-way; or it stops
    with the error that the merge of an item shown by the writer returned, and nothing else
    stops it. *)
Theorem fetch_completes n half w r env :
  sync_run me device merge own n half w r -> Z.of_nat n < 2 ^ 63 -> others_older env device own r ->
  exists fuel res r', fetch_loop env me (merge env) (fun _ => replica w) fuel device own r = (res, r')
    /\ match res with
       | Ok (Some _) =>
           forall k i, stored me (replica w) k = Some i -> lww_key (AccountSyncItem.key i) = true ->
             lower_key (AccountSyncItem.key i) = true -> k ∉ half -> holds_version (ledger r') k (updated_at i, op_id i)
       | Ok None => False
       | Err e =>
           exists i d d', stored me (replica w) (docs_key (AccountSyncItem.key i)) = Some i /\ merge_key (AccountSyncItem.key i) = true
             /\ merge env i d = (Err e, d')
       end.
Proof using laws hex_laws pubkey_laws aead_laws item_laws sealed_laws change_laws.
  intros Hrun Hn Hold. destruct (run_invariant me device merge laws own n half w r Hrun Hn) as [log [Hlog Hmer Hwin Hsh Hau Hfe]].
  destruct (covered_left me device half (replica w) log _ r Hfe) as [z Hz].
  destruct (fetch_loop_ends env me device own (merge env) (laws env) half (replica w) log Hsh (or_intror Hau) Hwin Hmer
    ltac:(lia) z r Hfe Hold Hz) as [fuel E]. unfold wp in E. exists fuel.
  destruct (fetch_loop env me (merge env) (fun _ => replica w) fuel device own r) as [res r']. exists res, r'. split; [done|].
  cbn [fst snd ok_or_merge] in E. destruct res as [o|e]; cbn in E; [|exact E]. destruct E as [-> Hc].
  intros k i Hst Hw Hl Hh. destruct (stored_key _ _ _ _ Hst) as (Hk & _ & Hdom).
  destruct (item_position (AccountSyncItem.key i)) as (j & t & Hat); [by destruct (AccountSyncItem.key i) | done |].
  rewrite Hk in Hat. by apply (Hc k j t).
Qed.
End completion.
