(* ===== verification/ChannelMergeProps.v ===== *)
(** * What merging items of private channels keeps

    Merging never takes a version back from the ledger, and the items that are adopted by
    their version are: the merge of the service is one a fetch can rely on. *)
From S2P Require Import Prelude RustStr Envelope Replicas TimeIndex AccountSyncItem ChannelSeal AccountSyncStore AccountSyncStoreProps AccountSyncCycle ChannelKeyStore Calls AccountSync AccountSyncMerge ChannelRows ChannelRotation ChannelMerge AccountSyncFetch AccountSyncReplica AccountSyncFetchInv.

Section progress.
Context {hex_crate : HexCrate} {crypto : Crypto} {json_value : JsonValue} {aead : Aead} {blake3 : Blake3Crate}.
Context `{!Json (@AccountSyncItem json_value)} `{!Json SealedAccountSyncItem} `{!Serde AccountSyncChangeV1}.
Context `{!Serde PrivateChannelEpochCapability} `{!Serde ChannelMembershipV1} `{!Serde PrivateChannelController} `{!Json PrivateChannelController}.
Context `{!Serde ChannelRotationRequestV1} `{!Serde ChannelControllerRequestV1} `{!Serde ChannelParticipantV1} `{!Json ChannelParticipantV1} `{!Serde EdgeStatus}.
Context {W : Type} `{!ChannelService W} `{!EpochService W} `{!ParticipantService W} (env : Env) (me : Identity).
#[local] Abbreviation Call := (Prog (Device W)).
#[local] Abbreviation kept := (keeps (St := Device W) progress).

Lemma progress_put (f : Device W -> Device W) : (forall d, ledger (f d) = ledger d) -> kept (put f).
Proof. intros Hf. apply keeps_put. intros d. by apply progress_same. Qed.

Lemma progress_outside_call {A} (m : Prog W A) : kept (outside_call m).
Proof. intros d. unfold outside_call. destruct (m (outside d)). by apply progress_same. Qed.

Lemma progress_outside_get {A} (f : W -> result string A) : kept (outside_get f).
Proof. by intros d. Qed.

Lemma progress_write_rows f : kept (write_rows f).
Proof. by apply progress_put. Qed.

Lemma progress_set_memory f : kept (set_memory f).
Proof. by apply progress_put. Qed.

Lemma progress_restart t c : kept (restart_scope t c).
Proof. by apply progress_put. Qed.

Lemma progress_in_rows {A} (f : MemoryPrivateChannelKeys -> A) : kept (in_rows f).
Proof. by intros d. Qed.

Lemma progress_delete_page c : kept (delete_keys_page c).
Proof. intros d. unfold delete_keys_page. case_match. by apply progress_same. Qed.

#[local] Hint Resolve progress_put progress_outside_call progress_outside_get progress_write_rows progress_set_memory
  progress_restart progress_in_rows progress_delete_page progress_ask progress_device progress_refresh progress_write
  progress_adopt progress_publish : calls.

Lemma progress_now : kept (now env).
Proof. unfold now. keeps_go. Qed.
Lemma progress_random n : kept (random env n).
Proof. unfold random. keeps_go. Qed.
#[local] Hint Resolve progress_now progress_random : calls.

Lemma progress_edited k t v : kept (edited env k t v).
Proof. unfold edited. keeps_go. Qed.
#[local] Hint Resolve progress_edited : calls.

Lemma progress_bump : kept bump_generation.
Proof. unfold bump_generation, memory. keeps_go. Qed.
#[local] Hint Resolve progress_bump : calls.

Lemma progress_epoch_row c e s t : kept (private_channel_epoch_row env me c e s t).
Proof. unfold private_channel_epoch_row. keeps_go. Qed.
#[local] Hint Resolve progress_epoch_row : calls.

Lemma progress_epoch_rows_of c t l : kept (epoch_rows_of env me c t l).
Proof. induction l as [|[e s] l IH]; simpl; keeps_go. Qed.
#[local] Hint Resolve progress_epoch_rows_of : calls.

Lemma progress_persist s t l j : kept (persist_private_channel env me s t l j).
Proof. unfold persist_private_channel, persist_items, membership_version, adopt_for_writing, is_local_device. keeps_go. Qed.
#[local] Hint Resolve progress_persist : calls.

Lemma progress_commit s c : kept (commit_joined_private_channel_state env me s c).
Proof. unfold commit_joined_private_channel_state, commit_rows, memory. keeps_go. Qed.
#[local] Hint Resolve progress_commit : calls.

Lemma progress_tombstone s o : kept (tombstone_private_channel env me s o).
Proof. unfold tombstone_private_channel, leave_item. keeps_go. Qed.
#[local] Hint Resolve progress_tombstone : calls.

Lemma progress_delete_loop n c : kept (delete_keys_loop n c).
Proof. induction n as [|n IH]; simpl; keeps_go. Qed.

Lemma progress_delete_keys c : kept (delete_private_channel_keys c).
Proof. intros d. apply progress_delete_loop. Qed.
#[local] Hint Resolve progress_delete_keys : calls.

Lemma progress_forget t c : kept (forget_private_channel_keys t c).
Proof. unfold forget_private_channel_keys. keeps_go. Qed.
#[local] Hint Resolve progress_forget : calls.

(** ** Rotations *)
Lemma progress_prepare t c : kept (prepare_private_channel_rotation env me t c).
Proof. unfold prepare_private_channel_rotation, reserve_epoch, new_reserved_epoch. keeps_go. Qed.

Lemma progress_advance r : kept (advance_private_channel_rotation env me r).
Proof. unfold advance_private_channel_rotation, commit_private_channel_rotation, rotation_channel_state, set_rotation. keeps_go. Qed.
#[local] Hint Resolve progress_prepare progress_advance : calls.

Lemma progress_rotate t c : kept (rotate_private_channel env me t c).
Proof. unfold rotate_private_channel, rotation_channel_state. keeps_go. Qed.
#[local] Hint Resolve progress_rotate : calls.

(** ** Merges *)
Lemma progress_start t c m : kept (start_synced_channel me t c m).
Proof. unfold start_synced_channel, restore_joined_private_channel. keeps_go. Qed.
#[local] Hint Resolve progress_start : calls.

Lemma progress_epoch c e i : kept (merge_channel_epoch env me c e i).
Proof. unfold merge_channel_epoch, store_epoch, left_since, row_by_id, has_epoch. keeps_go. Qed.
#[local] Hint Resolve progress_epoch : calls.

Lemma progress_refill c : kept (refill_channel_keys env me c).
Proof. unfold refill_channel_keys, refill_entry, read_own. keeps_go. Qed.
#[local] Hint Resolve progress_refill : calls.

Lemma progress_membership c i : kept (merge_channel_membership env me c i).
Proof.
  unfold merge_channel_membership, merge_leave, merge_joined, merge_join, own_controller, read_own, holds, row_by_id, has_epoch,
    record_private_channel_leave. keeps_go.
Qed.

Lemma progress_controller_item c r : kept (controller_item env c r).
Proof. unfold controller_item. keeps_go. Qed.
#[local] Hint Resolve progress_controller_item : calls.

Lemma progress_put_controller r c o : kept (put_private_channel_controller r c o).
Proof. unfold put_private_channel_controller. keeps_go. Qed.
#[local] Hint Resolve progress_put_controller : calls.

Lemma progress_controller c i : kept (merge_channel_controller env me c i).
Proof. unfold merge_channel_controller, merge_controller_row, optional_item, row_by_id, read_own. keeps_go. Qed.

Lemma progress_controller_request c i : kept (merge_channel_controller_request env me c i).
Proof. unfold merge_channel_controller_request, row_by_id. keeps_go. Qed.

Lemma progress_rotation_request c i : kept (merge_channel_rotation_request env me c i).
Proof. unfold merge_channel_rotation_request, holds, row_by_id. keeps_go. Qed.

Lemma progress_take_in s p r b : kept (take_in_private_channel_participant env me s p r b).
Proof.
  unfold take_in_private_channel_participant, share_edges, controls_private_channel, grant_current_epoch_to_late_participant. keeps_go.
Qed.
#[local] Hint Resolve progress_take_in : calls.

Lemma progress_participant c p i : kept (merge_channel_participant env me c p i).
Proof. unfold merge_channel_participant, holds, row_by_id. keeps_go. Qed.
#[local] Hint Resolve progress_membership progress_controller progress_controller_request progress_rotation_request progress_participant : calls.

Lemma progress_channel_item i : kept (merge_channel_item env me i).
Proof. unfold merge_channel_item. keeps_go. Qed.

(** ** Adopted versions *)
Lemma adopt_first {A B} (r : result string A) row (k : A -> bool -> Call B) d x d' :
  (forall a b, kept (k a b)) -> (a ← lift r; b ← adopt row; k a b) d = (Ok x, d') ->
  holds_version (ledger d') (row_key row) (version row).
Proof.
  intros Hk. unfold mbind, prog_bind, lift at 1. destruct r as [a|e]; [|done].
  pose proof (adopt_version row d) as Ha. destruct (adopt row d) as [[b|e] d1]; [|done]. intros Hr.
  pose proof (Hk a b d1) as Hp. rewrite Hr in Hp. apply Hp. by apply (Ha b).
Qed.

Lemma adopt_checked {A} (r : result string A) row (d : Device W) x d' :
  (_ ← lift r; adopt row) d = (Ok x, d') -> holds_version (ledger d') (row_key row) (version row).
Proof. unfold mbind, prog_bind, lift at 1. destruct r as [a|e]; [apply adopt_version | done]. Qed.

Lemma channel_item_adopts i d b d' :
  lww_key (AccountSyncItem.key i) = true -> merge_channel_item env me i d = (Ok b, d') ->
  match AccountSyncItem.key i with ChannelMembership _ | ChannelRotationRequest _ | ChannelControllerRequest _ => True | _ => False end ->
  holds_version (ledger d') (docs_key (AccountSyncItem.key i)) (updated_at i, op_id i).
Proof.
  intros _ Hm Hk. change (updated_at i, op_id i) with (version (row_of i)). change (docs_key (AccountSyncItem.key i)) with (row_key (row_of i)).
  unfold merge_channel_item in Hm. destruct (AccountSyncItem.key i); try done.
  - eapply adopt_first, Hm. intros ms adopted. unfold merge_leave, merge_joined, merge_join, own_controller, read_own, holds, row_by_id,
      has_epoch, record_private_channel_leave. keeps_go.
  - eapply adopt_first, Hm. intros q adopted. unfold holds, row_by_id. keeps_go.
  - eapply adopt_first, Hm. intros q adopted. unfold row_by_id. keeps_go.
Qed.

(** ** The merge of the service *)
Context `{!Serde KukuriEnvelope} `{!Json (EdgeContent FollowTag)} `{!Json (EdgeContent BlockTag)}.
Context {Asset : Type} `{!Json (ProfileContent Asset)} `{!Social W} (true_value : Value) (account : string).

Definition account_merge : AccountSyncItem -> Call bool :=
  merge_account_sync_item (Asset := Asset) true_value account (merge_channel_item env me).

Lemma progress_profile i : kept (merge_profile (Asset := Asset) account i).
Proof. unfold merge_profile. keeps_go. Qed.

Lemma progress_edge i : kept (merge_edge account i).
Proof. unfold merge_edge. keeps_go. Qed.
#[local] Hint Resolve progress_profile progress_edge progress_channel_item : calls.

Lemma account_merge_laws : MergeLaws account_merge.
Proof.
  split.
  - intros i. unfold account_merge, merge_account_sync_item. keeps_go.
  - intros i d b d' Hw Hm. pose proof (channel_item_adopts i d b d' Hw) as Hc. unfold account_merge, merge_account_sync_item in Hm.
    destruct (AccountSyncItem.key i) eqn:Hk; try done; try by apply Hc.
    all: rewrite <- Hk; change (updated_at i, op_id i) with (version (row_of i)); change (docs_key (AccountSyncItem.key i)) with (row_key (row_of i)).
    all: by eapply adopt_checked.
Qed.
End progress.
