(* ===== verification/ChannelHandoff.v ===== *)
(** * The handoff of a channel's controller

    What the devices of an owner agree on, in terms of the records of their rows alone.  A
    device takes records that some device's row showed, answers requests with a stop of its
    own record, and activates the record that was stopped for it.  The records ever shown
    form one chain, of which every device's own records are in its own row first, so only
    the newest record can be active.  [ChannelHandoffRun] shows that the operations of the
    service take these steps. *)
From S2P Require Import Prelude RustStr Envelope Replicas TimeIndex AccountSyncItem AccountSync ChannelRows ChannelRotation ChannelMerge.

(** ** Chains of records *)
Definition record_next (r r' : PrivateChannelController) : Prop :=
  match ctl_transfer_to r with
  | None => ctl_device r' = ctl_device r /\ ctl_generation r' = ctl_generation r /\ is_Some (ctl_transfer_to r')
  | Some t => r' = {| ctl_device := t; ctl_generation := ctl_generation r + 1; ctl_transfer_to := None |}
  end.

(** The newest record first. *)
Inductive chain : list PrivateChannelController -> Prop :=
| chain_first a : chain [{| ctl_device := a; ctl_generation := 1; ctl_transfer_to := None |}]
| chain_next r r' l : chain (r :: l) -> record_next r r' -> chain (r' :: r :: l).

Definition rank (r : PrivateChannelController) : Z := 2 * ctl_generation r + (match ctl_transfer_to r with Some _ => 1 | None => 0 end).

Lemma rank_next r r' : record_next r r' -> rank r' = rank r + 1.
Proof.
  unfold record_next, rank. destruct (ctl_transfer_to r) as [t|]; [intros ->; simpl; lia|].
  intros (_ & -> & [t ->]). lia.
Qed.

Lemma chain_rank l r r' : chain (r :: l) -> r' ∈ r :: l -> rank r' <= rank r.
Proof.
  intros Hc. remember (r :: l) as log eqn:E. revert r l E r'.
  induction Hc as [a|r0 r1 l0 Hc IH Hn]; intros r l [= <- <-] r' Hr'.
  - apply list_elem_of_singleton in Hr'. by subst.
  - apply elem_of_cons in Hr' as [->|Hr']; [lia|]. specialize (IH _ _ eq_refl _ Hr'). apply rank_next in Hn. lia.
Qed.

Lemma chain_positive l r : chain l -> r ∈ l -> 1 <= ctl_generation r.
Proof.
  intros Hc. revert r. induction Hc as [a|r0 r1 l0 Hc IH Hn]; intros r Hr.
  - apply list_elem_of_singleton in Hr. by subst.
  - apply elem_of_cons in Hr as [->|Hr]; [|by apply IH]. specialize (IH r0 (list_elem_of_here _ _)).
    unfold record_next in Hn. case_match; [subst; simpl; lia | destruct Hn as (_ & -> & _); done].
Qed.

(** Every record but the newest has its successor in the chain. *)
Lemma chain_succ h l r : chain (h :: l) -> r ∈ h :: l -> r = h \/ exists r', r' ∈ h :: l /\ record_next r r'.
Proof.
  intros Hc. remember (h :: l) as log eqn:E. revert h l E r.
  induction Hc as [a|r0 r1 l0 Hc IH Hn]; intros h l [= <- <-] r Hr.
  - left. by apply list_elem_of_singleton in Hr.
  - apply elem_of_cons in Hr as [->|Hr]; [by left|]. right. destruct (IH _ _ eq_refl _ Hr) as [->|(r' & Hr' & Hnext)].
    + exists r1. split; [apply elem_of_cons; by left | done].
    + exists r'. split; [apply elem_of_cons; by right | done].
Qed.

Lemma chain_rank_inj h l r r' : chain (h :: l) -> r ∈ h :: l -> r' ∈ h :: l -> rank r = rank r' -> r = r'.
Proof.
  intros Hc. remember (h :: l) as log eqn:E. revert h l E r r'.
  induction Hc as [a|r0 r1 l0 Hc IH Hn]; intros h l [= <- <-] r r' Hr Hr' He.
  - apply list_elem_of_singleton in Hr, Hr'. by subst.
  - apply rank_next in Hn. apply elem_of_cons in Hr as [->|Hr], Hr' as [->|Hr']; [done | | |by eapply IH].
    + pose proof (chain_rank _ _ _ Hc Hr'). lia.
    + pose proof (chain_rank _ _ _ Hc Hr). lia.
Qed.

Lemma chain_generation h l r r' :
  chain (h :: l) -> r ∈ h :: l -> r' ∈ h :: l -> ctl_generation r = ctl_generation r' -> ctl_device r = ctl_device r'.
Proof.
  intros Hc Hr Hr' Hg.
  assert (Hone : forall a b, a ∈ h :: l -> b ∈ h :: l -> ctl_generation a = ctl_generation b -> ctl_transfer_to a = None ->
            is_Some (ctl_transfer_to b) -> ctl_device a = ctl_device b).
  { intros a b Ha Hb Hab Hta [t Htb]. destruct (chain_succ h l a Hc Ha) as [->|(a' & Ha' & Hn)].
    - pose proof (chain_rank _ _ _ Hc Hb) as Hle. unfold rank in Hle. rewrite Hta, Htb in Hle. lia.
    - assert (a' = b) as <-.
      { apply (chain_rank_inj h l); [done..|]. rewrite (rank_next _ _ Hn). unfold rank. rewrite Hta, Htb. lia. }
      unfold record_next in Hn. rewrite Hta in Hn. by destruct Hn. }
  destruct (ctl_transfer_to r) as [t|] eqn:Ht, (ctl_transfer_to r') as [t'|] eqn:Ht'.
  - f_equal. apply (chain_rank_inj h l); [done..|]. unfold rank. rewrite Ht, Ht'. lia.
  - symmetry. by apply Hone.
  - by apply Hone.
  - f_equal. apply (chain_rank_inj h l); [done..|]. unfold rank. rewrite Ht, Ht'. lia.
Qed.

(** On a chain, the record that supersedes is the newer one. *)
Lemma supersedes_rank h l r r' :
  chain (h :: l) -> r ∈ h :: l -> r' ∈ h :: l -> controller_supersedes (Some r) r' = true -> rank r < rank r'.
Proof.
  intros Hc Hr Hr' Hs. cbn in Hs. apply orb_prop in Hs as [Hs|Hs].
  - apply Z.ltb_lt in Hs. unfold rank. destruct (ctl_transfer_to r), (ctl_transfer_to r'); lia.
  - apply andb_prop in Hs as [Hg Hs]. apply Z.eqb_eq in Hg. rewrite decide_True in Hs by by apply (chain_generation h l).
    apply andb_prop in Hs as [Ht Ht']. apply bool_decide_eq_true in Ht, Ht'. destruct Ht' as [t' Ht']. unfold rank. rewrite Ht, Ht'. lia.
Qed.

(** ** Rows and their steps *)

(** Whether the row is joined and its record; none when the device has no row. *)
Definition cell : Type := option (bool * option PrivateChannelController).
Definition cell_record (c : cell) : option PrivateChannelController := c ≫= snd.

(** The steps of the row of [x]; [shown] are the records that rows showed. *)
Inductive cell_step (x : string) (shown : list PrivateChannelController) : cell -> cell -> Prop :=
| step_same c : cell_step x shown c c
| step_joined j j' o : cell_step x shown (Some (j, o)) (Some (j', o))
| step_row c j o : cell_record c = None -> (forall r, o = Some r -> r ∈ shown) -> cell_step x shown c (Some (j, o))
| step_take j j' local r :
    r ∈ shown -> controller_supersedes local r = true -> cell_step x shown (Some (j, local)) (Some (j', Some r))
| step_activate j j' local r a :
    r ∈ shown -> controller_supersedes local r = true -> activation_of x j r = Some a ->
    cell_step x shown (Some (j, local)) (Some (j', Some a))
| step_stop j j' local q s :
    stop_of x local q = Some s -> cell_step x shown (Some (j, local)) (Some (j', Some s)).

(** The same record, joined or not. *)
Definition same_record (a b : cell) : Prop :=
  match a, b with None, None => True | Some (_, o), Some (_, o') => o' = o | _, _ => False end.

#[export] Instance same_record_preorder : PreOrder same_record.
Proof. split; [by intros [[??]|] | by intros [[??]|] [[??]|] [[??]|]; simpl; intros; subst]. Qed.

Lemma cell_step_record x shown a b b' : cell_step x shown a b -> same_record b b' -> cell_step x shown a b'.
Proof. by destruct 1; destruct b' as [[??]|]; try destruct c as [[??]|]; simpl; intros; subst; try done; econstructor. Qed.

(** The rows after [n] steps, and the chain of the records they showed. *)
Record handoff_inv (n : nat) (cells : string -> cell) (shown log : list PrivateChannelController) : Prop := {
  hi_chain : chain log;
  hi_head r : head log = Some r -> ctl_generation r <= 1 + Z.of_nat n;
  hi_shown r : r ∈ shown -> r ∈ log;
  hi_cells x r : cell_record (cells x) = Some r -> r ∈ log;
  hi_own r : r ∈ log -> exists r', cell_record (cells (ctl_device r)) = Some r' /\ rank r <= rank r'
}.

Definition upd {A} (f : string -> A) (x : string) (a : A) : string -> A := fun y => if decide (y = x) then a else f y.

Section inv.
Context (n : nat) (cells : string -> cell) (shown : list PrivateChannelController) (h : PrivateChannelController) (log : list PrivateChannelController).
Context (Hi : handoff_inv n cells shown (h :: log)).

(** An own record that is not stopped is the newest. *)
Lemma own_active_newest x r :
  cell_record (cells x) = Some r -> ctl_device r = x -> ctl_transfer_to r = None -> r = h.
Proof.
  intros Hc Hd Ht. pose proof (hi_cells _ _ _ _ Hi x r Hc) as Hr.
  destruct (chain_succ _ _ _ (hi_chain _ _ _ _ Hi) Hr) as [|(r' & Hr' & Hn)]; [done|].
  pose proof (rank_next _ _ Hn) as Hrk. unfold record_next in Hn. rewrite Ht in Hn. destruct Hn as (Hd' & _ & _).
  destruct (hi_own _ _ _ _ Hi r' Hr') as (r2 & Hc2 & Hle). rewrite Hd', Hd, Hc in Hc2. injection Hc2 as ->. lia.
Qed.

Lemma one_active x y r r' :
  cell_record (cells x) = Some r -> cell_record (cells y) = Some r' -> controls x (Some r) = true -> controls y (Some r') = true -> x = y.
Proof.
  intros Hx Hy Hcx Hcy. unfold controls in *. apply andb_prop in Hcx as [Hdx Htx], Hcy as [Hdy Hty].
  apply bool_decide_eq_true in Hdx, Htx, Hdy, Hty. pose proof (own_active_newest _ _ Hx Hdx Htx). pose proof (own_active_newest _ _ Hy Hdy Hty).
  congruence.
Qed.

(** The row of [x] now has a record of the chain that is no older. *)
Lemma step_within x c' :
  (forall r, cell_record c' = Some r -> r ∈ h :: log) ->
  (forall r, cell_record (cells x) = Some r -> exists r', cell_record c' = Some r' /\ rank r <= rank r') ->
  handoff_inv (S n) (upd cells x c') (option_list (cell_record c') ++ shown)%list (h :: log).
Proof.
  intros Hin Hle. destruct Hi as [Hc Hh Hs Hcl Ho]. split; [done | | | |].
  - intros r Hr. specialize (Hh r Hr). lia.
  - intros r [Hr|Hr]%elem_of_app; [|by apply Hs]. destruct (cell_record c') as [r0|]; [|by apply not_elem_of_nil in Hr].
    apply list_elem_of_singleton in Hr as ->. by apply Hin.
  - intros y r. unfold upd. case_decide; [apply Hin | apply Hcl].
  - intros r Hr. destruct (Ho r Hr) as (r' & Hr' & Hrk). unfold upd. case_decide as Hd; [|by exists r'].
    rewrite Hd in Hr'. destruct (Hle _ Hr') as (r2 & Hr2 & Hle2). exists r2. split; [done | lia].
Qed.

(** The row of [x] has the next record of the chain, which is one of its own. *)
Lemma step_next x j a :
  record_next h a -> ctl_device a = x -> ctl_generation a <= 2 + Z.of_nat n ->
  handoff_inv (S n) (upd cells x (Some (j, Some a))) (a :: shown) (a :: h :: log).
Proof.
  intros Hn Hd Hg. destruct Hi as [Hc Hh Hs Hcl Ho]. pose proof (rank_next _ _ Hn) as Hrk. split.
  - by constructor.
  - intros r [= <-]. lia.
  - intros r [->|Hr]%elem_of_cons; apply elem_of_cons; auto.
  - intros y r. unfold upd. case_decide; [intros [= <-]; apply elem_of_cons; by left | intros Hr; apply elem_of_cons; right; by apply (Hcl y)].
  - intros r Hr. unfold upd. case_decide as Hx.
    + exists a. split; [done|]. apply elem_of_cons in Hr as [->|Hr]; [lia|]. pose proof (chain_rank _ _ _ Hc Hr). lia.
    + apply elem_of_cons in Hr as [->|Hr]; [done | by apply Ho].
Qed.
End inv.

(** Every step keeps the invariant, while generations are far from their limit. *)
Lemma cell_step_inv n cells shown log x c' :
  handoff_inv n cells shown log -> Z.of_nat n < 2 ^ 63 -> cell_step x shown (cells x) c' ->
  exists log', handoff_inv (S n) (upd cells x c') (option_list (cell_record c') ++ shown)%list log'.
Proof.
  intros Hi Hn Hs. pose proof (hi_chain _ _ _ _ Hi) as Hch. destruct log as [|h log]; [by inversion Hch|].
  assert (Hsame : forall c, cell_record c = cell_record (cells x) ->
    exists log', handoff_inv (S n) (upd cells x c) (option_list (cell_record c) ++ shown)%list log').
  { intros c Hc. exists (h :: log). apply step_within; [done | rewrite Hc; apply (hi_cells _ _ _ _ Hi) |].
    intros r Hr. exists r. by rewrite Hc. }
  inversion Hs as [c Hc | j j' o Hc | c j o Hrec Ho Hc | j j' local r Hr Hsup Hc | j j' local r a Hr Hsup Ha Hc | j j' local q s Hst Hc]; subst.
  - by apply Hsame.
  - apply Hsame. by rewrite <- Hc.
  - exists (h :: log). apply step_within; [done | |congruence].
    intros r [= ->]. by apply (hi_shown _ _ _ _ Hi), Ho.
  - exists (h :: log). apply (hi_shown _ _ _ _ Hi) in Hr. apply step_within; [done | by intros r0 [= <-] |].
    intros r0 Hr0. exists r. split; [done|]. pose proof (hi_cells _ _ _ _ Hi x r0 Hr0) as Hin.
    rewrite <- Hc in Hr0. cbn in Hr0. subst local. pose proof (supersedes_rank _ _ _ _ Hch Hin Hr Hsup). lia.
  - apply (hi_shown _ _ _ _ Hi) in Hr. unfold activation_of in Ha. case_match eqn:E; [|done]. injection Ha as <-.
    apply andb_prop in E as [_ Ht%bool_decide_eq_true].
    assert (Hhead : r = h).
    { destruct (chain_succ _ _ _ Hch Hr) as [|(a & Ha & Hnx)]; [done|]. exfalso. pose proof (rank_next _ _ Hnx) as Hrk.
      unfold record_next in Hnx. rewrite Ht in Hnx. destruct (hi_own _ _ _ _ Hi a Ha) as (r' & Hr' & Hle).
      replace (ctl_device a) with x in Hr' by by rewrite Hnx. pose proof (hi_cells _ _ _ _ Hi x r' Hr') as Hin.
      rewrite <- Hc in Hr'. cbn in Hr'. subst local. pose proof (supersedes_rank _ _ _ _ Hch Hin Hr Hsup). lia. }
    subst r. pose proof (hi_head _ _ _ _ Hi h eq_refl) as Hg.
    assert (Hadd : add_u64 (ctl_generation h) 1 = ctl_generation h + 1).
    { pose proof (chain_positive _ _ Hch Hr). unfold add_u64. apply Z.mod_small. lia. }
    rewrite Hadd. eexists. apply (step_next n cells shown h log Hi x j'); [unfold record_next; by rewrite Ht | done | simpl; lia].
  - unfold stop_of in Hst. destruct local as [l|]; [|done]. case_match eqn:E; [|done]. injection Hst as <-.
    apply andb_prop in E as [[Hd Hg]%andb_prop Ht]. apply bool_decide_eq_true in Hd. apply Z.eqb_eq in Hg. cbn in Hg.
    apply orb_prop in Ht as [Ht|Ht]; apply bool_decide_eq_true in Ht.
    + assert (l = h) as ->. { apply (own_active_newest n cells shown h log Hi x); [by rewrite <- Hc | done | done]. }
      pose proof (hi_head _ _ _ _ Hi h eq_refl) as Hgh.
      eexists. apply (step_next n cells shown h log Hi x j'); [unfold record_next; rewrite Ht; by eauto | done | simpl; lia].
    + apply Hsame. rewrite <- Hc. cbn. destruct l; cbn in *; by subst.
Qed.
