(* ===== verification/ChannelHandoffRun.v ===== *)
(** * The service takes the steps of the handoff

    Merging an item about a channel and rotating its keys change the channel's row as
    [ChannelHandoff] says, and the own replica shows only records that a row showed. *)
From S2P Require Import Prelude RustStr Envelope Replicas TimeIndex AccountSyncItem AccountSyncItemProps ChannelSeal AccountSyncStore AccountSyncStoreProps AccountSyncCycle ChannelKeyStore Calls AccountSync AccountSyncMerge ChannelRows ChannelRotation ChannelMerge AccountSyncFetch AccountSyncReplica ChannelHandoff.

(** ** More of [keeps] *)
Lemma keeps_lift_seq {St A B} (R : St -> St -> Prop) `{!PreOrder R} (r : result string A) (k : A -> Prog St B) :
  (forall a, r = Ok a -> keeps R (k a)) -> keeps R (lift r ≫= k).
Proof. intros Hk s. unfold mbind, prog_bind, lift. destruct r as [a|e]; [by apply Hk | simpl; reflexivity]. Qed.

Lemma prog_bind_inv {St A B} (m : Prog St A) (f : A -> Prog St B) s b s2 :
  (m ≫= f) s = (Ok b, s2) -> exists a s1, m s = (Ok a, s1) /\ f a s1 = (Ok b, s2).
Proof. unfold mbind, prog_bind. destruct (m s) as [[a|e] s1]; [|done]. intros Hf. by exists a, s1. Qed.

Section keys.
Context {hex_crate : HexCrate} {hex_laws : HexCrateLaws} {crypto : Crypto}.

Lemma channel_text_inj c c' s s' :
  "channel/" ++s hex_encode c ++s String "/" s = "channel/" ++s hex_encode c' ++s String "/" s' -> c = c' /\ s = s'.
Proof.
  intros He. change ("channel/" ++s ?x) with ("channel/" ++s x) in He.
  assert (Hx : split_once "/" (hex_encode c ++s "/" ++s s) = split_once "/" (hex_encode c' ++s "/" ++s s')) by (f_equal; by injection He).
  rewrite !split_once_lacks in Hx by apply lower_hex_no_slash, hex_encode_lower. injection Hx as Hh ->. split; [|done].
  pose proof (hex_decode_encode c) as Hd. rewrite Hh, hex_decode_encode in Hd. by injection Hd.
Qed.

(** No other key has the text of a controller's key. *)
Lemma controller_key_text k c : docs_key k = docs_key (ChannelController c) -> k = ChannelController c.
Proof.
  destruct k; cbn [docs_key]; intros He; try discriminate He; apply channel_text_inj in He as [-> He]; done || discriminate He.
Qed.
End keys.

Section run.
Context {hex_crate : HexCrate} {hex_laws : HexCrateLaws} {crypto : Crypto} {json_value : JsonValue} {aead : Aead} {aead_laws : AeadLaws} {blake3 : Blake3Crate}.
Context {item_json : Json (@AccountSyncItem json_value)} {item_laws : JsonLaws (@AccountSyncItem json_value)}.
Context {sealed_json : Json SealedAccountSyncItem} {sealed_laws : JsonLaws SealedAccountSyncItem} `{!Serde AccountSyncChangeV1}.
Context `{!Serde PrivateChannelEpochCapability} `{!Serde ChannelMembershipV1}.
Context {ctl_serde : Serde PrivateChannelController} {ctl_serde_laws : SerdeLaws PrivateChannelController}.
Context {ctl_json : Json PrivateChannelController} {ctl_laws : JsonLaws PrivateChannelController}.
Context `{!Serde ChannelRotationRequestV1} `{!Serde ChannelControllerRequestV1} `{!Serde ChannelParticipantV1} `{!Json ChannelParticipantV1} `{!Serde EdgeStatus}.
Context {W : Type} `{!ChannelService W} `{!EpochService W} `{!ParticipantService W}.
Context (env : Env) (random_length : forall n len, String.length (random_bytes env n len) = len) (me : Identity).
(** The topic and the channel. *)
Context (t c : string).
#[local] Abbreviation Call := (Prog (Device W)).
#[local] Abbreviation K := (joined_private_channel_key t c).

(** ** The row of the channel *)
Record rows_one (m : MemoryPrivateChannelKeys) : Prop := {
  ro_key k r : channels m !! k = Some r -> pc_channel_key r = k /\ k = joined_private_channel_key (pc_topic_id r) (pc_channel_id r);
  ro_only k r : channels m !! k = Some r -> pc_channel_id r = c -> k = K;
  ro_row r : channels m !! K = Some r -> pc_channel_id r = c /\ pc_topic_id r = t /\ is_ok (controller_of (pc_controller r)) = true
}.

Definition record_of (r : PrivateChannelRow) : option PrivateChannelController :=
  match controller_of (pc_controller r) with Ok o => o | Err _ => None end.
Definition cell_of (d : Device W) : cell := (fun r => (pc_joined r, record_of r)) <$> channels (channel_keys d) !! K.

Lemma find_row m k r id :
  channels m !! k = Some r -> pc_channel_id r = id -> is_Some (get_private_channel_by_id m id).
Proof.
  intros Hk Hid. unfold get_private_channel_by_id. destruct (List.find _ _) eqn:E; [done|]. exfalso.
  assert (Hin : In r (channel_rows m)).
  { apply list_elem_of_In, list_elem_of_omap. exists k. split; [|done]. apply elem_of_set_iter. by eapply elem_of_dom_2. }
  pose proof (List.find_none _ _ E r Hin) as Hn. cbn in Hn. by rewrite bool_decide_eq_false in Hn.
Qed.

Lemma found_row m id r :
  get_private_channel_by_id m id = Some r -> pc_channel_id r = id /\ exists k, channels m !! k = Some r.
Proof.
  intros [Hin Hid]%List.find_some. split; [by apply bool_decide_eq_true in Hid|].
  apply list_elem_of_In, list_elem_of_omap in Hin as (k & _ & Hk). by exists k.
Qed.

Lemma by_id_row m : rows_one m -> get_private_channel_by_id m c = channels m !! K.
Proof.
  intros Ho. destruct (get_private_channel_by_id m c) as [r|] eqn:E.
  - apply found_row in E as [Hid (k & Hk)]. by rewrite (ro_only _ Ho k r Hk Hid) in Hk.
  - destruct (channels m !! K) as [r|] eqn:Hr; [|done]. destruct (ro_row _ Ho r Hr) as [Hid _].
    destruct (find_row m K r c Hr Hid) as [x Hx]. congruence.
Qed.

Lemma put_channels r es m : channels (put_private_channel r es m) = <[pc_channel_key r := r]> (channels m).
Proof.
  unfold put_private_channel.
  assert (Hf : forall l m0, channels (foldl add_epoch m0 l) = channels m0).
  { induction l as [|e l IH]; intros m0; [done|]. simpl. rewrite IH. unfold add_epoch. by case_match. }
  by rewrite Hf.
Qed.

(** Writing a row over one of the same channel with the same record. *)
Record rewrites (r r' : PrivateChannelRow) : Prop := {
  rw_key : pc_channel_key r' = pc_channel_key r \/ pc_channel_key r' = joined_private_channel_key (pc_topic_id r) (pc_channel_id r);
  rw_topic : pc_topic_id r' = pc_topic_id r;
  rw_id : pc_channel_id r' = pc_channel_id r
}.

Lemma put_rows_one m r r' es :
  rows_one m -> (exists k, channels m !! k = Some r) -> rewrites r r' ->
  (pc_channel_id r = c -> is_ok (controller_of (pc_controller r')) = true) ->
  rows_one (put_private_channel r' es m)
  /\ channels (put_private_channel r' es m) !! K = if decide (pc_channel_id r = c) then Some r' else channels m !! K.
Proof.
  intros Ho [k Hk] [Hkey Htop Hid] Hok. destruct (ro_key _ Ho k r Hk) as [Hk1 Hk2].
  assert (HK : k = K <-> pc_channel_id r = c).
  { split; [intros ->; by destruct (ro_row _ Ho r Hk) | by apply (ro_only _ Ho)]. }
  assert (Hkk : pc_channel_key r' = k) by (destruct Hkey; congruence). clear Hkey. rename Hkk into Hkey.
  rewrite put_channels, Hkey. split.
  - split.
    + intros k0 r0. rewrite put_channels, Hkey. intros [[<- <-]|[Hne H0]]%lookup_insert_Some; [|by apply (ro_key _ Ho)].
      by rewrite Htop, Hid.
    + intros k0 r0. rewrite put_channels, Hkey. intros [[<- <-]|[Hne H0]]%lookup_insert_Some Hc; [|by eapply (ro_only _ Ho)].
      apply HK. congruence.
    + intros r0. rewrite put_channels, Hkey. intros [[HkK <-]|[Hne H0]]%lookup_insert_Some; [|by apply (ro_row _ Ho)].
      rewrite HkK in Hk. destruct (ro_row _ Ho r Hk) as (Hc & Ht & _). rewrite Hid, Htop. split_and!; auto.
  - destruct (decide (pc_channel_id r = c)) as [Hc|Hc].
    + rewrite (proj2 HK Hc). by rewrite lookup_insert_eq.
    + rewrite lookup_insert_ne; [done|]. intros He. by apply Hc, HK.
Qed.

Lemma rows_one_ext m m' : channels m' = channels m -> rows_one m -> rows_one m'.
Proof. intros He [H1 H2 H3]. split; rewrite He; done. Qed.

(** ** Calls that leave the record alone *)

(** The record of an item with the channel's controller key. *)
Definition good_item (shown : list PrivateChannelController) (i : AccountSyncItem) : Prop :=
  forall v r, AccountSyncItem.key i = ChannelController c -> AccountSyncItem.value i = Some v -> from_value v = Some r -> r ∈ shown.

(** The own replica shows only records of [shown]. *)
Definition replica_shows (shown : list PrivateChannelController) (d : Device W) : Prop :=
  forall i, stored me (replica d) (docs_key (ChannelController c)) = Some i -> good_item shown i.

Definition calm (shown : list PrivateChannelController) (d d' : Device W) : Prop :=
  rows_one (channel_keys d) ->
  rows_one (channel_keys d') /\ same_record (cell_of d) (cell_of d') /\ (replica_shows shown d -> replica_shows shown d').

#[local] Instance calm_preorder shown : PreOrder (calm shown).
Proof.
  split; [by intros d Ho|]. intros d1 d2 d3 H1 H2 Ho. destruct (H1 Ho) as (Ho2 & Hs2 & Hr2). destruct (H2 Ho2) as (Ho3 & Hs3 & Hr3).
  split_and!; [done | by etrans | auto].
Qed.

(** Rows and replica stay as they are. *)
Definition still (d d' : Device W) : Prop := channels (channel_keys d') = channels (channel_keys d) /\ replica d' = replica d.

#[local] Instance still_preorder : PreOrder still.
Proof. split; [done | intros d1 d2 d3 [H1 R1] [H2 R2]; split; congruence]. Qed.

Lemma still_outside_call {A} (m : Prog W A) : keeps still (outside_call m).
Proof. intros d. unfold outside_call. by destruct (m (outside d)). Qed.

Lemma still_in_rows {A} (f : MemoryPrivateChannelKeys -> A) : keeps still (in_rows f).
Proof. by intros d. Qed.

Lemma still_ask : keeps still ask_env.
Proof. by intros d. Qed.
#[local] Hint Resolve still_outside_call still_in_rows still_ask : calls.

Lemma still_now : keeps still (now env).
Proof. unfold now. keeps_go. Qed.
#[local] Hint Resolve still_now : calls.

Lemma still_version s x j : keeps still (membership_version env s x j).
Proof. unfold membership_version, edited, random. keeps_go. Qed.

Lemma still_epoch_rows a x l : keeps still (epoch_rows_of env me a x l).
Proof. induction l as [|[e s] l IH]; simpl; [keeps_go|]. unfold private_channel_epoch_row, random. keeps_go. Qed.
#[local] Hint Resolve still_version still_epoch_rows : calls.

Section calm.
Context (shown : list PrivateChannelController).
#[local] Abbreviation kept := (keeps (calm shown)).

Lemma calm_same d d' : channels (channel_keys d') = channels (channel_keys d) -> replica d' = replica d -> calm shown d d'.
Proof.
  intros Hc Hr Ho. split_and!; [by eapply rows_one_ext | by unfold cell_of; rewrite Hc | by unfold replica_shows; rewrite Hr].
Qed.

Lemma calm_put (f : Device W -> Device W) :
  (forall d, channels (channel_keys (f d)) = channels (channel_keys d) /\ replica (f d) = replica d) -> kept (put f).
Proof. intros Hf. apply keeps_put. intros d. destruct (Hf d). by apply calm_same. Qed.

Lemma calm_outside_call {A} (m : Prog W A) : kept (outside_call m).
Proof. intros d. unfold outside_call. destruct (m (outside d)). by apply calm_same. Qed.

Lemma calm_outside_get {A} (f : W -> result string A) : kept (outside_get f).
Proof. intros d. by apply calm_same. Qed.

Lemma calm_set_memory f : kept (set_memory f).
Proof. by apply calm_put. Qed.

Lemma calm_restart a b : kept (restart_scope a b).
Proof. by apply calm_put. Qed.

Lemma calm_in_rows {A} (f : MemoryPrivateChannelKeys -> A) : kept (in_rows f).
Proof. intros d. by apply calm_same. Qed.

Lemma calm_write_rows f : (forall m, channels (f m) = channels m) -> kept (write_rows f).
Proof. intros Hf. apply calm_put. intros d. split; [apply Hf | done]. Qed.

Lemma delete_channels id n m : channels (delete_private_channel_epochs id n m).2 = channels m.
Proof.
  unfold delete_private_channel_epochs. cbn. match goal with |- channels (foldl _ _ ?l) = _ => generalize l end.
  intros l. revert m. induction l as [|x l IH]; intros m; [done|]. simpl. by rewrite IH.
Qed.

Lemma calm_delete_page id : kept (delete_keys_page id).
Proof.
  intros d. unfold delete_keys_page. pose proof (delete_channels id PRIVATE_CHANNEL_PAGE (channel_keys d)) as Hd.
  destruct (delete_private_channel_epochs _ _ _). by apply calm_same.
Qed.

Lemma calm_ask : kept ask_env.
Proof. intros d. by apply calm_same. Qed.

Lemma calm_device : kept (local_device_id env me).
Proof. apply keeps_seq; [apply _ | apply calm_ask | intros; apply keeps_pure, _]. Qed.

Lemma calm_adopt r : kept (adopt r).
Proof. intros d. unfold adopt. destruct (adopt_account_sync_row r (ledger d)). by apply calm_same. Qed.

Lemma calm_refresh : kept (refresh_account_sync_status env me).
Proof. intros d. destruct (refresh_frame me env d) as (Hr & _ & Hk & _). apply calm_same; [by rewrite Hk | done]. Qed.

Lemma calm_entry i : good_item shown i -> kept (set_account_sync_entry env me i).
Proof.
  intros Hg d. unfold set_account_sync_entry, random, apply_set_json, ask_env, lift, put, mbind, prog_bind, mret, prog_ret.
  cbn. destruct (seal _ _ _ i) as [s|] eqn:Hs; [|by apply calm_same]. cbn. destruct (docs_write_ok _ _); [|by apply calm_same].
  cbn. intros Ho. split_and!; [done | done |]. intros Hr j. unfold stored. cbn [replica set_replica].
  unfold set_record. case_decide as Hd; [|apply Hr]. cbn [records].
  destruct (decide (docs_key (AccountSyncItem.key i) = docs_key (ChannelController c))) as [He|Hne].
  - rewrite <- He, lookup_insert_eq. cbn [mbind option_bind]. unfold open_record. rewrite from_to_json. cbn [mbind option_bind].
    rewrite (open_sealed _ _ _ _ _ (random_length _ _) Hs). by intros [= <-].
  - rewrite lookup_insert_ne by done. apply Hr.
Qed.

Lemma good_other i : AccountSyncItem.key i <> ChannelController c -> good_item shown i.
Proof. by intros Hk v r. Qed.

#[local] Hint Resolve calm_put calm_outside_call calm_outside_get calm_set_memory calm_restart calm_in_rows calm_delete_page
  calm_ask calm_device calm_adopt calm_refresh : calls.

Lemma calm_now : kept (now env).
Proof. unfold now. keeps_go. Qed.
Lemma calm_random n : kept (random env n).
Proof. unfold random. keeps_go. Qed.
#[local] Hint Resolve calm_now calm_random : calls.

(** The item of an edit has the key and the value it was made with. *)
Lemma calm_edited {B} k at_ v (f : AccountSyncItem -> Call B) :
  (forall r, kept (f (edit r k at_ v))) -> kept (edited env k at_ v ≫= f).
Proof.
  intros Hf d. change (calm shown d ((f (edit (random_bytes env (asked d) 16) k at_ v)) (ask_env d).2).2).
  etrans; [apply (calm_ask d) | apply Hf].
Qed.

Lemma calm_mark i : kept (mark_account_sync_item_written env me i).
Proof.
  unfold mark_account_sync_item_written. apply keeps_seq; [apply _ | | intros; apply calm_refresh].
  destruct (AccountSyncItem.key i); by apply calm_put.
Qed.

Lemma calm_announce dev i : kept (announce env me dev i).
Proof.
  unfold announce. do 3 (apply keeps_seq; [apply _ | keeps_go | intros ?]; cbv zeta).
  apply calm_edited. intros r. apply keeps_seq; [apply _ | by apply calm_entry, good_other | intros _].
  apply calm_edited. intros r'. by apply calm_entry, good_other.
Qed.

Lemma calm_write i : good_item shown i -> kept (write_account_sync_item env me i).
Proof.
  intros Hg. unfold write_account_sync_item, try_write_account_sync_item. apply keeps_seq; [apply _ | | intros; apply calm_refresh].
  apply keeps_logged. apply keeps_seq; [apply _ | apply calm_device | intros dev]. apply keeps_seq; [apply _ | by apply calm_entry | intros _].
  apply keeps_seq; [apply _ | apply calm_announce | intros _; apply calm_mark].
Qed.

Lemma calm_write_other i : AccountSyncItem.key i <> ChannelController c -> kept (write_account_sync_item env me i).
Proof. intros Hk. by apply calm_write, good_other. Qed.

Lemma calm_publish i : AccountSyncItem.key i <> ChannelController c -> kept (publish_account_sync_item env me i).
Proof. intros Hk. unfold publish_account_sync_item. apply keeps_seq; [apply _ | apply calm_adopt | intros [|]; [by apply calm_write_other | apply keeps_mret, _]]. Qed.

Lemma calm_bump : kept bump_generation.
Proof. unfold bump_generation, memory. keeps_go. Qed.

Lemma calm_epoch_row a b s x : kept (private_channel_epoch_row env me a b s x).
Proof. unfold private_channel_epoch_row. keeps_go. Qed.

Lemma calm_put_epoch e : kept (write_rows (fun m => (put_private_channel_epoch e m).2)).
Proof. apply calm_write_rows. intros m. unfold put_private_channel_epoch, add_epoch. simpl. by case_match. Qed.
#[local] Hint Resolve calm_bump calm_epoch_row calm_put_epoch : calls.

(** ** Writing over the row that was read *)
Lemma calm_row r r' es d :
  get_private_channel_by_id (channel_keys d) (pc_channel_id r) = Some r \/ (exists k, channels (channel_keys d) !! k = Some r) ->
  rewrites r r' -> controller_of (pc_controller r') = controller_of (pc_controller r) ->
  calm shown d (set_channel_keys (put_private_channel r' es) d).
Proof.
  intros Hr Hw Hc Ho. assert (Hk : exists k, channels (channel_keys d) !! k = Some r).
  { destruct Hr as [Hr|]; [|done]. by apply found_row in Hr as [_ ?]. }
  destruct Hk as [k Hk]. assert (HkK : pc_channel_id r = c -> channels (channel_keys d) !! K = Some r).
  { intros Hid. by rewrite <- (ro_only _ Ho k r Hk Hid). }
  destruct (put_rows_one (channel_keys d) r r' es Ho (ex_intro _ k Hk) Hw) as [Ho' HK].
  { intros Hid. rewrite Hc. by destruct (ro_row _ Ho r (HkK Hid)) as (_ & _ & ?). }
  split; [exact Ho'|]. split; [|done]. unfold cell_of. cbn [channel_keys set_channel_keys]. rewrite HK. case_decide as Hid; [|done].
  rewrite (HkK Hid). cbn. unfold record_of. by rewrite Hc.
Qed.

Lemma row_with_rewrites j e o v r : rewrites r (row_with j e o v r).
Proof. split; [by left | done..]. Qed.

Lemma calm_store_epoch id e er : kept (store_epoch id e er).
Proof.
  intros d. unfold store_epoch, row_by_id, has_epoch, in_rows, get, mbind, prog_bind. cbv beta iota zeta.
  pose proof (calm_put_epoch er) as Hp. unfold mbind, prog_bind in *.
  destruct (get_private_channel_by_id (channel_keys d) id) as [r|] eqn:Hr; [|apply Hp].
  destruct (pc_joined r) eqn:Hj; cbn [negb]; [|apply Hp]. case_match; [|apply Hp].
  cbn. apply (calm_row r); [|apply row_with_rewrites | done].
  left. destruct (found_row _ _ _ Hr) as [-> _]. done.
Qed.
#[local] Hint Resolve calm_store_epoch : calls.

Lemma calm_start a b x : kept (start_synced_channel me a b x).
Proof. unfold start_synced_channel, restore_joined_private_channel. keeps_go. Qed.
#[local] Hint Resolve calm_start : calls.

Lemma calm_epoch id e i : kept (merge_channel_epoch env me id e i).
Proof. unfold merge_channel_epoch, left_since, has_epoch. keeps_go. Qed.
#[local] Hint Resolve calm_epoch : calls.

Lemma calm_refill id : kept (refill_channel_keys env me id).
Proof. unfold refill_channel_keys, refill_entry, read_own. keeps_go. Qed.

Lemma calm_delete_loop n id : kept (delete_keys_loop n id).
Proof. induction n as [|n IH]; simpl; keeps_go. Qed.

Lemma calm_delete_keys id : kept (delete_private_channel_keys id).
Proof. intros d. apply calm_delete_loop. Qed.
#[local] Hint Resolve calm_refill calm_delete_keys : calls.

Lemma calm_forget a b : kept (forget_private_channel_keys a b).
Proof. unfold forget_private_channel_keys. keeps_go. Qed.

Lemma calm_leave s x : kept (record_private_channel_leave me s x).
Proof. unfold record_private_channel_leave. keeps_go. Qed.
#[local] Hint Resolve calm_forget calm_leave : calls.

(** ** States of rows *)
Definition of_row (r : PrivateChannelRow) (s : JoinedPrivateChannelState) : Prop :=
  js_topic_id s = pc_topic_id r /\ js_channel_id s = pc_channel_id r /\ controller_of (pc_controller r) = Ok (js_controller s).

Lemma state_of_row r m s : private_channel_state_from_row me r m = Ok (Some s) -> of_row r s.
Proof.
  unfold private_channel_state_from_row. destruct (negb (pc_joined r)); [done|].
  intros (o & _ & Hs)%result_bind_ok. destruct o as [secret|]; [|done].
  apply result_bind_ok in Hs as (a & _ & Hs). apply result_bind_ok in Hs as (x & Hx & Hs). injection Hs as <-. done.
Qed.

Lemma controller_printed o : controller_of (to_json <$> o) = Ok o.
Proof. destruct o as [x|]; cbn; [by rewrite from_to_json | done]. Qed.

(** The row of a state that was read from the row. *)
Lemma calm_state_row r s j v es d :
  (exists k, channels (channel_keys d) !! k = Some r) -> of_row r s ->
  calm shown d (set_channel_keys (put_private_channel (private_channel_row s j v) es) d).
Proof.
  intros Hk (Ht & Hc & Hctl). apply (calm_row r); [by right | |].
  - split; cbn; [right; by rewrite Ht, Hc | done | done].
  - cbn. by rewrite controller_printed, Hctl.
Qed.

Lemma calm_call_bind {A B} (m : Call A) (f : A -> Call B) d :
  calm shown d (m d).2 -> (forall a d', m d = (Ok a, d') -> calm shown d' (f a d').2) -> calm shown d ((m ≫= f) d).2.
Proof.
  intros Hm Hf. unfold mbind, prog_bind. destruct (m d) as [[a|e] d'] eqn:E; [|done]. etrans; [exact Hm | by apply Hf].
Qed.

Lemma calm_tombstone r s i d :
  (exists k, channels (channel_keys d) !! k = Some r) -> of_row r s ->
  calm shown d (tombstone_private_channel env me s (Some i) d).2.
Proof.
  intros Hk Hs. unfold tombstone_private_channel. apply calm_call_bind; [by apply calm_same|]. intros [i' w] d1 [= <- <- <-].
  apply calm_call_bind; [by eapply calm_state_row|]. intros [] d2 _. revert d2.
  enough (Hkept : kept (_ ← set_memory (fun m => memory_remove (joined_private_channel_key (js_topic_id s) (js_channel_id s)) (memory_rows_changed m));
    _ ← bump_generation; _ ← (if false then write_account_sync_item env me i else mret tt); mret (updated_at i))) by exact Hkept.
  keeps_go.
Qed.

(** A leave keeps the record of the row. *)
Lemma calm_merge_leave i row d :
  row = get_private_channel_by_id (channel_keys d) c -> calm shown d (merge_leave env me c i row d).2.
Proof.
  intros ->. unfold merge_leave. destruct (get_private_channel_by_id (channel_keys d) c) as [r|] eqn:Hr; [|apply calm_delete_keys].
  destruct (found_row _ _ _ Hr) as [_ Hk]. apply calm_call_bind; [|intros [] d' _; apply calm_forget].
  destruct (pc_joined r) eqn:Hj; [|by apply calm_same]. apply calm_call_bind; [by apply calm_same|]. intros state d1 [= <- <-].
  apply calm_call_bind; [by apply calm_same|]. intros o d2. destruct (private_channel_state_from_row me r _) as [o'|] eqn:Hs; [|done].
  intros [= <- <-]. destruct o' as [s|].
  - apply calm_call_bind; [eapply calm_tombstone; [done | by eapply state_of_row]|]. intros at_ d3 _. apply calm_leave.
  - apply (calm_row r); [by right | apply row_with_rewrites | done].
Qed.

(** The membership of a joined channel keeps it too. *)
Lemma calm_merge_joined i r d :
  get_private_channel_by_id (channel_keys d) c = Some r -> calm shown d (merge_joined env me c i r d).2.
Proof.
  intros Hr. destruct (found_row _ _ _ Hr) as [_ Hk]. unfold merge_joined. apply calm_call_bind; [by apply calm_same|]. intros b d1 [= <- <-].
  apply calm_call_bind; [apply (calm_row r); [by right | apply row_with_rewrites | done]|]. intros [] d2 _. case_match; [by apply calm_same | apply calm_refill].
Qed.

(** ** Participants *)
Lemma participant_follow_key e i : participant_follow e = Ok i -> AccountSyncItem.key i = ParticipantFollow (edge_subject e) (edge_target e).
Proof.
  unfold participant_follow, validated. intros Hi. repeat (apply result_bind_ok in Hi as (? & _ & Hi)). by injection Hi as <-.
Qed.

Lemma calm_share_edges p : kept (share_edges env me p).
Proof.
  apply keeps_for_each; [apply _|]. intros x. apply keeps_seq; [apply _ | apply calm_outside_get | intros [e|]; [|apply keeps_mret, _]].
  apply keeps_lift_seq; [apply _|]. intros j Hj%participant_follow_key. apply calm_publish. by rewrite Hj.
Qed.
#[local] Hint Resolve calm_share_edges : calls.

Lemma calm_participant p i : kept (merge_channel_participant env me c p i).
Proof.
  unfold merge_channel_participant, take_in_private_channel_participant, controls_private_channel,
    grant_current_epoch_to_late_participant, holds, row_by_id. keeps_go.
Qed.

(** ** Rotations *)

Lemma calm_still_bind {A B} (m : Call A) (f : A -> Call B) d :
  keeps still m -> (forall a d', still d d' -> calm shown d' (f a d').2) -> calm shown d ((m ≫= f) d).2.
Proof.
  intros Hm Hf. specialize (Hm d). apply calm_call_bind; [by apply calm_same; destruct Hm|]. intros a d' He. apply Hf. by rewrite He in Hm.
Qed.

Lemma channel_epoch_key a e x v i : channel_epoch a e x v = Ok i -> AccountSyncItem.key i = ChannelCapability a e.
Proof. unfold channel_epoch, validated. intros Hi. repeat (apply result_bind_ok in Hi as (? & _ & Hi)). by injection Hi as <-. Qed.

(** A calm call, and what holds of its value. *)
Definition does {A} (m : Call A) (P : A -> Prop) (d : Device W) : Prop := calm shown d (m d).2 /\ forall a, (m d).1 = Ok a -> P a.

Lemma does_bind {A B} (m : Call A) (f : A -> Call B) (P : A -> Prop) (Q : B -> Prop) d :
  does m P d -> (forall a d', m d = (Ok a, d') -> P a -> does (f a) Q d') -> does (m ≫= f) Q d.
Proof.
  intros [Hm HP] Hf. unfold does, mbind, prog_bind. destruct (m d) as [[a|e] d'] eqn:E; [|done].
  destruct (Hf a d' eq_refl (HP a eq_refl)) as [Hc HQ]. split; [by etrans | done].
Qed.

Lemma does_kept {A} (m : Call A) d : kept m -> does m (fun _ => True) d.
Proof. intros Hm. by split. Qed.

Lemma does_still {A B} (m : Call A) (f : A -> Call B) (P : A -> Prop) (Q : B -> Prop) d :
  keeps still m -> (forall a, (m d).1 = Ok a -> P a) -> (forall a d', still d d' -> P a -> does (f a) Q d') -> does (m ≫= f) Q d.
Proof.
  intros Hm HP Hf. specialize (Hm d). apply (does_bind _ _ P); [split; [by apply calm_same; destruct Hm | done]|].
  intros a d' He Ha. apply Hf; [|done]. by rewrite He in Hm.
Qed.

Definition no_record (i : AccountSyncItem) : Prop := AccountSyncItem.key i <> ChannelController c.

Lemma version_key s x j (d : Device W) p :
  (membership_version env s x j d).1 = Ok p -> forall i, p.1 = Some i -> no_record i.
Proof.
  unfold membership_version, in_rows, get, edited, random, ask_env, mbind, prog_bind, mret, prog_ret. cbn.
  repeat case_match; intros; simplify_eq/=; try done; unfold no_record; cbn; discriminate.
Qed.

Lemma does_adopt_for_writing i x d : no_record i -> does (adopt_for_writing i x) (Forall no_record) d.
Proof.
  intros Hi. unfold adopt_for_writing. apply (does_bind _ _ (fun _ => True)); [apply does_kept, calm_adopt|].
  intros b d' _ _. split; [by apply calm_same|]. intros l [= <-]. case_match; [by repeat constructor | done].
Qed.

Lemma does_mret {A} (a : A) (P : A -> Prop) d : P a -> does (mret a) P d.
Proof. intros Ha. split; [by apply calm_same | by intros b [= <-]]. Qed.

Lemma does_items s x item d : (forall i, item = Some i -> no_record i) -> does (persist_items env me s x false item) (Forall no_record) d.
Proof.
  intros Hi. unfold persist_items. apply (does_bind _ _ (Forall no_record)).
  { destruct item; [by apply does_adopt_for_writing, Hi | by apply does_mret]. }
  intros w1 d1 _ H1. apply (does_bind _ _ (Forall no_record)).
  { destruct (js_controller s); [|by apply does_mret]. apply (does_bind _ _ (fun b => b = false)); [by apply does_mret|].
    intros b d2 _ ->. by apply does_mret. }
  intros w2 d2 _ H2. apply (does_bind _ _ (Forall no_record)).
  { case_match; [by apply does_mret|]. apply (does_bind _ _ no_record).
    - split; [by apply calm_same|]. intros i Hk%channel_epoch_key. unfold no_record. by rewrite Hk.
    - intros i d3 _ Hn. apply does_mret. by repeat constructor. }
  intros w3 d3 _ H3. apply does_mret. by rewrite !Forall_app.
Qed.

Lemma does_persist r s x d :
  (exists k, channels (channel_keys d) !! k = Some r) -> of_row r s ->
  does (persist_private_channel env me s x [] false) (fun p => Forall no_record p.2) d.
Proof.
  intros Hk Hs. unfold persist_private_channel.
  apply (does_still _ _ (fun p => forall i, p.1 = Some i -> no_record i)); [apply still_version | apply version_key |].
  intros [item version] d1 H1 Hi. apply (does_still _ _ (fun _ => True)); [apply still_epoch_rows | done |]. intros es d2 H2 _.
  apply (does_bind _ _ (fun _ => True)).
  { split; [|done]. apply (calm_state_row r); [by rewrite (proj1 H2), (proj1 H1) | done]. }
  intros [] d3 _ _. apply (does_bind _ _ (fun _ => True)); [apply does_kept, calm_set_memory|]. intros [] d4 _ _.
  apply (does_bind _ _ (Forall no_record)); [by apply does_items|]. intros ws d5 _ Hw. by apply does_mret.
Qed.

Lemma calm_writes ws : Forall no_record ws -> kept (for_each (write_account_sync_item env me) ws).
Proof.
  induction 1 as [|i ws Hi _ IH]; simpl; [apply keeps_mret, _|].
  apply keeps_seq; [apply _ | by apply calm_write_other | done].
Qed.

Lemma calm_commit r s from_epoch d :
  (exists k, channels (channel_keys d) !! k = Some r) -> of_row r s ->
  calm shown d (commit_joined_private_channel_state env me s (Advance from_epoch) d).2.
Proof.
  intros Hk Hs. unfold commit_joined_private_channel_state. apply calm_still_bind; [apply still_outside_call|]. intros _ d1 H1.
  assert (Hrows : does (commit_rows env me s (Advance from_epoch)) (fun o => forall p, o = Some p -> Forall no_record p.2) d1).
  { unfold commit_rows. apply (does_still _ _ (fun _ => True)); [apply still_in_rows | done |]. intros row d2 H2 _. case_match; [|by apply does_mret].
    apply (does_still _ _ (fun _ => True)); [apply still_now | done |]. intros x d3 H3 _.
    apply (does_bind _ _ (fun p => Forall no_record p.2)).
    - apply (does_persist r); [by rewrite (proj1 H3), (proj1 H2), (proj1 H1) | done].
    - intros p d4 _ Hp. apply does_mret. by intros p' [= <-]. }
  destruct Hrows as [Hc Hw]. apply calm_call_bind; [exact Hc|]. intros o d2 He. rewrite He in Hw. specialize (Hw o eq_refl).
  destruct o as [[x ws]|]; [|by apply calm_same]. specialize (Hw _ eq_refl). cbn in Hw. revert d2 He. intros d2 _.
  enough (Hkept : kept (m ← memory;
    _ ← for_each (write_account_sync_item env me) ws;
    _ ← (if match joined_private_channels m !! joined_private_channel_key (js_topic_id s) (js_channel_id s) with
            | None => true | Some current => negb (same_private_channel_state current s) end
         then restart_scope (js_topic_id s) (js_channel_id s) else mret tt);
    mret (Some x))) by exact (Hkept d2).
  apply keeps_seq; [apply _ | apply keeps_get, _ | intros m]. apply keeps_seq; [apply _ | by apply calm_writes | intros _]. keeps_go.
Qed.

Lemma calm_set_rotation r o : kept (set_rotation r o).
Proof. by apply calm_write_rows. Qed.
#[local] Hint Resolve calm_set_rotation : calls.

Lemma calm_commit_rotation r row s d :
  (exists k, channels (channel_keys d) !! k = Some row) -> of_row row s -> calm shown d (commit_private_channel_rotation env me r s d).2.
Proof.
  intros Hk Hs. unfold commit_private_channel_rotation. apply calm_still_bind; [apply still_outside_call|]. intros _ d1 H1.
  apply calm_still_bind; [apply still_in_rows|]. intros o d2 H2.
  apply calm_still_bind; [destruct o; [apply keeps_mret, _ | apply still_now]|]. intros x d3 H3.
  apply calm_still_bind; [apply still_outside_call|]. intros _ d4 H4.
  apply calm_call_bind; [|intros; by apply calm_same].
  apply (calm_commit row); [by rewrite (proj1 H4), (proj1 H3), (proj1 H2), (proj1 H1) | done].
Qed.

Lemma calm_advance r : kept (advance_private_channel_rotation env me r).
Proof.
  intros d. unfold advance_private_channel_rotation, rotation_channel_state. apply calm_call_bind; [by apply calm_same|].
  intros o d1 Ho. assert (Hd : d1 = d) by by injection Ho. subst d1.
  assert (Hst : stored_private_channel_state me (joined_private_channel_key (rot_topic_id r) (rot_channel_id r)) (channel_keys d) = Ok o)
    by (by injection Ho). clear Ho.
  destruct o as [s|]; [|by apply calm_write_rows]. unfold stored_private_channel_state, get_private_channel in Hst.
  destruct (channels (channel_keys d) !! _) as [row|] eqn:Hrow; [|done]. apply state_of_row in Hst.
  apply calm_call_bind; [|intros a d1 _; revert d1; match goal with |- forall d1, calm _ _ (?m d1).2 => change (kept m) end; keeps_go].
  destruct (rot_after r); [by apply calm_same|]. apply calm_call_bind; [|intros [] d1 _; revert d1; match goal with |- forall d1, calm _ _ (?m d1).2 => change (kept m) end; keeps_go].
  case_decide; [eapply calm_commit_rotation; [by eexists | done]|].
  match goal with |- calm _ _ (?m d).2 => enough (Hm : kept m) by exact (Hm d) end.
  apply keeps_seq; [apply _ | apply calm_now | intros x]. apply keeps_lift_seq; [apply _|]. intros i Hi%channel_epoch_key.
  apply calm_write_other. by rewrite Hi.
Qed.
#[local] Hint Resolve calm_advance : calls.

Lemma calm_rotate a b : kept (rotate_private_channel env me a b).
Proof.
  unfold rotate_private_channel, rotation_channel_state, prepare_private_channel_rotation, reserve_epoch, new_reserved_epoch. keeps_go.
Qed.
#[local] Hint Resolve calm_rotate : calls.

Lemma calm_rotation_request i : kept (merge_channel_rotation_request env me c i).
Proof. unfold merge_channel_rotation_request, holds, row_by_id. keeps_go. Qed.
End calm.

(** ** Steps of the row *)

(** What an operation does to the row, from the state [d] to [d']. *)
Record acted (shown : list PrivateChannelController) (d d' : Device W) : Prop := {
  act_rows : rows_one (channel_keys d');
  act_step : cell_step (id_device me) shown (cell_of d) (cell_of d');
  act_shows : replica_shows (option_list (cell_record (cell_of d')) ++ shown)%list d'
}.

Section acts.
Context (shown : list PrivateChannelController).

Lemma good_more more i : good_item shown i -> good_item (more ++ shown)%list i.
Proof. intros Hg v r Hk Hv Hr. apply elem_of_app. right. by eapply Hg. Qed.

Lemma shows_more more d : replica_shows shown d -> replica_shows (more ++ shown)%list d.
Proof. intros Hs i Hi. by apply good_more, Hs. Qed.

Lemma same_record_cell a b : same_record a b -> cell_record b = cell_record a.
Proof. by destruct a as [[??]|], b as [[??]|]; simpl; intros; subst. Qed.

Lemma acted_calm d d' : rows_one (channel_keys d) -> replica_shows shown d -> calm shown d d' -> acted shown d d'.
Proof.
  intros Ho Hs Hc. destruct (Hc Ho) as (Ho' & Hr & Hs'). split; [done | | by apply shows_more, Hs'].
  eapply cell_step_record, Hr. constructor.
Qed.

(** A step, and calm after it. *)
Lemma acted_then d d1 d' :
  acted shown d d1 -> calm (option_list (cell_record (cell_of d1)) ++ shown)%list d1 d' -> acted shown d d'.
Proof.
  intros [Ho Hst Hs] Hc. destruct (Hc Ho) as (Ho' & Hr & Hs'). split; [done | by eapply cell_step_record |].
  rewrite (same_record_cell _ _ Hr). by apply Hs'.
Qed.

Lemma acted_kept {A} (m : Call A) d d1 :
  (forall l, keeps (calm l) m) -> acted shown d d1 -> acted shown d (m d1).2.
Proof. intros Hm Ha. eapply acted_then; [exact Ha | apply Hm]. Qed.

(** A new record in the row. *)
Lemma put_record r o e v es d :
  rows_one (channel_keys d) -> channels (channel_keys d) !! K = Some r ->
  let d' := set_channel_keys (put_private_channel (row_with (pc_joined r) e (Some (to_json o)) v r) es) d in
  rows_one (channel_keys d') /\ cell_of d' = Some (pc_joined r, Some o).
Proof.
  intros Ho Hr. destruct (ro_row _ Ho r Hr) as (Hid & _).
  destruct (put_rows_one (channel_keys d) r (row_with (pc_joined r) e (Some (to_json o)) v r) es Ho (ex_intro _ K Hr)
              (row_with_rewrites _ _ _ _ _)) as [Ho' HK]; [intros _; cbn; by rewrite from_to_json|].
  split; [exact Ho'|]. unfold cell_of. cbn [channel_keys set_channel_keys]. rewrite HK, decide_True by done. cbn. unfold record_of. cbn.
  by rewrite from_to_json.
Qed.

Lemma row_cell d r : channels (channel_keys d) !! K = Some r -> cell_of d = Some (pc_joined r, record_of r).
Proof. intros Hr. unfold cell_of. by rewrite Hr. Qed.

Lemma acted_still d d1 d' : still d d1 -> acted shown d1 d' -> acted shown d d'.
Proof. intros [Hc _] [Ho Hst Hs]. split; [done | | done]. unfold cell_of in *. by rewrite Hc in Hst. Qed.

(** [put_private_channel_controller] with the item that goes with it *)
Lemma acted_put_controller r o i d :
  rows_one (channel_keys d) -> replica_shows shown d -> channels (channel_keys d) !! K = Some r ->
  (forall j', cell_step (id_device me) shown (cell_of d) (Some (j', Some o))) ->
  let d' := (put_private_channel_controller r o i d).2 in acted shown d d' /\ cell_record (cell_of d') = Some o.
Proof.
  intros Ho Hs Hr Hst. unfold put_private_channel_controller, write_rows, put, mbind, prog_bind.
  destruct (put_record r o (pc_current_epoch r) (row_version r) [] d Ho Hr) as [Ho' Hc].
  set (d1 := set_channel_keys _ d) in *.
  assert (Ha : acted shown d d1).
  { split; [done | rewrite Hc; apply Hst |]. rewrite Hc. apply shows_more. exact Hs. }
  destruct i as [i|]; [|cbn; by rewrite Hc]. split.
  - refine (acted_kept ((_ ← adopt (row_of i); mret tt) : Call unit) d d1 _ Ha).
    intros l. apply keeps_seq; [apply _ | apply calm_adopt | intros; apply keeps_mret, _].
  - unfold adopt. destruct (adopt_account_sync_row (row_of i) (ledger d1)) as [b m].
    change (cell_record (cell_of d1) = Some o). by rewrite Hc.
Qed.

Lemma controller_item_good l a x r : good_item (a :: l) (edit r (ChannelController c) x (Some (to_value a))).
Proof. intros v y _ [= <-] Hy. rewrite from_to_value in Hy. injection Hy as ->. by left. Qed.

Lemma put_controller_ok r o i (d : Device W) : exists d', put_private_channel_controller r o i d = (Ok tt, d').
Proof.
  unfold put_private_channel_controller, write_rows, put, adopt, mbind, prog_bind. destruct i as [i|]; [|by eexists].
  destruct (adopt_account_sync_row _ _). by eexists.
Qed.

(** The record of a controller item, written after it was put into the row. *)
Lemma acted_announce {A} a item (after : Call A) d d1 :
  (forall l, keeps (calm l) after) ->
  acted shown d d1 -> cell_record (cell_of d1) = Some a -> (forall i, item = Some i -> good_item (a :: shown) i) ->
  acted shown d ((_ ← match item with Some i => write_account_sync_item env me i | None => mret tt end; after) d1).2.
Proof.
  intros Hafter Ha Hc Hi. eapply acted_then; [exact Ha|]. rewrite Hc. cbn. apply calm_call_bind; [|intros; apply Hafter].
  destruct item as [i|]; [by apply calm_write, Hi | by apply calm_same].
Qed.

Lemma optional_item_spec o d :
  let '(res, d') := optional_item env c o d in
  still d d' /\ exists item, res = Ok item /\ (item = None <-> o = None)
    /\ forall i a l, item = Some i -> o = Some a -> good_item (a :: l) i.
Proof.
  destruct o as [a|]; cbn; [|split; [done|]; exists None; by split_and!].
  split; [done|]. eexists. split_and!; [reflexivity | done|]. intros i a' l [= <-] [= <-]. apply controller_item_good.
Qed.

Lemma acted_controller_row incoming r d :
  rows_one (channel_keys d) -> replica_shows shown d -> channels (channel_keys d) !! K = Some r -> incoming ∈ shown ->
  acted shown d (merge_controller_row env me c (id_device me) incoming r d).2.
Proof.
  intros Ho Hs Hr Hin. destruct (ro_row _ Ho r Hr) as (_ & _ & Hok).
  assert (Hloc : controller_of (pc_controller r) = Ok (record_of r)) by (unfold record_of; by destruct (controller_of _)).
  unfold merge_controller_row. rewrite Hloc. unfold lift at 1, mbind at 1, prog_bind at 1. cbv beta iota zeta.
  set (act := activation_of (id_device me) (pc_joined r) incoming).
  destruct (negb _ && _) eqn:Hskip; [apply acted_calm; [done | done | by apply calm_same]|].
  pose proof (optional_item_spec act d) as Hitem. unfold mbind at 1, prog_bind at 1.
  destruct (optional_item env c act d) as [res d1]. destruct Hitem as (Hst & item & -> & Hnone & Hgood).
  apply (acted_still d d1); [done|]. cbv beta iota.
  assert (Hr1 : channels (channel_keys d1) !! K = Some r) by by rewrite (proj1 Hst).
  destruct (acted_put_controller r (default incoming act) item d1) as [Ha Hc].
  - eapply rows_one_ext, Ho. apply Hst.
  - unfold replica_shows. rewrite (proj2 Hst). exact Hs.
  - exact Hr1.
  - intros j'. rewrite (row_cell d1 r Hr1). destruct act as [a|] eqn:Hact; cbn.
    + destruct (controller_supersedes (record_of r) incoming) eqn:Hsup; [by eapply step_activate|].
      cbn in Hskip. apply negb_false_iff, bool_decide_eq_true in Hskip. rewrite Hskip. constructor.
    + apply andb_false_iff in Hskip as [Hsup%negb_false_iff|Hx]; [by eapply step_take | done].
  - unfold mbind at 1, prog_bind at 1. destruct (put_private_channel_controller r (default incoming act) item d1) as [[[]|e] d2] eqn:Hput.
    2: { destruct (put_controller_ok r (default incoming act) item d1) as [d2' Hok']. congruence. }
    cbn [fst snd] in Ha, Hc. cbv beta iota.
    apply (acted_announce (default incoming act)); [| done | done |].
    + intros l. keeps_go. apply calm_restart.
    + intros i Hi. destruct act as [a|]; [by apply (Hgood i a) |]. by rewrite (proj2 Hnone eq_refl) in Hi.
Qed.

(** ** The merges *)
Lemma acted_bind {A B} (m : Call A) (f : A -> Call B) d :
  keeps still m -> rows_one (channel_keys d) -> replica_shows shown d ->
  (forall a d', still d d' -> m d = (Ok a, d') -> rows_one (channel_keys d') -> replica_shows shown d' -> acted shown d' (f a d').2) ->
  acted shown d ((m ≫= f) d).2.
Proof.
  intros Hm Ho Hs Hf. specialize (Hm d). unfold mbind, prog_bind. destruct (m d) as [[a|e] d'] eqn:E; cbn [snd] in Hm.
  - apply (acted_still d d'); [done|]. apply Hf; [done | done | eapply rows_one_ext, Ho; apply Hm |].
    unfold replica_shows. by rewrite (proj2 Hm).
  - apply acted_calm; [done | done | by apply calm_same; destruct Hm].
Qed.

Lemma still_device : keeps still (local_device_id env me).
Proof. unfold local_device_id. keeps_go. Qed.

Lemma device_value (d : Device W) a d' : local_device_id env me d = (Ok a, d') -> a = id_device me.
Proof. unfold local_device_id, ask_env, lift, mbind, prog_bind. cbn. destruct (discovery_ok _ _); by intros [= <- _]. Qed.

Lemma still_adopt r : keeps still (adopt r).
Proof. intros d. unfold adopt. by destruct (adopt_account_sync_row r (ledger d)). Qed.

Lemma acted_controller i d :
  AccountSyncItem.key i = ChannelController c -> good_item shown i -> rows_one (channel_keys d) -> replica_shows shown d ->
  acted shown d (merge_channel_controller env me c i d).2.
Proof.
  intros Hk Hg Ho Hs. unfold merge_channel_controller.
  destruct (AccountSyncItem.value i) as [v|] eqn:Hv; [|apply acted_calm; [done | done | by apply calm_same]].
  apply acted_bind; [by intros d' | done | done |]. intros r d1 _ Hr Ho1 Hs1. injection Hr as Hr <-.
  destruct (from_value v) as [r'|] eqn:Hdec; [|done]. injection Hr as <-.
  apply acted_bind; [apply still_device | done | done |]. intros dev d2 _ ->%device_value Ho2 Hs2.
  apply acted_bind; [by intros d' | done | done |]. intros row d3 _ [= <- <-] Ho3 Hs3.
  rewrite (by_id_row _ Ho3). destruct (channels (channel_keys d2) !! K) as [row|] eqn:Hrow.
  - apply acted_controller_row; [done | done | done | by eapply Hg].
  - apply acted_calm; [done | done |]. match goal with |- calm _ _ (?m d2).2 => enough (Hm : keeps (calm shown) m) by exact (Hm d2) end.
    unfold read_own. keeps_go.
Qed.

Lemma acted_request i d :
  rows_one (channel_keys d) -> replica_shows shown d -> acted shown d (merge_channel_controller_request env me c i d).2.
Proof.
  intros Ho Hs. unfold merge_channel_controller_request.
  assert (Hquiet : forall d (b : bool), rows_one (channel_keys d) -> replica_shows shown d -> acted shown d ((mret b : Call bool) d).2).
  { intros. apply acted_calm; [done | done | by apply calm_same]. }
  apply acted_bind; [by intros d' | done | done |]. intros q d1 _ _ Ho1 Hs1.
  apply acted_bind; [apply still_adopt | done | done |]. intros adopted d2 _ _ Ho2 Hs2.
  apply acted_bind; [apply still_device | done | done |]. intros dev d3 _ ->%device_value Ho3 Hs3.
  case_decide; [by apply Hquiet|]. apply acted_bind; [by intros d' | done | done |]. intros row d4 _ [= <- <-] Ho4 Hs4.
  rewrite (by_id_row _ Ho4). destruct (channels (channel_keys d3) !! K) as [r|] eqn:Hrow; [|by apply Hquiet].
  case_match; [by apply Hquiet|]. apply acted_bind; [by intros d' | done | done |]. intros local d5 _ Hl Ho5 Hs5. injection Hl as Hl <-.
  destruct (stop_of (id_device me) local q) as [stop|] eqn:Hstop; [|by apply Hquiet].
  pose proof (optional_item_spec (Some stop) d3) as Hitem. unfold optional_item in Hitem. unfold mbind in Hitem at 1. unfold prog_bind in Hitem at 1.
  unfold mbind at 1, prog_bind at 1. destruct (controller_item env c stop d3) as [[item|e] d6] eqn:Hci.
  2: { apply acted_calm; [done | done |]. destruct Hitem as [Hst _]. by apply calm_same; destruct Hst. }
  destruct Hitem as (Hst & item' & Hit & _ & Hgood). injection Hit as <-. apply (acted_still d3 d6); [done|].
  assert (Hr6 : channels (channel_keys d6) !! K = Some r) by by rewrite (proj1 Hst).
  destruct (acted_put_controller r stop (Some item) d6) as [Ha Hc].
  - eapply rows_one_ext, Ho5. apply Hst.
  - unfold replica_shows. by rewrite (proj2 Hst).
  - exact Hr6.
  - intros j'. rewrite (row_cell d6 r Hr6). unfold record_of. rewrite Hl. by eapply step_stop.
  - destruct (put_controller_ok r stop (Some item) d6) as [d7 Hput]. rewrite Hput in Ha, Hc. unfold mbind at 1, prog_bind at 1.
    rewrite Hput. cbn [fst snd] in Ha, Hc. cbv beta iota.
    apply (acted_announce stop (Some item)); [| done | done |].
    + intros l. keeps_go. apply calm_restart.
    + intros i' [= <-]. by apply (Hgood item stop).
Qed.

Lemma put_new_row r es m :
  rows_one m -> pc_channel_key r = K -> pc_topic_id r = t -> pc_channel_id r = c -> is_ok (controller_of (pc_controller r)) = true ->
  rows_one (put_private_channel r es m) /\ channels (put_private_channel r es m) !! K = Some r.
Proof.
  intros Ho HK Ht Hc Hok. rewrite put_channels, HK, lookup_insert_eq. split; [|done]. split.
  - intros k r0. rewrite put_channels, HK. intros [[<- <-]|[_ H0]]%lookup_insert_Some; [by rewrite Ht, Hc | by apply (ro_key _ Ho)].
  - intros k r0. rewrite put_channels, HK. intros [[<- _]|[_ H0]]%lookup_insert_Some; [done | by apply (ro_only _ Ho)].
  - intros r0. rewrite put_channels, HK, lookup_insert_eq. by intros [= <-].
Qed.

Lemma still_own_controller : keeps still (own_controller me c : Call _).
Proof. unfold own_controller, read_own. keeps_go. Qed.

(** What the own replica shows is one of [shown]. *)
Lemma own_controller_shown d o d' :
  replica_shows shown d -> own_controller me c d = (Ok o, d') -> forall r, o = Some r -> r ∈ shown.
Proof.
  intros Hs. unfold own_controller, read_own, get, lift, mbind, prog_bind. cbv beta iota. rewrite read_memory. cbv beta iota.
  intros Ho r ->. injection Ho as Ho _. destruct (stored me (replica d) _) as [i|] eqn:Hi; [|done]. cbn in Ho.
  destruct (AccountSyncItem.value i) as [v|] eqn:Hv; [|done]. cbn in Ho. destruct (from_value v) as [r'|] eqn:Hr; [|done]. injection Ho as <-.
  destruct (stored_key _ _ _ _ Hi) as [Hk _]. by apply (Hs i Hi v r' (controller_key_text _ _ Hk) Hv Hr).
Qed.

Lemma acted_join i ms previous d :
  rows_one (channel_keys d) -> replica_shows shown d -> ms_topic_id ms = t ->
  previous = channels (channel_keys d) !! K ≫= pc_controller ->
  acted shown d (merge_join env me c i ms previous d).2.
Proof.
  intros Ho Hs Ht Hp. unfold merge_join. apply acted_bind; [by intros d' | done | done |]. intros newest d1 _ Hn Ho1 Hs1.
  injection Hn as _ <-.
  apply acted_bind; [destruct previous; [apply keeps_mret, _ | apply keeps_seq; [apply _ | apply still_own_controller | intros; apply keeps_mret, _]] | done | done |].
  intros controller d2 Hst Hc Ho2 Hs2.
  assert (Hok : exists o, controller_of controller = Ok o /\ cell_step (id_device me) shown (cell_of d2) (Some (true, o))).
  { rewrite <- (proj1 Hst) in Hp. destruct previous as [s|].
    - injection Hc as <- _. symmetry in Hp. apply bind_Some in Hp as (r & Hr & Hs'). destruct (ro_row _ Ho2 r Hr) as (_ & _ & Hok).
      rewrite (row_cell d2 r Hr). unfold record_of. rewrite Hs' in Hok |- *. destruct (controller_of (Some s)) as [o|]; [|done].
      exists o. split; [done | constructor].
    - unfold mbind, prog_bind in Hc. destruct (own_controller me c d) as [[o|e] d2'] eqn:Hown; [|done]. injection Hc as <- _.
      exists o. split; [apply controller_printed|]. apply step_row; [|exact (own_controller_shown d o d2' Hs Hown)].
      unfold cell_of. destruct (channels (channel_keys d2) !! K) as [r|]; [|done]. cbn in Hp |- *. unfold record_of. by rewrite <- Hp. }
  destruct Hok as (o & Hok & Hstep).
  destruct (put_new_row (membership_row c i ms (default (ms_current_epoch ms) newest) controller) [] (channel_keys d2) Ho2) as [Ho3 HK3];
    [by cbn; rewrite Ht | done | done | cbn; by rewrite Hok |].
  unfold write_rows, put at 1, mbind at 1, prog_bind at 1. cbv beta iota.
  match goal with |- acted _ _ (?m ?x).2 => apply (acted_kept m d2 x) end.
  - intros l. keeps_go; [apply calm_set_memory | apply calm_start | apply calm_refill].
  - split; [exact Ho3 | | by apply shows_more].
    unfold cell_of at 2. cbn [channel_keys set_channel_keys]. rewrite HK3. cbn. unfold record_of. cbn [pc_controller membership_row]. by rewrite Hok.
Qed.

Lemma acted_seq {A B} (m : Call A) (f : A -> Call B) d :
  acted shown d (m d).2 -> (forall l a, keeps (calm l) (f a)) -> acted shown d ((m ≫= f) d).2.
Proof.
  intros Ha Hf. unfold mbind, prog_bind. destruct (m d) as [[a|e] d'] eqn:E; [|done]. by apply (acted_kept (f a) d d').
Qed.

Lemma acted_membership i d :
  (forall v ms, AccountSyncItem.value i = Some v -> from_value v = Some ms -> ms_topic_id ms = t) ->
  rows_one (channel_keys d) -> replica_shows shown d -> acted shown d (merge_channel_membership env me c i d).2.
Proof.
  intros Ht Ho Hs. unfold merge_channel_membership.
  apply acted_bind; [by intros d' | done | done |]. intros membership d1 _ Hm Ho1 Hs1. injection Hm as Hm <-.
  apply acted_bind; [apply still_adopt | done | done |]. intros adopted d2 _ _ Ho2 Hs2.
  apply acted_bind; [destruct adopted; by intros d' | done | done |]. intros held d3 _ _ Ho3 Hs3.
  destruct (negb held); [apply acted_calm; [done | done | by apply calm_same]|].
  apply acted_bind; [by intros d' | done | done |]. intros row d4 _ [= <- <-] Ho4 Hs4.
  apply acted_seq; [|intros l []; apply keeps_mret, _].
  destruct membership as [ms|]; [|by apply acted_calm, calm_merge_leave].
  assert (Htop : ms_topic_id ms = t).
  { destruct (AccountSyncItem.value i) as [v|] eqn:Hv; [|done]. cbn in Hm. destruct (from_value v) as [x|] eqn:Hx; [|done].
    injection Hm as ->. by apply (Ht v). }
  rewrite (by_id_row _ Ho4). destruct (channels (channel_keys d3) !! K) as [r|] eqn:Hrow.
  - destruct (pc_joined r).
    + apply acted_calm; [done | done |]. apply calm_merge_joined. by rewrite (by_id_row _ Ho4).
    + apply acted_join; [done | done | done | by rewrite Hrow].
  - apply acted_join; [done | done | done | by rewrite Hrow].
Qed.

(** An item about the channel: memberships are of its topic, and records were shown. *)
Definition about_channel (i : AccountSyncItem) : Prop :=
  match AccountSyncItem.key i with
  | ChannelMembership c' => c' = c /\ forall v ms, AccountSyncItem.value i = Some v -> from_value v = Some ms -> ms_topic_id ms = t
  | ChannelController c' => c' = c /\ good_item shown i
  | ChannelRotationRequest c' | ChannelControllerRequest c' | ChannelParticipant c' _ | ChannelCapability c' _ => c' = c
  | _ => False
  end.

Lemma acted_item i d :
  about_channel i -> rows_one (channel_keys d) -> replica_shows shown d -> acted shown d (merge_channel_item env me i d).2.
Proof.
  unfold about_channel, merge_channel_item. intros Hi Ho Hs. destruct (AccountSyncItem.key i) eqn:Hk; try done.
  - apply acted_calm; [done | done | apply calm_epoch].
  - destruct Hi as [-> Ht]. by apply acted_membership.
  - destruct Hi as [-> Hg]. by apply acted_controller.
  - subst. apply acted_calm; [done | done | apply calm_rotation_request].
  - subst. by apply acted_request.
  - subst. apply acted_calm; [done | done | apply calm_participant].
Qed.

(** A fetched item is merged and, when it was adopted, copied to the own replica. *)
Lemma acted_fetched i d :
  about_channel i -> rows_one (channel_keys d) -> replica_shows shown d ->
  acted shown d (merge_fetched_account_sync_item env me (merge_channel_item env me) i false d).2.
Proof.
  intros Hi Ho Hs. unfold merge_fetched_account_sync_item. pose proof (acted_item i d Hi Ho Hs) as Ha.
  unfold mbind, prog_bind. destruct (merge_channel_item env me i d) as [[adopted|e] d'] eqn:E; [|done]. cbn [snd] in Ha.
  destruct adopted; [|done]. eapply acted_then; [exact Ha|]. apply calm_write. apply good_more.
  intros v r Hk Hv Hr. unfold about_channel in Hi. rewrite Hk in Hi. destruct Hi as [_ Hg]. by eapply Hg.
Qed.

Lemma acted_rotate d :
  rows_one (channel_keys d) -> replica_shows shown d -> acted shown d (rotate_private_channel env me t c d).2.
Proof. intros Ho Hs. apply acted_calm; [done | done | apply calm_rotate]. Qed.

(** Asking for the handoff writes a request. *)
Lemma calm_ask_controller : keeps (calm shown) (request_private_channel_controller env me t c).
Proof.
  unfold request_private_channel_controller. apply keeps_seq; [apply _ | apply calm_in_rows | intros state].
  do 3 (apply keeps_seq; [apply _ | apply keeps_pure, _ | intros ?]). apply keeps_seq; [apply _ | apply calm_device | intros dev].
  case_match; [apply keeps_mret, _|]. case_decide; [apply keeps_mret, _|]. apply keeps_seq; [apply _ | apply keeps_get, _ | intros reachable].
  case_match; [apply keeps_mret, _|]. apply keeps_seq; [apply _ | apply calm_now | intros x].
  apply calm_edited. intros r. apply keeps_seq; [apply _ | by apply calm_publish | intros; apply keeps_mret, _].
Qed.

(** The guard of a rotation. *)
Lemma prepare_controls r d d' :
  prepare_private_channel_rotation env me t c d = (Ok r, d') -> controls (id_device me) (cell_record (cell_of d)) = true.
Proof.
  unfold prepare_private_channel_rotation. intros (o & d0 & [= <- <-] & Hp)%prog_bind_inv.
  destruct (joined_private_channel_state me t c d) as [s|]; [|done]. do 2 (apply prog_bind_inv in Hp as (? & ? & Hu & Hp); injection Hu as _ <-).
  apply prog_bind_inv in Hp as (dev & d1 & Hdev & Hp). pose proof (still_device d) as Hst. rewrite Hdev in Hst. apply device_value in Hdev as ->.
  apply prog_bind_inv in Hp as (row & d2 & Hrow & Hp). injection Hrow as <- <-. unfold get_private_channel in Hp. cbn [snd] in Hst.
  rewrite (proj1 Hst) in Hp. unfold cell_of. destruct (channels (channel_keys d) !! K) as [row|]; [|done].
  destruct (negb (pc_joined row)); [done|]. apply prog_bind_inv in Hp as (o & d2 & Ho & Hp). injection Ho as Ho <-.
  apply prog_bind_inv in Hp as (u' & d2 & Hc & _). injection Hc as Hc _. cbn. unfold record_of. rewrite Ho.
  by destruct (controls (id_device me) o).
Qed.
End acts.
End run.
