(* ===== verification/ChannelHandoffProps.v ===== *)
(** * At most one device makes new epochs

    The devices of the owner of a channel merge each other's items in any order, any number
    of times, ask for the handoff and rotate the keys; whatever they do, a rotation is
    prepared on at most one of them. *)
From S2P Require Import Prelude RustStr Envelope Replicas TimeIndex AccountSyncItem AccountSyncItemProps ChannelSeal AccountSyncStore AccountSyncStoreProps AccountSyncCycle ChannelKeyStore Calls AccountSync AccountSyncMerge ChannelRows ChannelRotation ChannelMerge AccountSyncFetch AccountSyncReplica AccountSyncFetchInv ChannelHandoff ChannelHandoffRun.

Section fleet.
Context {hex_crate : HexCrate} {hex_laws : HexCrateLaws} {crypto : Crypto} {json_value : JsonValue} {aead : Aead} {aead_laws : AeadLaws} {blake3 : Blake3Crate}.
Context {item_json : Json (@AccountSyncItem json_value)} {item_laws : JsonLaws (@AccountSyncItem json_value)}.
Context {sealed_json : Json SealedAccountSyncItem} {sealed_laws : JsonLaws SealedAccountSyncItem} `{!Serde AccountSyncChangeV1}.
Context `{!Serde PrivateChannelEpochCapability} `{!Serde ChannelMembershipV1}.
Context {ctl_serde : Serde PrivateChannelController} {ctl_serde_laws : SerdeLaws PrivateChannelController}.
Context {ctl_json : Json PrivateChannelController} {ctl_laws : JsonLaws PrivateChannelController}.
Context `{!Serde ChannelRotationRequestV1} `{!Serde ChannelControllerRequestV1} `{!Serde ChannelParticipantV1} `{!Json ChannelParticipantV1} `{!Serde EdgeStatus}.
Context {W : Type} `{!ChannelService W} `{!EpochService W} `{!ParticipantService W}.
(** The account, the environment of each device, and the channel. *)
Context (me : Identity) (envs : string -> Env) (t c : string).
#[local] Abbreviation Fleet := (string -> Device W).

Definition record_at (s : Fleet) (x : string) : option PrivateChannelController := cell_record (cell_of t c (s x)).

(** The first device has made the channel; the others have no record of it. *)
Record created (a : string) (s : Fleet) : Prop := {
  cr_rows x : rows_one t c (channel_keys (s x));
  cr_first : record_at s a = Some {| ctl_device := a; ctl_generation := 1; ctl_transfer_to := None |};
  cr_others x : x <> a -> record_at s x = None;
  cr_replicas x : replica_shows (on_device me x) c [{| ctl_device := a; ctl_generation := 1; ctl_transfer_to := None |}] (s x)
}.

(** Device [x] fetches an item about the channel, rotates, or asks to take over.  An item
    with a record has one that some row [shown] before. *)
Inductive operation (shown : list PrivateChannelController) : Type :=
| FetchItem (i : AccountSyncItem) (Hi : about_channel t c shown i)
| Rotate
| AskController.
Arguments FetchItem {shown}. Arguments Rotate {shown}. Arguments AskController {shown}.

Definition perform {shown} (x : string) (o : operation shown) (d : Device W) : Device W :=
  match o with
  | FetchItem i _ => (merge_fetched_account_sync_item (envs x) (on_device me x) (merge_channel_item (envs x) (on_device me x)) i false d).2
  | Rotate => (rotate_private_channel (envs x) (on_device me x) t c d).2
  | AskController => (request_private_channel_controller (envs x) (on_device me x) t c d).2
  end.

(** [fleet_run n s shown]: after [n] operations since the channel was made. *)
Inductive fleet_run : nat -> Fleet -> list PrivateChannelController -> Prop :=
| run_created a s : created a s -> fleet_run 0 s [{| ctl_device := a; ctl_generation := 1; ctl_transfer_to := None |}]
| run_operation n s shown x (o : operation shown) :
    fleet_run n s shown ->
    fleet_run (S n) (upd s x (perform x o (s x))) (option_list (cell_record (cell_of t c (perform x o (s x)))) ++ shown)%list.

Context (random_length : forall x n len, String.length (random_bytes (envs x) n len) = len).

Lemma perform_acted shown x (o : operation shown) d :
  rows_one t c (channel_keys d) -> replica_shows (on_device me x) c shown d -> acted (on_device me x) t c shown d (perform x o d).
Proof.
  intros Ho Hs. destruct o as [i Hi| |].
  - by apply acted_fetched.
  - by apply acted_rotate.
  - apply acted_calm; [done | done | by apply calm_ask_controller].
Qed.

Lemma run_cells n s shown :
  fleet_run n s shown -> Z.of_nat n < 2 ^ 63 ->
  (forall x, rows_one t c (channel_keys (s x)) /\ replica_shows (on_device me x) c shown (s x))
  /\ exists log, handoff_inv n (fun x => cell_of t c (s x)) shown log.
Proof.
  induction 1 as [a s Hc | n s shown x o Hrun IH]; intros Hn.
  - split; [intros x; split; [by eapply cr_rows | by eapply cr_replicas]|]. eexists. split.
    + apply chain_first.
    + intros r [= <-]. simpl. lia.
    + done.
    + intros x r Hr. destruct (decide (x = a)) as [->|Hx].
      * pose proof (cr_first _ _ Hc) as Hf. unfold record_at in Hf. rewrite Hr in Hf. injection Hf as ->. by left.
      * pose proof (cr_others _ _ Hc x Hx) as Hf. unfold record_at in Hf. congruence.
    + intros r ->%list_elem_of_singleton. eexists. split; [apply (cr_first _ _ Hc) | done].
  - destruct IH as (Hall & log & Hinv); [lia|]. destruct (Hall x) as [Ho Hs].
    destruct (perform_acted shown x o (s x) Ho Hs) as [Ho' Hst Hs']. split.
    + intros y. unfold upd. case_decide as Hy; [subst y; done|]. destruct (Hall y) as [Hoy Hsy].
      split; [done|]. by apply shows_more.
    + destruct (cell_step_inv n _ shown log x _ Hinv ltac:(lia) Hst) as [log' Hinv']. exists log'.
      destruct Hinv' as [H1 H2 H3 H4 H5]. split; [done | done | done | |].
      * intros y r. specialize (H4 y r). unfold upd in *. by case_decide.
      * intros r Hr. specialize (H5 r Hr). unfold upd in *. by case_decide.
Qed.

(** C4: At most one device of the owner makes new epochs of a private channel: in every
    order in which the devices fetch each other's items about the channel (memberships,
    keys, records of the controller, requests; repeated or delayed), rotate and ask to take
    over, once a rotation can be prepared on one device it is refused on every other. *)
Theorem one_controller n s shown x y rotation d' :
  fleet_run n s shown -> Z.of_nat n < 2 ^ 63 ->
  prepare_private_channel_rotation (envs x) (on_device me x) t c (s x) = (Ok rotation, d') -> y <> x ->
  is_ok (prepare_private_channel_rotation (envs y) (on_device me y) t c (s y)).1 = false.
Proof.
  intros Hrun Hn Hx Hyx. destruct (run_cells n s shown Hrun Hn) as (_ & log & Hinv).
  destruct (prepare_private_channel_rotation (envs y) (on_device me y) t c (s y)) as [[ry|e] dy] eqn:Hy; [exfalso | done].
  apply prepare_controls in Hx, Hy; [|done..]. cbn [id_device on_device] in Hx, Hy. unfold controls in Hx, Hy.
  destruct log as [|h log]; [by pose proof (hi_chain _ _ _ _ Hinv) as Hc; inversion Hc|].
  destruct (cell_record (cell_of t c (s x))) as [rx|] eqn:Hrx; [|done]. destruct (cell_record (cell_of t c (s y))) as [ry'|] eqn:Hry; [|done].
  apply Hyx. symmetry. by apply (one_active n _ shown h log Hinv x y rx ry').
Qed.
End fleet.
