(* ===== verification/ChannelLeaveProps.v ===== *)
(** * Leaving a channel

    A leave that was taken from another device ends the membership here and deletes every
    key of the channel, and keys as old as the leave do not come back. *)
From S2P Require Import Prelude RustStr Envelope Replicas TimeIndex AccountSyncItem ChannelSeal AccountSyncStore AccountSyncStoreProps AccountSyncCycle ChannelKeyStore Calls AccountSync AccountSyncMerge ChannelRows ChannelRotation ChannelMerge AccountSyncFetch AccountSyncReplica AccountSyncFetchInv ChannelHandoff ChannelHandoffRun.

(** ** Keys of a channel *)
Definition keys_of (id : string) (m : MemoryPrivateChannelKeys) : gset (string * string) := filter (fun k => k.1 = id) (dom (epochs m)).

Definition rows_keyed (m : MemoryPrivateChannelKeys) : Prop :=
  forall k r, channels m !! k = Some r -> pc_channel_key r = k /\ k = joined_private_channel_key (pc_topic_id r) (pc_channel_id r).

Lemma deleted_epochs l m :
  let m' := foldl (fun m k => {| channels := channels m; epochs := delete k (epochs m); epochs_unwritten := epochs_unwritten m ∖ {[k]} |}) m l in
  dom (epochs m') = dom (epochs m) ∖ list_to_set l /\ channels m' = channels m.
Proof.
  revert m. induction l as [|k l IH]; intros m; simpl; [split; [set_solver | done]|].
  destruct (IH {| channels := channels m; epochs := delete k (epochs m); epochs_unwritten := epochs_unwritten m ∖ {[k]} |}) as [IHd IHc].
  rewrite IHd, IHc. cbn. rewrite dom_delete_L. split; [set_solver | done].
Qed.

(** A page removes keys of the channel; it is empty only when there is none. *)
Lemma delete_page_spec id m :
  let '(names, m') := delete_private_channel_epochs id PRIVATE_CHANNEL_PAGE m in
  channels m' = channels m /\ keys_of id m' ⊆ keys_of id m /\ (names = [] -> keys_of id m = ∅ /\ m' = m)
  /\ (names <> [] -> (size (keys_of id m') < size (keys_of id m))%nat).
Proof.
  unfold delete_private_channel_epochs. set (found := List.filter _ _). set (doomed := take _ found).
  destruct (deleted_epochs doomed m) as [Hd Hc]. cbv zeta in *. set (m' := foldl _ m doomed) in *.
  assert (Hfound : forall k, k ∈ found <-> k ∈ keys_of id m).
  { intros k. unfold found, keys_of. rewrite elem_of_filter_bool, elem_of_filter, elem_of_set_iter. rewrite bool_decide_eq_true. tauto. }
  assert (Hk : keys_of id m' = keys_of id m ∖ list_to_set doomed).
  { unfold keys_of. rewrite Hd. set_solver. }
  split_and!; [done | rewrite Hk; set_solver | |].
  - intros Hn. assert (Hdo : doomed = []) by (destruct doomed; done).
    assert (Hf : found = []) by (unfold doomed in Hdo; destruct found; done).
    split; [|unfold m'; by rewrite Hdo]. apply set_eq. intros k. rewrite <- Hfound, Hf. set_solver.
  - intros Hn. destruct doomed as [|k l] eqn:Hdo; [done|]. apply subset_size. rewrite Hk.
    assert (Hin : k ∈ keys_of id m).
    { apply Hfound. rewrite <- (take_drop PRIVATE_CHANNEL_PAGE found). apply elem_of_app. left. change (take PRIVATE_CHANNEL_PAGE found) with doomed.
      rewrite Hdo. by left. }
    set_solver.
Qed.

Section leave.
Context {hex_crate : HexCrate} {crypto : Crypto} {json_value : JsonValue} {aead : Aead} {blake3 : Blake3Crate}.
Context `{!Json (@AccountSyncItem json_value)} `{!Json SealedAccountSyncItem} `{!Serde AccountSyncChangeV1}.
Context `{!Serde PrivateChannelEpochCapability} `{!Serde ChannelMembershipV1} `{!Serde PrivateChannelController} `{!Json PrivateChannelController}.
Context {W : Type} `{!ChannelService W} (env : Env) (me : Identity).
#[local] Abbreviation Call := (Prog (Device W)).

(** The loop ends with no key left. *)
Lemma delete_loop_done n id (d d' : Device W) :
  (size (keys_of id (channel_keys d)) < n)%nat -> delete_keys_loop n id d = (Ok tt, d') ->
  keys_of id (channel_keys d') = ∅ /\ channels (channel_keys d') = channels (channel_keys d).
Proof.
  revert d. induction n as [|n IH]; intros d Hn; [lia|]. cbn [delete_keys_loop].
  intros (es & d1 & Hes & Hrest)%prog_bind_inv. unfold delete_keys_page in Hes.
  pose proof (delete_page_spec id (channel_keys d)) as Hp. destruct (delete_private_channel_epochs id _ _) as [names m'].
  injection Hes as <- <-. destruct Hp as (Hc & Hsub & Hnil & Hlt). destruct names as [|x names].
  - injection Hrest as <-. cbn. destruct (Hnil eq_refl) as [Hk ->]. done.
  - apply prog_bind_inv in Hrest as ([] & d2 & Hcall & Hrest). unfold outside_call in Hcall. destruct (forget_replicas _ _).
    injection Hcall as _ <-. apply IH in Hrest; [|cbn; specialize (Hlt ltac:(done)); lia]. destruct Hrest as [Hk Hch].
    split; [done|]. cbn in Hch. by rewrite Hch.
Qed.

Lemma delete_keys_done id (d d' : Device W) :
  delete_private_channel_keys id d = (Ok tt, d') ->
  keys_of id (channel_keys d') = ∅ /\ channels (channel_keys d') = channels (channel_keys d).
Proof.
  intros Hd. apply delete_loop_done in Hd; [done|]. apply Nat.lt_succ_r. rewrite <- (size_dom (epochs (channel_keys d))).
  apply subseteq_size. unfold keys_of. set_solver.
Qed.

Lemma forget_done a id (d d' : Device W) :
  forget_private_channel_keys a id d = (Ok tt, d') ->
  keys_of id (channel_keys d') = ∅ /\ channels (channel_keys d') = channels (channel_keys d).
Proof. intros ([] & d1 & Hd%delete_keys_done & Hrest)%prog_bind_inv. by injection Hrest as <-. Qed.

(** ** The row *)
Lemma find_put (f : PrivateChannelRow -> bool) (g : gmap string PrivateChannelRow) k r r' ks :
  g !! k = Some r -> f r' = true -> (forall k' x, g !! k' = Some x -> pc_channel_key x = k') ->
  List.find f (omap (fun k => g !! k) ks) = Some r -> List.find f (omap (fun k' => <[k := r']> g !! k') ks) = Some r'.
Proof.
  intros Hk Hr' Hwf. induction ks as [|k' ks IH]; [done|]. simpl. destruct (decide (k' = k)) as [->|Hne].
  - rewrite lookup_insert_eq, Hk. simpl. by rewrite Hr'.
  - rewrite lookup_insert_ne by done. destruct (g !! k') as [x|] eqn:Hx; [|done]. simpl. destruct (f x); [|done].
    intros [= ->]. destruct Hne. rewrite <- (Hwf k' r Hx). by apply Hwf.
Qed.

Lemma by_id_put m id r r' es :
  rows_keyed m -> get_private_channel_by_id m id = Some r -> pc_channel_key r' = pc_channel_key r -> pc_channel_id r' = id ->
  get_private_channel_by_id (put_private_channel r' es m) id = Some r'.
Proof.
  intros Hwf Hr Hk Hid. destruct (found_row m id r Hr) as [_ [k Hin]]. destruct (Hwf k r Hin) as [Hkey _].
  unfold get_private_channel_by_id, channel_rows in *. rewrite put_channels, Hk, Hkey.
  replace (dom (<[k := r']> (channels m))) with (dom (channels m)).
  - apply (find_put _ _ k r); [done | by apply bool_decide_eq_true | | done]. intros k' x Hx. by destruct (Hwf k' x Hx).
  - symmetry. apply dom_insert_lookup_L. by eexists.
Qed.

Lemma by_id_channels m m' id : channels m' = channels m -> get_private_channel_by_id m' id = get_private_channel_by_id m id.
Proof. intros Hc. unfold get_private_channel_by_id, channel_rows. by rewrite Hc. Qed.

(** A leave that is only copied. *)
Lemma tombstone_done s i x (d d' : Device W) :
  tombstone_private_channel env me s (Some i) d = (Ok x, d') ->
  channel_keys d' = put_private_channel (private_channel_row s false (updated_at i, op_id i)) [] (channel_keys d).
Proof.
  unfold tombstone_private_channel. intros ([j w] & d1 & [= <- <- <-] & Hr)%prog_bind_inv.
  apply prog_bind_inv in Hr as ([] & d2 & [= <-] & Hr). apply prog_bind_inv in Hr as ([] & d3 & [= <-] & Hr).
  apply prog_bind_inv in Hr as (g & d4 & Hg & Hr). apply prog_bind_inv in Hg as (m & d5 & [= <- <-] & Hg).
  apply prog_bind_inv in Hg as ([] & d6 & [= <-] & Hg). injection Hg as _ <-. by injection Hr as _ <-.
Qed.

Lemma record_leave_done s x (d d' : Device W) :
  record_private_channel_leave me s x d = (Ok tt, d') -> channel_keys d' = channel_keys d.
Proof.
  unfold record_private_channel_leave. intros (o & d1 & Ho & Hr)%prog_bind_inv. unfold outside_get in Ho. injection Ho as _ <-.
  unfold outside_call in Hr. destruct (record_private_channel_participant _ _ _ _ _). by injection Hr as _ <-.
Qed.

(** What a leave from another device does. *)
Lemma merge_leave_done c i (d d' : Device W) :
  rows_keyed (channel_keys d) ->
  merge_leave env me c i (get_private_channel_by_id (channel_keys d) c) d = (Ok tt, d') ->
  keys_of c (channel_keys d') = ∅
  /\ (forall r, get_private_channel_by_id (channel_keys d') c = Some r -> pc_joined r = false).
Proof.
  intros Hwf. unfold merge_leave. destruct (get_private_channel_by_id (channel_keys d) c) as [r|] eqn:Hr.
  2: { intros [Hk Hc]%delete_keys_done. split; [done|]. by rewrite (by_id_channels _ _ _ Hc), Hr. }
  destruct (found_row _ _ _ Hr) as [Hid [k Hk]]. destruct (Hwf k r Hk) as [Hk1 Hk2].
  intros ([] & d1 & Hrow & Hf%forget_done)%prog_bind_inv. rewrite Hid in Hf. destruct Hf as [Hkeys Hch]. split; [done|].
  rewrite (by_id_channels _ _ _ Hch). destruct (pc_joined r) eqn:Hj; [|injection Hrow as <-; intros r' Hr'; congruence].
  apply prog_bind_inv in Hrow as (o & d2 & [= <- <-] & Hrow). apply prog_bind_inv in Hrow as (o & d2 & Ho & Hrow). injection Ho as Ho <-.
  destruct o as [s|].
  - apply prog_bind_inv in Hrow as (x & d3 & Ht%tombstone_done & Hl%record_leave_done).
    destruct (state_of_row me r (channel_keys d) s Ho) as (Hst & Hsc & _).
    intros r'. rewrite Hl, Ht, (by_id_put _ _ r); [by intros [= <-] | done | done | cbn; congruence | cbn; congruence].
  - injection Hrow as <-. intros r'. cbn [channel_keys set_channel_keys]. rewrite (by_id_put _ _ r); [by intros [= <-] | done | done | done | done].
Qed.

Lemma left_epoch_ignored c e j at_ (d : Device W) row :
  get_account_sync_row (ledger d) (docs_key (ChannelMembership c)) = Some row -> row_value row = None -> row_updated_at row = at_ ->
  updated_at j <= at_ -> (merge_channel_epoch env me c e j d).2 = d.
Proof.
  intros Hrow Hv Ha Hle. unfold merge_channel_epoch, lift at 1, mbind at 1, prog_bind at 1. destruct (item_value _ _ _) as [cap|]; [|done].
  cbv beta iota. unfold lift at 1, mbind at 1, prog_bind at 1. destruct (ensure _ _); [|done]. cbv beta iota.
  unfold left_since, get at 1, mbind at 1, prog_bind at 1. cbv beta iota. rewrite Hrow, Hv, bool_decide_eq_true_2 by done.
  subst at_. by apply Z.leb_le in Hle as ->.
Qed.

(** C14: A leave taken from another device of the account ends the membership on this one:
    when merging it succeeded and the ledger shows it, the channel's row is not joined, no
    key of any of its epochs is left (however many pages of keys there were), and a key item
    that is not newer than the leave changes nothing, whenever it arrives again. *)
Theorem leave_forgets_keys c i b (d d' : Device W) :
  rows_keyed (channel_keys d) -> AccountSyncItem.key i = ChannelMembership c -> AccountSyncItem.value i = None ->
  merge_channel_membership env me c i d = (Ok b, d') ->
  get_account_sync_row (ledger d') (docs_key (ChannelMembership c)) = Some (row_of i) ->
  (forall e, get_private_channel_epoch (channel_keys d') c e = None)
  /\ (forall r, get_private_channel_by_id (channel_keys d') c = Some r -> pc_joined r = false)
  /\ forall e j, updated_at j <= updated_at i -> (merge_channel_epoch env me c e j d').2 = d'.
Proof.
  intros Hwf Hk Hv Hm Hrow. assert (Hleft : keys_of c (channel_keys d') = ∅
    /\ forall r, get_private_channel_by_id (channel_keys d') c = Some r -> pc_joined r = false).
  { unfold merge_channel_membership in Hm. rewrite Hv in Hm. apply prog_bind_inv in Hm as (ms & d1 & [= <- <-] & Hm).
    apply prog_bind_inv in Hm as (adopted & d2 & Ha & Hm). assert (Hkeys : channel_keys d2 = channel_keys d).
    { unfold adopt in Ha. destruct (adopt_account_sync_row _ _). by injection Ha as _ <-. }
    apply prog_bind_inv in Hm as (held & d3 & Hh & Hm).
    assert (d3 = d2 /\ held = adopted || holds_account_sync_item i d2) as [-> Hheld] by (destruct adopted; by injection Hh as <- <-).
    destruct held; cbn [negb] in Hm.
    - apply prog_bind_inv in Hm as (row & d4 & [= <- <-] & Hm). apply prog_bind_inv in Hm as ([] & d5 & Hl & Hm). injection Hm as _ <-.
      apply merge_leave_done in Hl; [done | by rewrite Hkeys].
    - injection Hm as _ <-. symmetry in Hheld. apply orb_false_iff in Hheld as [_ Hheld]. unfold holds_account_sync_item in Hheld.
      rewrite Hk, Hrow in Hheld. cbn in Hheld. by rewrite Z.eqb_refl, bool_decide_eq_true_2 in Hheld. }
  destruct Hleft as [Hkeys Hj]. split_and!; [|done|].
  - intros e. unfold get_private_channel_epoch. destruct (epochs (channel_keys d') !! (c, e)) as [x|] eqn:He; [|done]. exfalso.
    assert (Hin : (c, e) ∈ keys_of c (channel_keys d')) by (apply elem_of_filter; split; [done | by eapply elem_of_dom_2]).
    rewrite Hkeys in Hin. set_solver.
  - intros e j Hle. eapply left_epoch_ignored; [exact Hrow | cbn; by rewrite Hv | reflexivity | done].
Qed.
End leave.
