(* ===== verification/AccountSyncDemo.v ===== *)
(** * A concrete account for the account sync theorems

    Instances of the library interfaces that satisfy their laws, and the theorems about
    account sync and private channels applied to concrete devices.  The cipher only adds a
    tag, keys are their own digests; the JSON of a record is the list of its fields, each
    ended by a comma. *)
From S2P Require Import Prelude RustStr Envelope Replicas ReplicasProps TimeIndex AccountSyncItem AccountSyncItemProps ChannelSeal AccountSyncStore AccountSyncStoreProps AccountSyncCycle ChannelKeyStore Calls AccountSync AccountSyncMerge ChannelRows ChannelRotation ChannelMerge AccountSyncFetch AccountSyncResend AccountSyncReplica AccountSyncFetchInv AccountSyncFetchProps AccountSyncFetchLive ChannelMergeProps ChannelHandoff ChannelHandoffRun ChannelHandoffProps ChannelLeaveProps.

(** ** Encodings *)
Fixpoint escape (s : string) : string :=
  match s with
  | EmptyString => EmptyString
  | String a s => if decide (a = ","%char \/ a = "\"%char) then String "\" (String a (escape s)) else String a (escape s)
  end.

Definition joined_fields (l : list string) : string := foldr (fun f acc => escape f ++s "," ++s acc) EmptyString l.

Fixpoint read_fields (cur : string) (s : string) : list string :=
  match s with
  | EmptyString => []
  | String a s =>
      if decide (a = ","%char) then cur :: read_fields EmptyString s
      else if decide (a = "\"%char) then match s with String b s => read_fields (cur ++s String b "") s | EmptyString => [] end
      else read_fields (cur ++s String a "") s
  end.

Lemma read_escaped f cur rest : read_fields cur (escape f ++s "," ++s rest) = (cur ++s f) :: read_fields EmptyString rest.
Proof.
  revert cur. induction f as [|a f IH]; intros cur.
  - simpl. by rewrite str_app_nil.
  - simpl. case_decide as Ha.
    + simpl. rewrite IH. f_equal. by rewrite str_app_assoc.
    + simpl. rewrite decide_False, decide_False by tauto. rewrite IH. f_equal. by rewrite str_app_assoc.
Qed.

Lemma read_joined l : read_fields EmptyString (joined_fields l) = l.
Proof.
  induction l as [|f l IH]; [done|]. change (joined_fields (f :: l)) with (escape f ++s "," ++s joined_fields l).
  by rewrite read_escaped, IH.
Qed.

Fixpoint digits_of (p : positive) : string :=
  match p with xI p => String "1" (digits_of p) | xO p => String "0" (digits_of p) | xH => EmptyString end.
Fixpoint of_digits (s : string) : positive :=
  match s with
  | EmptyString => xH
  | String a s => if decide (a = "1"%char) then xI (of_digits s) else xO (of_digits s)
  end.
Lemma of_digits_of p : of_digits (digits_of p) = p.
Proof. induction p as [p IH|p IH|]; simpl; [by rewrite IH.. | done]. Qed.

(** Numbers and optional texts as fields. *)
Definition num (z : Z) : string := digits_of (encode z).
Definition of_num (s : string) : option Z := decode (of_digits s).
Lemma of_num_num z : of_num (num z) = Some z.
Proof. unfold of_num, num. by rewrite of_digits_of, decode_encode. Qed.

Definition opt (o : option string) : string := match o with Some s => String "s" s | None => EmptyString end.
Definition of_opt (s : string) : option string := match s with String _ s => Some s | EmptyString => None end.
Lemma of_opt_opt o : of_opt (opt o) = o.
Proof. by destruct o. Qed.

Definition record_json {T} (fields : T -> list string) (parse : list string -> option T) : Json T :=
  {| to_json x := joined_fields (fields x); from_json s := parse (read_fields EmptyString s) |}.
Lemma record_json_laws {T} (fields : T -> list string) parse :
  (forall x, parse (fields x) = Some x) -> @JsonLaws T (record_json fields parse).
Proof. intros Hp. constructor. intros x. cbn. by rewrite read_joined. Qed.

#[local] Instance demo_value : JsonValue := {| Value := string; value_to_string := fun v => v; value_from_str := Some |}.
#[local] Instance json_serde {T} `{!Json T} : Serde T := {| to_value := to_json; from_value := from_json |}.
#[local] Instance json_serde_laws {T} `{!Json T, !JsonLaws T} : SerdeLaws T.
Proof. constructor. apply from_to_json. Qed.

Definition key_fields (k : AccountSyncItemKey) : string * string * string :=
  match k with
  | Profile => ("p", "", "") | TrustAlwaysVisible a => ("t", a, "") | ChannelCapability c e => ("e", c, e)
  | ChannelMembership c => ("m", c, "") | ChannelController c => ("c", c, "") | ChannelRotationRequest c => ("r", c, "")
  | ChannelControllerRequest c => ("q", c, "") | ChannelParticipant c p => ("a", c, p) | ParticipantFollow s t => ("f", s, t)
  | OwnFollow t => ("F", t, "") | OwnBlock t => ("B", t, "") | FollowerEdge s => ("E", s, "")
  | ChangeSlot d n => ("s", d, num n) | ChangeHead d => ("h", d, "")
  end.
Definition parse_key (tag a b : string) : option AccountSyncItemKey :=
  match tag with
  | String "p" _ => Some Profile | String "t" _ => Some (TrustAlwaysVisible a) | String "e" _ => Some (ChannelCapability a b)
  | String "m" _ => Some (ChannelMembership a) | String "c" _ => Some (ChannelController a) | String "r" _ => Some (ChannelRotationRequest a)
  | String "q" _ => Some (ChannelControllerRequest a) | String "a" _ => Some (ChannelParticipant a b)
  | String "f" _ => Some (ParticipantFollow a b) | String "F" _ => Some (OwnFollow a) | String "B" _ => Some (OwnBlock a)
  | String "E" _ => Some (FollowerEdge a) | String "s" _ => n ← of_num b; Some (ChangeSlot a n) | String "h" _ => Some (ChangeHead a)
  | _ => None
  end.

#[local] Instance demo_item_json : Json AccountSyncItem :=
  record_json (fun i => let '(tag, a, b) := key_fields (AccountSyncItem.key i) in
                        [tag; a; b; op_id i; num (updated_at i); opt (AccountSyncItem.value i)])
    (fun l => match l with
              | [tag; a; b; op; t; v] =>
                  k ← parse_key tag a b; t ← of_num t;
                  Some {| AccountSyncItem.key := k; op_id := op; updated_at := t; AccountSyncItem.value := of_opt v |}
              | _ => None
              end).
#[local] Instance demo_item_laws : JsonLaws AccountSyncItem.
Proof. apply record_json_laws. intros [k op t v]. destruct k; cbn; by rewrite ?of_num_num; cbn; rewrite ?of_num_num; cbn; rewrite of_opt_opt. Qed.

#[local] Instance demo_sealed_json : Json SealedAccountSyncItem :=
  record_json (fun s => [num (sealed_v s); nonce_hex s; ciphertext_hex s])
    (fun l => match l with [v; n; c] => v ← of_num v; Some {| sealed_v := v; nonce_hex := n; ciphertext_hex := c |} | _ => None end).
#[local] Instance demo_sealed_laws : JsonLaws SealedAccountSyncItem.
Proof. apply record_json_laws. intros [v n c]. cbn. by rewrite of_num_num. Qed.

#[local] Instance demo_change_json : Json AccountSyncChangeV1 :=
  record_json (fun c => [num (ch_seq c); ch_docs_key c])
    (fun l => match l with [s; k] => s ← of_num s; Some {| ch_seq := s; ch_docs_key := k |} | _ => None end).
#[local] Instance demo_change_laws : JsonLaws AccountSyncChangeV1.
Proof. apply record_json_laws. intros [s k]. cbn. by rewrite of_num_num. Qed.

#[local] Instance demo_controller_json : Json PrivateChannelController :=
  record_json (fun c => [ctl_device c; num (ctl_generation c); opt (ctl_transfer_to c)])
    (fun l => match l with
              | [d; g; t] => g ← of_num g; Some {| ctl_device := d; ctl_generation := g; ctl_transfer_to := of_opt t |}
              | _ => None
              end).
#[local] Instance demo_controller_laws : JsonLaws PrivateChannelController.
Proof. apply record_json_laws. intros [d g t]. cbn. by rewrite of_num_num; cbn; rewrite of_opt_opt. Qed.

#[local] Instance demo_capability_json : Json PrivateChannelEpochCapability :=
  record_json (fun c => [cap_epoch_id c; cap_secret_hex c])
    (fun l => match l with [e; s] => Some {| cap_epoch_id := e; cap_secret_hex := s |} | _ => None end).
#[local] Instance demo_membership_json : Json ChannelMembershipV1 :=
  record_json (fun m => [ms_topic_id m; ms_label m; ms_creator m; ms_owner m; opt (ms_joined_via m); audience_name (ms_audience m); ms_current_epoch m])
    (fun l => match l with
              | [t; n; c; o; v; a; e] =>
                  a ← audience_from_name a;
                  Some {| ms_topic_id := t; ms_label := n; ms_creator := c; ms_owner := o; ms_joined_via := of_opt v; ms_audience := a; ms_current_epoch := e |}
              | _ => None
              end).
#[local] Instance demo_rotation_request_json : Json ChannelRotationRequestV1 :=
  record_json (fun q => [rr_from_epoch q]) (fun l => match l with [e] => Some {| rr_from_epoch := e |} | _ => None end).
#[local] Instance demo_controller_request_json : Json ChannelControllerRequestV1 :=
  record_json (fun q => [cr_to_device q; num (cr_generation q)])
    (fun l => match l with [d; g] => g ← of_num g; Some {| cr_to_device := d; cr_generation := g |} | _ => None end).
#[local] Instance demo_participant_json : Json ChannelParticipantV1 :=
  record_json (fun p => [cp_epoch_id p; num (cp_joined_at p); opt (num <$> cp_left_at p)])
    (fun l => match l with
              | [e; j; x] => j ← of_num j; Some {| cp_epoch_id := e; cp_joined_at := j; cp_left_at := of_opt x ≫= of_num |}
              | _ => None
              end).
#[local] Instance demo_status_json : Json EdgeStatus :=
  record_json (fun s => [match s with EdgeActive => "a" | EdgeRevoked => "r" end])
    (fun l => match l with ["a"] => Some EdgeActive | ["r"] => Some EdgeRevoked | _ => None end).

(** ** Libraries *)
#[local] Instance demo_crypto2 : Crypto := {|
  Keys := string; Digest := string; Signature := string; XOnlyPublicKey := string;
  public_key_hex k := k; sign_schnorr k d := (k ++s d)%string; sha256_digest s := s; Envelope.hex_encode d := d;
  signature_from_str s := Some s;
  public_key_from_str s := if (String.length s =? 64)%nat && str_all is_ascii_hexdigit s then Some s else None;
  schnorr_verify s d p := bool_decide (s = p ++s d)%string; canonical_json p t k ts c := (p ++s k ++s c)%string
|}.
#[local] Instance demo_pubkey_laws : PubkeyLaws.
Proof.
  constructor. intros s p Hs. cbn in Hs. destruct (_ && _) eqn:E; [|done]. apply andb_prop in E as [Hl Ha]. split; [by apply Nat.eqb_eq | done].
Qed.

#[local] Instance demo_blake3 : Blake3Crate := {| blake3_hash s := s; blake3_keyed k s := (k ++s s)%string |}.

Definition tag16 : string := "0123456789abcdef".
(** [usable] are the associated data the cipher is used with. *)
Definition demo_aead (usable : string -> bool) : Aead := {|
  aead_encrypt key nonce aad p := if usable aad then Some (tag16 ++s p)%string else None;
  aead_decrypt key nonce aad c := if usable aad then strip_prefix tag16 c else None
|}.
Lemma demo_aead_laws usable : @AeadLaws (demo_aead usable).
Proof.
  constructor; cbn [aead_encrypt aead_decrypt demo_aead]; intros key nonce aad; destruct (usable aad); [|done| |done].
  - intros c p. rewrite strip_prefix_some. split; [by intros -> | by intros [= <-]].
  - intros p c [= <-]. cbn. lia.
Qed.

Fixpoint repeat_char (a : ascii) (n : nat) : string := match n with O => EmptyString | S n => String a (repeat_char a n) end.
Lemma repeat_char_length a n : String.length (repeat_char a n) = n.
Proof. induction n; simpl; congruence. Qed.

Definition demo_env : Env :=
  {| clock n := 1000 + Z.of_nat n; random_bytes n len := repeat_char "r" len; docs_write_ok _ := true; discovery_ok _ := true |}.
Lemma demo_random n len : String.length (random_bytes demo_env n len) = len.
Proof. apply repeat_char_length. Qed.

Definition demo_account : string := repeat_char "a" 64.
Definition demo_keys : AccountSyncKeys :=
  {| sync_replica_id := "account"; hint_topic := "hint"; namespace_secret := "n"; payload_key := "k"; pairing_key := "p" |}.
Definition demo_me : Identity :=
  {| id_account := demo_account; id_keys := demo_keys; id_row_seal := {| seal_account := demo_account; seal_key := "row" |};
     id_docs_author := Some "author"; id_device := "a" |}.

(** ** The other parts of the service *)
#[local] Instance demo_channels : ChannelService ChannelMemory := {|
  channel_memory w := w; with_channel_memory f w := f w; install_private_epoch_secrets := mret tt;
  hold_joined_private_channel _ _ := mret true; release_scope_holder _ w := w; restart_scope_subscription _ _ w := w;
  fetch_own_participant _ _ := Ok None; record_private_channel_participant _ _ _ _ := mret tt; forget_replicas _ := mret tt
|}.
#[local] Instance demo_epochs : EpochService ChannelMemory := {|
  publish_rotated_epoch _ _ _ := mret tt; list_private_channel_participants _ _ _ _ := Ok []; distribute_epoch_handoff_grant _ _ _ _ := mret tt;
  export_secret_hex r := Replicas.hex_encode r; joined_private_channel_view_for_state _ _ := Ok tt
|}.
#[local] Instance demo_participants : ParticipantService ChannelMemory := {|
  has_private_channel_participant _ _ _ := Ok false; put_private_channel_participant _ := mret true; follow_edge _ _ _ := Ok None;
  account_peers _ := ["a"; "b"]
|}.

Definition empty_memory : ChannelMemory := {| joined_private_channels := ∅; content_scope_generation := 0; rows_changed := false |}.
Definition empty_replica : MemoryReplica := {| records := ∅; own_author := Some "author"; records_utf8 := eq_refl |}.
Definition empty_status : AccountSyncStatus :=
  {| st_no_peers := false; st_fetch_failed := false; st_behind := false; st_pending_writes := false; st_rebuilding := false |}.
Definition empty_device : Device ChannelMemory :=
  {| ledger := empty_ledger; channel_keys := empty_channel_keys; replica := empty_replica; failed := ∅; no_candidates := false;
     last_status := empty_status; summary_marks := 0; asked := 0; outside := empty_memory |}.

(** ** Seals *)

(** A sealed item opens as itself; the cipher is used for this item only. *)
Definition demo_trust : AccountSyncItem :=
  {| AccountSyncItem.key := TrustAlwaysVisible demo_account; op_id := repeat_char "0" 32; updated_at := 5; AccountSyncItem.value := Some "true" |}.
Definition one_item (aad : string) : bool := bool_decide (aad = item_aad demo_account (docs_key (AccountSyncItem.key demo_trust))).
Lemma one_item_binding : @AeadBinding (demo_aead one_item).
Proof.
  constructor. cbn. unfold one_item. intros key nonce aad aad' p p' c. repeat case_bool_decide; congruence.
Qed.
Definition demo_sealed : SealedAccountSyncItem :=
  {| sealed_v := 1; nonce_hex := Replicas.hex_encode (repeat_char "r" 24);
     ciphertext_hex := Replicas.hex_encode (tag16 ++s to_json demo_trust)%string |}.

Lemma sealed_item_opens_as_itself_witness :
  @open _ _ _ (demo_aead one_item) _ demo_keys demo_account (docs_key (AccountSyncItem.key demo_trust)) demo_sealed = Ok demo_trust.
Proof.
  apply (@sealed_item_opens_as_itself _ _ _ _ _ _ _ (demo_aead one_item) (demo_aead_laws one_item) one_item_binding
           demo_keys (repeat_char "r" 24) demo_account demo_trust demo_sealed);
    [reflexivity | vm_compute; reflexivity | vm_compute; reflexivity | vm_compute; reflexivity | done].
Defined.

Lemma item_key_roundtrip_witness :
  from_docs_key "channel/63/epoch/6531" = Ok (ChannelCapability "c" "e1") /\ from_docs_key "channel/63/epoch/653" = Err "invalid hex".
Proof.
  split; [|vm_compute; reflexivity].
  apply item_key_roundtrip. split_and!; vm_compute; reflexivity.
Defined.

(** ** The ledger *)
Definition demo_row (op : string) (t : Z) : AccountSyncRow := {| row_key := "profile"; row_op_id := op; row_updated_at := t; row_value := Some op |}.
Lemma ledger_converges_witness :
  sync_rows (adopt_all [demo_row "x" 1; demo_row "y" 2] empty_ledger) = sync_rows (adopt_all [demo_row "y" 2; demo_row "x" 1; demo_row "y" 2] empty_ledger).
Proof.
  apply (ledger_converges empty_ledger [demo_row "x" 1; demo_row "y" 2] [demo_row "y" 2; demo_row "x" 1; demo_row "y" 2]); [|intros r; set_solver].
  intros k r r' Hr Hr' Hv. unfold offered in Hr, Hr'. cbn in Hr, Hr'.
  repeat match goal with
  | H : _ \/ _ |- _ => destruct H
  | H : _ /\ _ |- _ => destruct H
  | H : ∅ !! _ = Some _ |- _ => by rewrite lookup_empty in H
  | H : _ ∈ [] |- _ => by apply not_elem_of_nil in H
  | H : _ ∈ _ :: _ |- _ => apply elem_of_cons in H
  end; subst; try done.
Defined.

(** ** Fetching *)
#[local] Instance demo_cipher : Aead := demo_aead (fun _ => true).
#[local] Instance demo_cipher_laws : AeadLaws := demo_aead_laws (fun _ => true).

#[local] Instance demo_envelope_json : Json KukuriEnvelope :=
  record_json (fun e => [env_id e; pubkey e; num (Envelope.created_at e); env_kind e; joined_fields (map joined_fields (tags e)); content e; sig e])
    (fun l => match l with
              | [i; p; t; k; g; c; s] =>
                  t ← of_num t;
                  Some {| env_id := i; pubkey := p; Envelope.created_at := t; env_kind := k;
                          tags := map (read_fields EmptyString) (read_fields EmptyString g); content := c; sig := s |}
              | _ => None
              end).
Definition demo_edge_json tag : Json (EdgeContent tag) :=
  record_json (fun e => [ec_subject e; ec_target e; to_json (ec_status e)])
    (fun l => match l with [s; t; x] => x ← from_json x; Some {| ec_subject := s; ec_target := t; ec_status := x |} | _ => None end).
#[local] Instance demo_follow_json : Json (EdgeContent FollowTag) := demo_edge_json FollowTag.
#[local] Instance demo_block_json : Json (EdgeContent BlockTag) := demo_edge_json BlockTag.
#[local] Instance demo_profile_json : Json (ProfileContent string) :=
  record_json (fun p => [pr_author p])
    (fun l => match l with
              | [a] => Some {| pr_author := a; pr_name := None; pr_display_name := None; pr_about := None; pr_picture := None; pr_nip05 := None |}
              | _ => None
              end).
#[local] Instance demo_social : Social ChannelMemory := {|
  my_profile_updated_at _ := Ok 0; commit_my_profile _ := mret tt; get_follow_edge _ _ _ := Ok None; get_block_edge _ _ _ := Ok None;
  commit_own_follow_edge _ := mret true; commit_own_block_edge _ := mret true; put_envelope _ := mret tt; relationship_changed _ w := w
|}.

Definition demo_merge (env : Env) : AccountSyncItem -> Prog (Device ChannelMemory) bool :=
  account_merge (Asset := string) env demo_me "true" demo_account.
Lemma demo_merge_laws env : MergeLaws (demo_merge env).
Proof. exact (account_merge_laws (Asset := string) env demo_me "true" demo_account). Qed.

(** The device [w] writes an item, the device [a] fetches. *)
Definition demo_writer : Device ChannelMemory := (try_write_account_sync_item demo_env (on_device demo_me "w") demo_trust empty_device).2.
Definition demo_fetch (r : Device ChannelMemory) : result string bool * Device ChannelMemory :=
  account_sync_fetch_step demo_env demo_me (demo_merge demo_env) (fun _ => replica demo_writer) "w" "a" r.
Fixpoint fetched (n : nat) (r : Device ChannelMemory) : Device ChannelMemory := match n with O => r | S n => fetched n (demo_fetch r).2 end.

#[local] Abbreviation demo_sync_run := (sync_run demo_me "w" demo_merge "a").

Definition demo_half : gset string := ∅ ∖ {[docs_key (AccountSyncItem.key demo_trust)]}.
Lemma fetched_run n r : demo_sync_run 1%nat demo_half demo_writer r -> demo_sync_run 1%nat demo_half demo_writer (fetched n r).
Proof.
  revert r. induction n as [|n IH]; intros r Hr; [exact Hr|]. apply IH.
  exact (run_fetch demo_me "w" demo_merge "a" 1 demo_half demo_env demo_writer r (demo_fetch r).2 (demo_fetch r).1 Hr (surjective_pairing (demo_fetch r))).
Qed.

Lemma demo_written : try_write_account_sync_item demo_env (on_device demo_me "w") demo_trust empty_device = (Ok tt, demo_writer).
Proof.
  rewrite (surjective_pairing (try_write_account_sync_item _ _ _ _)). unfold demo_writer.
  replace (try_write_account_sync_item demo_env (on_device demo_me "w") demo_trust empty_device).1 with (@Ok string unit tt)
    by (vm_compute; reflexivity). reflexivity.
Qed.

Lemma demo_run n : demo_sync_run 1%nat demo_half demo_writer (fetched n empty_device).
Proof.
  apply fetched_run. apply (run_write demo_me "w" demo_merge "a" 0 ∅ demo_env empty_device demo_writer empty_device demo_trust); [|exact demo_random | reflexivity | reflexivity | exact demo_written].
  apply run_start; reflexivity.
Qed.

Lemma fetch_leaves_nothing_behind_witness :
  holds_version (ledger (demo_fetch (fetched 4 empty_device)).2) (docs_key (TrustAlwaysVisible demo_account)) (5, repeat_char "0" 32).
Proof.
  refine (fetch_leaves_nothing_behind demo_me "w" demo_merge demo_merge_laws "a" 1 demo_half demo_writer (fetched 4 empty_device) demo_env
            (demo_fetch (fetched 4 empty_device)).2 (docs_key (TrustAlwaysVisible demo_account)) demo_trust (demo_run 4) _ _ _ _ _ _).
  - lia.
  - change (demo_fetch (fetched 4 empty_device) = (Ok false, (demo_fetch (fetched 4 empty_device)).2)).
    rewrite (surjective_pairing (demo_fetch (fetched 4 empty_device))) at 1.
    replace (demo_fetch (fetched 4 empty_device)).1 with (@Ok string bool false) by (vm_compute; reflexivity). reflexivity.
  - vm_compute. reflexivity.
  - reflexivity.
  - vm_compute. reflexivity.
  - unfold demo_half. set_solver.
Defined.

Lemma changes_prefix k : starts_with "changes/" (docs_key k) = true -> merge_key k = false.
Proof. by destruct k. Qed.
(** The writer shows one item, and its merge does not fail. *)
Lemma demo_shows i :
  stored demo_me (replica demo_writer) (docs_key (AccountSyncItem.key i)) = Some i -> merge_key (AccountSyncItem.key i) = true -> i = demo_trust.
Proof.
  intros Hi Hm. destruct (stored_key _ _ _ _ Hi) as (_ & _ & [v Hv]%elem_of_dom).
  assert (Hall : forallb (fun kv => bool_decide (kv.1 = docs_key (AccountSyncItem.key demo_trust)) || starts_with "changes/" kv.1)
            (map_to_list (records (replica demo_writer))) = true) by by_vm.
  rewrite forallb_forall in Hall. specialize (Hall (docs_key (AccountSyncItem.key i), v)). cbn in Hall.
  rewrite <- list_elem_of_In, elem_of_map_to_list in Hall. specialize (Hall Hv). apply orb_prop in Hall as [Hk|Hk].
  - apply bool_decide_eq_true in Hk.
    assert (Hs : stored demo_me (replica demo_writer) (docs_key (AccountSyncItem.key i)) = Some demo_trust) by (rewrite Hk; by_vm). congruence.
  - clear -Hk Hm. pose proof (changes_prefix (AccountSyncItem.key i) Hk) as Hc. rewrite Hm in Hc. discriminate Hc.
Qed.
Lemma demo_trust_merges d e d' : demo_merge demo_env demo_trust d <> (Err e, d').
Proof.
  unfold demo_merge, account_merge, merge_account_sync_item, adopt, lift, mbind, prog_bind. cbn [AccountSyncItem.key demo_trust].
  destruct (adopt_account_sync_row _ _). by vm_compute.
Qed.

Lemma fetch_completes_witness :
  exists fuel r', fetch_loop demo_env demo_me (demo_merge demo_env) (fun _ => replica demo_writer) fuel "w" "a" empty_device = (Ok (Some tt), r')
    /\ holds_version (ledger r') (docs_key (TrustAlwaysVisible demo_account)) (5, repeat_char "0" 32).
Proof.
  destruct (fetch_completes demo_me "w" "a" demo_merge demo_merge_laws 1 demo_half demo_writer empty_device demo_env) as (fuel & res & r' & Hf & Hv).
  - exact (demo_run 0).
  - lia.
  - split; [intros x c Hc | intros x c n _ _ Hc]; cbn in Hc; by rewrite lookup_empty in Hc.
  - destruct res as [[[]|]|e]; [|destruct Hv|].
    + exists fuel, r'. split; [exact Hf|]. apply (Hv _ demo_trust); [vm_compute; reflexivity | reflexivity | vm_compute; reflexivity | unfold demo_half; set_solver].
    + destruct Hv as (i & d & d' & Hi & Hm & He). rewrite (demo_shows i Hi Hm) in He. destruct (demo_trust_merges _ _ _ He).
Defined.

(** ** A handoff *)
Definition rec (x : string) (g : Z) (to : option string) : PrivateChannelController := {| ctl_device := x; ctl_generation := g; ctl_transfer_to := to |}.
Definition demo_state : JoinedPrivateChannelState :=
  {| js_generation := 0; js_topic_id := "t"; js_channel_id := "c"; js_label := "label"; js_creator := demo_account; js_owner := demo_account;
     js_joined_via := None; js_audience := InviteOnly; js_current_epoch := "epoch-5-aaaaaaaa"; js_secret_hex := repeat_char "0" 64;
     js_controller := Some (rec "a" 1 None) |}.

(** The device [a] has made the channel. *)
Definition device_a : Device ChannelMemory := (register_joined_private_channel demo_env demo_me demo_state 5 empty_device).2.
Definition fleet0 : string -> Device ChannelMemory := fun x => if decide (x = "a"%string) then device_a else empty_device.

Definition channel_item_of (k : AccountSyncItemKey) (v : string) : AccountSyncItem :=
  {| AccountSyncItem.key := k; op_id := repeat_char "1" 32; updated_at := 5; AccountSyncItem.value := Some v |}.
Definition membership_i : AccountSyncItem := channel_item_of (ChannelMembership "c") (to_json (membership_value demo_state)).
Definition key_i : AccountSyncItem :=
  channel_item_of (ChannelCapability "c" "epoch-5-aaaaaaaa") (to_json {| cap_epoch_id := "epoch-5-aaaaaaaa"; cap_secret_hex := repeat_char "0" 64 |}).
Definition controller_i (c : PrivateChannelController) : AccountSyncItem := channel_item_of (ChannelController "c") (to_json c).
Definition request_i : AccountSyncItem := channel_item_of (ChannelControllerRequest "c") (to_json {| cr_to_device := "b"; cr_generation := 1 |}).

#[local] Abbreviation demo_about := (about_channel "t" "c").
Lemma membership_about shown : demo_about shown membership_i.
Proof. split; [done|]. intros v ms [= <-] Hms. vm_compute in Hms. by injection Hms as <-. Qed.
Lemma key_about shown : demo_about shown key_i.
Proof. done. Qed.
Lemma request_about shown : demo_about shown request_i.
Proof. done. Qed.
Lemma controller_about shown r : r ∈ shown -> demo_about shown (controller_i r).
Proof. intros Hr. split; [done|]. intros v r' _ [= <-] Hr'. change (from_json (to_json r) = Some r') in Hr'. rewrite from_to_json in Hr'. by injection Hr' as <-. Qed.

Lemma empty_rows_one : rows_one "t" "c" empty_channel_keys.
Proof. by split. Qed.

Lemma single_row_one m r :
  channels m = {["t::c"%string := r]} -> pc_channel_key r = "t::c"%string -> pc_topic_id r = "t"%string -> pc_channel_id r = "c"%string ->
  is_ok (controller_of (pc_controller r)) = true -> rows_one "t" "c" m.
Proof.
  intros Hm Hk Ht Hc Ho. split; rewrite Hm.
  - intros k x [<- <-]%lookup_singleton_Some. rewrite Ht, Hc. split; [exact Hk | reflexivity].
  - intros k x [<- <-]%lookup_singleton_Some _. reflexivity.
  - intros x [_ <-]%lookup_singleton_Some. split_and!; [exact Hc | exact Ht | exact Ho].
Qed.

Lemma created_a : created demo_me "t" "c" "a" fleet0.
Proof.
  split.
  - intros x. unfold fleet0. case_decide; [|exact empty_rows_one].
    apply (single_row_one _ (private_channel_row demo_state true (5, Replicas.hex_encode (repeat_char "r" 16)))); vm_compute; reflexivity.
  - vm_compute. reflexivity.
  - intros x Hx. unfold record_at, fleet0. rewrite decide_False by exact Hx. vm_compute. reflexivity.
  - intros x. unfold fleet0. case_decide; intros i Hi; [|vm_compute in Hi; discriminate].
    assert (Hs : stored (on_device demo_me x) (replica device_a) (docs_key (ChannelController "c"))
      = Some {| AccountSyncItem.key := ChannelController "c"; op_id := Replicas.hex_encode (repeat_char "r" 16); updated_at := 5;
                AccountSyncItem.value := Some (to_json (rec "a" 1 None)) |}) by (vm_compute; reflexivity).
    rewrite Hs in Hi. injection Hi as <-. intros v r _ [= <-] Hr. change (from_json (to_json (rec "a" 1 None)) = Some r) in Hr.
    rewrite from_to_json in Hr. injection Hr as <-. by left.
Qed.

(** The device [b] learns of the channel and its controller; [a] answers its request, and
    [b] takes over. *)
#[local] Abbreviation demo_perform := (perform demo_me (fun _ => demo_env) "t" "c").
#[local] Abbreviation demo_fleet_run := (fleet_run demo_me (fun _ => demo_env) "t" "c").

Definition fetched_by (x : string) (i : AccountSyncItem) (s : string -> Device ChannelMemory) : string -> Device ChannelMemory :=
  upd s x (merge_fetched_account_sync_item demo_env (on_device demo_me x) (merge_channel_item demo_env (on_device demo_me x)) i false (s x)).2.

Lemma run_fetched n s shown x i o :
  demo_about shown i -> record_at "t" "c" (fetched_by x i s) x = o -> demo_fleet_run n s shown ->
  demo_fleet_run (S n) (fetched_by x i s) (option_list o ++ shown)%list.
Proof.
  intros Hi <- Hr. pose proof (run_operation demo_me (fun _ => demo_env) "t" "c" n s shown x (FetchItem "t" "c" shown i Hi) Hr) as Hrun.
  replace (record_at "t" "c" (fetched_by x i s) x) with
    (cell_record (cell_of "t" "c" (demo_perform x (FetchItem "t" "c" shown i Hi) (s x)))); [exact Hrun|].
  unfold record_at, fetched_by, upd. rewrite decide_True by reflexivity. reflexivity.
Qed.

Definition fleet3 : string -> Device ChannelMemory :=
  fetched_by "b" (controller_i (rec "a" 1 None)) (fetched_by "b" key_i (fetched_by "b" membership_i fleet0)).
Definition fleet4 : string -> Device ChannelMemory := fetched_by "a" request_i fleet3.
Definition fleet5 : string -> Device ChannelMemory := fetched_by "b" (controller_i (rec "a" 1 (Some "b"))) fleet4.

Lemma handoff_run :
  demo_fleet_run 5 fleet5 [rec "b" 2 None; rec "a" 1 (Some "b"); rec "a" 1 None; rec "a" 1 None].
Proof.
  apply (run_fetched 4 _ [rec "a" 1 (Some "b"%string); rec "a" 1 None; rec "a" 1 None] "b" _ (Some (rec "b" 2 None)));
    [apply controller_about; by left | vm_compute; reflexivity |].
  apply (run_fetched 3 _ [rec "a" 1 None; rec "a" 1 None] "a" _ (Some (rec "a" 1 (Some "b"%string)))); [apply request_about | vm_compute; reflexivity |].
  apply (run_fetched 2 _ [rec "a" 1 None] "b" _ (Some (rec "a" 1 None))); [apply controller_about; by left | vm_compute; reflexivity |].
  apply (run_fetched 1 _ [rec "a" 1 None] "b" _ None); [apply key_about | vm_compute; reflexivity |].
  apply (run_fetched 0 _ [rec "a" 1 None] "b" _ None); [apply membership_about | vm_compute; reflexivity |].
  apply run_created. exact created_a.
Qed.

Definition prepared (x : string) (s : string -> Device ChannelMemory) : result string PrivateChannelRotation * Device ChannelMemory :=
  prepare_private_channel_rotation demo_env (on_device demo_me x) "t" "c" (s x).

Lemma one_controller_witness : is_ok (prepared "b" fleet5).1 = true /\ is_ok (prepared "a" fleet5).1 = false.
Proof.
  assert (Hb : is_ok (prepared "b" fleet5).1 = true) by (vm_compute; reflexivity). split; [exact Hb|].
  destruct (prepared "b" fleet5) as [[rotation|e] d'] eqn:E; [|discriminate Hb].
  exact (one_controller demo_me (fun _ => demo_env) "t" "c" (fun _ => demo_random) 5 fleet5 _ "b" "a" rotation d' handoff_run ltac:(lia) E ltac:(discriminate)).
Defined.

(** ** A leave *)
Definition leave_i : AccountSyncItem :=
  {| AccountSyncItem.key := ChannelMembership "c"; op_id := repeat_char "2" 32; updated_at := 9; AccountSyncItem.value := None |}.
Definition left_b : Device ChannelMemory := (merge_channel_membership demo_env (on_device demo_me "b") "c" leave_i (fleet5 "b")).2.

Lemma leave_forgets_keys_witness :
  get_private_channel_epoch (channel_keys (fleet5 "b")) "c" "epoch-5-aaaaaaaa" <> None
  /\ (merge_channel_epoch demo_env (on_device demo_me "b") "c" "epoch-5-aaaaaaaa" key_i left_b).2 = left_b.
Proof.
  split; [vm_compute; discriminate|].
  apply (leave_forgets_keys demo_env (on_device demo_me "b") "c" leave_i true (fleet5 "b") left_b).
  - destruct (run_cells demo_me (fun _ => demo_env) "t" "c" (fun _ => demo_random) 5 fleet5 _ handoff_run ltac:(lia)) as [Hrows _].
    exact (ro_key _ _ _ (proj1 (Hrows "b"%string))).
  - reflexivity.
  - reflexivity.
  - unfold left_b. rewrite (surjective_pairing (merge_channel_membership _ _ _ _ _)) at 1. f_equal.
  - vm_compute. reflexivity.
  - vm_compute. discriminate.
Defined.

(** ** Where the code falls short *)

(** A rotation that read the row before a stop and commits after it writes the old record
    back: both devices can make epochs. *)
Definition read_before : option JoinedPrivateChannelState :=
  match stored_private_channel_state demo_me "t::c" (channel_keys (fleet3 "a")) with Ok o => o | Err _ => None end.
Definition committed_after : Device ChannelMemory :=
  match read_before with
  | Some s => (commit_joined_private_channel_state demo_env demo_me (with_epoch "epoch-7-aaaaaaaa" (repeat_char "1" 64) s)
                 (Advance "epoch-5-aaaaaaaa") (fleet5 "a")).2
  | None => fleet5 "a"
  end.
Definition fleet6 : string -> Device ChannelMemory := upd fleet5 "a" committed_after.
Lemma stale_commit_gives_two_controllers :
  record_at "t" "c" fleet5 "a" = Some (rec "a" 1 (Some "b"%string)) /\ record_at "t" "c" fleet6 "a" = Some (rec "a" 1 None)
  /\ is_ok (prepared "a" fleet6).1 = true /\ is_ok (prepared "b" fleet6).1 = true.
Proof. split_and!; vm_compute; reflexivity. Qed.

(** A stop that is taken while the device is not joined is not activated later. *)
Definition rejoined_b : Device ChannelMemory :=
  let i := {| AccountSyncItem.key := ChannelMembership "c"; op_id := repeat_char "3" 32; updated_at := 10;
              AccountSyncItem.value := AccountSyncItem.value membership_i |} in
  let me_b := on_device demo_me "b" in
  let merge_b i d := (merge_channel_item demo_env me_b i d).2 in
  merge_b key_i (merge_b (controller_i (rec "a" 1 (Some "b"%string)))
    (merge_b i (merge_b (controller_i (rec "a" 1 (Some "b"%string))) (merge_b leave_i (fleet4 "b"))))).
Lemma late_stop_is_not_activated :
  cell_of "t" "c" rejoined_b = Some (true, Some (rec "a" 1 (Some "b"%string))).
Proof. vm_compute. reflexivity. Qed.

(** A write that stopped between the item and its change is only marked when it is sent
    again: no change announces it. *)
Definition stopping_env : Env :=
  {| clock n := 1000 + Z.of_nat n; random_bytes n len := repeat_char "r" len; docs_write_ok n := (n <? 4)%nat; discovery_ok _ := true |}.
Definition stopped_write : Device ChannelMemory := (publish_account_sync_item stopping_env demo_me demo_trust empty_device).2.
Definition sent_again : Device ChannelMemory := (resend_account_sync_items demo_env demo_me (fun _ => Ok None) 10 stopped_write).2.
Lemma stopped_write_is_never_announced :
  stored demo_me (replica sent_again) (docs_key (AccountSyncItem.key demo_trust)) = Some demo_trust
  /\ list_unwritten_account_sync_rows 10 (ledger sent_again) = [] /\ head_seq demo_me "a" (replica sent_again) = 0.
Proof. split_and!; vm_compute; reflexivity. Qed.

(** Such a write keeps its key among those that stopped half-way: a fetch reports that nothing
    is left, and the reader has not got the item. *)
Definition fetch_from (w : Device ChannelMemory) (r : Device ChannelMemory) : result string bool * Device ChannelMemory :=
  account_sync_fetch_step demo_env demo_me (demo_merge demo_env) (fun _ => replica w) "w" "a" r.
Definition up_to_date : Device ChannelMemory := Nat.iter 5 (fun r => (fetch_from empty_device r).2) empty_device.
Definition half_written : Device ChannelMemory := (try_write_account_sync_item stopping_env (on_device demo_me "w") demo_trust empty_device).2.
Lemma stopped_write_is_missed :
  demo_sync_run 0%nat (∅ ∪ {[docs_key (AccountSyncItem.key demo_trust)]}) half_written up_to_date
  /\ stored demo_me (replica half_written) (docs_key (AccountSyncItem.key demo_trust)) = Some demo_trust
  /\ (fetch_from half_written up_to_date).1 = Ok false
  /\ sync_rows (ledger (fetch_from half_written up_to_date).2) !! docs_key (AccountSyncItem.key demo_trust) = None.
Proof.
  split; [|split_and!; vm_compute; reflexivity].
  assert (Hstop : is_ok (try_write_account_sync_item stopping_env (on_device demo_me "w") demo_trust empty_device).1 = false) by (vm_compute; reflexivity).
  destruct (try_write_account_sync_item stopping_env (on_device demo_me "w") demo_trust empty_device) as [[[]|e] w'] eqn:E; [done|].
  apply (run_write_stopped demo_me "w" demo_merge "a" 0 ∅ stopping_env empty_device half_written up_to_date e demo_trust); [|by intros n len; apply repeat_char_length|done|done|by unfold half_written; rewrite E].
  unfold up_to_date. generalize 5%nat. intros n. induction n as [|n IH]; [by apply run_start|].
  exact (run_fetch demo_me "w" demo_merge "a" 0 ∅ demo_env empty_device _ _ _ IH (surjective_pairing (fetch_from empty_device _))).
Qed.

(** The cycle skips keys with upper-case digits below a full prefix. *)
Definition upper_key (n : nat) : string := docs_key (TrustAlwaysVisible (String "A" (repeat_char "0" (63 - n) ++s repeat_char "1" n))).
Definition upper_replica : MemoryReplica := foldl (fun m n => set_record (upper_key n) "x" m) empty_replica (seq 0 64).
Fixpoint cycle_reads (fuel : nat) (p : string) : option (list string) :=
  match fuel with
  | O => None
  | S fuel => match account_sync_cycle_keys (Some "author"%string) upper_replica p with
              | Ok (ks, None) => Some ks
              | Ok (ks, Some p') => rest ← cycle_reads fuel p'; Some (ks ++ rest)%list
              | Err _ => None
              end
  end.
Lemma cycle_skips_upper_case :
  is_ok (validate_key (TrustAlwaysVisible (String "A" (repeat_char "0" 63)))) = true
  /\ records upper_replica !! upper_key 0 = Some "x"%string
  /\ existsb (String.eqb (upper_key 0)) <$> cycle_reads 200 "profile" = Some false.
Proof. split; [vm_compute; reflexivity|]. split; vm_compute; reflexivity. Qed.

(** A cursor older than sixteen others is not kept. *)
Definition late_cursor (n : nat) : AccountSyncCursor :=
  {| cur_device := num (Z.of_nat n); cur_seq := 0; cur_head := 0; cycle_prefix := None; cycle_head := 0; cur_updated_at := 1000 |}.
Lemma older_cursor_is_lost :
  let m := foldl (fun m n => put_account_sync_cursor (late_cursor n) "a" m) empty_ledger (seq 0 16) in
  sync_cursors (put_account_sync_cursor (new_cursor "w" 1) "a" m) !! "w"%string = None.
Proof. vm_compute. reflexivity. Qed.
