(* ===== verification/DirectMessageStore.v ===== *)
(** * The store of direct messages (crates/store: models.rs, pagination.rs,
    memory/direct_messages.rs)

    A device keeps the messages of its conversations, a tombstone for each message it has
    deleted, one row per conversation, and an outbox: a row for every message that its peer
    has not acknowledged.  The outbox has five indexes beside its rows; a read goes through
    an index, and a page of a read names the cursor after which the next one starts. *)
From S2P Require Import Prelude RustStr.

(** ** Rows *)
Inductive DirectMessageAttachmentKind := Image | Video.

Record DirectMessageEncryptedBlobRefV1 := {
  ref_blob_id : string;
  ref_hash : string;
  ref_mime : string;
  ref_bytes : Z;
  ref_nonce_hex : string
}.

Record DirectMessageAttachmentManifestV1 := {
  attachment_id : string;
  attachment_kind : DirectMessageAttachmentKind;
  original : DirectMessageEncryptedBlobRefV1;
  poster : option DirectMessageEncryptedBlobRefV1
}.

Record DirectMessageConversationRow := {
  conv_dm_id : string;
  conv_peer_pubkey : string;
  conv_updated_at : Z;
  last_message_at : option Z;
  last_message_id : option string;
  last_message_preview : option string
}.

Record DirectMessageMessageRow := {
  msg_dm_id : string;
  msg_message_id : string;
  msg_sender_pubkey : string;
  msg_recipient_pubkey : string;
  msg_created_at : Z;
  msg_text : option string;
  msg_reply_to_message_id : option string;
  msg_attachment_manifest : option DirectMessageAttachmentManifestV1;
  msg_outgoing : bool;
  msg_acked_at : option Z
}.

Record DirectMessageOutboxRow := {
  ob_dm_id : string;
  ob_message_id : string;
  ob_peer_pubkey : string;
  ob_frame_blob_hash : string;
  ob_created_at : Z;
  ob_last_attempt_at : option Z
}.

Record DirectMessageTombstoneRow := { tomb_dm_id : string; tomb_message_id : string; tomb_deleted_at : Z }.

Definition DIRECT_MESSAGE_OUTBOX_PAGE_LIMIT : nat := 64.

Record DirectMessageOutboxCursor := { cur_created_at : Z; cur_message_id : string; cur_dm_id : string }.

(** [TimelineCursor]: its [object_id] holds a message id here. *)
Record TimelineCursor := { tc_created_at : Z; tc_object_id : string }.

(** ** The outbox and its indexes *)
#[local] Abbreviation RowKey := (string * string)%type.
Definition CreatedKey : Type := Z * (string * string).
Definition PeerKey : Type := string * (Z * (string * string)).
Definition NewKey : Type := Z * (string * (string * string)).
Definition RetryKey : Type := Z * (Z * (string * (string * string))).

Record MemoryDirectMessageOutboxRows := {
  rows : gmap RowKey DirectMessageOutboxRow;
  by_created : gset CreatedKey;
  by_peer : gset PeerKey;
  never_attempted : gset NewKey;
  attempted : gset RetryKey;
  by_dm : gmap string (gset string)
}.

Definition empty_outbox : MemoryDirectMessageOutboxRows :=
  {| rows := ∅; by_created := ∅; by_peer := ∅; never_attempted := ∅; attempted := ∅; by_dm := ∅ |}.

Definition row_key (r : DirectMessageOutboxRow) : RowKey := (ob_dm_id r, ob_message_id r).
Definition created_key (r : DirectMessageOutboxRow) : CreatedKey := (ob_created_at r, (ob_message_id r, ob_dm_id r)).
Definition peer_key (r : DirectMessageOutboxRow) : PeerKey :=
  (ob_peer_pubkey r, (ob_created_at r, (ob_message_id r, ob_dm_id r))).
Definition new_key (r : DirectMessageOutboxRow) : NewKey :=
  (ob_created_at r, (ob_message_id r, (ob_dm_id r, ob_peer_pubkey r))).
Definition retry_key (r : DirectMessageOutboxRow) (attempted_at : Z) : RetryKey :=
  (attempted_at, (ob_created_at r, (ob_message_id r, (ob_dm_id r, ob_peer_pubkey r)))).

Definition with_rows (f : gmap RowKey DirectMessageOutboxRow -> gmap RowKey DirectMessageOutboxRow)
    (o : MemoryDirectMessageOutboxRows) : MemoryDirectMessageOutboxRows :=
  {| rows := f (rows o); by_created := by_created o; by_peer := by_peer o; never_attempted := never_attempted o;
     attempted := attempted o; by_dm := by_dm o |}.

Definition index_attempt (r : DirectMessageOutboxRow) (o : MemoryDirectMessageOutboxRows) : MemoryDirectMessageOutboxRows :=
  match ob_last_attempt_at r with
  | Some t => {| rows := rows o; by_created := by_created o; by_peer := by_peer o; never_attempted := never_attempted o;
                 attempted := {[ retry_key r t ]} ∪ attempted o; by_dm := by_dm o |}
  | None => {| rows := rows o; by_created := by_created o; by_peer := by_peer o;
               never_attempted := {[ new_key r ]} ∪ never_attempted o; attempted := attempted o; by_dm := by_dm o |}
  end.

Definition unindex_attempt (r : DirectMessageOutboxRow) (o : MemoryDirectMessageOutboxRows) : MemoryDirectMessageOutboxRows :=
  match ob_last_attempt_at r with
  | Some t => {| rows := rows o; by_created := by_created o; by_peer := by_peer o; never_attempted := never_attempted o;
                 attempted := attempted o ∖ {[ retry_key r t ]}; by_dm := by_dm o |}
  | None => {| rows := rows o; by_created := by_created o; by_peer := by_peer o;
               never_attempted := never_attempted o ∖ {[ new_key r ]}; attempted := attempted o; by_dm := by_dm o |}
  end.

(** The removals from [by_created] and [by_peer] that [remove] and [clear_dm] share. *)
Definition unindex_time (r : DirectMessageOutboxRow) (o : MemoryDirectMessageOutboxRows) : MemoryDirectMessageOutboxRows :=
  {| rows := rows o; by_created := by_created o ∖ {[ created_key r ]}; by_peer := by_peer o ∖ {[ peer_key r ]};
     never_attempted := never_attempted o; attempted := attempted o; by_dm := by_dm o |}.

Definition drop_from_dm (dm_id message_id : string) (m : gmap string (gset string)) : gmap string (gset string) :=
  match m !! dm_id with
  | Some messages =>
      let messages := messages ∖ {[ message_id ]} in
      if bool_decide (messages = ∅) then delete dm_id m else <[dm_id := messages]> m
  | None => m
  end.

Definition outbox_remove (dm_id message_id : string) (o : MemoryDirectMessageOutboxRows)
    : option DirectMessageOutboxRow * MemoryDirectMessageOutboxRows :=
  match rows o !! (dm_id, message_id) with
  | None => (None, o)
  | Some r =>
      let o := unindex_attempt r (unindex_time r (with_rows (delete (dm_id, message_id)) o)) in
      (Some r, {| rows := rows o; by_created := by_created o; by_peer := by_peer o; never_attempted := never_attempted o;
                  attempted := attempted o; by_dm := drop_from_dm dm_id message_id (by_dm o) |})
  end.

Definition outbox_insert (r : DirectMessageOutboxRow) (o : MemoryDirectMessageOutboxRows) : MemoryDirectMessageOutboxRows :=
  let o := (outbox_remove (ob_dm_id r) (ob_message_id r) o).2 in
  let o := index_attempt r
    {| rows := rows o; by_created := {[ created_key r ]} ∪ by_created o; by_peer := {[ peer_key r ]} ∪ by_peer o;
       never_attempted := never_attempted o; attempted := attempted o; by_dm := by_dm o |} in
  {| rows := <[row_key r := r]> (rows o); by_created := by_created o; by_peer := by_peer o;
     never_attempted := never_attempted o; attempted := attempted o;
     by_dm := <[ob_dm_id r := {[ ob_message_id r ]} ∪ default ∅ (by_dm o !! ob_dm_id r)]> (by_dm o) |}.

Definition clear_one (dm_id message_id : string) (o : MemoryDirectMessageOutboxRows) : MemoryDirectMessageOutboxRows :=
  match rows o !! (dm_id, message_id) with
  | Some r => unindex_attempt r (unindex_time r (with_rows (delete (dm_id, message_id)) o))
  | None => o
  end.

Definition clear_dm (dm_id : string) (o : MemoryDirectMessageOutboxRows) : MemoryDirectMessageOutboxRows :=
  match by_dm o !! dm_id with
  | None => o
  | Some messages =>
      foldl (fun o m => clear_one dm_id m o)
        {| rows := rows o; by_created := by_created o; by_peer := by_peer o; never_attempted := never_attempted o;
           attempted := attempted o; by_dm := delete dm_id (by_dm o) |} (set_iter messages)
  end.

(** [touch_direct_message_outbox_attempt] *)
Definition with_attempt (attempted_at : Z) (r : DirectMessageOutboxRow) : DirectMessageOutboxRow :=
  {| ob_dm_id := ob_dm_id r; ob_message_id := ob_message_id r; ob_peer_pubkey := ob_peer_pubkey r;
     ob_frame_blob_hash := ob_frame_blob_hash r; ob_created_at := ob_created_at r; ob_last_attempt_at := Some attempted_at |}.

Definition touch_attempt (dm_id message_id : string) (attempted_at : Z) (o : MemoryDirectMessageOutboxRows)
    : MemoryDirectMessageOutboxRows :=
  match rows o !! (dm_id, message_id) with
  | Some r =>
      let o := unindex_attempt r o in
      let r := with_attempt attempted_at r in
      with_rows <[(dm_id, message_id) := r]> (index_attempt r o)
  | None => o
  end.

(** ** Reads of the outbox *)

(** [list_direct_message_outbox]: by creation, then message id; the order of a [HashMap] is
    not specified, rows that tie keep the order of [map_to_list]. *)
Definition outbox_le (l r : DirectMessageOutboxRow) : bool :=
  rust_leb (ob_created_at l, ob_message_id l) (ob_created_at r, ob_message_id r).
Definition list_outbox (o : MemoryDirectMessageOutboxRows) : list DirectMessageOutboxRow :=
  sort_by outbox_le (map_to_list (rows o)).*2.

(** [BTreeSet::range] with both bounds: [after] excludes, [None] is unbounded below. *)
Definition set_range {A} `{RustOrd A} `{Countable A} (after : option A) (upto : A) (X : gset A) : list A :=
  List.filter (fun x => match after with Some a => rust_ltb a x | None => true end && rust_leb x upto) (set_iter X).

Definition cursor_of (r : DirectMessageOutboxRow) : DirectMessageOutboxCursor :=
  {| cur_created_at := ob_created_at r; cur_message_id := ob_message_id r; cur_dm_id := ob_dm_id r |}.
Definition cursor_key (c : DirectMessageOutboxCursor) : CreatedKey := (cur_created_at c, (cur_message_id c, cur_dm_id c)).
Definition key_cursor (k : CreatedKey) : DirectMessageOutboxCursor :=
  {| cur_created_at := k.1; cur_message_id := k.2.1; cur_dm_id := k.2.2 |}.

Record DirectMessageOutboxPage := {
  items : list DirectMessageOutboxRow;
  next_cursor : option DirectMessageOutboxCursor;
  cycle_end : option DirectMessageOutboxCursor
}.
Definition empty_page : DirectMessageOutboxPage := {| items := []; next_cursor := None; cycle_end := None |}.

(** [BTreeSet::range] panics when its start is after its end. *)
Definition range_panics (after : option DirectMessageOutboxCursor) (e : DirectMessageOutboxCursor) : bool :=
  match after with Some c => rust_ltb (cursor_key e) (cursor_key c) | None => false end.

(** A read that may panic ([None]: also the [expect] on an empty page). *)
Definition candidate_page (after cycle_end : option DirectMessageOutboxCursor) (limit : nat) (o : MemoryDirectMessageOutboxRows)
    : result string (option DirectMessageOutboxPage) :=
  _ ← ensure ((1 <=? limit) && (limit <=? DIRECT_MESSAGE_OUTBOX_PAGE_LIMIT))%nat
        "invalid direct message outbox candidate page limit";
  _ ← ensure (bool_decide (after = None) || bool_decide (is_Some cycle_end)) "missing candidate cycle end";
  match match cycle_end with Some e => Some e | None => key_cursor <$> last (set_iter (by_created o)) end with
  | None => mret (Some empty_page)
  | Some e =>
      if range_panics after e then mret None else
      let found := take (limit + 1) (set_range (cursor_key <$> after) (cursor_key e) (by_created o)) in
      let has_more := (limit <? length found)%nat in
      let items := omap (fun k : CreatedKey => rows o !! (k.2.2, k.2.1)) (take limit found) in
      if has_more then
        mret (r ← last items; Some {| items := items; next_cursor := Some (cursor_of r); cycle_end := Some e |})
      else mret (Some {| items := items; next_cursor := None; cycle_end := Some e |})
  end.

Definition peer_cursor_key (peer : string) (c : DirectMessageOutboxCursor) : PeerKey := (peer, cursor_key c).

(** The keys of one peer: between [(peer, i64::MIN, "", "")] and
    [(peer ++ "\0", i64::MIN, "", "")], which is the next string after [peer]. *)
Definition peer_keys (peer : string) (o : MemoryDirectMessageOutboxRows) : list PeerKey :=
  List.filter (fun k => rust_leb ((peer, (i64_min, (EmptyString, EmptyString))) : PeerKey) k
                        && rust_ltb k ((peer ++s String zero "", (i64_min, (EmptyString, EmptyString))) : PeerKey))
    (set_iter (by_peer o)).

Definition peer_page (peer : string) (after cycle_end : option DirectMessageOutboxCursor) (limit : nat)
    (o : MemoryDirectMessageOutboxRows) : result string (option DirectMessageOutboxPage) :=
  _ ← ensure ((1 <=? limit) && (limit <=? DIRECT_MESSAGE_OUTBOX_PAGE_LIMIT))%nat
        "invalid direct message outbox page limit";
  _ ← ensure (bool_decide (after = None) || bool_decide (is_Some cycle_end)) "missing outbox cycle end";
  match match cycle_end with Some e => Some e | None => (fun k : PeerKey => key_cursor k.2) <$> last (peer_keys peer o) end with
  | None => mret (Some empty_page)
  | Some e =>
      if range_panics after e then mret None else
      let above := match after with
                   | Some c => fun k => rust_ltb (peer_cursor_key peer c) k
                   | None => fun k => rust_leb ((peer, (i64_min, (EmptyString, EmptyString))) : PeerKey) k
                   end in
      let selected := take (limit + 1)
        (List.filter (fun k => above k && rust_leb k (peer_cursor_key peer e)) (set_iter (by_peer o))) in
      let has_more := (limit <? length selected)%nat in
      let items := omap (fun k : PeerKey => rows o !! (k.2.2.2, k.2.2.1)) (take limit selected) in
      mret (Some {| items := items; next_cursor := if has_more then cursor_of <$> last items else None; cycle_end := Some e |})
  end.

Definition due_rows (retry_due_at_or_before : Z) (new_limit retry_limit : nat) (o : MemoryDirectMessageOutboxRows)
    : result string (list DirectMessageOutboxRow) :=
  _ ← ensure ((new_limit <=? 3) && (retry_limit <=? 1) && (0 <? new_limit + retry_limit))%nat
        "invalid direct message outbox due limits";
  mret (omap (fun k : NewKey => rows o !! (k.2.2.1, k.2.1)) (take new_limit (set_iter (never_attempted o)))
        ++ omap (fun k : RetryKey =>
             if k.1 <=? retry_due_at_or_before then rows o !! (k.2.2.2.1, k.2.2.1) else None)
             (take retry_limit (set_iter (attempted o))))%list.

(** ** Messages, tombstones and conversations *)
Record DmTables := {
  conversations : gmap string DirectMessageConversationRow;
  messages : gmap RowKey DirectMessageMessageRow;
  tombstones : gmap RowKey DirectMessageTombstoneRow;
  outbox : MemoryDirectMessageOutboxRows
}.
Definition empty_tables : DmTables := {| conversations := ∅; messages := ∅; tombstones := ∅; outbox := empty_outbox |}.

Definition with_outbox (f : MemoryDirectMessageOutboxRows -> MemoryDirectMessageOutboxRows) (t : DmTables) : DmTables :=
  {| conversations := conversations t; messages := messages t; tombstones := tombstones t; outbox := f (outbox t) |}.
Definition with_messages (f : gmap RowKey DirectMessageMessageRow -> gmap RowKey DirectMessageMessageRow) (t : DmTables) : DmTables :=
  {| conversations := conversations t; messages := f (messages t); tombstones := tombstones t; outbox := outbox t |}.
Definition with_conversations (f : gmap string DirectMessageConversationRow -> gmap string DirectMessageConversationRow)
    (t : DmTables) : DmTables :=
  {| conversations := f (conversations t); messages := messages t; tombstones := tombstones t; outbox := outbox t |}.

Definition upsert_conversation (c : DirectMessageConversationRow) : DmTables -> DmTables :=
  with_conversations <[conv_dm_id c := c]>.

(** [values().find]: the first in the order of [map_to_list]. *)
Definition conversation_by_peer (peer : string) (t : DmTables) : option DirectMessageConversationRow :=
  List.find (fun c => bool_decide (conv_peer_pubkey c = peer)) (map_to_list (conversations t)).*2.
Definition conversation_by_dm_id (dm_id : string) (t : DmTables) : option DirectMessageConversationRow :=
  conversations t !! dm_id.

(** Newest first. *)
Definition conversation_le (l r : DirectMessageConversationRow) : bool :=
  rust_leb (conv_updated_at r, conv_dm_id r) (conv_updated_at l, conv_dm_id l).
Definition list_conversations (t : DmTables) : list DirectMessageConversationRow :=
  sort_by conversation_le (map_to_list (conversations t)).*2.

Definition msg_key (m : DirectMessageMessageRow) : RowKey := (msg_dm_id m, msg_message_id m).

Definition has_tombstone (dm_id message_id : string) (t : DmTables) : bool :=
  bool_decide (is_Some (tombstones t !! (dm_id, message_id))).

Definition put_message (m : DirectMessageMessageRow) (t : DmTables) : DmTables :=
  if has_tombstone (msg_dm_id m) (msg_message_id m) t then t else with_messages <[msg_key m := m]> t.

Definition get_message (dm_id message_id : string) (t : DmTables) : option DirectMessageMessageRow :=
  messages t !! (dm_id, message_id).

Record MessagePage := { page_items : list DirectMessageMessageRow; page_next : option TimelineCursor }.

Definition message_cursor (m : DirectMessageMessageRow) : TimelineCursor :=
  {| tc_created_at := msg_created_at m; tc_object_id := msg_message_id m |}.

Definition apply_desc_direct_message_cursor (l : list DirectMessageMessageRow) (cursor : option TimelineCursor)
    (limit : nat) : MessagePage :=
  let filtered := take limit (List.filter (fun m =>
    match cursor with
    | None => true
    | Some c => (msg_created_at m <? tc_created_at c)
                || ((msg_created_at m =? tc_created_at c) && rust_ltb (msg_message_id m) (tc_object_id c))
    end) l) in
  {| page_items := filtered;
     page_next := if (length filtered =? limit)%nat then message_cursor <$> last filtered else None |}.

Definition message_le (l r : DirectMessageMessageRow) : bool :=
  rust_leb (msg_created_at r, msg_message_id r) (msg_created_at l, msg_message_id l).

Definition dm_messages (dm_id : string) (t : DmTables) : list DirectMessageMessageRow :=
  sort_by message_le (List.filter (fun m => bool_decide (msg_dm_id m = dm_id)) (map_to_list (messages t)).*2).

Definition list_messages (dm_id : string) (cursor : option TimelineCursor) (limit : nat) (t : DmTables) : MessagePage :=
  apply_desc_direct_message_cursor (dm_messages dm_id t) cursor limit.

Definition with_acked_at (acked_at : Z) (m : DirectMessageMessageRow) : DirectMessageMessageRow :=
  {| msg_dm_id := msg_dm_id m; msg_message_id := msg_message_id m; msg_sender_pubkey := msg_sender_pubkey m;
     msg_recipient_pubkey := msg_recipient_pubkey m; msg_created_at := msg_created_at m; msg_text := msg_text m;
     msg_reply_to_message_id := msg_reply_to_message_id m; msg_attachment_manifest := msg_attachment_manifest m;
     msg_outgoing := msg_outgoing m; msg_acked_at := Some acked_at |}.

Definition set_acked_at (dm_id message_id : string) (acked_at : Z) : DmTables -> DmTables :=
  with_messages (alter (fun m => match msg_acked_at m with None => with_acked_at acked_at m | Some _ => m end)
                       (dm_id, message_id)).

Definition put_tombstone (d : DirectMessageTombstoneRow) (t : DmTables) : DmTables :=
  {| conversations := conversations t; messages := messages t;
     tombstones := <[(tomb_dm_id d, tomb_message_id d) := d]> (tombstones t); outbox := outbox t |}.

Definition tombstone_le (l r : DirectMessageTombstoneRow) : bool :=
  rust_leb (tomb_deleted_at r, tomb_message_id r) (tomb_deleted_at l, tomb_message_id l).
Definition list_tombstones (dm_id : string) (t : DmTables) : list DirectMessageTombstoneRow :=
  sort_by tombstone_le (List.filter (fun d => bool_decide (tomb_dm_id d = dm_id)) (map_to_list (tombstones t)).*2).

Definition delete_message_local (dm_id message_id : string) (t : DmTables) : DmTables :=
  with_outbox (fun o => (outbox_remove dm_id message_id o).2) (with_messages (delete (dm_id, message_id)) t).

Definition clear_local (dm_id : string) (t : DmTables) : DmTables :=
  with_conversations (delete dm_id)
    (with_outbox (clear_dm dm_id) (with_messages (filter (fun p => p.1.1 <> dm_id)) t)).
