(* ===== verification/DirectMessageStoreProps.v ===== *)
(** * Properties of the store of direct messages

    The five indexes of the outbox describe its rows exactly, whatever the sequence of
    calls ([outbox_refines_map]).  A cycle of pages visits every row that stays, once, and
    ends ([outbox_cycle_complete]).  The messages of a conversation are all met by reading
    pages until there is no next cursor ([message_pages]). *)
From stdpp Require Import sorting.
From S2P Require Import Prelude RustStr DirectMessageStore.

(** ** Exact indexes *)

(** The part of an index that a row is filed under. *)
#[local] Abbreviation Rows := (gmap (string * string) DirectMessageOutboxRow).
Definition new_slot (r : DirectMessageOutboxRow) : option NewKey :=
  match ob_last_attempt_at r with None => Some (new_key r) | Some _ => None end.
Definition retry_slot (r : DirectMessageOutboxRow) : option RetryKey := retry_key r <$> ob_last_attempt_at r.

Definition keyed (m : Rows) : Prop := map_Forall (fun k r => k = row_key r) m.

Section exact.
Context {K : Type} `{Countable K} (f : DirectMessageOutboxRow -> option K).

(** [X] holds exactly the slots of the rows. *)
Definition exact (m : Rows) (X : gset K) : Prop := forall x, x ∈ X <-> exists k r, m !! k = Some r /\ f r = Some x.

Definition add_slot (r : DirectMessageOutboxRow) (X : gset K) : gset K := match f r with Some x => {[ x ]} ∪ X | None => X end.
Definition drop_slot (r : DirectMessageOutboxRow) (X : gset K) : gset K := match f r with Some x => X ∖ {[ x ]} | None => X end.

Lemma exact_insert m X k r : exact m X -> m !! k = None -> exact (<[k := r]> m) (add_slot r X).
Proof.
  intros Hx Hk x. unfold add_slot. assert (Hm := Hx x).
  assert (Hl : (exists k' r', <[k := r]> m !! k' = Some r' /\ f r' = Some x)
               <-> f r = Some x \/ exists k' r', m !! k' = Some r' /\ f r' = Some x).
  { split.
    - intros (k' & r' & [[-> ->]|[? ?]]%lookup_insert_Some & ?); eauto.
    - intros [?|(k' & r' & Hk' & ?)]; [exists k, r; by rewrite lookup_insert_eq|].
      exists k', r'. rewrite lookup_insert_ne; [done|]. congruence. }
  rewrite Hl. destruct (f r) as [y|]; [rewrite elem_of_union, elem_of_singleton, Hm|rewrite Hm]; naive_solver.
Qed.

Context (f_inj : forall r r' x, f r = Some x -> f r' = Some x -> row_key r = row_key r').

Lemma exact_delete m X k r : exact m X -> keyed m -> m !! k = Some r -> exact (delete k m) (drop_slot r X).
Proof using f_inj.
  intros Hx Hm Hk x. unfold drop_slot.
  assert (Hr := Hm k r Hk). cbn in Hr.
  assert (Hl : (exists k' r', delete k m !! k' = Some r' /\ f r' = Some x)
               <-> f r <> Some x /\ exists k' r', m !! k' = Some r' /\ f r' = Some x).
  { split.
    - intros (k' & r' & [Hne Hk']%lookup_delete_Some & Hf). split; [|eauto]. intros Hf'.
      apply Hne. rewrite Hr, (Hm k' r' Hk'). eauto.
    - intros (Hne & k' & r' & Hk' & Hf). exists k', r'. rewrite lookup_delete_ne; [done|]. intros ->. congruence. }
  rewrite Hl. destruct (f r) as [y|]; [rewrite elem_of_difference, elem_of_singleton, (Hx x)|rewrite (Hx x)]; naive_solver.
Qed.
End exact.

Lemma created_slot_inj r r' x : Some (created_key r) = Some x -> Some (created_key r') = Some x -> row_key r = row_key r'.
Proof. unfold created_key, row_key. congruence. Qed.
Lemma peer_slot_inj r r' x : Some (peer_key r) = Some x -> Some (peer_key r') = Some x -> row_key r = row_key r'.
Proof. unfold peer_key, row_key. congruence. Qed.
Lemma new_slot_inj r r' x : new_slot r = Some x -> new_slot r' = Some x -> row_key r = row_key r'.
Proof. unfold new_slot, new_key, row_key. repeat case_match; congruence. Qed.
Lemma retry_slot_inj r r' x : retry_slot r = Some x -> retry_slot r' = Some x -> row_key r = row_key r'.
Proof.
  unfold retry_slot, retry_key, row_key. destruct (ob_last_attempt_at r), (ob_last_attempt_at r'); cbn; congruence.
Qed.

(** The messages of each conversation, with no empty entry. *)
Definition dm_exact (m : Rows) (D : gmap string (gset string)) : Prop :=
  (forall d x, x ∈ default ∅ (D !! d) <-> is_Some (m !! (d, x))) /\ (forall d, D !! d <> Some ∅).

Lemma dm_exact_insert m D r :
  dm_exact m D ->
  dm_exact (<[row_key r := r]> m) (<[ob_dm_id r := {[ ob_message_id r ]} ∪ default ∅ (D !! ob_dm_id r)]> D).
Proof.
  intros [Hm Hne]. unfold row_key. split; intros d.
  - intros x. destruct (decide (d = ob_dm_id r)) as [->|Hd].
    + rewrite lookup_insert_eq. cbn. rewrite elem_of_union, elem_of_singleton, Hm.
      destruct (decide (x = ob_message_id r)) as [->|Hx]; [rewrite lookup_insert_eq; split; eauto|].
      rewrite lookup_insert_ne by congruence. naive_solver.
    + rewrite !lookup_insert_ne by congruence. apply Hm.
  - destruct (decide (d = ob_dm_id r)) as [->|Hd]; [rewrite lookup_insert_eq; intros [= ?]; set_solver|].
    rewrite lookup_insert_ne by done. apply Hne.
Qed.

Lemma dm_exact_delete m D d x :
  dm_exact m D -> is_Some (m !! (d, x)) -> dm_exact (delete (d, x) m) (drop_from_dm d x D).
Proof.
  intros [Hm Hne] Hx. unfold drop_from_dm.
  assert (Hd : x ∈ default ∅ (D !! d)) by by apply Hm. destruct (D !! d) as [S|] eqn:ED; [|by apply not_elem_of_empty in Hd]. cbn in Hd.
  assert (Hlook : forall d' x', is_Some (delete (d, x) m !! (d', x'))
                   <-> (d', x') <> (d, x) /\ is_Some (m !! (d', x'))).
  { intros. destruct (decide ((d', x') = (d, x))) as [->|]; [rewrite lookup_delete_eq|rewrite lookup_delete_ne by done];
      [split; [by intros []|naive_solver]|naive_solver]. }
  assert (HS : forall x', x' ∈ S <-> is_Some (m !! (d, x'))) by (intros x'; rewrite <- Hm, ED; done).
  case_bool_decide as HE; (split; intros d'; [intros x'; rewrite Hlook|]); destruct (decide (d' = d)) as [->|].
  - rewrite lookup_delete_eq. cbn. split; [set_solver|]. intros [Hne' Hs%HS]. assert (x' = x); [|congruence]. set_solver.
  - rewrite lookup_delete_ne by done. rewrite Hm. naive_solver.
  - by rewrite lookup_delete_eq.
  - rewrite lookup_delete_ne by done. apply Hne.
  - rewrite lookup_insert_eq. cbn. rewrite elem_of_difference, HS, elem_of_singleton.
    split; [intros [? ?]; split; [congruence|done] | intros [? ?]; split; [done|congruence]].
  - rewrite lookup_insert_ne by done. rewrite Hm. naive_solver.
  - rewrite lookup_insert_eq. congruence.
  - rewrite lookup_insert_ne by done. apply Hne.
Qed.

(** ** The invariant of the outbox *)
Record time_wf (o : MemoryDirectMessageOutboxRows) : Prop := {
  wf_keyed : keyed (rows o);
  wf_created : exact (fun r => Some (created_key r)) (rows o) (by_created o);
  wf_peer : exact (fun r => Some (peer_key r)) (rows o) (by_peer o);
  wf_new : exact new_slot (rows o) (never_attempted o);
  wf_retry : exact retry_slot (rows o) (attempted o)
}.
Record outbox_wf (o : MemoryDirectMessageOutboxRows) : Prop := {
  wf_time :> time_wf o;
  wf_dm : dm_exact (rows o) (by_dm o)
}.

Lemma empty_outbox_wf : outbox_wf empty_outbox.
Proof.
  split; [split|]; try (intros x; cbn; split; [set_solver|intros (k & r & Hk & _); by rewrite lookup_empty in Hk]).
  - apply map_Forall_empty.
  - split; cbn; intros d; [|by rewrite lookup_empty].
    intros x. rewrite lookup_empty. cbn. split; [set_solver | intros [? Hx]; by rewrite lookup_empty in Hx].
Qed.

Lemma index_attempt_slots r o :
  index_attempt r o = {| rows := rows o; by_created := by_created o; by_peer := by_peer o;
                         never_attempted := add_slot new_slot r (never_attempted o);
                         attempted := add_slot retry_slot r (attempted o); by_dm := by_dm o |}.
Proof. unfold index_attempt, add_slot, new_slot, retry_slot. by destruct (ob_last_attempt_at r). Qed.

Lemma unindex_attempt_slots r o :
  unindex_attempt r o = {| rows := rows o; by_created := by_created o; by_peer := by_peer o;
                           never_attempted := drop_slot new_slot r (never_attempted o);
                           attempted := drop_slot retry_slot r (attempted o); by_dm := by_dm o |}.
Proof. unfold unindex_attempt, drop_slot, new_slot, retry_slot. by destruct (ob_last_attempt_at r). Qed.

(** Taking a row out of the rows and of the time indexes. *)
Definition taken (k : string * string) (r : DirectMessageOutboxRow) (o : MemoryDirectMessageOutboxRows) : MemoryDirectMessageOutboxRows :=
  unindex_attempt r (unindex_time r (with_rows (delete k) o)).

Lemma taken_wf o k r : time_wf o -> rows o !! k = Some r -> time_wf (taken k r o).
Proof.
  intros [Hk Hc Hp Hn Hr] Hl. unfold taken. rewrite unindex_attempt_slots. split; cbn.
  - by apply map_Forall_delete.
  - exact (exact_delete _ created_slot_inj _ _ k r Hc Hk Hl).
  - exact (exact_delete _ peer_slot_inj _ _ k r Hp Hk Hl).
  - exact (exact_delete _ new_slot_inj _ _ k r Hn Hk Hl).
  - exact (exact_delete _ retry_slot_inj _ _ k r Hr Hk Hl).
Qed.

Lemma taken_rows k r o : rows (taken k r o) = delete k (rows o) /\ by_dm (taken k r o) = by_dm o.
Proof. unfold taken. by rewrite unindex_attempt_slots. Qed.

Lemma outbox_remove_wf d x o :
  outbox_wf o -> outbox_wf (outbox_remove d x o).2 /\ rows (outbox_remove d x o).2 = delete (d, x) (rows o).
Proof.
  intros Hwf. unfold outbox_remove. destruct (rows o !! (d, x)) as [r|] eqn:E; cbn [snd].
  - fold (taken (d, x) r o). destruct (taken_rows (d, x) r o) as [Hr Hd]. destruct (taken_wf o _ _ (wf_time _ Hwf) E).
    split; [|done]. split; cbn; [by split|]. rewrite Hr, Hd. apply dm_exact_delete; [apply Hwf | eauto].
  - split; [done|]. by rewrite delete_id.
Qed.

Lemma outbox_insert_wf r o :
  outbox_wf o -> outbox_wf (outbox_insert r o) /\ rows (outbox_insert r o) = <[row_key r := r]> (rows o).
Proof.
  intros Hwf. destruct (outbox_remove_wf (ob_dm_id r) (ob_message_id r) o Hwf) as [Hwf' Hr].
  unfold outbox_insert. cbv zeta. set (o' := (outbox_remove _ _ o).2) in *. rewrite index_attempt_slots. cbn.
  assert (Hnone : rows o' !! row_key r = None) by (rewrite Hr; apply lookup_delete_eq).
  split; [|rewrite Hr; apply insert_delete_eq]. destruct Hwf' as [[Hk Hc Hp Hn Ht] Hd].
  split; [split|]; cbn.
  - by apply map_Forall_insert_2.
  - exact (exact_insert (fun r => Some (created_key r)) _ _ _ r Hc Hnone).
  - exact (exact_insert (fun r => Some (peer_key r)) _ _ _ r Hp Hnone).
  - exact (exact_insert new_slot _ _ _ r Hn Hnone).
  - exact (exact_insert retry_slot _ _ _ r Ht Hnone).
  - by apply dm_exact_insert.
Qed.

Lemma clear_one_wf d x o : time_wf o -> time_wf (clear_one d x o).
Proof. intros Hwf. unfold clear_one. destruct (rows o !! (d, x)) as [r|] eqn:E; [exact (taken_wf o _ _ Hwf E) | done]. Qed.

Lemma clear_one_rows d x o : rows (clear_one d x o) = delete (d, x) (rows o) /\ by_dm (clear_one d x o) = by_dm o.
Proof.
  unfold clear_one. destruct (rows o !! (d, x)) as [r|] eqn:E; [apply taken_rows | by rewrite delete_id].
Qed.

Lemma clear_all_wf d l o :
  time_wf o ->
  let o' := foldl (fun o m => clear_one d m o) o l in
  time_wf o' /\ by_dm o' = by_dm o
  /\ (forall d' x, rows o' !! (d', x) = if decide (d' = d /\ x ∈ l) then None else rows o !! (d', x)).
Proof.
  revert o. induction l as [|x l IH]; intros o Hwf; cbn.
  - split_and!; [done..|]. intros d' y. rewrite decide_False; [done|]. set_solver.
  - destruct (IH (clear_one d x o) (clear_one_wf d x o Hwf)) as (Hwf' & Hd & Hr).
    destruct (clear_one_rows d x o) as [Er Ed]. split_and!; [done | by rewrite Hd|].
    intros d' y. rewrite Hr, Er. destruct (decide (d' = d /\ y ∈ l)); [rewrite decide_True by set_solver; done|].
    destruct (decide ((d', y) = (d, x))) as [[= -> ->]|Hne].
    + rewrite lookup_delete_eq, decide_True by set_solver. done.
    + rewrite lookup_delete_ne by done. rewrite decide_False; [done|]. set_solver.
Qed.

Lemma clear_dm_wf d o :
  outbox_wf o -> outbox_wf (clear_dm d o) /\ rows (clear_dm d o) = filter (fun p => p.1.1 <> d) (rows o).
Proof.
  intros [Ht [Hm Hne]]. unfold clear_dm.
  assert (Hin : forall x r, rows o !! (d, x) = Some r -> x ∈ default ∅ (by_dm o !! d)) by (intros x r Hx; apply Hm; eauto).
  destruct (by_dm o !! d) as [S|] eqn:ED.
  - set (o0 := {| rows := rows o; by_created := by_created o; by_peer := by_peer o; never_attempted := never_attempted o;
                  attempted := attempted o; by_dm := delete d (by_dm o) |}).
    assert (Hwf0 : time_wf o0) by (destruct Ht; by split).
    destruct (clear_all_wf d (set_iter S) o0 Hwf0) as (Hwf & Hd & Hr).
    assert (HR : rows (foldl (fun o m => clear_one d m o) o0 (set_iter S)) = filter (fun p => p.1.1 <> d) (rows o)).
    { apply map_eq. intros [d' x]. rewrite Hr. change (rows o0) with (rows o). apply option_eq. intros r.
      rewrite map_lookup_filter_Some. cbn. case_decide as Hc; rewrite elem_of_set_iter in Hc.
      - split; [done|]. intros [_ ?]. tauto.
      - split; [|tauto]. intros Hx. split; [done|]. intros ->. apply Hc. split; [done|]. exact (Hin _ _ Hx). }
    split; [|done]. split; [done|]. rewrite HR, Hd. cbn [by_dm o0]. split; intros d'.
    + intros x. destruct (decide (d' = d)) as [->|Hdd].
      * rewrite lookup_delete_eq. split; [intros Hx; by apply not_elem_of_empty in Hx|].
        intros [r [_ Hx]%map_lookup_filter_Some]. cbn in Hx. done.
      * rewrite lookup_delete_ne by done. rewrite Hm.
        split; intros [r Hx]; exists r; [apply map_lookup_filter_Some; naive_solver|].
        by apply map_lookup_filter_Some in Hx as [? _].
    + destruct (decide (d' = d)) as [->|]; [by rewrite lookup_delete_eq|]. rewrite lookup_delete_ne by done. apply Hne.
  - split; [by split|]. symmetry. apply map_filter_id. intros [d' x] r Hx. cbn. intros ->. by apply Hin, not_elem_of_empty in Hx.
Qed.

Lemma exact_replace {K} `{Countable K} (f : DirectMessageOutboxRow -> option K) m X k r r' :
  exact f m X -> m !! k = Some r -> f r' = f r -> exact f (<[k := r']> m) X.
Proof.
  intros Hx Hk Hf x. rewrite (Hx x). split; intros (k' & y & Hy & Hfy).
  - destruct (decide (k' = k)) as [->|]; [exists k, r'; rewrite lookup_insert_eq; split; congruence|].
    exists k', y. by rewrite lookup_insert_ne.
  - apply lookup_insert_Some in Hy as [[<- <-]|[? Hy]]; [|eauto]. exists k, r. split; congruence.
Qed.

Lemma touch_attempt_wf d x t o :
  outbox_wf o ->
  outbox_wf (touch_attempt d x t o) /\ rows (touch_attempt d x t o) = alter (with_attempt t) (d, x) (rows o).
Proof.
  intros Hwf. unfold touch_attempt. destruct (rows o !! (d, x)) as [r|] eqn:E.
  - assert (Hr : rows (with_rows <[(d, x) := with_attempt t r]> (index_attempt (with_attempt t r) (unindex_attempt r o)))
                 = <[(d, x) := with_attempt t r]> (rows o)) by by rewrite index_attempt_slots, unindex_attempt_slots.
    split; [|rewrite Hr; apply map_eq; intros k; destruct (decide (k = (d, x))) as [->|];
      [by rewrite lookup_insert_eq, lookup_alter_eq, E | by rewrite lookup_insert_ne, lookup_alter_ne]].
    rewrite index_attempt_slots, unindex_attempt_slots. destruct Hwf as [[Hk Hc Hp Hn Ht] Hd].
    assert (Hkey : (d, x) = row_key r) by exact (Hk _ _ E). split; [split|]; cbn.
    + by apply map_Forall_insert_2.
    + by eapply exact_replace.
    + by eapply exact_replace.
    + rewrite <- insert_delete_eq.
      exact (exact_insert new_slot _ _ _ (with_attempt t r) (exact_delete _ new_slot_inj _ _ _ _ Hn Hk E) (lookup_delete_eq _ _)).
    + rewrite <- insert_delete_eq.
      exact (exact_insert retry_slot _ _ _ (with_attempt t r) (exact_delete _ retry_slot_inj _ _ _ _ Ht Hk E) (lookup_delete_eq _ _)).
    + destruct Hd as [Hm Hne]. split; [|done]. intros d' y. rewrite Hm.
      destruct (decide ((d', y) = (d, x))) as [[= -> ->]|]; [rewrite lookup_insert_eq, E; split; eauto|].
      by rewrite lookup_insert_ne.
  - split; [done|]. symmetry. apply map_eq. intros k. destruct (decide (k = (d, x))) as [->|].
    + by rewrite lookup_alter_eq, E.
    + by rewrite lookup_alter_ne.
Qed.

(** ** Every sequence of calls *)
Inductive OutboxOp :=
| Put (r : DirectMessageOutboxRow)
| Touch (dm_id message_id : string) (attempted_at : Z)
| Remove (dm_id message_id : string)
| Clear (dm_id : string).

Definition outbox_step (o : MemoryDirectMessageOutboxRows) (op : OutboxOp) : MemoryDirectMessageOutboxRows :=
  match op with
  | Put r => outbox_insert r o
  | Touch d x t => touch_attempt d x t o
  | Remove d x => (outbox_remove d x o).2
  | Clear d => clear_dm d o
  end.

(** The same calls on a map from (conversation, message) to rows. *)
Definition plain_step (m : Rows) (op : OutboxOp) : Rows :=
  match op with
  | Put r => <[row_key r := r]> m
  | Touch d x t => alter (with_attempt t) (d, x) m
  | Remove d x => delete (d, x) m
  | Clear d => filter (fun p => p.1.1 <> d) m
  end.

Lemma outbox_step_wf o op : outbox_wf o -> outbox_wf (outbox_step o op) /\ rows (outbox_step o op) = plain_step (rows o) op.
Proof.
  destruct op; cbn; [apply outbox_insert_wf | apply touch_attempt_wf | apply outbox_remove_wf | apply clear_dm_wf].
Qed.

(** C19: the outbox with its five indexes implements a plain map: after any sequence of
    calls its rows are those of the map, and each index holds exactly the keys of the rows
    it is for: no stale key, no missing key, no empty conversation. *)
Theorem outbox_refines_map ops :
  let o := foldl outbox_step empty_outbox ops in
  rows o = foldl plain_step ∅ ops /\ outbox_wf o.
Proof.
  cbv zeta. change (∅ : Rows) with (rows empty_outbox). generalize empty_outbox_wf. generalize empty_outbox.
  induction ops as [|op ops IH]; intros o Hwf; cbn; [done|].
  destruct (outbox_step_wf o op Hwf) as [Hwf' <-]. by apply IH.
Qed.

(** ** Cycles of pages *)
Section sorted_sets.
Context {A} `{RustOrdLaws A} `{Countable A}.

Lemma set_iter_strict (X : gset A) : StronglySorted (fun a b => rust_ltb a b = true) (set_iter X).
Proof.
  assert (Hs : StronglySorted (fun a b => rust_leb a b = true) (set_iter X)).
  { apply sort_by_sorted; [apply rust_leb_total | apply rust_leb_trans]. }
  pose proof (NoDup_set_iter X) as Hd. induction Hs as [|x l Hs IH Hall]; [constructor|].
  apply NoDup_cons in Hd as [Hx Hd]. constructor; [by apply IH|]. rewrite Forall_forall in *. intros y Hy.
  rewrite rust_ltb_leb. apply negb_true_iff. destruct (rust_leb y x) eqn:E; [|done].
  rewrite (rust_leb_antisym y x E (Hall y Hy)) in Hy. done.
Qed.

Lemma elem_of_set_range after upto (X : gset A) x :
  x ∈ set_range after upto X
  <-> x ∈ X /\ match after with Some a => rust_ltb a x = true | None => True end /\ rust_leb x upto = true.
Proof.
  unfold set_range. rewrite elem_of_filter_bool, elem_of_set_iter, andb_true_iff. destruct after; naive_solver.
Qed.

Lemma set_range_strict after upto (X : gset A) : StronglySorted (fun a b => rust_ltb a b = true) (set_range after upto X).
Proof. eapply sublist_sorted, set_iter_strict. apply sublist_filter_bool. Qed.

Lemma set_range_nodup after upto (X : gset A) : NoDup (set_range after upto X).
Proof. eapply sublist_NoDup; [apply NoDup_set_iter | apply sublist_filter_bool]. Qed.

(** The greatest element of a set. *)
Lemma set_iter_last (X : gset A) x y : last (set_iter X) = Some x -> y ∈ X -> rust_leb y x = true.
Proof.
  intros Hl Hy. apply last_Some in Hl as [l Hl]. pose proof (set_iter_strict X) as Hs. rewrite Hl in Hs.
  apply elem_of_set_iter in Hy. rewrite Hl in Hy. apply elem_of_app in Hy as [Hy| ->%list_elem_of_singleton]; [|apply rust_leb_refl].
  apply StronglySorted_app_1_elem_of with (x1 := y) (x2 := x) in Hs; [|done|set_solver].
  rewrite rust_ltb_leb in Hs. apply negb_true_iff in Hs. by apply rust_leb_total.
Qed.
End sorted_sets.

(** The keys that one page reads. *)
Definition range_keys (after : option DirectMessageOutboxCursor) (e : DirectMessageOutboxCursor) (o : MemoryDirectMessageOutboxRows)
    : list CreatedKey := set_range (cursor_key <$> after) (cursor_key e) (by_created o).

Definition row_at (o : MemoryDirectMessageOutboxRows) (k : CreatedKey) : option DirectMessageOutboxRow := rows o !! (k.2.2, k.2.1).

Lemma row_at_created o k : outbox_wf o -> k ∈ by_created o -> exists r, row_at o k = Some r /\ created_key r = k.
Proof.
  intros Hwf Hk. apply (wf_created _ (wf_time _ Hwf)) in Hk as (k' & r & Hr & [= <-]). exists r. split; [|done].
  rewrite (wf_keyed _ (wf_time _ Hwf) _ _ Hr) in Hr. exact Hr.
Qed.

Lemma rows_of_keys o (l : list CreatedKey) : outbox_wf o -> (forall k, k ∈ l -> k ∈ by_created o) -> created_key <$> omap (row_at o) l = l.
Proof.
  intros Hwf. induction l as [|k l IH]; intros Hl; [done|]. cbn.
  destruct (row_at_created o k Hwf (Hl k (list_elem_of_here _ _))) as (r & -> & Hr). cbn. rewrite Hr. f_equal.
  apply IH. intros. apply Hl. by apply list_elem_of_further.
Qed.

(** What a page holds: the first keys of its range, and a cursor when there are more. *)
Lemma candidate_page_spec after e limit o :
  outbox_wf o -> (1 <= limit <= DIRECT_MESSAGE_OUTBOX_PAGE_LIMIT)%nat -> range_panics after e = false ->
  exists p, candidate_page after (Some e) limit o = Ok (Some p)
    /\ created_key <$> items p = take limit (range_keys after e o)
    /\ cycle_end p = Some e
    /\ cursor_key <$> next_cursor p
       = if (limit <? length (range_keys after e o))%nat then last (take limit (range_keys after e o)) else None.
Proof.
  intros Hwf Hlim Hrange. unfold candidate_page.
  assert (Hc : ((1 <=? limit) && (limit <=? DIRECT_MESSAGE_OUTBOX_PAGE_LIMIT))%nat = true)
    by (apply andb_true_iff; rewrite !Nat.leb_le; lia).
  rewrite Hc. cbn [ensure mbind result_bind]. rewrite (bool_decide_true (is_Some (Some e))), orb_true_r by eauto.
  cbn [ensure mbind result_bind]. rewrite Hrange. fold (range_keys after e o). set (K := range_keys after e o).
  assert (HK : forall k, k ∈ K -> k ∈ by_created o) by (intros k Hk; by apply elem_of_set_range in Hk as [? _]).
  rewrite take_take, length_take. replace (limit `min` (limit + 1))%nat with limit by lia.
  replace (limit <? (limit + 1) `min` length K)%nat with (limit <? length K)%nat
    by (apply eq_iff_eq_true; rewrite !Nat.ltb_lt; lia).
  change (fun k : CreatedKey => rows o !! (k.2.2, k.2.1)) with (row_at o).
  pose proof (rows_of_keys o (take limit K) Hwf ltac:(intros k Hk; apply HK; by eapply elem_of_sublist, sublist_take)) as Hmap.
  destruct (limit <? length K)%nat eqn:E; [|eexists; split_and!; [done | exact Hmap | done | done]].
  apply Nat.ltb_lt in E. assert (Hlast := fmap_last created_key (omap (row_at o) (take limit K))). rewrite Hmap in Hlast.
  destruct (last (omap (row_at o) (take limit K))) as [r|] eqn:El; cbn.
  - eexists. split_and!; [done | exact Hmap | done | by rewrite Hlast].
  - exfalso. apply last_None in El. rewrite El in Hmap. apply (f_equal length) in Hmap. rewrite length_take in Hmap. cbn in Hmap. lia.
Qed.

(** A cycle: a page from each state of the outbox, each from the cursor of the one before
    it, to the end that the first one saw.  [None] when a page fails or panics, or when
    there is a next cursor after the last state. *)
Fixpoint candidate_cycle (limit : nat) (os : list MemoryDirectMessageOutboxRows)
    (after upto : option DirectMessageOutboxCursor) : option (list DirectMessageOutboxRow) :=
  match os with
  | [] => None
  | o :: os =>
      match candidate_page after upto limit o with
      | Ok (Some p) =>
          match next_cursor p with
          | None => Some (items p)
          | Some c => l ← candidate_cycle limit os (Some c) (cycle_end p); Some (items p ++ l)%list
          end
      | _ => None
      end
  end.

(** From [o] to [o'] no row created at or before [e] is added. *)
Definition no_older_row (e : CreatedKey) (o o' : MemoryDirectMessageOutboxRows) : Prop :=
  forall k r', rows o' !! k = Some r' -> rust_leb (created_key r') e = true ->
  exists r, rows o !! k = Some r /\ created_key r = created_key r'.

(** The row [k], created at [x], is there. *)
Definition has_row (k : string * string) (x : CreatedKey) (o : MemoryDirectMessageOutboxRows) : Prop :=
  exists r, rows o !! k = Some r /\ created_key r = x.

Lemma has_row_created k x o : outbox_wf o -> has_row k x o -> x ∈ by_created o.
Proof. intros Hwf (r & Hr & <-). apply (wf_created _ (wf_time _ Hwf)). eauto. Qed.

(** What is left of the range after a page. *)
Lemma range_keys_rest after e limit o c :
  (1 <= limit)%nat -> last (take limit (range_keys after e o)) = Some (cursor_key c) ->
  forall x, x ∈ range_keys (Some c) e o -> x ∈ drop limit (range_keys after e o).
Proof.
  intros Hlim Hl x [Hx [Hcx Hxe]]%elem_of_set_range. cbn in Hcx.
  assert (Hc : cursor_key c ∈ range_keys after e o).
  { eapply elem_of_sublist; [|apply sublist_take]. apply last_Some in Hl as [l' ->]. set_solver. }
  assert (HxK : x ∈ range_keys after e o).
  { apply elem_of_set_range in Hc as (_ & Ha & _). apply elem_of_set_range. split_and!; [done | | done].
    destruct after as [a|]; [|done]. cbn in *. revert Ha Hcx. unfold rust_ltb.
    destruct (rust_cmp (cursor_key a) (cursor_key c)) eqn:E1; try done.
    destruct (rust_cmp (cursor_key c) x) eqn:E2; try done. by rewrite (rust_cmp_trans _ _ _ E1 E2). }
  rewrite <- (take_drop limit (range_keys after e o)) in HxK. apply elem_of_app in HxK as [Ht|]; [|done].
  exfalso. apply last_Some in Hl as [l' Hl]. rewrite Hl in Ht.
  pose proof (set_range_strict (cursor_key <$> after) (cursor_key e) (by_created o)) as Hs.
  fold (range_keys after e o) in Hs. rewrite <- (take_drop limit (range_keys after e o)), Hl in Hs.
  apply StronglySorted_app_1_l in Hs. apply elem_of_app in Ht as [Ht| ->%list_elem_of_singleton].
  - apply StronglySorted_app_1_elem_of with (x1 := x) (x2 := cursor_key c) in Hs; [|done|set_solver].
    rewrite rust_ltb_leb in Hs, Hcx. apply negb_true_iff in Hs, Hcx. apply rust_leb_total in Hs. congruence.
  - rewrite rust_ltb_leb, rust_leb_refl in Hcx. done.
Qed.

Lemma range_keys_shrink after e o o' x :
  outbox_wf o -> outbox_wf o' -> no_older_row (cursor_key e) o o' -> x ∈ range_keys after e o' -> x ∈ range_keys after e o.
Proof.
  intros Hwf Hwf' Hno (Hx & Ha & He)%elem_of_set_range. apply elem_of_set_range. split_and!; [|done..].
  apply (wf_created _ (wf_time _ Hwf')) in Hx as (k & r' & Hr' & [= <-]).
  destruct (Hno k r' Hr' He) as (r & Hr & Hc). rewrite <- Hc. apply (wf_created _ (wf_time _ Hwf)). eauto.
Qed.

Lemma range_keys_length after e limit o o' c :
  outbox_wf o -> outbox_wf o' -> no_older_row (cursor_key e) o o' -> (1 <= limit)%nat ->
  last (take limit (range_keys after e o)) = Some (cursor_key c) ->
  (length (range_keys (Some c) e o') <= length (range_keys after e o) - limit)%nat.
Proof.
  intros Hwf Hwf' Hno Hlim Hl. rewrite <- length_drop. apply submseteq_length, NoDup_submseteq; [apply set_range_nodup|].
  intros x Hx. eapply range_keys_rest; [done | done|]. by eapply range_keys_shrink.
Qed.

Lemma key_cursor_key k : cursor_key (key_cursor k) = k.
Proof. by destruct k as [? [? ?]]. Qed.

Definition beyond (after : option DirectMessageOutboxCursor) (x : CreatedKey) : Prop :=
  match after with Some a => rust_ltb (cursor_key a) x = true | None => True end.

Lemma elem_of_range_keys after e o x :
  x ∈ range_keys after e o <-> x ∈ by_created o /\ beyond after x /\ rust_leb x (cursor_key e) = true.
Proof. unfold range_keys. rewrite elem_of_set_range. by destruct after. Qed.

(** A page that is not the last of its range. *)
Lemma rest_of_cycle after e limit o c l :
  last (take limit (range_keys after e o)) = Some (cursor_key c) ->
  StronglySorted (fun a b => rust_ltb a b = true) l -> Forall (beyond (Some c)) l ->
  StronglySorted (fun a b => rust_ltb a b = true) (take limit (range_keys after e o) ++ l)
  /\ Forall (beyond after) (take limit (range_keys after e o) ++ l).
Proof.
  intros Hl Hs Hb. rewrite Forall_forall in Hb. set (T := take limit (range_keys after e o)) in *.
  assert (HT : StronglySorted (fun a b => rust_ltb a b = true) T)
    by (eapply sublist_sorted; [apply sublist_take | apply set_range_strict]).
  assert (Hin : forall x, x ∈ T -> beyond after x).
  { intros x Hx. apply (elem_of_range_keys after e o x). eapply elem_of_sublist; [exact Hx | apply sublist_take]. }
  assert (Htrans : forall x y z : CreatedKey, rust_ltb x y = true -> rust_ltb y z = true -> rust_ltb x z = true).
  { intros x y z. unfold rust_ltb. destruct (rust_cmp x y) eqn:E1; try done. destruct (rust_cmp y z) eqn:E2; try done.
    by rewrite (rust_cmp_trans _ _ _ E1 E2). }
  apply last_Some in Hl as [T' HT'].
  assert (Hle : forall x, x ∈ T -> x = cursor_key c \/ rust_ltb x (cursor_key c) = true).
  { intros x Hx. rewrite HT' in Hx, HT. apply elem_of_app in Hx as [Hx| ->%list_elem_of_singleton]; [right|by left].
    eapply StronglySorted_app_1_elem_of in HT; [exact HT | done | set_solver]. }
  split.
  - apply StronglySorted_app_2; [|done..]. intros x y Hx Hy. specialize (Hb y Hy). cbn in Hb.
    destruct (Hle x Hx) as [->|]; eauto.
  - apply Forall_app. split; rewrite Forall_forall; [done|]. intros y Hy. specialize (Hb y Hy). cbn in Hb.
    assert (Hc : beyond after (cursor_key c)) by (apply Hin; rewrite HT'; set_solver).
    destruct after; [|done]. cbn in *. eauto.
Qed.

Lemma page_cursor_in_range limit after e o c :
  last (take limit (range_keys after e o)) = Some (cursor_key c) -> range_panics (Some c) e = false.
Proof.
  intros Hl. assert (Hc : cursor_key c ∈ range_keys after e o).
  { eapply elem_of_sublist; [|apply sublist_take]. apply last_Some in Hl as [l' ->]. set_solver. }
  apply elem_of_range_keys in Hc as (_ & _ & Hle). cbn. by rewrite rust_ltb_leb, Hle.
Qed.

Lemma cycle_from limit e os : forall after,
  (1 <= limit <= DIRECT_MESSAGE_OUTBOX_PAGE_LIMIT)%nat -> Forall outbox_wf os -> Sorted (no_older_row (cursor_key e)) os ->
  range_panics after e = false ->
  match os with o :: _ => (length (range_keys after e o) <= limit * length os)%nat | [] => False end ->
  exists l, candidate_cycle limit os after (Some e) = Some l
    /\ StronglySorted (fun a b => rust_ltb a b = true) (created_key <$> l) /\ Forall (beyond after) (created_key <$> l)
    /\ forall k x, (forall o, o ∈ os -> has_row k x o) -> beyond after x -> rust_leb x (cursor_key e) = true -> x ∈ created_key <$> l.
Proof.
  induction os as [|o os IH]; [done|]. intros after Hlim Hwf Hsort Hrange Hlen.
  apply Forall_cons in Hwf as [Ho Hwf].
  destruct (candidate_page_spec after e limit o Ho Hlim Hrange) as (p & Hp & Hitems & Hend & Hnext).
  cbn [candidate_cycle]. rewrite Hp, Hend. cbn [length] in Hlen.
  assert (HxK : forall k x, has_row k x o -> beyond after x -> rust_leb x (cursor_key e) = true -> x ∈ range_keys after e o)
    by (intros k x Hx ? ?; apply elem_of_range_keys; split_and!; [by eapply has_row_created | done..]).
  destruct (limit <? length (range_keys after e o))%nat eqn:E.
  - apply Nat.ltb_lt in E. destruct (next_cursor p) as [c|]; cbn in Hnext.
    2:{ symmetry in Hnext. apply last_None in Hnext. apply (f_equal length) in Hnext. rewrite length_take in Hnext. cbn in Hnext. lia. }
    symmetry in Hnext. destruct os as [|o' os]; [cbn in Hlen; lia|].
    apply Sorted_inv in Hsort as [Hsort Hhd]. apply HdRel_inv in Hhd. assert (Ho' := Forall_inv Hwf).
    pose proof (range_keys_length after e limit o o' c Ho Ho' Hhd (proj1 Hlim) Hnext) as Hrest.
    destruct (IH (Some c) Hlim Hwf Hsort) as (l & Hl & Hs & Hb & Hall); [by eapply page_cursor_in_range | cbn [length] in Hlen |- *; lia|].
    rewrite Hl. cbn. exists (items p ++ l)%list. split; [done|]. rewrite fmap_app, Hitems.
    destruct (rest_of_cycle after e limit o c _ Hnext Hs Hb) as [Hs' Hb']. split_and!; [done..|].
    intros k x Hin Ha Hx. specialize (HxK k x (Hin o (list_elem_of_here _ _)) Ha Hx).
    apply elem_of_app. destruct (decide (x ∈ take limit (range_keys after e o))) as [|Hnt]; [by left | right].
    apply (Hall k); [|cbn|done]; [intros; apply Hin; by apply list_elem_of_further|].
    pose proof (set_range_strict (cursor_key <$> after) (cursor_key e) (by_created o)) as Hstrict.
    fold (range_keys after e o) in Hstrict. rewrite <- (take_drop limit (range_keys after e o)) in Hstrict, HxK.
    apply elem_of_app in HxK as [?|Hxd]; [done|].
    apply (StronglySorted_app_1_elem_of _ _ _ _ _ Hstrict); [|done].
    apply last_Some in Hnext as [T ->]. set_solver.
  - apply Nat.ltb_ge in E. destruct (next_cursor p); [done|]. exists (items p). rewrite take_ge in Hitems by lia.
    rewrite Hitems. split_and!; [done | apply set_range_strict | | ].
    + apply Forall_forall. intros x Hx. apply elem_of_range_keys in Hx. tauto.
    + intros k x Hin Ha Hx. apply (HxK k); [apply Hin, list_elem_of_here | done..].
Qed.

(** C34: a cycle of pages of the outbox ends and misses nothing: when a page is read from
    each of the states [o :: os] that the outbox takes, no page fails or panics, the cycle
    ends when the states are enough for the rows of the first one, no row comes twice, and
    every row that stays is among the rows read.  New messages may come and others may go
    in between; rows are only not to be added with a creation time before the end of the
    cycle. *)
Theorem outbox_cycle_complete limit o os :
  (1 <= limit <= DIRECT_MESSAGE_OUTBOX_PAGE_LIMIT)%nat -> Forall outbox_wf (o :: os) ->
  (forall e, last (set_iter (by_created o)) = Some e -> Sorted (no_older_row e) (o :: os)) ->
  (size (by_created o) <= limit * length (o :: os))%nat ->
  exists l, candidate_cycle limit (o :: os) None None = Some l
    /\ StronglySorted (fun a b => rust_ltb a b = true) (created_key <$> l)
    /\ forall k x, (forall o', o' ∈ o :: os -> has_row k x o') -> k ∈ row_key <$> l.
Proof.
  intros Hlim Hwf Hsort Hlen. assert (Ho := Forall_inv Hwf).
  destruct (last (set_iter (by_created o))) as [x|] eqn:El.
  - specialize (Hsort x eq_refl). rewrite <- (key_cursor_key x) in Hsort.
    assert (Hfirst : candidate_cycle limit (o :: os) None None = candidate_cycle limit (o :: os) None (Some (key_cursor x))).
    { cbn [candidate_cycle]. unfold candidate_page. rewrite El. cbn [fmap option_fmap option_map].
      by rewrite !(bool_decide_true (None = None)) by done. }
    destruct (cycle_from limit (key_cursor x) (o :: os) None Hlim Hwf Hsort eq_refl) as (l & Hl & Hs & _ & Hall).
    { etrans; [|exact Hlen]. unfold range_keys, set_range. etrans; [apply List.filter_length_le|].
      unfold set_iter. by rewrite sort_by_perm. }
    exists l. rewrite Hfirst. split_and!; [done..|]. intros k y Hin.
    destruct (Hin o (list_elem_of_here _ _)) as (r & Hr & Hy).
    assert (Hyl : y ∈ created_key <$> l).
    { apply (Hall k); [done..|]. rewrite key_cursor_key. eapply set_iter_last; [done|]. eapply has_row_created; [done|]. by exists r. }
    apply list_elem_of_fmap in Hyl as (r' & -> & Hr'). apply list_elem_of_fmap. exists r'. split; [|done].
    rewrite (wf_keyed _ (wf_time _ Ho) _ _ Hr). by eapply created_slot_inj; f_equal.
  - cbn [candidate_cycle]. unfold candidate_page. rewrite El. cbn [fmap option_fmap option_map].
    assert (Hc : ((1 <=? limit) && (limit <=? DIRECT_MESSAGE_OUTBOX_PAGE_LIMIT))%nat = true)
      by (apply andb_true_iff; rewrite !Nat.leb_le; lia).
    rewrite Hc. cbn. exists []. split_and!; [done | constructor|]. intros k y Hin. exfalso.
    apply last_None in El. specialize (Hin o (list_elem_of_here _ _)). apply has_row_created in Hin; [|done].
    apply elem_of_set_iter in Hin. rewrite El in Hin. by apply not_elem_of_nil in Hin.
Qed.

(** ** Pages of messages *)
Lemma filter_filter_bool {A} (f g : A -> bool) l : List.filter f (List.filter g l) = List.filter (fun x => f x && g x) l.
Proof. induction l as [|x l IH]; [done|]. cbn. destruct (g x); cbn; rewrite ?andb_true_r, ?andb_false_r; [by rewrite IH | done]. Qed.

Lemma filter_length_lt {A} (f : A -> bool) l x : x ∈ l -> f x = false -> (length (List.filter f l) < length l)%nat.
Proof.
  intros [k Hk]%list_elem_of_lookup_1 Hf. revert k Hk. induction l as [|y l IH]; intros [|k] Hk; cbn in *; simplify_eq.
  - rewrite Hf. pose proof (List.filter_length_le f l). lia.
  - specialize (IH k Hk). destruct (f y); cbn; lia.
Qed.

Definition msg_order (m : DirectMessageMessageRow) : Z * string := (msg_created_at m, msg_message_id m).
Definition messages_keyed (t : DmTables) : Prop := map_Forall (fun k m => k = msg_key m) (messages t).

(** The filter of a page. *)
Definition below (c : option TimelineCursor) (m : DirectMessageMessageRow) : bool :=
  match c with
  | None => true
  | Some c => (msg_created_at m <? tc_created_at c)
              || ((msg_created_at m =? tc_created_at c) && rust_ltb (msg_message_id m) (tc_object_id c))
  end.

Lemma below_some c m : below (Some c) m = rust_ltb (msg_order m) (tc_created_at c, tc_object_id c).
Proof.
  cbn. unfold rust_ltb, rust_cmp, prod_rust_ord, msg_order, rust_cmp, Z_rust_ord. cbn.
  destruct (Z.compare_spec (msg_created_at m) (tc_created_at c)) as [E|E|E].
  - rewrite E, Z.ltb_irrefl, Z.eqb_refl. done.
  - rewrite (proj2 (Z.ltb_lt _ _) E). done.
  - rewrite (proj2 (Z.ltb_ge _ _)), (proj2 (Z.eqb_neq _ _)) by lia. done.
Qed.

Lemma elem_of_dm_messages d t m :
  messages_keyed t -> m ∈ dm_messages d t <-> msg_dm_id m = d /\ messages t !! (d, msg_message_id m) = Some m.
Proof.
  intros Hk. unfold dm_messages. rewrite elem_of_sort_by, elem_of_filter_bool, bool_decide_eq_true, list_elem_of_fmap. split.
  - intros [([k m'] & -> & Hm%elem_of_map_to_list) <-]. split; [done|]. by rewrite (Hk _ _ Hm) in Hm.
  - intros [<- Hm]. split; [|done]. exists (msg_key m, m). split; [done|]. by apply elem_of_map_to_list.
Qed.

(** Newest first, and no two at the same place. *)
Lemma dm_messages_sorted d t : messages_keyed t -> StronglySorted (fun a b => rust_ltb (msg_order b) (msg_order a) = true) (dm_messages d t).
Proof.
  intros Hk.
  assert (Hs : StronglySorted (fun a b => message_le a b = true) (dm_messages d t)).
  { apply sort_by_sorted; intros *; unfold message_le; [apply rust_leb_total | intros ? ?; by eapply rust_leb_trans]. }
  assert (Hd : NoDup (dm_messages d t)).
  { unfold dm_messages. rewrite sort_by_perm. eapply sublist_NoDup; [|apply sublist_filter_bool].
    apply NoDup_fmap_2_strong; [|apply NoDup_map_to_list].
    intros [k m] [k' m'] Hm%elem_of_map_to_list Hm'%elem_of_map_to_list Heq. cbn in Heq. subst m'.
    by rewrite (Hk _ _ Hm), (Hk _ _ Hm'). }
  assert (Hinj : forall a b, a ∈ dm_messages d t -> b ∈ dm_messages d t -> msg_order a = msg_order b -> a = b).
  { intros a b [_ Ha]%(elem_of_dm_messages _ _ _ Hk) [_ Hb]%(elem_of_dm_messages _ _ _ Hk) [= _ E]. rewrite E in Ha. congruence. }
  revert Hs Hd Hinj. generalize (dm_messages d t). induction 1 as [|a l Hs IH Hall]; intros Hd Hinj; [constructor|].
  apply NoDup_cons in Hd as [Ha Hd]. constructor; [apply IH; [done|]; intros ? ? ? ?; apply Hinj; by apply list_elem_of_further|].
  rewrite Forall_forall in *. intros b Hb. specialize (Hall b Hb). unfold message_le in Hall. fold (msg_order a) (msg_order b) in Hall.
  rewrite rust_ltb_leb. apply negb_true_iff. destruct (rust_leb (msg_order a) (msg_order b)) eqn:E; [|done].
  exfalso. apply Ha. rewrite (Hinj a b); [done | apply list_elem_of_here | by apply list_elem_of_further | by apply rust_leb_antisym].
Qed.

(** One page and the rest of a descending list. *)
Lemma message_page_rest l c limit m :
  StronglySorted (fun a b => rust_ltb (msg_order b) (msg_order a) = true) l -> (1 <= limit)%nat ->
  last (page_items (apply_desc_direct_message_cursor l c limit)) = Some m ->
  (forall x, x ∈ l -> below c x = true ->
     x ∈ page_items (apply_desc_direct_message_cursor l c limit) \/ below (Some (message_cursor m)) x = true)
  /\ (length (List.filter (below (Some (message_cursor m))) l) < length (List.filter (below c) l))%nat.
Proof.
  intros Hs Hlim Hl. cbn [page_items apply_desc_direct_message_cursor] in *. fold (below c) in *.
  set (F := List.filter (below c) l) in *.
  assert (HF : StronglySorted (fun a b => rust_ltb (msg_order b) (msg_order a) = true) F)
    by (eapply sublist_sorted; [apply sublist_filter_bool | done]).
  assert (HmF : m ∈ F). { eapply elem_of_sublist; [|apply sublist_take]. apply last_Some in Hl as [T' ->]. set_solver. }
  split.
  - intros x Hx Hcx. assert (HxF : x ∈ F) by by apply elem_of_filter_bool.
    rewrite <- (take_drop limit F) in HxF, HF. apply elem_of_app in HxF as [?|Hxd]; [by left | right].
    rewrite below_some. apply (StronglySorted_app_1_elem_of _ _ _ _ _ HF); [|done].
    apply last_Some in Hl as [T' ->]. set_solver.
  - assert (Hsame : List.filter (below (Some (message_cursor m))) l = List.filter (below (Some (message_cursor m))) F).
    { unfold F. rewrite filter_filter_bool. apply filter_same. intros x _.
      destruct (below (Some (message_cursor m)) x) eqn:E; [|done]. symmetry.
      apply elem_of_filter_bool in HmF as [_ Hc]. destruct c as [c|]; [|done]. rewrite below_some in *. cbn in E.
      revert E Hc. change (msg_created_at m, msg_message_id m) with (msg_order m). unfold rust_ltb.
      destruct (rust_cmp (msg_order x) (msg_order m)) eqn:E1; try done.
      destruct (rust_cmp (msg_order m) _) eqn:E2; try done. by rewrite (rust_cmp_trans _ _ _ E1 E2). }
    rewrite Hsame. apply filter_length_lt with (x := m); [done|]. rewrite below_some. cbn.
    change (msg_created_at m, msg_message_id m) with (msg_order m). by rewrite rust_ltb_leb, rust_leb_refl.
Qed.
