(* ===== verification/DirectMessage.v ===== *)
(** * Direct messages: frames, acknowledgements and attachments
    (crates/core/src/direct_messages.rs, crypto.rs)

    Two accounts share a secret, derived from the key of one and the public key of the
    other.  A message travels as a frame: its payload is encrypted under a key made from
    that secret and the header, and the frame is signed by the sender.  The recipient
    answers with a signed acknowledgement.  Signatures, the Diffie-Hellman function, HKDF,
    the cipher, hashes, hex and JSON are library code: the classes [Crypto], [Ecdh],
    [Aead], [Blake3Crate], [HexCrate], [Json] and [JsonArray]. *)
From S2P Require Import Prelude RustStr Envelope Replicas AccountSyncItem DirectMessageStore.

#[export] Instance DirectMessageAttachmentKind_eq_dec : EqDecision DirectMessageAttachmentKind.
Proof. solve_decision. Defined.
#[export] Instance DirectMessageEncryptedBlobRefV1_eq_dec : EqDecision DirectMessageEncryptedBlobRefV1.
Proof. solve_decision. Defined.
#[export] Instance DirectMessageAttachmentManifestV1_eq_dec : EqDecision DirectMessageAttachmentManifestV1.
Proof. solve_decision. Defined.

(** ** Libraries *)

(** secp256k1 keys and shared secrets, and HKDF-SHA-256 with an output of 32 bytes:
    [hkdf_expand salt ikm info]. *)
Class Ecdh `{Crypto} := {
  SecretKey : Type;
  secret_key : Keys -> SecretKey;
  odd_parity : SecretKey -> bool;
  negate : SecretKey -> SecretKey;
  (** [SharedSecret::new] of the point with even y and a secret key *)
  ecdh : XOnlyPublicKey -> SecretKey -> string;
  hkdf_expand : string -> string -> string -> option string
}.

(** The secret key whose public point has even y. *)
Definition even_secret `{Ecdh} (k : Keys) : SecretKey :=
  if odd_parity (secret_key k) then negate (secret_key k) else secret_key k.

(** Both sides compute the same secret. *)
Class EcdhLaws `{Ecdh} := {
  ecdh_symmetric a b pa pb :
    public_key_from_str (public_key_hex a) = Some pa -> public_key_from_str (public_key_hex b) = Some pb ->
    ecdh pb (even_secret a) = ecdh pa (even_secret b)
}.

(** The text of a JSON array of numbers and strings. *)
Inductive JsonAtom := JNum (n : Z) | JStr (s : string).
Class JsonArray := { json_array : list JsonAtom -> string }.
Class JsonArrayLaws `{JsonArray} := { json_array_inj :: Inj (=) (=) json_array }.

(** [anyhow::Context::context]: the message replaces the error that is shown. *)
Definition with_context {A} (m : string) (r : result string A) : result string A := match r with Ok a => Ok a | Err _ => Err m end.

(** ** Data *)
Record DirectMessagePayloadV1 := {
  text : option string;
  reply_to : option string;
  attachment_manifest : option DirectMessageAttachmentManifestV1
}.

Record DirectMessageFrameV1 := {
  fr_dm_id : string;
  fr_message_id : string;
  fr_sender : string;
  fr_recipient : string;
  fr_created_at : Z;
  fr_nonce_hex : string;
  fr_ciphertext_hex : string;
  fr_signature : string
}.

Record DirectMessageAckV1 := {
  ack_dm_id : string;
  ack_message_id : string;
  ack_sender : string;
  ack_recipient : string;
  acked_at : Z;
  ack_signature : string
}.

Record DirectMessageEncryptedAttachmentV1 := { att_blob_id : string; att_nonce_hex : string; att_ciphertext_hex : string }.

#[export] Instance DirectMessageAckV1_eq_dec : EqDecision DirectMessageAckV1.
Proof. solve_decision. Defined.

Definition COLON : string := ":".

(** [participants.sort()] of two texts. *)
Definition sorted_pair (a b : string) : string * string := if rust_leb a b then (a, b) else (b, a).
Definition participants_text (a b : string) : string :=
  let '(p, q) := sorted_pair a b in "kukuri:direct-message:" ++s p ++s COLON ++s q.

Definition direct_message_frame_aad (dm_id message_id sender recipient : string) (created_at : Z) : string :=
  "kukuri:direct-message:frame:" ++s dm_id ++s COLON ++s message_id ++s COLON ++s sender ++s COLON ++s recipient
  ++s COLON ++s dec_i64 created_at.
Definition direct_message_attachment_aad (message_id blob_id : string) : string :=
  "kukuri:direct-message:attachment:" ++s message_id ++s COLON ++s blob_id.

Section messages.
Context `{Crypto} `{!Ecdh} `{HexCrate} `{Blake3Crate} `{Aead} `{JsonArray} `{Json DirectMessagePayloadV1}.

Definition canonical_direct_message_frame_payload (f : DirectMessageFrameV1) : string :=
  json_array [JNum 0; JStr (fr_dm_id f); JStr (fr_message_id f); JStr (fr_sender f); JStr (fr_recipient f);
              JNum (fr_created_at f); JStr (fr_nonce_hex f); JStr (fr_ciphertext_hex f)].
Definition canonical_direct_message_ack_payload (a : DirectMessageAckV1) : string :=
  json_array [JNum 0; JStr (ack_dm_id a); JStr (ack_message_id a); JStr (ack_sender a); JStr (ack_recipient a);
              JNum (acked_at a)].

Definition frame_verify (f : DirectMessageFrameV1) : result string unit :=
  _ ← with_context "invalid direct message sender pubkey" (validate_pubkey (fr_sender f));
  _ ← with_context "invalid direct message recipient pubkey" (validate_pubkey (fr_recipient f));
  _ ← ensure (negb (str_is_empty (trim (fr_dm_id f)))) "direct message frame dm_id is required";
  _ ← ensure (negb (str_is_empty (trim (fr_message_id f)))) "direct message frame message_id is required";
  nonce ← ok_of_option "invalid direct message frame nonce" (hex_decode (trim (fr_nonce_hex f)));
  _ ← ensure (str_len nonce =? 24) "direct message frame nonce must be 24 bytes";
  _ ← ok_of_option "invalid direct message frame ciphertext" (hex_decode (trim (fr_ciphertext_hex f)));
  signature ← ok_of_option "invalid direct message frame signature" (signature_from_str (fr_signature f));
  sender ← ok_of_option "invalid frame sender" (public_key_from_str (fr_sender f));
  let digest := sha256_digest (canonical_direct_message_frame_payload f) in
  ensure (schnorr_verify signature digest sender) "direct message frame signature verification failed".

Definition ack_verify (a : DirectMessageAckV1) : result string unit :=
  _ ← with_context "invalid direct message ack sender pubkey" (validate_pubkey (ack_sender a));
  _ ← with_context "invalid direct message ack recipient pubkey" (validate_pubkey (ack_recipient a));
  _ ← ensure (negb (str_is_empty (trim (ack_dm_id a)))) "direct message ack dm_id is required";
  _ ← ensure (negb (str_is_empty (trim (ack_message_id a)))) "direct message ack message_id is required";
  signature ← ok_of_option "invalid direct message ack signature" (signature_from_str (ack_signature a));
  sender ← ok_of_option "invalid ack sender" (public_key_from_str (ack_sender a));
  let digest := sha256_digest (canonical_direct_message_ack_payload a) in
  ensure (schnorr_verify signature digest sender) "direct message ack signature verification failed".

Definition direct_message_id_for_participants (left right : string) : string :=
  "dm-" ++s Replicas.hex_encode (blake3_hash (participants_text left right)).

(** [pairwise_shared_secret] of crypto.rs *)
Definition pairwise_shared_secret (keys : Keys) (remote : string) : result string string :=
  remote_xonly ← ok_of_option "invalid remote x-only public key" (public_key_from_str remote);
  let local_secret := if odd_parity (secret_key keys) then negate (secret_key keys) else secret_key keys in
  mret (ecdh remote_xonly local_secret).

Definition derive_hkdf_key (salt ikm info label : string) : result string string :=
  ok_of_option ("failed to derive " ++s label) (hkdf_expand salt ikm info).

Definition derive_direct_message_secret (keys : Keys) (remote : string) : result string string :=
  shared ← pairwise_shared_secret keys remote;
  ok_of_option "failed to derive direct message root secret"
    (hkdf_expand "kukuri/direct-message/root" shared (participants_text (public_key_hex keys) remote)).

Definition derive_direct_message_topic (keys : Keys) (remote : string) : result string string :=
  secret ← derive_direct_message_secret keys remote;
  topic_key ← ok_of_option "failed to derive direct message topic"
    (hkdf_expand "kukuri/direct-message/topic" secret "kukuri:direct-message:pairwise-topic");
  mret (DM_TOPIC_PREFIX ++s Replicas.hex_encode topic_key).

Definition derive_direct_message_frame_key (root dm_id message_id sender recipient : string) (created_at : Z)
    : result string string :=
  derive_hkdf_key "kukuri/direct-message/frame" root (direct_message_frame_aad dm_id message_id sender recipient created_at)
    "direct message frame key".
Definition derive_direct_message_attachment_key (root message_id blob_id : string) : result string string :=
  derive_hkdf_key "kukuri/direct-message/attachment" root (direct_message_attachment_aad message_id blob_id)
    "direct message attachment key".

Definition with_frame_signature (s : string) (f : DirectMessageFrameV1) : DirectMessageFrameV1 :=
  {| fr_dm_id := fr_dm_id f; fr_message_id := fr_message_id f; fr_sender := fr_sender f; fr_recipient := fr_recipient f;
     fr_created_at := fr_created_at f; fr_nonce_hex := fr_nonce_hex f; fr_ciphertext_hex := fr_ciphertext_hex f; fr_signature := s |}.

(** [nonce] are the 24 bytes drawn for the frame. *)
Definition encrypt_direct_message_frame (nonce : string) (keys : Keys) (recipient dm_id message_id : string) (created_at : Z)
    (payload : DirectMessagePayloadV1) : result string DirectMessageFrameV1 :=
  _ ← ensure (negb (str_is_empty (trim dm_id))) "direct message dm_id is required";
  _ ← ensure (negb (str_is_empty (trim message_id))) "direct message message_id is required";
  _ ← with_context "invalid direct message recipient pubkey" (validate_pubkey recipient);
  let sender := public_key_hex keys in
  let plaintext := to_json payload in
  root ← derive_direct_message_secret keys recipient;
  key ← derive_direct_message_frame_key root dm_id message_id sender recipient created_at;
  let aad := direct_message_frame_aad dm_id message_id sender recipient created_at in
  ciphertext ← ok_of_option "failed to encrypt direct message frame" (aead_encrypt key nonce aad plaintext);
  let frame := {| fr_dm_id := trim dm_id; fr_message_id := trim message_id; fr_sender := sender; fr_recipient := recipient;
                  fr_created_at := created_at; fr_nonce_hex := Replicas.hex_encode nonce;
                  fr_ciphertext_hex := Replicas.hex_encode ciphertext; fr_signature := EmptyString |} in
  let digest := sha256_digest (canonical_direct_message_frame_payload frame) in
  mret (with_frame_signature (sign_schnorr keys digest) frame).

Definition open_direct_message_frame (keys : Keys) (f : DirectMessageFrameV1) (remote : string)
    : result string DirectMessagePayloadV1 :=
  nonce ← ok_of_option "invalid direct message frame nonce" (hex_decode (trim (fr_nonce_hex f)));
  _ ← ensure (str_len nonce =? 24) "direct message frame nonce must be 24 bytes";
  ciphertext ← ok_of_option "invalid direct message frame ciphertext" (hex_decode (trim (fr_ciphertext_hex f)));
  root ← derive_direct_message_secret keys remote;
  key ← derive_direct_message_frame_key root (fr_dm_id f) (fr_message_id f) (fr_sender f) (fr_recipient f) (fr_created_at f);
  let aad := direct_message_frame_aad (fr_dm_id f) (fr_message_id f) (fr_sender f) (fr_recipient f) (fr_created_at f) in
  plaintext ← ok_of_option "failed to decrypt direct message frame" (aead_decrypt key nonce aad ciphertext);
  ok_of_option "failed to decode direct message payload" (from_json plaintext).

Definition decrypt_direct_message_frame (keys : Keys) (f : DirectMessageFrameV1) : result string DirectMessagePayloadV1 :=
  _ ← frame_verify f;
  _ ← ensure (bool_decide (public_key_hex keys = fr_recipient f))
        "direct message frame recipient pubkey must match decrypting author";
  open_direct_message_frame keys f (fr_sender f).

Definition open_sent_direct_message_frame (keys : Keys) (f : DirectMessageFrameV1) : result string DirectMessagePayloadV1 :=
  _ ← frame_verify f;
  _ ← ensure (bool_decide (public_key_hex keys = fr_sender f))
        "direct message frame sender pubkey must match opening author";
  open_direct_message_frame keys f (fr_recipient f).

Definition build_direct_message_ack (keys : Keys) (dm_id message_id recipient : string) (at_ : Z)
    : result string DirectMessageAckV1 :=
  _ ← ensure (negb (str_is_empty (trim dm_id))) "direct message ack dm_id is required";
  _ ← ensure (negb (str_is_empty (trim message_id))) "direct message ack message_id is required";
  _ ← with_context "invalid direct message ack recipient pubkey" (validate_pubkey recipient);
  let ack := {| ack_dm_id := trim dm_id; ack_message_id := trim message_id; ack_sender := public_key_hex keys;
                ack_recipient := recipient; acked_at := at_; ack_signature := EmptyString |} in
  let digest := sha256_digest (canonical_direct_message_ack_payload ack) in
  mret {| ack_dm_id := ack_dm_id ack; ack_message_id := ack_message_id ack; ack_sender := ack_sender ack;
          ack_recipient := ack_recipient ack; acked_at := acked_at ack; ack_signature := sign_schnorr keys digest |}.

Definition encrypt_direct_message_attachment (nonce : string) (keys : Keys) (recipient message_id blob_id plaintext : string)
    : result string DirectMessageEncryptedAttachmentV1 :=
  _ ← ensure (negb (str_is_empty (trim message_id))) "direct message attachment message_id is required";
  _ ← ensure (negb (str_is_empty (trim blob_id))) "direct message attachment blob_id is required";
  root ← derive_direct_message_secret keys recipient;
  key ← derive_direct_message_attachment_key root message_id blob_id;
  ciphertext ← ok_of_option "failed to encrypt direct message attachment"
    (aead_encrypt key nonce (direct_message_attachment_aad message_id blob_id) plaintext);
  mret {| att_blob_id := trim blob_id; att_nonce_hex := Replicas.hex_encode nonce;
          att_ciphertext_hex := Replicas.hex_encode ciphertext |}.

Definition decrypt_direct_message_attachment (keys : Keys) (remote message_id : string)
    (a : DirectMessageEncryptedAttachmentV1) : result string string :=
  _ ← ensure (negb (str_is_empty (trim message_id))) "direct message attachment message_id is required";
  _ ← ensure (negb (str_is_empty (trim (att_blob_id a)))) "direct message attachment blob_id is required";
  nonce ← ok_of_option "invalid direct message attachment nonce" (hex_decode (trim (att_nonce_hex a)));
  _ ← ensure (str_len nonce =? 24) "direct message attachment nonce must be 24 bytes";
  ciphertext ← ok_of_option "invalid direct message attachment ciphertext" (hex_decode (trim (att_ciphertext_hex a)));
  root ← derive_direct_message_secret keys remote;
  key ← derive_direct_message_attachment_key root message_id (att_blob_id a);
  ok_of_option "failed to decrypt direct message attachment"
    (aead_decrypt key nonce (direct_message_attachment_aad message_id (att_blob_id a)) ciphertext).
End messages.

Lemma with_context_ok {A} m (r : result string A) a : with_context m r = Ok a -> r = Ok a.
Proof. by destruct r. Qed.
Lemma validate_pubkey_ok `{Crypto} v : validate_pubkey v = Ok tt <-> is_Some (public_key_from_str v).
Proof. unfold validate_pubkey. destruct (public_key_from_str v); cbn; split; eauto; [done | by intros []]. Qed.
