(* ===== verification/DirectMessageFrameProps.v ===== *)
(** * Properties of direct message frames

    Both parties derive the same secret and the same conversation id, and what one encrypts
    for the other opens as itself on both sides. *)
From S2P Require Import Prelude RustStr Envelope Replicas AccountSyncItem ChannelSeal DirectMessageStore DirectMessage.

Lemma sorted_pair_sym a b : sorted_pair a b = sorted_pair b a.
Proof.
  unfold sorted_pair. destruct (rust_leb a b) eqn:E1, (rust_leb b a) eqn:E2; try done.
  - by rewrite (rust_leb_antisym a b).
  - apply rust_leb_total in E1. congruence.
Qed.

Lemma participants_text_sym a b : participants_text a b = participants_text b a.
Proof. unfold participants_text. by rewrite sorted_pair_sym. Qed.

Section frames.
Context `{CL : CryptoLaws} {E : Ecdh} {EL : EcdhLaws} `{HL : HexCrateLaws} `{B : Blake3Crate} `{AL : AeadLaws}.
Context {JA : JsonArray} `{PL : JsonLaws DirectMessagePayloadV1}.

Lemma dm_id_sym a b : direct_message_id_for_participants a b = direct_message_id_for_participants b a.
Proof. unfold direct_message_id_for_participants. by rewrite participants_text_sym. Qed.

Lemma public_key_valid k : exists p, public_key_from_str (public_key_hex k) = Some p.
Proof using CL. destruct (sign_verifies k (sha256_digest EmptyString)) as (s & p & _ & Hp & _). eauto. Qed.

(** Both sides derive the same secret. *)
Lemma direct_message_secret_shared a b :
  derive_direct_message_secret a (public_key_hex b) = derive_direct_message_secret b (public_key_hex a).
Proof using CL EL.
  destruct (public_key_valid a) as [pa Ha], (public_key_valid b) as [pb Hb].
  unfold derive_direct_message_secret, pairwise_shared_secret. rewrite Ha, Hb. cbn. fold (even_secret a) (even_secret b).
  rewrite (ecdh_symmetric a b pa pb Ha Hb), participants_text_sym. done.
Qed.

Lemma hex_trim b : hex_decode (trim (Replicas.hex_encode b)) = Some b.
Proof using HL. rewrite trim_digits by apply hex_encode_lower. apply hex_decode_encode. Qed.

Lemma encrypted_frame_fields nonce a recipient dm msg t payload f :
  encrypt_direct_message_frame nonce a recipient dm msg t payload = Ok f ->
  fr_dm_id f = trim dm /\ fr_message_id f = trim msg /\ fr_sender f = public_key_hex a /\ fr_recipient f = recipient
  /\ fr_created_at f = t.
Proof. unfold encrypt_direct_message_frame. intros Hf. inv_result. by injection Hf as <-. Qed.

Lemma encrypted_frame_verifies nonce a recipient dm msg t payload f :
  String.length nonce = 24%nat -> encrypt_direct_message_frame nonce a recipient dm msg t payload = Ok f ->
  trim (trim dm) = trim dm -> trim (trim msg) = trim msg -> frame_verify f = Ok tt.
Proof using CL HL.
  intros Hn Hf Ed Em. unfold encrypt_direct_message_frame in Hf. inv_result.
  injection Hf as <-. unfold frame_verify. cbn [fr_sender fr_recipient fr_dm_id fr_message_id fr_nonce_hex fr_ciphertext_hex fr_signature with_frame_signature].
  destruct (public_key_valid a) as [pa Ha].
  rewrite (proj2 (validate_pubkey_ok (public_key_hex a))) by eauto. cbn [with_context mbind result_bind].
  match goal with Hv : with_context _ (validate_pubkey recipient) = Ok ?u |- _ =>
    apply with_context_ok in Hv; destruct u; rewrite Hv end.
  cbn [with_context mbind result_bind]. rewrite Ed, Em.
  repeat match goal with He : negb (str_is_empty (trim ?x)) = true |- context [negb (str_is_empty (trim ?x))] => rewrite He; clear He end.
  cbn [ensure mbind result_bind]. rewrite !hex_trim. cbn [ok_of_option mbind result_bind].
  unfold str_len. rewrite Hn. cbn [ensure Z.eqb mbind result_bind]. change (Z.of_nat 24 =? 24) with true. cbn [ensure mbind result_bind].
  match goal with |- context [sign_schnorr a ?d] => destruct (sign_verifies a d) as (s & p & Hs & Hp & Hv) end.
  rewrite Hs. cbn [ok_of_option mbind result_bind]. rewrite Hp. cbn [ok_of_option mbind result_bind].
  unfold canonical_direct_message_frame_payload in *. cbn in Hv |- *. by rewrite Hv.
Qed.

(** What both sides do with a frame once it is verified. *)
Lemma encrypted_frame_opens nonce a b recipient dm msg t payload f k remote :
  String.length nonce = 24%nat -> trim dm = dm -> trim msg = msg ->
  encrypt_direct_message_frame nonce a recipient dm msg t payload = Ok f -> recipient = public_key_hex b ->
  derive_direct_message_secret k remote = derive_direct_message_secret a recipient ->
  open_direct_message_frame k f remote = Ok payload.
Proof using CL HL AL PL.
  intros Hn Ed Em Hf -> Hsec. unfold encrypt_direct_message_frame in Hf. inv_result. injection Hf as <-.
  unfold open_direct_message_frame, with_frame_signature.
  cbn [fr_sender fr_recipient fr_dm_id fr_message_id fr_nonce_hex fr_ciphertext_hex fr_created_at].
  rewrite !hex_trim. cbn [ok_of_option mbind result_bind]. unfold str_len. rewrite Hn.
  change (Z.of_nat 24 =? 24) with true. cbn [ensure mbind result_bind]. rewrite Hsec, Ed, Em.
  repeat match goal with He : ?x = Ok _ |- context [?x] => rewrite He; cbn [mbind result_bind] end.
  match goal with He : aead_encrypt _ _ _ _ = Some _ |- _ => apply aead_decrypt_spec in He; rewrite He end.
  cbn [ok_of_option mbind result_bind]. by rewrite from_to_json.
Qed.

(** The recipient decrypts what was encrypted. *)
Lemma encrypted_frame_decrypts nonce a b dm msg t payload f :
  String.length nonce = 24%nat -> trim dm = dm -> trim msg = msg ->
  encrypt_direct_message_frame nonce a (public_key_hex b) dm msg t payload = Ok f ->
  decrypt_direct_message_frame b f = Ok payload.
Proof using CL EL HL AL PL.
  intros Hn Ed Em Hf. assert (Hv : frame_verify f = Ok tt).
  { by eapply encrypted_frame_verifies; [done | done | rewrite !Ed | rewrite !Em]. }
  destruct (encrypted_frame_fields _ _ _ _ _ _ _ _ Hf) as (_ & _ & Hs & Hr & _).
  unfold decrypt_direct_message_frame. rewrite Hv, Hs, Hr. cbn [mbind result_bind].
  rewrite bool_decide_true by done. cbn [ensure mbind result_bind].
  apply (encrypted_frame_opens nonce a b (public_key_hex b) dm msg t payload); [done..|].
  symmetry. apply direct_message_secret_shared.
Qed.

(** C33: a frame opens as the payload that was encrypted: for the recipient, who derives the
    secret from the sender's public key, and for the sender, who derives it from the
    recipient's; each of the two openings refuses every account but its own.  The ids are
    those without surrounding white space. *)
Theorem frame_roundtrip nonce a b dm msg t payload f :
  String.length nonce = 24%nat -> trim dm = dm -> trim msg = msg ->
  encrypt_direct_message_frame nonce a (public_key_hex b) dm msg t payload = Ok f ->
  decrypt_direct_message_frame b f = Ok payload /\ open_sent_direct_message_frame a f = Ok payload
  /\ (forall c, public_key_hex c <> public_key_hex b -> is_ok (decrypt_direct_message_frame c f) = false)
  /\ (forall c, public_key_hex c <> public_key_hex a -> is_ok (open_sent_direct_message_frame c f) = false).
Proof using CL EL HL AL PL.
  intros Hn Ed Em Hf. split; [by apply (encrypted_frame_decrypts nonce a b dm msg t)|]. assert (Hv : frame_verify f = Ok tt).
  { by eapply encrypted_frame_verifies; [done | done | rewrite !Ed | rewrite !Em]. }
  destruct (encrypted_frame_fields _ _ _ _ _ _ _ _ Hf) as (_ & _ & Hs & Hr & _).
  unfold decrypt_direct_message_frame, open_sent_direct_message_frame. rewrite Hv, Hs, Hr. cbn [mbind result_bind].
  rewrite bool_decide_true by done. cbn [ensure mbind result_bind]. split_and!.
  - by apply (encrypted_frame_opens nonce a b (public_key_hex b) dm msg t payload).
  - intros c Hc. by rewrite bool_decide_false.
  - intros c Hc. by rewrite bool_decide_false.
Qed.

(** An acknowledgement verifies. *)
Lemma built_ack_fields k dm msg recipient t ack :
  build_direct_message_ack k dm msg recipient t = Ok ack ->
  ack_dm_id ack = trim dm /\ ack_message_id ack = trim msg /\ ack_sender ack = public_key_hex k /\ ack_recipient ack = recipient
  /\ acked_at ack = t.
Proof. unfold build_direct_message_ack. intros Ha. inv_result. by injection Ha as <-. Qed.

(** The blob of an attachment decrypts as itself on both sides. *)
Lemma attachment_roundtrip nonce a b msg blob plaintext att :
  String.length nonce = 24%nat -> trim blob = blob ->
  encrypt_direct_message_attachment nonce a (public_key_hex b) msg blob plaintext = Ok att ->
  decrypt_direct_message_attachment b (public_key_hex a) msg att = Ok plaintext.
Proof using CL EL HL AL.
  intros Hn Eb Ha. unfold encrypt_direct_message_attachment in Ha. inv_result. injection Ha as <-.
  unfold decrypt_direct_message_attachment. cbn [att_blob_id att_nonce_hex att_ciphertext_hex]. rewrite !Eb in *.
  repeat match goal with He : negb (str_is_empty ?x) = true |- context [negb (str_is_empty ?x)] => rewrite He; cbn [ensure mbind result_bind] end.
  rewrite !hex_trim. cbn [ok_of_option mbind result_bind]. unfold str_len. rewrite Hn.
  change (Z.of_nat 24 =? 24) with true. cbn [ensure mbind result_bind].
  rewrite (direct_message_secret_shared b a).
  repeat match goal with He : ?x = Ok _ |- context [?x] => rewrite He; cbn [mbind result_bind] end.
  match goal with He : aead_encrypt _ _ _ _ = Some _ |- _ => apply aead_decrypt_spec in He; rewrite He end. done.
Qed.
End frames.
