(* ===== verification/ReceiveOffer.v ===== *)
(** * Receive offers (crates/core/src/receive_offer.rs)

    An account is told of something to fetch by an offer: a small record signed by its
    sender and encrypted, under a key that only lives for the offer, for one recipient.  A
    payload for a private channel is encrypted under the key of an epoch as well. *)
From S2P Require Import Prelude RustStr Envelope Replicas AccountSyncItem ChannelSeal DirectMessageStore DirectMessage.

Definition RECEIVE_OFFER_MAX_BYTES : Z := 2048.
Definition RECEIVE_PAYLOAD_MAX_BYTES : Z := 65536.
Definition PRIVATE_RECEIVE_PAYLOAD_MAX_PLAINTEXT_BYTES : Z := 16384.
Definition RECEIVE_OFFER_MAX_LIFETIME_MS : Z := 300000.
Definition OFFER_MAX_PLAINTEXT_BYTES : Z := 880.
Definition OFFER_DOMAIN : string := "kukuri:receive-offer:v1".
Definition OFFER_KEY_DOMAIN : string := "kukuri:receive-offer-key:v1".
Definition PRIVATE_KEY_DOMAIN : string := "kukuri:private-receive-payload:v1" ++s String zero "".
Definition PRIVATE_AAD_DOMAIN : string := "kukuri:private-receive-payload:v1".

Inductive ReceiveOfferScopeV1 :=
| PublicSource
| ScopeDirectMessage
| DirectMessageFrame (dm_id message_id frame_hash : string)
| DirectMessageAck (dm_id message_id : string) (acked_at : Z) (signature : string)
| PrivateSource (epoch_key_id : string)
| EpochControl (epoch_key_id : string).
#[export] Instance ReceiveOfferScopeV1_eq_dec : EqDecision ReceiveOfferScopeV1.
Proof. solve_decision. Defined.

Record ReceiveOfferReferenceV1 := {
  provider_endpoint_id : string;
  payload_hash : string;
  payload_bytes : Z;
  offer_scope : ReceiveOfferScopeV1
}.

Record SignedReceiveOffer := {
  so_version : Z;
  so_sender : string;
  so_recipient : string;
  so_reference : ReceiveOfferReferenceV1;
  so_issued_at_ms : Z;
  so_expires_at_ms : Z;
  so_signature : string
}.

Record SealedReceiveOfferV1 := {
  sealed_version : Z;
  ephemeral_pubkey : string;
  sealed_nonce_hex : string;
  sealed_ciphertext_hex : string
}.

Record PrivateReceivePayloadV1 := {
  pp_version : Z;
  pp_epoch_key_id : string;
  pp_nonce_hex : string;
  pp_ciphertext_hex : string
}.

(** What an offer's signature covers: the tuple of [SignedReceiveOffer::digest]. *)
Definition SignedPart : Type := string * Z * string * string * ReceiveOfferReferenceV1 * Z * Z.

Definition i64_checked_sub (x y : Z) : option Z := if in_i64 (x - y) then Some (x - y) else None.

Definition check_lifetime (issued expires : Z) : result string unit :=
  _ ← ensure (0 <=? issued) "negative receive offer time";
  lifetime ← ok_of_option "receive offer lifetime overflow" (i64_checked_sub expires issued);
  ensure ((1 <=? lifetime) && (lifetime <=? RECEIVE_OFFER_MAX_LIFETIME_MS)) "invalid receive offer lifetime".

Definition check_ciphertext (v : string) (plaintext_limit : Z) : result string unit :=
  _ ← ensure ((32 <=? str_len v) && (str_len v <=? (plaintext_limit + 16) * 2) && (str_len v mod 2 =? 0))
        "invalid receive ciphertext length";
  ensure (str_all is_lower_hex v) "invalid receive ciphertext hex".

Section offers.
Context `{Crypto} `{!Ecdh} `{HexCrate} `{Blake3Crate} `{Aead} `{JsonArray}.
Context `{Json SignedPart} `{Json SignedReceiveOffer} `{Json SealedReceiveOfferV1} `{Json PrivateReceivePayloadV1}.

Definition fixed_hex (n : Z) (v : string) : result string string :=
  _ ← ensure ((str_len v =? n * 2) && str_all is_lower_hex v) "invalid canonical receive hex";
  ok_of_option "invalid hex" (hex_decode v).

Definition check_pubkey (p : string) : result string unit := _ ← fixed_hex 32 p; validate_pubkey p.

(** ** References *)
Definition no_payload (r : ReceiveOfferReferenceV1) : result string unit :=
  ensure ((payload_bytes r =? 0) && str_is_empty (payload_hash r)) "inline receive offer cannot reference a blob".
Definition payload_size_ok (r : ReceiveOfferReferenceV1) : result string unit :=
  ensure ((1 <=? payload_bytes r) && (payload_bytes r <=? RECEIVE_PAYLOAD_MAX_BYTES)) "invalid receive payload size".

Definition reference_validate (r : ReceiveOfferReferenceV1) : result string unit :=
  match offer_scope r with
  | DirectMessageFrame _ _ frame_hash =>
      _ ← fixed_hex 32 (provider_endpoint_id r);
      _ ← fixed_hex 32 frame_hash;
      no_payload r
  | DirectMessageAck _ _ _ signature =>
      _ ← ensure (str_is_empty (provider_endpoint_id r)) "inline ACK cannot name a provider";
      _ ← fixed_hex 64 signature;
      no_payload r
  | PrivateSource epoch_key_id | EpochControl epoch_key_id =>
      _ ← fixed_hex 32 (provider_endpoint_id r);
      _ ← fixed_hex 32 (payload_hash r);
      _ ← fixed_hex 32 epoch_key_id;
      payload_size_ok r
  | _ =>
      _ ← fixed_hex 32 (provider_endpoint_id r);
      _ ← fixed_hex 32 (payload_hash r);
      payload_size_ok r
  end.

Definition inline_scope (s : ReceiveOfferScopeV1) : bool :=
  match s with DirectMessageFrame _ _ _ | DirectMessageAck _ _ _ _ => true | _ => false end.

Definition inline (provider : string) (s : ReceiveOfferScopeV1) : result string ReceiveOfferReferenceV1 :=
  _ ← ensure (inline_scope s) "inline receive offer scope is unsupported";
  let r := {| provider_endpoint_id := provider; payload_hash := EmptyString; payload_bytes := 0; offer_scope := s |} in
  _ ← reference_validate r;
  mret r.

(** ** Encryption *)
Definition offer_aad (ephemeral recipient : string) : string :=
  json_array [JStr OFFER_DOMAIN; JNum 1; JStr ephemeral; JStr recipient].

Definition encrypt (nonce key aad plaintext : string) : result string (string * string) :=
  ciphertext ← ok_of_option "receive encryption failed" (aead_encrypt key nonce aad plaintext);
  mret (Replicas.hex_encode nonce, Replicas.hex_encode ciphertext).

Definition decrypt (key aad nonce_hex ciphertext_hex : string) : result string string :=
  nonce ← fixed_hex 24 nonce_hex;
  ciphertext ← ok_of_option "invalid hex" (hex_decode ciphertext_hex);
  ok_of_option "receive decryption failed" (aead_decrypt key nonce aad ciphertext).

(** ** Sealed offers *)
Definition sealed_validate (s : SealedReceiveOfferV1) : result string unit :=
  _ ← ensure (sealed_version s =? 1) "unsupported receive offer version";
  _ ← check_pubkey (ephemeral_pubkey s);
  _ ← fixed_hex 24 (sealed_nonce_hex s);
  check_ciphertext (sealed_ciphertext_hex s) OFFER_MAX_PLAINTEXT_BYTES.

Definition sealed_encode (s : SealedReceiveOfferV1) : result string string :=
  _ ← sealed_validate s;
  let bytes := to_json s in
  _ ← ensure (str_len bytes <=? RECEIVE_OFFER_MAX_BYTES) "receive offer is too large";
  mret bytes.

Definition sealed_decode (bytes : string) : result string SealedReceiveOfferV1 :=
  _ ← ensure (str_len bytes <=? RECEIVE_OFFER_MAX_BYTES) "receive offer is too large";
  value ← ok_of_option "invalid receive offer" (from_json bytes);
  _ ← sealed_validate value;
  mret value.

Definition signed_part (s : SignedReceiveOffer) : SignedPart :=
  (OFFER_DOMAIN, so_version s, so_sender s, so_recipient s, so_reference s, so_issued_at_ms s, so_expires_at_ms s).
Definition offer_digest (s : SignedReceiveOffer) : Digest := sha256_digest (to_json (signed_part s)).

(** [ephemeral] and [nonce] are drawn for the offer. *)
Definition seal_signed_offer (ephemeral : Keys) (nonce : string) (signed : SignedReceiveOffer)
    : result string SealedReceiveOfferV1 :=
  let plaintext := to_json signed in
  _ ← ensure (str_len plaintext <=? OFFER_MAX_PLAINTEXT_BYTES) "receive offer is too large";
  let ephemeral_pubkey := public_key_hex ephemeral in
  let aad := offer_aad ephemeral_pubkey (so_recipient signed) in
  shared ← pairwise_shared_secret ephemeral (so_recipient signed);
  key ← derive_hkdf_key OFFER_KEY_DOMAIN shared aad "receive offer";
  '(nonce_hex, ciphertext_hex) ← encrypt nonce key aad plaintext;
  let sealed := {| sealed_version := 1; ephemeral_pubkey := ephemeral_pubkey; sealed_nonce_hex := nonce_hex;
                   sealed_ciphertext_hex := ciphertext_hex |} in
  _ ← sealed_encode sealed;
  mret sealed.

Definition seal_receive_offer (ephemeral : Keys) (nonce : string) (sender : Keys) (recipient : string)
    (reference : ReceiveOfferReferenceV1) (issued_at_ms expires_at_ms : Z) : result string SealedReceiveOfferV1 :=
  _ ← reference_validate reference;
  _ ← check_pubkey recipient;
  _ ← check_lifetime issued_at_ms expires_at_ms;
  let signed := {| so_version := 1; so_sender := public_key_hex sender; so_recipient := recipient; so_reference := reference;
                   so_issued_at_ms := issued_at_ms; so_expires_at_ms := expires_at_ms; so_signature := EmptyString |} in
  let signed := {| so_version := so_version signed; so_sender := so_sender signed; so_recipient := so_recipient signed;
                   so_reference := so_reference signed; so_issued_at_ms := so_issued_at_ms signed;
                   so_expires_at_ms := so_expires_at_ms signed; so_signature := sign_schnorr sender (offer_digest signed) |} in
  seal_signed_offer ephemeral nonce signed.

(** [SignedReceiveOffer::verify] *)
Definition signed_verify (s : SignedReceiveOffer) (recipient : string) (now_ms : Z) : result string unit :=
  _ ← ensure ((so_version s =? 1) && bool_decide (so_recipient s = recipient)) "receive offer recipient/version mismatch";
  _ ← check_pubkey (so_sender s);
  _ ← reference_validate (so_reference s);
  _ ← check_lifetime (so_issued_at_ms s) (so_expires_at_ms s);
  _ ← ensure ((0 <=? now_ms) && (now_ms <? so_expires_at_ms s)) "receive offer expired";
  _ ← ensure (so_issued_at_ms s <=? i64_saturating_add now_ms 60000) "receive offer is from the future";
  _ ← fixed_hex 64 (so_signature s);
  signature ← ok_of_option "invalid signature" (signature_from_str (so_signature s));
  sender ← ok_of_option "invalid public key" (public_key_from_str (so_sender s));
  ensure (schnorr_verify signature (offer_digest s) sender) "receive offer signature verification failed".

(** [open]: the signed offer, which is then called verified ([VerifiedReceiveOffer]). *)
Definition sealed_open (s : SealedReceiveOfferV1) (recipient : Keys) (now_ms : Z) : result string SignedReceiveOffer :=
  _ ← sealed_validate s;
  let recipient_pubkey := public_key_hex recipient in
  let aad := offer_aad (ephemeral_pubkey s) recipient_pubkey in
  shared ← pairwise_shared_secret recipient (ephemeral_pubkey s);
  key ← derive_hkdf_key OFFER_KEY_DOMAIN shared aad "receive offer";
  plaintext ← decrypt key aad (sealed_nonce_hex s) (sealed_ciphertext_hex s);
  signed ← ok_of_option "invalid signed receive offer" (from_json plaintext);
  _ ← signed_verify signed recipient_pubkey now_ms;
  mret signed.

(** ** Payloads of private channels *)
Definition private_aad (version : Z) (epoch_key_id : string) : string :=
  json_array [JStr PRIVATE_AAD_DOMAIN; JNum version; JStr epoch_key_id].

Definition seal_private_receive_payload (nonce secret channel epoch plaintext : string)
    : result string PrivateReceivePayloadV1 :=
  _ ← ensure (str_len plaintext <=? PRIVATE_RECEIVE_PAYLOAD_MAX_PLAINTEXT_BYTES) "private receive payload is too large";
  epoch_key_id ← receive_epoch_key_id secret channel epoch;
  key ← epoch_key_hash secret channel epoch PRIVATE_KEY_DOMAIN;
  '(nonce_hex, ciphertext_hex) ← encrypt nonce key (private_aad 1 epoch_key_id) plaintext;
  mret {| pp_version := 1; pp_epoch_key_id := epoch_key_id; pp_nonce_hex := nonce_hex; pp_ciphertext_hex := ciphertext_hex |}.

Definition payload_validate (p : PrivateReceivePayloadV1) : result string unit :=
  _ ← ensure (pp_version p =? 1) "unsupported private receive payload version";
  _ ← fixed_hex 32 (pp_epoch_key_id p);
  _ ← fixed_hex 24 (pp_nonce_hex p);
  check_ciphertext (pp_ciphertext_hex p) PRIVATE_RECEIVE_PAYLOAD_MAX_PLAINTEXT_BYTES.

Definition payload_encode (p : PrivateReceivePayloadV1) : result string string :=
  _ ← payload_validate p;
  let bytes := to_json p in
  _ ← ensure (str_len bytes <=? RECEIVE_PAYLOAD_MAX_BYTES) "private receive payload is too large";
  mret bytes.

Definition payload_decode (bytes : string) : result string PrivateReceivePayloadV1 :=
  _ ← ensure (str_len bytes <=? RECEIVE_PAYLOAD_MAX_BYTES) "private receive payload is too large";
  value ← ok_of_option "invalid private receive payload" (from_json bytes);
  _ ← payload_validate value;
  mret value.

Definition payload_open (p : PrivateReceivePayloadV1) (secret channel epoch : string) : result string string :=
  _ ← payload_validate p;
  expected ← receive_epoch_key_id secret channel epoch;
  _ ← ensure (bool_decide (pp_epoch_key_id p = expected)) "private receive epoch mismatch";
  key ← epoch_key_hash secret channel epoch PRIVATE_KEY_DOMAIN;
  decrypt key (private_aad (pp_version p) (pp_epoch_key_id p)) (pp_nonce_hex p) (pp_ciphertext_hex p).
End offers.
