(* ===== verification/ReceiveOfferProps.v ===== *)
(** * Properties of receive offers

    A sealed offer opens for its recipient, during its life, as the offer that was signed;
    whatever opens carries a signature of its sender over all its fields and is at most six
    minutes away from its end. *)
From S2P Require Import Prelude RustStr Envelope Replicas AccountSyncItem ChannelSeal DirectMessageStore DirectMessage DirectMessageFrameProps ReceiveOffer.

(** Public keys and signatures are printed as the hexadecimal digits of 32 and 64 bytes. *)
Class KeyTextLaws `{Crypto} `{HexCrate} := {
  public_key_text k : exists b, String.length b = 32%nat /\ public_key_hex k = Replicas.hex_encode b;
  signature_text k d : exists b, String.length b = 64%nat /\ sign_schnorr k d = Replicas.hex_encode b
}.

(** What a verified offer shows. *)
Record genuine_offer `{Crypto} `{Json SignedPart} (v : SignedReceiveOffer) (recipient : string) (now : Z) : Prop := {
  go_recipient : so_recipient v = recipient;
  go_signed : exists s p, signature_from_str (so_signature v) = Some s /\ public_key_from_str (so_sender v) = Some p
              /\ schnorr_verify s (offer_digest v) p = true;
  go_live : 0 <= now < so_expires_at_ms v;
  go_short : so_expires_at_ms v <= now + 360000
}.

Section offers.
Context `{CL : CryptoLaws} {E : Ecdh} {EL : EcdhLaws} `{HL : HexCrateLaws} {KL : KeyTextLaws} `{B : Blake3Crate} `{AL : AeadLaws}.
Context {JA : JsonArray} {JP : Json SignedPart} `{SL : JsonLaws SignedReceiveOffer} `{OL : JsonLaws SealedReceiveOfferV1}.
Context `{PL : JsonLaws PrivateReceivePayloadV1}.

Lemma check_lifetime_ok issued expires u :
  check_lifetime issued expires = Ok u -> 0 <= issued /\ 1 <= expires - issued <= RECEIVE_OFFER_MAX_LIFETIME_MS.
Proof.
  unfold check_lifetime, i64_checked_sub. intros Hc. inv_result.
  match goal with He : (if _ then _ else _) = Some _ |- _ => destruct (in_i64 _); [injection He as <- | done] end.
  destruct_bools. rewrite Z.leb_le in *. lia.
Qed.

(** Whatever opens was signed by the sender it names, for this account, and is in its life. *)
Lemma opened_offer_genuine s b now v : sealed_open s b now = Ok v -> genuine_offer v (public_key_hex b) now.
Proof.
  unfold sealed_open. intros Ho. inv_result.
  match goal with Hv : signed_verify _ _ _ = Ok _ |- _ => unfold signed_verify in Hv end. inv_result. destruct_bools.
  match goal with Hl : check_lifetime _ _ = Ok _ |- _ => apply check_lifetime_ok in Hl; unfold RECEIVE_OFFER_MAX_LIFETIME_MS in Hl end.
  injection Ho as ->. rewrite ?Z.leb_le, ?Z.ltb_lt in *. constructor; [done | eauto 6 | lia|].
  unfold i64_saturating_add, sat_i64, i64_min in *. lia.
Qed.

(** What an offer opens as does not depend on the time. *)
Lemma opened_once s b now now' v v' : sealed_open s b now = Ok v -> sealed_open s b now' = Ok v' -> v = v'.
Proof. unfold sealed_open. intros Hv Hv'. inv_result. congruence. Qed.

Lemma fixed_hex_encoded n b : Z.of_nat (String.length b) = n -> fixed_hex n (Replicas.hex_encode b) = Ok b.
Proof using HL.
  intros Hn. unfold fixed_hex, str_len. rewrite hex_encode_length, hex_encode_lower, hex_decode_encode.
  rewrite (proj2 (Z.eqb_eq _ _)) by lia. done.
Qed.

Lemma decrypt_encrypted nonce key aad p n c :
  String.length nonce = 24%nat -> encrypt nonce key aad p = Ok (n, c) -> decrypt key aad n c = Ok p.
Proof using HL AL.
  intros Hn. unfold encrypt, decrypt. intros He. inv_result. injection He as <- <-.
  rewrite fixed_hex_encoded by (rewrite Hn; done). cbn [mbind result_bind]. rewrite hex_decode_encode. cbn [ok_of_option mbind result_bind].
  match goal with Ha : aead_encrypt _ _ _ _ = Some _ |- _ => apply aead_decrypt_spec in Ha; by rewrite Ha end.
Qed.

Lemma check_pubkey_own k : check_pubkey (public_key_hex k) = Ok tt.
Proof using CL HL KL.
  destruct (public_key_text k) as (b & Hl & Hb), (public_key_valid k) as [p Hp]. unfold check_pubkey.
  rewrite Hb, fixed_hex_encoded by (by rewrite Hl). cbn [mbind result_bind]. rewrite <- Hb. apply validate_pubkey_ok. eauto.
Qed.

(** Both ends of an offer derive the same key. *)
Lemma shared_secret_sym a b : pairwise_shared_secret a (public_key_hex b) = pairwise_shared_secret b (public_key_hex a).
Proof using CL EL.
  destruct (public_key_valid a) as [pa Ha], (public_key_valid b) as [pb Hb]. unfold pairwise_shared_secret. rewrite Ha, Hb. cbn.
  fold (even_secret a) (even_secret b). by rewrite (ecdh_symmetric a b pa pb Ha Hb).
Qed.

Definition signed_offer (a : Keys) (recipient : string) (reference : ReceiveOfferReferenceV1) (issued expires : Z) : SignedReceiveOffer :=
  let s := {| so_version := 1; so_sender := public_key_hex a; so_recipient := recipient; so_reference := reference;
              so_issued_at_ms := issued; so_expires_at_ms := expires; so_signature := EmptyString |} in
  {| so_version := 1; so_sender := public_key_hex a; so_recipient := recipient; so_reference := reference;
     so_issued_at_ms := issued; so_expires_at_ms := expires; so_signature := sign_schnorr a (offer_digest s) |}.

Lemma signed_offer_verifies a recipient reference issued expires now :
  reference_validate reference = Ok tt -> check_lifetime issued expires = Ok tt ->
  0 <= now < expires -> issued <= i64_saturating_add now 60000 ->
  signed_verify (signed_offer a recipient reference issued expires) recipient now = Ok tt.
Proof using CL HL KL.
  intros Hr Hl Hnow Hi. unfold signed_verify, signed_offer.
  cbn [so_version so_sender so_recipient so_reference so_issued_at_ms so_expires_at_ms so_signature].
  rewrite bool_decide_true by done. change (1 =? 1) with true. cbn [andb ensure mbind result_bind].
  rewrite check_pubkey_own. cbn [mbind result_bind].
  rewrite Hr, Hl. cbn [mbind result_bind].
  replace ((0 <=? now) && (now <? expires)) with true by (symmetry; apply andb_true_iff; rewrite Z.leb_le, Z.ltb_lt; lia).
  rewrite (proj2 (Z.leb_le _ _) Hi). cbn [ensure mbind result_bind].
  match goal with |- context [sign_schnorr a ?d] =>
    destruct (signature_text a d) as (sb & Hsl & Hsb), (sign_verifies a d) as (s & p & Hs & Hp & Hv) end.
  rewrite Hsb at 1. rewrite fixed_hex_encoded by (by rewrite Hsl). cbn [ok_of_option mbind result_bind].
  rewrite Hs. cbn [ok_of_option mbind result_bind].
  rewrite Hp. cbn [ok_of_option mbind result_bind]. change (offer_digest _) with (offer_digest
    {| so_version := 1; so_sender := public_key_hex a; so_recipient := recipient; so_reference := reference;
       so_issued_at_ms := issued; so_expires_at_ms := expires; so_signature := EmptyString |}). by rewrite Hv.
Qed.

(** Sealing a signed offer and opening it. *)
Lemma sealed_signed_opens e nonce a b reference issued expires sealed now :
  let signed := signed_offer a (public_key_hex b) reference issued expires in
  String.length nonce = 24%nat -> seal_signed_offer e nonce signed = Ok sealed ->
  signed_verify signed (public_key_hex b) now = Ok tt -> sealed_open sealed b now = Ok signed.
Proof using CL EL HL AL SL.
  cbv zeta. intros Hn Hs Hv. unfold seal_signed_offer in Hs. apply result_bind_ok in Hs as (? & _ & Hs). cbn zeta in Hs.
  apply result_bind_ok in Hs as (shared & Hshared & Hs). apply result_bind_ok in Hs as (key & Hk & Hs).
  apply result_bind_ok in Hs as ([n c] & Hc & Hs). apply result_bind_ok in Hs as (? & He & Hs). injection Hs as <-.
  unfold sealed_encode in He. apply result_bind_ok in He as ([] & Hval & _).
  unfold sealed_open. rewrite Hval. cbn [mbind result_bind ephemeral_pubkey sealed_nonce_hex sealed_ciphertext_hex].
  change (so_recipient (signed_offer _ _ _ _ _)) with (public_key_hex b) in *.
  rewrite shared_secret_sym in Hshared. rewrite Hshared. cbn [mbind result_bind]. rewrite Hk. cbn [mbind result_bind].
  rewrite (decrypt_encrypted _ _ _ _ _ _ Hn Hc). cbn [mbind result_bind]. rewrite from_to_json.
  cbn [ok_of_option mbind result_bind]. by rewrite Hv.
Qed.

(** C32: a sealed offer fits its size limit, survives its encoding, and opens for its
    recipient during its life as the reference that was offered, with the sender's name;
    and nothing opens for an account unless it is signed by the sender it names, addressed
    to that account and within six minutes of its end. *)
Theorem offer_roundtrip e nonce a b reference issued expires sealed now :
  String.length nonce = 24%nat ->
  seal_receive_offer e nonce a (public_key_hex b) reference issued expires = Ok sealed ->
  0 <= now < expires -> issued <= i64_saturating_add now 60000 ->
  (exists bytes, sealed_encode sealed = Ok bytes /\ str_len bytes <= RECEIVE_OFFER_MAX_BYTES /\ sealed_decode bytes = Ok sealed)
  /\ (exists v, sealed_open sealed b now = Ok v /\ so_sender v = public_key_hex a /\ so_reference v = reference
      /\ so_expires_at_ms v = expires)
  /\ (forall s v, sealed_open s b now = Ok v -> genuine_offer v (public_key_hex b) now).
Proof using CL EL HL KL AL SL OL.
  intros Hn Hs Hnow Hi. unfold seal_receive_offer in Hs. apply result_bind_ok in Hs as ([] & Hr & Hs).
  apply result_bind_ok in Hs as ([] & _ & Hs). apply result_bind_ok in Hs as ([] & Hl & Hs). cbn zeta in Hs.
  change (seal_signed_offer e nonce (signed_offer a (public_key_hex b) reference issued expires) = Ok sealed) in Hs.
  split_and!; [| |intros s v; apply opened_offer_genuine].
  - assert (Hs' := Hs). unfold seal_signed_offer in Hs'. apply result_bind_ok in Hs' as (? & _ & Hs'). cbn zeta in Hs'.
    apply result_bind_ok in Hs' as (? & _ & Hs'). apply result_bind_ok in Hs' as (? & _ & Hs').
    apply result_bind_ok in Hs' as ([n c] & _ & Hs'). apply result_bind_ok in Hs' as (bytes & He & Hs').
    injection Hs' as Hsealed. rewrite Hsealed in He. exists bytes. split; [done|].
    unfold sealed_encode in He. apply result_bind_ok in He as ([] & Hv & He). cbn zeta in He.
    apply result_bind_ok in He as (? & Hb & He). injection He as <-. apply ensure_ok in Hb.
    split; [by apply Z.leb_le|]. unfold sealed_decode. rewrite Hb. cbn [ensure mbind result_bind]. rewrite from_to_json.
    cbn [ok_of_option mbind result_bind]. by rewrite Hv.
  - exists (signed_offer a (public_key_hex b) reference issued expires). split_and!; [|done..].
    apply (sealed_signed_opens e nonce); [done..|]. by apply signed_offer_verifies.
Qed.

(** A payload sealed under an epoch opens as itself. *)
Lemma private_payload_roundtrip nonce secret channel epoch plaintext p bytes :
  String.length nonce = 24%nat -> seal_private_receive_payload nonce secret channel epoch plaintext = Ok p ->
  payload_encode p = Ok bytes -> payload_decode bytes = Ok p /\ payload_open p secret channel epoch = Ok plaintext.
Proof using HL AL PL.
  intros Hn Hs He. unfold payload_encode in He. apply result_bind_ok in He as ([] & Hv & He). cbn zeta in He.
  apply result_bind_ok in He as (? & Hb & He). apply ensure_ok in Hb. injection He as <-.
  split; [unfold payload_decode; rewrite Hb; cbn [ensure mbind result_bind]; rewrite from_to_json;
    cbn [ok_of_option mbind result_bind]; by rewrite Hv|].
  unfold seal_private_receive_payload in Hs. apply result_bind_ok in Hs as (? & _ & Hs).
  apply result_bind_ok in Hs as (id & Hid & Hs). apply result_bind_ok in Hs as (key & Hk & Hs).
  apply result_bind_ok in Hs as ([n c] & Hc & Hs). injection Hs as <-.
  unfold payload_open. rewrite Hv. cbn [mbind result_bind pp_epoch_key_id pp_version pp_nonce_hex pp_ciphertext_hex].
  rewrite Hid. cbn [mbind result_bind]. rewrite bool_decide_true by done. cbn [ensure mbind result_bind].
  rewrite Hk. cbn [mbind result_bind]. exact (decrypt_encrypted _ _ _ _ _ _ Hn Hc).
Qed.
End offers.
