(* ===== verification/Notifications.v ===== *)
(** * Notifications (crates/store: models.rs, traits.rs, memory/notifications.rs)

    The inbox of an account.  Each notification is filed once, under its id, and gets the
    next number of a dispatch sequence.  "Mark all as read" does not touch the rows: it
    records the last number, and a row numbered at or below it is shown as read.  The number
    of unread notifications is kept beside the rows.  A panic (an index that is missing) is
    [None]. *)
From S2P Require Import Prelude RustStr DirectMessageStore.

Definition NOTIFICATION_DISPATCH_PAGE_SIZE : nat := 64.
Definition NOTIFICATION_PAGE_SIZE : nat := 20.

Inductive NotificationKind := Mention | Reply | Repost | QuoteRepost | KindDirectMessage | Followed.

Record NotificationRow := {
  notification_id : string;
  n_recipient_pubkey : string;
  n_kind : NotificationKind;
  n_actor_pubkey : string;
  n_source_envelope_id : option string;
  n_source_replica_id : option string;
  n_topic_id : option string;
  n_channel_id : option string;
  n_object_id : option string;
  n_dm_id : option string;
  n_message_id : option string;
  n_preview_text : option string;
  n_content_labels : option (list string);
  n_created_at : Z;
  received_at : Z;
  read_at : option Z
}.

Record NotificationCursor := { nc_received_at : Z; nc_notification_id : string }.

Record MemoryNotificationRows := {
  n_rows : gmap string NotificationRow;
  by_received_at : gset (Z * string);
  by_sequence : gmap Z string;
  sequence_by_id : gmap string Z;
  last_sequence : Z;
  read_through_sequence : Z;
  read_through_at : option Z;
  unread_count : Z
}.
Definition empty_notifications : MemoryNotificationRows :=
  {| n_rows := ∅; by_received_at := ∅; by_sequence := ∅; sequence_by_id := ∅; last_sequence := 0;
     read_through_sequence := 0; read_through_at := None; unread_count := 0 |}.

Definition with_read_at (at_ : option Z) (r : NotificationRow) : NotificationRow :=
  {| notification_id := notification_id r; n_recipient_pubkey := n_recipient_pubkey r; n_kind := n_kind r;
     n_actor_pubkey := n_actor_pubkey r; n_source_envelope_id := n_source_envelope_id r;
     n_source_replica_id := n_source_replica_id r; n_topic_id := n_topic_id r; n_channel_id := n_channel_id r;
     n_object_id := n_object_id r; n_dm_id := n_dm_id r; n_message_id := n_message_id r; n_preview_text := n_preview_text r;
     n_content_labels := n_content_labels r; n_created_at := n_created_at r; received_at := received_at r; read_at := at_ |}.

Definition visible_notification (n : MemoryNotificationRows) (r : NotificationRow) : option NotificationRow :=
  match read_at r with
  | Some _ => Some r
  | None =>
      seq ← sequence_by_id n !! notification_id r;
      Some (if seq <=? read_through_sequence n then with_read_at (read_through_at n) r else r)
  end.

(** The outer [option] of a read is the panic. *)
Definition get_notification (id : string) (n : MemoryNotificationRows) : option (option NotificationRow) :=
  match n_rows n !! id with
  | None => Some None
  | Some r => v ← visible_notification n r; Some (Some v)
  end.

Definition put_notification_if_absent (r : NotificationRow) (n : MemoryNotificationRows)
    : result string bool * MemoryNotificationRows :=
  if bool_decide (is_Some (n_rows n !! notification_id r)) then (Ok false, n)
  else if last_sequence n + 1 <=? i64_max then
    let next := last_sequence n + 1 in
    (Ok true,
     {| n_rows := <[notification_id r := r]> (n_rows n);
        by_received_at := {[ (received_at r, notification_id r) ]} ∪ by_received_at n;
        by_sequence := <[next := notification_id r]> (by_sequence n);
        sequence_by_id := <[notification_id r := next]> (sequence_by_id n);
        last_sequence := next; read_through_sequence := read_through_sequence n; read_through_at := read_through_at n;
        unread_count := match read_at r with None => unread_count n + 1 | Some _ => unread_count n end |})
  else (Err "notification dispatch sequence exhausted", n).

Definition read_all (ids : list string) (n : MemoryNotificationRows) : option (list NotificationRow) :=
  mapM (fun id => r ← n_rows n !! id; visible_notification n r) ids.

Definition nc_key (c : NotificationCursor) : Z * string := (nc_received_at c, nc_notification_id c).
Definition cursor_of_notification (r : NotificationRow) : NotificationCursor :=
  {| nc_received_at := received_at r; nc_notification_id := notification_id r |}.

(** [before]: newer than the cursor, in ascending order; otherwise older, newest first. *)
Definition list_notifications_page (cursor : option NotificationCursor) (before : bool) (n : MemoryNotificationRows)
    : result string (option (list NotificationRow)) :=
  ids ← (if before then
           c ← ok_of_option "newer notification page requires cursor" cursor;
           mret (List.filter (fun k => rust_ltb (nc_key c) k) (set_iter (by_received_at n)))
         else
           mret (rev (List.filter (fun k => match cursor with Some c => rust_ltb k (nc_key c) | None => true end)
                        (set_iter (by_received_at n)))));
  mret (read_all (take (NOTIFICATION_PAGE_SIZE + 1) ids).*2 n).

(** [list_notifications] of the trait: pages of one more than they show. *)
Fixpoint list_notifications (fuel : nat) (cursor : option NotificationCursor) (n : MemoryNotificationRows)
    : option (list NotificationRow) :=
  match fuel with
  | O => None
  | S fuel =>
      match list_notifications_page cursor false n with
      | Ok (Some page) =>
          let more := (NOTIFICATION_PAGE_SIZE <? length page)%nat in
          let page := take NOTIFICATION_PAGE_SIZE page in
          if more then
            rest ← list_notifications fuel (cursor_of_notification <$> last page) n;
            Some (page ++ rest)%list
          else Some page
      | _ => None
      end
  end.

Definition list_notification_dispatch_after (after_sequence : Z) (n : MemoryNotificationRows)
    : option (list (Z * NotificationRow)) :=
  mapM (fun p : Z * string => r ← n_rows n !! p.2; v ← visible_notification n r; Some (p.1, v))
    (take NOTIFICATION_DISPATCH_PAGE_SIZE
       (sort_by (fun p q => p.1 <=? q.1)
          (List.filter (fun p => after_sequence <? p.1) (map_to_list (by_sequence n))))).

Definition with_unread (rows : gmap string NotificationRow) (count : Z) (n : MemoryNotificationRows) : MemoryNotificationRows :=
  {| n_rows := rows; by_received_at := by_received_at n; by_sequence := by_sequence n; sequence_by_id := sequence_by_id n;
     last_sequence := last_sequence n; read_through_sequence := read_through_sequence n;
     read_through_at := read_through_at n; unread_count := count |}.

(** [None]: the counter is subtracted from below zero. *)
Definition mark_notification_read (id : string) (at_ : Z) (n : MemoryNotificationRows) : option MemoryNotificationRows :=
  let active := match sequence_by_id n !! id with Some s => read_through_sequence n <? s | None => false end in
  match n_rows n !! id with
  | Some r =>
      if active && bool_decide (read_at r = None) then
        count ← usize_sub (unread_count n) 1;
        Some (with_unread (<[id := with_read_at (Some at_) r]> (n_rows n)) count n)
      else Some n
  | None => Some n
  end.

Definition mark_all_notifications_read (at_ : Z) (n : MemoryNotificationRows) : MemoryNotificationRows :=
  if 0 <? unread_count n then
    {| n_rows := n_rows n; by_received_at := by_received_at n; by_sequence := by_sequence n; sequence_by_id := sequence_by_id n;
       last_sequence := last_sequence n; read_through_sequence := last_sequence n; read_through_at := Some at_; unread_count := 0 |}
  else n.

(** ** The invariant *)

(** What is shown as unread. *)
Definition shown_unread (n : MemoryNotificationRows) (p : string * NotificationRow) : Prop :=
  read_at p.2 = None /\ exists s, sequence_by_id n !! p.1 = Some s /\ read_through_sequence n < s.
#[local] Instance shown_unread_dec n p : Decision (shown_unread n p).
Proof.
  unfold shown_unread. destruct (decide (read_at p.2 = None)); [|right; tauto].
  destruct (sequence_by_id n !! p.1) as [s|]; [|right; naive_solver].
  destruct (decide (read_through_sequence n < s)); [left; eauto | right; naive_solver].
Defined.

Record notifications_wf (n : MemoryNotificationRows) : Prop := {
  nw_keyed : map_Forall (fun id r => notification_id r = id) (n_rows n);
  nw_received : forall x, x ∈ by_received_at n <-> exists r, n_rows n !! x.2 = Some r /\ received_at r = x.1;
  nw_sequence : forall id s, sequence_by_id n !! id = Some s <-> by_sequence n !! s = Some id;
  nw_rows : forall id, is_Some (n_rows n !! id) <-> is_Some (sequence_by_id n !! id);
  nw_range : forall id s, sequence_by_id n !! id = Some s -> 1 <= s <= last_sequence n;
  nw_through : 0 <= read_through_sequence n <= last_sequence n;
  nw_through_at : 0 < read_through_sequence n -> is_Some (read_through_at n);
  nw_unread : unread_count n = Z.of_nat (size (filter (shown_unread n) (n_rows n)))
}.

Lemma empty_notifications_wf : notifications_wf empty_notifications.
Proof.
  split; cbn; try done.
  - intros x. split; [set_solver | by intros (r & Hr & _)].
  - intros id. rewrite !lookup_empty. by split; intros [? ?].
Qed.

Lemma put_notification_wf r n : notifications_wf n -> notifications_wf (put_notification_if_absent r n).2.
Proof.
  intros Hwf. unfold put_notification_if_absent. case_bool_decide as Hp; [done|]. case_match eqn:El; [|done]. cbn [snd].
  destruct Hwf as [Hk Hr Hs Hrows Hrange Ht Hta Hu].
  assert (Hnone : n_rows n !! notification_id r = None) by (destruct (n_rows n !! _); [by destruct Hp; eauto | done]).
  assert (Hseq : sequence_by_id n !! notification_id r = None).
  { destruct (sequence_by_id n !! notification_id r) eqn:E; [|done]. destruct Hp. apply Hrows. eauto. }
  assert (Hnext : by_sequence n !! (last_sequence n + 1) = None).
  { destruct (by_sequence n !! _) as [id|] eqn:E; [|done]. apply Hs, Hrange in E. lia. }
  split; cbn.
  - by apply map_Forall_insert_2.
  - intros [t id]. rewrite elem_of_union, elem_of_singleton, (Hr (t, id)). cbn. split.
    + intros [[= -> ->]|(r' & Hr' & Ht')]; [exists r; by rewrite lookup_insert_eq|].
      exists r'. rewrite lookup_insert_ne; [done|]. congruence.
    + intros (r' & [[<- <-]|[? Hr']]%lookup_insert_Some & <-); [by left | right; eauto].
  - intros id s. destruct (decide (id = notification_id r)) as [->|Hid].
    + rewrite lookup_insert_eq. split; [intros [= <-]; by rewrite lookup_insert_eq|].
      intros [[<- _]|[_ Hs']]%lookup_insert_Some; [done|]. apply Hs in Hs'. congruence.
    + rewrite lookup_insert_ne by done. rewrite Hs. destruct (decide (s = last_sequence n + 1)) as [->|].
      * rewrite lookup_insert_eq, Hnext. split; [done | congruence].
      * by rewrite lookup_insert_ne.
  - intros id. destruct (decide (id = notification_id r)) as [->|]; [rewrite !lookup_insert_eq; split; eauto|].
    by rewrite !lookup_insert_ne.
  - intros id s [[_ <-]|[_ Hid]]%lookup_insert_Some; [lia|]. apply Hrange in Hid. lia.
  - lia.
  - done.
  - set (n' := {| n_rows := _ |}).
    assert (Hsame : filter (shown_unread n') (n_rows n) = filter (shown_unread n) (n_rows n)).
    { apply map_filter_ext. intros id x Hx. unfold shown_unread. cbn. rewrite lookup_insert_ne; [done|]. congruence. }
    change (n_rows n') with (<[notification_id r := r]> (n_rows n)). rewrite map_filter_insert. case_decide as Hc.
    + destruct Hc as [Er _]. cbn in Er. rewrite Hsame, map_size_insert_None, Er; [lia|]. apply map_lookup_filter_None. by left.
    + rewrite (delete_id (n_rows n)), Hsame by done. destruct (read_at r) eqn:Er; [done|]. exfalso. apply Hc.
      split; [done|]. exists (last_sequence n + 1). cbn. rewrite lookup_insert_eq. split; [done | lia].
Qed.

(** A row that counts as unread is counted. *)
Lemma unread_counted n id r : notifications_wf n -> n_rows n !! id = Some r -> shown_unread n (id, r) -> 1 <= unread_count n.
Proof.
  intros Hwf Hr Hs. rewrite (nw_unread _ Hwf).
  assert (size (filter (shown_unread n) (n_rows n)) <> 0%nat); [|lia].
  rewrite map_size_ne_0_lookup. exists id. rewrite (proj2 (map_lookup_filter_Some _ _ id r)); eauto.
Qed.

Lemma mark_read_wf id t n : notifications_wf n -> exists n', mark_notification_read id t n = Some n' /\ notifications_wf n'.
Proof.
  intros Hwf. unfold mark_notification_read. destruct (n_rows n !! id) as [r|] eqn:Er; [|eauto].
  destruct (sequence_by_id n !! id) as [s|] eqn:Es; [|eauto]. destruct (read_through_sequence n <? s) eqn:El; [|eauto].
  apply Z.ltb_lt in El. cbn [andb]. case_bool_decide as Hn; [|eauto].
  assert (Hun : shown_unread n (id, r)) by (split; [done | eauto]).
  rewrite usize_sub_some by exact (unread_counted n id r Hwf Er Hun). cbn. eexists. split; [done|].
  destruct Hwf as [Hk Hr Hs Hrows Hrange Ht Hta Hu]. split; cbn; try done.
  - apply map_Forall_insert_2; [by apply Hk in Er | done].
  - intros [t' id']. rewrite (Hr (t', id')). cbn. destruct (decide (id' = id)) as [->|]; [|by rewrite lookup_insert_ne].
    rewrite lookup_insert_eq, Er. split; [intros (? & [= <-] & <-) | intros (? & [= <-] & <-)]; eauto.
  - intros id'. destruct (decide (id' = id)) as [->|]; [rewrite lookup_insert_eq, Es; split; eauto|].
    rewrite lookup_insert_ne by done. apply Hrows.
  - rewrite map_filter_insert_False, map_filter_delete by (intros [? _]; done).
    rewrite map_size_delete_Some by (eexists; apply map_lookup_filter_Some; eauto). rewrite Hu.
    set (sz := size (filter (shown_unread n) (n_rows n))). change (Z.of_nat sz - 1 = Z.of_nat (Nat.pred sz)).
    assert (sz <> 0%nat); [|lia]. apply map_size_ne_0_lookup. exists id. rewrite (proj2 (map_lookup_filter_Some _ _ id r)); eauto.
Qed.

Lemma mark_all_wf t n : notifications_wf n -> notifications_wf (mark_all_notifications_read t n).
Proof.
  intros Hwf. unfold mark_all_notifications_read. case_match; [|done].
  destruct Hwf as [Hk Hr Hs Hrows Hrange Ht Hta Hu]. split; cbn; try done; [lia|].
  symmetry. rewrite <- Nat2Z.inj_0. f_equal. apply map_size_empty_iff, map_eq. intros id. rewrite lookup_empty.
  apply map_lookup_filter_None. right. intros r Hid [_ (s & Hs' & Hlt)]. cbn in *. apply Hrange in Hs'. lia.
Qed.

(** ** Every sequence of calls *)
Inductive NotificationOp :=
| PutNotification (r : NotificationRow)
| MarkRead (id : string) (at_ : Z)
| MarkAllRead (at_ : Z).

Definition notification_step (op : NotificationOp) (n : MemoryNotificationRows) : option MemoryNotificationRows :=
  match op with
  | PutNotification r => Some (put_notification_if_absent r n).2
  | MarkRead id t => mark_notification_read id t n
  | MarkAllRead t => Some (mark_all_notifications_read t n)
  end.
Fixpoint run_notifications (ops : list NotificationOp) (n : MemoryNotificationRows) : option MemoryNotificationRows :=
  match ops with [] => Some n | op :: ops => n ← notification_step op n; run_notifications ops n end.

Lemma run_notifications_wf ops n : notifications_wf n -> exists n', run_notifications ops n = Some n' /\ notifications_wf n'.
Proof.
  revert n. induction ops as [|op ops IH]; intros n Hwf; cbn; [eauto|].
  destruct op as [r|id t|t]; cbn.
  - by apply IH, put_notification_wf.
  - destruct (mark_read_wf id t n Hwf) as (n' & -> & Hwf'). by apply IH.
  - by apply IH, mark_all_wf.
Qed.

(** A read does not panic and shows the row as unread exactly when it counts. *)
Lemma get_notification_shows n id r :
  notifications_wf n -> n_rows n !! id = Some r ->
  exists v, get_notification id n = Some (Some v) /\ notification_id v = id /\ (read_at v = None <-> shown_unread n (id, r)).
Proof.
  intros Hwf Hr. unfold get_notification, visible_notification. rewrite Hr. assert (Hid := nw_keyed _ Hwf _ _ Hr). cbn in Hid.
  destruct (read_at r) as [t|] eqn:Et; cbn.
  - exists r. split_and!; [done..|]. unfold shown_unread. cbn. rewrite Et. naive_solver.
  - destruct (proj1 (nw_rows _ Hwf id)) as [s Hs]; [eauto|]. rewrite Hid, Hs. cbn. eexists. split; [done|].
    unfold shown_unread. cbn. destruct (s <=? read_through_sequence n) eqn:El.
    + apply Z.leb_le in El. assert (Hrange := nw_range _ Hwf _ _ Hs).
      destruct (nw_through_at _ Hwf) as [t Ht]; [lia|]. cbn. rewrite Ht. split; [done|]. split; [done|].
      intros [_ (s' & Hs' & ?)]. simplify_eq. lia.
    + apply Z.leb_gt in El. split; [done|]. rewrite Et. split; eauto.
Qed.

(** What a user sees as unread. *)
Definition seen_unread (n : MemoryNotificationRows) (id : string) : bool :=
  match get_notification id n with Some (Some v) => bool_decide (read_at v = None) | _ => false end.

(** C31: the number of unread notifications is exact: after any sequence of calls, none of
    which panics, it is the number of rows that reading shows as unread, whether they were
    read one by one or all at once. *)
Theorem unread_count_exact ops :
  exists n, run_notifications ops empty_notifications = Some n
    /\ unread_count n = Z.of_nat (size (filter (fun p => seen_unread n p.1 = true) (n_rows n)))
    /\ forall id, is_Some (n_rows n !! id) -> exists v, get_notification id n = Some (Some v) /\ notification_id v = id.
Proof.
  destruct (run_notifications_wf ops _ empty_notifications_wf) as (n & Hrun & Hwf). exists n. split_and!; [done| |].
  - rewrite (nw_unread _ Hwf). do 2 f_equal. apply map_filter_ext. intros id r Hr. cbn.
    destruct (get_notification_shows n id r Hwf Hr) as (v & Hv & _ & Hs). unfold seen_unread. rewrite Hv, <- Hs.
    by rewrite bool_decide_eq_true.
  - intros id [r Hr]. destruct (get_notification_shows n id r Hwf Hr) as (v & Hv & Hid & _). eauto.
Qed.
