(* ===== verification/DirectMessageService.v ===== *)
(** * Direct messages of the application service (crates/app-api/src: direct_messages.rs and
    service: direct_messages_delivery_support.rs, direct_messages_subscription_support.rs,
    receive_offer_support.rs, attachment_support.rs, notifications_support.rs,
    epoch_control_support.rs)

    A device sends, receives, retries, acknowledges, deletes and clears messages.  [DmDevice]
    holds its tables and inbox, what it placed in the blob store, what it handed to the
    transport, and the state [W] of the other parts of the service.  [DmEnv] answers its
    questions: the [n]-th question gets the [n]-th answer, so that any interleaving with
    the clock, the network and changing relationships is some environment. *)
From S2P Require Import Prelude RustStr Envelope Replicas AccountSyncItem ChannelSeal Calls DirectMessageStore DirectMessage ReceiveOffer Notifications.

Definition DIRECT_MESSAGE_FRAME_MIME : string := "application/vnd.kukuri.direct-message-frame+json".
Definition DIRECT_MESSAGE_ATTACHMENT_MIME : string := "application/vnd.kukuri.direct-message-attachment+json".
Definition EPOCH_CONTROL_MIME : string := "application/vnd.kukuri.epoch-control+json".
Definition DIRECT_MESSAGE_RETRY_INTERVAL_MS : Z := 2000.
Definition NOTIFICATION_PREVIEW_LIMIT : nat := 80.
Definition EPOCH_CONTROL_OUTBOX_PREFIX : string := "epoch-control:".

(** ** Texts *)

(** [chars().take(n)] of UTF-8 bytes: a character starts at each byte that does not continue
    one. *)
Fixpoint take_chars (n : nat) (s : string) : string :=
  match s with
  | EmptyString => EmptyString
  | String a s =>
      if cont a then String a (take_chars n s)
      else match n with O => EmptyString | S n => String a (take_chars n s) end
  end.

Definition normalize_optional_text (v : option string) : option string :=
  v ← v; let trimmed := trim v in if str_is_empty trimmed then None else Some trimmed.

Definition normalize_author_pubkey (pubkey : string) : result string string :=
  let trimmed := trim pubkey in
  _ ← ensure ((str_len trimmed =? 64) && str_all is_ascii_hexdigit trimmed) "invalid author pubkey";
  mret trimmed.

Definition short_id_suffix (author_pubkey : string) : string := default author_pubkey (str_get_to 8 author_pubkey).

Definition notification_preview_text (v : option string) : option string :=
  take_chars NOTIFICATION_PREVIEW_LIMIT <$> normalize_optional_text v.

Definition direct_message_preview (m : DirectMessageMessageRow) : string :=
  match (t ← msg_text m; let t := trim t in if str_is_empty t then None else Some t) with
  | Some t => take_chars 80 t
  | None =>
      match attachment_kind <$> msg_attachment_manifest m with
      | Some Image => "[Image]"
      | Some Video => "[Video]"
      | None => EmptyString
      end
  end.

Definition notification_kind_key (k : NotificationKind) : string :=
  match k with
  | Mention => "mention" | Reply => "reply" | Repost => "repost" | QuoteRepost => "quote_repost"
  | KindDirectMessage => "direct_message" | Followed => "followed"
  end.
Definition document_notification_id (recipient : string) (k : NotificationKind) (source_envelope_id : string) : string :=
  "notification:" ++s recipient ++s COLON ++s notification_kind_key k ++s COLON ++s source_envelope_id.
Definition direct_message_notification_id (recipient : string) (k : NotificationKind) (dm_id message_id : string) : string :=
  "notification:" ++s recipient ++s COLON ++s notification_kind_key k ++s COLON ++s dm_id ++s COLON ++s message_id.

(** ** The device and its surroundings *)
Record PlacedBlob := { blob_bytes : string; blob_mime : string; blob_owner : string }.

(** An offer handed to the transport.  The reference and the times are kept beside the seal. *)
Record PublishedOffer := {
  pub_to : string;
  pub_address : string;
  pub_reference : ReceiveOfferReferenceV1;
  pub_offer : SealedReceiveOfferV1
}.

Record DmDevice (W : Type) := {
  tables : DmTables;
  inbox : MemoryNotificationRows;
  placed : list PlacedBlob;
  published : list PublishedOffer;
  asked : nat;
  others : W
}.
Arguments tables {W}. Arguments inbox {W}. Arguments placed {W}. Arguments published {W}. Arguments asked {W}. Arguments others {W}.

(** [blake3] of a blob, by which it is stored and fetched. *)
Class BlobHash := { blob_hash : string -> string }.

Record DmEnv `{Crypto} := {
  now_ms : nat -> Z;
  drawn_nonce : nat -> string;
  drawn_keys : nat -> Keys;
  (** [get_author_relationship(local, peer)], whether it is mutual *)
  relationship : nat -> string -> result string bool;
  fetch_blob : nat -> string -> result string (option string);
  fetch_local_blob : nat -> string -> result string (option string);
  fetch_offer_payload : nat -> result string string;
  put_blob : nat -> result string unit;
  offer_permit : nat -> bool;
  receive_destination : nat -> string -> result string (option string);
  local_endpoint : nat -> result string string;
  publish_offer : nat -> result string unit;
  invalidate_destination : nat -> result string unit;
  verify_provider : nat -> result string unit;
  learn_peer : nat -> result string unit
}.

(** What other parts of the service do with the offers that are theirs; they change their
    own state only.  [epoch_control_record] returns the id of the envelope it took in, for an
    epoch that [epoch_control_known] finds. *)
Class OtherScopes (W : Type) := {
  ingest_public_notification_offer : SignedReceiveOffer -> Prog W bool;
  ingest_private_notification_offer : SignedReceiveOffer -> string -> Prog W bool;
  epoch_control_known : string -> W -> result string bool;
  epoch_control_record : SignedReceiveOffer -> string -> string -> Prog W string;
  epoch_control_recipient_qualified : string -> string -> W -> result string bool
}.

(** The parts of a hint of the topic of a conversation. *)
Inductive GossipHint :=
| HintDirectMessageFrame (topic_id dm_id message_id frame_hash : string)
| HintDirectMessageAck (topic_id : string) (ack : DirectMessageAckV1)
| HintOther.

Inductive AssetRole := ImageOriginal | ImagePreview | VideoPoster | VideoManifest | ProfileAvatar | RoleAttachment.
#[export] Instance AssetRole_eq_dec : EqDecision AssetRole.
Proof. solve_decision. Defined.
Record PendingAttachment := { pa_mime : string; pa_bytes : string; pa_role : AssetRole }.

Section service.
Context `{Crypto} `{!Ecdh} `{HexCrate} `{Blake3Crate} `{Aead} `{JsonArray}.
Context `{Json DirectMessagePayloadV1} `{Json DirectMessageFrameV1} `{Json DirectMessageEncryptedAttachmentV1}.
Context `{Json SignedPart} `{Json SignedReceiveOffer} `{Json SealedReceiveOfferV1} `{Json PrivateReceivePayloadV1}.
Context `{Json GossipHint} `{Json KukuriEnvelope} `{BlobHash}.
Context {W : Type} `{OtherScopes W}.
(** [EndpointId::from_str] *)
Context (parse_endpoint : string -> option string).
Context (env : DmEnv) (keys : Keys).
#[local] Abbreviation Dev := (DmDevice W).
#[local] Abbreviation Call := (Prog Dev).

Definition local_pubkey : string := public_key_hex keys.

Definition with_tables (f : DmTables -> DmTables) (d : Dev) : Dev :=
  {| tables := f (tables d); inbox := inbox d; placed := placed d; published := published d; asked := asked d; others := others d |}.
Definition counted (d : Dev) : Dev :=
  {| tables := tables d; inbox := inbox d; placed := placed d; published := published d; asked := S (asked d); others := others d |}.

(** The [n]-th question of a device. *)
Definition ask {A} (f : nat -> A) : Call A := fun d => (Ok (f (asked d)), counted d).
Definition ask_ok {A} (f : nat -> result string A) : Call A := fun d => (f (asked d), counted d).
Definition store (f : DmTables -> DmTables) : Call unit := put (with_tables f).
Definition stored {A} (f : DmTables -> A) : Call A := get (fun d => f (tables d)).
(** A call of another part of the service. *)
Definition outside {A} (m : Prog W A) : Call A := fun d =>
  let '(r, w) := m (others d) in
  (r, {| tables := tables d; inbox := inbox d; placed := placed d; published := published d; asked := asked d; others := w |}).

Definition is_mutual (peer : string) : Call bool := ask_ok (fun n => relationship env n peer).

(** [put_owned_blob] *)
Definition put_owned_blob (bytes mime owner : string) : Call string := fun d =>
  match put_blob env (asked d) with
  | Ok _ => (Ok (blob_hash bytes),
             {| tables := tables d; inbox := inbox d;
                placed := {| blob_bytes := bytes; blob_mime := mime; blob_owner := owner |} :: placed d;
                published := published d; asked := S (asked d); others := others d |})
  | Err e => (Err e, counted d)
  end.

(** [publish_receive_offer] under its timeout: an offer that timed out may still arrive. *)
Definition publish_receive_offer (to address : string) (reference : ReceiveOfferReferenceV1) (offer : SealedReceiveOfferV1)
    : Call unit := fun d =>
  (publish_offer env (asked d),
   {| tables := tables d; inbox := inbox d; placed := placed d;
      published := {| pub_to := to; pub_address := address; pub_reference := reference; pub_offer := offer |} :: published d;
      asked := S (asked d); others := others d |}).

Definition seal_offer (to : string) (reference : ReceiveOfferReferenceV1) : Call SealedReceiveOfferV1 :=
  now ← ask (now_ms env);
  ephemeral ← ask (drawn_keys env);
  nonce ← ask (drawn_nonce env);
  lift (seal_receive_offer ephemeral nonce keys to reference now (add_i64 now 60000)).

(** ** Acknowledgements *)
Definition publish_account_receive_dm_ack (peer : string) (ack : DirectMessageAckV1) (destination : string) : Call bool :=
  permit ← ask (offer_permit env);
  if (permit : bool) then
    reference ← lift (inline EmptyString
      (DirectMessageAck (ack_dm_id ack) (ack_message_id ack) (acked_at ack) (ack_signature ack)));
    offer ← seal_offer peer reference;
    _ ← publish_receive_offer peer destination reference offer;
    mret true
  else mret false.

Definition publish_direct_message_ack (peer : string) (ack : DirectMessageAckV1) (ack_destination : option string) : Call unit :=
  match ack_destination with
  | None => mret tt
  | Some destination =>
      mutual ← is_mutual peer;
      if (mutual : bool) then _ ← publish_account_receive_dm_ack peer ack destination; mret tt else mret tt
  end.

(** ** Attachments of a received message *)
Definition materialize_direct_message_blob_ref (peer sender message_id : string) (r : DirectMessageEncryptedBlobRefV1)
    : Call (option DirectMessageEncryptedBlobRefV1) :=
  mutual ← is_mutual peer;
  if negb mutual then mret None else
  bytes ← ask_ok (fun n => fetch_blob env n (ref_hash r));
  bytes ← lift (ok_of_option "direct message attachment blob is missing" bytes);
  mutual ← is_mutual peer;
  if negb mutual then mret None else
  encrypted ← lift (ok_of_option "failed to decode direct message attachment blob" (from_json bytes));
  decrypted ← lift (decrypt_direct_message_attachment keys sender message_id encrypted);
  mutual ← is_mutual peer;
  if negb mutual then mret None else
  let dm_id := direct_message_id_for_participants local_pubkey peer in
  hash ← put_owned_blob decrypted (ref_mime r) ("dm_message:" ++s dm_id ++s "/" ++s message_id);
  mret (Some {| ref_blob_id := ref_blob_id r; ref_hash := hash; ref_mime := ref_mime r; ref_bytes := ref_bytes r;
                ref_nonce_hex := EmptyString |}).

Definition materialize_direct_message_manifest (peer sender message_id : string)
    (manifest : option DirectMessageAttachmentManifestV1) : Call (option DirectMessageAttachmentManifestV1) :=
  match manifest with
  | None => mret None
  | Some m =>
      original ← materialize_direct_message_blob_ref peer sender message_id (original m);
      match original with
      | None => mret None
      | Some original =>
          match poster m with
          | Some p =>
              p ← materialize_direct_message_blob_ref peer sender message_id p;
              match p with
              | None => mret None
              | Some p => mret (Some {| attachment_id := attachment_id m; attachment_kind := attachment_kind m;
                                        original := original; poster := Some p |})
              end
          | None => mret (Some {| attachment_id := attachment_id m; attachment_kind := attachment_kind m;
                                  original := original; poster := None |})
          end
      end
  end.

(** ** Notifications *)
Definition put_notification_row (r : NotificationRow) : Call bool := fun d =>
  let '(res, n) := put_notification_if_absent r (inbox d) in
  (res, {| tables := tables d; inbox := n; placed := placed d; published := published d; asked := asked d; others := others d |}).

(** [put_notification_candidate]; a candidate is a row that has no id and was not read. *)
Definition put_notification_candidate (recipient : string) (c : NotificationRow) : Call bool :=
  id ← lift (match n_dm_id c, n_message_id c with
             | Some dm_id, Some message_id => Ok (direct_message_notification_id recipient (n_kind c) dm_id message_id)
             | _, _ =>
                 source ← ok_of_option "notification is missing source envelope id" (n_source_envelope_id c);
                 mret (document_notification_id recipient (n_kind c) source)
             end);
  put_notification_row
    {| notification_id := id; n_recipient_pubkey := recipient; n_kind := n_kind c; n_actor_pubkey := n_actor_pubkey c;
       n_source_envelope_id := n_source_envelope_id c; n_source_replica_id := n_source_replica_id c; n_topic_id := n_topic_id c;
       n_channel_id := n_channel_id c; n_object_id := n_object_id c; n_dm_id := n_dm_id c; n_message_id := n_message_id c;
       n_preview_text := n_preview_text c; n_content_labels := n_content_labels c; n_created_at := n_created_at c;
       received_at := received_at c; read_at := None |}.

Definition message_candidate (peer dm_id message_id : string) (preview : option string) (created received : Z) : NotificationRow :=
  {| notification_id := EmptyString; n_recipient_pubkey := EmptyString; n_kind := KindDirectMessage; n_actor_pubkey := peer;
     n_source_envelope_id := None; n_source_replica_id := None; n_topic_id := None; n_channel_id := None; n_object_id := None;
     n_dm_id := Some dm_id; n_message_id := Some message_id; n_preview_text := preview; n_content_labels := None;
     n_created_at := created; received_at := received; read_at := None |}.

(** ** Receiving *)
Definition received_row (dm_id message_id : string) (f : DirectMessageFrameV1) (p : DirectMessagePayloadV1)
    (manifest : option DirectMessageAttachmentManifestV1) : DirectMessageMessageRow :=
  {| msg_dm_id := dm_id; msg_message_id := message_id; msg_sender_pubkey := fr_sender f; msg_recipient_pubkey := fr_recipient f;
     msg_created_at := fr_created_at f; msg_text := text p; msg_reply_to_message_id := reply_to p;
     msg_attachment_manifest := manifest; msg_outgoing := false; msg_acked_at := None |}.

(** What [ingest_direct_message_frame] does with a message that it has not got yet. *)
Definition take_in_message (peer dm_id message_id : string) (f : DirectMessageFrameV1) (p : DirectMessagePayloadV1)
    (ack : DirectMessageAckV1) (ack_destination : option string) : Call bool :=
  manifest ← materialize_direct_message_manifest peer (fr_sender f) (fr_message_id f) (attachment_manifest p);
  if bool_decide (is_Some (attachment_manifest p)) && bool_decide (manifest = None) then mret false else
  mutual ← is_mutual peer;
  if negb mutual then mret false else
  let row := received_row dm_id message_id f p manifest in
  let preview := notification_preview_text (Some (direct_message_preview row)) in
  _ ← store (put_message row);
  _ ← store (upsert_conversation
        {| conv_dm_id := dm_id; conv_peer_pubkey := peer; conv_updated_at := fr_created_at f;
           last_message_at := Some (fr_created_at f); last_message_id := Some message_id; last_message_preview := preview |});
  now ← ask (now_ms env);
  _ ← put_notification_candidate local_pubkey (message_candidate peer dm_id message_id preview (fr_created_at f) now);
  _ ← publish_direct_message_ack peer ack ack_destination;
  mret true.

Definition ingest_direct_message_frame (peer dm_id message_id frame_hash : string) (ack_destination : option string) : Call bool :=
  if negb (bool_decide (dm_id = direct_message_id_for_participants local_pubkey peer)) then mret false else
  mutual ← is_mutual peer;
  if negb mutual then mret false else
  bytes ← ask_ok (fun n => fetch_blob env n frame_hash);
  match bytes with
  | None => mret false
  | Some bytes =>
      mutual ← is_mutual peer;
      if negb mutual then mret false else
      f ← lift (ok_of_option "failed to decode direct message frame blob" (from_json (T := DirectMessageFrameV1) bytes));
      if negb (bool_decide (fr_message_id f = message_id) && bool_decide (fr_dm_id f = dm_id)) then mret false else
      if negb (bool_decide (fr_sender f = peer) && bool_decide (fr_recipient f = local_pubkey)) then mret false else
      payload ← lift (decrypt_direct_message_frame keys f);
      now ← ask (now_ms env);
      ack ← lift (build_direct_message_ack keys dm_id message_id (fr_sender f) now);
      tombstone ← stored (has_tombstone dm_id message_id);
      present ← stored (fun t => bool_decide (is_Some (get_message dm_id message_id t)));
      if tombstone || present then _ ← publish_direct_message_ack peer ack ack_destination; mret false
      else take_in_message peer dm_id message_id f payload ack ack_destination
  end.

Definition handle_direct_message_hint (peer : string) (ack_destination : option string) (hint : GossipHint) : Call bool :=
  match hint with
  | HintDirectMessageFrame _ dm_id message_id frame_hash =>
      ingest_direct_message_frame peer dm_id message_id frame_hash ack_destination
  | HintDirectMessageAck _ ack =>
      _ ← lift (ack_verify ack);
      if negb (bool_decide (ack_sender ack = peer) && bool_decide (ack_recipient ack = local_pubkey)
               && bool_decide (ack_dm_id ack = direct_message_id_for_participants local_pubkey peer)) then mret false
      else
        _ ← store (set_acked_at (ack_dm_id ack) (ack_message_id ack) (acked_at ack));
        _ ← store (with_outbox (fun o => (outbox_remove (ack_dm_id ack) (ack_message_id ack) o).2));
        mret true
  | HintOther => mret false
  end.

(** [ingest_epoch_control_ack] of epoch_control_support.rs *)
Definition ingest_epoch_control_ack (offer : SignedReceiveOffer) (ack : DirectMessageAckV1) : Call bool :=
  _ ← lift (ack_verify ack);
  _ ← lift (ensure (bool_decide (ack_sender ack = so_sender offer) && bool_decide (ack_recipient ack = so_recipient offer))
        "epoch control ack sender mismatch");
  row ← stored (fun t => rows (outbox t) !! (ack_dm_id ack, ack_message_id ack));
  match row with
  | None => mret false
  | Some row =>
      if bool_decide (ob_peer_pubkey row = so_sender offer) then
        _ ← store (with_outbox (fun o => (outbox_remove (ack_dm_id ack) (ack_message_id ack) o).2));
        mret true
      else mret false
  end.

(** [ingest_epoch_control_offer]: taking in the record is another part's. *)
Definition ingest_epoch_control_offer (offer : SignedReceiveOffer) (epoch_key_id : string) : Call bool :=
  known ← (fun d => (epoch_control_known epoch_key_id (others d), d));
  if negb known then mret false else
  provider ← lift (ok_of_option "invalid endpoint id" (parse_endpoint (provider_endpoint_id (so_reference offer))));
  envelope_id ← outside (epoch_control_record offer epoch_key_id provider);
  now ← ask (now_ms env);
  ack ← lift (build_direct_message_ack keys (EPOCH_CONTROL_OUTBOX_PREFIX ++s epoch_key_id) envelope_id (so_sender offer) now);
  _ ← publish_account_receive_dm_ack (so_sender offer) ack provider;
  mret true.

Definition offer_ack (offer : SignedReceiveOffer) (dm_id message_id : string) (at_ : Z) (signature : string) : DirectMessageAckV1 :=
  {| ack_dm_id := dm_id; ack_message_id := message_id; ack_sender := so_sender offer; ack_recipient := so_recipient offer;
     acked_at := at_; ack_signature := signature |}.

(** [now >= expires || !mutual], the check between the steps of an offer. *)
Definition offer_lapsed (offer : SignedReceiveOffer) : Call bool :=
  now ← ask (now_ms env);
  if so_expires_at_ms offer <=? now then mret true
  else mutual ← is_mutual (so_sender offer); mret (negb mutual).

Definition hint_topic (h : GossipHint) : option string :=
  match h with HintDirectMessageFrame t _ _ _ | HintDirectMessageAck t _ => Some t | HintOther => None end.

Definition ingest_account_receive_offer (sealed : SealedReceiveOfferV1) : Call bool :=
  now ← ask (now_ms env);
  v ← lift (sealed_open sealed keys now);
  topic ← lift (derive_direct_message_topic keys (so_sender v));
  match offer_scope (so_reference v) with
  | PublicSource => outside (ingest_public_notification_offer v)
  | PrivateSource epoch_key_id => outside (ingest_private_notification_offer v epoch_key_id)
  | EpochControl epoch_key_id => ingest_epoch_control_offer v epoch_key_id
  | DirectMessageAck dm_id message_id at_ signature =>
      let ack := offer_ack v dm_id message_id at_ signature in
      if starts_with EPOCH_CONTROL_OUTBOX_PREFIX dm_id then ingest_epoch_control_ack v ack
      else
        mutual ← is_mutual (so_sender v);
        if negb mutual then mret false else
        now ← ask (now_ms env);
        if so_expires_at_ms v <=? now then mret false else
        handle_direct_message_hint (so_sender v) None (HintDirectMessageAck topic ack)
  | DirectMessageFrame dm_id message_id frame_hash =>
      mutual ← is_mutual (so_sender v);
      if negb mutual then mret false else
      provider ← lift (ok_of_option "invalid endpoint id" (parse_endpoint (provider_endpoint_id (so_reference v))));
      _ ← ask_ok (verify_provider env);
      lapsed ← offer_lapsed v;
      if (lapsed : bool) then mret false else
      _ ← ask_ok (learn_peer env);
      lapsed ← offer_lapsed v;
      if (lapsed : bool) then mret false else
      handle_direct_message_hint (so_sender v) (Some provider) (HintDirectMessageFrame topic dm_id message_id frame_hash)
  | ScopeDirectMessage =>
      mutual ← is_mutual (so_sender v);
      if negb mutual then mret false else
      provider ← lift (ok_of_option "invalid endpoint id" (parse_endpoint (provider_endpoint_id (so_reference v))));
      payload ← ask_ok (fetch_offer_payload env);
      lapsed ← offer_lapsed v;
      if (lapsed : bool) then mret false else
      _ ← ask_ok (learn_peer env);
      hint ← lift (ok_of_option "invalid direct message receive manifest" (from_json payload));
      if negb (bool_decide (hint_topic hint = Some topic)) then mret false else
      let ack_destination := match hint with HintDirectMessageFrame _ _ _ _ => Some provider | _ => None end in
      mutual ← is_mutual (so_sender v);
      if negb mutual then mret false else
      handle_direct_message_hint (so_sender v) ack_destination hint
  end.
End service.
