(* ===== verification/DirectMessageSend.v ===== *)
(** * Sending, retrying, deleting and clearing direct messages (crates/app-api/src:
    direct_messages.rs and service: direct_messages_delivery_support.rs,
    direct_messages_subscription_support.rs, epoch_control_support.rs)

    A message is sent by filing it: its frame in the blob store, its row in the history and a
    row in the outbox.  One owner per account then offers the rows of the outbox to their
    recipients, a few at a time, until they are acknowledged. *)
From S2P Require Import Prelude RustStr Envelope Replicas AccountSyncItem ChannelSeal Calls DirectMessageStore DirectMessage ReceiveOffer Notifications DirectMessageService.

Record DirectMessageStatusView := {
  sv_peer_pubkey : string;
  sv_dm_id : string;
  sv_mutual : bool;
  sv_send_enabled : bool;
  sv_pending_outbox_count : nat;
  sv_pending_outbox_has_more : bool
}.

Record PendingReceiveDestinationPage := {
  pr_recipients : list string;
  pr_next_cursor : option DirectMessageOutboxCursor;
  pr_cycle_end : option DirectMessageOutboxCursor
}.

Record AccountReceiveDestination := { dest_address : string; dest_provider : string }.

Section sending.
Context `{Crypto} `{!Ecdh} `{HexCrate} `{Blake3Crate} `{Aead} `{JsonArray}.
Context `{Json DirectMessagePayloadV1} `{Json DirectMessageFrameV1} `{Json DirectMessageEncryptedAttachmentV1}.
Context `{Json SignedPart} `{Json SignedReceiveOffer} `{Json SealedReceiveOfferV1} `{Json PrivateReceivePayloadV1}.
Context `{Json KukuriEnvelope} `{BlobHash}.
Context {W : Type} `{OtherScopes W}.
Context (env : DmEnv) (keys : Keys).
#[local] Abbreviation Dev := (DmDevice W).
#[local] Abbreviation Call := (Prog Dev).
#[local] Abbreviation me := (local_pubkey keys).
#[local] Abbreviation is_mutual := (is_mutual (W := W) env).
#[local] Abbreviation put_owned_blob := (put_owned_blob (W := W) env).
#[local] Abbreviation dm_with := (direct_message_id_for_participants me).

(** ** Conversations *)
Definition refresh_direct_message_conversation (peer : string) : Call unit :=
  let dm_id := dm_with peer in
  existing ← stored (conversation_by_peer peer);
  page ← stored (list_messages dm_id None 1);
  fields ← match head (page_items page) with
           | Some m => mret (Some (msg_created_at m, Some (msg_created_at m), Some (msg_message_id m), Some (direct_message_preview m)))
           | None =>
               match existing with
               | Some c => mret (Some (conv_updated_at c, None, None, None))
               | None =>
                   enabled ← is_mutual peer;
                   if (enabled : bool) then now ← ask (now_ms env); mret (Some (now, None, None, None)) else mret None
               end
           end;
  match fields with
  | None => mret tt
  | Some (updated_at, at_, id, preview) =>
      store (upsert_conversation
        {| conv_dm_id := dm_id; conv_peer_pubkey := peer; conv_updated_at := updated_at; last_message_at := at_;
           last_message_id := id; last_message_preview := preview |})
  end.

Definition ensure_direct_message_conversation_row (peer : string) : Call unit :=
  existing ← stored (conversation_by_peer peer);
  match existing with
  | Some _ => mret tt
  | None =>
      now ← ask (now_ms env);
      store (upsert_conversation
        {| conv_dm_id := dm_with peer; conv_peer_pubkey := peer; conv_updated_at := now; last_message_at := None;
           last_message_id := None; last_message_preview := None |})
  end.

(** [open_direct_message], up to the view that it returns. *)
Definition open_direct_message (peer_pubkey : string) : Call unit :=
  peer ← lift (normalize_author_pubkey peer_pubkey);
  existing ← stored (conversation_by_peer peer);
  can_send ← is_mutual peer;
  _ ← lift (ensure (bool_decide (is_Some existing) || can_send) "direct message requires a mutual relationship");
  ensure_direct_message_conversation_row peer.

(** The [option] is the panic of the page. *)
Definition direct_message_status_view (peer : string) : Call (option DirectMessageStatusView) :=
  send_enabled ← is_mutual peer;
  o ← stored outbox;
  page ← lift (peer_page peer None None DIRECT_MESSAGE_OUTBOX_PAGE_LIMIT o);
  mret (page ← page;
        Some {| sv_peer_pubkey := peer; sv_dm_id := dm_with peer; sv_mutual := send_enabled; sv_send_enabled := send_enabled;
                sv_pending_outbox_count :=
                  length (List.filter (fun r => negb (starts_with EPOCH_CONTROL_OUTBOX_PREFIX (ob_dm_id r))) (items page));
                sv_pending_outbox_has_more := bool_decide (is_Some (next_cursor page)) |}).

(** The recipients of a page that may be looked up, in order and once each. *)
Fixpoint mutual_recipients (rows : list DirectMessageOutboxRow) (unique : gset string) : Call (gset string) :=
  match rows with
  | [] => mret unique
  | r :: rows =>
      match normalize_author_pubkey (ob_peer_pubkey r) with
      | Err _ => mutual_recipients rows unique
      | Ok peer =>
          wanted ← (if starts_with EPOCH_CONTROL_OUTBOX_PREFIX (ob_dm_id r) then mret true else is_mutual peer);
          mutual_recipients rows (if (wanted : bool) then {[ peer ]} ∪ unique else unique)
      end
  end.

(** The inner [option] is the panic of the page. *)
Definition pending_receive_destination_recipients (after cycle_end : option DirectMessageOutboxCursor)
    : Call (option PendingReceiveDestinationPage) :=
  o ← stored outbox;
  page ← lift (candidate_page after cycle_end 4 o);
  match page with
  | None => mret None
  | Some page =>
      unique ← mutual_recipients (items page) ∅;
      mret (Some {| pr_recipients := set_iter unique; pr_next_cursor := next_cursor page;
                    pr_cycle_end := match next_cursor page with Some _ => DirectMessageStore.cycle_end page | None => None end |})
  end.

(** ** Attachments of a message to send *)
Definition blob_ref (blob_id hash : string) (a : PendingAttachment) (nonce_hex : string) : DirectMessageEncryptedBlobRefV1 :=
  {| ref_blob_id := blob_id; ref_hash := hash; ref_mime := pa_mime a; ref_bytes := str_len (pa_bytes a); ref_nonce_hex := nonce_hex |}.

Definition put_encrypted (outbox : string) (e : DirectMessageEncryptedAttachmentV1) : Call string :=
  put_owned_blob (to_json e) DIRECT_MESSAGE_ATTACHMENT_MIME outbox.

Definition encrypt_blob (peer message_id blob_id : string) (a : PendingAttachment) : Call DirectMessageEncryptedAttachmentV1 :=
  nonce ← ask (drawn_nonce env);
  lift (encrypt_direct_message_attachment nonce keys peer message_id blob_id (pa_bytes a)).

Definition manifest_of (k : DirectMessageAttachmentKind) (o : DirectMessageEncryptedBlobRefV1)
    (p : option DirectMessageEncryptedBlobRefV1) : DirectMessageAttachmentManifestV1 :=
  {| attachment_id := "attachment-1"; attachment_kind := k; original := o; poster := p |}.

(** The manifest of the local history and the one that travels. *)
Definition prepare_direct_message_manifests (peer message_id : string) (attachments : list PendingAttachment)
    : Call (option DirectMessageAttachmentManifestV1 * option DirectMessageAttachmentManifestV1) :=
  match attachments with
  | [] => mret (None, None)
  | _ =>
      let dm_id := dm_with peer in
      let history := "dm_message:" ++s dm_id ++s "/" ++s message_id in
      let outbox := "dm_outbox:" ++s dm_id ++s "/" ++s message_id in
      let with_role r := List.find (fun a => bool_decide (pa_role a = r)) attachments in
      match with_role ImageOriginal, with_role VideoManifest, with_role VideoPoster with
      | Some image, None, None =>
          _ ← lift (ensure ((length attachments =? 1)%nat && starts_with "image/" (pa_mime image))
                "direct message image attachment must be a single image/* payload");
          local ← put_owned_blob (pa_bytes image) (pa_mime image) history;
          encrypted ← encrypt_blob peer message_id "original" image;
          remote ← put_encrypted outbox encrypted;
          mret (Some (manifest_of Image (blob_ref "original" local image EmptyString) None),
                Some (manifest_of Image (blob_ref "original" remote image (att_nonce_hex encrypted)) None))
      | None, Some video, Some poster =>
          _ ← lift (ensure ((length attachments =? 2)%nat && starts_with "video/" (pa_mime video)
                            && starts_with "image/" (pa_mime poster))
                "direct message video attachment must contain one video/* payload and one image/* poster");
          local_video ← put_owned_blob (pa_bytes video) (pa_mime video) history;
          local_poster ← put_owned_blob (pa_bytes poster) (pa_mime poster) history;
          encrypted_video ← encrypt_blob peer message_id "original" video;
          encrypted_poster ← encrypt_blob peer message_id "poster" poster;
          remote_video ← put_encrypted outbox encrypted_video;
          remote_poster ← put_encrypted outbox encrypted_poster;
          mret (Some (manifest_of Video (blob_ref "original" local_video video EmptyString)
                        (Some (blob_ref "poster" local_poster poster EmptyString))),
                Some (manifest_of Video (blob_ref "original" remote_video video (att_nonce_hex encrypted_video))
                        (Some (blob_ref "poster" remote_poster poster (att_nonce_hex encrypted_poster)))))
      | _, _, _ => lift (Err "direct message attachment must be one image or one video with a poster")
      end
  end.

(** ** Sending *)
Definition message_id_at (now : Z) : string := "dm-message-" ++s dec_i64 now ++s "-" ++s short_id_suffix me.

Definition sent_row (peer dm_id message_id : string) (created_at : Z) (text reply_to : option string)
    (manifest : option DirectMessageAttachmentManifestV1) : DirectMessageMessageRow :=
  {| msg_dm_id := dm_id; msg_message_id := message_id; msg_sender_pubkey := me; msg_recipient_pubkey := peer;
     msg_created_at := created_at; msg_text := text; msg_reply_to_message_id := reply_to; msg_attachment_manifest := manifest;
     msg_outgoing := true; msg_acked_at := None |}.

Definition send_direct_message_internal (peer : string) (text reply_to_message_id : option string)
    (attachments : list PendingAttachment) : Call string :=
  let text := normalize_optional_text text in
  let dm_id := dm_with peer in
  _ ← lift (ensure (bool_decide (is_Some text) || negb (bool_decide (length attachments = 0%nat)))
        "direct message text or attachment is required");
  now ← ask (now_ms env);
  let message_id := message_id_at now in
  _ ← match reply_to_message_id with
      | Some target =>
          found ← stored (get_message dm_id (trim target));
          lift (ensure (bool_decide (is_Some found)) "direct message reply target was not found")
      | None => mret tt
      end;
  '(local_manifest, encrypted_manifest) ← prepare_direct_message_manifests peer message_id attachments;
  created_at ← ask (now_ms env);
  nonce ← ask (drawn_nonce env);
  let payload := {| DirectMessage.text := text; reply_to := normalize_optional_text reply_to_message_id;
                    attachment_manifest := encrypted_manifest |} in
  frame ← lift (encrypt_direct_message_frame nonce keys peer dm_id message_id created_at payload);
  hash ← put_owned_blob (to_json frame) DIRECT_MESSAGE_FRAME_MIME ("dm_outbox:" ++s dm_id ++s "/" ++s message_id);
  _ ← store (put_message (sent_row peer dm_id message_id created_at text (normalize_optional_text reply_to_message_id) local_manifest));
  _ ← store (with_outbox (outbox_insert
        {| ob_dm_id := dm_id; ob_message_id := message_id; ob_peer_pubkey := peer; ob_frame_blob_hash := hash;
           ob_created_at := created_at; ob_last_attempt_at := None |}));
  _ ← refresh_direct_message_conversation peer;
  mret message_id.

Definition send_direct_message (peer_pubkey : string) (text reply_to_message_id : option string)
    (attachments : list PendingAttachment) : Call string :=
  peer ← lift (normalize_author_pubkey peer_pubkey);
  enabled ← is_mutual peer;
  _ ← lift (ensure enabled "direct message requires a mutual relationship");
  send_direct_message_internal peer text reply_to_message_id attachments.

(** [queue_epoch_control] of epoch_control_support.rs: a record for a channel's owner or
    participant waits in the same outbox. *)
Definition epoch_secret (secret_hex : string) : result string string :=
  b ← ok_of_option "invalid hex" (hex_decode secret_hex);
  _ ← ensure (str_len b =? 32) "invalid hex length";
  mret b.

Definition queue_epoch_control (recipient channel_id epoch_id epoch_secret_hex : string) (envelope : KukuriEnvelope) : Call unit :=
  secret ← lift (epoch_secret epoch_secret_hex);
  nonce ← ask (drawn_nonce env);
  sealed ← lift (seal_private_receive_payload nonce secret channel_id epoch_id (to_json envelope));
  let dm_id := EPOCH_CONTROL_OUTBOX_PREFIX ++s pp_epoch_key_id sealed in
  let message_id := env_id envelope in
  bytes ← lift (payload_encode sealed);
  hash ← put_owned_blob bytes EPOCH_CONTROL_MIME ("dm_outbox:" ++s dm_id ++s "/" ++s message_id);
  now ← ask (now_ms env);
  store (with_outbox (outbox_insert
    {| ob_dm_id := dm_id; ob_message_id := message_id; ob_peer_pubkey := recipient; ob_frame_blob_hash := hash;
       ob_created_at := now; ob_last_attempt_at := None |})).

(** ** Retrying *)
Definition account_dm_outbox_row_can_send (r : DirectMessageOutboxRow) : Call bool :=
  current ← stored (fun t => rows (outbox t) !! (ob_dm_id r, ob_message_id r));
  match current with
  | None => mret false
  | Some c =>
      if negb (bool_decide (ob_peer_pubkey c = ob_peer_pubkey r) && bool_decide (ob_frame_blob_hash c = ob_frame_blob_hash r)
               && (ob_created_at c =? ob_created_at r)) then mret false
      else
        match strip_prefix EPOCH_CONTROL_OUTBOX_PREFIX (ob_dm_id r) with
        | Some epoch_key_id =>
            qualified ← (fun d => (epoch_control_recipient_qualified epoch_key_id (ob_peer_pubkey r) (others d), d));
            if (qualified : bool) then mret true
            else
              _ ← store (with_outbox (fun o => (outbox_remove (ob_dm_id r) (ob_message_id r) o).2));
              mret false
        | None => is_mutual (ob_peer_pubkey r)
        end
  end.

(** [resolve_account_receive_destination]: failures are logged. *)
Definition resolve_account_receive_destination (peer : string) : Call (option AccountReceiveDestination) :=
  address ← ask (fun n => receive_destination env n peer);
  match address with
  | Ok (Some address) =>
      provider ← ask (local_endpoint env);
      match provider with
      | Ok provider => mret (Some {| dest_address := address; dest_provider := provider |})
      | Err _ => mret None
      end
  | _ => mret None
  end.

Definition epoch_control_reference (r : DirectMessageOutboxRow) (epoch_key_id provider : string) : Call ReceiveOfferReferenceV1 :=
  payload ← ask_ok (fun n => fetch_local_blob env n (ob_frame_blob_hash r));
  payload ← lift (ok_of_option "epoch control payload is missing" payload);
  _ ← lift (ensure (str_len payload <=? u32_max) "out of range integral type conversion attempted");
  mret {| provider_endpoint_id := provider; payload_hash := ob_frame_blob_hash r; payload_bytes := str_len payload;
          offer_scope := EpochControl epoch_key_id |}.

Definition publish_account_receive_dm_frame (r : DirectMessageOutboxRow) (destination : AccountReceiveDestination) : Call bool :=
  permit ← ask (offer_permit env);
  if negb permit then mret false else
  can_send ← account_dm_outbox_row_can_send r;
  if negb can_send then mret false else
  reference ← match strip_prefix EPOCH_CONTROL_OUTBOX_PREFIX (ob_dm_id r) with
              | Some epoch_key_id => epoch_control_reference r epoch_key_id (dest_provider destination)
              | None => lift (inline (dest_provider destination)
                               (DirectMessageFrame (ob_dm_id r) (ob_message_id r) (ob_frame_blob_hash r)))
              end;
  offer ← seal_offer env keys (ob_peer_pubkey r) reference;
  sent ← attempt (publish_receive_offer env (ob_peer_pubkey r) (dest_address destination) reference offer);
  match sent with
  | Ok _ => mret true
  | Err e => _ ← ask_ok (invalidate_destination env); lift (Err e)
  end.

(** The destinations found during one tick. *)
Definition Destinations : Type := gmap string (option AccountReceiveDestination).

Definition destination_of (peer : string) (ds : Destinations) : Call Destinations :=
  match ds !! peer with
  | Some _ => mret ds
  | None => d ← resolve_account_receive_destination peer; mret (<[peer := d]> ds)
  end.

Definition flush_row (now : Z) (r : DirectMessageOutboxRow) (ds : Destinations) : Call Destinations :=
  _ ← store (with_outbox (touch_attempt (ob_dm_id r) (ob_message_id r) now));
  can_send ← account_dm_outbox_row_can_send r;
  if negb can_send then mret ds else
  ds ← destination_of (ob_peer_pubkey r) ds;
  can_send ← account_dm_outbox_row_can_send r;
  if negb can_send then mret ds else
  match mjoin (ds !! ob_peer_pubkey r) with
  | None => mret ds
  | Some destination => _ ← attempt (publish_account_receive_dm_frame r destination); mret ds
  end.

Fixpoint flush_rows (now : Z) (rs : list DirectMessageOutboxRow) (ds : Destinations) : Call unit :=
  match rs with [] => mret tt | r :: rs => ds ← flush_row now r ds; flush_rows now rs ds end.

Definition flush_due_direct_message_outbox (now : Z) : Call nat :=
  o ← stored outbox;
  rs ← lift (due_rows (i64_saturating_sub now DIRECT_MESSAGE_RETRY_INTERVAL_MS) 3 1 o);
  _ ← flush_rows now rs ∅;
  mret (length rs).

(** ** Deleting *)
Definition delete_direct_message_message (peer_pubkey message_id : string) : Call unit :=
  peer ← lift (normalize_author_pubkey peer_pubkey);
  let message_id := trim message_id in
  _ ← lift (ensure (negb (str_is_empty message_id)) "direct message message_id is required");
  let dm_id := dm_with peer in
  now ← ask (now_ms env);
  _ ← store (put_tombstone {| tomb_dm_id := dm_id; tomb_message_id := message_id; tomb_deleted_at := now |});
  _ ← store (delete_message_local dm_id message_id);
  refresh_direct_message_conversation peer.

Definition CLEAR_PAGE : nat := 500.

(** The loop of [clear_direct_message]; [None] when the fuel is used up. *)
Fixpoint tombstone_pages (fuel : nat) (dm_id : string) (deleted_at : Z) (cursor : option TimelineCursor) (t : DmTables)
    : option DmTables :=
  match fuel with
  | O => None
  | S fuel =>
      let page := list_messages dm_id cursor CLEAR_PAGE t in
      let t := foldl (fun t m => put_tombstone
                 {| tomb_dm_id := dm_id; tomb_message_id := msg_message_id m; tomb_deleted_at := deleted_at |} t) t (page_items page) in
      match page_next page with
      | None => Some t
      | Some c => tombstone_pages fuel dm_id deleted_at (Some c) t
      end
  end.

(** One turn per message and one more. *)
Definition clear_direct_message (peer_pubkey : string) : Call unit :=
  peer ← lift (normalize_author_pubkey peer_pubkey);
  let dm_id := dm_with peer in
  now ← ask (now_ms env);
  t ← stored (fun t => tombstone_pages (S (size (messages t))) dm_id now None t);
  t ← lift (ok_of_option "out of fuel" t);
  _ ← store (fun _ => t);
  store (clear_local dm_id).
End sending.
