(* ===== verification/DirectMessageRun.v ===== *)
(** * What every call on direct messages keeps

    The invariant [dm_ok] of a device relates its messages to what made them: a message that
    was sent to the frame that carries it, a message that was received to a frame that was
    opened, an acknowledged message to an acknowledgement that verifies, and an
    acknowledgement that was published to a message that the device has or has deleted.
    [PF] and [PA] are what is known of the frames and acknowledgements that reach the
    device.  The tables come first, then the device under every call. *)
From S2P Require Import Prelude RustStr Envelope Replicas AccountSyncItem ChannelSeal Calls DirectMessageStore DirectMessageStoreProps DirectMessage DirectMessageFrameProps ReceiveOffer Notifications DirectMessageService DirectMessageSend.

(** ** The tables *)

(** A message that the device has, or had and deleted. *)
Definition known (k : string * string) (t : DmTables) : Prop := is_Some (messages t !! k) \/ is_Some (tombstones t !! k).

(** Messages are filed under their keys, and a deleted message has no row. *)
Record tables_ok (t : DmTables) : Prop := {
  to_keyed : messages_keyed t;
  to_dead : forall k, is_Some (tombstones t !! k) -> messages t !! k = None
}.

(** From [t] to [t'] nothing known is forgotten and nothing deleted comes back. *)
Record tables_evolve (t t' : DmTables) : Prop := {
  te_known : tables_ok t -> forall k, known k t -> known k t';
  te_tombs : forall k, is_Some (tombstones t !! k) -> is_Some (tombstones t' !! k);
  te_ok : tables_ok t -> tables_ok t'
}.
#[export] Instance tables_evolve_preorder : PreOrder tables_evolve.
Proof. split; [by intros t; split | intros t t' t'' [] []; split; auto]. Qed.

Lemma evolve_same t t' : messages t' = messages t -> tombstones t' = tombstones t -> tables_evolve t t'.
Proof.
  intros Em Et. split; unfold known; rewrite ?Em, ?Et; [done..|]. intros [Hk Hd]. split; [by unfold messages_keyed; rewrite Em|].
  by rewrite Em, Et.
Qed.

Lemma evolve_put_message m t : tables_evolve t (put_message m t).
Proof.
  unfold put_message, has_tombstone. case_bool_decide as Hb; [done|]. split; cbn.
  - intros _ k [Hk|]; [left | by right]. cbn. destruct (decide (k = msg_key m)) as [->|]; [rewrite lookup_insert_eq; eauto | by rewrite lookup_insert_ne].
  - done.
  - intros [Hk Hd]. split; cbn; [by apply map_Forall_insert_2|]. intros k Hk'. rewrite lookup_insert_ne; [by apply Hd|].
    intros <-. done.
Qed.

Lemma put_message_known m t : known (msg_key m) (put_message m t).
Proof.
  unfold put_message, has_tombstone. case_bool_decide as Hb; [by right | left]. cbn. rewrite lookup_insert_eq. eauto.
Qed.

Lemma evolve_set_acked d x at_ t : tables_evolve t (set_acked_at d x at_ t).
Proof.
  split; cbn; [|done|].
  - intros _ k [Hk|]; [left | by right]. cbn. by rewrite lookup_alter_is_Some.
  - intros [Hk Hd]. split; cbn.
    + intros k m Hm. cbn in Hm. apply lookup_alter_Some in Hm as [(<- & m0 & Hm0 & ->)|[_ Hm]]; [|by apply Hk].
      rewrite (Hk _ _ Hm0). by destruct (msg_acked_at m0).
    + intros k Hk'. apply Hd in Hk'. destruct (decide (k = (d, x))) as [->|]; [by rewrite lookup_alter_eq, Hk' | by rewrite lookup_alter_ne].
Qed.

(** Deleting one message: the tombstone, then the row. *)
Lemma evolve_delete dm x at_ t :
  tables_evolve t (delete_message_local dm x (put_tombstone {| tomb_dm_id := dm; tomb_message_id := x; tomb_deleted_at := at_ |} t)).
Proof.
  split; cbn.
  - intros _ k [Hk|Hk]; unfold known; cbn; (destruct (decide (k = (dm, x))) as [->|]; [right; rewrite lookup_insert_eq; eauto|]);
      [left; by rewrite lookup_delete_ne | right; by rewrite lookup_insert_ne].
  - intros k Hk. destruct (decide (k = (dm, x))) as [->|]; [rewrite lookup_insert_eq; eauto | by rewrite lookup_insert_ne].
  - intros [Hk Hd]. split; cbn; [by apply map_Forall_delete|]. intros k Hk'.
    destruct (decide (k = (dm, x))) as [->|]; [apply lookup_delete_eq|]. rewrite lookup_delete_ne by done.
    apply Hd. by rewrite lookup_insert_ne in Hk' by done.
Qed.

(** ** Clearing a conversation *)
Definition buried (dm_id : string) (at_ : Z) (l : list DirectMessageMessageRow) (t : DmTables) : DmTables :=
  foldl (fun t m => put_tombstone {| tomb_dm_id := dm_id; tomb_message_id := msg_message_id m; tomb_deleted_at := at_ |} t) t l.

Lemma buried_spec dm_id at_ l t :
  messages (buried dm_id at_ l t) = messages t /\ conversations (buried dm_id at_ l t) = conversations t
  /\ outbox (buried dm_id at_ l t) = outbox t
  /\ forall k, is_Some (tombstones (buried dm_id at_ l t) !! k)
       <-> is_Some (tombstones t !! k) \/ exists m, m ∈ l /\ k = (dm_id, msg_message_id m).
Proof.
  revert t. induction l as [|m l IH]; intros t.
  - split_and!; [done..|]. intros k. split; [by left|]. intros [?|(m & Hm & _)]; [done|]. by apply not_elem_of_nil in Hm.
  - set (t1 := put_tombstone {| tomb_dm_id := dm_id; tomb_message_id := msg_message_id m; tomb_deleted_at := at_ |} t).
    change (buried dm_id at_ (m :: l) t) with (buried dm_id at_ l t1). destruct (IH t1) as (-> & -> & -> & Hk).
    split_and!; [done..|]. intros k. rewrite Hk. cbn. setoid_rewrite elem_of_cons.
    destruct (decide (k = (dm_id, msg_message_id m))) as [->|Hne].
    + rewrite lookup_insert_eq. split; [intros _; right; eauto | left; eauto].
    + rewrite lookup_insert_ne by done. naive_solver.
Qed.

(** A page without a next cursor holds all that is after its cursor. *)
Lemma short_page l c limit x :
  (1 <= limit)%nat -> page_next (apply_desc_direct_message_cursor l c limit) = None -> x ∈ l -> below c x = true ->
  x ∈ page_items (apply_desc_direct_message_cursor l c limit).
Proof.
  intros Hlim Hnext Hx Hb. change (page_items (apply_desc_direct_message_cursor l c limit)) with (take limit (List.filter (below c) l)).
  change (page_next (apply_desc_direct_message_cursor l c limit)) with
    (if (length (take limit (List.filter (below c) l)) =? limit)%nat
     then message_cursor <$> last (take limit (List.filter (below c) l)) else None) in Hnext.
  assert (HxF : x ∈ List.filter (below c) l) by by apply elem_of_filter_bool.
  destruct (Nat.eqb_spec (length (take limit (List.filter (below c) l))) limit) as [El|El].
  - destruct (last (take limit (List.filter (below c) l))) eqn:Elast; [done|]. apply last_None in Elast. rewrite Elast in El. cbn in El. lia.
  - rewrite length_take in El. by rewrite take_ge by lia.
Qed.

(** The loop meets every message after its cursor: there is fuel for all of them, and each
    gets a tombstone. *)
Lemma tombstone_pages_spec fuel dm_id at_ c t :
  messages_keyed t -> (length (List.filter (below c) (dm_messages dm_id t)) < fuel)%nat ->
  exists t', tombstone_pages fuel dm_id at_ c t = Some t'
    /\ messages t' = messages t /\ conversations t' = conversations t /\ outbox t' = outbox t
    /\ forall k, is_Some (tombstones t' !! k)
         <-> is_Some (tombstones t !! k) \/ exists m, m ∈ dm_messages dm_id t /\ below c m = true /\ k = (dm_id, msg_message_id m).
Proof.
  revert c t. induction fuel as [|fuel IH]; intros c t Hk Hlen; [lia|]. cbn [tombstone_pages].
  unfold list_messages. set (L := dm_messages dm_id t) in *. set (page := apply_desc_direct_message_cursor L c CLEAR_PAGE).
  fold (buried dm_id at_ (page_items page) t). destruct (buried_spec dm_id at_ (page_items page) t) as (Em & Ec & Eo & Et).
  assert (Hpage : forall m, m ∈ page_items page -> m ∈ L /\ below c m = true).
  { intros m Hm. apply elem_of_filter_bool. eapply elem_of_sublist; [exact Hm | apply sublist_take]. }
  destruct (page_next page) as [c'|] eqn:Enext.
  - assert (Hlast : exists m, last (page_items page) = Some m /\ c' = message_cursor m).
    { subst page. cbn in Enext |- *. destruct (_ =? _)%nat; [|done]. destruct (last _); [|done]. injection Enext as <-. eauto. }
    destruct Hlast as (m & Hm & ->).
    destruct (message_page_rest L c CLEAR_PAGE m (dm_messages_sorted dm_id t Hk)) as [Hrest Hshort]; [unfold CLEAR_PAGE; lia | done|].
    assert (HL : dm_messages dm_id (buried dm_id at_ (page_items page) t) = L) by (unfold L, dm_messages; by rewrite Em).
    destruct (IH (Some (message_cursor m)) (buried dm_id at_ (page_items page) t)) as (t' & -> & Em' & Ec' & Eo' & Et').
    { unfold messages_keyed. by rewrite Em. }
    { rewrite HL. lia. }
    exists t'. split_and!; [done | congruence.. |]. intros k. rewrite Et', Et, HL. split.
    + intros [[?|(x & Hx & ->)]|(x & Hx & Hb & ->)]; [by left | right; apply Hpage in Hx as []; eauto|].
      right. exists x. split_and!; [done| |done]. destruct c as [c|]; [|done].
      assert (HmL : m ∈ page_items page) by (apply last_Some in Hm as [? ->]; set_solver).
      apply Hpage in HmL as [_ Hmc]. rewrite below_some in *. cbn in Hb. fold (msg_order m) in Hb.
      revert Hb Hmc. unfold rust_ltb. destruct (rust_cmp (msg_order x) (msg_order m)) eqn:E1; try done.
      destruct (rust_cmp (msg_order m) _) eqn:E2; try done. by rewrite (rust_cmp_trans _ _ _ E1 E2).
    + intros [?|(x & Hx & Hb & ->)]; [by left; left|].
      destruct (Hrest x Hx Hb) as [Hin|Hb']; [left; right; eauto | right; eauto].
  - eexists. split_and!; [done..|]. intros k. rewrite Et. split; (intros [?|(x & Hx)]; [by left | right]).
    + destruct Hx as [Hx ->]. apply Hpage in Hx as []. eauto.
    + destruct Hx as (Hx & Hb & ->). exists x. split; [|done]. apply (short_page L c CLEAR_PAGE); [unfold CLEAR_PAGE; lia | done..].
Qed.

(** [clear_direct_message] on the tables: the loop, then the removal of everything. *)
Lemma clear_tables dm_id at_ t :
  messages_keyed t ->
  exists t', tombstone_pages (S (size (messages t))) dm_id at_ None t = Some t' /\ tables_evolve t (clear_local dm_id t')
    /\ messages (clear_local dm_id t') = filter (fun p => p.1.1 <> dm_id) (messages t)
    /\ conversations (clear_local dm_id t') = delete dm_id (conversations t)
    /\ outbox (clear_local dm_id t') = clear_dm dm_id (outbox t)
    /\ forall k, is_Some (tombstones (clear_local dm_id t') !! k)
         <-> is_Some (tombstones t !! k) \/ (k.1 = dm_id /\ is_Some (messages t !! k)).
Proof.
  intros Hk. destruct (tombstone_pages_spec (S (size (messages t))) dm_id at_ None t Hk) as (t' & Ht' & Em & Ec & Eo & Et).
  { apply Nat.lt_succ_r. etrans; [apply List.filter_length_le|]. unfold dm_messages. rewrite sort_by_perm.
    etrans; [apply List.filter_length_le|]. by rewrite length_fmap, length_map_to_list. }
  assert (Htomb : forall k, is_Some (tombstones t' !! k) <-> is_Some (tombstones t !! k) \/ (k.1 = dm_id /\ is_Some (messages t !! k))).
  { intros k. rewrite Et. split; (intros [?|Hx]; [by left | right]).
    - destruct Hx as (m & [<- Hm]%elem_of_dm_messages & _ & ->); [|done]. cbn. eauto.
    - destruct Hx as [<- [m Hm]]. assert (Hkm := Hk _ _ Hm). cbn in Hkm. subst k. exists m. split_and!; [|done..].
      apply elem_of_dm_messages; [done|]. done. }
  exists t'. split; [done|]. cbn. rewrite Em, Ec, Eo. split_and!; [|done..]. split; cbn.
  - intros _ k [[m Hm]|Hm]; [|right; by apply Htomb; left]. destruct (decide (k.1 = dm_id)) as [Hd|Hd]; [right; apply Htomb; eauto|].
    left. cbn. rewrite ?Em. exists m. by apply map_lookup_filter_Some.
  - intros k Hx. apply Htomb. by left.
  - intros [_ Hd]. split; [intros k m Hm; cbn in Hm; rewrite Em in Hm; apply map_lookup_filter_Some in Hm as [Hm _]; exact (Hk _ _ Hm)|].
    cbn. rewrite Em.
    intros k [Ht|[Hkd Hm]]%Htomb; apply map_lookup_filter_None; [left; by apply Hd | right]. intros m _ Hne. by apply Hne.
Qed.

(** ** The device *)
(** A blob that holds a frame to send. *)
Definition is_frame_blob (b : PlacedBlob) : Prop :=
  blob_mime b = DIRECT_MESSAGE_FRAME_MIME /\ starts_with "dm_outbox:" (blob_owner b) = true.

Section run.
Context `{Crypto} `{!Ecdh} `{HexCrate} `{Blake3Crate} `{Aead} `{JsonArray}.
Context `{Json DirectMessagePayloadV1} `{Json DirectMessageFrameV1} `{Json DirectMessageEncryptedAttachmentV1}.
Context `{Json SignedPart} `{Json SignedReceiveOffer} `{Json SealedReceiveOfferV1} `{Json PrivateReceivePayloadV1}.
Context `{Json GossipHint} `{Json KukuriEnvelope} `{BlobHash}.
Context {W : Type} `{OtherScopes W}.
Context (parse_endpoint : string -> option string).
(** The accounts that follow the program. *)
Context (friend : string -> Prop).
Context (PF : DirectMessageFrameV1 -> Prop) (PA : DirectMessageAckV1 -> Prop) (x : Keys).
#[local] Abbreviation Dev := (DmDevice W).
#[local] Abbreviation dm_with := (direct_message_id_for_participants (public_key_hex x)).

(** ** The invariant *)

(** The frame of a message that [x] sent. *)
Definition frame_made (b : PlacedBlob) (peer dm_id message_id : string) (t : Z) (p : DirectMessagePayloadV1)
    (f : DirectMessageFrameV1) : Prop :=
  is_frame_blob b /\ blob_bytes b = to_json f /\ dm_id = dm_with peer /\ (exists now, message_id = message_id_at x now)
  /\ exists nonce, String.length nonce = 24%nat /\ encrypt_direct_message_frame nonce x peer dm_id message_id t p = Ok f.

Definition sent_ok (pl : list PlacedBlob) (r : DirectMessageMessageRow) : Prop :=
  exists b p f, b ∈ pl
    /\ frame_made b (msg_recipient_pubkey r) (msg_dm_id r) (msg_message_id r) (msg_created_at r) p f
    /\ text p = msg_text r /\ reply_to p = msg_reply_to_message_id r.

Definition received_ok (r : DirectMessageMessageRow) : Prop :=
  msg_dm_id r = dm_with (msg_sender_pubkey r)
  /\ exists f p, PF f /\ decrypt_direct_message_frame x f = Ok p
    /\ fr_dm_id f = msg_dm_id r /\ fr_message_id f = msg_message_id r /\ fr_sender f = msg_sender_pubkey r
    /\ fr_created_at f = msg_created_at r /\ text p = msg_text r /\ reply_to p = msg_reply_to_message_id r.

Definition acked_ok (r : DirectMessageMessageRow) : Prop :=
  exists ack, PA ack /\ ack_verify ack = Ok tt /\ ack_dm_id ack = msg_dm_id r /\ ack_message_id ack = msg_message_id r
    /\ ack_recipient ack = public_key_hex x /\ msg_dm_id r = dm_with (ack_sender ack).

Definition row_ok (pl : list PlacedBlob) (r : DirectMessageMessageRow) : Prop :=
  (if msg_outgoing r then sent_ok pl r else received_ok r) /\ (forall t, msg_acked_at r = Some t -> acked_ok r).

(** An acknowledgement for a friend is of a message that the device knows. *)
Definition ack_known (t : DmTables) (p : PublishedOffer) : Prop :=
  forall dm_id message_id at_ s, offer_scope (pub_reference p) = DirectMessageAck dm_id message_id at_ s -> friend (pub_to p) ->
  starts_with EPOCH_CONTROL_OUTBOX_PREFIX dm_id = true \/ (known (dm_id, message_id) t /\ dm_id = dm_with (pub_to p)).

Record dm_ok (d : Dev) : Prop := {
  dk_tables : tables_ok (tables d);
  dk_rows : map_Forall (fun _ r => row_ok (placed d) r) (messages (tables d));
  dk_acks : forall p, p ∈ published d -> ack_known (tables d) p;
  dk_placed : forall b, b ∈ placed d -> is_frame_blob b -> exists peer dm_id message_id t p f, frame_made b peer dm_id message_id t p f
}.

(** What a call may do. *)
Record dm_evolve (d d' : Dev) : Prop := {
  de_ok : dm_ok d -> dm_ok d' /\ forall k, known k (tables d) -> known k (tables d');
  de_tombs : forall k, is_Some (tombstones (tables d) !! k) -> is_Some (tombstones (tables d') !! k);
  de_placed : forall b, b ∈ placed d -> b ∈ placed d';
  de_published : forall p, p ∈ published d -> p ∈ published d'
}.
#[export] Instance dm_evolve_preorder : PreOrder dm_evolve.
Proof.
  split; [by intros d; split|]. intros d d' d'' [] []. split; auto. intros Hd.
  destruct de_ok0 as [Hd' Hk]; [done|]. destruct de_ok1 as [Hd'' Hk']; [done|]. auto.
Qed.

Lemma row_ok_mono pl pl' r : (forall b, b ∈ pl -> b ∈ pl') -> row_ok pl r -> row_ok pl' r.
Proof.
  intros Hpl [Hr Ha]. split; [|done]. destruct (msg_outgoing r); [|done]. destruct Hr as (b & p & f & Hb & Hf & ?).
  exists b, p, f. split_and!; try naive_solver.
Qed.

(** The tables change, the rest stays. *)
Lemma dm_evolve_tables d t :
  (tables_ok (tables d) -> tables_evolve (tables d) t) ->
  (forall k, is_Some (tombstones (tables d) !! k) -> is_Some (tombstones t !! k)) ->
  (dm_ok d -> map_Forall (fun _ r => row_ok (placed d) r) (messages t)) -> dm_evolve d (with_tables (fun _ => t) d).
Proof.
  intros Ht Htomb Hrows. split; cbn; try done. intros Hd. destruct (Ht (dk_tables _ Hd)) as [Hk _ Hok].
  split; [|intros k; apply Hk, (dk_tables _ Hd)]. split; cbn; [apply Hok, (dk_tables _ Hd) | by apply Hrows| |apply (dk_placed _ Hd)].
  intros p Hp dm_id message_id at_ s Hs Hfr. destruct (dk_acks _ Hd p Hp _ _ _ _ Hs Hfr) as [?|[? ?]]; [by left | right].
  split; [|done]. by apply Hk; [apply (dk_tables _ Hd)|].
Qed.

(** The outbox and the conversations are no part of the invariant. *)
Lemma dm_evolve_same d t :
  messages t = messages (tables d) -> tombstones t = tombstones (tables d) -> dm_evolve d (with_tables (fun _ => t) d).
Proof.
  intros Em Et. apply dm_evolve_tables; [intros; by apply evolve_same | by rewrite Et|]. intros Hd. rewrite Em. apply (dk_rows _ Hd).
Qed.

Lemma keeps_store_same (f : DmTables -> DmTables) :
  (forall t, messages (f t) = messages t) -> (forall t, tombstones (f t) = tombstones t) ->
  keeps dm_evolve (store (W := W) f).
Proof. intros Em Et d. exact (dm_evolve_same d (f (tables d)) (Em _) (Et _)). Qed.

(** Neither tables nor effects change. *)
Lemma dm_evolve_quiet (d d' : Dev) :
  tables d' = tables d -> placed d' = placed d -> published d' = published d -> dm_evolve d d'.
Proof.
  intros Et Ep Eo. split; rewrite ?Et, ?Ep, ?Eo; try done. intros [? ? ? ?]. split; [|done].
  split; rewrite ?Et, ?Ep, ?Eo; done.
Qed.

Context (env : DmEnv).

Lemma keeps_ask {A} (f : nat -> A) : keeps dm_evolve (ask (W := W) f).
Proof. intros d. by apply dm_evolve_quiet. Qed.
Lemma keeps_ask_ok {A} (f : nat -> result string A) : keeps dm_evolve (ask_ok (W := W) f).
Proof. intros d. by apply dm_evolve_quiet. Qed.
Lemma keeps_stored {A} (f : DmTables -> A) : keeps dm_evolve (stored (W := W) f).
Proof. apply keeps_get; apply _. Qed.
Lemma keeps_outside {A} (m : Prog W A) : keeps dm_evolve (outside m).
Proof. intros d. unfold outside. destruct (m (others d)). by apply dm_evolve_quiet. Qed.
Lemma keeps_others {A} (f : W -> result string A) : keeps dm_evolve (fun d : Dev => (f (others d), d)).
Proof. by intros d. Qed.
Lemma keeps_is_mutual peer : keeps dm_evolve (is_mutual (W := W) env peer).
Proof. apply keeps_ask_ok. Qed.
Lemma keeps_notification r : keeps dm_evolve (put_notification_row (W := W) r).
Proof. intros d. unfold put_notification_row. destruct (put_notification_if_absent r (inbox d)). by apply dm_evolve_quiet. Qed.
Lemma keeps_seal_offer to r : keeps dm_evolve (seal_offer (W := W) env x to r).
Proof. unfold seal_offer. keeps_go; apply keeps_ask. Qed.

(** A blob is added. *)
Lemma keeps_put_blob bytes mime owner :
  (is_frame_blob {| blob_bytes := bytes; blob_mime := mime; blob_owner := owner |} ->
   exists peer dm_id message_id t p f,
     frame_made {| blob_bytes := bytes; blob_mime := mime; blob_owner := owner |} peer dm_id message_id t p f) ->
  keeps dm_evolve (put_owned_blob (W := W) env bytes mime owner).
Proof.
  intros Hb d. unfold put_owned_blob. destruct (put_blob env (asked d)); [|by apply dm_evolve_quiet].
  split; cbn; [|done | set_solver | done]. intros [Ht Hr Ha Hp]. split; [|done]. split; cbn; [done| |done|].
  - intros k r Hk. eapply row_ok_mono; [|by apply (Hr k)]. set_solver.
  - intros b [->|]%elem_of_cons; [done | by apply Hp].
Qed.

(** An offer is published that is no acknowledgement of an unknown message. *)
Lemma evolve_publish d to address reference offer :
  (dm_ok d -> ack_known (tables d) {| pub_to := to; pub_address := address; pub_reference := reference; pub_offer := offer |}) ->
  dm_evolve d (publish_receive_offer env to address reference offer d).2.
Proof.
  intros Hk. split; cbn; [|done | done | set_solver]. intros Hd. split; [|done].
  destruct Hd as [Ht Hr Ha Hp] eqn:E. split; cbn; [done..| |done]. intros p [->|]%elem_of_cons; [by apply Hk | by apply Ha].
Qed.

(** ** Calls that rely on a fact about the device *)
Definition safe {A} (P : Dev -> Prop) (m : Prog Dev A) : Prop := forall d, dm_ok d -> P d -> dm_evolve d (m d).2.
Definition stable (P : Dev -> Prop) : Prop := forall d d', dm_ok d -> dm_evolve d d' -> P d -> P d'.
(** A value that a call can return. *)
Definition yields {A} (m : Prog Dev A) (a : A) : Prop := exists d, (m d).1 = Ok a.

Lemma safe_keeps {A} P (m : Prog Dev A) : keeps dm_evolve m -> safe P m.
Proof. intros Hm d _ _. apply Hm. Qed.

Lemma safe_seq {A B} P (Q : A -> Dev -> Prop) (m : Prog Dev A) (k : A -> Prog Dev B) :
  safe P m -> (forall d a, dm_ok d -> P d -> (m d).1 = Ok a -> Q a (m d).2) ->
  (forall a, yields m a -> safe (Q a) (k a)) -> safe P (m ≫= k).
Proof.
  intros Hm HQ Hk d Hd HP. specialize (Hm d Hd HP). specialize (HQ d). unfold mbind, prog_bind.
  assert (Hy : forall a, (m d).1 = Ok a -> yields m a) by (intros a Ha; by exists d).
  destruct (m d) as [[a|e] d'] eqn:E; cbn in *; [|done]. etrans; [exact Hm|].
  destruct (de_ok _ _ Hm Hd) as [Hd' _]. apply Hk; [by apply Hy | done | by apply HQ].
Qed.

Lemma safe_bind {A B} P (m : Prog Dev A) (k : A -> Prog Dev B) :
  stable P -> safe P m -> (forall a, yields m a -> safe P (k a)) -> safe P (m ≫= k).
Proof. intros HP Hm Hk. apply (safe_seq P (fun _ => P)); [done | |done]. intros d a Hd HPd _. exact (HP _ _ Hd (Hm d Hd HPd) HPd). Qed.

Lemma safe_weaken {A} (P P' : Dev -> Prop) (m : Prog Dev A) : (forall d, P d -> P' d) -> safe P' m -> safe P m.
Proof. intros Hp Hm d Hd HP. auto. Qed.

Definition anywhere (d : Dev) : Prop := True.
Lemma stable_anywhere : stable anywhere.
Proof. by intros d. Qed.
Lemma stable_known k : stable (fun d => known k (tables d)).
Proof. intros d d' Hd He. apply (de_ok _ _ He Hd). Qed.

Lemma stable_known_to peer k : stable (fun d => friend peer -> known k (tables d)).
Proof. intros d d' Hd He Hp Hf. apply (de_ok _ _ He Hd); auto. Qed.

Lemma yields_lift {A} (r : result string A) a : yields (lift r) a -> r = Ok a.
Proof. by intros [d Hd]. Qed.
Lemma yields_ask_ok {A} (f : nat -> result string A) a : yields (ask_ok f) a -> exists n, f n = Ok a.
Proof. intros [d Hd]. by exists (asked d). Qed.

(** ** Acknowledgements *)
Lemma inline_scope_of provider s r : inline provider s = Ok r -> offer_scope r = s.
Proof. unfold inline. intros Hr. inv_result. by injection Hr as <-. Qed.

Lemma safe_publish_ack peer ack destination :
  safe (fun d => friend peer -> starts_with EPOCH_CONTROL_OUTBOX_PREFIX (ack_dm_id ack) = true
                 \/ (known (ack_dm_id ack, ack_message_id ack) (tables d) /\ ack_dm_id ack = dm_with peer))
    (publish_account_receive_dm_ack env x peer ack destination).
Proof.
  set (P := fun d : Dev => _). assert (HP : stable P).
  { intros d d' Hd He Hp Hfr. destruct (Hp Hfr) as [?|[Hk ?]]; [by left | right]. split; [|done]. by apply (stable_known _ d d'). }
  unfold publish_account_receive_dm_ack. apply safe_bind; [done | apply safe_keeps, keeps_ask|]. intros permit _.
  destruct permit; [|by apply safe_keeps, keeps_mret; apply _].
  apply safe_bind; [done | apply safe_keeps, keeps_pure; apply _|]. intros reference Hr%yields_lift%inline_scope_of.
  apply safe_bind; [done | apply safe_keeps, keeps_seal_offer|]. intros offer _.
  apply safe_bind; [done | | intros; apply safe_keeps, keeps_mret; apply _].
  intros d Hd HPd. apply evolve_publish. intros _ dm_id message_id at_ s Hs. cbn in Hs |- *. rewrite Hr in Hs. injection Hs as <- <- <- <-.
  exact HPd.
Qed.

Lemma safe_ack peer ack dest :
  (friend peer -> ack_dm_id ack = dm_with peer) ->
  safe (fun d => friend peer -> known (ack_dm_id ack, ack_message_id ack) (tables d)) (publish_direct_message_ack env x peer ack dest).
Proof.
  intros Hdm. unfold publish_direct_message_ack. destruct dest as [destination|]; [|by apply safe_keeps, keeps_mret; apply _].
  apply safe_bind; [apply stable_known_to | apply safe_keeps, keeps_is_mutual|]. intros mutual _.
  destruct mutual; [|by apply safe_keeps, keeps_mret; apply _].
  apply safe_bind; [apply stable_known_to | |intros; apply safe_keeps, keeps_mret; apply _].
  eapply safe_weaken; [|apply safe_publish_ack]. cbn. tauto.
Qed.

(** ** Receiving *)

(** What is known of the frames and acknowledgements that the environment presents. *)
Definition frames_trusted : Prop :=
  forall n h bytes f, fetch_blob env n h = Ok (Some bytes) -> from_json bytes = Some f -> frame_verify f = Ok tt -> PF f.

Lemma keeps_materialize peer sender message_id r :
  keeps dm_evolve (materialize_direct_message_blob_ref (W := W) env x peer sender message_id r).
Proof.
  unfold materialize_direct_message_blob_ref. keeps_go; first [apply keeps_is_mutual | apply keeps_ask_ok | apply keeps_put_blob].
  intros [_ Ho]. done.
Qed.

Lemma keeps_manifest peer sender message_id m :
  keeps dm_evolve (materialize_direct_message_manifest (W := W) env x peer sender message_id m).
Proof. unfold materialize_direct_message_manifest. keeps_go; apply keeps_materialize. Qed.

Lemma keeps_candidate recipient c : keeps dm_evolve (put_notification_candidate (W := W) recipient c).
Proof. unfold put_notification_candidate. keeps_go. apply keeps_notification. Qed.

Lemma evolve_put_row d r : row_ok (placed d) r -> dm_evolve d (with_tables (put_message r) d).
Proof.
  intros Hr. apply dm_evolve_tables; [intros _; apply evolve_put_message | apply (te_tombs _ _ (evolve_put_message r (tables d)))|].
  intros Hd. unfold put_message. case_match; [apply (dk_rows _ Hd)|]. apply map_Forall_insert_2; [done | apply (dk_rows _ Hd)].
Qed.

Lemma safe_take_in peer dm_id message_id f p ack dest :
  (forall m, row_ok [] (received_row dm_id message_id f p m)) ->
  (friend peer -> ack_dm_id ack = dm_id /\ ack_message_id ack = message_id) -> dm_id = dm_with peer ->
  safe anywhere (take_in_message env x peer dm_id message_id f p ack dest).
Proof.
  intros Hrow Hids Hdm. unfold take_in_message. assert (HA := stable_anywhere).
  apply safe_bind; [done | apply safe_keeps, keeps_manifest|]. intros manifest _.
  case_match; [by apply safe_keeps, keeps_mret; apply _|].
  apply safe_bind; [done | apply safe_keeps, keeps_is_mutual|]. intros mutual _.
  destruct mutual; cbn [negb]; [|by apply safe_keeps, keeps_mret; apply _].
  apply (safe_seq _ (fun _ d => friend peer -> known (ack_dm_id ack, ack_message_id ack) (tables d))).
  - intros d Hd _. apply evolve_put_row. eapply row_ok_mono; [|apply Hrow]. set_solver.
  - intros d a _ _ _ Hfr. destruct (Hids Hfr) as [-> ->]. apply (put_message_known (received_row dm_id message_id f p manifest)).
  - intros _ _. assert (HK := stable_known_to peer (ack_dm_id ack, ack_message_id ack)).
    apply safe_bind; [done | apply safe_keeps; by apply keeps_store_same|]. intros _ _.
    apply safe_bind; [done | apply safe_keeps, keeps_ask|]. intros now _.
    apply safe_bind; [done | apply safe_keeps, keeps_candidate|]. intros _ _.
    apply safe_bind; [done | apply safe_ack; intros Hfr; by destruct (Hids Hfr) as [-> _] | intros; apply safe_keeps, keeps_mret; apply _].
Qed.

Lemma decrypted_verifies f p : decrypt_direct_message_frame x f = Ok p -> frame_verify f = Ok tt.
Proof. unfold decrypt_direct_message_frame. intros Hp. apply result_bind_ok in Hp as ([] & Hv & _). done. Qed.

(** The ids in a friend's frames have no white space around them. *)
Definition frames_trimmed : Prop :=
  forall f, PF f -> friend (fr_sender f) -> trim (fr_dm_id f) = fr_dm_id f /\ trim (fr_message_id f) = fr_message_id f.

Lemma received_row_ok f p m :
  PF f -> decrypt_direct_message_frame x f = Ok p -> fr_dm_id f = dm_with (fr_sender f) ->
  row_ok [] (received_row (fr_dm_id f) (fr_message_id f) f p m).
Proof. intros HPF Hp Hdm. split; [|done]. cbn. split; [done|]. exists f, p. done. Qed.

Lemma safe_ingest_frame peer dm_id message_id frame_hash dest :
  frames_trusted -> frames_trimmed -> safe anywhere (ingest_direct_message_frame env x peer dm_id message_id frame_hash dest).
Proof.
  intros Htrust Htrim. assert (HA := stable_anywhere). unfold ingest_direct_message_frame.
  case_bool_decide as Hdm; cbn [negb]; [|by apply safe_keeps, keeps_mret; apply _].
  apply safe_bind; [done | apply safe_keeps, keeps_is_mutual|]. intros mutual _.
  destruct mutual; cbn [negb]; [|by apply safe_keeps, keeps_mret; apply _].
  apply safe_bind; [done | apply safe_keeps, keeps_ask_ok|]. intros bytes [n Hn]%yields_ask_ok.
  destruct bytes as [bytes|]; [|by apply safe_keeps, keeps_mret; apply _].
  apply safe_bind; [done | apply safe_keeps, keeps_is_mutual|]. intros mutual _.
  destruct mutual; cbn [negb]; [|by apply safe_keeps, keeps_mret; apply _].
  apply safe_bind; [done | apply safe_keeps, keeps_pure; apply _|]. intros f Hf%yields_lift%ok_of_option_ok.
  destruct (bool_decide (fr_message_id f = message_id) && bool_decide (fr_dm_id f = dm_id)) eqn:E1; cbn [negb];
    [|by apply safe_keeps, keeps_mret; apply _].
  destruct (bool_decide (fr_sender f = peer) && bool_decide (fr_recipient f = local_pubkey x)) eqn:E2; cbn [negb];
    [|by apply safe_keeps, keeps_mret; apply _].
  apply andb_prop in E1 as [<-%bool_decide_eq_true <-%bool_decide_eq_true].
  apply andb_prop in E2 as [<-%bool_decide_eq_true _].
  apply safe_bind; [done | apply safe_keeps, keeps_pure; apply _|]. intros p Hp%yields_lift.
  assert (HPF : PF f) by (eapply Htrust; [done..|]; by eapply decrypted_verifies).
  apply safe_bind; [done | apply safe_keeps, keeps_ask|]. intros now _.
  apply safe_bind; [done | apply safe_keeps, keeps_pure; apply _|]. intros ack (Ed & Em & _)%yields_lift%built_ack_fields.
  assert (Hids : friend (fr_sender f) -> ack_dm_id ack = fr_dm_id f /\ ack_message_id ack = fr_message_id f).
  { intros Hfr. destruct (Htrim f HPF Hfr). split; congruence. }
  apply (safe_seq _ (fun b d => b = true -> known (fr_dm_id f, fr_message_id f) (tables d))); [apply safe_keeps, keeps_stored | |].
  { intros d a _ _ [= <-] Ht. right. by apply bool_decide_eq_true in Ht. }
  intros tombstone _.
  apply (safe_seq _ (fun b d => tombstone || b = true -> known (fr_dm_id f, fr_message_id f) (tables d)));
    [apply safe_keeps, keeps_stored | |].
  { intros d a _ Ht [= <-] [?|Hb]%orb_true_iff; [by apply Ht|]. left. by apply bool_decide_eq_true in Hb. }
  intros present _. destruct (tombstone || present) eqn:E.
  - eapply (safe_weaken _ (fun d => friend (fr_sender f) -> known (ack_dm_id ack, ack_message_id ack) (tables d))).
    { intros d Hk Hfr. destruct (Hids Hfr) as [-> ->]. by apply Hk. }
    apply safe_bind; [apply stable_known_to | | intros; apply safe_keeps, keeps_mret; apply _].
    apply safe_ack. intros Hfr. by destruct (Hids Hfr) as [-> _].
  - eapply (safe_weaken _ anywhere); [done|]. apply safe_take_in; [|done..]. intros m. by apply received_row_ok.
Qed.

(** ** Acknowledgements that arrive *)
Lemma evolve_acked d ack :
  ack_verify ack = Ok tt -> PA ack -> ack_recipient ack = public_key_hex x -> ack_dm_id ack = dm_with (ack_sender ack) ->
  dm_evolve d (with_tables (set_acked_at (ack_dm_id ack) (ack_message_id ack) (acked_at ack)) d).
Proof.
  intros Hv HPA Hr Hdm. set (f := set_acked_at _ _ _). pose proof (evolve_set_acked (ack_dm_id ack) (ack_message_id ack) (acked_at ack) (tables d)) as He.
  apply dm_evolve_tables; [done | apply (te_tombs _ _ He)|]. intros Hd k r Hk. cbn in Hk.
  apply lookup_alter_Some in Hk as [(<- & r0 & Hr0 & ->)|[_ Hk]]; [|by apply (dk_rows _ Hd k)].
  destruct (dk_rows _ Hd _ _ Hr0) as [Ho Ha]. cbn in Ho, Ha. assert (Hkey := to_keyed _ (dk_tables _ Hd) _ _ Hr0). cbn in Hkey.
  destruct (msg_acked_at r0) eqn:E; [exact (dk_rows _ Hd _ _ Hr0)|]. injection Hkey as E1 E2. split; cbn.
  - destruct (msg_outgoing r0); exact Ho.
  - intros t _. exists ack. cbn. by rewrite <- E1, <- E2.
Qed.

Lemma keeps_drop_outbox dm_id message_id :
  keeps dm_evolve (store (W := W) (with_outbox (fun o => (outbox_remove dm_id message_id o).2))).
Proof. by apply keeps_store_same. Qed.

Lemma safe_hint peer dest hint :
  frames_trusted -> frames_trimmed -> (forall t ack, hint = HintDirectMessageAck t ack -> ack_verify ack = Ok tt -> PA ack) ->
  safe anywhere (handle_direct_message_hint env x peer dest hint).
Proof.
  intros Htrust Htrim Hack. assert (HA := stable_anywhere). destruct hint as [t d m h|t ack|]; cbn [handle_direct_message_hint].
  - by apply safe_ingest_frame.
  - apply safe_bind; [done | apply safe_keeps, keeps_pure; apply _|]. intros [] Hv%yields_lift.
    case_match eqn:E; [by apply safe_keeps, keeps_mret; apply _|]. apply negb_false_iff, andb_prop in E as [E E3]. apply andb_prop in E as [E1 E2].
    apply bool_decide_eq_true in E1, E2, E3.
    apply safe_bind; [done | |].
    + intros d _ _. apply evolve_acked; [done | by eapply Hack | done|]. by rewrite E1.
    + intros _ _. apply safe_bind; [done | apply safe_keeps, keeps_drop_outbox | intros; apply safe_keeps, keeps_mret; apply _].
  - apply safe_keeps, keeps_mret; apply _.
Qed.

Lemma keeps_epoch_ack v ack : keeps dm_evolve (ingest_epoch_control_ack (W := W) v ack).
Proof. unfold ingest_epoch_control_ack. keeps_go; first [apply keeps_stored | apply keeps_drop_outbox]. Qed.

Lemma graphic_prefix id : str_all is_graphic id = true -> trim (EPOCH_CONTROL_OUTBOX_PREFIX ++s id) = EPOCH_CONTROL_OUTBOX_PREFIX ++s id.
Proof. intros Hid. apply trim_graphic. rewrite str_all_app, Hid. done. Qed.

Lemma safe_epoch_control v id : str_all is_graphic id = true -> safe anywhere (ingest_epoch_control_offer parse_endpoint env x v id).
Proof.
  intros Hid. assert (HA := stable_anywhere). unfold ingest_epoch_control_offer.
  apply safe_bind; [done | apply safe_keeps, keeps_others|]. intros known' _.
  destruct known'; cbn [negb]; [|by apply safe_keeps, keeps_mret; apply _].
  apply safe_bind; [done | apply safe_keeps, keeps_pure; apply _|]. intros provider _.
  apply safe_bind; [done | apply safe_keeps, keeps_outside|]. intros envelope_id _.
  apply safe_bind; [done | apply safe_keeps, keeps_ask|]. intros now _.
  apply safe_bind; [done | apply safe_keeps, keeps_pure; apply _|]. intros ack Hack%yields_lift.
  apply safe_bind; [done | | intros; apply safe_keeps, keeps_mret; apply _].
  eapply safe_weaken; [|apply safe_publish_ack]. cbn. intros d _ _. left. apply built_ack_fields in Hack as (-> & _).
  rewrite graphic_prefix by done. apply starts_with_app.
Qed.

(** An acknowledgement that an offer, or the payload of an offer, presents to [x]. *)
Definition presents_ack (sealed : SealedReceiveOfferV1) (ack : DirectMessageAckV1) : Prop :=
  (exists now v d m t s, sealed_open sealed x now = Ok v /\ offer_scope (so_reference v) = DirectMessageAck d m t s
     /\ ack = offer_ack v d m t s)
  \/ (exists n bytes t, fetch_offer_payload env n = Ok bytes /\ from_json bytes = Some (HintDirectMessageAck t ack)).
Definition acks_trusted (sealed : SealedReceiveOfferV1) : Prop :=
  forall ack, presents_ack sealed ack -> ack_verify ack = Ok tt -> PA ack.

Lemma opened_scope_graphic sealed now v id :
  sealed_open sealed x now = Ok v -> offer_scope (so_reference v) = EpochControl id -> str_all is_graphic id = true.
Proof.
  unfold sealed_open, signed_verify, reference_validate. intros Hv Hs. inv_result. injection Hv as <-. rewrite Hs in *.
  inv_result. match goal with Hf : fixed_hex 32 id = Ok _ |- _ => unfold fixed_hex in Hf end. inv_result. destruct_bools.
  eapply str_all_impl; [apply lower_hex_graphic | done].
Qed.

Lemma keeps_lapsed v : keeps dm_evolve (offer_lapsed (W := W) env v).
Proof. unfold offer_lapsed. keeps_go; first [apply keeps_ask | apply keeps_is_mutual]. Qed.

(** A guard that ends the call. *)
Lemma safe_guard {A} P (b : bool) (a : A) (m : Prog Dev A) : (b = false -> safe P m) -> safe P (if b then mret a else m).
Proof. intros Hm. destruct b; [apply safe_keeps, keeps_mret; apply _ | by apply Hm]. Qed.

Lemma safe_receive sealed :
  frames_trusted -> frames_trimmed -> acks_trusted sealed -> safe anywhere (ingest_account_receive_offer parse_endpoint env x sealed).
Proof.
  intros Htrust Htrim Hack. assert (HA := stable_anywhere). unfold ingest_account_receive_offer.
  apply safe_bind; [done | apply safe_keeps, keeps_ask|]. intros now _.
  apply safe_bind; [done | apply safe_keeps, keeps_pure; apply _|]. intros v Hv%yields_lift.
  apply safe_bind; [done | apply safe_keeps, keeps_pure; apply _|]. intros topic _.
  destruct (offer_scope (so_reference v)) as [| |d m h|d m t s|e|e] eqn:Escope.
  - apply safe_keeps, keeps_outside.
  - apply safe_bind; [done | apply safe_keeps, keeps_is_mutual|]. intros b1 _. apply safe_guard. intros _.
    apply safe_bind; [done | apply safe_keeps, keeps_pure; apply _|]. intros provider _.
    apply safe_bind; [done | apply safe_keeps, keeps_ask_ok|]. intros payload [n Hn]%yields_ask_ok.
    apply safe_bind; [done | apply safe_keeps, keeps_lapsed|]. intros b2 _. apply safe_guard. intros _.
    apply safe_bind; [done | apply safe_keeps, keeps_ask_ok|]. intros _ _.
    apply safe_bind; [done | apply safe_keeps, keeps_pure; apply _|]. intros hint Hh%yields_lift%ok_of_option_ok. apply safe_guard. intros _.
    apply safe_bind; [done | apply safe_keeps, keeps_is_mutual|]. intros b3 _. apply safe_guard. intros _.
    apply safe_hint; [done..|]. intros t ack ->. apply Hack. right. eauto 6.
  - apply safe_bind; [done | apply safe_keeps, keeps_is_mutual|]. intros b1 _. apply safe_guard. intros _.
    apply safe_bind; [done | apply safe_keeps, keeps_pure; apply _|]. intros provider _.
    apply safe_bind; [done | apply safe_keeps, keeps_ask_ok|]. intros _ _.
    apply safe_bind; [done | apply safe_keeps, keeps_lapsed|]. intros b2 _. apply safe_guard. intros _.
    apply safe_bind; [done | apply safe_keeps, keeps_ask_ok|]. intros _ _.
    apply safe_bind; [done | apply safe_keeps, keeps_lapsed|]. intros b3 _. apply safe_guard. intros _.
    by apply safe_hint.
  - destruct (starts_with EPOCH_CONTROL_OUTBOX_PREFIX d); [apply safe_keeps, keeps_epoch_ack|].
    apply safe_bind; [done | apply safe_keeps, keeps_is_mutual|]. intros b1 _. apply safe_guard. intros _.
    apply safe_bind; [done | apply safe_keeps, keeps_ask|]. intros now' _. apply safe_guard. intros _.
    apply safe_hint; [done..|]. intros t' ack [= _ <-]. apply Hack. left. exists now, v, d, m, t, s. done.
  - apply safe_keeps, keeps_outside.
  - apply safe_epoch_control. by eapply opened_scope_graphic.
Qed.

(** ** Sending *)
Lemma keeps_refresh peer : keeps dm_evolve (refresh_direct_message_conversation (W := W) env x peer).
Proof.
  unfold refresh_direct_message_conversation.
  keeps_go; first [apply keeps_stored | apply keeps_is_mutual | apply keeps_ask | by apply keeps_store_same].
Qed.

Lemma keeps_open peer : keeps dm_evolve (open_direct_message (W := W) env x peer).
Proof.
  unfold open_direct_message, ensure_direct_message_conversation_row.
  keeps_go; first [apply keeps_stored | apply keeps_is_mutual | apply keeps_ask | by apply keeps_store_same].
Qed.

Lemma keeps_manifests peer message_id attachments :
  keeps dm_evolve (prepare_direct_message_manifests (W := W) env x peer message_id attachments).
Proof.
  unfold prepare_direct_message_manifests, encrypt_blob, put_encrypted.
  keeps_go; first [apply keeps_ask | apply keeps_put_blob; by intros [? ?]].
Qed.

Lemma keeps_queue recipient channel epoch secret e : keeps dm_evolve (queue_epoch_control (W := W) env recipient channel epoch secret e).
Proof.
  unfold queue_epoch_control. keeps_go; first [apply keeps_ask | apply keeps_put_blob; by intros [? ?] | by apply keeps_store_same].
Qed.

(** The row and the frame of a message that is sent. *)
Lemma safe_send peer txt reply attachments :
  (forall n, String.length (drawn_nonce env n) = 24%nat) ->
  safe anywhere (send_direct_message env x peer txt reply attachments).
Proof.
  intros Hnonce. assert (HA := stable_anywhere). unfold send_direct_message.
  apply safe_bind; [done | apply safe_keeps, keeps_pure; apply _|]. intros peer' _. clear peer. rename peer' into peer.
  apply safe_bind; [done | apply safe_keeps, keeps_is_mutual|]. intros enabled _.
  apply safe_bind; [done | apply safe_keeps, keeps_pure; apply _|]. intros _ _.
  unfold send_direct_message_internal. apply safe_bind; [done | apply safe_keeps, keeps_pure; apply _|]. intros _ _.
  apply safe_bind; [done | apply safe_keeps, keeps_ask|]. intros now _.
  apply safe_bind; [done | apply safe_keeps; keeps_go; apply keeps_stored|]. intros _ _.
  apply safe_bind; [done | apply safe_keeps, keeps_manifests|]. intros [local encrypted] _.
  apply safe_bind; [done | apply safe_keeps, keeps_ask|]. intros created _.
  apply safe_bind; [done | apply safe_keeps, keeps_ask|]. intros nonce [dn Hn].
  assert (Hlen : String.length nonce = 24%nat) by (injection Hn as <-; apply Hnonce).
  apply safe_bind; [done | apply safe_keeps, keeps_pure; apply _|]. intros f Hf%yields_lift.
  set (b := {| blob_bytes := to_json f; blob_mime := DIRECT_MESSAGE_FRAME_MIME;
               blob_owner := "dm_outbox:" ++s dm_with peer ++s "/" ++s message_id_at x now |}).
  assert (Hmade : frame_made b peer (dm_with peer) (message_id_at x now) created
    {| text := normalize_optional_text txt; reply_to := normalize_optional_text reply; attachment_manifest := encrypted |} f).
  { split_and!; [split; [done | apply starts_with_app] | done | done | eauto | eauto]. }
  apply (safe_seq _ (fun _ d => b ∈ placed d)).
  - apply safe_keeps, keeps_put_blob. intros _. fold b. eauto 10.
  - intros d hash _ _. unfold put_owned_blob. destruct (put_blob env (asked d)); [|done]. intros _. cbn. apply list_elem_of_here.
  - intros hash _. assert (HB : stable (fun d => b ∈ placed d)) by (intros d d' _ He; apply (de_placed _ _ He)).
    apply safe_bind; [done | |].
    + intros d _ Hb. apply evolve_put_row. split; [|done]. cbn. exists b. eexists _, f. split_and!; [exact Hb | exact Hmade | done | done].
    + intros _ _. apply safe_keeps. keeps_go; first [apply keeps_refresh | by apply keeps_store_same].
Qed.

(** ** Retrying *)
Lemma keeps_can_send r : keeps dm_evolve (account_dm_outbox_row_can_send (W := W) env r).
Proof.
  unfold account_dm_outbox_row_can_send.
  keeps_go; first [apply keeps_stored | apply keeps_others | apply keeps_is_mutual | apply keeps_drop_outbox].
Qed.

Lemma keeps_bind_yields {A B} (m : Prog Dev A) (k : A -> Prog Dev B) :
  keeps dm_evolve m -> (forall a, yields m a -> keeps dm_evolve (k a)) -> keeps dm_evolve (m ≫= k).
Proof.
  intros Hm Hk d. specialize (Hm d). unfold mbind, prog_bind.
  assert (Hy : forall a, (m d).1 = Ok a -> yields m a) by (intros a Ha; by exists d).
  destruct (m d) as [[a|e] d']; [|done]. etrans; [exact Hm | by apply Hk, Hy].
Qed.

Lemma keeps_publish_other to address reference offer :
  (forall d m t s, offer_scope reference <> DirectMessageAck d m t s) ->
  keeps dm_evolve (publish_receive_offer (W := W) env to address reference offer).
Proof. intros Hs d. apply evolve_publish. intros _ dm m t s Hs'. by apply Hs in Hs'. Qed.

Lemma yields_bind {A B} (m : Prog Dev A) (k : A -> Prog Dev B) b : yields (m ≫= k) b -> exists a, yields m a /\ yields (k a) b.
Proof.
  intros [d Hd]. unfold mbind, prog_bind in Hd. destruct (m d) as [[a|e] d'] eqn:E; [|done].
  exists a. split; [exists d; by rewrite E | by exists d'].
Qed.

Lemma keeps_publish_frame r destination : keeps dm_evolve (publish_account_receive_dm_frame (W := W) env x r destination).
Proof.
  unfold publish_account_receive_dm_frame. apply keeps_seq; [apply _ | apply keeps_ask|]. intros permit.
  destruct permit; cbn [negb]; [|apply keeps_mret; apply _].
  apply keeps_seq; [apply _ | apply keeps_can_send|]. intros can. destruct can; cbn [negb]; [|apply keeps_mret; apply _].
  apply keeps_bind_yields.
  { destruct (strip_prefix _ _); [|apply keeps_pure; apply _]. unfold epoch_control_reference. keeps_go. apply keeps_ask_ok. }
  intros reference Hr. assert (Hs : forall d m t s, offer_scope reference <> DirectMessageAck d m t s).
  { destruct (strip_prefix _ _).
    - unfold epoch_control_reference in Hr. apply yields_bind in Hr as (? & _ & Hr). apply yields_bind in Hr as (? & _ & Hr).
      apply yields_bind in Hr as (? & _ & Hr). destruct Hr as [d [= <-]]. done.
    - apply yields_lift, inline_scope_of in Hr. by rewrite Hr. }
  apply keeps_seq; [apply _ | apply keeps_seal_offer|]. intros offer.
  apply keeps_seq; [apply _ | by apply keeps_attempt, keeps_publish_other|]. intros sent.
  destruct sent; [apply keeps_mret; apply _|]. apply keeps_seq; [apply _ | apply keeps_ask_ok | intros; apply keeps_pure; apply _].
Qed.

Lemma keeps_flush_row now r ds : keeps dm_evolve (flush_row (W := W) env x now r ds).
Proof.
  unfold flush_row, destination_of, resolve_account_receive_destination.
  keeps_go; first [apply keeps_can_send | apply keeps_ask | apply keeps_publish_frame | by apply keeps_store_same].
Qed.

Lemma keeps_flush now : keeps dm_evolve (flush_due_direct_message_outbox (W := W) env x now).
Proof.
  unfold flush_due_direct_message_outbox. apply keeps_seq; [apply _ | apply keeps_stored|]. intros o.
  apply keeps_seq; [apply _ | apply keeps_pure; apply _|]. intros rs.
  apply keeps_seq; [apply _ | | intros; apply keeps_mret; apply _]. generalize (∅ : Destinations).
  induction rs as [|r rs IH]; intros ds; cbn; [apply keeps_mret; apply _|].
  apply keeps_seq; [apply _ | apply keeps_flush_row | done].
Qed.

(** ** Deleting *)
Lemma evolve_deleted d dm m t :
  dm_evolve d (with_tables (fun tb => delete_message_local dm m
    (put_tombstone {| tomb_dm_id := dm; tomb_message_id := m; tomb_deleted_at := t |} tb)) d).
Proof.
  pose proof (evolve_delete dm m t (tables d)) as He. apply dm_evolve_tables; [done | apply (te_tombs _ _ He)|].
  intros Hd. cbn. apply map_Forall_delete, (dk_rows _ Hd).
Qed.

Lemma keeps_delete peer message_id : keeps dm_evolve (delete_direct_message_message (W := W) env x peer message_id).
Proof.
  unfold delete_direct_message_message. apply keeps_seq; [apply _ | apply keeps_pure; apply _|]. clear peer. intros peer.
  apply keeps_seq; [apply _ | apply keeps_pure; apply _|]. intros _. apply keeps_seq; [apply _ | apply keeps_ask|]. intros now d.
  etrans; [exact (evolve_deleted d (dm_with peer) (trim message_id) now) | apply keeps_refresh].
Qed.

Lemma safe_clear peer : safe anywhere (clear_direct_message (W := W) env x peer).
Proof.
  assert (HA := stable_anywhere). unfold clear_direct_message.
  apply safe_bind; [done | apply safe_keeps, keeps_pure; apply _|]. intros peer' _. clear peer. rename peer' into peer.
  apply safe_bind; [done | apply safe_keeps, keeps_ask|]. intros now _ d Hd _.
  destruct (clear_tables (dm_with peer) now (tables d) (to_keyed _ (dk_tables _ Hd))) as (t' & Ht' & He & Em & _).
  unfold stored, get, lift, store, put, mbind, prog_bind. cbv beta iota. change (local_pubkey x) with (public_key_hex x). rewrite Ht'. cbn [ok_of_option snd].
  apply (dm_evolve_tables d (clear_local (dm_with peer) t')); [done | apply (te_tombs _ _ He)|].
  intros _. rewrite Em. intros k r [Hr _]%map_lookup_filter_Some. exact (dk_rows _ Hd k r Hr).
Qed.
End run.
