(* ===== verification/DirectMessageNet.v ===== *)
(** * Accounts that exchange direct messages

    Any number of accounts that run the program, each with any sequence of calls under any
    environment: the network loses, delays, repeats and invents offers and blobs.  What it
    cannot do is sign for an account that runs the program: a frame or an acknowledgement
    that verifies under such an account's key is one that the account made. *)
From S2P Require Import Prelude RustStr Envelope Replicas AccountSyncItem ChannelSeal Calls DirectMessageStore DirectMessageStoreProps DirectMessage DirectMessageFrameProps ReceiveOffer ReceiveOfferProps Notifications DirectMessageService DirectMessageSend DirectMessageRun.

(** Different texts have different hashes. *)
Class Blake3Injective `{Blake3Crate} := { blake3_hash_inj :: Inj (=) (=) blake3_hash }.

(** ** Names *)
Lemma str_app_inj_tail a b s t : String.length s = String.length t -> a ++s s = b ++s t -> a = b /\ s = t.
Proof.
  intros Hl. revert b. induction a as [|c a IH]; intros [|c' b] He; cbn in He.
  - done.
  - subst s. cbn in Hl. rewrite str_app_length in Hl. lia.
  - subst t. cbn in Hl. rewrite str_app_length in Hl. lia.
  - injection He as <- He. destruct (IH b He) as [-> ->]. done.
Qed.

Lemma sorted_pair_cases a b : sorted_pair a b = (a, b) \/ sorted_pair a b = (b, a).
Proof. unfold sorted_pair. destruct (rust_leb a b); auto. Qed.

Lemma participants_inj a p q :
  String.length p = String.length a -> String.length q = String.length a -> participants_text a p = participants_text a q -> p = q.
Proof.
  intros Hp Hq. unfold participants_text.
  assert (Hsplit : forall x y x' y', String.length y = String.length y' ->
            "kukuri:direct-message:" ++s x ++s COLON ++s y = "kukuri:direct-message:" ++s x' ++s COLON ++s y' -> x = x' /\ y = y').
  { intros x y x' y' Hl He. apply str_app_inj in He. rewrite <- !str_app_assoc in He.
    apply str_app_inj_tail in He as [He ->]; [|done]. by apply str_app_inj_tail in He as [-> _]. }
  destruct (sorted_pair_cases a p) as [->| ->], (sorted_pair_cases a q) as [->| ->]; intros He; apply Hsplit in He as [? ?]; congruence.
Qed.

Section names.
Context `{HL : HexCrateLaws} `{C : Crypto} {KL : KeyTextLaws} `{B : Blake3Crate} {BI : Blake3Injective}.

Lemma public_key_shape k : String.length (public_key_hex k) = 64%nat /\ str_all is_lower_hex (public_key_hex k) = true.
Proof using HL KL. destruct (public_key_text k) as (b & Hb & ->). by rewrite hex_encode_length, hex_encode_lower, Hb. Qed.

Lemma dm_id_inj k p q :
  String.length p = 64%nat -> String.length q = 64%nat ->
  direct_message_id_for_participants (public_key_hex k) p = direct_message_id_for_participants (public_key_hex k) q -> p = q.
Proof using HL KL BI.
  intros Hp Hq He. unfold direct_message_id_for_participants in He. apply str_app_inj in He.
  assert (Hh : blake3_hash (participants_text (public_key_hex k) p) = blake3_hash (participants_text (public_key_hex k) q)).
  { apply (f_equal hex_decode) in He. rewrite !hex_decode_encode in He. by injection He. }
  apply blake3_hash_inj in Hh. apply participants_inj in Hh; [done | |]; rewrite (proj1 (public_key_shape k)); done.
Qed.

Lemma dm_id_graphic a b : str_all is_graphic (direct_message_id_for_participants a b) = true.
Proof using HL.
  unfold direct_message_id_for_participants. rewrite str_all_app. cbn.
  eapply str_all_impl; [apply lower_hex_graphic | apply hex_encode_lower].
Qed.

Lemma dm_id_no_epoch a b : starts_with EPOCH_CONTROL_OUTBOX_PREFIX (direct_message_id_for_participants a b) = false.
Proof. done. Qed.

Lemma substring_all_prefix P n s : str_all P s = true -> str_all P (String.substring 0 n s) = true.
Proof.
  revert s. induction n as [|n IH]; intros [|a s] Hs; [done..|]. cbn in *. apply andb_prop in Hs as [-> Hs]. by apply IH.
Qed.

Lemma substring_length_prefix n s : (n <= String.length s)%nat -> String.length (String.substring 0 n s) = n.
Proof. revert s. induction n as [|n IH]; intros [|a s] Hs; cbn in *; [done | done | lia|]. f_equal. apply IH. lia. Qed.

Lemma suffix_shape k : String.length (short_id_suffix (public_key_hex k)) = 8%nat
  /\ str_all is_graphic (short_id_suffix (public_key_hex k)) = true.
Proof using HL KL.
  destruct (public_key_shape k) as [Hl Ha]. unfold short_id_suffix, str_get_to. rewrite Hl. cbn [Nat.leb andb].
  assert (Hg : exists a, String.get 8 (public_key_hex k) = Some a /\ is_lower_hex a = true).
  { clear -Hl Ha. generalize dependent (public_key_hex k). intros s Hl Ha.
    do 9 (destruct s as [|? s]; [done|]; cbn in Ha; apply andb_prop in Ha as [? Ha]). cbn. eauto. }
  destruct Hg as (a & -> & Hla). replace (cont a) with false.
  - cbn [negb default from_option]. split; [apply substring_length_prefix; lia|].
    apply substring_all_prefix. eapply str_all_impl; [apply lower_hex_graphic | done].
  - symmetry. revert Hla. unfold cont, is_lower_hex, is_ascii_digit, byte_in. rewrite orb_true_iff, !andb_true_iff, !Z.leb_le.
    intros Hla. apply andb_false_iff. rewrite !Z.leb_gt. lia.
Qed.

Lemma dec_i64_graphic n : str_all is_graphic (dec_i64 n) = true.
Proof.
  assert (Hd : forall m, str_all is_graphic (dec m) = true).
  { intros m. eapply str_all_impl; [|apply pad_digits_digits]. intros a. unfold is_ascii_digit, is_graphic, byte_in.
    rewrite !andb_true_iff, !Z.leb_le. lia. }
  unfold dec_i64. case_match; [rewrite str_all_app|]; by rewrite Hd.
Qed.

Lemma message_id_graphic k now : str_all is_graphic (message_id_at k now) = true.
Proof using HL KL.
  unfold message_id_at. rewrite !str_all_app, dec_i64_graphic. cbn. by apply suffix_shape.
Qed.

(** The author's suffix is part of the id. *)
Lemma message_id_author k k' now now' :
  message_id_at k now = message_id_at k' now' -> short_id_suffix (public_key_hex k) = short_id_suffix (public_key_hex k').
Proof using HL KL.
  unfold message_id_at. rewrite <- !str_app_assoc. intros He.
  apply str_app_inj_tail in He as [_ He]; [done|]. unfold local_pubkey. by rewrite (proj1 (suffix_shape k)), (proj1 (suffix_shape k')).
Qed.
End names.

(** ** The network *)
Inductive DmCall :=
| CallSend (peer : string) (txt reply : option string) (attachments : list PendingAttachment)
| CallReceive (sealed : SealedReceiveOfferV1)
| CallFlush (now : Z)
| CallDelete (peer message_id : string)
| CallClear (peer : string)
| CallOpen (peer : string)
| CallQueue (recipient channel epoch secret : string) (e : KukuriEnvelope).

Definition fresh_device {W} (w : W) : DmDevice W :=
  {| tables := empty_tables; inbox := empty_notifications; placed := []; published := []; asked := 0; others := w |}.

Section net.
Context `{CL : CryptoLaws} {E : Ecdh} {EL : EcdhLaws} `{HL : HexCrateLaws} {KL : KeyTextLaws} {PKL : PubkeyLaws}.
Context `{B : Blake3Crate} {BI : Blake3Injective} `{AL : AeadLaws} `{JL : JsonArrayLaws}.
Context `{PL : JsonLaws DirectMessagePayloadV1} `{FL : JsonLaws DirectMessageFrameV1} `{Json DirectMessageEncryptedAttachmentV1}.
Context `{Json SignedPart} `{Json SignedReceiveOffer} `{Json SealedReceiveOfferV1} `{Json PrivateReceivePayloadV1}.
Context `{Json GossipHint} `{Json KukuriEnvelope} `{BlobHash}.
Context {W : Type} `{OtherScopes W} `{EqDecision Keys}.
Context (parse_endpoint : string -> option string).
(** The accounts that run the program. *)
Context (honest : Keys -> Prop).
#[local] Abbreviation Net := (Keys -> DmDevice W).

Definition run_dm_call (env : DmEnv) (x : Keys) (c : DmCall) (d : DmDevice W) : DmDevice W :=
  match c with
  | CallSend peer txt reply attachments => (send_direct_message env x peer txt reply attachments d).2
  | CallReceive sealed => (ingest_account_receive_offer parse_endpoint env x sealed d).2
  | CallFlush now => (flush_due_direct_message_outbox env x now d).2
  | CallDelete peer message_id => (delete_direct_message_message env x peer message_id d).2
  | CallClear peer => (clear_direct_message env x peer d).2
  | CallOpen peer => (open_direct_message env x peer d).2
  | CallQueue recipient channel epoch secret e => (queue_epoch_control env recipient channel epoch secret e d).2
  end.

Definition friend (s : string) : Prop := exists a, honest a /\ s = public_key_hex a.

(** A frame that names an honest sender is one that the sender made. *)
Definition genuine_frame (n : Net) (f : DirectMessageFrameV1) : Prop :=
  forall a, honest a -> fr_sender f = public_key_hex a ->
  exists b f0, b ∈ placed (n a) /\ is_frame_blob b /\ blob_bytes b = to_json f0
    /\ canonical_direct_message_frame_payload f0 = canonical_direct_message_frame_payload f.
(** An acknowledgement that names an honest sender is one that the sender published. *)
Definition genuine_ack (n : Net) (ack : DirectMessageAckV1) : Prop :=
  forall a, honest a -> ack_sender ack = public_key_hex a ->
  exists p s, p ∈ published (n a) /\ pub_to p = ack_recipient ack
    /\ offer_scope (pub_reference p) = DirectMessageAck (ack_dm_id ack) (ack_message_id ack) (acked_at ack) s.

(** Signatures cannot be forged, and the random source draws whole nonces. *)
Record unforged (n : Net) (x : Keys) (env : DmEnv) (c : DmCall) : Prop := {
  uf_nonce : forall k, String.length (drawn_nonce env k) = 24%nat;
  uf_frames : frames_trusted (genuine_frame n) env;
  uf_acks : forall sealed, c = CallReceive sealed -> acks_trusted (genuine_ack n) x env sealed
}.

Definition upd (n : Net) (x : Keys) (d : DmDevice W) : Net := fun y => if decide (y = x) then d else n y.

Inductive net_run (init : Keys -> W) : Net -> Prop :=
| net_start : net_run init (fun x => fresh_device (init x))
| net_call n x env c : net_run init n -> honest x -> unforged n x env c -> net_run init (upd n x (run_dm_call env x c (n x))).

(** ** The invariant of the network *)
Definition net_ok (n : Net) : Prop := forall x, honest x -> dm_ok friend (genuine_frame n) (genuine_ack n) x (n x).

Lemma made_frame_ids k b peer dm m t p f :
  frame_made k b peer dm m t p f -> fr_dm_id f = dm /\ fr_message_id f = m /\ trim dm = dm /\ trim m = m.
Proof using HL KL.
  intros (_ & _ & -> & [now ->] & nonce & _ & Hf). destruct (encrypted_frame_fields _ _ _ _ _ _ _ _ Hf) as (-> & -> & _).
  by rewrite !(trim_graphic (direct_message_id_for_participants _ _)), !(trim_graphic (message_id_at k now))
    by (apply dm_id_graphic || apply message_id_graphic).
Qed.

Lemma canonical_frame_inj f g :
  canonical_direct_message_frame_payload f = canonical_direct_message_frame_payload g ->
  fr_dm_id f = fr_dm_id g /\ fr_message_id f = fr_message_id g /\ fr_sender f = fr_sender g /\ fr_recipient f = fr_recipient g
  /\ fr_created_at f = fr_created_at g /\ fr_nonce_hex f = fr_nonce_hex g /\ fr_ciphertext_hex f = fr_ciphertext_hex g.
Proof using JL. unfold canonical_direct_message_frame_payload. intros He. apply json_array_inj in He. by simplify_eq. Qed.

(** The frame that an honest sender made. *)
Lemma genuine_frame_made n f a :
  net_ok n -> honest a -> fr_sender f = public_key_hex a -> genuine_frame n f ->
  exists b f0 peer dm m t p, b ∈ placed (n a) /\ frame_made a b peer dm m t p f0
    /\ canonical_direct_message_frame_payload f0 = canonical_direct_message_frame_payload f.
Proof using FL.
  intros Hn Ha Hs Hf. destruct (Hf a Ha Hs) as (b & f0 & Hb & Hfb & Hbytes & Hc).
  destruct (dk_placed _ _ _ _ _ (Hn a Ha) b Hb Hfb) as (peer & dm & m & t & p & f1 & Hmade).
  assert (f1 = f0) as ->.
  { destruct Hmade as (_ & Hb1 & _). rewrite Hbytes in Hb1. apply (f_equal (from_json (T := DirectMessageFrameV1))) in Hb1. rewrite !from_to_json in Hb1. by injection Hb1. }
  exists b, f0, peer, dm, m, t, p. done.
Qed.

Lemma net_trimmed n : net_ok n -> frames_trimmed friend (genuine_frame n).
Proof using HL KL JL FL.
  intros Hn f Hf (a & Ha & Hs). destruct (genuine_frame_made n f a Hn Ha Hs Hf) as (b & f0 & peer & dm & m & t & p & _ & Hmade & Hc).
  apply made_frame_ids in Hmade as (Ed & Em & Htd & Htm). apply canonical_frame_inj in Hc as (<- & <- & _). by rewrite Ed, Em.
Qed.

Lemma run_dm_call_evolves n x env c :
  net_ok n -> honest x -> unforged n x env c ->
  dm_evolve friend (genuine_frame n) (genuine_ack n) x (n x) (run_dm_call env x c (n x)).
Proof using HL KL JL FL.
  intros Hn Hx [Hnonce Hframes Hacks]. assert (Hd := Hn x Hx). destruct c; cbn [run_dm_call].
  - by apply safe_send.
  - apply safe_receive; [done | by apply net_trimmed | by apply Hacks | done | done].
  - by apply keeps_flush.
  - by apply keeps_delete.
  - by apply safe_clear.
  - by apply keeps_open.
  - by apply keeps_queue.
Qed.

Lemma dm_ok_mono (PF PF' : DirectMessageFrameV1 -> Prop) (PA PA' : DirectMessageAckV1 -> Prop) x (d : DmDevice W) :
  (forall f, PF f -> PF' f) -> (forall a, PA a -> PA' a) -> dm_ok friend PF PA x d -> dm_ok friend PF' PA' x d.
Proof.
  intros HF HA [Ht Hr Ha Hp]. split; [done| |done|done]. intros k r Hk. destruct (Hr k r Hk) as [Ho Hack]. split.
  - destruct (msg_outgoing r); [done|]. destruct Ho as (Hdm & f & p & Hf & Hrest). split; [done|]. exists f, p. auto.
  - intros t Hat. destruct (Hack t Hat) as (ack & Hpa & Hrest). exists ack. auto.
Qed.

Lemma net_run_ok init n : net_run init n -> net_ok n.
Proof.
  induction 1 as [|n x env c _ IH Hx Hu].
  - intros x _. split; cbn; [split; [apply map_Forall_empty|] | apply map_Forall_empty | set_solver..].
    intros k [? Hk]. cbn in Hk. by rewrite lookup_empty in Hk.
  - pose proof (run_dm_call_evolves n x env c IH Hx Hu) as He. destruct (de_ok _ _ _ _ _ _ He (IH x Hx)) as [Hok _].
    set (n' := upd n x (run_dm_call env x c (n x))).
    assert (Hpl : forall y b, b ∈ placed (n y) -> b ∈ placed (n' y)).
    { intros y b. unfold n', upd. case_decide as Hy; [subst y; apply (de_placed _ _ _ _ _ _ He) | done]. }
    assert (Hpub : forall y p, p ∈ published (n y) -> p ∈ published (n' y)).
    { intros y p. unfold n', upd. case_decide as Hy; [subst y; apply (de_published _ _ _ _ _ _ He) | done]. }
    assert (HF : forall f, genuine_frame n f -> genuine_frame n' f).
    { intros f Hf a Ha Hs. destruct (Hf a Ha Hs) as (b & f0 & Hb & ?). exists b, f0. auto. }
    assert (HA : forall a, genuine_ack n a -> genuine_ack n' a).
    { intros ack Hack a Ha Hs. destruct (Hack a Ha Hs) as (p & s & Hp & ?). exists p, s. auto. }
    intros y Hy. eapply dm_ok_mono; [exact HF | exact HA|]. unfold n', upd. case_decide as Hyx; [by subst y | by apply IH].
Qed.

(** ** What an account knows of a message that was delivered *)

(** The account made one frame only with the ids [m]. *)
Definition used_once (m : string * string) (d : DmDevice W) : Prop :=
  forall b b' (f f' : DirectMessageFrameV1), b ∈ placed d -> b' ∈ placed d -> is_frame_blob b -> is_frame_blob b' ->
  blob_bytes b = to_json f -> blob_bytes b' = to_json f' ->
  (fr_dm_id f, fr_message_id f) = m -> (fr_dm_id f', fr_message_id f') = m -> f = f'.

(** Opening a frame reads the signed part only. *)
Lemma open_frame_signed_part k f g remote :
  canonical_direct_message_frame_payload f = canonical_direct_message_frame_payload g ->
  open_direct_message_frame k f remote = open_direct_message_frame k g remote.
Proof using JL.
  intros (E1 & E2 & E3 & E4 & E5 & E6 & E7)%canonical_frame_inj. unfold open_direct_message_frame.
  by rewrite E1, E2, E3, E4, E5, E6, E7.
Qed.

Lemma decrypt_same k f g p q :
  canonical_direct_message_frame_payload f = canonical_direct_message_frame_payload g ->
  decrypt_direct_message_frame k f = Ok p -> decrypt_direct_message_frame k g = Ok q -> p = q.
Proof using JL.
  intros Hc. unfold decrypt_direct_message_frame. intros Hp Hq.
  apply result_bind_ok in Hp as (? & _ & Hp). apply result_bind_ok in Hp as (? & _ & Hp).
  apply result_bind_ok in Hq as (? & _ & Hq). apply result_bind_ok in Hq as (? & _ & Hq).
  destruct (canonical_frame_inj _ _ Hc) as (_ & _ & Es & _). rewrite <- Es in Hq.
  rewrite <- (open_frame_signed_part k f g _ Hc) in Hq. congruence.
Qed.

Lemma decrypted_sender k f p : decrypt_direct_message_frame k f = Ok p -> String.length (fr_sender f) = 64%nat.
Proof using PKL.
  intros Hv%decrypted_verifies. unfold frame_verify in Hv. apply result_bind_ok in Hv as (u & Hs & _).
  apply with_context_ok in Hs. destruct u. apply validate_pubkey_ok in Hs as [pk Hpk]. by apply pubkey_hex in Hpk as [? _].
Qed.

Lemma verified_ack_sender ack : ack_verify ack = Ok tt -> String.length (ack_sender ack) = 64%nat.
Proof using PKL.
  unfold ack_verify. intros Hv. apply result_bind_ok in Hv as (u & Hs & _).
  apply with_context_ok in Hs. destruct u. apply validate_pubkey_ok in Hs as [pk Hpk]. by apply pubkey_hex in Hpk as [? _].
Qed.

(** The acknowledged message is known to its recipient. *)
Lemma acked_is_known n a b m r t :
  net_ok n -> honest a -> honest b -> messages (tables (n a)) !! m = Some r -> msg_outgoing r = true ->
  msg_recipient_pubkey r = public_key_hex b -> msg_acked_at r = Some t -> known m (tables (n b)).
Proof using HL KL BI PKL.
  intros Hn Ha Hb Hr Hout Hto Hack. destruct (Hn a Ha) as [[Hkey _] Hrows _ _]. assert (Hk := Hkey _ _ Hr). cbn in Hk.
  destruct (Hrows _ _ Hr) as [Hs Hak]. rewrite Hout in Hs. destruct Hs as (bl & p & f & _ & (_ & _ & Hdm & _) & _).
  destruct (Hak t Hack) as (ack & Hpa & Hv & Ed & Em & Er & Hdm'). rewrite Hto in Hdm.
  assert (Hsender : ack_sender ack = public_key_hex b).
  { rewrite Hdm in Hdm'. symmetry. apply (dm_id_inj a); [apply public_key_shape | by apply verified_ack_sender | done]. }
  destruct (Hpa b Hb Hsender) as (o & s & Ho & Hpub & Hscope).
  destruct (dk_acks _ _ _ _ _ (Hn b Hb) o Ho _ _ _ _ Hscope) as [Hep|[Hknown _]].
  - exists a. split; [done|]. by rewrite Hpub.
  - exfalso. rewrite Ed, Hdm in Hep. by rewrite dm_id_no_epoch in Hep.
  - rewrite Ed, Em in Hknown. by rewrite Hk.
Qed.

(** C5: "delivered" is true: in every run of the network, when the message that [a] sent to
    [b] is shown as delivered, [b] holds that message, with the text, the reply and the time
    that [a] wrote, or [b] has deleted it, provided that [a] made one frame only with the
    ids of the message ([used_once]; it makes two when it sends to [b] twice in one
    millisecond) and that the two accounts differ in the first eight digits of their keys,
    which are part of the ids.  The network may lose, repeat, delay and invent whatever it
    likes except signatures of [a] and [b]. *)
Theorem delivered_means_received init n a b m r t :
  net_run init n -> honest a -> honest b -> short_id_suffix (public_key_hex a) <> short_id_suffix (public_key_hex b) ->
  messages (tables (n a)) !! m = Some r -> msg_outgoing r = true -> msg_recipient_pubkey r = public_key_hex b ->
  msg_acked_at r = Some t -> used_once m (n a) ->
  is_Some (tombstones (tables (n b)) !! m)
  \/ exists r', messages (tables (n b)) !! m = Some r' /\ msg_sender_pubkey r' = public_key_hex a
     /\ msg_text r' = msg_text r /\ msg_reply_to_message_id r' = msg_reply_to_message_id r /\ msg_created_at r' = msg_created_at r.
Proof.
  intros Hrun Ha Hb Hne Hr Hout Hto Hack Honce. assert (Hn := net_run_ok init n Hrun).
  destruct (acked_is_known n a b m r t Hn Ha Hb Hr Hout Hto Hack) as [[r' Hr']|]; [right | by left]. exists r'. split; [done|].
  destruct (Hn a Ha) as [[Hkey _] Hrows _ _], (Hn b Hb) as [[Hkey' _] Hrows' _ _].
  assert (Hk := Hkey _ _ Hr). assert (Hk' := Hkey' _ _ Hr'). cbn in Hk, Hk'. rewrite Hk in Hk'. injection Hk' as Ed Em.
  destruct (Hrows _ _ Hr) as [Hs _]. rewrite Hout in Hs. destruct Hs as (bl & p & f & Hbl & Hmade & Htext & Hreply).
  assert (Hmade' := Hmade). destruct Hmade' as (Hfb & Hbytes & Hdm & [now Hid] & nonce & Hlen & Henc).
  destruct (Hrows' _ _ Hr') as [Hrec _]. destruct (msg_outgoing r') eqn:Eo.
  { exfalso. destruct Hrec as (? & ? & ? & _ & (_ & _ & _ & [now' Hid'] & _) & _). apply Hne.
    apply (message_id_author _ _ now now'). congruence. }
  destruct Hrec as (Hdm' & g & q & Hg & Hdec & Hgd & Hgm & Hgs & Hgt & Hqt & Hqr).
  assert (Hsender : msg_sender_pubkey r' = public_key_hex a).
  { apply (dm_id_inj b); [rewrite <- Hgs; by eapply decrypted_sender | apply public_key_shape|].
    rewrite <- Hdm', (dm_id_sym (public_key_hex b)), <- Hto, <- Hdm. done. }
  destruct (genuine_frame_made n g a Hn Ha ltac:(congruence) Hg) as (b0 & f0 & peer & dm & mid & t0 & p0 & Hb0 & Hmade0 & Hc).
  destruct (made_frame_ids _ _ _ _ _ _ _ _ Hmade) as (Fd & Fm & Htd & Htm).
  destruct (canonical_frame_inj _ _ Hc) as (Cd & Cm & _ & _ & Ct & _).
  assert (f0 = f) as ->.
  { destruct Hmade0 as (Hfb0 & Hbytes0 & _). apply (Honce b0 bl f0 f); try done; rewrite Hk; unfold msg_key; congruence. }
  rewrite Hto in Henc. assert (Hdecf := encrypted_frame_decrypts nonce a b _ _ _ _ _ Hlen Htd Htm Henc).
  assert (q = p) as -> by (by eapply decrypt_same; [symmetry; exact Hc | |]).
  destruct (encrypted_frame_fields _ _ _ _ _ _ _ _ Henc) as (_ & _ & _ & _ & Ht).
  split_and!; congruence.
Qed.
End net.
