(* ===== verification/DirectMessageProps.v ===== *)
(** * What the service promises about direct messages

    Every call changes the outbox through its four operations only ([moves]): new rows have
    not been attempted, and only a tick of the retries sets attempt times.  So the outbox
    keeps its invariant, what a tick has attempted goes behind everything else, and retries
    are fair ([flush_is_fair]).  What is deleted stays deleted ([deleted_stays_deleted]) and
    clearing a conversation removes it ([clear_removes_all]). *)
From S2P Require Import Prelude RustStr Envelope Replicas AccountSyncItem ChannelSeal Calls DirectMessageStore DirectMessageStoreProps DirectMessage DirectMessageFrameProps ReceiveOffer ReceiveOfferProps Notifications DirectMessageService DirectMessageSend DirectMessageRun DirectMessageNet.

(** Operations that a call may use: [T] are the times it may record, [P] whether it may add
    rows. *)
Definition op_allowed (T : Z -> Prop) (P : Prop) (op : OutboxOp) : Prop :=
  match op with Put r => P /\ ob_last_attempt_at r = None | Touch _ _ t => T t | _ => True end.

Definition outbox_moves (T : Z -> Prop) (P : Prop) (o o' : MemoryDirectMessageOutboxRows) : Prop :=
  exists ops, Forall (op_allowed T P) ops /\ o' = foldl outbox_step o ops.
Definition moves {W} (T : Z -> Prop) (P : Prop) (d d' : DmDevice W) : Prop := outbox_moves T P (outbox (tables d)) (outbox (tables d')).

#[export] Instance outbox_moves_preorder T P : PreOrder (outbox_moves T P).
Proof.
  split; [by exists []|]. intros o o' o'' (ops & Hf & ->) (ops' & Hf' & ->). exists (ops ++ ops')%list.
  split; [by apply Forall_app | by rewrite foldl_app].
Qed.
#[export] Instance moves_preorder {W} T P : PreOrder (@moves W T P).
Proof. split; [intros d; unfold moves; reflexivity | intros d d' d'' H H'; unfold moves in *; etrans; [exact H | exact H']]. Qed.

Lemma outbox_moves_wf T P o o' : outbox_moves T P o o' -> outbox_wf o -> outbox_wf o'.
Proof.
  intros (ops & _ & ->). revert o. induction ops as [|op ops IH]; intros o Hwf; [done|]. cbn. by apply IH, outbox_step_wf.
Qed.

Section calls.
Context `{Crypto} `{!Ecdh} `{HexCrate} `{Blake3Crate} `{Aead} `{JsonArray}.
Context `{Json DirectMessagePayloadV1} `{Json DirectMessageFrameV1} `{Json DirectMessageEncryptedAttachmentV1}.
Context `{Json SignedPart} `{Json SignedReceiveOffer} `{Json SealedReceiveOfferV1} `{Json PrivateReceivePayloadV1}.
Context `{Json GossipHint} `{Json KukuriEnvelope} `{BlobHash}.
Context {W : Type} `{OtherScopes W}.
Context (parse_endpoint : string -> option string) (env : DmEnv) (x : Keys) (T : Z -> Prop) (P : Prop).
#[local] Abbreviation Dev := (DmDevice W).

Lemma moves_same (d d' : Dev) : outbox (tables d') = outbox (tables d) -> moves T P d d'.
Proof. unfold moves. intros ->. reflexivity. Qed.

Lemma moves_op op (d : Dev) f : op_allowed T P op -> (forall o, f o = outbox_step o op) -> moves T P d (with_tables (with_outbox f) d).
Proof. intros Hop Hf. exists [op]. split; [by constructor | apply Hf]. Qed.

Lemma mk_store (f : DmTables -> DmTables) : (forall t, outbox (f t) = outbox t) -> keeps (moves T P) (store (W := W) f).
Proof. intros Hf d. apply moves_same. apply Hf. Qed.
Lemma mk_ask {A} (f : nat -> A) : keeps (moves T P) (ask (W := W) f).
Proof. intros d. by apply moves_same. Qed.
Lemma mk_ask_ok {A} (f : nat -> result string A) : keeps (moves T P) (ask_ok (W := W) f).
Proof. intros d. by apply moves_same. Qed.
Lemma mk_stored {A} (f : DmTables -> A) : keeps (moves T P) (stored (W := W) f).
Proof. apply keeps_get; apply _. Qed.
Lemma mk_outside {A} (m : Prog W A) : keeps (moves T P) (outside m).
Proof. intros d. unfold outside. destruct (m (others d)). by apply moves_same. Qed.
Lemma mk_others {A} (f : W -> result string A) : keeps (moves T P) (fun d : Dev => (f (others d), d)).
Proof. intros d. reflexivity. Qed.
Lemma mk_mutual peer : keeps (moves T P) (is_mutual (W := W) env peer).
Proof. apply mk_ask_ok. Qed.
Lemma mk_blob bytes mime owner : keeps (moves T P) (put_owned_blob (W := W) env bytes mime owner).
Proof. intros d. unfold put_owned_blob. destruct (put_blob env (asked d)); by apply moves_same. Qed.
Lemma mk_notification r : keeps (moves T P) (put_notification_row (W := W) r).
Proof. intros d. unfold put_notification_row. destruct (put_notification_if_absent r (inbox d)). by apply moves_same. Qed.
Lemma mk_publish to address reference offer : keeps (moves T P) (publish_receive_offer (W := W) env to address reference offer).
Proof. intros d. by apply moves_same. Qed.
Lemma mk_remove dm_id message_id : keeps (moves T P) (store (W := W) (with_outbox (fun o => (outbox_remove dm_id message_id o).2))).
Proof. intros d. by apply (moves_op (Remove dm_id message_id)). Qed.
Lemma mk_put r : P -> ob_last_attempt_at r = None -> keeps (moves T P) (store (W := W) (with_outbox (outbox_insert r))).
Proof. intros HP Hr d. by apply (moves_op (Put r)). Qed.
Lemma mk_touch dm_id message_id t : T t -> keeps (moves T P) (store (W := W) (with_outbox (touch_attempt dm_id message_id t))).
Proof. intros Ht d. by apply (moves_op (Touch dm_id message_id t)). Qed.
Lemma mk_put_message r : keeps (moves T P) (store (W := W) (put_message r)).
Proof. apply mk_store. intros t. unfold put_message. by case_match. Qed.
Lemma mk_upsert c : keeps (moves T P) (store (W := W) (upsert_conversation c)).
Proof. by apply mk_store. Qed.
Lemma mk_acked d m t : keeps (moves T P) (store (W := W) (set_acked_at d m t)).
Proof. by apply mk_store. Qed.
Lemma mk_tombstone t : keeps (moves T P) (store (W := W) (put_tombstone t)).
Proof. by apply mk_store. Qed.
Lemma mk_delete d m : keeps (moves T P) (store (W := W) (delete_message_local d m)).
Proof. intros s. exists [Remove d m]. split; [by constructor | done]. Qed.
End calls.

#[local] Hint Resolve mk_ask mk_ask_ok mk_stored mk_outside mk_others mk_mutual mk_blob mk_notification mk_publish mk_remove mk_put
  mk_touch mk_put_message mk_upsert mk_acked mk_tombstone mk_delete : calls.

Section service_calls.
Context `{Crypto} `{!Ecdh} `{HexCrate} `{Blake3Crate} `{Aead} `{JsonArray}.
Context `{Json DirectMessagePayloadV1} `{Json DirectMessageFrameV1} `{Json DirectMessageEncryptedAttachmentV1}.
Context `{Json SignedPart} `{Json SignedReceiveOffer} `{Json SealedReceiveOfferV1} `{Json PrivateReceivePayloadV1}.
Context `{Json GossipHint} `{Json KukuriEnvelope} `{BlobHash}.
Context {W : Type} `{OtherScopes W}.
Context (parse_endpoint : string -> option string).
#[local] Abbreviation Dev := (DmDevice W).
#[local] Abbreviation run_dm_call := (run_dm_call (W := W) parse_endpoint).

Lemma mv_seal env x T P to r : keeps (moves T P) (seal_offer (W := W) env x to r).
Proof. unfold seal_offer. keeps_go. Qed.
#[local] Hint Resolve mv_seal : calls.
Lemma mv_ack env x T P peer ack dest : keeps (moves T P) (publish_account_receive_dm_ack (W := W) env x peer ack dest).
Proof. unfold publish_account_receive_dm_ack. keeps_go. Qed.
#[local] Hint Resolve mv_ack : calls.
Lemma mv_dm_ack env x T P peer ack dest : keeps (moves T P) (publish_direct_message_ack (W := W) env x peer ack dest).
Proof. unfold publish_direct_message_ack. keeps_go. Qed.
#[local] Hint Resolve mv_dm_ack : calls.
Lemma mv_ref env x T P peer sender m r : keeps (moves T P) (materialize_direct_message_blob_ref (W := W) env x peer sender m r).
Proof. unfold materialize_direct_message_blob_ref. keeps_go. Qed.
#[local] Hint Resolve mv_ref : calls.
Lemma mv_take_in env x T P peer d m f p ack dest : keeps (moves T P) (take_in_message (W := W) env x peer d m f p ack dest).
Proof. unfold take_in_message, materialize_direct_message_manifest, put_notification_candidate. keeps_go. Qed.
#[local] Hint Resolve mv_take_in : calls.
Lemma mv_hint env x T P peer dest hint : keeps (moves T P) (handle_direct_message_hint (W := W) env x peer dest hint).
Proof. unfold handle_direct_message_hint, ingest_direct_message_frame. keeps_go. Qed.
#[local] Hint Resolve mv_hint : calls.
Lemma mv_receive env x T P sealed : keeps (moves T P) (ingest_account_receive_offer (W := W) parse_endpoint env x sealed).
Proof.
  unfold ingest_account_receive_offer, ingest_epoch_control_offer, ingest_epoch_control_ack, offer_lapsed. keeps_go.
Qed.
Lemma mv_refresh env x T P peer : keeps (moves T P) (refresh_direct_message_conversation (W := W) env x peer).
Proof. unfold refresh_direct_message_conversation. keeps_go. Qed.
#[local] Hint Resolve mv_refresh : calls.
Lemma mv_manifests env x T P peer m l : keeps (moves T P) (prepare_direct_message_manifests (W := W) env x peer m l).
Proof. unfold prepare_direct_message_manifests, encrypt_blob, put_encrypted. keeps_go. Qed.
#[local] Hint Resolve mv_manifests : calls.
Lemma mv_send env x T P peer txt reply l : P -> keeps (moves T P) (send_direct_message (W := W) env x peer txt reply l).
Proof. intros HP. unfold send_direct_message, send_direct_message_internal. keeps_go. Qed.
Lemma mv_can_send env T P r : keeps (moves T P) (account_dm_outbox_row_can_send (W := W) env r).
Proof. unfold account_dm_outbox_row_can_send. keeps_go. Qed.
#[local] Hint Resolve mv_can_send : calls.
Lemma mv_frame env x T P r dest : keeps (moves T P) (publish_account_receive_dm_frame (W := W) env x r dest).
Proof. unfold publish_account_receive_dm_frame, epoch_control_reference. keeps_go. Qed.
#[local] Hint Resolve mv_frame : calls.
Lemma mv_destination env T P peer ds : keeps (moves T P) (destination_of (W := W) env peer ds).
Proof. unfold destination_of, resolve_account_receive_destination. keeps_go. Qed.
#[local] Hint Resolve mv_destination : calls.
Lemma mv_flush_row env x (T : Z -> Prop) P now r ds : T now -> keeps (moves T P) (flush_row (W := W) env x now r ds).
Proof. intros HT. unfold flush_row. keeps_go. Qed.

Lemma mv_flush_rows env x (T : Z -> Prop) P now rs ds : T now -> keeps (moves T P) (flush_rows (W := W) env x now rs ds).
Proof.
  intros HT. revert ds. induction rs as [|r rs IH]; intros ds; cbn; [keeps_go|].
  apply keeps_seq; [apply _ | by apply mv_flush_row | done].
Qed.

Lemma tombstone_pages_outbox fuel dm_id at_ c t t' : tombstone_pages fuel dm_id at_ c t = Some t' -> outbox t' = outbox t.
Proof.
  revert c t. induction fuel as [|fuel IH]; intros c t; [done|]. cbn [tombstone_pages].
  match goal with |- context [foldl ?f t ?l] => change (foldl f t l) with (buried dm_id at_ l t) end.
  destruct (buried_spec dm_id at_ (page_items (list_messages dm_id c CLEAR_PAGE t)) t) as (_ & _ & Ho & _).
  destruct (page_next _); [|intros [= <-]; done]. intros Ht. apply IH in Ht. congruence.
Qed.

Lemma mv_clear env x T P peer : keeps (moves T P) (clear_direct_message (W := W) env x peer).
Proof.
  unfold clear_direct_message. apply keeps_seq; [apply _ | keeps_go|]. clear peer. intros peer.
  apply keeps_seq; [apply _ | keeps_go|]. intros now d.
  unfold stored, get, lift, store, put, mbind, prog_bind. cbv beta iota.
  destruct (tombstone_pages _ _ _ _ _) as [t|] eqn:E; cbn [ok_of_option snd]; [|reflexivity].
  apply tombstone_pages_outbox in E. exists [Clear (direct_message_id_for_participants (local_pubkey x) peer)].
  split; [by constructor|]. cbn. by rewrite E.
Qed.

Lemma mv_flush env x (T : Z -> Prop) P now : T now -> keeps (moves T P) (flush_due_direct_message_outbox (W := W) env x now).
Proof. intros HT. unfold flush_due_direct_message_outbox. keeps_go. by apply mv_flush_rows. Qed.
Lemma mv_delete env x T P peer m : keeps (moves T P) (delete_direct_message_message (W := W) env x peer m).
Proof. unfold delete_direct_message_message. keeps_go. Qed.
Lemma mv_open env x T P peer : keeps (moves T P) (open_direct_message (W := W) env x peer).
Proof. unfold open_direct_message, ensure_direct_message_conversation_row. keeps_go. Qed.
Lemma mv_queue env T (P : Prop) recipient channel epoch secret e : P -> keeps (moves T P) (queue_epoch_control (W := W) env recipient channel epoch secret e).
Proof. intros HP. unfold queue_epoch_control. keeps_go. Qed.

(** The times a call may record, and whether it may add rows. *)
Definition times_of (c : DmCall) (t : Z) : Prop := match c with CallFlush now => t = now | _ => False end.
Definition adds_rows (c : DmCall) : Prop := match c with CallSend _ _ _ _ | CallQueue _ _ _ _ _ => True | _ => False end.

Lemma run_dm_call_moves env x c d : moves (times_of c) (adds_rows c) d (run_dm_call env x c d).
Proof.
  destruct c; cbn [DirectMessageNet.run_dm_call];
    [by apply mv_send | apply mv_receive | by apply mv_flush | apply mv_delete | apply mv_clear | apply mv_open | by apply mv_queue].
Qed.
End service_calls.

(** ** The two lanes of the outbox *)

(** Nothing enters the retry lane except with the time of an attempt. *)
Lemma moves_attempted T P o o' y : outbox_wf o -> outbox_moves T P o o' -> y ∈ attempted o' -> y ∈ attempted o \/ T y.1.
Proof.
  intros Hwf (ops & Hf & ->). revert o Hwf. induction ops as [|op ops IH]; intros o Hwf Hy; [by left|]. cbn in Hy.
  apply Forall_cons in Hf as [Hop Hf]. destruct (outbox_step_wf o op Hwf) as [Hwf' Hrows].
  destruct (IH Hf _ Hwf' Hy) as [Hin|?]; [|by right]. apply (wf_retry _ (wf_time _ Hwf')) in Hin as (k & r & Hr & Hslot).
  assert (Hold : rows o !! k = Some r -> y ∈ attempted o) by (intros; apply (wf_retry _ (wf_time _ Hwf)); eauto).
  rewrite Hrows in Hr. destruct op as [r'|dm m t|dm m|dm]; cbn in Hr, Hop.
  - apply lookup_insert_Some in Hr as [[_ <-]|[_ Hr]]; [|by left; apply Hold]. unfold retry_slot in Hslot. by rewrite (proj2 Hop) in Hslot.
  - apply lookup_alter_Some in Hr as [(_ & r0 & _ & ->)|[_ Hr]]; [|by left; apply Hold]. right. by injection Hslot as <-.
  - apply lookup_delete_Some in Hr as [_ Hr]. left. by apply Hold.
  - apply map_lookup_filter_Some in Hr as [Hr _]. left. by apply Hold.
Qed.

(** Nothing enters the lane of new rows unless it is added. *)
Lemma moves_never T o o' z : outbox_wf o -> outbox_moves T False o o' -> z ∈ never_attempted o' -> z ∈ never_attempted o.
Proof.
  intros Hwf (ops & Hf & ->). revert o Hwf. induction ops as [|op ops IH]; intros o Hwf Hz; [done|]. cbn in Hz.
  apply Forall_cons in Hf as [Hop Hf]. destruct (outbox_step_wf o op Hwf) as [Hwf' Hrows].
  apply (IH Hf _ Hwf') in Hz. apply (wf_new _ (wf_time _ Hwf')) in Hz as (k & r & Hr & Hslot).
  apply (wf_new _ (wf_time _ Hwf)). exists k, r. split; [|done]. rewrite Hrows in Hr. destruct op as [r'|dm m t|dm m|dm]; cbn in Hr, Hop.
  - by destruct Hop.
  - apply lookup_alter_Some in Hr as [(_ & r0 & _ & ->)|[_ Hr]]; done.
  - by apply lookup_delete_Some in Hr as [_ Hr].
  - by apply map_lookup_filter_Some in Hr as [Hr _].
Qed.

(** What is touched has left its place. *)
Lemma touched_leaves dm m now o :
  outbox_wf o ->
  (forall y, y ∈ attempted (touch_attempt dm m now o) -> (y.2.2.2.1, y.2.2.1) = (dm, m) -> y.1 = now)
  /\ (forall z, z ∈ never_attempted (touch_attempt dm m now o) -> (z.2.2.1, z.2.1) <> (dm, m)).
Proof.
  intros Hwf. destruct (touch_attempt_wf dm m now o Hwf) as [Hwf' Hrows].
  split.
  - intros y (k & r & Hr & Hslot)%(wf_retry _ (wf_time _ Hwf')) Hkey. rewrite Hrows in Hr.
    assert (Hk := wf_keyed _ (wf_time _ Hwf') k r). rewrite Hrows in Hk. specialize (Hk Hr). cbn in Hk.
    unfold retry_slot in Hslot. destruct (ob_last_attempt_at r) as [t|] eqn:Et; [|done]. injection Hslot as <-. cbn in Hkey |- *.
    injection Hkey as Hdm Hm. rewrite Hk in Hr. unfold row_key in Hr. rewrite Hdm, Hm, lookup_alter_eq in Hr.
    destruct (rows o !! (dm, m)); [|done]. injection Hr as <-. by injection Et.
  - intros z (k & r & Hr & Hslot)%(wf_new _ (wf_time _ Hwf')) Hkey. rewrite Hrows in Hr.
    assert (Hk := wf_keyed _ (wf_time _ Hwf') k r). rewrite Hrows in Hk. specialize (Hk Hr). cbn in Hk.
    unfold new_slot in Hslot. destruct (ob_last_attempt_at r) as [t|] eqn:Et; [done|]. injection Hslot as <-. cbn in Hkey.
    injection Hkey as Hdm Hm. rewrite Hk in Hr. unfold row_key in Hr. rewrite Hdm, Hm, lookup_alter_eq in Hr.
    destruct (rows o !! (dm, m)); [|done]. injection Hr as <-. done.
Qed.

Lemma set_iter_first {A} `{RustOrdLaws A} `{Countable A} (X : gset A) (x : A) :
  x ∈ X -> exists y l, set_iter X = y :: l /\ rust_leb y x = true.
Proof.
  intros Hx. pose proof (set_iter_strict X) as Hs. apply elem_of_set_iter in Hx. destruct (set_iter X) as [|y l]; [by apply not_elem_of_nil in Hx|].
  exists y, l. split; [done|]. apply elem_of_cons in Hx as [->|Hx]; [apply rust_leb_refl|].
  apply StronglySorted_inv in Hs as [_ Hall]. rewrite List.Forall_forall in Hall. apply list_elem_of_In in Hx. specialize (Hall x Hx).
  revert Hall. unfold rust_ltb, rust_leb. by destruct (rust_cmp y x).
Qed.

Section fair.
Context `{Crypto} `{!Ecdh} `{HexCrate} `{Blake3Crate} `{Aead} `{JsonArray}.
Context `{Json DirectMessagePayloadV1} `{Json DirectMessageFrameV1} `{Json DirectMessageEncryptedAttachmentV1}.
Context `{Json SignedPart} `{Json SignedReceiveOffer} `{Json SealedReceiveOfferV1} `{Json PrivateReceivePayloadV1}.
Context `{Json GossipHint} `{Json KukuriEnvelope} `{BlobHash}.
Context {W : Type} `{OtherScopes W}.
Context (parse_endpoint : string -> option string).
#[local] Abbreviation Dev := (DmDevice W).
#[local] Abbreviation box d := (outbox (tables d)).
#[local] Abbreviation run_dm_call := (run_dm_call (W := W) parse_endpoint).

(** A tick that runs to its end touches all its rows. *)
Lemma flush_rows_touch env x now rs r : forall ds (d d' : Dev),
  outbox_wf (box d) -> flush_rows env x now rs ds d = (Ok tt, d') -> r ∈ rs ->
  (forall y, y ∈ attempted (box d') -> (y.2.2.2.1, y.2.2.1) = row_key r -> y.1 = now)
  /\ (forall z, z ∈ never_attempted (box d') -> (z.2.2.1, z.2.1) <> row_key r).
Proof.
  induction rs as [|r0 rs IH]; intros ds d d' Hwf Hrun Hin; [by apply not_elem_of_nil in Hin|].
  cbn in Hrun. unfold mbind, prog_bind in Hrun. destruct (flush_row env x now r0 ds d) as [[ds'|e] d1] eqn:E1; [|done].
  pose proof (mv_flush_row env x (fun t => t = now) False now r0 ds eq_refl d) as Hmv. rewrite E1 in Hmv. cbn [snd] in Hmv.
  assert (Hwf1 : outbox_wf (box d1)) by by eapply outbox_moves_wf.
  apply elem_of_cons in Hin as [<-|Hin]; [|by eapply IH]. clear IH.
  unfold flush_row in E1. unfold mbind at 1, prog_bind in E1. set (d0 := with_tables (with_outbox (touch_attempt (ob_dm_id r) (ob_message_id r) now)) d).
  assert (Hrest : moves (fun t => t = now) False d0 d').
  { pose proof (mv_flush_rows env x (fun t => t = now) False now rs ds' eq_refl d1) as Hmv'. rewrite Hrun in Hmv'. cbn [snd] in Hmv'.
    etrans; [|exact Hmv']. apply (f_equal snd) in E1. cbn [snd] in E1. rewrite <- E1. cbn [store put fst snd]. fold d0.
    match goal with |- moves _ _ d0 (?m d0).2 => assert (Hk : keeps (moves (fun t => t = now) False) m) end; [|apply Hk].
    keeps_go; first [apply mv_can_send | apply mv_destination | apply mv_frame]. }
  destruct (touched_leaves (ob_dm_id r) (ob_message_id r) now (box d) Hwf) as [Hy Hz].
  assert (Hwf0 : outbox_wf (box d0)) by by apply (touch_attempt_wf _ _ now).
  split.
  - intros y Hy' Hkey. destruct (moves_attempted _ _ _ _ _ Hwf0 Hrest Hy') as [Hy0|]; [|done]. by apply Hy.
  - intros z Hz'. apply (moves_never _ _ _ _ Hwf0 Hrest) in Hz'. by apply Hz.
Qed.

(** The first of the lane it is in, or the row itself, is attempted by every tick. *)
Lemma flush_progress env x now n (d d' : Dev) k r :
  outbox_wf (box d) -> flush_due_direct_message_outbox env x now d = (Ok n, d') -> rows (box d) !! k = Some r ->
  match ob_last_attempt_at r with
  | Some a => 0 <= now -> a <= i64_saturating_sub now DIRECT_MESSAGE_RETRY_INTERVAL_MS ->
      exists y, y ∈ attempted (box d) /\ rust_leb y (retry_key r a) = true /\ y ∉ attempted (box d')
  | None => exists z, z ∈ never_attempted (box d) /\ rust_leb z (new_key r) = true /\ z ∉ never_attempted (box d')
  end.
Proof.
  intros Hwf Hrun Hr. unfold flush_due_direct_message_outbox, stored, get, lift, mbind, prog_bind in Hrun. cbv beta iota in Hrun.
  unfold due_rows in Hrun. change ((3 <=? 3)%nat && (1 <=? 1)%nat && (0 <? 3 + 1)%nat) with true in Hrun.
  cbn [ensure mbind result_bind mret result_ret] in Hrun.
  match type of Hrun with context [flush_rows env x now ?l _] => set (rs := l) in Hrun end.
  destruct (flush_rows env x now rs ∅ d) as [[[]|] d1] eqn:E; [|done]. injection Hrun as _ <-.
  destruct (ob_last_attempt_at r) as [a|] eqn:Ea.
  - intros Hnow Hdue. assert (Hin : retry_key r a ∈ attempted (box d)).
    { apply (wf_retry _ (wf_time _ Hwf)). exists k, r. unfold retry_slot. by rewrite Ea. }
    destruct (set_iter_first _ _ Hin) as (y & l & Hl & Hy). exists y.
    assert (HyX : y ∈ attempted (box d)) by (apply elem_of_set_iter; rewrite Hl; apply list_elem_of_here). split_and!; [done..|].
    assert (Hya : y.1 <= a).
    { revert Hy. unfold rust_leb, rust_cmp, prod_rust_ord, rust_cmp, Z_rust_ord. cbn. destruct (Z.compare_spec y.1 a); [lia.. | done]. }
    apply (wf_retry _ (wf_time _ Hwf)) in HyX as (k1 & r1 & Hr1 & Hs1). assert (Hk1 := wf_keyed _ (wf_time _ Hwf) _ _ Hr1). cbn in Hk1.
    assert (Hkey : (y.2.2.2.1, y.2.2.1) = row_key r1).
    { unfold retry_slot in Hs1. destruct (ob_last_attempt_at r1); [|done]. by injection Hs1 as <-. }
    intros Hy'. assert (Hrs : r1 ∈ rs).
    { unfold rs. rewrite Hl. apply elem_of_app. right. cbn. rewrite (proj2 (Z.leb_le _ _)) by lia.
      rewrite Hkey, <- Hk1, Hr1. apply list_elem_of_here. }
    destruct (flush_rows_touch env x now rs r1 ∅ d d1 Hwf E Hrs) as [Ht _]. specialize (Ht y Hy' Hkey).
    unfold i64_saturating_sub, sat_i64, DIRECT_MESSAGE_RETRY_INTERVAL_MS, i64_min in Hdue. lia.
  - assert (Hin : new_key r ∈ never_attempted (box d)).
    { apply (wf_new _ (wf_time _ Hwf)). exists k, r. unfold new_slot. by rewrite Ea. }
    destruct (set_iter_first _ _ Hin) as (z & l & Hl & Hz). exists z.
    assert (HzX : z ∈ never_attempted (box d)) by (apply elem_of_set_iter; rewrite Hl; apply list_elem_of_here). split_and!; [done..|].
    apply (wf_new _ (wf_time _ Hwf)) in HzX as (k1 & r1 & Hr1 & Hs1). assert (Hk1 := wf_keyed _ (wf_time _ Hwf) _ _ Hr1). cbn in Hk1.
    assert (Hkey : (z.2.2.1, z.2.1) = row_key r1).
    { unfold new_slot in Hs1. destruct (ob_last_attempt_at r1); [done|]. by injection Hs1 as <-. }
    intros Hz'. assert (Hrs : r1 ∈ rs).
    { unfold rs. rewrite Hl. apply elem_of_app. left. cbn. rewrite Hkey, <- Hk1, Hr1. apply list_elem_of_here. }
    destruct (flush_rows_touch env x now rs r1 ∅ d d1 Hwf E Hrs) as [_ Ht]. by apply (Ht z Hz').
Qed.

(** The states of a run of calls, and the ticks of the retries that ran to their end. *)
Fixpoint states (x : Keys) (steps : list (DmEnv * DmCall)) (d : Dev) : list Dev :=
  d :: match steps with [] => [] | (env, c) :: steps => states x steps (run_dm_call env x c d) end.
Definition ticked (env : DmEnv) (x : Keys) (c : DmCall) (d : Dev) : nat :=
  match c with CallFlush now => if is_ok (flush_due_direct_message_outbox env x now d).1 then 1 else 0 | _ => 0 end.
Fixpoint ticks (x : Keys) (steps : list (DmEnv * DmCall)) (d : Dev) : nat :=
  match steps with [] => 0 | (env, c) :: steps => ticked env x c d + ticks x steps (run_dm_call env x c d) end.

(** The rows before [r] in the lane of rows attempted before, and in the lane of new rows. *)
Definition retried_before (r : DirectMessageOutboxRow) (a : Z) (o : MemoryDirectMessageOutboxRows) : gset RetryKey :=
  filter (fun y => rust_ltb y (retry_key r a) = true) (attempted o).
Definition new_before (r : DirectMessageOutboxRow) (o : MemoryDirectMessageOutboxRows) : gset NewKey :=
  filter (fun z => rust_ltb z (new_key r) = true) (never_attempted o).

(** How many new rows were put before [r] during a run. *)
Fixpoint put_before (x : Keys) (r : DirectMessageOutboxRow) (steps : list (DmEnv * DmCall)) (d : Dev) : nat :=
  match steps with
  | [] => 0
  | (env, c) :: steps =>
      let d' := run_dm_call env x c d in
      size (new_before r (box d') ∖ new_before r (box d)) + put_before x r steps d'
  end.

Lemma leb_ltb {A} `{RustOrdLaws A} (x y : A) : rust_leb x y = true -> x <> y -> rust_ltb x y = true.
Proof.
  unfold rust_leb, rust_ltb. destruct (rust_cmp x y) eqn:E; [|done..]. intros _ Hne. by apply rust_cmp_eq in E.
Qed.

Lemma in_retry_lane o k r a : outbox_wf o -> rows o !! k = Some r -> ob_last_attempt_at r = Some a -> retry_key r a ∈ attempted o.
Proof. intros Hwf Hr Ea. apply (wf_retry _ (wf_time _ Hwf)). exists k, r. unfold retry_slot. by rewrite Ea. Qed.

Lemma in_new_lane o k r : outbox_wf o -> rows o !! k = Some r -> ob_last_attempt_at r = None -> new_key r ∈ never_attempted o.
Proof. intros Hwf Hr Ea. apply (wf_new _ (wf_time _ Hwf)). exists k, r. unfold new_slot. by rewrite Ea. Qed.

Lemma run_dm_call_wf env x c (d : Dev) : outbox_wf (box d) -> outbox_wf (box (run_dm_call env x c d)).
Proof. eapply outbox_moves_wf, run_dm_call_moves. Qed.

Lemma retry_step env x c (d : Dev) k r a :
  outbox_wf (box d) -> rows (box d) !! k = Some r -> rows (box (run_dm_call env x c d)) !! k = Some r -> ob_last_attempt_at r = Some a ->
  (forall now, c = CallFlush now -> 0 <= now /\ a <= i64_saturating_sub now DIRECT_MESSAGE_RETRY_INTERVAL_MS) ->
  (ticked env x c d + size (retried_before r a (box (run_dm_call env x c d))) <= size (retried_before r a (box d)))%nat.
Proof.
  intros Hwf Hr Hr' Ha Hc. pose proof (run_dm_call_moves parse_endpoint env x c d) as Hmv.
  assert (Hsub : retried_before r a (box (run_dm_call env x c d)) ⊆ retried_before r a (box d)).
  { intros y [Hy Hin]%elem_of_filter. apply elem_of_filter. split; [done|].
    destruct (moves_attempted _ _ _ _ _ Hwf Hmv Hin) as [|Ht]; [done|]. exfalso. destruct c; try done. cbn in Ht.
    destruct (Hc now eq_refl) as [Hnow Hdue]. unfold i64_saturating_sub, sat_i64, DIRECT_MESSAGE_RETRY_INTERVAL_MS, i64_min in Hdue.
    revert Hy. unfold rust_ltb, rust_cmp, prod_rust_ord, rust_cmp, Z_rust_ord. cbn. rewrite Ht. destruct (Z.compare_spec now a); [lia.. | done]. }
  assert (Hself := in_retry_lane _ _ _ _ (run_dm_call_wf env x c d Hwf) Hr' Ha).
  destruct c; try (cbn [ticked]; by apply subseteq_size). cbn [ticked].
  destruct (flush_due_direct_message_outbox env x now d) as [[n|e] d'] eqn:E; cbn [is_ok fst]; [|by apply subseteq_size].
  apply subset_size. split; [done|]. intros Hback. pose proof (flush_progress env x now n d d' k r Hwf E Hr) as Hp. rewrite Ha in Hp.
  destruct (Hc now eq_refl) as [Hnow Hdue]. destruct (Hp Hnow Hdue) as (y & Hy & Hle & Hout). cbn in Hself, Hback. rewrite E in Hself, Hback. cbn in Hself, Hback.
  apply Hout. assert (Hy' : y ∈ retried_before r a (box d')); [|by apply elem_of_filter in Hy' as [_ ?]].
  apply Hback, elem_of_filter. split; [|done]. apply leb_ltb; [done|]. by intros ->.
Qed.

Lemma new_step env x c (d : Dev) k r :
  outbox_wf (box d) -> rows (box d) !! k = Some r -> rows (box (run_dm_call env x c d)) !! k = Some r -> ob_last_attempt_at r = None ->
  (ticked env x c d + size (new_before r (box (run_dm_call env x c d)))
   <= size (new_before r (box d)) + size (new_before r (box (run_dm_call env x c d)) ∖ new_before r (box d)))%nat.
Proof.
  intros Hwf Hr Hr' Ha. assert (Hself := in_new_lane _ _ _ (run_dm_call_wf env x c d Hwf) Hr' Ha).
  assert (Hsplit : forall X Y : gset NewKey, size Y = (size (Y ∩ X) + size (Y ∖ X))%nat).
  { intros X Y. rewrite <- size_union by set_solver. f_equal. apply set_eq. intros z. destruct (decide (z ∈ X)); set_solver. }
  rewrite (Hsplit (new_before r (box d)) (new_before r (box (run_dm_call env x c d)))) at 1.
  enough (ticked env x c d + size (new_before r (box (run_dm_call env x c d)) ∩ new_before r (box d)) <= size (new_before r (box d)))%nat by lia.
  destruct c; try (cbn [ticked]; apply subseteq_size; set_solver). cbn [ticked].
  destruct (flush_due_direct_message_outbox env x now d) as [[n|e] d'] eqn:E; cbn [is_ok fst]; [|apply subseteq_size; set_solver].
  apply subset_size. split; [set_solver|]. intros Hback. pose proof (flush_progress env x now n d d' k r Hwf E Hr) as Hp. rewrite Ha in Hp.
  destruct Hp as (z & Hz & Hle & Hout). cbn in Hself, Hback. rewrite E in Hself, Hback. cbn in Hself, Hback.
  apply Hout. assert (Hz' : z ∈ new_before r (box d') ∩ new_before r (box d)); [|by apply elem_of_intersection in Hz' as [[_ ?]%elem_of_filter _]].
  apply Hback, elem_of_filter. split; [|done]. apply leb_ltb; [done|]. by intros ->.
Qed.

(** C15: retries are fair.  While a row that was attempted at [a] stays and is not attempted
    again, at most as many ticks run to their end, after it has become due, as there were
    rows before it in the lane of rows attempted before, however many new messages there
    are.  While a new row waits, at most as many ticks run to their end as there were new
    rows before it and new rows that were put before it meanwhile, which takes an earlier
    time of creation or an equal one and a smaller id: rows that fail cannot block it. *)
Theorem flush_is_fair x steps (d : Dev) k r :
  outbox_wf (box d) -> (forall d', d' ∈ states x steps d -> rows (box d') !! k = Some r) ->
  match ob_last_attempt_at r with
  | Some a =>
      (forall env now, (env, CallFlush now) ∈ steps -> 0 <= now /\ a <= i64_saturating_sub now DIRECT_MESSAGE_RETRY_INTERVAL_MS) ->
      (ticks x steps d <= size (retried_before r a (box d)))%nat
  | None => (ticks x steps d <= size (new_before r (box d)) + put_before x r steps d)%nat
  end.
Proof.
  revert d. induction steps as [|[env c] steps IH]; intros d Hwf Hstay; [destruct (ob_last_attempt_at r); cbn; lia|].
  assert (Hr := Hstay d (list_elem_of_here _ _)).
  specialize (IH (run_dm_call env x c d) (run_dm_call_wf env x c d Hwf) ltac:(intros d' Hd'; apply Hstay; by apply list_elem_of_further)).
  assert (Hr' : rows (box (run_dm_call env x c d)) !! k = Some r).
  { apply Hstay, list_elem_of_further. destruct steps as [|[? ?] ?]; cbn; apply list_elem_of_here. }
  destruct (ob_last_attempt_at r) as [a|] eqn:Ea; cbn [ticks put_before].
  - intros Hdue. pose proof (retry_step env x c d k r a Hwf Hr Hr' Ea ltac:(intros now ->; eapply Hdue, list_elem_of_here)) as Hstep.
    specialize (IH ltac:(intros env' now' Hin; eapply Hdue, list_elem_of_further; exact Hin)). lia.
  - pose proof (new_step env x c d k r Hwf Hr Hr' Ea) as Hstep. cbv zeta. lia.
Qed.
End fair.

(** ** Clearing a conversation *)
Section clear.
Context `{Crypto} `{HexCrate} `{Blake3Crate}.
Context {W : Type}.
#[local] Abbreviation Dev := (DmDevice W).

(** C30: clearing a conversation succeeds for every peer key and removes all of it: its
    messages, its row and its part of the outbox, and nothing of any other conversation;
    every message it held gets a tombstone, however many pages they fill, so that none of
    them can be received again. *)
Theorem clear_removes_all env x peer key (d : Dev) :
  messages_keyed (tables d) -> outbox_wf (outbox (tables d)) -> normalize_author_pubkey peer = Ok key ->
  let dm_id := direct_message_id_for_participants (public_key_hex x) key in
  exists d', clear_direct_message (W := W) env x peer d = (Ok tt, d')
    /\ messages (tables d') = filter (fun p => p.1.1 <> dm_id) (messages (tables d))
    /\ conversations (tables d') = delete dm_id (conversations (tables d))
    /\ rows (outbox (tables d')) = filter (fun p => p.1.1 <> dm_id) (rows (outbox (tables d)))
    /\ forall k, is_Some (tombstones (tables d') !! k)
         <-> is_Some (tombstones (tables d) !! k) \/ (k.1 = dm_id /\ is_Some (messages (tables d) !! k)).
Proof.
  intros Hk Hwf Hpeer dm_id. destruct (clear_tables dm_id (now_ms env (asked d)) (tables d) Hk) as (t' & Ht' & _ & Em & Ec & Eo & Et).
  unfold clear_direct_message, ask, stored, get, lift, store, put, mbind, prog_bind. rewrite Hpeer. cbv beta iota.
  change (direct_message_id_for_participants (local_pubkey x) key) with dm_id. cbn [counted tables]. rewrite Ht'. cbn [ok_of_option].
  eexists. split; [reflexivity|]. cbn [with_tables tables]. split_and!; [exact Em | exact Ec | | exact Et].
  rewrite Eo. by apply clear_dm_wf.
Qed.
End clear.

(** ** Deleting a message *)
Section deleted.
Context `{CL : CryptoLaws} {E : Ecdh} {EL : EcdhLaws} `{HL : HexCrateLaws} {KL : KeyTextLaws} {PKL : PubkeyLaws}.
Context `{B : Blake3Crate} {BI : Blake3Injective} `{AL : AeadLaws} `{JL : JsonArrayLaws}.
Context `{PL : JsonLaws DirectMessagePayloadV1} `{FL : JsonLaws DirectMessageFrameV1} `{Json DirectMessageEncryptedAttachmentV1}.
Context `{Json SignedPart} `{Json SignedReceiveOffer} `{Json SealedReceiveOfferV1} `{Json PrivateReceivePayloadV1}.
Context `{Json GossipHint} `{Json KukuriEnvelope} `{BlobHash}.
Context {W : Type} `{OtherScopes W} `{EqDecision Keys}.
Context (parse_endpoint : string -> option string).
Context (honest : Keys -> Prop).
#[local] Abbreviation Net := (Keys -> DmDevice W).
#[local] Abbreviation run_dm_call := (run_dm_call (W := W) parse_endpoint).

Inductive net_step : Net -> Net -> Prop :=
| step_call n x env c : honest x -> unforged honest n x env c -> net_step n (upd n x (run_dm_call env x c (n x))).

Lemma net_steps_run init n n' :
  net_run parse_endpoint honest init n -> rtc net_step n n' -> net_run parse_endpoint honest init n'.
Proof. intros Hrun Hsteps. induction Hsteps as [|n n1 n2 [n0 x env c Hx Hu] _ IH]; [done|]. apply IH. by constructor. Qed.

(** C11: what was deleted stays deleted: a message that an account has deleted, by itself or
    with its conversation, is in no later state of any run of the network among its
    messages, however often its frame is delivered again. *)
Theorem deleted_stays_deleted init n n' x k :
  net_run parse_endpoint honest init n -> rtc net_step n n' -> honest x ->
  is_Some (tombstones (tables (n x)) !! k) ->
  is_Some (tombstones (tables (n' x)) !! k) /\ messages (tables (n' x)) !! k = None.
Proof.
  intros Hrun Hsteps Hx Hk.
  assert (Ht : is_Some (tombstones (tables (n' x)) !! k)).
  { induction Hsteps as [|n n1 n2 [n0 y env c Hy Hu] _ IH]; [done|]. apply IH; [by constructor|].
    unfold upd. case_decide as Hxy; [subst y|done].
    pose proof (run_dm_call_evolves parse_endpoint honest n0 x env c (net_run_ok _ _ _ _ Hrun) Hy Hu) as He.
    by apply (de_tombs _ _ _ _ _ _ He). }
  split; [done|]. apply (to_dead (tables (n' x))); [|done]. eapply dk_tables, (net_run_ok parse_endpoint honest init); [|exact Hx].
  by eapply net_steps_run.
Qed.
End deleted.
