(* ===== verification/DirectMessageDemo.v ===== *)
(** * Concrete accounts for the theorems on direct messages

    Instances of the library interfaces that satisfy their laws, a network of three accounts,
    and the theorems applied to it: Alice sends Bob a message, Bob receives it and
    acknowledges it, deletes it, and is offered it again. *)
From S2P Require Import Prelude RustStr Envelope Replicas ReplicasProps AccountSyncItem AccountSyncDemo ChannelSeal Calls DirectMessageStore DirectMessageStoreProps DirectMessage DirectMessageFrameProps ReceiveOffer ReceiveOfferProps Notifications DirectMessageService DirectMessageSend DirectMessageRun DirectMessageNet DirectMessageProps.

(** ** Libraries *)
Inductive Person := Alice | Bob | Carol.
#[local] Instance Person_eq_dec : EqDecision Person.
Proof. solve_decision. Defined.

Definition key_bytes (p : Person) : string :=
  repeat_char (match p with Alice => "a" | Bob => "b" | Carol => "c" end)%char 32.
(** The first 32 bytes of a text, filled up. *)
Fixpoint first_bytes (n : nat) (s : string) : string :=
  match n with
  | O => EmptyString
  | S n => match s with String a s => String a (first_bytes n s) | EmptyString => String "0" (first_bytes n EmptyString) end
  end.
Lemma first_bytes_length n s : String.length (first_bytes n s) = n.
Proof. revert s. induction n as [|n IH]; intros [|a s]; cbn; by rewrite ?IH. Qed.

#[local] Instance person_crypto : Crypto := {|
  Keys := Person; Digest := string; Signature := string; XOnlyPublicKey := string;
  public_key_hex k := Replicas.hex_encode (key_bytes k);
  sign_schnorr k d := Replicas.hex_encode (key_bytes k ++s first_bytes 32 d);
  sha256_digest s := s; Envelope.hex_encode d := d;
  signature_from_str s := Some s;
  public_key_from_str s := if (String.length s =? 64)%nat && str_all is_ascii_hexdigit s then Some s else None;
  schnorr_verify s d p := match hex_decode p with Some b => bool_decide (s = Replicas.hex_encode (b ++s first_bytes 32 d)) | None => false end;
  canonical_json p t k ts c := p ++s k ++s c
|}.
#[local] Instance person_crypto_laws : CryptoLaws.
Proof.
  constructor. intros k d. exists (sign_schnorr k d), (public_key_hex k). split; [done|]. split; [by destruct k|].
  cbn [schnorr_verify public_key_hex person_crypto]. rewrite hex_decode_encode. by apply bool_decide_true.
Qed.
#[local] Instance person_pubkeys : PubkeyLaws.
Proof.
  constructor. intros s p Hs. cbn in Hs. destruct (_ && _) eqn:E; [|done]. apply andb_prop in E as [Hl Ha]. split; [by apply Nat.eqb_eq | done].
Qed.
#[local] Instance person_key_texts : KeyTextLaws.
Proof.
  constructor; [intros k; exists (key_bytes k) | intros k d; exists (key_bytes k ++s first_bytes 32 d)]; (split; [|done]).
  - by destruct k.
  - rewrite str_app_length, first_bytes_length. by destruct k.
Qed.

#[local] Instance person_ecdh : Ecdh := {|
  SecretKey := unit; secret_key _ := tt; odd_parity _ := false; negate k := k; ecdh _ _ := "shared";
  hkdf_expand salt ikm info := Some (repeat_char "k" 32)
|}.
#[local] Instance person_ecdh_laws : EcdhLaws.
Proof. by constructor. Qed.
(** A short hash for the conversation of Alice and Bob. *)
Definition short_hash (s : string) : string :=
  if decide (s = participants_text (Replicas.hex_encode (key_bytes Alice)) (Replicas.hex_encode (key_bytes Bob))) then "h" else String "x" s.
#[local] Instance person_blake3 : Blake3Crate := {| blake3_hash := short_hash; blake3_keyed k s := k ++s s |}.
#[local] Instance person_blake3_inj : Blake3Injective.
Proof. constructor. intros s t He. cbn in He. unfold short_hash in He. repeat case_decide; congruence. Qed.
#[local] Instance person_cipher : Aead := demo_aead (fun _ => true).
#[local] Instance person_cipher_laws : AeadLaws := demo_aead_laws (fun _ => true).
#[local] Instance person_blobs : BlobHash := {| blob_hash s := repeat_char "f" 64 |}.

Definition atom_text (a : JsonAtom) : string := match a with JNum n => String "n" (num n) | JStr s => String "s" s end.
#[local] Instance person_arrays : JsonArray := {| json_array l := joined_fields (map atom_text l) |}.
#[local] Instance person_array_laws : JsonArrayLaws.
Proof.
  constructor. intros l l' He. cbn [json_array person_arrays] in He. apply (f_equal (read_fields EmptyString)) in He. rewrite !read_joined in He.
  revert l' He. induction l as [|a l IH]; intros [|a' l'] He; try done. cbn in He. injection He as Ha He.
  f_equal; [|by apply IH]. destruct a as [n|s], a' as [n'|s']; cbn in Ha; try done; injection Ha as Ha.
  - apply (f_equal of_num) in Ha. rewrite !of_num_num in Ha. congruence.
  - congruence.
Qed.

(** ** JSON *)
Definition ref_fields (r : DirectMessageEncryptedBlobRefV1) : list string :=
  [ref_blob_id r; ref_hash r; ref_mime r; num (ref_bytes r); ref_nonce_hex r].
Definition parse_ref (l : list string) : option DirectMessageEncryptedBlobRefV1 :=
  match l with
  | [i; h; m; b; n] => b ← of_num b; Some {| ref_blob_id := i; ref_hash := h; ref_mime := m; ref_bytes := b; ref_nonce_hex := n |}
  | _ => None
  end.
Lemma parse_ref_fields r : parse_ref (ref_fields r) = Some r.
Proof. destruct r. cbn. by rewrite of_num_num. Qed.

Definition manifest_fields (m : DirectMessageAttachmentManifestV1) : list string :=
  [attachment_id m; match attachment_kind m with Image => "i" | Video => "v" end; joined_fields (ref_fields (original m));
   opt ((fun p => joined_fields (ref_fields p)) <$> poster m)].
Definition parse_manifest (l : list string) : option DirectMessageAttachmentManifestV1 :=
  match l with
  | [i; String k _; o; p] =>
      o ← parse_ref (read_fields EmptyString o);
      let kind := if decide (k = "i"%char) then Image else Video in
      match of_opt p with
      | Some p => p ← parse_ref (read_fields EmptyString p);
                  Some {| attachment_id := i; attachment_kind := kind; original := o; poster := Some p |}
      | None => Some {| attachment_id := i; attachment_kind := kind; original := o; poster := None |}
      end
  | _ => None
  end.
Lemma parse_manifest_fields m : parse_manifest (manifest_fields m) = Some m.
Proof.
  destruct m as [i [] o [p|]]; cbn -[ref_fields parse_ref joined_fields read_fields of_opt opt];
    rewrite of_opt_opt, read_joined, parse_ref_fields; cbn -[ref_fields parse_ref joined_fields read_fields];
    by rewrite ?read_joined, ?parse_ref_fields.
Qed.

#[local] Instance person_payload_json : Json DirectMessagePayloadV1 :=
  record_json (fun p => [opt (text p); opt (reply_to p); opt ((fun m => joined_fields (manifest_fields m)) <$> attachment_manifest p)])
    (fun l => match l with
              | [t; r; m] =>
                  match of_opt m with
                  | Some m => m ← parse_manifest (read_fields EmptyString m);
                              Some {| text := of_opt t; reply_to := of_opt r; attachment_manifest := Some m |}
                  | None => Some {| text := of_opt t; reply_to := of_opt r; attachment_manifest := None |}
                  end
              | _ => None
              end).
#[local] Instance person_payload_laws : JsonLaws DirectMessagePayloadV1.
Proof.
  apply record_json_laws. intros [t r m]. cbn -[manifest_fields parse_manifest joined_fields read_fields of_opt opt]. rewrite !of_opt_opt.
  destruct m as [m|]; cbn -[manifest_fields parse_manifest joined_fields read_fields]; [|done]. by rewrite read_joined, parse_manifest_fields.
Qed.

#[local] Instance person_frame_json : Json DirectMessageFrameV1 :=
  record_json (fun f => [fr_dm_id f; fr_message_id f; fr_sender f; fr_recipient f; num (fr_created_at f); fr_nonce_hex f; fr_ciphertext_hex f; fr_signature f])
    (fun l => match l with
              | [d; m; s; r; t; n; c; g] =>
                  t ← of_num t;
                  Some {| fr_dm_id := d; fr_message_id := m; fr_sender := s; fr_recipient := r; fr_created_at := t; fr_nonce_hex := n;
                          fr_ciphertext_hex := c; fr_signature := g |}
              | _ => None
              end).
#[local] Instance person_frame_laws : JsonLaws DirectMessageFrameV1.
Proof. apply record_json_laws. intros []. cbn. by rewrite of_num_num. Qed.

#[local] Instance person_attachment_json : Json DirectMessageEncryptedAttachmentV1 :=
  record_json (fun a => [att_blob_id a; att_nonce_hex a; att_ciphertext_hex a])
    (fun l => match l with [b; n; c] => Some {| att_blob_id := b; att_nonce_hex := n; att_ciphertext_hex := c |} | _ => None end).

Definition scope_fields (s : ReceiveOfferScopeV1) : string * string * string * string * string :=
  match s with
  | PublicSource => ("p", "", "", "", "") | ScopeDirectMessage => ("d", "", "", "", "")
  | DirectMessageFrame d m h => ("f", d, m, h, "") | DirectMessageAck d m t g => ("a", d, m, num t, g)
  | PrivateSource e => ("s", e, "", "", "") | EpochControl e => ("e", e, "", "", "")
  end.
Definition parse_scope (tag a b c d : string) : option ReceiveOfferScopeV1 :=
  match tag with
  | String "p" _ => Some PublicSource | String "d" _ => Some ScopeDirectMessage | String "f" _ => Some (DirectMessageFrame a b c)
  | String "a" _ => t ← of_num c; Some (DirectMessageAck a b t d)
  | String "s" _ => Some (PrivateSource a) | String "e" _ => Some (EpochControl a) | _ => None
  end.
Definition reference_fields (r : ReceiveOfferReferenceV1) : list string :=
  let '(tag, a, b, c, d) := scope_fields (offer_scope r) in
  [provider_endpoint_id r; payload_hash r; num (payload_bytes r); tag; a; b; c; d].
Definition parse_reference (p h n tag a b c d : string) : option ReceiveOfferReferenceV1 :=
  n ← of_num n; s ← parse_scope tag a b c d;
  Some {| provider_endpoint_id := p; payload_hash := h; payload_bytes := n; offer_scope := s |}.

#[local] Instance person_part_json : Json SignedPart :=
  record_json (fun s => let '(domain, v, sender, recipient, r, i, e) := s in
                        (domain :: num v :: sender :: recipient :: num i :: num e :: reference_fields r))
    (fun l => None).
#[local] Instance person_offer_json : Json SignedReceiveOffer :=
  record_json (fun s => (num (so_version s) :: so_sender s :: so_recipient s :: num (so_issued_at_ms s) :: num (so_expires_at_ms s)
                         :: so_signature s :: reference_fields (so_reference s)))
    (fun l => match l with
              | [v; s; r; i; e; g; p; h; n; tag; a; b; c; d] =>
                  v ← of_num v; i ← of_num i; e ← of_num e; ref ← parse_reference p h n tag a b c d;
                  Some {| so_version := v; so_sender := s; so_recipient := r; so_reference := ref; so_issued_at_ms := i;
                          so_expires_at_ms := e; so_signature := g |}
              | _ => None
              end).
#[local] Instance person_offer_laws : JsonLaws SignedReceiveOffer.
Proof.
  apply record_json_laws. intros [v s r [p h n sc] i e g]. unfold reference_fields, parse_reference.
  destruct sc; cbn; rewrite !of_num_num; cbn; rewrite ?of_num_num; cbn; rewrite ?of_num_num; cbn; by rewrite ?of_num_num.
Qed.
#[local] Instance person_sealed_json : Json SealedReceiveOfferV1 :=
  record_json (fun s => [num (sealed_version s); ephemeral_pubkey s; sealed_nonce_hex s; sealed_ciphertext_hex s])
    (fun l => match l with
              | [v; e; n; c] => v ← of_num v; Some {| sealed_version := v; ephemeral_pubkey := e; sealed_nonce_hex := n; sealed_ciphertext_hex := c |}
              | _ => None
              end).
#[local] Instance person_sealed_laws : JsonLaws SealedReceiveOfferV1.
Proof. apply record_json_laws. intros []. cbn. by rewrite of_num_num. Qed.
#[local] Instance person_private_json : Json PrivateReceivePayloadV1 :=
  record_json (fun p => [num (pp_version p); pp_epoch_key_id p; pp_nonce_hex p; pp_ciphertext_hex p]) (fun l => None).
#[local] Instance person_hint_json : Json GossipHint := record_json (fun h => []) (fun l => None).
#[local] Instance person_envelope_json : Json KukuriEnvelope := record_json (fun e => [env_id e; content e]) (fun l => None).

(** The other parts of the service take nothing. *)
#[local] Instance no_scopes : OtherScopes unit := {|
  ingest_public_notification_offer _ := mret false; ingest_private_notification_offer _ _ := mret false;
  epoch_control_known _ _ := Ok false; epoch_control_record _ _ _ := lift (Err "none"); epoch_control_recipient_qualified _ _ _ := Ok false
|}.

(** ** A conversation *)
Definition key_of (p : Person) : string := Replicas.hex_encode (key_bytes p).

(** The network answers every question; [blob] is what it serves. *)
Definition answers (start : Z) (blob : option string) : DmEnv := {|
  now_ms n := start + Z.of_nat n; drawn_nonce _ := repeat_char "n" 24; drawn_keys _ := Carol; relationship _ _ := Ok true;
  fetch_blob _ _ := Ok blob; fetch_local_blob _ _ := Ok None; fetch_offer_payload _ := Err "no payload"; put_blob _ := Ok tt;
  offer_permit _ := true; receive_destination _ _ := Ok (Some "address"); local_endpoint _ := Ok (repeat_char "e" 64);
  publish_offer _ := Ok tt; invalidate_destination _ := Ok tt; verify_provider _ := Ok tt; learn_peer _ := Ok tt
|}.

#[local] Abbreviation call env x c d := (run_dm_call Some env x c d).
Definition step (net : Keys -> DmDevice unit) (x : Keys) (env : DmEnv) (c : DmCall) : Keys -> DmDevice unit := upd net x (call env x c (net x)).

Definition net0 : Keys -> DmDevice unit := fun _ => fresh_device tt.
Definition say_hello : DmCall := CallSend (key_of Bob) (Some "hello") None [].
Definition net1 : Keys -> DmDevice unit := step net0 Alice (answers 1000 None) say_hello.
Definition net2 : Keys -> DmDevice unit := step net1 Alice (answers 2000 None) (CallFlush 5000).

Definition no_blob : PlacedBlob := {| blob_bytes := EmptyString; blob_mime := EmptyString; blob_owner := EmptyString |}.
Definition no_sealed : SealedReceiveOfferV1 :=
  {| sealed_version := 0; ephemeral_pubkey := EmptyString; sealed_nonce_hex := EmptyString; sealed_ciphertext_hex := EmptyString |}.
Definition frame_blob : PlacedBlob := default no_blob (head (placed (net1 Alice))).
Definition offered (n : Keys -> DmDevice unit) (p : Keys) : SealedReceiveOfferV1 := default no_sealed (pub_offer <$> head (published (n p))).
Definition the_frame : DirectMessageFrameV1 :=
  default {| fr_dm_id := EmptyString; fr_message_id := EmptyString; fr_sender := EmptyString; fr_recipient := EmptyString; fr_created_at := 0;
             fr_nonce_hex := EmptyString; fr_ciphertext_hex := EmptyString; fr_signature := EmptyString |} (from_json (blob_bytes frame_blob)).

Definition take_offer : DmCall := CallReceive (offered net2 Alice).
Definition serve_frame (start : Z) : DmEnv := answers start (Some (blob_bytes frame_blob)).
Definition net3 : Keys -> DmDevice unit := step net2 Bob (serve_frame 6000) take_offer.
Definition take_ack : DmCall := CallReceive (offered net3 Bob).
Definition net4 : Keys -> DmDevice unit := step net3 Alice (answers 7000 None) take_ack.

Definition hello_dm : string := direct_message_id_for_participants (key_of Alice) (key_of Bob).
Definition hello_id : string := message_id_at Alice 1001.
Definition hello_row (acked : option Z) : DirectMessageMessageRow :=
  {| msg_dm_id := hello_dm; msg_message_id := hello_id; msg_sender_pubkey := key_of Alice; msg_recipient_pubkey := key_of Bob;
     msg_created_at := 1002; msg_text := Some "hello"; msg_reply_to_message_id := None; msg_attachment_manifest := None;
     msg_outgoing := true; msg_acked_at := acked |}.

(** Bob deletes the message and is offered it again. *)
Definition net5 : Keys -> DmDevice unit := step net3 Bob (answers 8000 None) (CallDelete (key_of Alice) hello_id).
Definition net6 : Keys -> DmDevice unit := step net5 Bob (serve_frame 9000) take_offer.

#[local] Abbreviation run := (net_run Some (fun _ => True) (fun _ => tt)).
#[local] Abbreviation trusted := (unforged (W := unit) (fun _ => True)).

(** A call that is shown no frame and no offer. *)
Lemma quiet_call n x start c : (forall sealed, c <> CallReceive sealed) -> trusted n x (answers start None) c.
Proof.
  intros Hc. split; [intros; apply repeat_char_length | by intros k h bytes f [= ] | intros sealed Hs; by apply Hc in Hs].
Qed.

Definition no_offer : SignedReceiveOffer :=
  {| so_version := 0; so_sender := EmptyString; so_recipient := EmptyString;
     so_reference := {| provider_endpoint_id := EmptyString; payload_hash := EmptyString; payload_bytes := 0; offer_scope := PublicSource |};
     so_issued_at_ms := 0; so_expires_at_ms := 0; so_signature := EmptyString |}.
Definition opened (s : SealedReceiveOfferV1) (x : Person) (now : Z) : SignedReceiveOffer :=
  match sealed_open s x now with Ok v => v | Err _ => no_offer end.

Lemma blob_is_frame f : from_json (blob_bytes frame_blob) = Some f -> f = the_frame.
Proof. unfold the_frame. intros ->. reflexivity. Qed.
Lemma frame_blob_facts :
  fr_sender the_frame = public_key_hex Alice /\ is_frame_blob frame_blob /\ blob_bytes frame_blob = to_json the_frame.
Proof. split_and!; [by_vm | split; by_vm | by_vm]. Qed.
Lemma public_key_hex_inj (a b : Keys) : public_key_hex a = public_key_hex b -> a = b.
Proof. destruct a, b; vm_compute; done. Qed.

(** What the two offers open as. *)
Definition frame_offer : SignedReceiveOffer := opened (offered net2 Alice) Bob 6000.
Definition ack_offer : SignedReceiveOffer := opened (offered net3 Bob) Alice 7000.
Lemma frame_offer_opens : sealed_open (offered net2 Alice) Bob 6000 = Ok frame_offer.
Proof. by_vm. Qed.
Lemma ack_offer_opens : sealed_open (offered net3 Bob) Alice 7000 = Ok ack_offer.
Proof. by_vm. Qed.
Lemma frame_offer_scope : match offer_scope (so_reference frame_offer) with DirectMessageAck _ _ _ _ => False | _ => True end.
Proof. by vm_compute. Qed.
Lemma ack_offer_sender : so_sender ack_offer = public_key_hex Bob.
Proof. by_vm. Qed.
Definition published_ack : PublishedOffer :=
  default {| pub_to := EmptyString; pub_address := EmptyString; pub_reference := so_reference no_offer; pub_offer := no_sealed |}
    (head (published (net3 Bob))).
Lemma ack_offer_published :
  published (net3 Bob) = [published_ack] /\ pub_to published_ack = so_recipient ack_offer
  /\ offer_scope (pub_reference published_ack) = offer_scope (so_reference ack_offer).
Proof. split_and!; by_vm. Qed.

Lemma served_inj (s t : string) : Ok (E := string) (Some s) = Ok (Some t) -> s = t.
Proof. congruence. Qed.
Lemma receive_inj s t : CallReceive s = CallReceive t -> s = t.
Proof. congruence. Qed.

(** Bob takes the offer of the frame that Alice placed. *)
Lemma receive_call n start : placed (n Alice) = [frame_blob] -> trusted n Bob (serve_frame start) take_offer.
Proof.
  intros Hn. split; [intros; apply repeat_char_length | |].
  - intros k h bytes f Hb Hf _ a _ Ha. apply (served_inj (blob_bytes frame_blob) bytes) in Hb as <-. apply blob_is_frame in Hf as ->. exists frame_blob, the_frame.
    destruct frame_blob_facts as (Hs & Hfb & Hbytes). rewrite Hs in Ha. apply public_key_hex_inj in Ha as <-.
    rewrite Hn. split_and!; [apply list_elem_of_here | exact Hfb | exact Hbytes | reflexivity].
  - intros sealed Hc ack [(now & v & d & m & t & s & Hv & Hs & _)|(k & bytes & t & Hb & _)]; [|discriminate Hb].
    exfalso. apply (receive_inj (offered net2 Alice) sealed) in Hc as <-.
    rewrite (opened_once _ _ _ _ _ _ Hv frame_offer_opens) in Hs. pose proof frame_offer_scope as Hno. rewrite Hs in Hno. exact Hno.
Qed.

(** Alice takes the offer of the acknowledgement that Bob published. *)
Lemma acknowledge_call : trusted net3 Alice (answers 7000 None) take_ack.
Proof.
  split; [intros; apply repeat_char_length | by intros k h bytes f [= ] |].
  intros sealed Hc ack [(now & v & d & m & t & s & Hv & Hs & Hack)|(k & bytes & t & Hb & _)] _ a _ Ha; [|discriminate Hb].
  apply (receive_inj (offered net3 Bob) sealed) in Hc as <-.
  rewrite (opened_once _ _ _ _ _ _ Hv ack_offer_opens) in *. rewrite Hack in *. cbn [offer_ack ack_sender ack_recipient ack_dm_id ack_message_id acked_at] in *.
  rewrite ack_offer_sender in Ha. apply public_key_hex_inj in Ha as <-.
  destruct ack_offer_published as (Hp & Hto & Hsc). exists published_ack, s.
  split_and!; [rewrite Hp; apply list_elem_of_here | exact Hto | rewrite Hsc; exact Hs].
Qed.

Lemma placed_by_alice : placed (net2 Alice) = [frame_blob] /\ placed (net4 Alice) = [frame_blob] /\ placed (net5 Alice) = [frame_blob].
Proof. split_and!; by_vm. Qed.

#[local] Abbreviation next n x env c H := (net_call Some (fun _ => True) (fun _ => tt) n x env c H I).
Lemma run_to_net3 : run net3.
Proof.
  refine (next net2 Bob (serve_frame 6000) take_offer _ _); [|apply receive_call, placed_by_alice].
  refine (next net1 Alice (answers 2000 None) (CallFlush 5000) _ _); [|by apply quiet_call].
  refine (next net0 Alice (answers 1000 None) say_hello _ _); [constructor | by apply quiet_call].
Qed.
Lemma run_to_net4 : run net4.
Proof. exact (next net3 Alice (answers 7000 None) take_ack run_to_net3 acknowledge_call). Qed.
Lemma run_to_net5 : run net5.
Proof. refine (next net3 Bob (answers 8000 None) (CallDelete (key_of Alice) hello_id) run_to_net3 _). by apply quiet_call. Qed.

Lemma delivered_means_received_witness :
  is_Some (tombstones (tables (net4 Bob)) !! (hello_dm, hello_id))
  \/ exists r', messages (tables (net4 Bob)) !! (hello_dm, hello_id) = Some r' /\ msg_sender_pubkey r' = key_of Alice
     /\ msg_text r' = Some "hello" /\ msg_reply_to_message_id r' = None /\ msg_created_at r' = 1002.
Proof.
  apply (delivered_means_received Some (fun _ => True) (fun _ => tt) net4 Alice Bob (hello_dm, hello_id) (hello_row (Some 6011)) 6011);
    [apply run_to_net4 | exact I | exact I | by vm_compute | by_vm | reflexivity | reflexivity | reflexivity |].
  intros b b' f f' Hb Hb' _ _ Hf Hf' _ _. rewrite (proj1 (proj2 placed_by_alice)) in Hb, Hb'. apply list_elem_of_singleton in Hb as ->, Hb' as ->. rewrite Hf in Hf'.
  apply (f_equal (from_json (T := DirectMessageFrameV1))) in Hf'. rewrite !from_to_json in Hf'. by injection Hf'.
Defined.

Lemma deleted_stays_deleted_witness :
  is_Some (tombstones (tables (net6 Bob)) !! (hello_dm, hello_id)) /\ messages (tables (net6 Bob)) !! (hello_dm, hello_id) = None.
Proof.
  apply (deleted_stays_deleted Some (fun _ => True) (fun _ => tt) net5 net6 Bob (hello_dm, hello_id));
    [apply run_to_net5 | | exact I | apply (bool_decide_unpack _); vm_compute; exact I].
  eapply rtc_l; [|apply rtc_refl]. refine (step_call Some (fun _ => True) net5 Bob (serve_frame 9000) take_offer I _).
  apply receive_call, placed_by_alice.
Defined.

(** ** Frames and offers *)
Definition hello : DirectMessagePayloadV1 := {| text := Some "hello"; reply_to := None; attachment_manifest := None |}.

Lemma frame_roundtrip_witness :
  decrypt_direct_message_frame Bob the_frame = Ok hello /\ open_sent_direct_message_frame Alice the_frame = Ok hello
  /\ (forall c, public_key_hex c <> public_key_hex Bob -> is_ok (decrypt_direct_message_frame c the_frame) = false)
  /\ (forall c, public_key_hex c <> public_key_hex Alice -> is_ok (open_sent_direct_message_frame c the_frame) = false).
Proof. apply (frame_roundtrip (repeat_char "n" 24) (Alice : @Keys person_crypto) (Bob : @Keys person_crypto) hello_dm hello_id 1002); [done | by_vm | by_vm | by_vm]. Defined.

Definition hello_reference : ReceiveOfferReferenceV1 :=
  {| provider_endpoint_id := repeat_char "e" 64; payload_hash := EmptyString; payload_bytes := 0;
     offer_scope := DirectMessageFrame hello_dm hello_id (repeat_char "f" 64) |}.
Definition hello_offer : SealedReceiveOfferV1 :=
  match seal_receive_offer Carol (repeat_char "n" 24) Alice (public_key_hex Bob) hello_reference 1000 61000 with Ok s => s | Err _ => no_sealed end.

Lemma offer_roundtrip_witness :
  (exists bytes, sealed_encode hello_offer = Ok bytes /\ str_len bytes <= RECEIVE_OFFER_MAX_BYTES /\ sealed_decode bytes = Ok hello_offer)
  /\ (exists v, sealed_open hello_offer Bob 2000 = Ok v /\ so_sender v = public_key_hex Alice /\ so_reference v = hello_reference
      /\ so_expires_at_ms v = 61000)
  /\ (forall s v, sealed_open s Bob 2000 = Ok v -> genuine_offer v (public_key_hex Bob) 2000).
Proof.
  apply (offer_roundtrip (Carol : @Keys person_crypto) (repeat_char "n" 24) (Alice : @Keys person_crypto) (Bob : @Keys person_crypto) hello_reference 1000 61000 hello_offer 2000); [done | by_vm | lia | by vm_compute].
Defined.

(** ** Clearing *)
Lemma net1_tables : tables_ok (tables (net1 Alice)).
Proof.
  assert (Hrun : run net1).
  { refine (next net0 Alice (answers 1000 None) say_hello _ _); [constructor | by apply quiet_call]. }
  apply (net_run_ok Some (fun _ => True) (fun _ => tt)) in Hrun. destruct (Hrun Alice I) as [Hok _ _ _]. exact Hok.
Qed.
Lemma net1_outbox : outbox_wf (outbox (tables (net1 Alice))).
Proof. eapply outbox_moves_wf; [exact (run_dm_call_moves Some (answers 1000 None) Alice say_hello (net0 Alice)) | apply empty_outbox_wf]. Qed.

Lemma clear_removes_all_witness :
  exists d', clear_direct_message (answers 3000 None) Alice (key_of Bob) (net1 Alice) = (Ok tt, d')
    /\ messages (tables d') = filter (fun p => p.1.1 <> hello_dm) (messages (tables (net1 Alice)))
    /\ conversations (tables d') = delete hello_dm (conversations (tables (net1 Alice)))
    /\ rows (outbox (tables d')) = filter (fun p => p.1.1 <> hello_dm) (rows (outbox (tables (net1 Alice))))
    /\ forall k, is_Some (tombstones (tables d') !! k)
         <-> is_Some (tombstones (tables (net1 Alice)) !! k) \/ (k.1 = hello_dm /\ is_Some (messages (tables (net1 Alice)) !! k)).
Proof.
  exact (clear_removes_all (answers 3000 None) (Alice : @Keys person_crypto) (key_of Bob) (key_of Bob) (net1 Alice) (to_keyed _ net1_tables) net1_outbox eq_refl).
Defined.

(** ** The outbox *)
Definition waiting (message_id : string) (created : Z) (attempt : option Z) : DirectMessageOutboxRow :=
  {| ob_dm_id := "dm"; ob_message_id := message_id; ob_peer_pubkey := "peer"; ob_frame_blob_hash := "hash"; ob_created_at := created;
     ob_last_attempt_at := attempt |}.
Definition with_rows_of (l : list DirectMessageOutboxRow) : MemoryDirectMessageOutboxRows := foldr outbox_insert empty_outbox l.
Lemma with_rows_wf l : outbox_wf (with_rows_of l).
Proof. induction l as [|r l IH]; [apply empty_outbox_wf | by apply (outbox_insert_wf r)]. Qed.
Lemma with_rows_rows r l : rows (with_rows_of (r :: l)) = <[row_key r := r]> (rows (with_rows_of l)).
Proof. apply (outbox_insert_wf r), with_rows_wf. Qed.

(** Two rows wait; a third one comes between the first page and the second. *)
Definition two_rows : list DirectMessageOutboxRow := [waiting "m1" 1 None; waiting "m2" 2 None].
Definition three_rows : list DirectMessageOutboxRow := waiting "m3" 3 None :: two_rows.

Lemma outbox_cycle_complete_witness :
  exists l, candidate_cycle 1 [with_rows_of two_rows; with_rows_of three_rows] None None = Some l
    /\ StronglySorted (fun a b => rust_ltb a b = true) (created_key <$> l)
    /\ forall k x, (forall o', o' ∈ [with_rows_of two_rows; with_rows_of three_rows] -> has_row k x o') -> k ∈ row_key <$> l.
Proof.
  apply outbox_cycle_complete; [by vm_compute; lia | | | by vm_compute].
  - repeat constructor; apply with_rows_wf.
  - intros e He. constructor; [by constructor|]. constructor. intros k r' Hr' Hle.
    unfold three_rows in Hr'. rewrite with_rows_rows in Hr'. apply lookup_insert_Some in Hr' as [[_ <-]|[_ Hr']]; [|exists r'; split; [exact Hr' | reflexivity]].
    exfalso. assert (He' : last (set_iter (by_created (with_rows_of two_rows))) = Some (2, ("m2", "dm"))) by by_vm.
    rewrite He' in He. injection He as <-. revert Hle. by vm_compute.
Defined.

(** Two rows were attempted; each tick retries one of them. *)
Definition later_row : DirectMessageOutboxRow := waiting "m2" 2 (Some 20).
Definition retrying : DmDevice unit :=
  {| tables := {| conversations := ∅; messages := ∅; tombstones := ∅;
                  outbox := with_rows_of [waiting "m1" 1 (Some 10); later_row] |};
     inbox := empty_notifications; placed := []; published := []; asked := 0; others := tt |}.
Definition one_tick : list (DmEnv * DmCall) := [(answers 4000 None, CallFlush 5000)].

Lemma flush_is_fair_witness :
  (ticks Some Alice one_tick retrying <= size (retried_before later_row 20%Z (outbox (tables retrying))))%nat.
Proof.
  refine (flush_is_fair Some (Alice : @Keys person_crypto) one_tick retrying ("dm", "m2") later_row (with_rows_wf _) _ _).
  - intros d' Hd'. cbn [states one_tick] in Hd'.
    apply elem_of_cons in Hd' as [->|Hd']; [by_vm|]. apply elem_of_cons in Hd' as [->|Hd']; [by_vm | by apply not_elem_of_nil in Hd'].
  - intros env now Hin. apply list_elem_of_singleton in Hin as [= _ ->]. by vm_compute.
Defined.
