(* ===== verification/StoreTables.v ===== *)
(** * The other tables of the in-memory store (crates/store)

    models.rs, pagination.rs, media_bookmarks.rs, public_channels.rs, topic_retention.rs and, of
    the directory memory/: bookmarks.rs, media_bookmarks.rs, withdrawals.rs, social.rs,
    projections.rs, observations.rs, live_game.rs, public_channels.rs and topic_retention.rs.
    One module per table; [Paging] and [TimedTable] hold what several of them share.  The
    counters of touched rows that only tests read are left out.  An index that has no row
    ([rows[id]]) is a panic, [None]. *)
From stdpp Require Import sorting.
From S2P Require Import Prelude RustStr DirectMessageStore DirectMessageStoreProps DirectMessageService ChannelKeyStore.
#[local] Open Scope list_scope.

(** ** Pages of a sorted list *)
Module Paging.
Section paging.
Context {A K : Type} (key : A -> K) (lt : K -> K -> bool).

(** Entries after a cursor in the order [lt]. *)
Definition beyond (c : option K) (x : A) : bool :=
  match c with None => true | Some c => lt c (key x) end.

Definition page (c : option K) (limit : nat) (l : list A) : list A := take limit (List.filter (beyond c) l).
Definition next (limit : nat) (p : list A) : option K :=
  if (length p =? limit)%nat then key <$> last p else None.

(** A reader that asks for pages until there is no cursor. *)
Fixpoint read_pages (fuel : nat) (c : option K) (limit : nat) (l : list A) : option (list A) :=
  match fuel with
  | O => None
  | S fuel =>
      let p := page c limit l in
      match next limit p with
      | None => Some p
      | Some c => rest ← read_pages fuel (Some c) limit l; Some (p ++ rest)%list
      end
  end.

Context (lt_irrefl : forall k, lt k k = false).
Context (lt_trans : forall a b c, lt a b = true -> lt b c = true -> lt a c = true).
#[local] Abbreviation sorted := (StronglySorted (fun a b => lt (key a) (key b) = true)).

Lemma beyond_split (l1 l2 : list A) x :
  sorted (l1 ++ x :: l2) -> List.filter (beyond (Some (key x))) (l1 ++ x :: l2) = l2.
Proof.
  intros Hs. assert (H1 : sorted (l1 ++ [x])).
  { rewrite cons_middle, app_assoc in Hs. by apply StronglySorted_app_1_l in Hs. }
  assert (H2 : sorted (x :: l2)) by by eapply StronglySorted_app_1_r.
  rewrite List.filter_app. rewrite (filter_none _ l1).
  - cbn. rewrite lt_irrefl. apply StronglySorted_inv in H2 as [_ Hall].
    rewrite (filter_same _ (fun _ => true)); [|intros y Hy; rewrite Forall_forall in Hall; by apply Hall].
    clear. induction l2 as [|y l2 IH]; cbn; congruence.
  - intros y Hy. cbn. destruct (lt (key x) (key y)) eqn:E; [|done].
    assert (lt (key y) (key x) = true) by (eapply (StronglySorted_app_1_elem_of _ _ _ _ _ H1); [done|]; by apply list_elem_of_here).
    rewrite <- (lt_irrefl (key x)). symmetry. by eapply lt_trans.
Qed.

Lemma elem_of_page c limit l x : x ∈ page c limit l -> x ∈ l.
Proof. intros Hx. eapply elem_of_sublist in Hx; [|apply sublist_take]. by apply elem_of_filter_bool in Hx as [? _]. Qed.

Lemma filter_beyond_none (l : list A) : List.filter (beyond None) l = l.
Proof. induction l as [|y l IH]; cbn; congruence. Qed.

Lemma filter_true (l : list A) : List.filter (fun _ => true) l = l.
Proof. induction l as [|y l IH]; cbn; congruence. Qed.

(** The rest of a list behind the entries that were read. *)
Lemma filter_rest l done_ rest c :
  sorted l -> l = (done_ ++ rest)%list -> c = (key <$> last done_) -> List.filter (beyond c) l = rest.
Proof.
  intros Hs Hl Hc. destruct (last done_) as [x|] eqn:Hx; cbn in Hc; subst c.
  - apply last_Some in Hx as [d ->]. rewrite Hl, <- app_assoc. cbn. apply beyond_split. by rewrite cons_middle, app_assoc, <- Hl.
  - apply last_None in Hx as ->. by rewrite filter_beyond_none.
Qed.

Lemma read_pages_from fuel limit l done_ rest c :
  (0 < limit)%nat -> sorted l -> l = (done_ ++ rest)%list -> c = (key <$> last done_) -> (length rest < fuel)%nat ->
  read_pages fuel c limit l = Some rest.
Proof.
  intros Hlim Hs. revert done_ rest c. induction fuel as [|fuel IH]; intros done_ rest c Hl Hc Hf; [lia|].
  assert (Hrest := filter_rest l done_ rest c Hs Hl Hc).
  cbn [read_pages]. unfold page, next. rewrite Hrest. destruct (length (take limit rest) =? limit)%nat eqn:E.
  - apply Nat.eqb_eq in E. destruct (last (take limit rest)) as [x|] eqn:Hx; cbn.
    + rewrite (IH (done_ ++ take limit rest)%list (drop limit rest)).
      * cbn. by rewrite take_drop.
      * by rewrite <- app_assoc, take_drop.
      * rewrite last_app, Hx. done.
      * rewrite length_drop. rewrite length_take in E. lia.
    + apply last_None in Hx. rewrite Hx in E. cbn in E. lia.
  - apply Nat.eqb_neq in E. rewrite take_ge; [done|]. rewrite length_take in E. lia.
Qed.

Lemma read_pages_all fuel limit l :
  (0 < limit)%nat -> sorted l -> (length l < fuel)%nat -> read_pages fuel None limit l = Some l.
Proof. intros. by apply (read_pages_from fuel limit l []). Qed.

(** Entries before [x]: those for which [x] comes after. *)
Lemma before_split (l1 l2 : list A) x :
  sorted (l1 ++ x :: l2) -> List.filter (fun y => lt (key y) (key x)) (l1 ++ x :: l2) = l1.
Proof.
  intros Hs. rewrite List.filter_app. rewrite (filter_same _ (fun _ => true) l1), filter_true.
  - rewrite (filter_none _ (x :: l2)); [by rewrite app_nil_r|].
    assert (H2 : sorted (x :: l2)) by by eapply StronglySorted_app_1_r. apply StronglySorted_inv in H2 as [_ Hall].
    intros y [->|Hy]%elem_of_cons; [apply lt_irrefl|]. rewrite Forall_forall in Hall. specialize (Hall y Hy).
    destruct (lt (key y) (key x)) eqn:E; [|done]. rewrite <- (lt_irrefl (key x)). symmetry. by eapply lt_trans.
  - intros y Hy. eapply (StronglySorted_app_1_elem_of _ _ _ _ _ Hs); [done | by apply list_elem_of_here].
Qed.

(** A reader of pages with one entry more than they show. *)
Fixpoint read_ahead (fuel : nat) (c : option K) (limit : nat) (l : list A) : option (list A) :=
  match fuel with
  | O => None
  | S fuel =>
      let p := page c (limit + 1) l in
      if (limit <? length p)%nat then
        rest ← read_ahead fuel (key <$> last (take limit p)) limit l; Some (take limit p ++ rest)%list
      else Some (take limit p)
  end.

Lemma read_ahead_from fuel limit l done_ rest c :
  (0 < limit)%nat -> sorted l -> l = (done_ ++ rest)%list -> c = (key <$> last done_) -> (length rest < fuel)%nat ->
  read_ahead fuel c limit l = Some rest.
Proof.
  intros Hlim Hs. revert done_ rest c. induction fuel as [|fuel IH]; intros done_ rest c Hl Hc Hf; [lia|].
  cbn [read_ahead]. unfold page. rewrite (filter_rest l done_ rest c), take_take, Nat.min_l by (done || lia).
  destruct (limit <? _)%nat eqn:E.
  - apply Nat.ltb_lt in E. rewrite length_take in E. destruct (last (take limit rest)) as [x|] eqn:Hx.
    + rewrite (IH (done_ ++ take limit rest)%list (drop limit rest)).
      * cbn. by rewrite take_drop.
      * by rewrite <- app_assoc, take_drop.
      * by rewrite last_app, Hx.
      * rewrite length_drop. lia.
    + apply last_None in Hx. assert (length (take limit rest) = 0%nat) by by rewrite Hx. rewrite length_take in *. lia.
  - apply Nat.ltb_ge in E. rewrite length_take in E. rewrite take_ge; [done | lia].
Qed.
End paging.

(** Sorting rows with distinct keys, in an order or its converse. *)
Section sorting.
Context {A K : Type} (key : A -> K) (le : K -> K -> bool).
Context (le_total : forall x y, le x y = false -> le y x = true).
Context (le_trans : forall x y z, le x y = true -> le y z = true -> le x z = true).
Context (le_antisym : forall x y, le x y = true -> le y x = true -> x = y).
#[local] Abbreviation le_key := (fun a b => le (key a) (key b)).
#[local] Abbreviation lt_key := (fun a b => negb (le (key b) (key a)) = true).

Lemma sort_strict_by (l : list A) : NoDup (key <$> l) -> StronglySorted lt_key (sort_by le_key l).
Proof.
  intros Hd.
  assert (Hs : StronglySorted (fun a b => le_key a b = true) (sort_by le_key l)).
  { apply (sort_by_sorted le_key); intros *; [apply le_total | apply le_trans]. }
  assert (Hd' : NoDup (key <$> sort_by le_key l)) by by rewrite sort_by_perm.
  revert Hs Hd'. generalize (sort_by le_key l). clear Hd l.
  induction 1 as [|x l Hs IH Hall]; intros Hd; [constructor|]. cbn in Hd. apply NoDup_cons in Hd as [Hx Hd].
  constructor; [by apply IH|]. rewrite Forall_forall in *. intros y Hy. apply negb_true_iff.
  destruct (le (key y) (key x)) eqn:E; [|done]. destruct Hx.
  rewrite (le_antisym (key x) (key y)); [by apply list_elem_of_fmap_2 | by apply Hall | done].
Qed.

Lemma le_refl_of_total x : le x x = true.
Proof. destruct (le x x) eqn:E; [done|]. rewrite <- E. by apply le_total. Qed.

(** A strictly sorted list is determined by its elements. *)
Lemma sort_unique_by (l1 l2 : list A) :
  StronglySorted lt_key l1 -> StronglySorted lt_key l2 -> (forall x, x ∈ l1 <-> x ∈ l2) -> l1 = l2.
Proof.
  intros H1 H2 He.
  assert (Hirr : forall x, ~ lt_key x x) by (intros x Hx; by rewrite le_refl_of_total in Hx).
  assert (Hnd : forall l, StronglySorted lt_key l -> NoDup l).
  { induction 1 as [|x l Hs IH Hall]; constructor; [|done]. intros Hx. rewrite Forall_forall in Hall. by apply (Hirr x), Hall. }
  apply (StronglySorted_unique_strong lt_key); [|done..|apply NoDup_Permutation; auto].
  intros a b _ _ Hab Hba. exfalso. apply negb_true_iff in Hab, Hba. apply le_total in Hab. congruence.
Qed.

(** Filtering before or after sorting makes no difference. *)
Lemma filter_sort_by (f : A -> bool) (l : list A) :
  NoDup (key <$> l) -> sort_by le_key (List.filter f l) = List.filter f (sort_by le_key l).
Proof.
  intros Hd. apply sort_unique_by.
  - apply sort_strict_by. eapply sublist_NoDup; [exact Hd | apply fmap_sublist, sublist_filter_bool].
  - eapply sublist_sorted; [apply sublist_filter_bool | by apply sort_strict_by].
  - intros x. by rewrite elem_of_sort_by, !elem_of_filter_bool, elem_of_sort_by.
Qed.
End sorting.

Lemma rust_ltb_irrefl {K} `{RustOrdLaws K} (k : K) : rust_ltb k k = false.
Proof. unfold rust_ltb. by rewrite rust_cmp_refl. Qed.
Lemma rust_ltb_trans {K} `{RustOrdLaws K} (a b c : K) : rust_ltb a b = true -> rust_ltb b c = true -> rust_ltb a c = true.
Proof.
  unfold rust_ltb. destruct (rust_cmp a b) eqn:E1; [done| |done]. destruct (rust_cmp b c) eqn:E2; [done| |done].
  by rewrite (rust_cmp_trans _ _ _ E1 E2).
Qed.

Lemma sorted_impl {A} (R S : A -> A -> Prop) l : (forall a b, R a b -> S a b) -> StronglySorted R l -> StronglySorted S l.
Proof. intros HRS. induction 1 as [|x l Hs IH Hall]; constructor; [done|]. eapply Forall_impl; [exact Hall | auto]. Qed.

(** Both directions of an order. *)
Section both.
Context {A K : Type} `{RustOrdLaws K} (key : A -> K).
Lemma sort_by_strict (l : list A) :
  NoDup (key <$> l) -> StronglySorted (fun a b => rust_ltb (key a) (key b) = true) (sort_by (fun a b => rust_leb (key a) (key b)) l).
Proof.
  intros Hd. eapply sorted_impl; [|apply (sort_strict_by key rust_leb); [apply rust_leb_total | apply rust_leb_trans | apply rust_leb_antisym | done]].
  intros a b. by rewrite rust_ltb_leb.
Qed.
Lemma sort_by_strict_desc (l : list A) :
  NoDup (key <$> l) -> StronglySorted (fun a b => rust_ltb (key b) (key a) = true) (sort_by (fun a b => rust_leb (key b) (key a)) l).
Proof.
  intros Hd. eapply sorted_impl; [|apply (sort_strict_by key (fun x y => rust_leb y x))]; [| | | |done].
  - intros a b. by rewrite rust_ltb_leb.
  - intros x y. apply rust_leb_total.
  - intros x y z Hxy Hyz. by eapply rust_leb_trans.
  - intros x y Hxy Hyx. by apply rust_leb_antisym.
Qed.
Lemma filter_sort_asc (f : A -> bool) (l : list A) :
  NoDup (key <$> l) ->
  sort_by (fun a b => rust_leb (key a) (key b)) (List.filter f l) = List.filter f (sort_by (fun a b => rust_leb (key a) (key b)) l).
Proof. apply (filter_sort_by key rust_leb); [apply rust_leb_total | apply rust_leb_trans | apply rust_leb_antisym]. Qed.
Lemma filter_sort_desc (f : A -> bool) (l : list A) :
  NoDup (key <$> l) ->
  sort_by (fun a b => rust_leb (key b) (key a)) (List.filter f l) = List.filter f (sort_by (fun a b => rust_leb (key b) (key a)) l).
Proof.
  apply (filter_sort_by key (fun x y => rust_leb y x)).
  - intros x y. apply rust_leb_total.
  - intros x y z Hxy Hyz. by eapply rust_leb_trans.
  - intros x y Hxy Hyx. by apply rust_leb_antisym.
Qed.
End both.

(** Lists in strict order are determined by their elements. *)
Lemma strict_nodup {K} `{RustOrdLaws K} (l : list K) : StronglySorted (fun a b => rust_ltb a b = true) l -> NoDup l.
Proof.
  induction 1 as [|x l Hs IH Hall]; constructor; [|done]. intros Hx. rewrite Forall_forall in Hall.
  specialize (Hall x Hx). by rewrite rust_ltb_irrefl in Hall.
Qed.
Lemma strict_unique {K} `{RustOrdLaws K} (l1 l2 : list K) :
  StronglySorted (fun a b => rust_ltb a b = true) l1 -> StronglySorted (fun a b => rust_ltb a b = true) l2 ->
  (forall x, x ∈ l1 <-> x ∈ l2) -> l1 = l2.
Proof.
  intros H1 H2 He. apply (StronglySorted_unique_strong (fun a b => rust_ltb a b = true)); [|done..|].
  - intros a b _ _ Hab Hba. exfalso. assert (Haa := rust_ltb_trans _ _ _ Hab Hba). by rewrite rust_ltb_irrefl in Haa.
  - apply NoDup_Permutation; [by apply strict_nodup..|done].
Qed.
Lemma strict_fmap {A K} `{RustOrd K} (key : A -> K) (l : list A) :
  StronglySorted (fun a b => rust_ltb (key a) (key b) = true) l -> StronglySorted (fun a b => rust_ltb a b = true) (key <$> l).
Proof. induction 1 as [|x l Hs IH Hall]; cbn; constructor; [done|]. by apply Forall_fmap. Qed.
Lemma sorted_rev {A} (R : A -> A -> Prop) (l : list A) : StronglySorted R l -> StronglySorted (fun a b => R b a) (rev l).
Proof.
  induction 1 as [|x l Hs IH Hall]; cbn; [constructor|]. apply StronglySorted_app_2; [|done|by repeat constructor].
  intros a b Ha%list_elem_of_In%in_rev%list_elem_of_In ->%list_elem_of_singleton. rewrite Forall_forall in Hall. by apply Hall.
Qed.

(** The values of a map have distinct keys when the map is keyed by them. *)
Lemma NoDup_values {Kx V K} `{Countable Kx} (key : V -> K) (id : V -> Kx) (m : gmap Kx V) :
  map_Forall (fun k v => id v = k) m -> (forall a b, key a = key b -> id a = id b) -> NoDup (key <$> (map_to_list m).*2).
Proof.
  intros Hk Hinj. rewrite <- list_fmap_compose. apply NoDup_fmap_2_strong; [|apply NoDup_map_to_list].
  intros [k v] [k' v'] Hv%elem_of_map_to_list Hv'%elem_of_map_to_list Heq. cbn in *.
  assert (Hkk : k = k') by (rewrite <- (Hk _ _ Hv), <- (Hk _ _ Hv'); by apply Hinj). subst k'. congruence.
Qed.
Lemma NoDup_filter_values {Kx V K} `{Countable Kx} (key : V -> K) (id : V -> Kx) (f : V -> bool) (m : gmap Kx V) :
  map_Forall (fun k v => id v = k) m -> (forall a b, key a = key b -> id a = id b) ->
  NoDup (key <$> List.filter f (map_to_list m).*2).
Proof. intros Hk Hinj. eapply sublist_NoDup; [by eapply NoDup_values | apply fmap_sublist, sublist_filter_bool]. Qed.
Lemma elem_of_values {Kx V} `{Countable Kx} (f : V -> bool) (m : gmap Kx V) v :
  v ∈ List.filter f (map_to_list m).*2 <-> f v = true /\ exists k, m !! k = Some v.
Proof.
  rewrite elem_of_filter_bool, list_elem_of_fmap. split.
  - intros [([k v'] & -> & Hv%elem_of_map_to_list) Hf]. eauto.
  - intros [Hf [k Hk]]. split; [|done]. exists (k, v). split; [done|]. by apply elem_of_map_to_list.
Qed.
End Paging.

(** ** Rows with an index by time *)
Module TimedTable.
Section timed.
Context {Row : Type}.

Record Timed := { t_rows : gmap string Row; t_order : gset (Z * string) }.
Definition timed_empty : Timed := {| t_rows := ∅; t_order := ∅ |}.

(** [old_id k old]: the id that the code uses to find the index entry of the row [old] that
    it has just taken out from under [k]. *)
Context (id : Row -> string) (at_ : Row -> Z) (old_id : string -> Row -> string).

Definition timed_key (r : Row) : Z * string := (at_ r, id r).

Definition timed_put (r : Row) (t : Timed) : Timed :=
  let order := match t_rows t !! id r with
               | Some old => t_order t ∖ {[ (at_ old, old_id (id r) old) ]}
               | None => t_order t
               end in
  {| t_rows := <[id r := r]> (t_rows t); t_order := {[ timed_key r ]} ∪ order |}.

Definition timed_remove (k : string) (t : Timed) : option Row * Timed :=
  match t_rows t !! k with
  | None => (None, t)
  | Some old => (Some old, {| t_rows := delete k (t_rows t); t_order := t_order t ∖ {[ (at_ old, old_id k old) ]} |})
  end.

(** [before]: newer than the cursor, in ascending order; otherwise older, newest first. *)
Definition timed_page (no_cursor : string) (limit : nat) (cursor : option (Z * string)) (before : bool) (t : Timed)
    : result string (option (list Row)) :=
  ids ← (if before then
           c ← ok_of_option no_cursor cursor;
           mret (List.filter (fun k => rust_ltb c k) (set_iter (t_order t)))
         else
           mret (rev (List.filter (fun k => match cursor with Some c => rust_ltb k c | None => true end) (set_iter (t_order t)))));
  mret (mapM (fun k : Z * string => t_rows t !! k.2) (take limit ids)).

(** *** The index is exact *)
Record timed_wf (t : Timed) : Prop := {
  tw_keyed : map_Forall (fun k r => id r = k) (t_rows t);
  tw_order : forall x, x ∈ t_order t <-> exists r, t_rows t !! x.2 = Some r /\ at_ r = x.1
}.
Context (old_id_ok : forall k old, id old = k -> old_id k old = k).

Lemma timed_empty_wf : timed_wf timed_empty.
Proof. split; cbn; [done|]. intros x. split; [set_solver | by intros (r & Hr & _)]. Qed.

Lemma timed_remove_wf k t : timed_wf t -> timed_wf (timed_remove k t).2.
Proof.
  intros Hwf. unfold timed_remove. destruct (t_rows t !! k) as [old|] eqn:Eo; [|done]. cbn [snd].
  assert (Hid := tw_keyed _ Hwf _ _ Eo). cbn in Hid. rewrite old_id_ok by done. split; cbn.
  - apply map_Forall_delete, Hwf.
  - intros [s i]. cbn. rewrite elem_of_difference, (tw_order _ Hwf), elem_of_singleton. cbn. split.
    + intros [(r & Hr & <-) Hne]. exists r. rewrite lookup_delete_ne; [done|]. intros <-. rewrite Eo in Hr. naive_solver.
    + intros (r & [Hne Hr]%lookup_delete_Some & <-). split; [eauto|]. intros [= _ ?]. done.
Qed.

Lemma timed_put_eq r t :
  timed_put r t = {| t_rows := <[id r := r]> (t_rows (timed_remove (id r) t).2);
                     t_order := {[ timed_key r ]} ∪ t_order (timed_remove (id r) t).2 |}.
Proof. unfold timed_put, timed_remove. destruct (t_rows t !! id r) eqn:E; cbn; [by rewrite insert_delete_eq | done]. Qed.

Lemma timed_remove_none k t : t_rows (timed_remove k t).2 !! k = None.
Proof. unfold timed_remove. destruct (t_rows t !! k) eqn:E; cbn; [apply lookup_delete_eq | done]. Qed.

Lemma timed_put_wf r t : timed_wf t -> timed_wf (timed_put r t).
Proof.
  intros Hwf%(timed_remove_wf (id r)). assert (Hnone := timed_remove_none (id r) t). rewrite timed_put_eq.
  revert Hwf Hnone. generalize (timed_remove (id r) t).2. intros t' [Hk Ho] Hnone. split; cbn.
  - by apply map_Forall_insert_2.
  - intros [s i]. rewrite elem_of_union, elem_of_singleton, Ho. cbn. unfold timed_key. split.
    + intros [[= -> ->]|(r' & Hr' & Hs)]; [exists r; by rewrite lookup_insert_eq|].
      exists r'. rewrite lookup_insert_ne; [done|]. congruence.
    + intros (r' & [[<- <-]|[? Hr']]%lookup_insert_Some & <-); [by left | right; eauto].
Qed.

(** *** A page is a slice of the sorted rows *)
Definition timed_asc (t : Timed) : list Row :=
  sort_by (fun a b => rust_leb (timed_key a) (timed_key b)) (map_to_list (t_rows t)).*2.

Lemma elem_of_timed_asc r t : timed_wf t -> r ∈ timed_asc t <-> t_rows t !! id r = Some r.
Proof.
  intros Hwf. unfold timed_asc. rewrite elem_of_sort_by, list_elem_of_fmap. split.
  - intros ([k r'] & -> & Hr%elem_of_map_to_list). cbn. by rewrite (tw_keyed _ Hwf _ _ Hr : id r' = k).
  - intros Hr. exists (id r, r). split; [done|]. by apply elem_of_map_to_list.
Qed.

Lemma timed_asc_sorted t : timed_wf t -> StronglySorted (fun a b => rust_ltb (timed_key a) (timed_key b) = true) (timed_asc t).
Proof.
  intros Hwf. apply Paging.sort_by_strict, (Paging.NoDup_values _ id); [apply Hwf|]. unfold timed_key. congruence.
Qed.

Lemma timed_order_keys t : timed_wf t -> set_iter (t_order t) = timed_key <$> timed_asc t.
Proof.
  intros Hwf. apply Paging.strict_unique; [apply set_iter_strict | by apply Paging.strict_fmap, timed_asc_sorted|].
  intros [s i]. rewrite elem_of_set_iter, (tw_order _ Hwf), list_elem_of_fmap. unfold timed_key. cbn. split.
  - intros (r & Hr & <-). assert (Hid := tw_keyed _ Hwf _ _ Hr). cbn in Hid. exists r. rewrite elem_of_timed_asc, Hid by done. done.
  - intros (r & [= -> ->] & Hr%elem_of_timed_asc); [eauto | done].
Qed.

Lemma filter_fmap {A B} (f : A -> B) (p : B -> bool) (l : list A) :
  List.filter p (f <$> l) = f <$> List.filter (fun x => p (f x)) l.
Proof. induction l as [|x l IH]; cbn; [done|]. destruct (p (f x)); cbn; by rewrite IH. Qed.

Lemma read_rows t l : timed_wf t -> (forall r, r ∈ l -> r ∈ timed_asc t) -> mapM (fun k : Z * string => t_rows t !! k.2) (timed_key <$> l) = Some l.
Proof.
  intros Hwf Hl. apply mapM_Some. apply Forall2_fmap_l. apply Forall2_same_length_lookup. split; [done|].
  intros i x y Hx Hy. simplify_eq. cbn. apply elem_of_timed_asc; [done|]. apply Hl. by eapply list_elem_of_lookup_2.
Qed.

Lemma fmap_rev {A B} (f : A -> B) (l : list A) : f <$> rev l = rev (f <$> l).
Proof. induction l as [|x l IH]; cbn; [done|]. by rewrite fmap_app, IH. Qed.

(** Pages in both directions never panic. *)
Lemma timed_page_older e limit c t :
  timed_wf t ->
  timed_page e limit c false t = Ok (Some (Paging.page timed_key (fun a b => rust_ltb b a) c limit (rev (timed_asc t)))).
Proof.
  intros Hwf. unfold timed_page, Paging.page. cbn [mret result_ret mbind result_bind]. f_equal.
  rewrite timed_order_keys, filter_fmap, <- fmap_rev, <- fmap_take, <- List.filter_rev by done. apply read_rows; [done|].
  intros r Hr%Paging.elem_of_page. by apply list_elem_of_In, in_rev, list_elem_of_In in Hr.
Qed.

Lemma timed_page_newer e limit c t :
  timed_wf t ->
  timed_page e limit (Some c) true t = Ok (Some (Paging.page timed_key rust_ltb (Some c) limit (timed_asc t))).
Proof.
  intros Hwf. unfold timed_page, Paging.page. cbn [mret result_ret mbind result_bind ok_of_option]. f_equal.
  rewrite timed_order_keys, filter_fmap, <- fmap_take by done. apply read_rows; [done|].
  by intros r Hr%(Paging.elem_of_page timed_key rust_ltb (Some c)).
Qed.

Lemma timed_desc_sorted t : timed_wf t -> StronglySorted (fun a b => rust_ltb (timed_key b) (timed_key a) = true) (rev (timed_asc t)).
Proof. intros. by apply (Paging.sorted_rev (fun a b => rust_ltb (timed_key a) (timed_key b) = true)), timed_asc_sorted. Qed.
End timed.
Arguments Timed : clear implicits.
End TimedTable.

(** ** Records that arrive in any order *)
Module Arrivals.
Section arrivals.
Context {Kx V W : Type} `{Countable Kx} `{RustOrdLaws W} (key : V -> Kx) (version : V -> W) (put : V -> gmap Kx V -> gmap Kx V).
(** A record is put unless a later version is there; what happens to an equal version is left open. *)
Context (put_spec : forall v m,
  (exists x, m !! key v = Some x /\ rust_leb (version v) (version x) = true /\ put v m = m)
  \/ (put v m = <[key v := v]> m /\ forall x, m !! key v = Some x -> rust_leb (version x) (version v) = true)).

Definition put_all (vs : list V) : gmap Kx V := foldl (fun m v => put v m) ∅ vs.
Lemma put_all_snoc vs v : put_all (vs ++ [v]) = put v (put_all vs).
Proof. unfold put_all. by rewrite foldl_snoc. Qed.

Lemma put_is_some v m k : is_Some (m !! k) \/ key v = k -> is_Some (put v m !! k).
Proof.
  destruct (put_spec v m) as [(x & Hx & _ & ->)|[-> _]]; intros [Hk|<-]; [done | eauto | | by rewrite lookup_insert_eq].
  rewrite lookup_insert. case_decide; eauto.
Qed.
Lemma put_all_present vs w : w ∈ vs -> is_Some (put_all vs !! key w).
Proof.
  induction vs as [|v vs IH] using rev_ind; [by intros ?%elem_of_nil|].
  rewrite put_all_snoc. intros [Hw| ->%list_elem_of_singleton]%elem_of_app; apply put_is_some; auto.
Qed.

(** A key has one of the records that arrived for it, and none later arrived. *)
Lemma put_all_max vs k v :
  put_all vs !! k = Some v -> v ∈ vs /\ key v = k /\ forall w, w ∈ vs -> key w = k -> rust_leb (version w) (version v) = true.
Proof.
  revert k v. induction vs as [|w vs IH] using rev_ind; intros k v; [unfold put_all; cbn; by rewrite lookup_empty|].
  rewrite put_all_snoc. set (m := put_all vs) in *.
  assert (Hold : m !! k = Some v -> (key w = k -> rust_leb (version w) (version v) = true) ->
            v ∈ vs ++ [w] /\ key v = k /\ forall w', w' ∈ vs ++ [w] -> key w' = k -> rust_leb (version w') (version v) = true).
  { intros Hm Hw. destruct (IH k v Hm) as (Hin & Hk & Hmax). split_and!; [set_solver|done|].
    intros w' [Hw'| ->%list_elem_of_singleton]%elem_of_app; auto. }
  destruct (put_spec w m) as [(x & Hx & Hle & ->)|[-> Hle]].
  - intros Hm. apply Hold; [done|]. intros <-. by simplify_eq.
  - intros [[<- <-]|[Hne Hm]]%lookup_insert_Some; [|by apply Hold].
    split_and!; [set_solver|done|]. intros w' [Hw'| ->%list_elem_of_singleton]%elem_of_app Hk'; [|apply rust_leb_refl].
    destruct (put_all_present vs w' Hw') as [y Hy]. rewrite Hk' in Hy. destruct (IH _ _ Hy) as (_ & _ & Hmax).
    eapply rust_leb_trans; [by apply Hmax | by apply Hle].
Qed.

(** Without ties the order of arrival, and what arrives again, do not matter. *)
Lemma put_all_converges vs vs' :
  (forall v, v ∈ vs <-> v ∈ vs') -> (forall v w, v ∈ vs -> w ∈ vs -> key v = key w -> version v = version w -> v = w) ->
  put_all vs = put_all vs'.
Proof.
  intros Hp Hties. apply map_eq. intros k. destruct (put_all vs !! k) as [v|] eqn:Ev.
  - destruct (put_all_max _ _ _ Ev) as (Hv & Hk & Hmax).
    destruct (put_all_present vs' v) as [w Hw]; [by apply Hp|]. rewrite Hk in Hw.
    destruct (put_all_max _ _ _ Hw) as (Hw' & Hkw & Hmaxw). apply Hp in Hw'.
    rewrite Hw. f_equal. apply Hties; [done..|congruence|].
    apply rust_leb_antisym; [apply Hmaxw; [by apply Hp | done] | by apply Hmax].
  - destruct (put_all vs' !! k) as [w|] eqn:Ew; [|done]. destruct (put_all_max _ _ _ Ew) as (Hw & Hk & _).
    apply Hp in Hw. destruct (put_all_present vs w Hw) as [x Hx]. rewrite Hk in Hx. congruence.
Qed.
End arrivals.
End Arrivals.

(** ** Rows of posts *)
Record MediaOrigin := { mo_topic_id : string; mo_object_id : string; mo_author_pubkey : string; mo_created_at : Z }.

Record AssetRef := {
  asset_hash : string;
  asset_mime : string;
  asset_bytes : Z;
  asset_role : AssetRole;
  asset_origin : option MediaOrigin
}.

Inductive PayloadRef :=
| InlineText (text : string)
| BlobText (hash : string) (mime : string) (bytes : Z).

Record RepostSourceSnapshotV1 := {
  rs_source_object_id : string;
  rs_source_topic_id : string;
  rs_source_author_pubkey : string;
  rs_source_object_kind : string;
  rs_content : string;
  rs_attachments : list AssetRef;
  rs_reply_to_object_id : option string;
  rs_root_id : option string;
  rs_content_labels : list string
}.

Record LiveRefV1 := { lr_session_id : string; lr_topic_id : string; lr_channel_id : option string }.

Record ObjectProjectionRow := {
  op_object_id : string;
  op_topic_id : string;
  op_channel_id : string;
  op_author_pubkey : string;
  op_created_at : Z;
  op_object_kind : string;
  op_root_object_id : option string;
  op_reply_to_object_id : option string;
  op_payload_ref : PayloadRef;
  op_content : option string;
  op_attachments : list AssetRef;
  op_repost_of : option RepostSourceSnapshotV1;
  op_content_labels : list string;
  op_live : option LiveRefV1;
  op_source_replica_id : string;
  op_source_key : string;
  op_source_envelope_id : string;
  op_source_blob_hash : option string;
  op_source_docs_author : option string;
  op_derived_at : Z;
  op_projection_version : Z
}.

(** ** Images and videos: bookmarks and cache
    (memory/media_bookmarks.rs, and crates/app-api/src/media_bookmarks.rs) *)
Module Shelves.
Definition MEDIA_BOOKMARK_PAGE_SIZE : nat := 20.

Record BookmarkedMediaRow := {
  bm_hash : string;
  bm_source : MediaOrigin;
  bm_from_object_id : string;
  bm_attachments : list AssetRef;
  bm_content_labels : list string;
  bm_bookmarked_at : Z
}.
Record MediaBookmarkCursor := { mc_bookmarked_at : Z; mc_hash : string }.

Inductive MediaShelf := Bookmarks | Cache.

#[local] Abbreviation MemoryMediaShelf := (TimedTable.Timed BookmarkedMediaRow).
(** A shelf that was never asked for is an empty one. *)
Record MemoryMediaBookmarks := { bookmarks : MemoryMediaShelf; cache : MemoryMediaShelf }.
Definition no_media : MemoryMediaBookmarks := {| bookmarks := TimedTable.timed_empty; cache := TimedTable.timed_empty |}.

Definition shelf (s : MediaShelf) (m : MemoryMediaBookmarks) : MemoryMediaShelf :=
  match s with Bookmarks => bookmarks m | Cache => cache m end.
Definition on_shelf (s : MediaShelf) (f : MemoryMediaShelf -> MemoryMediaShelf) (m : MemoryMediaBookmarks) : MemoryMediaBookmarks :=
  match s with
  | Bookmarks => {| bookmarks := f (bookmarks m); cache := cache m |}
  | Cache => {| bookmarks := bookmarks m; cache := f (cache m) |}
  end.

#[local] Abbreviation old_hash := (fun (_ : string) (old : BookmarkedMediaRow) => bm_hash old).
Definition shelf_put (r : BookmarkedMediaRow) (s : MemoryMediaShelf) : MemoryMediaShelf :=
  TimedTable.timed_put bm_hash bm_bookmarked_at old_hash r s.
Definition shelf_remove (hash : string) (s : MemoryMediaShelf) : option BookmarkedMediaRow * MemoryMediaShelf :=
  TimedTable.timed_remove bm_bookmarked_at old_hash hash s.

Definition on_rows (s : MediaShelf) (hash : string) (m : MemoryMediaBookmarks) : option BookmarkedMediaRow :=
  TimedTable.t_rows (shelf s m) !! hash.

Definition record_cached (r : BookmarkedMediaRow) (m : MemoryMediaBookmarks) : MemoryMediaBookmarks :=
  if negb (bool_decide (is_Some (on_rows Bookmarks (bm_hash r) m))) && negb (bool_decide (is_Some (on_rows Cache (bm_hash r) m)))
  then on_shelf Cache (shelf_put r) m else m.

Definition put_bookmarked_media (r : BookmarkedMediaRow) (m : MemoryMediaBookmarks) : MemoryMediaBookmarks :=
  on_shelf Bookmarks (shelf_put r) (on_shelf Cache (fun s => (shelf_remove (bm_hash r) s).2) m).
Definition get_bookmarked_media (hash : string) (m : MemoryMediaBookmarks) : option BookmarkedMediaRow := on_rows Bookmarks hash m.
Definition remove_bookmarked_media (hash : string) (m : MemoryMediaBookmarks) : MemoryMediaBookmarks :=
  let '(old, s) := shelf_remove hash (bookmarks m) in
  let m := on_shelf Bookmarks (fun _ => s) m in
  match old with Some r => record_cached r m | None => m end.
Definition record_cached_media (r : BookmarkedMediaRow) (m : MemoryMediaBookmarks) : MemoryMediaBookmarks := record_cached r m.
Definition remove_cached_media (hash : string) (m : MemoryMediaBookmarks) : MemoryMediaBookmarks :=
  on_shelf Cache (fun s => (shelf_remove hash s).2) m.

Definition media_cursor_key (c : MediaBookmarkCursor) : Z * string := (mc_bookmarked_at c, mc_hash c).
Definition list_bookmarked_media (s : MediaShelf) (cursor : option MediaBookmarkCursor) (before : bool) (m : MemoryMediaBookmarks)
    : result string (option (list BookmarkedMediaRow)) :=
  TimedTable.timed_page "newer media bookmark page requires cursor" (MEDIA_BOOKMARK_PAGE_SIZE + 1) (media_cursor_key <$> cursor) before (shelf s m).

(** *** The pages that a user sees.  The views of the attachments come from the blob service;
    here an item is its row with the id that the view shows. *)
Record BookmarkedMediaPageView := {
  pv_items : list BookmarkedMediaRow;
  pv_newer_cursor : option MediaBookmarkCursor;
  pv_older_cursor : option MediaBookmarkCursor
}.
Definition bookmarked_media_view (r : BookmarkedMediaRow) : BookmarkedMediaRow :=
  {| bm_hash := bm_hash r; bm_source := bm_source r;
     bm_from_object_id := if str_is_empty (bm_from_object_id r) then mo_object_id (bm_source r) else bm_from_object_id r;
     bm_attachments := bm_attachments r; bm_content_labels := bm_content_labels r; bm_bookmarked_at := bm_bookmarked_at r |}.
Definition media_cursor (r : BookmarkedMediaRow) : MediaBookmarkCursor := {| mc_bookmarked_at := bm_bookmarked_at r; mc_hash := bm_hash r |}.

Definition media_page_view (s : MediaShelf) (cursor : option MediaBookmarkCursor) (before : bool) (m : MemoryMediaBookmarks)
    : result string (option BookmarkedMediaPageView) :=
  rows ← list_bookmarked_media s cursor before m;
  mret (rows ← rows;
        let more := (MEDIA_BOOKMARK_PAGE_SIZE <? length rows)%nat in
        let rows := take MEDIA_BOOKMARK_PAGE_SIZE rows in
        let rows := if before then rev rows else rows in
        let given := bool_decide (is_Some cursor) in
        Some {| pv_items := bookmarked_media_view <$> rows;
                pv_newer_cursor := if (if before then more else given) then media_cursor <$> head rows else None;
                pv_older_cursor := if (if before then given else more) then media_cursor <$> last rows else None |}).

(** *** The row of an image or a video of a post *)
Definition role_is (role : AssetRole) (a : AssetRef) : bool := bool_decide (asset_role a = role).
Definition hash_is (hash : string) (a : AssetRef) : bool := bool_decide (asset_hash a = hash).

Fixpoint take_while {A} (f : A -> bool) (l : list A) : list A :=
  match l with [] => [] | x :: l => if f x then x :: take_while f l else [] end.

Definition media_shelf_row (now : Z) (row : ObjectProjectionRow) (hash : string) : result string BookmarkedMediaRow :=
  _ ← ensure (bool_decide (op_object_kind row = "post"%string) || bool_decide (op_object_kind row = "comment"%string)) "media bookmark target must be a post"%string;
  asset ← ok_of_option "media bookmark attachment was not found"%string (List.find (hash_is hash) (op_attachments row));
  let video := role_is VideoManifest asset || role_is VideoPoster asset in
  _ ← ensure (video || (starts_with "image/" (asset_mime asset) && negb (role_is VideoPoster asset))) "media bookmark requires image or video"%string;
  attachments ← (if video then
      let ordinal := length (List.filter (role_is (asset_role asset)) (take_while (fun a => negb (hash_is hash a)) (op_attachments row))) in
      main ← ok_of_option "video attachment was not found"%string (List.filter (role_is VideoManifest) (op_attachments row) !! ordinal);
      mret (main :: option_list (List.filter (role_is VideoPoster) (op_attachments row) !! ordinal))
    else mret [asset]);
  let primary := match List.find (role_is VideoManifest) attachments with Some a => a | None => List.hd asset attachments end in
  mret {| bm_hash := asset_hash primary;
          bm_source := match asset_origin primary with
                       | Some o => o
                       | None => {| mo_topic_id := op_topic_id row; mo_object_id := op_object_id row;
                                    mo_author_pubkey := op_author_pubkey row; mo_created_at := op_created_at row |}
                       end;
          bm_from_object_id := op_object_id row; bm_attachments := attachments; bm_content_labels := op_content_labels row;
          bm_bookmarked_at := now |}.

(** *** Each image or video is on one shelf, and the indexes are exact *)
Record media_wf (m : MemoryMediaBookmarks) : Prop := {
  mw_shelf s : TimedTable.timed_wf bm_hash bm_bookmarked_at (shelf s m);
  mw_one : forall h r, on_rows Bookmarks h m = Some r -> on_rows Cache h m = None
}.

Inductive MediaOp :=
| PutBookmark (r : BookmarkedMediaRow)
| RemoveBookmark (hash : string)
| RecordCached (r : BookmarkedMediaRow)
| RemoveCached (hash : string).
Definition media_step (m : MemoryMediaBookmarks) (op : MediaOp) : MemoryMediaBookmarks :=
  match op with
  | PutBookmark r => put_bookmarked_media r m
  | RemoveBookmark h => remove_bookmarked_media h m
  | RecordCached r => record_cached_media r m
  | RemoveCached h => remove_cached_media h m
  end.

Lemma old_hash_ok (k : string) (old : BookmarkedMediaRow) : bm_hash old = k -> old_hash k old = k.
Proof. done. Qed.

Lemma on_shelf_wf s f m :
  media_wf m -> TimedTable.timed_wf bm_hash bm_bookmarked_at (f (shelf s m)) ->
  (forall h r, on_rows Bookmarks h (on_shelf s f m) = Some r -> on_rows Cache h (on_shelf s f m) = None) ->
  media_wf (on_shelf s f m).
Proof.
  intros Hwf Hf Ho. split; [|done]. intros s'. assert (Hs' := mw_shelf _ Hwf s'). by destruct s, s'.
Qed.

Lemma shelf_remove_rows h s : TimedTable.t_rows (shelf_remove h s).2 = delete h (TimedTable.t_rows s).
Proof.
  unfold shelf_remove, TimedTable.timed_remove. destruct (TimedTable.t_rows s !! h) eqn:E; cbn; [done|]. by rewrite delete_id.
Qed.

Lemma remove_from_wf s h m : media_wf m -> media_wf (on_shelf s (fun t => (shelf_remove h t).2) m).
Proof.
  intros Hwf. apply on_shelf_wf; [done| |].
  - apply TimedTable.timed_remove_wf; [exact old_hash_ok | apply Hwf].
  - intros h' r. destruct s; unfold on_rows; cbn; rewrite shelf_remove_rows.
    + intros [_ Hr]%lookup_delete_Some. by apply (mw_one _ Hwf _ r).
    + intros Hr. apply lookup_delete_None. right. by apply (mw_one _ Hwf _ r).
Qed.

Lemma put_on_wf s r m :
  media_wf m -> (forall s', s' <> s -> on_rows s' (bm_hash r) m = None) -> media_wf (on_shelf s (shelf_put r) m).
Proof.
  intros Hwf Hfree. apply on_shelf_wf; [done| |].
  - apply TimedTable.timed_put_wf; [exact old_hash_ok | apply Hwf].
  - intros h r'. destruct s; unfold on_rows; cbn.
    + intros [[<- <-]|[_ Hr]]%lookup_insert_Some; [by apply (Hfree Cache) | by apply (mw_one _ Hwf _ r')].
    + intros Hr. apply lookup_insert_None. split; [by apply (mw_one _ Hwf _ r')|].
      intros <-. assert (Hb : on_rows Bookmarks (bm_hash r) m = None) by by apply Hfree. unfold on_rows in Hb. cbn in Hb. congruence.
Qed.

Lemma record_cached_wf r m : media_wf m -> media_wf (record_cached r m).
Proof.
  intros Hwf. unfold record_cached. case_match eqn:E; [|done]. apply put_on_wf; [done|]. destruct_bools.
  intros [] ?; [|done]. by apply eq_None_not_Some.
Qed.

Lemma media_step_wf m op : media_wf m -> media_wf (media_step m op).
Proof.
  intros Hwf. destruct op as [r|h|r|h]; cbn [media_step].
  - apply put_on_wf; [by apply remove_from_wf|]. intros [] ?; [done|]. unfold on_rows. cbn.
    rewrite shelf_remove_rows. apply lookup_delete_eq.
  - unfold remove_bookmarked_media. assert (H := remove_from_wf Bookmarks h m Hwf). cbn in *.
    destruct (shelf_remove h (bookmarks m)) as [[r|] s]; [by apply record_cached_wf | done].
  - by apply record_cached_wf.
  - by apply remove_from_wf.
Qed.

Lemma media_run_wf ops m : media_wf m -> media_wf (foldl media_step m ops).
Proof. revert m. induction ops as [|op ops IH]; intros m Hwf; cbn; [done|]. by apply IH, media_step_wf. Qed.

Lemma no_media_wf : media_wf no_media.
Proof. split; [intros []; by apply (TimedTable.timed_empty_wf _ _ old_hash) | done]. Qed.

(** *** The pages *)

(** A shelf as a list, newest first. *)
Definition media_listing (s : MediaShelf) (m : MemoryMediaBookmarks) : list BookmarkedMediaRow :=
  rev (TimedTable.timed_asc bm_hash bm_bookmarked_at (shelf s m)).
#[local] Abbreviation media_key := (TimedTable.timed_key bm_hash bm_bookmarked_at).
#[local] Abbreviation newest_first := (StronglySorted (fun a b => rust_ltb (media_key b) (media_key a) = true)).

Lemma listing_sorted s m : media_wf m -> newest_first (media_listing s m).
Proof. intros Hwf. apply TimedTable.timed_desc_sorted, Hwf. Qed.

Lemma elem_of_listing s m r : media_wf m -> r ∈ media_listing s m <-> on_rows s (bm_hash r) m = Some r.
Proof.
  intros Hwf. unfold media_listing. rewrite list_elem_of_In, <- in_rev, <- list_elem_of_In.
  exact (TimedTable.elem_of_timed_asc _ _ r (shelf s m) (mw_shelf _ Hwf s)).
Qed.

Lemma media_page_older s c m :
  media_wf m ->
  let p := Paging.page media_key (fun a b => rust_ltb b a) (media_cursor_key <$> c) (MEDIA_BOOKMARK_PAGE_SIZE + 1) (media_listing s m) in
  media_page_view s c false m =
    Ok (Some {| pv_items := bookmarked_media_view <$> take MEDIA_BOOKMARK_PAGE_SIZE p;
                pv_newer_cursor := if bool_decide (is_Some c) then media_cursor <$> head (take MEDIA_BOOKMARK_PAGE_SIZE p) else None;
                pv_older_cursor := if (MEDIA_BOOKMARK_PAGE_SIZE <? length p)%nat
                                   then media_cursor <$> last (take MEDIA_BOOKMARK_PAGE_SIZE p) else None |}).
Proof.
  intros Hwf p. unfold media_page_view, list_bookmarked_media.
  by rewrite (TimedTable.timed_page_older bm_hash bm_bookmarked_at _ _ _ _ (mw_shelf _ Hwf s)).
Qed.

Lemma media_page_total s c before m : media_wf m -> media_page_view s c before m <> Ok None.
Proof.
  intros Hwf. destruct before; [|by rewrite media_page_older]. unfold media_page_view, list_bookmarked_media. destruct c as [c|]; [|done].
  cbn [fmap option_fmap option_map]. by rewrite (TimedTable.timed_page_newer bm_hash bm_bookmarked_at _ _ _ _ (mw_shelf _ Hwf s)).
Qed.

(** A user who follows the older cursors from a page on. *)
Fixpoint media_walk_older (fuel : nat) (s : MediaShelf) (c : option MediaBookmarkCursor) (m : MemoryMediaBookmarks)
    : option (list BookmarkedMediaRow) :=
  match fuel with
  | O => None
  | S fuel =>
      match media_page_view s c false m with
      | Ok (Some v) =>
          match pv_older_cursor v with
          | None => Some (pv_items v)
          | Some c => rest ← media_walk_older fuel s (Some c) m; Some (pv_items v ++ rest)%list
          end
      | _ => None
      end
  end.

Lemma walk_is_read_ahead fuel s c m :
  media_wf m ->
  media_walk_older fuel s c m
  = fmap (M:=list) bookmarked_media_view
      <$> Paging.read_ahead media_key (fun a b => rust_ltb b a) fuel (media_cursor_key <$> c) MEDIA_BOOKMARK_PAGE_SIZE (media_listing s m).
Proof.
  intros Hwf. revert c. induction fuel as [|fuel IH]; intros c; [done|]. cbn [media_walk_older Paging.read_ahead].
  rewrite media_page_older by done. cbn [pv_items pv_older_cursor]. set (p := Paging.page _ _ _ _ _).
  destruct (_ <? length p)%nat eqn:E; [|done]. destruct (last (take _ p)) as [x|] eqn:Hx; cbn.
  - rewrite IH. cbn. destruct (Paging.read_ahead _ _ _ _ _ _); cbn; [|done]. by rewrite fmap_app.
  - apply last_None in Hx. apply Nat.ltb_lt in E. assert (Hz : length (take MEDIA_BOOKMARK_PAGE_SIZE p) = 0%nat) by by rewrite Hx.
    rewrite length_take in Hz.
    unfold MEDIA_BOOKMARK_PAGE_SIZE in *. lia.
Qed.

(** The page of newer rows next to a row. *)
Lemma media_page_newer s a r b m :
  media_wf m -> media_listing s m = (a ++ r :: b)%list ->
  let shown := drop (length a - MEDIA_BOOKMARK_PAGE_SIZE) a in
  media_page_view s (Some (media_cursor r)) true m =
    Ok (Some {| pv_items := bookmarked_media_view <$> shown;
                pv_newer_cursor := if (MEDIA_BOOKMARK_PAGE_SIZE <? length a)%nat then media_cursor <$> head shown else None;
                pv_older_cursor := media_cursor <$> last shown |}).
Proof.
  intros Hwf Hl shown. unfold media_page_view, list_bookmarked_media. cbn [fmap option_fmap option_map].
  rewrite (TimedTable.timed_page_newer bm_hash bm_bookmarked_at _ _ _ _ (mw_shelf _ Hwf s)). cbn [mbind result_bind option_bind mret result_ret].
  assert (Hp : Paging.page media_key rust_ltb (Some (media_cursor_key (media_cursor r))) (MEDIA_BOOKMARK_PAGE_SIZE + 1)
                 (TimedTable.timed_asc bm_hash bm_bookmarked_at (shelf s m)) = take (MEDIA_BOOKMARK_PAGE_SIZE + 1) (rev a)).
  { unfold Paging.page. f_equal. rewrite <- (rev_involutive (TimedTable.timed_asc _ _ _)). fold (media_listing s m).
    rewrite List.filter_rev. f_equal. rewrite Hl. change (media_cursor_key (media_cursor r)) with (media_key r). cbn [Paging.beyond].
    apply (Paging.before_split media_key (fun a b => rust_ltb b a)).
    - apply Paging.rust_ltb_irrefl.
    - intros x y z Hxy Hyz. by eapply Paging.rust_ltb_trans.
    - rewrite <- Hl. by apply listing_sorted. }
  rewrite Hp. rewrite take_take, Nat.min_l by lia.
  assert (Hs : rev (take MEDIA_BOOKMARK_PAGE_SIZE (rev a)) = shown) by (unfold shown; by rewrite firstn_rev, rev_involutive).
  rewrite Hs. do 3 f_equal. rewrite length_take, length_rev. destruct (_ <? length a)%nat eqn:E; case_match eqn:E'; try done;
    rewrite ?Nat.ltb_lt, ?Nat.ltb_ge in *; unfold MEDIA_BOOKMARK_PAGE_SIZE in *; lia.
Qed.

(** C26: whatever is bookmarked, viewed and removed, an image or a video is on one shelf only,
    and a shelf can be read as a list, newest first, that holds exactly its rows: following
    the older cursors from the first page shows the whole list, each row once, and the newer
    page at a row shows the 20 rows just before it, with cursors to both neighbours.  No page
    panics, whatever its cursor and direction. *)
Theorem shelves_exclusive_and_paged ops :
  let m := foldl media_step no_media ops in
  (forall h r, get_bookmarked_media h m = Some r -> on_rows Cache h m = None)
  /\ (forall s cursor before, media_page_view s cursor before m <> Ok None)
  /\ forall s, exists l,
       newest_first l /\ (forall r, r ∈ l <-> on_rows s (bm_hash r) m = Some r)
       /\ media_walk_older (S (length l)) s None m = Some (bookmarked_media_view <$> l)
       /\ forall a r b, l = (a ++ r :: b)%list ->
            let shown := drop (length a - MEDIA_BOOKMARK_PAGE_SIZE) a in
            media_page_view s (Some (media_cursor r)) true m =
              Ok (Some {| pv_items := bookmarked_media_view <$> shown;
                          pv_newer_cursor := if (MEDIA_BOOKMARK_PAGE_SIZE <? length a)%nat then media_cursor <$> head shown else None;
                          pv_older_cursor := media_cursor <$> last shown |}).
Proof.
  intros m. assert (Hwf : media_wf m) by apply media_run_wf, no_media_wf. split; [intros h r; by apply Hwf|].
  split; [intros s cursor before; by apply media_page_total|]. intros s. exists (media_listing s m). split_and!.
  - by apply listing_sorted.
  - intros r. by apply elem_of_listing.
  - rewrite walk_is_read_ahead by done. cbn [fmap option_fmap option_map].
    rewrite (Paging.read_ahead_from media_key (fun a b => rust_ltb b a)) with (done_ := []) (rest := media_listing s m); [done|..]; try done.
    + apply Paging.rust_ltb_irrefl.
    + intros x y z Hxy Hyz. by eapply Paging.rust_ltb_trans.
    + unfold MEDIA_BOOKMARK_PAGE_SIZE. lia.
    + by apply listing_sorted.
    + lia.
  - intros a r b Hl. by apply media_page_newer with (b := b).
Qed.

(** *** A video and its poster have one row *)
Lemma filter_lookup_split {A} (f : A -> bool) (l : list A) i x :
  List.filter f l !! i = Some x -> exists l1 l2, l = (l1 ++ x :: l2)%list /\ length (List.filter f l1) = i /\ f x = true.
Proof.
  revert i. induction l as [|y l IH]; intros i Hi; cbn in Hi; [done|]. destruct (f y) eqn:E.
  - destruct i as [|i]; cbn in Hi; [injection Hi as <-; by exists [], l|].
    destruct (IH i Hi) as (l1 & l2 & -> & Hl & Hf). exists (y :: l1), l2. cbn. rewrite E. cbn. by rewrite Hl.
  - destruct (IH i Hi) as (l1 & l2 & -> & Hl & Hf). exists (y :: l1), l2. cbn. by rewrite E.
Qed.

Lemma find_at_hash (l1 l2 : list AssetRef) x :
  NoDup (asset_hash <$> (l1 ++ x :: l2)%list) ->
  List.find (hash_is (asset_hash x)) (l1 ++ x :: l2)%list = Some x
  /\ take_while (fun a => negb (hash_is (asset_hash x) a)) (l1 ++ x :: l2)%list = l1.
Proof.
  unfold hash_is. induction l1 as [|y l1 IH]; cbn; [by rewrite bool_decide_true|].
  intros [Hy Hd]%NoDup_cons. rewrite bool_decide_false; [by destruct (IH Hd) as [-> ->]|].
  intros Heq. apply Hy. rewrite Heq, list_elem_of_fmap. exists x. split; [done | set_solver].
Qed.

Lemma media_shelf_row_at now row i v p x :
  NoDup (asset_hash <$> op_attachments row) -> op_object_kind row = "post"%string \/ op_object_kind row = "comment"%string ->
  List.filter (role_is VideoManifest) (op_attachments row) !! i = Some v ->
  List.filter (role_is VideoPoster) (op_attachments row) !! i = Some p -> x = v \/ x = p ->
  exists r, media_shelf_row now row (asset_hash x) = Ok r /\ bm_hash r = asset_hash v /\ bm_attachments r = [v; p].
Proof.
  intros Hd Hkind Hv Hp Hx. unfold media_shelf_row.
  assert (Hk : bool_decide (op_object_kind row = "post"%string) || bool_decide (op_object_kind row = "comment"%string) = true).
  { apply orb_true_iff. rewrite !bool_decide_eq_true. done. }
  rewrite Hk. cbn [ensure mbind result_bind].
  assert (Hat : exists role l1 l2, op_attachments row = (l1 ++ x :: l2)%list /\ length (List.filter (role_is role) l1) = i
                  /\ asset_role x = role /\ (role = VideoManifest \/ role = VideoPoster)).
  { destruct Hx as [-> | ->].
    - destruct (filter_lookup_split _ _ _ _ Hv) as (l1 & l2 & Hl & Hi & Hf%bool_decide_eq_true). exists VideoManifest, l1, l2. eauto.
    - destruct (filter_lookup_split _ _ _ _ Hp) as (l1 & l2 & Hl & Hi & Hf%bool_decide_eq_true). exists VideoPoster, l1, l2. eauto. }
  destruct Hat as (role & l1 & l2 & Hl & Hi & Hr & Hvp). rewrite Hl in Hd. destruct (find_at_hash l1 l2 x Hd) as [Hf Ht].
  rewrite <- Hl in Hf, Ht. rewrite Hf. cbn [ok_of_option mbind result_bind]. rewrite Ht.
  assert (Hvid : role_is VideoManifest x || role_is VideoPoster x = true).
  { apply orb_true_iff. unfold role_is. rewrite !bool_decide_eq_true. naive_solver. }
  rewrite Hvid, Hr, Hi, Hv, Hp. cbn. destruct (filter_lookup_split _ _ _ _ Hv) as (? & ? & _ & _ & Hvv). rewrite Hvv. eexists. done.
Qed.

(** Whether the video or its poster was asked for, the shelves get the same row. *)
Lemma media_row_of_poster now row i v p :
  NoDup (asset_hash <$> op_attachments row) -> op_object_kind row = "post"%string \/ op_object_kind row = "comment"%string ->
  List.filter (role_is VideoManifest) (op_attachments row) !! i = Some v ->
  List.filter (role_is VideoPoster) (op_attachments row) !! i = Some p ->
  exists r r', media_shelf_row now row (asset_hash v) = Ok r /\ media_shelf_row now row (asset_hash p) = Ok r'
    /\ bm_hash r = asset_hash v /\ bm_hash r' = asset_hash v /\ bm_attachments r = [v; p] /\ bm_attachments r' = [v; p].
Proof.
  intros Hd Hk Hv Hp.
  destruct (media_shelf_row_at now row i v p v Hd Hk Hv Hp (or_introl eq_refl)) as (r & ? & ? & ?).
  destruct (media_shelf_row_at now row i v p p Hd Hk Hv Hp (or_intror eq_refl)) as (r' & ? & ? & ?). exists r, r'. done.
Qed.
End Shelves.

(** ** People: profiles, follows, blocks, mutes and participants (memory/social.rs) *)
Module Social.
Record Profile := {
  pubkey : string;
  name : option string;
  display_name : option string;
  about : option string;
  picture_asset : option AssetRef;
  pr_updated_at : Z;
  nip05 : option string
}.
Inductive FollowEdgeStatus := FollowActive | FollowRevoked.
Inductive BlockEdgeStatus := BlockActive | BlockRevoked.
#[export] Instance FollowEdgeStatus_eq_dec : EqDecision FollowEdgeStatus.
Proof. solve_decision. Defined.
#[export] Instance BlockEdgeStatus_eq_dec : EqDecision BlockEdgeStatus.
Proof. solve_decision. Defined.
Record FollowEdge := { fe_subject : string; fe_target : string; fe_status : FollowEdgeStatus; fe_updated_at : Z; fe_envelope_id : string }.
Record BlockEdge := { be_subject : string; be_target : string; be_status : BlockEdgeStatus; be_updated_at : Z; be_envelope_id : string }.
Record MutedAuthorRow := { mu_author_pubkey : string; mu_muted_at : Z }.
Record PrivateChannelParticipantRow := {
  pp_channel_id : string;
  pp_epoch_id : string;
  pp_participant : string;
  pp_left_at : option Z;
  pp_updated_at : Z
}.
Record AuthorRelationshipProjectionRow := {
  ar_local_author : string;
  ar_author : string;
  ar_following : bool;
  ar_followed_by : bool;
  ar_mutual : bool;
  ar_friend_of_friend : bool;
  ar_via : list string;
  ar_derived_at : Z
}.

(** *** The newer of two records wins; the one that comes later wins a tie. *)
Section latest.
Context {Kx V : Type} `{Countable Kx} (key : V -> Kx) (updated_at : V -> Z).

Definition upsert_latest (v : V) (m : gmap Kx V) : gmap Kx V :=
  match m !! key v with
  | Some existing => if updated_at v <? updated_at existing then m else <[key v := v]> m
  | None => <[key v := v]> m
  end.

Lemma upsert_latest_keyed v m : map_Forall (fun k x => key x = k) m -> map_Forall (fun k x => key x = k) (upsert_latest v m).
Proof. intros Hm. unfold upsert_latest. repeat case_match; [done|..]; by apply map_Forall_insert_2. Qed.

Lemma upsert_latest_spec v (m : gmap Kx V) :
  (exists x, m !! key v = Some x /\ rust_leb (updated_at v) (updated_at x) = true /\ upsert_latest v m = m)
  \/ (upsert_latest v m = <[key v := v]> m /\ forall x, m !! key v = Some x -> rust_leb (updated_at x) (updated_at v) = true).
Proof.
  unfold upsert_latest, rust_leb, rust_cmp, Z_rust_ord. destruct (m !! key v) as [x|]; [|right; by split].
  destruct (updated_at v <? updated_at x) eqn:E.
  - left. exists x. apply Z.ltb_lt in E. split_and!; [done| |done]. by rewrite (proj2 (Z.compare_lt_iff _ _) E).
  - right. split; [done|]. intros y [= <-]. apply Z.ltb_ge in E. destruct (Z.compare_spec (updated_at x) (updated_at v)); [done..|lia].
Qed.
(** The order of arrival, and what arrives again, matter only for ties. *)
Lemma latest_converges vs vs' :
  (forall v, v ∈ vs <-> v ∈ vs') -> (forall v w, v ∈ vs -> w ∈ vs -> key v = key w -> updated_at v = updated_at w -> v = w) ->
  Arrivals.put_all upsert_latest vs = Arrivals.put_all upsert_latest vs'.
Proof. apply (Arrivals.put_all_converges key updated_at upsert_latest upsert_latest_spec). Qed.
End latest.

(** *** The tables *)
#[local] Abbreviation Edge := (string * string)%type.
#[local] Abbreviation ParticipantKey := (string * (string * string))%type.
Record SocialTables := {
  profiles : gmap string Profile;
  follow_edges : gmap Edge FollowEdge;
  block_edges : gmap Edge BlockEdge;
  muted_authors : gmap string MutedAuthorRow;
  author_docs_authors : gmap string string;
  participants : gmap ParticipantKey PrivateChannelParticipantRow
}.
Definition empty_social : SocialTables :=
  {| profiles := ∅; follow_edges := ∅; block_edges := ∅; muted_authors := ∅; author_docs_authors := ∅; participants := ∅ |}.

Definition fe_key (e : FollowEdge) : Edge := (fe_subject e, fe_target e).
Definition be_key (e : BlockEdge) : Edge := (be_subject e, be_target e).
Definition pp_key (r : PrivateChannelParticipantRow) : ParticipantKey := (pp_channel_id r, (pp_epoch_id r, pp_participant r)).

Definition upsert_profile (p : Profile) (t : SocialTables) : SocialTables :=
  {| profiles := upsert_latest pubkey pr_updated_at p (profiles t); follow_edges := follow_edges t; block_edges := block_edges t;
     muted_authors := muted_authors t; author_docs_authors := author_docs_authors t; participants := participants t |}.
Definition get_profile (k : string) (t : SocialTables) : option Profile := profiles t !! k.
Definition get_profiles (ks : list string) (t : SocialTables) : gmap string Profile :=
  list_to_map (omap (fun k => p ← profiles t !! k; Some (k, p)) ks).
Definition upsert_follow_edge (e : FollowEdge) (t : SocialTables) : SocialTables :=
  {| profiles := profiles t; follow_edges := upsert_latest fe_key fe_updated_at e (follow_edges t); block_edges := block_edges t;
     muted_authors := muted_authors t; author_docs_authors := author_docs_authors t; participants := participants t |}.
Definition upsert_block_edge (e : BlockEdge) (t : SocialTables) : SocialTables :=
  {| profiles := profiles t; follow_edges := follow_edges t; block_edges := upsert_latest be_key be_updated_at e (block_edges t);
     muted_authors := muted_authors t; author_docs_authors := author_docs_authors t; participants := participants t |}.
Definition get_follow_edge (subject target : string) (t : SocialTables) : option FollowEdge := follow_edges t !! (subject, target).
Definition get_block_edge (subject target : string) (t : SocialTables) : option BlockEdge := block_edges t !! (subject, target).

(** Newest first, then by the other end. *)
Definition list_follow_edges_by_subject (subject : string) (t : SocialTables) : list FollowEdge :=
  sort_by (fun l r => rust_leb (fe_updated_at r, fe_target l) (fe_updated_at l, fe_target r))
    (List.filter (fun e => bool_decide (fe_subject e = subject)) (map_to_list (follow_edges t)).*2).
Definition list_follow_edges_by_target (target : string) (t : SocialTables) : list FollowEdge :=
  sort_by (fun l r => rust_leb (fe_updated_at r, fe_subject l) (fe_updated_at l, fe_subject r))
    (List.filter (fun e => bool_decide (fe_target e = target)) (map_to_list (follow_edges t)).*2).
Definition list_block_edges_by_subject (subject : string) (t : SocialTables) : list BlockEdge :=
  sort_by (fun l r => rust_leb (be_updated_at r, be_target l) (be_updated_at l, be_target r))
    (List.filter (fun e => bool_decide (be_subject e = subject)) (map_to_list (block_edges t)).*2).
Definition list_block_edges_by_target (target : string) (t : SocialTables) : list BlockEdge :=
  sort_by (fun l r => rust_leb (be_updated_at r, be_subject l) (be_updated_at l, be_subject r))
    (List.filter (fun e => bool_decide (be_target e = target)) (map_to_list (block_edges t)).*2).

(** Small pages for the sync between devices: by the other end, after [after]. *)
Definition edges_after {T} (ends : T -> Edge) (subject : string) (after : option string) (limit : nat) (edges : list T) : list T :=
  take limit (sort_by (fun l r => rust_leb (ends l).2 (ends r).2)
    (List.filter (fun e => bool_decide ((ends e).1 = subject) && match after with None => true | Some a => rust_ltb a (ends e).2 end) edges)).
Definition list_follow_edges_by_subject_after (subject : string) (after : option string) (limit : nat) (t : SocialTables) : list FollowEdge :=
  edges_after fe_key subject after limit (map_to_list (follow_edges t)).*2.
Definition list_block_edges_by_subject_after (subject : string) (after : option string) (limit : nat) (t : SocialTables) : list BlockEdge :=
  edges_after be_key subject after limit (map_to_list (block_edges t)).*2.
Definition list_follow_edges_by_target_after (target : string) (after : option string) (limit : nat) (t : SocialTables) : list FollowEdge :=
  edges_after (fun e => (fe_target e, fe_subject e)) target after limit (map_to_list (follow_edges t)).*2.

Definition with_muted (m : gmap string MutedAuthorRow) (t : SocialTables) : SocialTables :=
  {| profiles := profiles t; follow_edges := follow_edges t; block_edges := block_edges t; muted_authors := m;
     author_docs_authors := author_docs_authors t; participants := participants t |}.
Definition put_muted_author (r : MutedAuthorRow) (t : SocialTables) : SocialTables := with_muted (<[mu_author_pubkey r := r]> (muted_authors t)) t.
Definition get_muted_author (k : string) (t : SocialTables) : option MutedAuthorRow := muted_authors t !! k.
Definition remove_muted_author (k : string) (t : SocialTables) : SocialTables := with_muted (delete k (muted_authors t)) t.
Definition list_muted_authors (t : SocialTables) : list MutedAuthorRow :=
  sort_by (fun l r => rust_leb (mu_muted_at r, mu_author_pubkey l) (mu_muted_at l, mu_author_pubkey r)) (map_to_list (muted_authors t)).*2.
Definition get_author_docs_author (k : string) (t : SocialTables) : option string := author_docs_authors t !! k.
Definition put_author_docs_author (k v : string) (t : SocialTables) : SocialTables :=
  {| profiles := profiles t; follow_edges := follow_edges t; block_edges := block_edges t; muted_authors := muted_authors t;
     author_docs_authors := <[k := v]> (author_docs_authors t); participants := participants t |}.

(** *** Whose content is hidden (crates/app-api/src/service/social_runtime_support.rs) *)
Definition current_muted_author_pubkeys (t : SocialTables) : gset string := list_to_set (mu_author_pubkey <$> list_muted_authors t).
Definition current_hidden_author_pubkeys (local_author : string) (t : SocialTables) : gset string :=
  current_muted_author_pubkeys t
  ∪ list_to_set (be_target <$> List.filter (fun e => bool_decide (be_status e = BlockActive)) (list_block_edges_by_subject local_author t))
  ∪ list_to_set (be_subject <$> List.filter (fun e => bool_decide (be_status e = BlockActive)) (list_block_edges_by_target local_author t)).
Definition owner_blocks_visitor (owner visitor : string) (t : SocialTables) : bool :=
  match get_block_edge owner visitor t with Some e => bool_decide (be_status e = BlockActive) | None => false end.
Definition authors_blocked_either_direction (left right : string) (t : SocialTables) : bool :=
  owner_blocks_visitor left right t || owner_blocks_visitor right left t.

(** *** Relationships *)
Fixpoint dedup (l : list string) : list string :=
  match l with
  | [] => []
  | x :: l' => match l' with
               | y :: _ => if bool_decide (x = y) then dedup l' else x :: dedup l'
               | [] => [x]
               end
  end.
Definition derive (clock : Z) (local_author author : string) (following followed_by : bool) (via : list string)
    : option AuthorRelationshipProjectionRow :=
  if bool_decide (author = local_author) then None
  else
    let via := if following then [] else via in
    let via := dedup (sort_by rust_leb (List.filter (fun p => negb (bool_decide (p = local_author))) via)) in
    let friends := negb (bool_decide (via = [])) in
    if following || followed_by || friends then
      Some {| ar_local_author := local_author; ar_author := author; ar_following := following; ar_followed_by := followed_by;
              ar_mutual := following && followed_by; ar_friend_of_friend := friends; ar_via := via; ar_derived_at := clock |}
    else None.

Definition active_follow (t : SocialTables) (subject target : string) : bool :=
  match follow_edges t !! (subject, target) with Some e => bool_decide (fe_status e = FollowActive) | None => false end.
Definition get_author_relationship (clock : Z) (local_author author : string) (t : SocialTables) : option AuthorRelationshipProjectionRow :=
  let via := fe_target <$> List.filter (fun e => bool_decide (fe_subject e = local_author) && bool_decide (fe_status e = FollowActive)
                                                 && active_follow t (fe_target e) author) (map_to_list (follow_edges t)).*2 in
  derive clock local_author author (active_follow t local_author author) (active_follow t author local_author) via.

(** *** Participants of private channels *)
Definition with_participants (p : gmap ParticipantKey PrivateChannelParticipantRow) (t : SocialTables) : SocialTables :=
  {| profiles := profiles t; follow_edges := follow_edges t; block_edges := block_edges t; muted_authors := muted_authors t;
     author_docs_authors := author_docs_authors t; participants := p |}.
Definition left_by (left_at : Z) (row existing : PrivateChannelParticipantRow) : PrivateChannelParticipantRow :=
  if bool_decide (pp_channel_id existing = pp_channel_id row) && bool_decide (pp_participant existing = pp_participant row)
     && bool_decide (pp_left_at existing = None) && (pp_updated_at existing <? left_at)
  then {| pp_channel_id := pp_channel_id existing; pp_epoch_id := pp_epoch_id existing; pp_participant := pp_participant existing;
          pp_left_at := Some left_at; pp_updated_at := left_at |}
  else existing.
Definition put_private_channel_participant (row : PrivateChannelParticipantRow) (t : SocialTables) : bool * SocialTables :=
  if match participants t !! pp_key row with Some e => pp_updated_at row <=? pp_updated_at e | None => false end then (false, t)
  else
    let rows := match pp_left_at row with Some at_ => left_by at_ row <$> participants t | None => participants t end in
    (true, with_participants (<[pp_key row := row]> rows) t).
Definition member_of (channel : string) (r : PrivateChannelParticipantRow) : bool :=
  bool_decide (pp_channel_id r = channel) && bool_decide (pp_left_at r = None).
Definition list_private_channel_participants (channel after : string) (limit : nat) (t : SocialTables) : list string :=
  take limit (set_iter (list_to_set (pp_participant <$>
    List.filter (fun r => member_of channel r && rust_ltb after (pp_participant r)) (map_to_list (participants t)).*2) : gset string)).
Definition is_active_private_channel_participant (channel person : string) (t : SocialTables) : bool :=
  existsb (fun r => member_of channel r && bool_decide (pp_participant r = person)) (map_to_list (participants t)).*2.
Definition has_private_channel_member (person : string) (t : SocialTables) : bool :=
  existsb (fun r => bool_decide (pp_participant r = person)) (map_to_list (participants t)).*2.
Definition has_private_channel_participant (channel person : string) (t : SocialTables) : bool :=
  existsb (fun r => bool_decide (pp_channel_id r = channel) && bool_decide (pp_participant r = person)) (map_to_list (participants t)).*2.
(** Members of an epoch, and those of them who and the owner of the channel do not follow each other. *)
Definition private_channel_participant_counts (channels : gmap string PrivateChannelRow) (channel epoch : string) (t : SocialTables) : nat * nat :=
  let owner := pc_owner <$> List.find (fun c => bool_decide (pc_channel_id c = channel))
                              (sort_by (fun p q => rust_leb p.1 q.1) (map_to_list channels)).*2 in
  let members := List.filter (fun r => member_of channel r && bool_decide (pp_epoch_id r = epoch)) (map_to_list (participants t)).*2 in
  let stale r := match owner with
                 | Some o => negb (bool_decide (o = pp_participant r))
                             && negb (active_follow t o (pp_participant r) && active_follow t (pp_participant r) o)
                 | None => false
                 end in
  (length members, length (List.filter stale members)).

(** *** Every table is filed under its keys *)
Record social_wf (t : SocialTables) : Prop := {
  sw_profiles : map_Forall (fun k p => pubkey p = k) (profiles t);
  sw_follows : map_Forall (fun k e => fe_key e = k) (follow_edges t);
  sw_blocks : map_Forall (fun k e => be_key e = k) (block_edges t);
  sw_muted : map_Forall (fun k r => mu_author_pubkey r = k) (muted_authors t);
  sw_participants : map_Forall (fun k r => pp_key r = k) (participants t)
}.

Inductive SocialOp :=
| UpsertProfile (p : Profile)
| UpsertFollow (e : FollowEdge)
| UpsertBlock (e : BlockEdge)
| PutMuted (r : MutedAuthorRow)
| RemoveMuted (k : string)
| PutDocsAuthor (k v : string)
| PutParticipant (r : PrivateChannelParticipantRow).
Definition social_step (t : SocialTables) (op : SocialOp) : SocialTables :=
  match op with
  | UpsertProfile p => upsert_profile p t
  | UpsertFollow e => upsert_follow_edge e t
  | UpsertBlock e => upsert_block_edge e t
  | PutMuted r => put_muted_author r t
  | RemoveMuted k => remove_muted_author k t
  | PutDocsAuthor k v => put_author_docs_author k v t
  | PutParticipant r => (put_private_channel_participant r t).2
  end.

Lemma left_by_key at_ row r : pp_key (left_by at_ row r) = pp_key r.
Proof. unfold left_by. by case_match. Qed.

Lemma social_step_wf t op : social_wf t -> social_wf (social_step t op).
Proof.
  intros [Hp Hf Hb Hm Hpp]. destruct op as [p|e|e|r|k|k v|r]; cbn [social_step]; try (split; cbn; done).
  - split; cbn; [by apply upsert_latest_keyed | done..].
  - split; cbn; [done | by apply upsert_latest_keyed | done..].
  - split; cbn; [done.. | by apply upsert_latest_keyed | done | done].
  - split; cbn; [done.. | by apply map_Forall_insert_2 | done].
  - split; cbn; [done.. | by apply map_Forall_delete | done].
  - unfold put_private_channel_participant. case_match; [done|]. split; cbn; [done..|]. apply map_Forall_insert_2; [done|].
    destruct (pp_left_at r); [|exact Hpp]. intros k x. rewrite lookup_fmap. intros (y & Hy & ->)%fmap_Some.
    rewrite left_by_key. by apply Hpp.
Qed.
Lemma social_run_wf ops t : social_wf t -> social_wf (foldl social_step t ops).
Proof. revert t. induction ops as [|op ops IH]; intros t Hwf; cbn; [done|]. by apply IH, social_step_wf. Qed.
Lemma empty_social_wf : social_wf empty_social.
Proof. by split. Qed.

(** *** Hidden authors *)
Lemma elem_of_sorted_values {Kx V} `{Countable Kx} (le : V -> V -> bool) (f : V -> bool) (m : gmap Kx V) v :
  v ∈ sort_by le (List.filter f (map_to_list m).*2) <-> f v = true /\ exists k, m !! k = Some v.
Proof. rewrite elem_of_sort_by. apply Paging.elem_of_values. Qed.

Lemma elem_of_muted t a : social_wf t -> a ∈ current_muted_author_pubkeys t <-> is_Some (get_muted_author a t).
Proof.
  intros Hwf. unfold current_muted_author_pubkeys, list_muted_authors, get_muted_author.
  rewrite elem_of_list_to_set, list_elem_of_fmap. setoid_rewrite elem_of_sort_by. setoid_rewrite list_elem_of_fmap. split.
  - intros (r & -> & [k r'] & -> & Hr%elem_of_map_to_list). assert (Hk := sw_muted _ Hwf _ _ Hr). cbn in *. rewrite Hk. eauto.
  - intros [r Hr]. exists r. rewrite (sw_muted _ Hwf _ _ Hr : mu_author_pubkey r = a). split; [done|].
    exists (a, r). split; [done|]. by apply elem_of_map_to_list.
Qed.

Lemma active_blocks_by (ends : BlockEdge -> string) le f t x (other : string -> Edge) :
  social_wf t -> (forall e, f e = true -> be_key e = other (ends e)) -> (forall e y, be_key e = other y -> f e = true /\ ends e = y) ->
  (x ∈ ends <$> List.filter (fun e => bool_decide (be_status e = BlockActive)) (sort_by le (List.filter f (map_to_list (block_edges t)).*2))
   <-> exists e, block_edges t !! other x = Some e /\ be_status e = BlockActive).
Proof.
  intros Hwf Hf Ho. rewrite list_elem_of_fmap. setoid_rewrite elem_of_filter_bool. setoid_rewrite elem_of_sorted_values.
  setoid_rewrite bool_decide_eq_true. split.
  - intros (e & -> & (Hfe & k & Hk) & Ha). exists e. assert (Hkey := sw_blocks _ Hwf _ _ Hk). cbn in Hkey. rewrite <- (Hf e Hfe), Hkey. done.
  - intros (e & He & Ha). assert (Hkey := sw_blocks _ Hwf _ _ He). cbn in Hkey. destruct (Ho e x Hkey) as [Hfe <-]. exists e. eauto.
Qed.

(** Hidden are those who are muted and those with whom there is an active block in either direction. *)
Lemma elem_of_hidden t me a :
  social_wf t ->
  a ∈ current_hidden_author_pubkeys me t <-> is_Some (get_muted_author a t) \/ authors_blocked_either_direction me a t = true.
Proof.
  intros Hwf. unfold current_hidden_author_pubkeys, list_block_edges_by_subject, list_block_edges_by_target,
    authors_blocked_either_direction, owner_blocks_visitor, get_block_edge.
  rewrite !elem_of_union, elem_of_muted, !elem_of_list_to_set, orb_true_iff by done.
  rewrite (active_blocks_by be_target _ _ t a (fun x => (me, x)) Hwf), (active_blocks_by be_subject _ _ t a (fun x => (x, me)) Hwf).
  - assert (Hact : forall x y, (exists e, block_edges t !! (x, y) = Some e /\ be_status e = BlockActive)
              <-> match block_edges t !! (x, y) with Some e => bool_decide (be_status e = BlockActive) | None => false end = true).
    { intros x y. destruct (block_edges t !! (x, y)) as [e|]; [rewrite bool_decide_eq_true|]; naive_solver. }
    rewrite !Hact. tauto.
  - intros e He%bool_decide_eq_true. unfold be_key. by rewrite He.
  - intros e y [= <- <-]. by rewrite bool_decide_true.
  - intros e He%bool_decide_eq_true. unfold be_key. by rewrite He.
  - intros e y [= <- <-]. by rewrite bool_decide_true.
Qed.

(** *** Relationships *)
Lemma elem_of_dedup x l : x ∈ dedup l <-> x ∈ l.
Proof.
  induction l as [|y l IH]; [done|]. destruct l as [|z l]; [done|]. cbn [dedup]. case_bool_decide as E.
  - subst. rewrite IH. set_solver.
  - rewrite !elem_of_cons, IH, elem_of_cons. done.
Qed.
Lemma dedup_strict l : StronglySorted (fun a b => rust_leb a b = true) l -> StronglySorted (fun a b => rust_ltb a b = true) (dedup l).
Proof.
  induction 1 as [|x l Hs IH Hall]; [constructor|]. destruct l as [|y l]; [repeat constructor|]. cbn [dedup]. case_bool_decide as E; [done|].
  constructor; [done|]. apply Forall_forall. intros z Hz. apply (proj1 (elem_of_dedup z (y :: l))) in Hz. rewrite Forall_forall in Hall.
  rewrite rust_ltb_leb. apply negb_true_iff. destruct (rust_leb z x) eqn:Ezx; [|done]. exfalso. apply E.
  assert (Hxz := Hall z Hz). cbn in Hxz. assert (z = x) as -> by by apply rust_leb_antisym.
  apply rust_leb_antisym; [apply Hall; by apply list_elem_of_here|].
  apply elem_of_cons in Hz as [->|Hz]; [apply rust_leb_refl|]. apply StronglySorted_inv in Hs as [_ Hy].
  rewrite Forall_forall in Hy. by apply Hy.
Qed.

(** A friend of a friend: somebody that [me] follows and who follows [a]. *)
Definition between (t : SocialTables) (me a x : string) : Prop :=
  x <> me /\ active_follow t me x = true /\ active_follow t x a = true.

Lemma elem_of_via t me a x :
  social_wf t ->
  x ∈ fe_target <$> List.filter (fun e => bool_decide (fe_subject e = me) && bool_decide (fe_status e = FollowActive)
                                          && active_follow t (fe_target e) a) (map_to_list (follow_edges t)).*2
  <-> active_follow t me x = true /\ active_follow t x a = true.
Proof.
  intros Hwf. rewrite list_elem_of_fmap. setoid_rewrite Paging.elem_of_values. split.
  - intros (e & -> & Hf & k & Hk). destruct_bools. split; [|done].
    assert (Hkey := sw_follows _ Hwf _ _ Hk). cbn in Hkey. unfold fe_key in Hkey. subst k me.
    unfold active_follow. rewrite Hk. by apply bool_decide_eq_true.
  - intros [Hme Hx]. unfold active_follow in Hme. destruct (follow_edges t !! (me, x)) as [e|] eqn:Ee; [|done].
    assert (Hkey := sw_follows _ Hwf _ _ Ee). cbn in Hkey. injection Hkey as Hs Ht. exists e. split; [done|]. split; [|eauto].
    rewrite Hs, Ht, Hx, Hme, bool_decide_true by done. done.
Qed.

(** The relationship of two accounts is read from the active follows: there is none exactly
    when nobody follows anybody, and otherwise it says who follows whom and, when [me] does not
    follow [a], through whom they are connected, in order and without repetition. *)
Lemma relationship_exact clock me a t :
  social_wf t -> a <> me ->
  let following := active_follow t me a in
  let followed_by := active_follow t a me in
  match get_author_relationship clock me a t with
  | None => following = false /\ followed_by = false /\ forall x, ~ between t me a x
  | Some r =>
      r = {| ar_local_author := me; ar_author := a; ar_following := following; ar_followed_by := followed_by;
             ar_mutual := following && followed_by; ar_friend_of_friend := negb (bool_decide (ar_via r = [])); ar_via := ar_via r;
             ar_derived_at := clock |}
      /\ StronglySorted (fun x y => rust_ltb x y = true) (ar_via r)
      /\ (forall x, x ∈ ar_via r <-> following = false /\ between t me a x)
      /\ (following = true \/ followed_by = true \/ exists x, between t me a x)
  end.
Proof.
  intros Hwf Hne following followed_by. unfold get_author_relationship, derive. fold following followed_by.
  rewrite bool_decide_false by done. set (raw := if following then _ else _). set (via := dedup _).
  assert (Hvia : forall x, x ∈ via <-> following = false /\ between t me a x).
  { intros x. unfold via, between. rewrite elem_of_dedup, elem_of_sort_by, elem_of_filter_bool, negb_true_iff, bool_decide_eq_false.
    unfold raw. destruct following; [|rewrite elem_of_via by done; tauto]. split; [by intros [?%elem_of_nil _] | by intros [? _]]. }
  assert (Hs : StronglySorted (fun x y => rust_ltb x y = true) via).
  { apply dedup_strict, sort_by_sorted; [apply rust_leb_total | apply rust_leb_trans]. }
  clearbody via. destruct (following || followed_by || negb (bool_decide (via = []))) eqn:E.
  - cbn. split_and!; [done..|]. apply orb_true_iff in E as [E|E]; [apply orb_true_iff in E; tauto|].
    right; right. apply negb_true_iff, bool_decide_eq_false in E. destruct via as [|x via]; [done|]. exists x. apply Hvia. by apply list_elem_of_here.
  - destruct_bools. split_and!; [done..|]. intros x Hx. assert (Hin : x ∈ via) by by apply Hvia.
    destruct via; [by apply elem_of_nil in Hin | done].
Qed.

(** Mutual is the same from both sides. *)
Lemma mutual_symmetric clock clock' me a t r :
  social_wf t -> a <> me -> get_author_relationship clock me a t = Some r -> ar_mutual r = true ->
  exists r', get_author_relationship clock' a me t = Some r' /\ ar_mutual r' = true.
Proof.
  intros Hwf Hne Hr Hm. assert (H := relationship_exact clock me a t Hwf Hne). cbv zeta in H. rewrite Hr in H. destruct H as [Heq _].
  rewrite Heq in Hm. cbn in Hm. apply andb_true_iff in Hm as [H1 H2].
  assert (H' := relationship_exact clock' a me t Hwf (not_eq_sym Hne)). cbv zeta in H'.
  destruct (get_author_relationship clock' a me t) as [r'|]; [|destruct H' as (Hf & _ & _); congruence]. exists r'. split; [done|]. destruct H' as [-> _]. cbn. by rewrite H1, H2.
Qed.

(** *** Participants *)
Lemma existsb_values {Kx V} `{Countable Kx} (f : V -> bool) (m : gmap Kx V) :
  existsb f (map_to_list m).*2 = true <-> exists k v, m !! k = Some v /\ f v = true.
Proof.
  rewrite existsb_elem. setoid_rewrite list_elem_of_fmap. split.
  - intros (v & ([k v'] & -> & Hk%elem_of_map_to_list) & Hf). eauto.
  - intros (k & v & Hk%elem_of_map_to_list & Hf). exists v. split; [by exists (k, v) | done].
Qed.

(** A record that leaves a channel, once it is taken in, ends every older membership of that
    person in that channel, whatever its epoch. *)
Lemma leaving_ends_membership row left_at t t' :
  social_wf t -> pp_left_at row = Some left_at -> put_private_channel_participant row t = (true, t') ->
  (forall k r, participants t !! k = Some r -> pp_channel_id r = pp_channel_id row -> pp_participant r = pp_participant row ->
     pp_left_at r = None -> pp_updated_at r < left_at) ->
  is_active_private_channel_participant (pp_channel_id row) (pp_participant row) t' = false
  /\ has_private_channel_participant (pp_channel_id row) (pp_participant row) t' = true.
Proof.
  intros Hwf Hleft Hput Hold. unfold put_private_channel_participant in Hput. case_match; [done|]. rewrite Hleft in Hput.
  injection Hput as <-. unfold is_active_private_channel_participant, has_private_channel_participant. cbn. split.
  - apply not_true_is_false. intros (k & r & Hr & Hm)%existsb_values. unfold member_of in Hm. destruct_bools.
    apply lookup_insert_Some in Hr as [[_ <-]|[_ Hr]]; [congruence|]. rewrite lookup_fmap in Hr.
    apply fmap_Some in Hr as (x & Hx & ->). revert select (pp_left_at _ = None). revert select (pp_channel_id _ = _). revert select (pp_participant _ = _).
    unfold left_by. destruct (_ && _) eqn:Ec; cbn; [by intros|]. intros Hp Hc Hn. assert (Hlt := Hold k x Hx Hc Hp Hn).
    rewrite !bool_decide_true in Ec by done. cbn in Ec. apply Z.ltb_ge in Ec. lia.
  - apply existsb_values. exists (pp_key row), row. rewrite lookup_insert_eq, !bool_decide_true by done. done.
Qed.

(** A page of participants lists the active ones beyond [after], each once, in order. *)
Lemma elem_of_participants channel after limit t x :
  x ∈ list_private_channel_participants channel after limit t ->
  is_active_private_channel_participant channel x t = true /\ rust_ltb after x = true.
Proof.
  unfold list_private_channel_participants. intros Hx. eapply elem_of_sublist in Hx; [|apply sublist_take].
  apply elem_of_set_iter, elem_of_list_to_set, list_elem_of_fmap in Hx as (r & -> & Hr).
  apply Paging.elem_of_values in Hr as [Hf (k & Hk)]. apply andb_true_iff in Hf as [Hm Ha]. split; [|done].
  apply existsb_values. exists k, r. split; [done|]. by rewrite Hm, bool_decide_true.
Qed.
Lemma participants_complete channel after limit t x :
  (length (list_private_channel_participants channel after limit t) < limit)%nat ->
  is_active_private_channel_participant channel x t = true -> rust_ltb after x = true ->
  x ∈ list_private_channel_participants channel after limit t.
Proof.
  unfold list_private_channel_participants. rewrite length_take. intros Hlen (k & r & Hk & Hm)%existsb_values Ha. destruct_bools. subst x.
  rewrite take_ge by lia. apply elem_of_set_iter, elem_of_list_to_set, list_elem_of_fmap. exists r. split; [done|].
  apply Paging.elem_of_values. split; [|eauto]. apply andb_true_iff. done.
Qed.
End Social.

(** ** Bookmarks of posts and reactions (memory/bookmarks.rs, and crates/app-api/src/timeline.rs) *)
Module Bookmarks.
Record BookmarkedPostRow := {
  bp_source_object_id : string;
  bp_source_envelope_id : string;
  bp_source_replica_id : string;
  bp_topic_id : string;
  bp_channel_id : string;
  bp_author_pubkey : string;
  bp_created_at : Z;
  bp_object_kind : string;
  bp_payload_ref : PayloadRef;
  bp_content : option string;
  bp_attachments : list AssetRef;
  bp_reply_to_object_id : option string;
  bp_root_object_id : option string;
  bp_repost_of : option RepostSourceSnapshotV1;
  bp_bookmarked_at : Z
}.
Record BookmarkCursor := { bc_bookmarked_at : Z; bc_source_object_id : string }.

#[local] Abbreviation MemoryBookmarkedPosts := (TimedTable.Timed BookmarkedPostRow).
#[local] Abbreviation same_id := (fun (id : string) (_ : BookmarkedPostRow) => id).
Definition put_bookmarked_post (r : BookmarkedPostRow) (t : MemoryBookmarkedPosts) : MemoryBookmarkedPosts :=
  TimedTable.timed_put bp_source_object_id bp_bookmarked_at same_id r t.
Definition remove_bookmarked_post (id : string) (t : MemoryBookmarkedPosts) : MemoryBookmarkedPosts :=
  (TimedTable.timed_remove bp_bookmarked_at same_id id t).2.
Definition bookmarked_post_ids (ids : list string) (t : MemoryBookmarkedPosts) : list string :=
  List.filter (fun id => bool_decide (is_Some (TimedTable.t_rows t !! id))) ids.
Definition bookmark_cursor_key (c : BookmarkCursor) : Z * string := (bc_bookmarked_at c, bc_source_object_id c).
Definition list_bookmarked_posts_page (cursor : option BookmarkCursor) (before : bool) (t : MemoryBookmarkedPosts)
    : result string (option (list BookmarkedPostRow)) :=
  TimedTable.timed_page "newer bookmark page requires cursor" 21 (bookmark_cursor_key <$> cursor) before t.
Definition cursor_of (r : BookmarkedPostRow) : BookmarkCursor := {| bc_bookmarked_at := bp_bookmarked_at r; bc_source_object_id := bp_source_object_id r |}.

Definition bookmarked_post_row_is_hidden (hidden : gset string) (r : BookmarkedPostRow) : bool :=
  bool_decide (bp_author_pubkey r ∈ hidden)
  || match bp_repost_of r with Some s => bool_decide (rs_source_author_pubkey s ∈ hidden) | None => false end.

(** The page that a user sees; an item is its row. *)
Record BookmarkedPostPageView := {
  items : list BookmarkedPostRow;
  newer_cursor : option BookmarkCursor;
  older_cursor : option BookmarkCursor
}.
Definition bookmarked_posts_view (hidden : gset string) (cursor : option BookmarkCursor) (before : bool) (t : MemoryBookmarkedPosts)
    : result string (option BookmarkedPostPageView) :=
  rows ← list_bookmarked_posts_page cursor before t;
  mret (rows ← rows;
        let has_more := (20 <? length rows)%nat in
        let rows := take 20 rows in
        let rows := if before then rev rows else rows in
        let first := cursor_of <$> head rows in
        let last := cursor_of <$> last rows in
        let bookmark_at_cursor_exists := match cursor with
          | Some c => before && negb (bool_decide (bookmarked_post_ids [bc_source_object_id c] t = []))
          | None => false
          end in
        let given := bool_decide (is_Some cursor) in
        Some {| items := List.filter (fun r => negb (bookmarked_post_row_is_hidden hidden r)) rows;
                newer_cursor := if (if before then has_more else given) then first else None;
                older_cursor := if (if before then bookmark_at_cursor_exists else has_more) then last else None |}).

Inductive BookmarkOp := PutPost (r : BookmarkedPostRow) | RemovePost (id : string).
Definition bookmark_step (t : MemoryBookmarkedPosts) (op : BookmarkOp) : MemoryBookmarkedPosts :=
  match op with PutPost r => put_bookmarked_post r t | RemovePost id => remove_bookmarked_post id t end.
#[local] Abbreviation posts_wf := (TimedTable.timed_wf bp_source_object_id bp_bookmarked_at).

Lemma bookmark_run_wf ops : posts_wf (foldl bookmark_step TimedTable.timed_empty ops).
Proof.
  assert (H0 : posts_wf TimedTable.timed_empty) by by apply (TimedTable.timed_empty_wf _ _ same_id).
  revert H0. generalize (@TimedTable.timed_empty BookmarkedPostRow). induction ops as [|op ops IH]; intros t Hwf; cbn; [done|].
  apply IH. destruct op; [by apply TimedTable.timed_put_wf | by apply TimedTable.timed_remove_wf].
Qed.

(** The bookmarks as a list, newest first. *)
Definition post_listing (t : MemoryBookmarkedPosts) : list BookmarkedPostRow := rev (TimedTable.timed_asc bp_source_object_id bp_bookmarked_at t).
#[local] Abbreviation post_key := (TimedTable.timed_key bp_source_object_id bp_bookmarked_at).

Lemma posts_view_older hidden c t :
  posts_wf t ->
  let p := Paging.page post_key (fun a b => rust_ltb b a) (bookmark_cursor_key <$> c) (20 + 1) (post_listing t) in
  exists nc, bookmarked_posts_view hidden c false t =
    Ok (Some {| items := List.filter (fun r => negb (bookmarked_post_row_is_hidden hidden r)) (take 20 p); newer_cursor := nc;
                older_cursor := if (20 <? length p)%nat then cursor_of <$> last (take 20 p) else None |}).
Proof.
  intros Hwf p. eexists. unfold bookmarked_posts_view, list_bookmarked_posts_page.
  by rewrite (TimedTable.timed_page_older bp_source_object_id bp_bookmarked_at _ _ _ _ Hwf).
Qed.

Fixpoint posts_walk_older (fuel : nat) (hidden : gset string) (c : option BookmarkCursor) (t : MemoryBookmarkedPosts)
    : option (list BookmarkedPostRow) :=
  match fuel with
  | O => None
  | S fuel =>
      match bookmarked_posts_view hidden c false t with
      | Ok (Some v) =>
          match older_cursor v with
          | None => Some (items v)
          | Some c => rest ← posts_walk_older fuel hidden (Some c) t; Some (items v ++ rest)
          end
      | _ => None
      end
  end.

Lemma posts_walk_is_read_ahead fuel hidden c t :
  posts_wf t ->
  posts_walk_older fuel hidden c t
  = List.filter (fun r => negb (bookmarked_post_row_is_hidden hidden r))
      <$> Paging.read_ahead post_key (fun a b => rust_ltb b a) fuel (bookmark_cursor_key <$> c) 20 (post_listing t).
Proof.
  intros Hwf. revert c. induction fuel as [|fuel IH]; intros c; [done|]. cbn [posts_walk_older Paging.read_ahead].
  destruct (posts_view_older hidden c t Hwf) as [nc ->]. cbn [items older_cursor]. set (p := Paging.page _ _ _ _ _).
  destruct (20 <? length p)%nat eqn:E; [|done]. destruct (last (take 20 p)) as [x|] eqn:Hx; cbn.
  - rewrite IH. cbn. destruct (Paging.read_ahead _ _ _ _ _ _); cbn; [|done]. by rewrite List.filter_app.
  - apply last_None in Hx. apply Nat.ltb_lt in E. assert (Hz : length (take 20 p) = 0%nat) by by rewrite Hx. rewrite length_take in Hz. lia.
Qed.

(** Following the older cursors shows every bookmark of an author who is not hidden, once, newest first. *)
Lemma bookmarks_walk_complete hidden ops :
  let t := foldl bookmark_step TimedTable.timed_empty ops in
  posts_walk_older (S (length (post_listing t))) hidden None t
    = Some (List.filter (fun r => negb (bookmarked_post_row_is_hidden hidden r)) (post_listing t))
  /\ (forall r, r ∈ post_listing t <-> TimedTable.t_rows t !! bp_source_object_id r = Some r)
  /\ StronglySorted (fun a b => rust_ltb (post_key b) (post_key a) = true) (post_listing t).
Proof.
  intros t. assert (Hwf : posts_wf t) by apply bookmark_run_wf. assert (Hs := TimedTable.timed_desc_sorted _ _ _ Hwf). split_and!; [| |done].
  - rewrite posts_walk_is_read_ahead by done. cbn [fmap option_fmap option_map].
    rewrite (Paging.read_ahead_from post_key (fun a b => rust_ltb b a)) with (done_ := []) (rest := post_listing t); [done|..]; try done; [| |lia..].
    + apply Paging.rust_ltb_irrefl.
    + intros x y z Hxy Hyz. by eapply Paging.rust_ltb_trans.
  - intros r. unfold post_listing. rewrite list_elem_of_In, <- in_rev, <- list_elem_of_In. by apply TimedTable.elem_of_timed_asc.
Qed.

(** When the bookmark at the cursor has been removed, the newer page has no older cursor,
    whether or not older bookmarks remain: from that page they cannot be reached. *)
Lemma removed_cursor_has_no_older hidden c t :
  posts_wf t -> TimedTable.t_rows t !! bc_source_object_id c = None ->
  exists v, bookmarked_posts_view hidden (Some c) true t = Ok (Some v) /\ older_cursor v = None.
Proof.
  intros Hwf Hnone. unfold bookmarked_posts_view, list_bookmarked_posts_page. cbn [fmap option_fmap option_map].
  rewrite (TimedTable.timed_page_newer bp_source_object_id bp_bookmarked_at _ _ _ _ Hwf). eexists. split; [done|].
  cbn. rewrite Hnone. done.
Qed.

(** *** Reactions *)
Inductive ReactionKeyKind := Emoji | CustomAsset.
Inductive ObjectStatus := ObjectActive | Edited | Deleted | Tombstoned.
Record CustomReactionAssetSnapshotV1 := {
  cr_asset_id : string;
  cr_owner_pubkey : string;
  cr_blob_hash : string;
  cr_search_key : string;
  cr_mime : string;
  cr_bytes : Z;
  cr_width : Z;
  cr_height : Z
}.
Record ReactionProjectionRow := {
  re_source_replica_id : string;
  re_target_object_id : string;
  re_reaction_id : string;
  re_author_pubkey : string;
  re_created_at : Z;
  re_updated_at : Z;
  re_reaction_key_kind : ReactionKeyKind;
  re_normalized_reaction_key : string;
  re_emoji : option string;
  re_custom_asset_id : option string;
  re_custom_asset_snapshot : option CustomReactionAssetSnapshotV1;
  re_status : ObjectStatus;
  re_source_key : string;
  re_source_envelope_id : string;
  re_derived_at : Z;
  re_projection_version : Z
}.
#[local] Abbreviation Reactions := (gmap (string * (string * string)) ReactionProjectionRow).
Definition reaction_key (r : ReactionProjectionRow) : string * (string * string) :=
  (re_source_replica_id r, (re_target_object_id r, re_reaction_id r)).
Definition upsert_reaction_cache (r : ReactionProjectionRow) (t : Reactions) : Reactions := <[reaction_key r := r]> t.
Definition get_reaction_cache (replica target reaction : string) (t : Reactions) : option ReactionProjectionRow := t !! (replica, (target, reaction)).
Definition reaction_le (l r : ReactionProjectionRow) : bool :=
  rust_leb (re_normalized_reaction_key l, re_reaction_id l) (re_normalized_reaction_key r, re_reaction_id r).
Definition list_reaction_cache_for_target (replica target : string) (t : Reactions) : list ReactionProjectionRow :=
  sort_by reaction_le (List.filter (fun r => bool_decide (re_source_replica_id r = replica) && bool_decide (re_target_object_id r = target))
                         (map_to_list t).*2).
(** Rows are pushed on the list of their target and the lists are sorted in the end. *)
Definition push_grouped (r : ReactionProjectionRow) (m : gmap string (list ReactionProjectionRow)) : gmap string (list ReactionProjectionRow) :=
  <[re_target_object_id r := default [] (m !! re_target_object_id r) ++ [r]]> m.
Definition list_reaction_cache_for_targets (replica : string) (targets : list string) (t : Reactions)
    : gmap string (list ReactionProjectionRow) :=
  sort_by reaction_le <$>
    foldl (fun m r => if bool_decide (re_source_replica_id r = replica) && bool_decide (re_target_object_id r ∈ (list_to_set targets : gset string))
                      then push_grouped r m else m) ∅ (map_to_list t).*2.
Definition list_recent_reaction_cache_by_author (author : string) (t : Reactions) : list ReactionProjectionRow :=
  sort_by (fun l r => rust_leb (re_updated_at r, re_reaction_id r) (re_updated_at l, re_reaction_id l))
    (List.filter (fun r => bool_decide (re_author_pubkey r = author)) (map_to_list t).*2).

(** Asking for many targets at once gives what asking for each of them gives. *)
Lemma grouped_lookup (f : ReactionProjectionRow -> bool) (l : list ReactionProjectionRow) k m :
  foldl (fun m r => if f r then push_grouped r m else m) m l !! k
  = match m !! k, List.filter (fun r => f r && bool_decide (re_target_object_id r = k)) l with
    | None, [] => None
    | o, l' => Some (default [] o ++ l')
    end.
Proof.
  revert m. induction l as [|r l IH]; intros m; cbn [foldl List.filter].
  - destruct (m !! k) as [x|]; cbn; [by rewrite app_nil_r | done].
  - rewrite IH. destruct (f r); cbn [andb]; [|done]. unfold push_grouped. case_bool_decide as E.
    + rewrite <- E, lookup_insert_eq. cbn. destruct (m !! re_target_object_id r); cbn; [by rewrite <- app_assoc | done].
    + by rewrite lookup_insert_ne.
Qed.
Lemma reactions_for_targets replica targets t k :
  list_reaction_cache_for_targets replica targets t !! k
  = if bool_decide (k ∈ targets) then
      match list_reaction_cache_for_target replica k t with [] => None | l => Some l end
    else None.
Proof.
  unfold list_reaction_cache_for_targets. rewrite lookup_fmap, grouped_lookup, lookup_empty. cbn [default].
  set (l' := List.filter _ (map_to_list t).*2).
  assert (Hl : l' = if bool_decide (k ∈ targets) then
                 List.filter (fun r => bool_decide (re_source_replica_id r = replica) && bool_decide (re_target_object_id r = k)) (map_to_list t).*2
               else []).
  { unfold l'. case_bool_decide as E.
    - apply filter_same. intros r _. destruct (bool_decide (re_source_replica_id r = replica)); cbn; [|done].
      case_bool_decide as E2; case_bool_decide as E3; try done. subst. set_solver.
    - apply filter_none. intros r _. destruct (bool_decide (re_source_replica_id r = replica)); cbn; [|done].
      case_bool_decide as E2; case_bool_decide as E3; try done. subst. set_solver. }
  rewrite Hl. unfold list_reaction_cache_for_target. case_bool_decide as E; [|done].
  set (F := List.filter _ _). assert (Hp := sort_by_perm reaction_le F). destruct F as [|x F]; [done|]. cbn [fmap option_fmap option_map app].
  destruct (sort_by reaction_le (x :: F)) eqn:Es; [by apply Permutation_nil_cons in Hp | done].
Qed.

(** *** Custom reactions *)
Definition BOOKMARKED_CUSTOM_REACTION_LIMIT : nat := 200.
Record BookmarkedCustomReactionRow := {
  cb_asset_id : string;
  cb_owner_pubkey : string;
  cb_blob_hash : string;
  cb_search_key : string;
  cb_mime : string;
  cb_bytes : Z;
  cb_width : Z;
  cb_height : Z;
  cb_bookmarked_at : Z
}.
Definition with_search_key_fallback (r : BookmarkedCustomReactionRow) : BookmarkedCustomReactionRow :=
  if str_is_empty (trim (cb_search_key r)) then
    {| cb_asset_id := cb_asset_id r; cb_owner_pubkey := cb_owner_pubkey r; cb_blob_hash := cb_blob_hash r; cb_search_key := cb_asset_id r;
       cb_mime := cb_mime r; cb_bytes := cb_bytes r; cb_width := cb_width r; cb_height := cb_height r; cb_bookmarked_at := cb_bookmarked_at r |}
  else r.
Definition put_bookmarked_custom_reaction (r : BookmarkedCustomReactionRow) (t : gmap string BookmarkedCustomReactionRow)
    : gmap string BookmarkedCustomReactionRow := <[cb_asset_id r := r]> t.
Definition remove_bookmarked_custom_reaction (asset_id : string) (t : gmap string BookmarkedCustomReactionRow)
    : gmap string BookmarkedCustomReactionRow := delete asset_id t.
Definition list_bookmarked_custom_reactions (t : gmap string BookmarkedCustomReactionRow) : list BookmarkedCustomReactionRow :=
  take BOOKMARKED_CUSTOM_REACTION_LIMIT
    (sort_by (fun l r => rust_leb (cb_bookmarked_at r, cb_asset_id r) (cb_bookmarked_at l, cb_asset_id l))
       (with_search_key_fallback <$> (map_to_list t).*2)).

(** Every custom reaction that is shown can be searched for, unless its id is blank. *)
Lemma custom_reactions_have_search_keys t r :
  r ∈ list_bookmarked_custom_reactions t -> trim (cb_asset_id r) <> EmptyString -> trim (cb_search_key r) <> EmptyString.
Proof.
  unfold list_bookmarked_custom_reactions. intros Hr. eapply elem_of_sublist in Hr; [|apply sublist_take].
  rewrite elem_of_sort_by, list_elem_of_fmap in Hr. destruct Hr as (x & -> & _). unfold with_search_key_fallback.
  destruct (str_is_empty (trim (cb_search_key x))) eqn:E; cbn; [done|]. intros _ Hc. by rewrite Hc in E.
Qed.
End Bookmarks.

(** ** Withdrawn posts (memory/withdrawals.rs) *)
Module Withdrawals.
Inductive WithdrawalReasonVisibility := ReasonPublic | ReasonPrivate.
Inductive PostWithdrawalReason := AuthorRequest | Correction | Privacy | OtherReason.
Record PostWithdrawalRow := {
  wd_target_object_id : string;
  wd_target_author_pubkey : string;
  wd_source_replica_id : string;
  wd_envelope_id : string;
  wd_withdrawn_at : Z;
  wd_generation : Z;
  wd_replacement_object_id : option string;
  wd_reason_visibility : WithdrawalReasonVisibility;
  wd_reason : option PostWithdrawalReason
}.
Record WithdrawalWriteRow := {
  ww_envelope_id : string;
  ww_replica_id : string;
  ww_target_object_id : string;
  ww_envelope : Envelope.KukuriEnvelope;
  ww_target_replica_id : option string
}.
#[local] Abbreviation Rows := (gmap string PostWithdrawalRow).

Definition version (r : PostWithdrawalRow) : Z * (Z * string) := (wd_generation r, (wd_withdrawn_at r, wd_envelope_id r)).
Definition is_newer_withdrawal (candidate current : PostWithdrawalRow) : bool := rust_ltb (version current) (version candidate).
Definition put_post_withdrawal (r : PostWithdrawalRow) (m : Rows) : bool * Rows :=
  if match m !! wd_target_object_id r with Some current => negb (is_newer_withdrawal r current) | None => false end then (false, m)
  else (true, <[wd_target_object_id r := r]> m).
Definition get_post_withdrawal (target : string) (m : Rows) : option PostWithdrawalRow := m !! target.

(** *** Writes that wait *)
Definition write_key (w : WithdrawalWriteRow) : string * string := (ww_envelope_id w, ww_replica_id w).
Definition queue_withdrawal_writes (ws pending : list WithdrawalWriteRow) : list WithdrawalWriteRow :=
  foldl (fun pending w => List.filter (fun item => negb (bool_decide (write_key item = write_key w))) pending ++ [w]) pending ws.
Definition pending_withdrawal_writes (limit : nat) (pending : list WithdrawalWriteRow) : list WithdrawalWriteRow := take limit pending.
Definition finish_withdrawal_write (envelope_id replica_id : string) (pending : list WithdrawalWriteRow) : list WithdrawalWriteRow :=
  List.filter (fun item => negb (bool_decide (write_key item = (envelope_id, replica_id)))) pending.

Lemma put_withdrawal_spec v (m : Rows) :
  (exists x, m !! wd_target_object_id v = Some x /\ rust_leb (version v) (version x) = true /\ (put_post_withdrawal v m).2 = m)
  \/ ((put_post_withdrawal v m).2 = <[wd_target_object_id v := v]> m
      /\ forall x, m !! wd_target_object_id v = Some x -> rust_leb (version x) (version v) = true).
Proof.
  unfold put_post_withdrawal, is_newer_withdrawal. destruct (m !! wd_target_object_id v) as [x|]; [|right; by split].
  rewrite rust_ltb_leb, negb_involutive. destruct (rust_leb (version v) (version x)) eqn:E.
  - left. by exists x.
  - right. split; [done|]. intros y [= <-]. by apply rust_leb_total.
Qed.

(** The stored withdrawals after some arrived. *)
Definition received (rs : list PostWithdrawalRow) : Rows := Arrivals.put_all (fun r m => (put_post_withdrawal r m).2) rs.

(** C27: devices that have received the same withdrawals, in any order and however often, hold
    the same rows, and each row is the greatest that arrived for its post by generation, time
    and envelope id: a withdrawal is never undone by an older one that is late. *)
Theorem withdrawals_converge rs rs' :
  (forall r, r ∈ rs <-> r ∈ rs') -> (forall r r', r ∈ rs -> r' ∈ rs -> wd_envelope_id r = wd_envelope_id r' -> r = r') ->
  received rs = received rs'
  /\ forall target, match get_post_withdrawal target (received rs) with
                    | Some r => r ∈ rs /\ wd_target_object_id r = target
                                /\ forall r', r' ∈ rs -> wd_target_object_id r' = target -> r' <> r -> is_newer_withdrawal r r' = true
                    | None => forall r, r ∈ rs -> wd_target_object_id r <> target
                    end.
Proof.
  intros Hsame Hids. assert (Hv : forall r r', r ∈ rs -> r' ∈ rs -> version r = version r' -> r = r').
  { intros r r' Hr Hr' [= _ _ He]. by apply Hids. }
  split; [apply (Arrivals.put_all_converges _ version _ put_withdrawal_spec); auto|].
  intros target. unfold get_post_withdrawal, received. destruct (Arrivals.put_all _ rs !! target) as [r|] eqn:Er.
  - destruct (Arrivals.put_all_max _ version _ put_withdrawal_spec _ _ _ Er) as (Hr & Hk & Hmax). split_and!; [done..|].
    intros r' Hr' Hk' Hne. unfold is_newer_withdrawal. rewrite rust_ltb_leb. apply negb_true_iff.
    destruct (rust_leb (version r) (version r')) eqn:E; [|done]. exfalso. apply Hne. apply Hv; [done..|].
    apply rust_leb_antisym; [by apply Hmax | done].
  - intros r Hr Hk. destruct (Arrivals.put_all_present _ version _ put_withdrawal_spec rs r Hr) as [x Hx]. rewrite Hk in Hx. congruence.
Qed.

(** Two rows of the queue never have the same place, and the row that was queued last is there. *)
Lemma queue_no_duplicates ws pending : NoDup (write_key <$> pending) -> NoDup (write_key <$> queue_withdrawal_writes ws pending).
Proof.
  revert pending. induction ws as [|w ws IH]; intros pending Hd; cbn; [done|]. apply IH. rewrite fmap_app. apply NoDup_app. split_and!.
  - eapply sublist_NoDup; [exact Hd | apply fmap_sublist, sublist_filter_bool].
  - intros k Hk ->%list_elem_of_singleton. apply list_elem_of_fmap in Hk as (x & Hx & [_ Hf]%elem_of_filter_bool).
    apply negb_true_iff, bool_decide_eq_false in Hf. by apply Hf.
  - apply NoDup_singleton.
Qed.
Lemma elem_of_queue ws pending x :
  x ∈ queue_withdrawal_writes ws pending -> x ∈ ws \/ x ∈ pending.
Proof.
  revert pending. induction ws as [|w ws IH]; intros pending Hx; cbn in *; [by right|]. apply IH in Hx as [Hx|Hx]; [by left; apply list_elem_of_further|].
  apply elem_of_app in Hx as [[Hx _]%elem_of_filter_bool| ->%list_elem_of_singleton]; [by right | left; apply list_elem_of_here].
Qed.
Lemma queue_keeps_places ws pending k :
  k ∈ write_key <$> queue_withdrawal_writes ws pending <-> k ∈ write_key <$> ws \/ k ∈ write_key <$> pending.
Proof.
  unfold queue_withdrawal_writes. revert pending. induction ws as [|w ws IH]; intros pending; cbn; [set_solver|]. rewrite IH, fmap_app, elem_of_app, elem_of_cons.
  assert (Hf : k ∈ write_key <$> List.filter (fun item => negb (bool_decide (write_key item = write_key w))) pending
               <-> k ∈ write_key <$> pending /\ k <> write_key w).
  { rewrite !list_elem_of_fmap. setoid_rewrite elem_of_filter_bool. setoid_rewrite negb_true_iff. setoid_rewrite bool_decide_eq_false.
    naive_solver. }
  rewrite Hf. cbn. rewrite list_elem_of_singleton. destruct (decide (k = write_key w)); tauto.
Qed.
Lemma finish_removes_only e p pending x :
  x ∈ finish_withdrawal_write e p pending <-> x ∈ pending /\ write_key x <> (e, p).
Proof. unfold finish_withdrawal_write. by rewrite elem_of_filter_bool, negb_true_iff, bool_decide_eq_false. Qed.
End Withdrawals.

(** ** Public channels (public_channels.rs, memory/public_channels.rs) *)
Module PublicChannels.
Record PublicChannelRow := {
  pu_channel_id : string;
  pu_topic_id : string;
  pu_title : string;
  pu_creator_pubkey : string;
  pu_created_at : Z;
  pu_first_post_id : option string;
  pu_last_post_at : Z;
  pu_revision : Z;
  pu_deleted : bool
}.
Inductive PublicChannelOrder := LastPost | Created.
Record PublicChannelCursor := { pcu_at : Z; pcu_channel_id : string }.
#[local] Abbreviation Rows := (gmap string PublicChannelRow).

Definition merged_onto (r previous : PublicChannelRow) : PublicChannelRow :=
  let keep := pu_revision r <=? pu_revision previous in
  {| pu_channel_id := pu_channel_id r; pu_topic_id := pu_topic_id r; pu_title := if keep then pu_title previous else pu_title r;
     pu_creator_pubkey := pu_creator_pubkey r; pu_created_at := pu_created_at r; pu_first_post_id := pu_first_post_id r;
     pu_last_post_at := Z.max (pu_last_post_at r) (pu_last_post_at previous);
     pu_revision := if keep then pu_revision previous else pu_revision r;
     pu_deleted := if keep then pu_deleted previous else pu_deleted r |}.
Definition sort_at (o : PublicChannelOrder) (r : PublicChannelRow) : Z :=
  match o with LastPost => pu_last_post_at r | Created => pu_created_at r end.
Definition channel_cursor (o : PublicChannelOrder) (r : PublicChannelRow) : PublicChannelCursor :=
  {| pcu_at := sort_at o r; pcu_channel_id := pu_channel_id r |}.
Definition next_public_channel_cursor (o : PublicChannelOrder) (limit : nat) (items : list PublicChannelRow) : option PublicChannelCursor :=
  if (length items =? limit)%nat then channel_cursor o <$> last items else None.

Definition put_public_channel (r : PublicChannelRow) (m : Rows) : Rows :=
  let r := match m !! pu_channel_id r with Some previous => merged_onto r previous | None => r end in
  <[pu_channel_id r := r]> m.
Definition get_public_channel_row (channel_id : string) (m : Rows) : option PublicChannelRow := m !! channel_id.
Definition note_public_channel_post (channel_id : string) (posted_at : Z) (m : Rows) : Rows :=
  match m !! channel_id with
  | Some r => <[channel_id := {| pu_channel_id := pu_channel_id r; pu_topic_id := pu_topic_id r; pu_title := pu_title r;
                                 pu_creator_pubkey := pu_creator_pubkey r; pu_created_at := pu_created_at r;
                                 pu_first_post_id := pu_first_post_id r; pu_last_post_at := Z.max (pu_last_post_at r) posted_at;
                                 pu_revision := pu_revision r; pu_deleted := pu_deleted r |}]> m
  | None => m
  end.

Definition order_key (o : PublicChannelOrder) (r : PublicChannelRow) : Z * string := (sort_at o r, pu_channel_id r).
Definition channel_cursor_key (c : PublicChannelCursor) : Z * string := (pcu_at c, pcu_channel_id c).
Definition list_public_channels (topic : string) (o : PublicChannelOrder) (cursor : option PublicChannelCursor) (limit : nat) (m : Rows)
    : list PublicChannelRow * option PublicChannelCursor :=
  if (limit =? 0)%nat then ([], cursor)
  else
    let rows := List.filter (fun r => bool_decide (pu_topic_id r = topic)
                                      && match cursor with None => true | Some c => rust_ltb (order_key o r) (channel_cursor_key c) end)
                  (map_to_list m).*2 in
    let items := take limit (sort_by (fun l r => rust_leb (order_key o r) (order_key o l)) rows) in
    (items, next_public_channel_cursor o limit items).

(** *** Merging is a join *)

(** What the rows of a channel agree on, whoever announces them. *)
Definition same_origin (a b : PublicChannelRow) : Prop :=
  pu_channel_id a = pu_channel_id b /\ pu_topic_id a = pu_topic_id b /\ pu_creator_pubkey a = pu_creator_pubkey b
  /\ pu_created_at a = pu_created_at b /\ pu_first_post_id a = pu_first_post_id b
  /\ (pu_revision a = pu_revision b -> pu_title a = pu_title b /\ pu_deleted a = pu_deleted b).
Lemma merge_comm a b : same_origin a b -> merged_onto a b = merged_onto b a.
Proof.
  intros (H1 & H2 & H3 & H4 & H5 & H6). unfold merged_onto. rewrite H1, H2, H3, H4, H5, (Z.max_comm (pu_last_post_at b)).
  destruct (Z.leb_spec (pu_revision a) (pu_revision b)), (Z.leb_spec (pu_revision b) (pu_revision a)); try done; [|lia].
  destruct H6 as [-> ->]; [lia|]. f_equal. lia.
Qed.
Lemma merge_idem a : merged_onto a a = a.
Proof. unfold merged_onto. rewrite Z.max_id, Z.leb_refl. by destruct a. Qed.
Lemma merge_assoc a b c : merged_onto a (merged_onto b c) = merged_onto (merged_onto a b) c.
Proof.
  unfold merged_onto. cbn. destruct (Z.leb_spec (pu_revision b) (pu_revision c)), (Z.leb_spec (pu_revision a) (pu_revision b));
    repeat match goal with |- context [?x <=? ?y] => destruct (Z.leb_spec x y) end; try lia; f_equal; lia.
Qed.
(** A deletion stays unless a later revision says otherwise. *)
Lemma deletion_stays r previous :
  pu_deleted previous = true -> pu_revision r <= pu_revision previous ->
  pu_deleted (merged_onto r previous) = true /\ pu_title (merged_onto r previous) = pu_title previous.
Proof. intros Hd Hr. unfold merged_onto. cbn. by rewrite (proj2 (Z.leb_le _ _) Hr). Qed.

(** *** Pages of a topic *)
Definition channels_keyed (m : Rows) : Prop := map_Forall (fun k r => pu_channel_id r = k) m.
Lemma put_public_channel_keyed r m : channels_keyed m -> channels_keyed (put_public_channel r m).
Proof. intros Hm. unfold put_public_channel. by apply map_Forall_insert_2. Qed.
Lemma note_post_keyed c at_ m : channels_keyed m -> channels_keyed (note_public_channel_post c at_ m).
Proof.
  intros Hm. unfold note_public_channel_post. destruct (m !! c) as [r|] eqn:E; [|done].
  apply map_Forall_insert_2; [|done]. exact (Hm _ _ E).
Qed.

Definition topic_channels (topic : string) (o : PublicChannelOrder) (m : Rows) : list PublicChannelRow :=
  sort_by (fun l r => rust_leb (order_key o r) (order_key o l)) (List.filter (fun r => bool_decide (pu_topic_id r = topic)) (map_to_list m).*2).

Lemma topic_channels_nodup topic o m :
  channels_keyed m -> NoDup (order_key o <$> List.filter (fun r => bool_decide (pu_topic_id r = topic)) (map_to_list m).*2).
Proof. intros Hk. apply (Paging.NoDup_filter_values _ pu_channel_id); [done|]. unfold order_key. congruence. Qed.

(** A page is the part of the sorted list of the topic after the cursor. *)
Lemma list_public_channels_is_page topic o cursor limit m :
  channels_keyed m -> (0 < limit)%nat ->
  list_public_channels topic o cursor limit m
  = (let p := Paging.page (order_key o) (fun a b => rust_ltb b a) (channel_cursor_key <$> cursor) limit (topic_channels topic o m) in
     (p, next_public_channel_cursor o limit p)).
Proof.
  intros Hk Hl. unfold list_public_channels. destruct limit as [|limit]; [lia|]. cbn [Nat.eqb]. cbv zeta.
  set (l := take _ _). set (p := Paging.page _ _ _ _ _). assert (l = p) as ->; [|done]. subst l p.
  unfold Paging.page, topic_channels. f_equal. rewrite <- (Paging.filter_sort_desc (order_key o)) by by apply topic_channels_nodup.
  f_equal. rewrite filter_filter_bool. apply filter_same. intros r _. rewrite andb_comm. by destruct cursor.
Qed.

(** A user who asks for page after page. *)
Fixpoint walk_channels (fuel : nat) (topic : string) (o : PublicChannelOrder) (cursor : option PublicChannelCursor) (limit : nat) (m : Rows)
    : option (list PublicChannelRow) :=
  match fuel with
  | O => None
  | S fuel =>
      let '(items, next) := list_public_channels topic o cursor limit m in
      match next with
      | None => Some items
      | Some c => rest ← walk_channels fuel topic o (Some c) limit m; Some (items ++ rest)
      end
  end.
Lemma channels_walk_complete topic o limit m :
  channels_keyed m -> (0 < limit)%nat ->
  walk_channels (S (length (topic_channels topic o m))) topic o None limit m = Some (topic_channels topic o m)
  /\ (forall r, r ∈ topic_channels topic o m <-> m !! pu_channel_id r = Some r /\ pu_topic_id r = topic)
  /\ StronglySorted (fun a b => rust_ltb (order_key o b) (order_key o a) = true) (topic_channels topic o m).
Proof.
  intros Hk Hl. assert (Hs : StronglySorted (fun a b => rust_ltb (order_key o b) (order_key o a) = true) (topic_channels topic o m))
    by by apply Paging.sort_by_strict_desc, topic_channels_nodup.
  split_and!; [| |done].
  - assert (Hw : forall fuel c, walk_channels fuel topic o c limit m
               = Paging.read_pages (order_key o) (fun a b => rust_ltb b a) fuel (channel_cursor_key <$> c) limit (topic_channels topic o m)).
    { induction fuel as [|fuel IH]; intros c; [done|]. cbn [walk_channels Paging.read_pages].
      rewrite list_public_channels_is_page by done. cbv zeta. set (p := Paging.page _ _ _ _ _). unfold next_public_channel_cursor, Paging.next.
      destruct (length p =? limit)%nat; [|done]. destruct (last p) as [x|]; [|done]. cbn. by rewrite IH. }
    rewrite Hw. apply (Paging.read_pages_all (order_key o) (fun a b => rust_ltb b a)); [| |done|done|lia].
    + apply Paging.rust_ltb_irrefl.
    + intros x y z Hxy Hyz. by eapply Paging.rust_ltb_trans.
  - intros r. unfold topic_channels. rewrite elem_of_sort_by, Paging.elem_of_values, bool_decide_eq_true. split.
    + intros [Ht [k Hr]]. assert (Hid := Hk _ _ Hr). cbn in Hid. by subst k.
    + intros [Hr Ht]. eauto.
Qed.
End PublicChannels.

(** ** Live sessions and game rooms (memory/live_game.rs) *)
Module LiveGame.
Inductive LiveSessionStatus := Scheduled | Live | LivePaused | LiveEnded.
Inductive GameRoomStatus := Waiting | Running | GamePaused | GameEnded.
Inductive GameRoomKind := ScoreGame | MetaverseRoom | ActionSession.
#[export] Instance LiveSessionStatus_eq_dec : EqDecision LiveSessionStatus.
Proof. solve_decision. Defined.
Record GameScoreEntry := { gs_participant_id : string; gs_label : string; gs_score : Z }.
Record ActionSessionV1 := { as_application_id : string; as_host_endpoint_id : string; as_max_players : Z }.
Record LiveSessionProjectionRow := {
  ls_session_id : string;
  ls_revision : Z;
  ls_topic_id : string;
  ls_channel_id : string;
  ls_host_pubkey : string;
  ls_title : string;
  ls_description : string;
  ls_status : LiveSessionStatus;
  ls_started_at : Z;
  ls_ended_at : option Z;
  ls_updated_at : Z;
  ls_source_replica_id : string;
  ls_source_key : string;
  ls_manifest_blob_hash : string;
  ls_derived_at : Z;
  ls_projection_version : Z;
  ls_viewer_count : nat;
  ls_start_post_id : option string
}.

(** [ProjectionIndex]: for a topic and a channel the entries of its rows, newest first. *)
#[local] Abbreviation Scope := (string * string)%type.
#[local] Abbreviation ProjectionIndex := (gmap Scope (gset (Z * string))).
Definition insert_projection_index_entry (scope : Scope) (k : Z * string) (ix : ProjectionIndex) : ProjectionIndex :=
  <[scope := {[ k ]} ∪ default ∅ (ix !! scope)]> ix.
Definition remove_projection_index_entry (scope : Scope) (k : Z * string) (ix : ProjectionIndex) : ProjectionIndex :=
  match ix !! scope with
  | Some entries =>
      let entries := entries ∖ {[ k ]} in
      if bool_decide (entries = ∅) then delete scope ix else <[scope := entries]> ix
  | None => ix
  end.
Definition index_entries (scope : Scope) (ix : ProjectionIndex) : list (Z * string) := rev (set_iter (default ∅ (ix !! scope))).

(** *** An index that files each row in its scope *)
Section index.
Context {Row : Type} (id : Row -> string) (scope_of : Row -> Scope) (at_ : Row -> Z).
Definition entry (r : Row) : Z * string := (at_ r, id r).
Definition unfile (r : Row) (ix : ProjectionIndex) : ProjectionIndex := remove_projection_index_entry (scope_of r) (entry r) ix.
Definition file (r : Row) (ix : ProjectionIndex) : ProjectionIndex := insert_projection_index_entry (scope_of r) (entry r) ix.

Record filed (rows : gmap string Row) (ix : ProjectionIndex) : Prop := {
  fi_keyed : map_Forall (fun k r => id r = k) rows;
  fi_exact : forall s k, k ∈ (default ∅ (ix !! s) : gset (Z * string)) <-> exists r, rows !! k.2 = Some r /\ scope_of r = s /\ at_ r = k.1;
  fi_lean : map_Forall (fun _ X => X <> ∅) ix
}.

Lemma elem_of_unfiled r ix s k :
  k ∈ (default ∅ (unfile r ix !! s) : gset (Z * string)) <-> k ∈ (default ∅ (ix !! s) : gset (Z * string)) /\ ~ (s = scope_of r /\ k = entry r).
Proof.
  unfold unfile, remove_projection_index_entry. destruct (ix !! scope_of r) as [X|] eqn:EX; [case_bool_decide as He|].
  - destruct (decide (s = scope_of r)) as [->|Hs]; [rewrite lookup_delete_eq, EX | rewrite lookup_delete_ne by done]; cbn; [set_solver | tauto].
  - destruct (decide (s = scope_of r)) as [->|Hs]; [rewrite lookup_insert_eq, EX | rewrite lookup_insert_ne by done]; cbn; [set_solver | tauto].
  - destruct (decide (s = scope_of r)) as [->|Hs]; [rewrite EX|]; cbn; [set_solver | tauto].
Qed.
Lemma elem_of_filed r ix s k :
  k ∈ (default ∅ (file r ix !! s) : gset (Z * string)) <-> k ∈ (default ∅ (ix !! s) : gset (Z * string)) \/ (s = scope_of r /\ k = entry r).
Proof.
  unfold file, insert_projection_index_entry.
  destruct (decide (s = scope_of r)) as [->|Hs]; [rewrite lookup_insert_eq | rewrite lookup_insert_ne by done]; cbn; [set_solver | tauto].
Qed.

(** Replacing the row of an id, with the index kept up. *)
Definition refile (r : Row) (rows : gmap string Row) (ix : ProjectionIndex) : ProjectionIndex :=
  file r (match rows !! id r with Some previous => unfile previous ix | None => ix end).

Lemma unfile_lean r ix : map_Forall (fun _ X => X <> ∅) ix -> map_Forall (fun _ X => X <> ∅) (unfile r ix).
Proof.
  intros Hl. unfold unfile, remove_projection_index_entry. destruct (ix !! scope_of r); [case_bool_decide|done].
  - by apply map_Forall_delete.
  - by apply map_Forall_insert_2.
Qed.
Lemma refile_filed r rows ix : filed rows ix -> filed (<[id r := r]> rows) (refile r rows ix).
Proof.
  intros [Hk He Hl]. unfold refile. set (ix0 := match rows !! id r with Some previous => unfile previous ix | None => ix end).
  assert (H0 : forall s k, k ∈ (default ∅ (ix0 !! s) : gset (Z * string))
                 <-> exists x, rows !! k.2 = Some x /\ scope_of x = s /\ at_ x = k.1 /\ k.2 <> id r).
  { intros s [t i]. unfold ix0. destruct (rows !! id r) as [p|] eqn:Ep.
    - assert (Hp := Hk _ _ Ep). cbn in Hp. rewrite elem_of_unfiled, He. unfold entry. cbn. split.
      + intros [(x & Hx & Hs & Ha) Hne]. exists x. split_and!; [done..|]. intros ->. rewrite Ep in Hx. apply Hne. assert (x = p) as -> by congruence. by rewrite Hp, Ha.
      + intros (x & Hx & Hs & Ha & Hne). split; [eauto|]. intros [_ [= _ ->]]. done.
    - rewrite He. cbn. split; [intros (x & Hx & Hs & Ha); exists x; split_and!; [done..|]; intros ->; congruence|].
      intros (x & Hx & Hs & Ha & _). eauto. }
  split.
  - by apply map_Forall_insert_2.
  - intros s [t i]. rewrite elem_of_filed, H0. unfold entry. cbn. split.
    + intros [(x & Hx & Hs & Ha & Hne)|[-> [= -> ->]]]; [exists x; by rewrite lookup_insert_ne | exists r; by rewrite lookup_insert_eq].
    + intros (x & [[<- <-]|[Hne Hx]]%lookup_insert_Some & Hs & Ha); [right | left]; [by subst|]. exists x. by split_and!.
  - apply map_Forall_insert_2; [set_solver|]. unfold ix0. destruct (rows !! id r); [by apply unfile_lean | done].
Qed.

(** The entries of a scope are those of its rows, sorted. *)
Definition scope_rows (s : Scope) (rows : gmap string Row) : list Row :=
  sort_by (fun a b => rust_leb (entry b) (entry a)) (List.filter (fun r => bool_decide (scope_of r = s)) (map_to_list rows).*2).
Lemma scope_rows_sorted s rows ix :
  filed rows ix -> StronglySorted (fun a b => rust_ltb (entry b) (entry a) = true) (scope_rows s rows).
Proof.
  intros [Hk _ _]. apply Paging.sort_by_strict_desc, (Paging.NoDup_filter_values _ id); [done|]. unfold entry. congruence.
Qed.
Lemma elem_of_scope_rows s rows ix r : filed rows ix -> r ∈ scope_rows s rows <-> rows !! id r = Some r /\ scope_of r = s.
Proof.
  intros [Hk _ _]. unfold scope_rows. rewrite elem_of_sort_by, Paging.elem_of_values, bool_decide_eq_true. split; [|by intros [? ?]; eauto].
  intros [Hs [k Hr]]. assert (Hid := Hk _ _ Hr). cbn in Hid. by subst k.
Qed.
Lemma index_entries_exact s rows ix : filed rows ix -> index_entries s ix = entry <$> scope_rows s rows.
Proof.
  intros Hf. unfold index_entries. assert (Hs := scope_rows_sorted s rows ix Hf).
  rewrite <- (rev_involutive (scope_rows s rows)), TimedTable.fmap_rev. f_equal.
  apply Paging.strict_unique; [apply set_iter_strict | |].
  - apply Paging.strict_fmap. exact (Paging.sorted_rev _ _ Hs).
  - intros [t i]. rewrite elem_of_set_iter, (fi_exact _ _ Hf), list_elem_of_fmap. unfold entry. cbn. split.
    + intros (r & Hr & Hs' & <-). assert (Hid := fi_keyed _ _ Hf _ _ Hr). cbn in Hid. subst i. exists r. split; [done|].
      rewrite list_elem_of_In, <- in_rev, <- list_elem_of_In. by apply (elem_of_scope_rows s rows ix).
    + intros (r & [= -> ->] & Hr). rewrite list_elem_of_In, <- in_rev, <- list_elem_of_In in Hr.
      apply (elem_of_scope_rows s rows ix) in Hr as [Hr Hsc]; [|done]. eauto.
Qed.
Lemma read_entries (rows : gmap string Row) (l : list Row) : (forall r, r ∈ l -> rows !! id r = Some r) -> omap (fun k : Z * string => rows !! k.2) (entry <$> l) = l.
Proof.
  induction l as [|x l IH]; intros Hl; cbn; [done|]. rewrite (Hl x (list_elem_of_here x l)). f_equal. apply IH.
  intros r Hr. apply Hl. by apply list_elem_of_further.
Qed.
End index.

(** *** Live sessions *)
#[local] Abbreviation PresenceKey := (string * (string * (string * string)))%type.
(** Who watches: the key names topic, channel, session and viewer, the value when it lapses and when it was set. *)
#[local] Abbreviation LivePresence := (gmap PresenceKey (Z * Z)).
Record LiveTables := {
  live_session_rows : gmap string LiveSessionProjectionRow;
  live_session_index : ProjectionIndex;
  live_presence : LivePresence
}.
Definition no_live : LiveTables := {| live_session_rows := ∅; live_session_index := ∅; live_presence := ∅ |}.
Definition ls_scope (r : LiveSessionProjectionRow) : Scope := (ls_topic_id r, ls_channel_id r).
Definition with_viewer_count (n : nat) (r : LiveSessionProjectionRow) : LiveSessionProjectionRow :=
  {| ls_session_id := ls_session_id r; ls_revision := ls_revision r; ls_topic_id := ls_topic_id r; ls_channel_id := ls_channel_id r;
     ls_host_pubkey := ls_host_pubkey r; ls_title := ls_title r; ls_description := ls_description r; ls_status := ls_status r;
     ls_started_at := ls_started_at r; ls_ended_at := ls_ended_at r; ls_updated_at := ls_updated_at r;
     ls_source_replica_id := ls_source_replica_id r; ls_source_key := ls_source_key r;
     ls_manifest_blob_hash := ls_manifest_blob_hash r; ls_derived_at := ls_derived_at r;
     ls_projection_version := ls_projection_version r; ls_viewer_count := n; ls_start_post_id := ls_start_post_id r |}.
Definition viewers (p : LivePresence) (r : LiveSessionProjectionRow) : nat :=
  length (List.filter (fun e : PresenceKey * (Z * Z) =>
            bool_decide (e.1.1 = ls_topic_id r) && bool_decide (e.1.2.1 = ls_channel_id r) && bool_decide (e.1.2.2.1 = ls_session_id r))
            (map_to_list p)).
Definition counted (p : LivePresence) (r : LiveSessionProjectionRow) : LiveSessionProjectionRow :=
  with_viewer_count (if bool_decide (ls_status r = LiveEnded) then 0%nat else viewers p r) r.

Definition upsert_live_session_cache (r : LiveSessionProjectionRow) (t : LiveTables) : LiveTables :=
  if match live_session_rows t !! ls_session_id r with Some previous => ls_revision r <=? ls_revision previous | None => false end then t
  else {| live_session_rows := <[ls_session_id r := r]> (live_session_rows t);
          live_session_index := refile ls_session_id ls_scope ls_started_at r (live_session_rows t) (live_session_index t);
          live_presence := live_presence t |}.
Definition list_live_sessions (topic channel : string) (live_now : bool) (limit : nat) (t : LiveTables) : list LiveSessionProjectionRow :=
  if (limit =? 0)%nat then []
  else counted (live_presence t) <$>
         take limit (List.filter (fun r => negb live_now || bool_decide (ls_status r = Live))
                       (omap (fun k : Z * string => live_session_rows t !! k.2) (index_entries (topic, channel) (live_session_index t)))).
Definition list_channel_live_sessions (topic channel : string) (limit : nat) (t : LiveTables) : list LiveSessionProjectionRow :=
  list_live_sessions topic channel false limit t.
Definition list_channel_live_now_sessions (topic channel : string) (limit : nat) (t : LiveTables) : list LiveSessionProjectionRow :=
  list_live_sessions topic channel true limit t.
Definition session_in_topic (topic session : string) (t : LiveTables) : option LiveSessionProjectionRow :=
  r ← live_session_rows t !! session; if bool_decide (ls_topic_id r = topic) then Some r else None.
Definition live_session_channel (topic session : string) (t : LiveTables) : option string := ls_channel_id <$> session_in_topic topic session t.
Definition get_live_session (topic session : string) (t : LiveTables) : option LiveSessionProjectionRow :=
  counted (live_presence t) <$> session_in_topic topic session t.

Definition with_presence (f : LivePresence -> LivePresence) (t : LiveTables) : LiveTables :=
  {| live_session_rows := live_session_rows t; live_session_index := live_session_index t; live_presence := f (live_presence t) |}.
Definition upsert_live_presence (topic channel session author : string) (expires_at updated_at : Z) : LiveTables -> LiveTables :=
  with_presence <[(topic, (channel, (session, author))) := (expires_at, updated_at)]>.
Definition clear_expired_live_presence (now : Z) : LiveTables -> LiveTables :=
  with_presence (filter (fun e : PresenceKey * (Z * Z) => now < e.2.1)).
Definition clear_topic_live_presence (topic : string) : LiveTables -> LiveTables :=
  with_presence (filter (fun e : PresenceKey * (Z * Z) => e.1.1 <> topic)).

#[local] Abbreviation live_filed := (filed ls_session_id ls_scope ls_started_at).
Definition live_wf (t : LiveTables) : Prop := live_filed (live_session_rows t) (live_session_index t).

Inductive LiveOp :=
| UpsertSession (r : LiveSessionProjectionRow)
| UpsertPresence (topic channel session author : string) (expires_at updated_at : Z)
| ClearExpired (now : Z)
| ClearTopic (topic : string).
Definition live_step (t : LiveTables) (op : LiveOp) : LiveTables :=
  match op with
  | UpsertSession r => upsert_live_session_cache r t
  | UpsertPresence a b c d e u => upsert_live_presence a b c d e u t
  | ClearExpired now => clear_expired_live_presence now t
  | ClearTopic topic => clear_topic_live_presence topic t
  end.
Lemma empty_filed {Row} (id : Row -> string) scope_of at_ : filed id scope_of at_ ∅ ∅.
Proof. split; [done| |done]. intros s k. rewrite lookup_empty. cbn. split; [set_solver|]. by intros (r & Hr%lookup_empty_Some & _). Qed.
Lemma live_step_wf t op : live_wf t -> live_wf (live_step t op).
Proof.
  intros Hwf. destruct op as [r| | |]; cbn [live_step]; [|exact Hwf..]. unfold upsert_live_session_cache. case_match; [done|].
  unfold live_wf. cbn. by apply refile_filed.
Qed.
Lemma live_run_wf ops : live_wf (foldl live_step no_live ops).
Proof.
  assert (H0 : live_wf no_live) by apply empty_filed. revert H0. generalize no_live.
  induction ops as [|op ops IH]; intros t Hwf; cbn; [done|]. by apply IH, live_step_wf.
Qed.

(** The list of a channel is the newest of its sessions, counted, whatever happened before. *)
Lemma list_live_exact topic channel live_now limit t :
  live_wf t ->
  list_live_sessions topic channel live_now limit t
  = counted (live_presence t) <$>
      take limit (List.filter (fun r => negb live_now || bool_decide (ls_status r = Live))
                    (scope_rows ls_session_id ls_scope ls_started_at (topic, channel) (live_session_rows t))).
Proof.
  intros Hwf. unfold list_live_sessions. destruct limit as [|limit]; [done|]. cbn [Nat.eqb].
  rewrite (index_entries_exact ls_session_id ls_scope ls_started_at _ _ _ Hwf), read_entries; [done|].
  intros r Hr. by apply (elem_of_scope_rows ls_session_id ls_scope ls_started_at _ _ _ _ Hwf) in Hr as [? _].
Qed.

(** Revisions of a session only go up. *)
Lemma upsert_live_monotone r t k p :
  live_session_rows t !! k = Some p ->
  exists p', live_session_rows (upsert_live_session_cache r t) !! k = Some p' /\ ls_revision p <= ls_revision p'.
Proof.
  intros Hp. unfold upsert_live_session_cache. case_match eqn:E; [exists p; split; [done|lia]|]. cbn.
  destruct (decide (ls_session_id r = k)) as [<-|]; [|exists p; rewrite lookup_insert_ne by done; split; [done|lia]].
  rewrite Hp in E. apply Z.leb_gt in E. exists r. rewrite lookup_insert_eq. split; [done|lia].
Qed.

(** A viewer who has lapsed is not counted once the lapsed are cleared. *)
Lemma cleared_presence now t k v :
  live_presence (clear_expired_live_presence now t) !! k = Some v <-> live_presence t !! k = Some v /\ now < v.1.
Proof. cbn. by rewrite map_lookup_filter_Some. Qed.

(** *** Game rooms.  The state of a Dome in a room is carried along unread. *)
Section rooms.
Context {MetaverseRoomStateV1 : Type}.
Record GameRoomProjectionRow := {
  gr_room_id : string;
  gr_score_revision : option Z;
  gr_topic_id : string;
  gr_channel_id : string;
  gr_host_pubkey : string;
  gr_title : string;
  gr_description : string;
  gr_status : GameRoomStatus;
  gr_phase_label : option string;
  gr_scores : list GameScoreEntry;
  gr_room_kind : GameRoomKind;
  gr_metaverse : option MetaverseRoomStateV1;
  gr_action : option ActionSessionV1;
  gr_updated_at : Z;
  gr_source_replica_id : string;
  gr_source_key : string;
  gr_manifest_blob_hash : string;
  gr_derived_at : Z;
  gr_projection_version : Z
}.
Record GameTables := { game_room_rows : gmap string GameRoomProjectionRow; game_room_index : ProjectionIndex }.
Definition no_games : GameTables := {| game_room_rows := ∅; game_room_index := ∅ |}.

(** The rooms of an application are filed in a scope of their own, with a NUL before its id. *)
Definition action_index_channel (channel application : string) : string :=
  String.append channel (String.append (String "000" EmptyString) application).
Definition game_room_index_channel (r : GameRoomProjectionRow) : string :=
  match gr_action r with Some a => action_index_channel (gr_channel_id r) (as_application_id a) | None => gr_channel_id r end.
Definition gr_scope (r : GameRoomProjectionRow) : Scope := (gr_topic_id r, game_room_index_channel r).
Definition upsert_game_room_cache (r : GameRoomProjectionRow) (t : GameTables) : GameTables :=
  if match game_room_rows t !! gr_room_id r with
     | Some previous => match gr_score_revision previous, gr_score_revision r with Some p, Some n => n <=? p | _, _ => false end
     | None => false
     end then t
  else {| game_room_rows := <[gr_room_id r := r]> (game_room_rows t);
          game_room_index := refile gr_room_id gr_scope gr_updated_at r (game_room_rows t) (game_room_index t) |}.
Definition list_channel_game_rooms (topic channel : string) (limit : nat) (t : GameTables) : list GameRoomProjectionRow :=
  if (limit =? 0)%nat then []
  else omap (fun k : Z * string => game_room_rows t !! k.2) (take limit (index_entries (topic, channel) (game_room_index t))).
Definition list_channel_action_rooms (topic channel application : string) (before : option (Z * string)) (limit : nat) (t : GameTables)
    : list GameRoomProjectionRow :=
  if str_is_empty application then []
  else omap (fun k : Z * string => game_room_rows t !! k.2)
         (take limit (List.filter (fun k => match before with None => true | Some b => rust_ltb k b end)
                        (index_entries (topic, action_index_channel channel application) (game_room_index t)))).
Definition get_game_room (topic room : string) (t : GameTables) : option GameRoomProjectionRow :=
  r ← game_room_rows t !! room; if bool_decide (gr_topic_id r = topic) then Some r else None.

#[local] Abbreviation game_filed := (filed gr_room_id gr_scope gr_updated_at).
Definition game_wf (t : GameTables) : Prop := game_filed (game_room_rows t) (game_room_index t).
Lemma game_run_wf rs : game_wf (foldl (fun t r => upsert_game_room_cache r t) no_games rs).
Proof.
  assert (H0 : game_wf no_games) by apply empty_filed. revert H0. generalize no_games.
  induction rs as [|r rs IH]; intros t Hwf; cbn; [done|]. apply IH. unfold upsert_game_room_cache. case_match; [done|].
  unfold game_wf. cbn. by apply refile_filed.
Qed.

Lemma rows_of_entries topic channel (f : list (Z * string) -> list (Z * string)) (g : list GameRoomProjectionRow -> list GameRoomProjectionRow) t :
  game_wf t -> (forall l, f (entry gr_room_id gr_updated_at <$> l) = entry gr_room_id gr_updated_at <$> g l) ->
  (forall l r, r ∈ g l -> r ∈ l) ->
  omap (fun k : Z * string => game_room_rows t !! k.2) (f (index_entries (topic, channel) (game_room_index t)))
  = g (scope_rows gr_room_id gr_scope gr_updated_at (topic, channel) (game_room_rows t)).
Proof.
  intros Hwf Hfg Hsub. rewrite (index_entries_exact gr_room_id gr_scope gr_updated_at _ _ _ Hwf), Hfg.
  apply read_entries. intros r Hr%Hsub. by apply (elem_of_scope_rows gr_room_id gr_scope gr_updated_at _ _ _ _ Hwf) in Hr as [? _].
Qed.

(** The list of a channel is the newest rooms of its scope, and the rooms of an application the
    page of its scope after the cursor. *)
Lemma list_game_rooms_exact topic channel limit t :
  game_wf t ->
  list_channel_game_rooms topic channel limit t
  = take limit (scope_rows gr_room_id gr_scope gr_updated_at (topic, channel) (game_room_rows t)).
Proof.
  intros Hwf. unfold list_channel_game_rooms. destruct limit as [|limit]; [done|]. cbn [Nat.eqb].
  apply (rows_of_entries _ _ (take (S limit)) (take (S limit))); [done| |].
  - intros l. by rewrite fmap_take.
  - intros l r Hr. eapply elem_of_sublist; [exact Hr | apply sublist_take].
Qed.
Lemma list_action_rooms_exact topic channel application before limit t :
  game_wf t -> application <> EmptyString ->
  list_channel_action_rooms topic channel application before limit t
  = Paging.page (entry gr_room_id gr_updated_at) (fun a b => rust_ltb b a) before limit
      (scope_rows gr_room_id gr_scope gr_updated_at (topic, action_index_channel channel application) (game_room_rows t)).
Proof.
  intros Hwf Ha. unfold list_channel_action_rooms. destruct application as [|c application]; [done|]. cbn [str_is_empty].
  apply (rows_of_entries _ _ (fun l => take limit (List.filter _ l)) (Paging.page _ _ before limit)); [done| |].
  - intros l. unfold Paging.page. rewrite TimedTable.filter_fmap, fmap_take. by destruct before.
  - intros l r Hr. by eapply Paging.elem_of_page.
Qed.

(** In a channel whose name has no NUL, plain rooms and rooms of an application do not mix. *)
Lemma scopes_apart channel channel' application :
  lacks "000" channel' = true -> action_index_channel channel application <> channel'.
Proof.
  intros Hl <-. unfold action_index_channel, lacks in Hl. induction channel as [|c channel IH]; cbn in Hl; [done|].
  apply andb_true_iff in Hl as [_ Hl]. by apply IH.
Qed.
End rooms.
Arguments GameRoomProjectionRow : clear implicits.
Arguments GameTables : clear implicits.

(** *** Projections of Domes: the last one written stands. *)
Record DomeConnectionProjectionRow := {
  dc_context_id : string;
  dc_topic_id : string;
  dc_channel_id : string;
  dc_snapshot_json : string;
  dc_topology_digest : string;
  dc_derived_at : Z;
  dc_projection_version : Z
}.
Record DomeHostingProjectionRow := {
  dh_instance_id : string;
  dh_context_id : string;
  dh_topic_id : string;
  dh_channel_id : string;
  dh_state_json : string;
  dh_lease_epoch : option Z;
  dh_session_id : option string;
  dh_derived_at : Z;
  dh_projection_version : Z
}.
Definition upsert_dome_connection_projection (r : DomeConnectionProjectionRow) (m : gmap string DomeConnectionProjectionRow)
    : gmap string DomeConnectionProjectionRow := <[dc_context_id r := r]> m.
Definition get_dome_connection_projection (context_id : string) (m : gmap string DomeConnectionProjectionRow)
    : option DomeConnectionProjectionRow := m !! context_id.
Definition upsert_dome_hosting_projection (r : DomeHostingProjectionRow) (m : gmap string DomeHostingProjectionRow)
    : gmap string DomeHostingProjectionRow := <[dh_instance_id r := r]> m.
Definition get_dome_hosting_projection (instance_id : string) (m : gmap string DomeHostingProjectionRow)
    : option DomeHostingProjectionRow := m !! instance_id.
End LiveGame.

(** ** Timelines, threads and what depends on posts (memory/projections.rs, memory/observations.rs, pagination.rs) *)
Module Projections.
Definition ADULT_CONTENT_LABEL : string := "adult".
Definition has_adult_content_label (labels : list string) : bool := existsb (fun l => bool_decide (l = ADULT_CONTENT_LABEL)) labels.
Definition adult_media_hashes_for_row (r : ObjectProjectionRow) : list string :=
  (if has_adult_content_label (op_content_labels r) then asset_hash <$> op_attachments r else [])
  ++ match op_repost_of r with
     | Some s => if has_adult_content_label (rs_content_labels s) then asset_hash <$> rs_attachments s else []
     | None => []
     end.

Record ContentObservationRow := {
  co_subject_kind : string;
  co_subject_id : string;
  co_node_base_url : string;
  co_capability : string;
  co_observed_at : Z
}.
#[local] Abbreviation ObservationKey := (string * (string * (string * string)))%type.

Section tables.
Context {MetaverseRoomStateV1 : Type}.
Record ProjectionTables := {
  object_projection_rows : gmap string ObjectProjectionRow;
  adult_media_hashes : gset string;
  live : LiveGame.LiveTables;
  games : LiveGame.GameTables MetaverseRoomStateV1;
  reactions : gmap (string * (string * string)) Bookmarks.ReactionProjectionRow;
  observations : gmap ObservationKey ContentObservationRow
}.
Definition no_projections : ProjectionTables :=
  {| object_projection_rows := ∅; adult_media_hashes := ∅; live := LiveGame.no_live; games := LiveGame.no_games; reactions := ∅; observations := ∅ |}.

Definition with_objects (o : gmap string ObjectProjectionRow) (a : gset string) (t : ProjectionTables) : ProjectionTables :=
  {| object_projection_rows := o; adult_media_hashes := a; live := live t; games := games t; reactions := reactions t; observations := observations t |}.
Definition put_object_projections (rows : list ObjectProjectionRow) (t : ProjectionTables) : ProjectionTables :=
  foldl (fun t r => with_objects (<[op_object_id r := r]> (object_projection_rows t))
                      (list_to_set (adult_media_hashes_for_row r) ∪ adult_media_hashes t) t) t rows.
Definition put_object_projection (r : ObjectProjectionRow) (t : ProjectionTables) : ProjectionTables := put_object_projections [r] t.
Definition mark_adult_media_hashes (hashes : list string) (t : ProjectionTables) : ProjectionTables :=
  with_objects (object_projection_rows t) (list_to_set hashes ∪ adult_media_hashes t) t.
Definition is_adult_media_hash (hash : string) (t : ProjectionTables) : bool := bool_decide (hash ∈ adult_media_hashes t).
Definition get_object_projection (id : string) (t : ProjectionTables) : option ObjectProjectionRow := object_projection_rows t !! id.

(** Starting again from the documents: the other projections are emptied, and observations of
    posts that are gone are dropped. *)
Definition rebuild_object_projections (rows : list ObjectProjectionRow) (t : ProjectionTables) : ProjectionTables :=
  let t' := put_object_projections rows (with_objects ∅ ∅ t) in
  {| object_projection_rows := object_projection_rows t'; adult_media_hashes := adult_media_hashes t'; live := LiveGame.no_live;
     games := LiveGame.no_games; reactions := ∅;
     observations := filter (fun e => co_subject_kind e.2 <> "post"%string \/ co_subject_id e.2 ∈ op_object_id <$> rows) (observations t) |}.

(** [iter] is the order in which the hash map is walked. *)
Definition find_author_reposts_of (iter : gmap string ObjectProjectionRow -> list ObjectProjectionRow) (topic author source : string) (limit : nat)
    (t : ProjectionTables) : list ObjectProjectionRow :=
  take limit (sort_by (fun l r => op_created_at r <=? op_created_at l)
    (List.filter (fun r => bool_decide (op_object_kind r = "repost"%string) && bool_decide (op_topic_id r = topic)
                           && bool_decide (op_author_pubkey r = author)
                           && match op_repost_of r with Some s => bool_decide (rs_source_object_id s = source) | None => false end)
       (iter (object_projection_rows t)))).

(** *** Pages *)
Record ObjectPage := { pg_items : list ObjectProjectionRow; pg_next : option TimelineCursor }.
Definition object_cursor (r : ObjectProjectionRow) : TimelineCursor := {| tc_created_at := op_created_at r; tc_object_id := op_object_id r |}.
Definition page_of (limit : nat) (filtered : list ObjectProjectionRow) : ObjectPage :=
  let filtered := take limit filtered in
  {| pg_items := filtered; pg_next := if (length filtered =? limit)%nat then object_cursor <$> last filtered else None |}.
Definition apply_desc_projection_cursor (l : list ObjectProjectionRow) (cursor : option TimelineCursor) (limit : nat) : ObjectPage :=
  page_of limit (List.filter (fun r => match cursor with
    | None => true
    | Some c => (op_created_at r <? tc_created_at c) || ((op_created_at r =? tc_created_at c) && rust_ltb (op_object_id r) (tc_object_id c))
    end) l).
Definition apply_asc_projection_cursor (l : list ObjectProjectionRow) (cursor : option TimelineCursor) (limit : nat) : ObjectPage :=
  page_of limit (List.filter (fun r => match cursor with
    | None => true
    | Some c => (tc_created_at c <? op_created_at r) || ((op_created_at r =? tc_created_at c) && rust_ltb (tc_object_id c) (op_object_id r))
    end) l).

Definition object_key (r : ObjectProjectionRow) : Z * string := (op_created_at r, op_object_id r).
Definition newest_first (f : ObjectProjectionRow -> bool) (t : ProjectionTables) : list ObjectProjectionRow :=
  sort_by (fun l r => rust_leb (object_key r) (object_key l)) (List.filter f (map_to_list (object_projection_rows t)).*2).
Definition list_topic_timeline (topic : string) (cursor : option TimelineCursor) (limit : nat) (t : ProjectionTables) : ObjectPage :=
  apply_desc_projection_cursor (newest_first (fun r => bool_decide (op_topic_id r = topic)) t) cursor limit.
Definition list_topic_timeline_in_channel (topic channel : string) (cursor : option TimelineCursor) (limit : nat) (t : ProjectionTables) : ObjectPage :=
  apply_desc_projection_cursor (newest_first (fun r => bool_decide (op_topic_id r = topic) && bool_decide (op_channel_id r = channel)) t) cursor limit.
Definition list_author_timeline_in_channel (author channel : string) (cursor : option TimelineCursor) (limit : nat) (t : ProjectionTables) : ObjectPage :=
  apply_desc_projection_cursor (newest_first (fun r => bool_decide (op_author_pubkey r = author) && bool_decide (op_channel_id r = channel)) t) cursor limit.

(** *** Threads: the root first, then the answers, oldest first *)
Definition is_root (root : string) (r : ObjectProjectionRow) : bool := bool_decide (op_object_id r = root).
Definition in_thread (topic root : string) (allowed : option string) (r : ObjectProjectionRow) : bool :=
  bool_decide (op_topic_id r = topic)
  && match allowed with None => true | Some c => bool_decide (op_channel_id r = c) end
  && (is_root root r || bool_decide (op_root_object_id r = Some root)).
Definition thread_key (root : string) (r : ObjectProjectionRow) : Z * (Z * string) := (Z.b2z (negb (is_root root r)), object_key r).
Definition thread_rows (topic root : string) (allowed : option string) (t : ProjectionTables) : list ObjectProjectionRow :=
  sort_by (fun l r => rust_leb (thread_key root l) (thread_key root r))
    (List.filter (in_thread topic root allowed) (map_to_list (object_projection_rows t)).*2).
Definition thread_page (l : list ObjectProjectionRow) (root : string) (cursor : option TimelineCursor) (limit : nat) : ObjectPage :=
  match cursor with
  | None => apply_asc_projection_cursor l None limit
  | Some c => apply_asc_projection_cursor (List.filter (fun r => negb (is_root root r)) l)
                (if bool_decide (tc_object_id c = root) then None else Some c) limit
  end.
Definition list_thread (topic root : string) (cursor : option TimelineCursor) (limit : nat) (t : ProjectionTables) : ObjectPage :=
  thread_page (thread_rows topic root None t) root cursor limit.
Definition list_thread_filtered (topic root : string) (allowed : option string) (cursor : option TimelineCursor) (limit : nat)
    (t : ProjectionTables) : ObjectPage :=
  thread_page (thread_rows topic root allowed t) root cursor limit.

(** *** Observations of posts and profiles by community nodes *)
Definition CONTENT_OBSERVATION_RETENTION_MS : Z := 90 * 24 * 60 * 60 * 1000.
Definition MAX_CONTENT_OBSERVATIONS : nat := 2048.
Definition observation_key (r : ContentObservationRow) : ObservationKey :=
  (co_subject_kind r, (co_subject_id r, (co_node_base_url r, co_capability r))).
Definition observed_again (at_ : Z) (r : ContentObservationRow) : ContentObservationRow :=
  {| co_subject_kind := co_subject_kind r; co_subject_id := co_subject_id r; co_node_base_url := co_node_base_url r;
     co_capability := co_capability r; co_observed_at := Z.max (co_observed_at r) at_ |}.
Definition retain_since (cutoff : Z) (m : gmap ObservationKey ContentObservationRow) : gmap ObservationKey ContentObservationRow :=
  filter (fun e : ObservationKey * ContentObservationRow => cutoff <= co_observed_at e.2) m.
Definition with_observations (m : gmap ObservationKey ContentObservationRow) (t : ProjectionTables) : ProjectionTables :=
  {| object_projection_rows := object_projection_rows t; adult_media_hashes := adult_media_hashes t; live := live t; games := games t;
     reactions := reactions t; observations := m |}.

(** [iter] is the order in which the hash map is walked; only rows of the same time depend on it. *)
Definition drop_oldest (iter : gmap ObservationKey ContentObservationRow -> list (ObservationKey * ContentObservationRow))
    (m : gmap ObservationKey ContentObservationRow) : gmap ObservationKey ContentObservationRow :=
  if (MAX_CONTENT_OBSERVATIONS <? size m)%nat then
    foldl (fun m e => delete e.1 m) m
      (take (size m - MAX_CONTENT_OBSERVATIONS) (sort_by (fun a b => co_observed_at a.2 <=? co_observed_at b.2) (iter m)))
  else m.
Definition put_content_observation (iter : gmap ObservationKey ContentObservationRow -> list (ObservationKey * ContentObservationRow))
    (profiles : gmap string Social.Profile) (r : ContentObservationRow) (t : ProjectionTables) : bool * ProjectionTables :=
  let subject_exists :=
    if bool_decide (co_subject_kind r = "post"%string) then bool_decide (is_Some (object_projection_rows t !! co_subject_id r))
    else if bool_decide (co_subject_kind r = "profile"%string) then bool_decide (is_Some (profiles !! co_subject_id r))
    else false in
  if subject_exists then
    let cutoff := i64_saturating_sub (co_observed_at r) CONTENT_OBSERVATION_RETENTION_MS in
    let r' := match observations t !! observation_key r with Some current => observed_again (co_observed_at r) current | None => r end in
    (true, with_observations (drop_oldest iter (retain_since cutoff (<[observation_key r := r']> (observations t)))) t)
  else (false, t).
Definition list_content_observations_at (kind subject : string) (now : Z) (t : ProjectionTables) : list ContentObservationRow * ProjectionTables :=
  let m := retain_since (i64_saturating_sub now CONTENT_OBSERVATION_RETENTION_MS) (observations t) in
  (sort_by (fun l r => rust_leb (co_observed_at r, (co_node_base_url l, co_capability l)) (co_observed_at l, (co_node_base_url r, co_capability r)))
     (List.filter (fun r => bool_decide (co_subject_kind r = kind) && bool_decide (co_subject_id r = subject)) (map_to_list m).*2),
   with_observations m t).

Section observations.
Context (iter : gmap ObservationKey ContentObservationRow -> list (ObservationKey * ContentObservationRow)).
Context (iter_perm : forall m, iter m ≡ₚ map_to_list m).

Lemma observations_delete_lookup (l : list (ObservationKey * ContentObservationRow)) (m : gmap ObservationKey ContentObservationRow) k r :
  foldl (fun m e => delete e.1 m) m l !! k = Some r <-> m !! k = Some r /\ k ∉ l.*1.
Proof.
  revert m. induction l as [|e l IH]; intros m; cbn; [set_solver|]. rewrite IH, lookup_delete_Some, not_elem_of_cons. naive_solver.
Qed.
Lemma observations_delete_size (l : list (ObservationKey * ContentObservationRow)) (m : gmap ObservationKey ContentObservationRow) :
  NoDup l.*1 -> (forall e, e ∈ l -> m !! e.1 = Some e.2) -> size (foldl (fun m e => delete e.1 m) m l) = (size m - length l)%nat.
Proof.
  revert m. induction l as [|e l IH]; intros m Hd Hin; cbn; [lia|]. cbn in Hd. apply NoDup_cons in Hd as [He Hd]. rewrite IH.
  - rewrite map_size_delete_Some by (exists e.2; apply Hin, list_elem_of_here). lia.
  - done.
  - intros x Hx. rewrite lookup_delete_ne; [apply Hin; by apply list_elem_of_further|].
    intros Heq. apply He. rewrite Heq. by apply list_elem_of_fmap_2.
Qed.

(** At most [MAX_CONTENT_OBSERVATIONS] rows are kept, and what is dropped is not newer than what is kept. *)
Lemma drop_oldest_spec m :
  (size (drop_oldest iter m) <= MAX_CONTENT_OBSERVATIONS)%nat /\ drop_oldest iter m ⊆ m
  /\ forall k r k' r', m !! k = Some r -> drop_oldest iter m !! k = None -> drop_oldest iter m !! k' = Some r' ->
       co_observed_at r <= co_observed_at r'.
Proof.
  unfold drop_oldest. destruct (MAX_CONTENT_OBSERVATIONS <? size m)%nat eqn:E.
  2:{ apply Nat.ltb_ge in E. split_and!; [done..|]. congruence. }
  apply Nat.ltb_lt in E. set (le := fun a b : ObservationKey * ContentObservationRow => co_observed_at a.2 <=? co_observed_at b.2).
  set (s := sort_by le (iter m)). assert (Hperm : s ≡ₚ map_to_list m) by (unfold s; by rewrite sort_by_perm, iter_perm).
  assert (Hs : StronglySorted (fun a b => le a b = true) s) by (apply sort_by_sorted; unfold le; intros *; rewrite ?Z.leb_gt, ?Z.leb_le; lia).
  assert (Hlen : length s = size m) by (rewrite Hperm; apply length_map_to_list).
  assert (Hkeys : NoDup s.*1) by (rewrite Hperm; apply NoDup_fst_map_to_list).
  assert (Hin : forall e, e ∈ s <-> m !! e.1 = Some e.2) by (intros [k r]; by rewrite Hperm, elem_of_map_to_list).
  set (n := (size m - MAX_CONTENT_OBSERVATIONS)%nat). split_and!.
  - rewrite observations_delete_size, length_take, Hlen; [lia| |].
    + eapply sublist_NoDup; [exact Hkeys | apply fmap_sublist, sublist_take].
    + intros e He. apply Hin. eapply elem_of_sublist; [exact He | apply sublist_take].
  - apply map_subseteq_spec. by intros k r [Hk _]%observations_delete_lookup.
  - intros k r k' r' Hk Hnone [Hk' Hout]%observations_delete_lookup.
    assert (Htaken : (k, r) ∈ take n s).
    { assert (Hks : (k, r) ∈ take n s ++ drop n s) by (rewrite take_drop; by apply Hin).
      apply elem_of_app in Hks as [?|Hd]; [done|]. exfalso.
      assert (Hnot : k ∉ (take n s).*1).
      { rewrite <- (take_drop n s), fmap_app in Hkeys. apply NoDup_app in Hkeys as (_ & Hdis & _). intros Hkt.
        apply (Hdis k Hkt). apply list_elem_of_fmap. by exists (k, r). }
      assert (Hsome : foldl (fun m e => delete e.1 m) m (take n s) !! k = Some r) by by apply observations_delete_lookup. congruence. }
    assert (Hkept : (k', r') ∈ drop n s).
    { assert (Hks : (k', r') ∈ take n s ++ drop n s) by (rewrite take_drop; by apply Hin).
      apply elem_of_app in Hks as [Ht|?]; [|done]. exfalso. apply Hout. apply list_elem_of_fmap. by exists (k', r'). }
    rewrite <- (take_drop n s) in Hs. assert (Hle := StronglySorted_app_1_elem_of _ _ _ _ _ Hs Htaken Hkept). unfold le in Hle. cbn in Hle. lia.
Qed.

(** An observation of something that is not here is refused; otherwise the table stays bounded
    and holds nothing that had lapsed when it was made. *)
Lemma put_observation_bounded profiles r t :
  let '(ok, t') := put_content_observation iter profiles r t in
  (ok = true -> (size (observations t') <= MAX_CONTENT_OBSERVATIONS)%nat
     /\ forall k x, observations t' !! k = Some x -> i64_saturating_sub (co_observed_at r) CONTENT_OBSERVATION_RETENTION_MS <= co_observed_at x)
  /\ (ok = false -> t' = t).
Proof.
  unfold put_content_observation. destruct (if bool_decide (co_subject_kind r = "post"%string) then _ else _); [|done]. split; [|done]. intros _. cbn [observations with_observations].
  set (m := retain_since _ _). destruct (drop_oldest_spec m) as (Hs & Hsub & _). split; [done|].
  intros k x Hx. assert (Hm : m !! k = Some x) by by eapply lookup_weaken. by apply map_lookup_filter_Some in Hm as [_ Hc].
Qed.
End observations.

(** *** Posts are filed under their ids, and media of adult posts is marked *)
Record objects_wf (t : ProjectionTables) : Prop := {
  ob_keyed : map_Forall (fun k r => op_object_id r = k) (object_projection_rows t);
  ob_adult : forall k r h, object_projection_rows t !! k = Some r -> h ∈ adult_media_hashes_for_row r -> is_adult_media_hash h t = true
}.
Inductive ObjectOp :=
| PutObjects (rows : list ObjectProjectionRow)
| MarkAdult (hashes : list string)
| Rebuild (rows : list ObjectProjectionRow).
Definition object_step (t : ProjectionTables) (op : ObjectOp) : ProjectionTables :=
  match op with
  | PutObjects rows => put_object_projections rows t
  | MarkAdult hashes => mark_adult_media_hashes hashes t
  | Rebuild rows => rebuild_object_projections rows t
  end.

Lemma put_objects_wf rows t : objects_wf t -> objects_wf (put_object_projections rows t).
Proof.
  unfold put_object_projections. revert t. induction rows as [|r rows IH]; intros t Hwf; cbn; [done|]. apply IH.
  destruct Hwf as [Hk Ha]. split; cbn; [by apply map_Forall_insert_2|].
  intros k x h Hx Hh. unfold is_adult_media_hash in *. apply bool_decide_eq_true. cbn.
  apply lookup_insert_Some in Hx as [[_ <-]|[_ Hx]]; [set_solver|].
  specialize (Ha k x h Hx Hh). apply bool_decide_eq_true in Ha. set_solver.
Qed.
Lemma object_step_wf t op : objects_wf t -> objects_wf (object_step t op).
Proof.
  intros Hwf. destruct op as [rows|hashes|rows]; cbn [object_step].
  - by apply put_objects_wf.
  - destruct Hwf as [Hk Ha]. split; [done|]. intros k r h Hr Hh. specialize (Ha k r h Hr Hh). unfold is_adult_media_hash in *.
    apply bool_decide_eq_true in Ha. apply bool_decide_eq_true. cbn. set_solver.
  - assert (H : objects_wf (put_object_projections rows (with_objects ∅ ∅ t))) by (apply put_objects_wf; split; [done|]; cbn; intros k r h; by rewrite lookup_empty).
    destruct H as [Hk Ha]. by split.
Qed.
Lemma object_run_wf ops : objects_wf (foldl object_step no_projections ops).
Proof.
  assert (H0 : objects_wf no_projections) by (split; [done|]; cbn; intros k r h; by rewrite lookup_empty).
  revert H0. generalize no_projections. induction ops as [|op ops IH]; intros t Hwf; cbn; [done|]. by apply IH, object_step_wf.
Qed.

(** *** Reading a timeline *)
Lemma values_nodup (f : ObjectProjectionRow -> bool) t :
  objects_wf t -> NoDup (object_key <$> List.filter f (map_to_list (object_projection_rows t)).*2).
Proof. intros Hwf. apply (Paging.NoDup_filter_values _ op_object_id); [apply Hwf|]. unfold object_key. congruence. Qed.

Lemma pair_ltb a b c d : rust_ltb (a, b) (c, d) = (a <? c) || ((a =? c) && rust_ltb (b : string) d).
Proof.
  unfold rust_ltb, rust_cmp, prod_rust_ord, rust_cmp, Z_rust_ord. cbn.
  destruct (Z.compare_spec a c) as [->|E|E]; [by rewrite Z.ltb_irrefl, Z.eqb_refl | by rewrite (proj2 (Z.ltb_lt _ _) E)|].
  by rewrite (proj2 (Z.ltb_ge _ _)), (proj2 (Z.eqb_neq _ _)) by lia.
Qed.
Definition timeline_cursor_key (c : TimelineCursor) : Z * string := (tc_created_at c, tc_object_id c).
Lemma desc_is_page l c limit :
  apply_desc_projection_cursor l c limit
  = (let p := Paging.page object_key (fun a b => rust_ltb b a) (timeline_cursor_key <$> c) limit l in
     {| pg_items := p; pg_next := if (length p =? limit)%nat then object_cursor <$> last p else None |}).
Proof.
  unfold apply_desc_projection_cursor, page_of, Paging.page. cbv zeta. rewrite (filter_same _ (Paging.beyond object_key (fun a b => rust_ltb b a) (timeline_cursor_key <$> c))); [done|].
  intros r _. destruct c as [c|]; [|done]. cbn. unfold object_key, timeline_cursor_key. by rewrite pair_ltb.
Qed.
Lemma asc_is_page l c limit :
  apply_asc_projection_cursor l c limit
  = (let p := Paging.page object_key rust_ltb (timeline_cursor_key <$> c) limit l in
     {| pg_items := p; pg_next := if (length p =? limit)%nat then object_cursor <$> last p else None |}).
Proof.
  unfold apply_asc_projection_cursor, page_of, Paging.page. cbv zeta. rewrite (filter_same _ (Paging.beyond object_key rust_ltb (timeline_cursor_key <$> c))); [done|].
  intros r _. destruct c as [c|]; [|done]. cbn. unfold object_key, timeline_cursor_key. by rewrite pair_ltb, Z.eqb_sym.
Qed.

(** A reader who asks for page after page. *)
Fixpoint walk (fuel : nat) (get : option TimelineCursor -> ObjectPage) (c : option TimelineCursor) : option (list ObjectProjectionRow) :=
  match fuel with
  | O => None
  | S fuel =>
      let p := get c in
      match pg_next p with
      | None => Some (pg_items p)
      | Some c => rest ← walk fuel get (Some c); Some (pg_items p ++ rest)
      end
  end.

Lemma newest_first_sorted f t : objects_wf t -> StronglySorted (fun a b => rust_ltb (object_key b) (object_key a) = true) (newest_first f t).
Proof. intros Hwf. by apply Paging.sort_by_strict_desc, values_nodup. Qed.
Lemma elem_of_newest_first f t r : objects_wf t -> r ∈ newest_first f t <-> get_object_projection (op_object_id r) t = Some r /\ f r = true.
Proof.
  intros Hwf. unfold newest_first, get_object_projection. rewrite elem_of_sort_by, Paging.elem_of_values. split; [|by intros [? ?]; eauto].
  intros [Hf [k Hr]]. assert (Hid := ob_keyed _ Hwf _ _ Hr). cbn in Hid. by subst k.
Qed.

Lemma walk_desc f limit t :
  objects_wf t -> (0 < limit)%nat ->
  walk (S (length (newest_first f t))) (fun c => apply_desc_projection_cursor (newest_first f t) c limit) None = Some (newest_first f t).
Proof.
  intros Hwf Hl.
  assert (Hw : forall fuel c, walk fuel (fun c => apply_desc_projection_cursor (newest_first f t) c limit) c
             = Paging.read_pages object_key (fun a b => rust_ltb b a) fuel (timeline_cursor_key <$> c) limit (newest_first f t)).
  { induction fuel as [|fuel IH]; intros c; [done|]. cbn [walk Paging.read_pages]. rewrite desc_is_page. cbn [pg_items pg_next].
    set (p := Paging.page _ _ _ _ _). unfold Paging.next. destruct (length p =? limit)%nat; [|done]. destruct (last p) as [x|]; [|done]. cbn. by rewrite IH. }
  rewrite Hw. apply (Paging.read_pages_all object_key (fun a b => rust_ltb b a)); [| |done|by apply newest_first_sorted|lia].
  - apply Paging.rust_ltb_irrefl.
  - intros x y z Hxy Hyz. by eapply Paging.rust_ltb_trans.
Qed.

(** *** Reading a thread *)
Definition root_row (topic root : string) (allowed : option string) (t : ProjectionTables) : option ObjectProjectionRow :=
  r ← get_object_projection root t; if in_thread topic root allowed r then Some r else None.
Definition replies (topic root : string) (allowed : option string) (t : ProjectionTables) : list ObjectProjectionRow :=
  sort_by (fun l r => rust_leb (object_key l) (object_key r))
    (List.filter (fun r => in_thread topic root allowed r && negb (is_root root r)) (map_to_list (object_projection_rows t)).*2).

Lemma replies_sorted topic root allowed t : objects_wf t -> StronglySorted (fun a b => rust_ltb (object_key a) (object_key b) = true) (replies topic root allowed t).
Proof. intros Hwf. by apply Paging.sort_by_strict, values_nodup. Qed.
Lemma elem_of_replies topic root allowed t r :
  objects_wf t ->
  r ∈ replies topic root allowed t <-> get_object_projection (op_object_id r) t = Some r /\ in_thread topic root allowed r = true /\ is_root root r = false.
Proof.
  intros Hwf. unfold replies, get_object_projection. rewrite elem_of_sort_by, Paging.elem_of_values, andb_true_iff, negb_true_iff. split.
  - intros [Hf [k Hr]]. assert (Hid := ob_keyed _ Hwf _ _ Hr). cbn in Hid. by subst k.
  - intros (Hr & Hf). eauto.
Qed.
Lemma root_row_some topic root allowed t r :
  objects_wf t -> root_row topic root allowed t = Some r <-> get_object_projection (op_object_id r) t = Some r /\ in_thread topic root allowed r = true /\ is_root root r = true.
Proof.
  intros Hwf. unfold root_row, get_object_projection, is_root. rewrite bool_decide_eq_true. split.
  - intros (x & Hx & Hr)%bind_Some. assert (Hid := ob_keyed _ Hwf _ _ Hx). cbn in Hid. case_match eqn:E; [|done]. injection Hr as <-. by rewrite Hid.
  - intros (Hr & Hi & <-). rewrite Hr. cbn. by rewrite Hi.
Qed.

(** The root is first and the answers follow in their order. *)
Lemma thread_rows_split topic root allowed t :
  objects_wf t -> thread_rows topic root allowed t = option_list (root_row topic root allowed t) ++ replies topic root allowed t.
Proof.
  intros Hwf. apply (Paging.sort_unique_by (thread_key root) rust_leb); [apply rust_leb_total|..].
  - apply Paging.sort_strict_by; [apply rust_leb_total | apply rust_leb_trans | apply rust_leb_antisym|].
    apply (Paging.NoDup_filter_values _ op_object_id); [apply Hwf|]. unfold thread_key, object_key. congruence.
  - apply StronglySorted_app_2.
    + intros a b Ha Hb. destruct (root_row topic root allowed t) as [r|] eqn:Er; cbn in Ha; [|by apply elem_of_nil in Ha].
      apply list_elem_of_singleton in Ha as ->. apply root_row_some in Er as (_ & _ & Hr); [|done]. apply elem_of_replies in Hb as (_ & _ & Hb); [|done].
      rewrite <- rust_ltb_leb. unfold thread_key. by rewrite Hr, Hb.
    + destruct (root_row topic root allowed t); cbn; repeat constructor.
    + assert (Hin : forall r, r ∈ replies topic root allowed t -> is_root root r = false) by (intros r Hr; by apply elem_of_replies in Hr as (_ & _ & ?)).
      revert Hin. induction (replies_sorted topic root allowed t Hwf) as [|x l Hs IH Hall]; intros Hin; constructor.
      * apply IH. intros r Hr. apply Hin. by apply list_elem_of_further.
      * rewrite Forall_forall in *. intros y Hy. rewrite <- rust_ltb_leb. unfold thread_key.
        rewrite (Hin x (list_elem_of_here x l)), (Hin y (list_elem_of_further _ _ _ Hy)). specialize (Hall y Hy).
        unfold rust_ltb, rust_cmp, prod_rust_ord in *. cbn in *. done.
  - intros r. unfold thread_rows. rewrite elem_of_sort_by, Paging.elem_of_values, elem_of_app, elem_of_replies by done.
    assert (Ho : r ∈ option_list (root_row topic root allowed t) <-> root_row topic root allowed t = Some r).
    { destruct (root_row topic root allowed t); cbn; [rewrite list_elem_of_singleton; naive_solver | split; [by intros ?%elem_of_nil | done]]. }
    rewrite Ho, root_row_some by done. unfold get_object_projection. split.
    + intros [Hf [k Hr]]. assert (Hid := ob_keyed _ Hwf _ _ Hr). cbn in Hid. subst k. destruct (is_root root r); tauto.
    + intros [(? & ? & _)|(? & ? & _)]; eauto.
Qed.

Section thread.
Context (topic root : string) (allowed : option string) (limit : nat) (t : ProjectionTables).
Context (Hwf : objects_wf t) (Hlimit : (0 < limit)%nat).
#[local] Abbreviation R := (replies topic root allowed t).
#[local] Abbreviation get := (fun c => list_thread_filtered topic root allowed c limit t).

Lemma replies_of_thread : List.filter (fun r => negb (is_root root r)) (thread_rows topic root allowed t) = R.
Proof using Hwf.
  rewrite thread_rows_split, List.filter_app by done. rewrite (filter_none _ (option_list _)).
  - rewrite (filter_same _ (fun _ => true)), Paging.filter_true; [done|].
    intros r (_ & _ & Hr)%elem_of_replies; [by rewrite Hr | done].
  - intros r Hr. destruct (root_row topic root allowed t) as [x|] eqn:E; [|by apply elem_of_nil in Hr].
    apply list_elem_of_singleton in Hr as ->. apply root_row_some in E as (_ & _ & Hx); [|done]. by rewrite Hx.
Qed.

#[local] Abbreviation read_at c := (if bool_decide (tc_object_id c = root) then None else Some (timeline_cursor_key c)).
Lemma thread_page_after c :
  list_thread_filtered topic root allowed (Some c) limit t
  = (let p := Paging.page object_key rust_ltb (read_at c) limit R in
     {| pg_items := p; pg_next := if (length p =? limit)%nat then object_cursor <$> last p else None |}).
Proof using Hwf.
  unfold list_thread_filtered, thread_page. rewrite replies_of_thread, asc_is_page.
  by replace (timeline_cursor_key <$> (if bool_decide (tc_object_id c = root) then None else Some c)) with (read_at c) by by case_bool_decide.
Qed.
Lemma thread_page_first :
  list_thread_filtered topic root allowed None limit t
  = (let p := take limit (thread_rows topic root allowed t) in
     {| pg_items := p; pg_next := if (length p =? limit)%nat then object_cursor <$> last p else None |}).
Proof using.
  unfold list_thread_filtered, thread_page. rewrite asc_is_page. unfold Paging.page. cbn [fmap option_fmap option_map].
  by rewrite Paging.filter_beyond_none.
Qed.

(** Behind the first page a reader reads the answers. *)
Lemma walk_replies fuel c : walk fuel get (Some c) = Paging.read_pages object_key rust_ltb fuel (read_at c) limit R.
Proof using Hwf Hlimit.
  revert c. induction fuel as [|fuel IH]; intros c; [done|]. cbn [walk Paging.read_pages]. rewrite !thread_page_after. cbn [pg_items pg_next].
  set (p := Paging.page _ _ _ _ _). unfold Paging.next. destruct (length p =? limit)%nat; [|done].
  destruct (last p) as [x|] eqn:Hx; [|done]. cbn. rewrite IH. cbn.
  assert (Hp : x ∈ p) by (apply last_Some in Hx as [l' ->]; set_solver).
  apply Paging.elem_of_page in Hp. apply elem_of_replies in Hp as (_ & _ & Hr); [|done]. apply bool_decide_eq_false in Hr.
  by rewrite bool_decide_false.
Qed.

Lemma walk_thread : walk (S (S (length (thread_rows topic root allowed t)))) get None = Some (thread_rows topic root allowed t).
Proof using Hwf Hlimit.
  remember (S (length (thread_rows topic root allowed t))) as fuel eqn:Hfuel. assert (Hsplit := thread_rows_split topic root allowed t Hwf).
  set (o := option_list (root_row topic root allowed t)) in *.
  assert (Ho : (length o <= 1)%nat /\ forall r, r ∈ o -> op_object_id r = root).
  { unfold o. destruct (root_row topic root allowed t) as [r|] eqn:E; cbn; (split; [lia|]).
    - intros x ->%list_elem_of_singleton. apply root_row_some in E as (_ & _ & Hr); [by apply bool_decide_eq_true in Hr | done].
    - by intros x ?%elem_of_nil. }
  destruct Ho as [Ho Hroot]. set (n := (limit - length o)%nat).
  assert (Hfirst : take limit (thread_rows topic root allowed t) = o ++ take n R) by (rewrite Hsplit, take_app, (take_ge o) by lia; done).
  cbn [walk]. rewrite !thread_page_first. cbn [pg_items pg_next]. rewrite Hfirst. destruct (length (o ++ take n R) =? limit)%nat eqn:E.
  - apply Nat.eqb_eq in E. destruct (last (o ++ take n R)) as [x|] eqn:Hx; cbn.
    + rewrite walk_replies. cbn. assert (Hlen : (length R < fuel)%nat) by (rewrite Hfuel, Hsplit, length_app; lia).
      rewrite (Paging.read_pages_from object_key rust_ltb) with (done_ := take n R) (rest := drop n R).
      * cbn. by rewrite <- app_assoc, take_drop, Hsplit.
      * apply Paging.rust_ltb_irrefl.
      * apply Paging.rust_ltb_trans.
      * done.
      * by apply replies_sorted.
      * by rewrite take_drop.
      * rewrite last_app in Hx. destruct (last (take n R)) as [y|] eqn:Hy.
        -- injection Hx as <-. assert (Hyr : y ∈ R). { eapply elem_of_sublist; [|apply sublist_take]. apply last_Some in Hy as [l' ->]. set_solver. }
           apply elem_of_replies in Hyr as (_ & _ & Hr); [|done]. apply bool_decide_eq_false in Hr. by rewrite bool_decide_false.
        -- rewrite bool_decide_true; [done|]. apply Hroot. apply last_Some in Hx as [l' ->]. set_solver.
      * rewrite length_drop. lia.
    + apply last_None in Hx. rewrite Hx in E. cbn in E. lia.
  - apply Nat.eqb_neq in E. rewrite <- Hfirst in *. rewrite length_take in E. f_equal. apply take_ge. lia.
Qed.
End thread.

(** C25: reading a thread page after page, with any limit of at least one, ends and shows the
    root first and then every answer of the thread in order of time, each once, although an
    answer can be dated before the root; the timeline of a channel is read as completely, newest
    first. *)
Theorem pages_are_complete ops limit :
  (0 < limit)%nat ->
  let t := foldl object_step no_projections ops in
  (forall topic root allowed, exists fuel,
     walk fuel (fun c => list_thread_filtered topic root allowed c limit t) None
       = Some (option_list (root_row topic root allowed t) ++ replies topic root allowed t))
  /\ (forall topic root allowed r, r ∈ replies topic root allowed t <->
       get_object_projection (op_object_id r) t = Some r /\ in_thread topic root allowed r = true /\ is_root root r = false)
  /\ (forall topic root allowed, StronglySorted (fun a b => rust_ltb (object_key a) (object_key b) = true) (replies topic root allowed t))
  /\ (forall topic channel, exists fuel l,
       walk fuel (fun c => list_topic_timeline_in_channel topic channel c limit t) None = Some l
       /\ StronglySorted (fun a b => rust_ltb (object_key b) (object_key a) = true) l
       /\ forall r, r ∈ l <-> get_object_projection (op_object_id r) t = Some r /\ op_topic_id r = topic /\ op_channel_id r = channel).
Proof.
  intros Hl t. assert (Hwf : objects_wf t) by apply object_run_wf. split_and!.
  - intros topic root allowed. eexists. rewrite <- thread_rows_split by done. by apply walk_thread.
  - intros. by apply elem_of_replies.
  - intros. by apply replies_sorted.
  - intros topic channel. eexists _, _. split_and!; [by apply walk_desc | by apply newest_first_sorted|].
    intros r. rewrite elem_of_newest_first by done. by rewrite andb_true_iff, !bool_decide_eq_true.
Qed.
End tables.
Arguments ProjectionTables : clear implicits.
End Projections.

(** ** Public topics that are kept (topic_retention.rs, memory/topic_retention.rs) *)
Module Retention.
Definition RETENTION_RETRY_LIMIT : Z := 4096.
Definition RETENTION_RETRY_DELAYS_MS : list Z := [60000; 10 * 60000; 60 * 60000; 6 * 60 * 60000; 24 * 60 * 60000].
Definition DEFAULT_RETENTION_DAYS : Z := 30.
Definition DEFAULT_RETENTION_CAPACITY_BYTES : Z := 10 * 2 ^ 30.

Record TopicRetentionLimits := { retention_days : Z; capacity_bytes : Z; used_bytes : Z }.
Record TopicRetentionRetry := { rt_object_kind : string; rt_object_id : string; rt_bucket : Z; rt_attempts : Z }.
Record TopicRetentionRow := { rr_topic_id : string; rr_retained_at : Z }.
Record TopicRetentionCursor := { rc_index_prefix : string; rc_bucket : Z; rc_created_at : Z; rc_object_id : string }.

#[local] Abbreviation CursorKey := (string * (string * Z))%type.
#[local] Abbreviation RetryKey := (string * (string * string))%type.
Record MemoryTopicRetention := {
  topics : gmap string (Z * Z);
  cursors : gmap CursorKey (Z * string);
  retries : gmap RetryKey (Z * (Z * Z));
  limits : option (Z * Z);
  days : gmap (string * Z) bool
}.
Definition no_retention : MemoryTopicRetention := {| topics := ∅; cursors := ∅; retries := ∅; limits := None; days := ∅ |}.

(** Iteration of a B-tree map: by key. *)
Definition map_iter {K V} `{Countable K, RustOrd K} (m : gmap K V) : list (K * V) := sort_by (fun a b => rust_leb a.1 b.1) (map_to_list m).

Definition with_tables (ts : gmap string (Z * Z)) (cs : gmap CursorKey (Z * string)) (rs : gmap RetryKey (Z * (Z * Z))) (ds : gmap (string * Z) bool)
    (t : MemoryTopicRetention) : MemoryTopicRetention :=
  {| topics := ts; cursors := cs; retries := rs; limits := limits t; days := ds |}.
Definition is_retained (topic : string) (t : MemoryTopicRetention) : bool := bool_decide (is_Some (topics t !! topic)).

Definition retain_topic (topic : string) (retained_at : Z) (t : MemoryTopicRetention) : MemoryTopicRetention :=
  if is_retained topic t then t
  else with_tables (<[topic := (retained_at, 0)]> (topics t)) (cursors t) (retries t) (days t) t.
Definition release_topic (topic : string) (t : MemoryTopicRetention) : MemoryTopicRetention :=
  with_tables (delete topic (topics t)) (filter (fun e : CursorKey * (Z * string) => e.1.1 <> topic) (cursors t))
    (filter (fun e : RetryKey * (Z * (Z * Z)) => e.1.1 <> topic) (retries t))
    (filter (fun e : (string * Z) * bool => e.1.1 <> topic) (days t)) t.
Definition retained_topics (limit : nat) (t : MemoryTopicRetention) : list TopicRetentionRow :=
  (fun e : string * (Z * Z) => {| rr_topic_id := e.1; rr_retained_at := e.2.1 |}) <$> take limit (map_iter (topics t)).
Definition topic_retention_cursors (topic : string) (from_bucket : Z) (t : MemoryTopicRetention) : list TopicRetentionCursor :=
  (fun e : CursorKey * (Z * string) => {| rc_index_prefix := e.1.2.1; rc_bucket := e.1.2.2; rc_created_at := e.2.1; rc_object_id := e.2.2 |})
    <$> List.filter (fun e : CursorKey * (Z * string) => bool_decide (e.1.1 = topic) && (from_bucket <=? e.1.2.2)) (map_iter (cursors t)).
Definition put_topic_retention_cursor (topic : string) (c : TopicRetentionCursor) (t : MemoryTopicRetention) : MemoryTopicRetention :=
  if is_retained topic t then
    with_tables (topics t) (<[(topic, (rc_index_prefix c, rc_bucket c)) := (rc_created_at c, rc_object_id c)]> (cursors t)) (retries t) (days t) t
  else t.
Definition prune_topic_retention_cursors (topic : string) (before_bucket : Z) (t : MemoryTopicRetention) : MemoryTopicRetention :=
  with_tables (topics t) (filter (fun e : CursorKey * (Z * string) => e.1.1 <> topic \/ before_bucket <= e.1.2.2) (cursors t)) (retries t) (days t) t.

(** *** Trying again to fetch what could not be fetched *)
Definition retries_full (t : MemoryTopicRetention) : bool := RETENTION_RETRY_LIMIT <=? Z.of_nat (size (retries t)).
Definition schedule_topic_retention_retry (topic object_kind object_id : string) (bucket now : Z) (t : MemoryTopicRetention) : MemoryTopicRetention :=
  if is_retained topic t then
    let key := (topic, (object_kind, object_id)) in
    let planned := match retries t !! key with
                   | Some (_, (attempts, _)) => Some (Z.to_nat attempts)
                   | None => if retries_full t then None else Some 0%nat
                   end in
    match (n ← planned; delay ← RETENTION_RETRY_DELAYS_MS !! n; Some (n, delay)) with
    | Some (n, delay) =>
        with_tables (topics t) (cursors t) (<[key := (bucket, (Z.of_nat n + 1, i64_saturating_add now delay))]> (retries t)) (days t) t
    | None =>
        with_tables (alter (fun e : Z * Z => (e.1, e.2 + 1)) topic (topics t)) (cursors t) (delete key (retries t)) (days t) t
    end
  else t.
Definition due_topic_retention_retries (topic : string) (now : Z) (limit : nat) (t : MemoryTopicRetention) : list TopicRetentionRetry :=
  (fun e : RetryKey * (Z * (Z * Z)) => {| rt_object_kind := e.1.2.1; rt_object_id := e.1.2.2; rt_bucket := e.2.1; rt_attempts := e.2.2.1 |})
    <$> take limit (sort_by (fun a b : RetryKey * (Z * (Z * Z)) => a.2.2.2 <=? b.2.2.2)
          (List.filter (fun e : RetryKey * (Z * (Z * Z)) => bool_decide (e.1.1 = topic) && (e.2.2.2 <=? now)) (map_iter (retries t)))).
Definition finish_topic_retention_retry (topic object_kind object_id : string) (t : MemoryTopicRetention) : MemoryTopicRetention :=
  with_tables (topics t) (cursors t) (delete (topic, (object_kind, object_id)) (retries t)) (days t) t.
Definition topic_retention_retry_counts (topic : string) (t : MemoryTopicRetention) : Z * Z :=
  (Z.of_nat (length (List.filter (fun e : RetryKey * (Z * (Z * Z)) => bool_decide (e.1.1 = topic)) (map_to_list (retries t)))),
   match topics t !! topic with Some e => e.2 | None => 0 end).
Definition topic_retention_limits (t : MemoryTopicRetention) : TopicRetentionLimits :=
  let '(d, c) := default (DEFAULT_RETENTION_DAYS, DEFAULT_RETENTION_CAPACITY_BYTES) (limits t) in
  {| retention_days := d; capacity_bytes := c; used_bytes := 0 |}.
Definition set_topic_retention_limits (d c : Z) (t : MemoryTopicRetention) : MemoryTopicRetention :=
  {| topics := topics t; cursors := cursors t; retries := retries t; limits := Some (d, c); days := days t |}.

(** *** The days of a topic *)
Definition topic_buckets (topic : string) (t : MemoryTopicRetention) : list Z :=
  (fun e : (string * Z) * bool => e.1.2) <$> List.filter (fun e : (string * Z) * bool => bool_decide (e.1.1 = topic)) (map_iter (days t)).
Definition least (l : list Z) : option Z := foldr (fun x acc => Some (match acc with None => x | Some y => Z.min x y end)) None l.
Definition greatest (l : list Z) : option Z := foldr (fun x acc => Some (match acc with None => x | Some y => Z.max x y end)) None l.
Definition drop_day_cursors (topic : string) (bucket : Z) (cs : gmap CursorKey (Z * string)) : gmap CursorKey (Z * string) :=
  filter (fun e : CursorKey * (Z * string) => e.1.1 <> topic \/ e.1.2.2 <> bucket) cs.
Definition open_day (topic : string) (t : MemoryTopicRetention) (bucket : Z) : MemoryTopicRetention :=
  with_tables (topics t) (if bool_decide (days t !! (topic, bucket) = None) then drop_day_cursors topic bucket (cursors t) else cursors t) (retries t)
    (<[(topic, bucket) := false]> (days t)) t.
Definition missing_days (topic : string) (from_bucket to_bucket : Z) (t : MemoryTopicRetention) : list Z :=
  let oldest := default (to_bucket + 1) (least (topic_buckets topic t)) in
  let newest := default to_bucket (greatest (topic_buckets topic t)) in
  seqZ from_bucket (Z.min oldest (to_bucket + 1) - from_bucket)
  ++ seqZ (Z.max from_bucket (newest + 1)) (to_bucket + 1 - Z.max from_bucket (newest + 1)).
Definition open_topic_retention_days (topic : string) (from_bucket to_bucket : Z) (t : MemoryTopicRetention) : MemoryTopicRetention :=
  if is_retained topic t then foldl (open_day topic) t (missing_days topic from_bucket to_bucket t) else t.
Definition protect_topic_retention_day (topic : string) (bucket : Z) (t : MemoryTopicRetention) : bool := bool_decide (is_Some (days t !! (topic, bucket))).
Definition next_topic_retention_backfill (topic : string) (from_bucket to_bucket : Z) (t : MemoryTopicRetention) : option Z :=
  greatest ((fun e : (string * Z) * bool => e.1.2)
    <$> List.filter (fun e : (string * Z) * bool => bool_decide (e.1.1 = topic) && (from_bucket <=? e.1.2) && (e.1.2 <=? to_bucket) && negb e.2)
          (map_iter (days t))).
Definition finish_topic_retention_day (topic : string) (bucket : Z) (t : MemoryTopicRetention) : MemoryTopicRetention :=
  with_tables (topics t) (drop_day_cursors topic bucket (cursors t)) (retries t) (alter (fun _ => true) (topic, bucket) (days t)) t.
(** Of the reclaiming only the days before the cutoff are left here: there is nothing that is protected. *)
Definition reclaim_topic_retention_step (cutoff_bucket : Z) (t : MemoryTopicRetention) : MemoryTopicRetention :=
  with_tables (topics t) (cursors t) (retries t) (filter (fun e : (string * Z) * bool => cutoff_bucket <= e.1.2) (days t)) t.

(** *** The invariant *)
Record retention_wf (t : MemoryTopicRetention) : Prop := {
  rw_few : Z.of_nat (size (retries t)) <= RETENTION_RETRY_LIMIT;
  rw_retries : map_Forall (fun k v => is_Some (topics t !! k.1) /\ 1 <= v.2.1 <= 5) (retries t);
  rw_cursors : map_Forall (fun k _ => is_Some (topics t !! k.1)) (cursors t);
  rw_days : map_Forall (fun k _ => is_Some (topics t !! k.1)) (days t);
  rw_given_up : map_Forall (fun _ e => 0 <= e.2) (topics t)
}.

Inductive RetentionOp :=
| Retain (topic : string) (retained_at : Z)
| Release (topic : string)
| PutCursor (topic : string) (c : TopicRetentionCursor)
| PruneCursors (topic : string) (before_bucket : Z)
| ScheduleRetry (topic object_kind object_id : string) (bucket now : Z)
| FinishRetry (topic object_kind object_id : string)
| SetLimits (d c : Z)
| OpenDays (topic : string) (from_bucket to_bucket : Z)
| FinishDay (topic : string) (bucket : Z)
| Reclaim (cutoff_bucket : Z).
Definition retention_step (t : MemoryTopicRetention) (op : RetentionOp) : MemoryTopicRetention :=
  match op with
  | Retain topic at_ => retain_topic topic at_ t
  | Release topic => release_topic topic t
  | PutCursor topic c => put_topic_retention_cursor topic c t
  | PruneCursors topic b => prune_topic_retention_cursors topic b t
  | ScheduleRetry topic k i b now => schedule_topic_retention_retry topic k i b now t
  | FinishRetry topic k i => finish_topic_retention_retry topic k i t
  | SetLimits d c => set_topic_retention_limits d c t
  | OpenDays topic a b => open_topic_retention_days topic a b t
  | FinishDay topic b => finish_topic_retention_day topic b t
  | Reclaim b => reclaim_topic_retention_step b t
  end.

Lemma map_Forall_sub {K V} `{Countable K} (P : K -> V -> Prop) (m m' : gmap K V) : m' ⊆ m -> map_Forall P m -> map_Forall P m'.
Proof. intros Hs Hm k v Hk. apply Hm. by eapply lookup_weaken. Qed.
#[local] Arguments retries_full : simpl never.
Lemma size_sub {K V} `{Countable K} (m m' : gmap K V) : m' ⊆ m -> Z.of_nat (size m') <= Z.of_nat (size m).
Proof. intros Hs. apply inj_le. by apply map_subseteq_size. Qed.

(** Tables that shrink, while the topics stay. *)
Lemma shrink_wf cs rs ds t :
  retention_wf t -> cs ⊆ cursors t -> rs ⊆ retries t -> ds ⊆ days t -> retention_wf (with_tables (topics t) cs rs ds t).
Proof.
  intros [H1 H2 H3 H4 H5] Hc Hr Hd. split; cbn; [|by eapply map_Forall_sub..|done].
  etrans; [by apply size_sub | done].
Qed.

Lemma release_wf topic t : retention_wf t -> retention_wf (release_topic topic t).
Proof.
  intros [H1 H2 H3 H4 H5]. split; cbn.
  - etrans; [apply size_sub, map_filter_subseteq | done].
  - intros k v [Hk Hne]%map_lookup_filter_Some. cbn in Hne. rewrite lookup_delete_ne by done. by apply H2.
  - intros k v [Hk Hne]%map_lookup_filter_Some. cbn in Hne. rewrite lookup_delete_ne by done. by eapply H3.
  - intros k v [Hk Hne]%map_lookup_filter_Some. cbn in Hne. rewrite lookup_delete_ne by done. by eapply H4.
  - by apply map_Forall_delete.
Qed.

Lemma alter_is_some {V} (f : V -> V) (m : gmap string V) i k : is_Some (alter f i m !! k) <-> is_Some (m !! k).
Proof. destruct (decide (i = k)) as [->|]; [rewrite lookup_alter_eq; apply fmap_is_Some | by rewrite lookup_alter_ne]. Qed.

Lemma retry_planned n delay : RETENTION_RETRY_DELAYS_MS !! n = Some delay -> (n < 5)%nat.
Proof. intros Hn%lookup_lt_Some. done. Qed.

Lemma schedule_wf topic k i b now t : retention_wf t -> retention_wf (schedule_topic_retention_retry topic k i b now t).
Proof.
  intros Hwf. unfold schedule_topic_retention_retry. destruct (is_retained topic t) eqn:Hret; [|done].
  unfold is_retained in Hret. apply bool_decide_eq_true in Hret.
  destruct Hwf as [H1 H2 H3 H4 H5]. set (key := (topic, (k, i))). set (planned := match retries t !! key with Some _ => _ | None => _ end).
  destruct (n ← planned; _) as [[n delay]|] eqn:E.
  - apply bind_Some in E as (n' & Hn & E). apply bind_Some in E as (d' & Hd & [= -> ->]). apply retry_planned in Hd. split; cbn; [|..|done|done|done].
    + unfold planned in Hn. destruct (retries t !! key) as [x|] eqn:Ex; [rewrite map_size_insert_Some by eauto; done|].
      rewrite map_size_insert_None by done. destruct (retries_full t) eqn:El; [done|]. apply Z.leb_gt in El. lia.
    + apply map_Forall_insert_2; [|done]. cbn. split; [done|lia].
  - split; cbn.
    + etrans; [apply size_sub, delete_subseteq | done].
    + apply map_Forall_delete. intros q v Hq. rewrite alter_is_some. by apply H2.
    + intros q v Hq. rewrite alter_is_some. by eapply H3.
    + intros q v Hq. rewrite alter_is_some. by eapply H4.
    + intros q v. rewrite lookup_alter_Some. intros [(<- & x & Hx & ->)|[_ Hq]]; [|by apply H5 in Hq].
      apply H5 in Hx. cbn in *. lia.
Qed.

(** *** Opening days *)
Lemma open_day_wf topic t b : retention_wf t -> is_Some (topics t !! topic) -> retention_wf (open_day topic t b).
Proof.
  intros [H1 H2 H3 H4 H5] Hret. split; cbn; [done|done| |by apply map_Forall_insert_2|done].
  case_bool_decide; [|done]. eapply map_Forall_sub; [apply map_filter_subseteq | done].
Qed.
Lemma open_all_wf topic l t : retention_wf t -> is_Some (topics t !! topic) -> retention_wf (foldl (open_day topic) t l).
Proof. revert t. induction l as [|b l IH]; intros t Hwf Hret; cbn; [done|]. apply IH; [by apply open_day_wf | done]. Qed.

Lemma retention_step_wf t op : retention_wf t -> retention_wf (retention_step t op).
Proof.
  intros Hwf. destruct op as [topic at_|topic|topic c|topic b|topic k i b now|topic k i|d c|topic a b|topic b|b]; cbn [retention_step].
  - unfold retain_topic. case_match; [done|]. destruct Hwf as [H1 H2 H3 H4 H5].
    assert (Hin : forall q, is_Some (topics t !! q) -> is_Some (<[topic := (at_, 0)]> (topics t) !! q)).
    { intros q Hq. rewrite lookup_insert. case_decide; eauto. }
    split; cbn; [done| | | |by apply map_Forall_insert_2].
    + intros q v Hq. destruct (H2 _ _ Hq). auto.
    + intros q v Hq. eapply Hin, H3, Hq.
    + intros q v Hq. eapply Hin, H4, Hq.
  - by apply release_wf.
  - unfold put_topic_retention_cursor. case_match eqn:E; [|done]. apply bool_decide_eq_true in E. destruct Hwf as [H1 H2 H3 H4 H5].
    split; cbn; [done|done|by apply map_Forall_insert_2|done|done].
  - apply shrink_wf; [done | apply map_filter_subseteq | done | done].
  - by apply schedule_wf.
  - apply shrink_wf; [done | done | apply delete_subseteq | done].
  - by destruct Hwf.
  - unfold open_topic_retention_days. case_match eqn:E; [|done]. apply bool_decide_eq_true in E. by apply open_all_wf.
  - destruct Hwf as [H1 H2 H3 H4 H5]. split; cbn; [done|done| | |done].
    + eapply map_Forall_sub; [apply map_filter_subseteq | done].
    + intros q v. rewrite lookup_alter_Some. intros [(<- & x & Hx & _)|[_ Hq]]; by eapply H4.
  - apply shrink_wf; [done | done | done | apply map_filter_subseteq].
Qed.
Lemma retention_run_wf ops : retention_wf (foldl retention_step no_retention ops).
Proof.
  assert (H0 : retention_wf no_retention) by (split; [done..|done]).
  revert H0. generalize no_retention. induction ops as [|op ops IH]; intros t Hwf; cbn; [done|]. by apply IH, retention_step_wf.
Qed.

(** *** How often is a fetch tried again *)
Definition attempts_of (key : RetryKey) (t : MemoryTopicRetention) : option Z := (fun v : Z * (Z * Z) => v.2.1) <$> retries t !! key.
Definition given_up (topic : string) (t : MemoryTopicRetention) : Z := (topic_retention_retry_counts topic t).2.

(** What one more failure does. *)
Lemma schedule_result topic k i b now t :
  retention_wf t -> is_retained topic t = true ->
  let key := (topic, (k, i)) in
  let t' := schedule_topic_retention_retry topic k i b now t in
  let n := default 0 (attempts_of key t) in
  (forall key', key' <> key -> retries t' !! key' = retries t !! key')
  /\ if (n <? 5) && (bool_decide (is_Some (attempts_of key t)) || negb (retries_full t))
     then retries t' !! key = Some (b, (n + 1, i64_saturating_add now (default 0 (RETENTION_RETRY_DELAYS_MS !! Z.to_nat n)))) /\ topics t' = topics t
     else retries t' !! key = None /\ given_up topic t' = given_up topic t + 1.
Proof.
  intros Hwf Hret key t' n. unfold t', schedule_topic_retention_retry. rewrite Hret. fold key. split.
  - intros key' Hne. destruct (_ ≫= _) as [[m d]|]; cbn; [by rewrite lookup_insert_ne | by rewrite lookup_delete_ne].
  - unfold n, attempts_of. unfold is_retained in Hret. apply bool_decide_eq_true in Hret as [[at_ g] Hg].
    assert (Hup : given_up topic (with_tables (alter (fun e : Z * Z => (e.1, e.2 + 1)) topic (topics t)) (cursors t) (delete key (retries t)) (days t) t)
                  = given_up topic t + 1).
    { unfold given_up, topic_retention_retry_counts. cbn. by rewrite lookup_alter_eq, Hg. }
    destruct (retries t !! key) as [[b0 [a at0]]|] eqn:Er; cbn.
    + assert (Ha := rw_retries _ Hwf _ _ Er). cbn in Ha. destruct Ha as [_ Ha].
      rewrite andb_true_r. destruct (Z.ltb_spec a 5) as [Hlt|Hge].
      * assert (Hs : exists d, RETENTION_RETRY_DELAYS_MS !! Z.to_nat a = Some d) by (apply lookup_lt_is_Some_2; cbn; lia). destruct Hs as [d Hd].
        rewrite Hd. cbn. rewrite lookup_insert_eq, Z2Nat.id by lia. done.
      * assert (Hn : RETENTION_RETRY_DELAYS_MS !! Z.to_nat a = None) by (apply lookup_ge_None_2; cbn; lia). rewrite Hn. cbn. by rewrite lookup_delete_eq.
    + destruct (retries_full t); cbn; [by rewrite lookup_delete_eq | by rewrite lookup_insert_eq].
Qed.

(** Failures one after the other, each with the bucket and the time that it is scheduled with. *)
Definition fail (topic k i : string) (t : MemoryTopicRetention) (f : Z * Z) : MemoryTopicRetention :=
  schedule_topic_retention_retry topic k i f.1 f.2 t.
Lemma fail_wf topic k i t f : retention_wf t -> is_retained topic t = true -> retention_wf (fail topic k i t f) /\ is_retained topic (fail topic k i t f) = true.
Proof.
  intros Hwf Hret. split; [by apply schedule_wf|]. unfold fail, schedule_topic_retention_retry, is_retained in *. rewrite Hret.
  apply bool_decide_eq_true in Hret. apply bool_decide_eq_true. destruct (_ ≫= _) as [[m d]|]; cbn; [done|]. by apply alter_is_some.
Qed.
Lemma failures_counted topic k i fs t n :
  retention_wf t -> is_retained topic t = true -> attempts_of (topic, (k, i)) t = Some n -> n + Z.of_nat (length fs) <= 5 ->
  let t' := foldl (fail topic k i) t fs in
  retention_wf t' /\ is_retained topic t' = true /\ attempts_of (topic, (k, i)) t' = Some (n + Z.of_nat (length fs)) /\ given_up topic t' = given_up topic t.
Proof.
  revert t n. induction fs as [|f fs IH]; intros t n Hwf Hret Hn Hle t'; cbn [foldl length] in *.
  - subst t'. split_and!; [done|done| |done]. rewrite Hn. f_equal. lia.
  - destruct (fail_wf topic k i t f Hwf Hret) as [Hwf' Hret']. destruct (schedule_result topic k i f.1 f.2 t Hwf Hret) as [_ Hs].
    cbv zeta in Hs. fold (fail topic k i t f) in Hs. rewrite Hn, bool_decide_true in Hs by eauto. change (default 0 (Some n)) with n in Hs.
    rewrite (proj2 (Z.ltb_lt n 5)) in Hs by lia. cbn [andb orb] in Hs. destruct Hs as [Hr Ht].
    assert (Hn' : attempts_of (topic, (k, i)) (fail topic k i t f) = Some (n + 1)) by (unfold attempts_of; by rewrite Hr).
    destruct (IH _ (n + 1) Hwf' Hret' Hn') as (Hwf2 & Hret2 & Ha & Hg); [lia|]. split_and!; [done|done| |].
    + unfold t'. rewrite Ha. f_equal. lia.
    + unfold t'. rewrite Hg. unfold given_up, topic_retention_retry_counts. cbn. by rewrite Ht.
Qed.

(** Whatever is kept, fetched and released, at most [RETENTION_RETRY_LIMIT] fetches wait to
    be tried again, each for a topic that is kept and at most for the fifth time; and when a
    fetch fails again and again it is tried five times and then given up, which is counted once. *)
Theorem retries_are_bounded ops :
  let t := foldl retention_step no_retention ops in
  Z.of_nat (size (retries t)) <= RETENTION_RETRY_LIMIT
  /\ (forall topic k i v, retries t !! (topic, (k, i)) = Some v -> is_retained topic t = true /\ 1 <= v.2.1 <= 5)
  /\ forall topic k i first fs last,
       is_retained topic t = true -> attempts_of (topic, (k, i)) t = None -> retries_full t = false -> length fs = 4%nat ->
       let t5 := foldl (fail topic k i) (fail topic k i t first) fs in
       attempts_of (topic, (k, i)) t5 = Some 5 /\ given_up topic t5 = given_up topic t
       /\ attempts_of (topic, (k, i)) (fail topic k i t5 last) = None /\ given_up topic (fail topic k i t5 last) = given_up topic t + 1.
Proof.
  intros t. assert (Hwf : retention_wf t) by apply retention_run_wf. split_and!; [apply Hwf| |].
  - intros topic k i v Hv. destruct (rw_retries _ Hwf _ _ Hv) as [Hret Ha]. split; [|done]. by apply bool_decide_eq_true.
  - intros topic k i f fs f' Hret Hnone Hroom Hfs t5.
    destruct (fail_wf topic k i t f Hwf Hret) as [Hwf1 Hret1]. destruct (schedule_result topic k i f.1 f.2 t Hwf Hret) as [_ Hs].
    cbv zeta in Hs. fold (fail topic k i t f) in Hs. rewrite Hnone, Hroom in Hs. change (default 0 None) with 0 in Hs. rewrite orb_true_r in Hs. cbn [andb Z.ltb Z.compare] in Hs.
    destruct Hs as [Hr Ht].
    assert (H1 : attempts_of (topic, (k, i)) (fail topic k i t f) = Some 1) by (unfold attempts_of; by rewrite Hr).
    assert (Hg1 : given_up topic (fail topic k i t f) = given_up topic t) by (unfold given_up, topic_retention_retry_counts; cbn; by rewrite Ht).
    destruct (failures_counted topic k i fs _ 1 Hwf1 Hret1 H1) as (Hwf5 & Hret5 & Ha5 & Hg5); [rewrite Hfs; done|]. fold t5 in Hwf5, Hret5, Ha5, Hg5.
    rewrite Hfs in Ha5. destruct (schedule_result topic k i f'.1 f'.2 t5 Hwf5 Hret5) as [_ Hs]. cbv zeta in Hs. fold (fail topic k i t5 f') in Hs.
    change (1 + Z.of_nat 4) with 5 in Ha5. rewrite Ha5 in Hs. change (default 0 (Some 5)) with 5 in Hs. change (5 <? 5) with false in Hs.
    cbn [andb] in Hs. destruct Hs as [Hr6 Hg6]. split_and!; [done|congruence| |].
    + unfold attempts_of. by rewrite Hr6.
    + by rewrite Hg6, Hg5, Hg1.
Qed.

(** *** The days of a topic have no gaps *)
Lemma least_spec l : match least l with None => l = [] | Some x => x ∈ l /\ forall y, y ∈ l -> x <= y end.
Proof.
  induction l as [|y l IH]; [done|]. cbn [least foldr]. fold (least l). destruct (least l) as [x|].
  - destruct IH as [Hx Hmin]. split.
    + destruct (Z.min_spec y x) as [[_ ->]|[_ ->]]; [apply list_elem_of_here | by apply list_elem_of_further].
    + intros z [->|Hz]%elem_of_cons; [lia|]. specialize (Hmin z Hz). lia.
  - subst l. split; [apply list_elem_of_here|]. intros z ->%list_elem_of_singleton. lia.
Qed.
Lemma greatest_spec l : match greatest l with None => l = [] | Some x => x ∈ l /\ forall y, y ∈ l -> y <= x end.
Proof.
  induction l as [|y l IH]; [done|]. cbn [greatest foldr]. fold (greatest l). destruct (greatest l) as [x|].
  - destruct IH as [Hx Hmax]. split.
    + destruct (Z.max_spec y x) as [[_ ->]|[_ ->]]; [by apply list_elem_of_further | apply list_elem_of_here].
    + intros z [->|Hz]%elem_of_cons; [lia|]. specialize (Hmax z Hz). lia.
  - subst l. split; [apply list_elem_of_here|]. intros z ->%list_elem_of_singleton. lia.
Qed.
Lemma elem_of_topic_buckets topic t b : b ∈ topic_buckets topic t <-> is_Some (days t !! (topic, b)).
Proof.
  unfold topic_buckets, map_iter. rewrite list_elem_of_fmap. setoid_rewrite elem_of_filter_bool. setoid_rewrite elem_of_sort_by. split.
  - intros ([[topic' b'] v] & -> & Hin%elem_of_map_to_list & Ht%bool_decide_eq_true). cbn in *. subst. eauto.
  - intros [v Hv]. exists ((topic, b), v). split; [done|]. split; [by apply elem_of_map_to_list | by apply bool_decide_eq_true].
Qed.
Lemma open_all_days topic l t b :
  days (foldl (open_day topic) t l) !! (topic, b) = if bool_decide (b ∈ l) then Some false else days t !! (topic, b).
Proof.
  revert t. induction l as [|x l IH]; intros t; cbn [foldl]; [done|]. rewrite IH. cbn. destruct (decide (b = x)) as [->|Hne].
  - rewrite lookup_insert_eq, (bool_decide_true (x ∈ x :: l)) by apply list_elem_of_here. by case_bool_decide.
  - rewrite lookup_insert_ne by congruence. do 2 case_bool_decide; try done; set_solver.
Qed.

(** Opening the days of a window that touches the days that are there leaves no gap between
    them; days that were there keep their state, and the new ones are to be read. *)
Lemma days_stay_contiguous topic from_bucket to_bucket lo hi t :
  is_retained topic t = true -> from_bucket <= to_bucket -> lo <= hi -> from_bucket <= hi + 1 -> lo <= to_bucket + 1 ->
  (forall b, is_Some (days t !! (topic, b)) <-> lo <= b <= hi) ->
  forall b, days (open_topic_retention_days topic from_bucket to_bucket t) !! (topic, b)
    = if (lo <=? b) && (b <=? hi) then days t !! (topic, b)
      else if (Z.min lo from_bucket <=? b) && (b <=? Z.max hi to_bucket) then Some false else None.
Proof.
  intros Hret Hft Hlh Hf Hto Hint b. unfold open_topic_retention_days. rewrite Hret, open_all_days.
  assert (Hlo : least (topic_buckets topic t) = Some lo).
  { assert (Hl := least_spec (topic_buckets topic t)). assert (Hin : lo ∈ topic_buckets topic t) by (apply elem_of_topic_buckets, Hint; lia).
    destruct (least _) as [x|]; [|rewrite Hl in Hin; by apply elem_of_nil in Hin]. destruct Hl as [Hx Hmin]. specialize (Hmin lo Hin).
    apply elem_of_topic_buckets, Hint in Hx. f_equal. lia. }
  assert (Hhi : greatest (topic_buckets topic t) = Some hi).
  { assert (Hl := greatest_spec (topic_buckets topic t)). assert (Hin : hi ∈ topic_buckets topic t) by (apply elem_of_topic_buckets, Hint; lia).
    destruct (greatest _) as [x|]; [|rewrite Hl in Hin; by apply elem_of_nil in Hin]. destruct Hl as [Hx Hmax]. specialize (Hmax hi Hin).
    apply elem_of_topic_buckets, Hint in Hx. f_equal. lia. }
  assert (Hm : b ∈ missing_days topic from_bucket to_bucket t <-> from_bucket <= b < lo \/ hi < b <= to_bucket).
  { unfold missing_days. rewrite Hlo, Hhi. cbn [default from_option]. unfold id. rewrite elem_of_app, !elem_of_seqZ. lia. }
  assert (Hnone : ~ (lo <= b <= hi) -> days t !! (topic, b) = None).
  { intros Hout. apply eq_None_not_Some. by rewrite Hint. }
  destruct (Z.leb_spec lo b), (Z.leb_spec b hi), (Z.leb_spec (Z.min lo from_bucket) b), (Z.leb_spec b (Z.max hi to_bucket)); cbn [andb];
    (case_bool_decide as Hb; rewrite Hm in Hb); try done; try (apply Hnone; lia); try lia.
Qed.
End Retention.

(** ** Concrete tables *)
Module StoreDemo.
Definition withdrawal (generation : Z) (envelope : string) : Withdrawals.PostWithdrawalRow :=
  {| Withdrawals.wd_target_object_id := "post"; Withdrawals.wd_target_author_pubkey := "author"; Withdrawals.wd_source_replica_id := "replica";
     Withdrawals.wd_envelope_id := envelope; Withdrawals.wd_withdrawn_at := 5; Withdrawals.wd_generation := generation;
     Withdrawals.wd_replacement_object_id := None; Withdrawals.wd_reason_visibility := Withdrawals.ReasonPublic;
     Withdrawals.wd_reason := Some Withdrawals.AuthorRequest |}.

(** The first and the second withdrawal of a post, in both orders. *)
Lemma withdrawals_converge_witness :
  Withdrawals.received [withdrawal 1 "a"; withdrawal 2 "b"] = Withdrawals.received [withdrawal 2 "b"; withdrawal 1 "a"; withdrawal 1 "a"].
Proof.
  apply (Withdrawals.withdrawals_converge [withdrawal 1 "a"; withdrawal 2 "b"] [withdrawal 2 "b"; withdrawal 1 "a"; withdrawal 1 "a"]).
  - intros r. rewrite !elem_of_cons. tauto.
  - intros r r' Hr Hr' Hid. apply elem_of_cons in Hr as [->|Hr]; [|apply list_elem_of_singleton in Hr as ->];
      (apply elem_of_cons in Hr' as [->|Hr']; [|apply list_elem_of_singleton in Hr' as ->]); first [reflexivity | discriminate Hid].
Defined.

Definition post (id : string) (created_at : Z) (root : option string) : ObjectProjectionRow :=
  {| op_object_id := id; op_topic_id := "topic"; op_channel_id := "public"; op_author_pubkey := "author"; op_created_at := created_at;
     op_object_kind := "post"; op_root_object_id := root; op_reply_to_object_id := root; op_payload_ref := InlineText "text"; op_content := None;
     op_attachments := []; op_repost_of := None; op_content_labels := []; op_live := None; op_source_replica_id := "replica";
     op_source_key := "key"; op_source_envelope_id := "envelope"; op_source_blob_hash := None; op_source_docs_author := None;
     op_derived_at := 0; op_projection_version := 3 |}.
(** The first answer is dated before its root. *)
Definition thread_posts : list ObjectProjectionRow :=
  [post "root" 10 None; post "late" 12 (Some "root"); post "early" 5 (Some "root")]%string.

Example thread_in_pages_of_one :
  let t := Projections.put_object_projections (MetaverseRoomStateV1 := unit) thread_posts Projections.no_projections in
  fmap (M:=list) op_object_id <$> Projections.walk 5 (fun c => Projections.list_thread "topic" "root" c 1 t) None = Some ["root"; "early"; "late"]%string.
Proof. cbv zeta. by_vm. Qed.

Lemma pages_are_complete_witness :
  exists fuel l,
    Projections.walk fuel (fun c => Projections.list_thread_filtered "topic" "root" None c 1
      (foldl Projections.object_step (Projections.no_projections (MetaverseRoomStateV1 := unit)) [Projections.PutObjects thread_posts])) None = Some l
    /\ op_object_id <$> l = ["root"; "early"; "late"]%string.
Proof.
  destruct (Projections.pages_are_complete (MetaverseRoomStateV1 := unit) [Projections.PutObjects thread_posts] 1 (le_n 1)) as [Hthread _].
  destruct (Hthread "topic" "root" None)%string as [fuel Hw]. exists fuel. eexists. split; [exact Hw | vm_compute; reflexivity].
Defined.

Lemma retries_are_bounded_at :
  let t := foldl Retention.retention_step Retention.no_retention [Retention.Retain "topic" 0] in
  let t5 := foldl (Retention.fail "topic" "post" "id") (Retention.fail "topic" "post" "id" t (20, 0)) [(20, 1); (20, 2); (20, 3); (20, 4)] in
  Retention.attempts_of ("topic", ("post", "id"))%string (Retention.fail "topic" "post" "id" t5 (20, 5)) = None.
Proof.
  destruct (Retention.retries_are_bounded [Retention.Retain "topic" 0]) as (_ & _ & H).
  apply (H "topic" "post" "id" (20, 0) [(20, 1); (20, 2); (20, 3); (20, 4)] (20, 5))%string; vm_compute; reflexivity.
Qed.
End StoreDemo.
